(* ===== verification/_CoqProject ===== *)
-Q . S2P
Prelude.v
Limbs.v
BtcPow.v
PowTarget.v
Asert.v
Bytes.v
Positional.v
Sha256.v
Ripemd160.v
StateDigest.v
MintNullifier.v
RedeemArchive.v
NullifierRules.v
RedeemArchiveRules.v
NullifierSafety.v
Profile.v
Transaction.v
Block.v
Address.v
OpAuthorization.v
Marker.v
Coinbase.v
FinalityQc.v
FinalitySnapshot.v
FinalityVotes.v
FinalityState.v
Validators.v
BondYield.v
MapSum.v
BtcHeaderChain.v
BtcHeaderRules.v
BtcHeaderSafety.v
Staking.v
StakingRules.v
StakingSafety.v
EndorsementWire.v
ValidatorOps.v
ValidatorRules.v
ValidatorSafety.v
ValidatorStaking.v
FinalityCodec.v
BtcTx.v
SignerBond.v
Reserve.v
ReserveProof.v
ReserveProofRules.v
ReserveWire.v
ReserveSafety.v
AmmMath.v
TokenLedger.v
TokenRules.v
Amm.v
AmmRules.v
AmmSafety.v
TokenBlock.v
RedeemFeed.v
TokenBlockRules.v
TokenPayout.v
TokenMint.v
TokenBlockSafety.v
RedeemRules.v
RedeemSafety.v
FinalityNode.v
