(* ===== verification/Prelude.v ===== *)
(** * Veld: a verification library for the consensus code of the Veld node

    Veld is a proof-of-work chain with post-quantum signatures, a validator registry that
    finalises checkpoints, staking, and a Bitcoin peg: btcVELD, a token backed by one
    Bitcoin output, with a Bitcoin header relay inside consensus and a constant-product pool
    against the native coin.  The code is header-only C++ under [src/include]; the node
    drives it block by block.  This library models the parts that decide which blocks are
    valid and what they do to consensus state, in the public-mainnet profile, and proves
    the properties the system rests on.

    ** Parts and files

    - Arithmetic: [Limbs] (32-bit limb arrays), [BtcPow] ([core/btc_pow.h]: 256-bit
      integers, compact targets, work), [PowTarget] ([core/pow_target.h],
      [core/chain_work.h]), [Asert] ([core/asert.h]), [Positional], [MapSum].
    - Bytes and hashes: [Bytes] (little-endian integers, readers, hexadecimal text),
      [Sha256] (the streaming class of [crypto/vendored.h]), [Ripemd160], [StateDigest]
      ([consensus/state_digest.h]).
    - Chain data: [Profile] (constants and height gates), [Transaction], [Block], [Address]
      (scripts, Base58Check, lock times), [OpAuthorization] (signature hash and the
      authorization of ledger operations), [Marker] (OP_RETURN grammar and guards),
      [Coinbase] (reward split, coinbase validators, supply).
    - Finality: [FinalityQc], [FinalitySnapshot], [FinalityVotes], [FinalityState],
      [FinalityCodec], and [FinalityNode] (the pipeline of [node/node.h] and the fork choice
      of [core/blockchain.h]).
    - Validators and staking: [Validators], [BondYield], [EndorsementWire], [ValidatorOps],
      [ValidatorRules], [ValidatorSafety] ([consensus/validators.h]); [Staking],
      [StakingRules], [StakingSafety] ([consensus/staking.h]); [ValidatorStaking] joins the
      two.
    - Bitcoin and the peg: [BtcHeaderChain], [BtcHeaderRules], [BtcHeaderSafety]
      ([core/btc_header_chain.h]); [BtcTx] ([core/btc_deposit_verify.h]: Bitcoin
      transactions); [MintNullifier], [NullifierRules], [NullifierSafety]
      ([consensus/btcveld_mint_nullifier.h]: the sparse Merkle set of spent deposits);
      [Reserve], [ReserveProof], [ReserveProofRules], [ReserveWire], [ReserveSafety]
      ([consensus/btcveld_reserve_transition.h]: the reserve account, the classifier of
      Bitcoin spends and the verifier of transition proofs); [TokenLedger], [TokenRules]
      ([core/onchain_tokens.h] and the peg gates: the account); [AmmMath], [Amm],
      [AmmRules], [AmmSafety] ([core/amm_pool.h]); [TokenBlock], [TokenBlockRules],
      [TokenPayout], [TokenMint], [TokenBlockSafety] ([core/onchain_tokens.h] again: markers, carriers of
      reserve proofs, blocks, relayed payouts).
    - Redemptions: [RedeemArchive], [RedeemArchiveRules] ([consensus/redeem_archive.h]: the
      tree of closed requests); [SignerBond] ([consensus/btcveld_signer_bond.h]: requests,
      locks and verdicts); [RedeemFeed] ([FeedRedeemCovenant_] of [node/node.h] and the proofs
      of custody spends of [consensus/btcveld_redeem_spv.h]); [RedeemRules], [RedeemSafety].

    A file named after a header holds its data and operations under the names of the source;
    the files ending in [Rules] hold the invariants and what each operation does, the files
    ending in [Safety] the theorems about runs.  Blocks flow through the parts in the order
    the node uses: coinbase and supply, markers of the registry and the staking ledger, the
    header relay, token markers, the redemption covenant, the pool, the finality carrier.  The
    registry calls the
    staking ledger through two functions (stake of an address, slash lock-up), a parameter
    of [ValidatorOps] that [ValidatorStaking] instantiates with [Staking]; the pool calls
    the token ledger directly.

    ** How code is modelled

    Machine integers are [Z] with their conversions written out ([u8] .. [u64], [i64]); sums
    the code checks against overflow keep the check.  Byte vectors, strings and hashes are
    lists of bytes; maps are [gmap], or association lists where order or duplicates matter.
    Mutation is state passing; [option] is a refusal, and where the code mutates before it
    refuses the model returns the state the refusal leaves.  Reading of wire formats uses
    the [reader] monad of [Bytes].  Locks and caches of values are left out.

    Code that is not part of the repository is a parameter: the ML-DSA-65 verifier
    ([crypto_sign_verify], any function of signature, message and key), and in
    [FinalityNode] the other block-driven modules, which are universally quantified.
    Theorems hold for every verifier; statements about forgery say that a signature the
    verifier accepts exists.  Binding theorems for hashes conclude that equal digests mean
    equal data when SHA-256 does not collide on the inputs they list.

    ** Theorems

    - Finality: two conflicting checkpoints cannot both be certified unless a third of the
      weight signed conflicting votes; the retained state follows an abstract ledger; a
      reorganisation never drops a finalised checkpoint; wire forms round-trip.
    - Money: the supply follows the emission schedule and never exceeds the cap; an accepted
      coinbase pays exactly the allocation; bond yield is conserved; principal of stake and
      bonds leaves only by its rules and outlives the window in which it can be slashed.
    - Registry and staking: invariants of both ledgers over all runs, exact evidence,
      permanence of slashing, refused blocks change nothing but one flag.
    - Bitcoin relay: stored headers are valid, the tip has the most work, observed
      checkpoints are never left, bounded walks always reach the checkpoint.
    - Bitcoin proofs: a deposit is minted at most once and only when a final Bitcoin
      transaction moves at least as much into custody; its recipient is the one the
      depositor committed to; a payout pays the principal exactly; the verifier accepts what
      the shared classifier accepts; proofs and states have one wire form.
    - Token blocks: an accepted block is a sequence of the account's operations, a refused
      one changes nothing, a block and the calls after it use at most one reserve edge, and
      a payout that Bitcoin shows can be applied without the signers; a block whose carrier
      holds an acceptable proof of a fresh deposit is accepted and mints it ([TokenMint]).
    - Redemptions: the open principal is the sum of the open requests after every block; a
      default restores the holder exactly, or refuses the block when the holder would stay
      below the account floor; the archive of closed requests answers like a map.
    - Peg and pool: the reserve covers every balance and redemption in every reachable
      state; the pool owns exactly what its record says; no order of operations dilutes
      liquidity; balances and positions fall only with the owner's signature; the block
      guard and the block transition agree; a quote charges the only consistent fee.
    - Data: transactions, addresses, targets and certificates round-trip, Merkle roots,
      signature hashes and state digests bind, SHA-256 streaming equals the one-shot hash,
      ASERT equals its closed form.

    ** Fuel

    Loops of the code that are not structural carry fuel, with a lemma that it suffices:
    [ISQRT_FUEL] (the floating estimate of a 63-bit root is off by less than 16384),
    [ratio_search] 15 and [v2b_search] 65 (halvings of the interval), [push_carry] 2 (a
    carry below the square of the base), the ancestor walks of the header chain (the number
    of stored headers, [bounded_walks_complete]), [WALK] 257 (a path of the archive has at
    most 256 branches and a leaf), [split_fields] (the length of the text).

    ** Not modelled

    Networking, storage, user interfaces, wallets, mining and the services around the node
    (input and output around the modelled state machines, or performance code); ML-DSA and
    the ciphers (parameters); the coin database and block connection around the ledgers;
    the script interpreter, governance, the mempool, the deposit formats that the public
    profile retires (C1 funding proofs, MSPV mints, issuer memos), the mempool filters,
    digest and persistence of the token ledger, the payout and fraud verdicts of the covenant
    that the public profile replaces by reserve transitions, the anchors of Veld blocks in
    Bitcoin, and the daemon that signs votes; the texts of diagnostics. *)

From Stdlib Require Export ZArith Lia.
From stdpp Require Export base numbers list gmap strings.

#[global] Open Scope Z_scope.

(** ** Machine widths *)

(** [wrap w x] is the value a [w]-bit unsigned C++ integer holds after [x] has
    been converted to it. *)
Definition wrap (w x : Z) : Z := x mod 2 ^ w.

Abbreviation u8 := (wrap 8).
Abbreviation u16 := (wrap 16).
Abbreviation u32 := (wrap 32).
Abbreviation u64 := (wrap 64).

Definition UINT16_MAX : Z := 2 ^ 16 - 1.
Definition UINT32_MAX : Z := 2 ^ 32 - 1.
Definition UINT64_MAX : Z := 2 ^ 64 - 1.

(** [fits w x]: [x] is representable in an unsigned [w]-bit integer. *)
Definition fits (w x : Z) : Prop := 0 <= x < 2 ^ w.

#[global] Instance fits_dec w x : Decision (fits w x).
Proof. unfold fits. apply _. Defined.

Create HintDb veld.

Lemma wrap_fits w x : 0 <= w -> fits w (wrap w x).
Proof. intros. unfold fits, wrap. apply Z.mod_pos_bound. lia. Qed.

(** The low 32 bits of an intermediate result, as the rounds of the hash functions keep them:
    the same value as [u32], by a mask instead of a division. *)
Definition low32 (x : Z) : Z := Z.land x 0xffffffff.

Lemma low32_eq x : low32 x = u32 x.
Proof. unfold low32, wrap. change 0xffffffff with (Z.ones 32). by rewrite Z.land_ones by lia. Qed.

Lemma wrap_id w x : fits w x -> wrap w x = x.
Proof. unfold fits, wrap. intros. by apply Z.mod_small. Qed.

Lemma wrap_idem w x : 0 <= w -> wrap w (wrap w x) = wrap w x.
Proof. intros. by apply wrap_id, wrap_fits. Qed.

Lemma fits_mono w w' x : 0 <= w <= w' -> fits w x -> fits w' x.
Proof.
  unfold fits. intros Hw Hx. split; [lia|].
  apply Z.lt_le_trans with (2 ^ w); [lia|]. apply Z.pow_le_mono_r; lia.
Qed.

#[export] Hint Resolve wrap_fits : veld.
#[export] Hint Extern 1 (0 <= _) => lia : veld.

(** ** Tactics *)

(** Split every conditional and [match] that guards a hypothesis, closing the
    branches that contradict it. *)
Ltac split_guard H :=
  match type of H with
  | context [if ?b then _ else _] => destruct b eqn:?; try discriminate H
  | context [match ?o with Some _ => _ | None => _ end] =>
      destruct o eqn:?; try discriminate H
  | context [match ?p with (_, _) => _ end] => destruct p eqn:?
  end.
Ltac split_guards H := repeat (split_guard H).

(** The same for the goal. *)
Ltac split_goal :=
  match goal with
  | |- context [if ?b then _ else _] => destruct b eqn:?
  | |- context [match ?o with Some _ => _ | None => _ end] => destruct o eqn:?
  end.

(** Turn conjunctions of boolean tests into conjunctions of propositions. *)
Ltac bool_hyps :=
  repeat match goal with
  | H : (_ && _) = true |- _ => apply andb_true_iff in H; destruct H
  | H : (_ || _) = false |- _ => apply orb_false_iff in H; destruct H
  | H : negb _ = true |- _ => apply negb_true_iff in H
  | H : negb _ = false |- _ => apply negb_false_iff in H
  | H : bool_decide _ = true |- _ => apply bool_decide_eq_true_1 in H
  | H : bool_decide _ = false |- _ => apply bool_decide_eq_false_1 in H
  end.

(** A literal list of integers is a list of [w]-bit integers. *)
Ltac fits_list :=
  repeat first [apply Forall_nil_2 | apply Forall_cons_2];
  first [assumption | (unfold fits in *; lia)].
