(* ===== verification/Limbs.v ===== *)
(** * Little-endian arrays of 32-bit limbs

    The fixed-width integers of [include/core/btc_pow.h] (eight limbs) and
    [include/core/chain_work.h] (ten limbs) run the same limb loops.  This file
    holds those loops, as functions on lists of limbs, and their meaning as
    integers through [lval]. *)

From S2P Require Import Prelude.

(** ** Meaning of a limb array *)

Fixpoint lval (l : list Z) : Z :=
  match l with
  | [] => 0
  | x :: l' => x + 2 ^ 32 * lval l'
  end.

Definition wf_limbs (n : nat) (l : list Z) : Prop :=
  length l = n /\ Forall (fits 32) l.

(** ** Loops *)

(** [for (i = 0; i < n; ++i) { s = a[i] + b[i] + carry; r[i] = (uint32_t)s;
    carry = s >> 32; }] *)
Fixpoint add_limbs (a b : list Z) (carry : Z) : list Z * Z :=
  match a, b with
  | x :: a', y :: b' =>
      let s := u64 (x + y + carry) in
      let '(r, c) := add_limbs a' b' (Z.shiftr s 32) in
      (u32 s :: r, c)
  | _, _ => ([], carry)
  end.

(** [d = (int64_t)a[i] - b[i] - borrow; if (d < 0) { d += 1 << 32; borrow = 1; }
    else borrow = 0; r[i] = (uint32_t)d;] *)
Fixpoint sub_limbs (a b : list Z) (borrow : Z) : list Z * Z :=
  match a, b with
  | x :: a', y :: b' =>
      let d := x - y - borrow in
      if d <? 0
      then let '(r, c) := sub_limbs a' b' 1 in (u32 (d + Z.shiftl 1 32) :: r, c)
      else let '(r, c) := sub_limbs a' b' 0 in (u32 d :: r, c)
  | _, _ => ([], borrow)
  end.

(** [p = (uint64_t)a[i] * m + carry; r[i] = (uint32_t)p; carry = p >> 32;] *)
Fixpoint mul_limbs (a : list Z) (m carry : Z) : list Z * Z :=
  match a with
  | x :: a' =>
      let p := u64 (x * m + carry) in
      let '(r, c) := mul_limbs a' m (Z.shiftr p 32) in
      (u32 p :: r, c)
  | [] => ([], carry)
  end.

(** From the most significant limb down:
    [cur = (r << 32) | a[i]; q[i] = (uint32_t)(cur / m); r = cur % m;] *)
Fixpoint div_limbs (a : list Z) (m : Z) : list Z * Z :=
  match a with
  | x :: a' =>
      let '(q, r) := div_limbs a' m in
      let cur := Z.lor (u64 (Z.shiftl r 32)) x in
      (u32 (cur / m) :: q, cur mod m)
  | [] => ([], 0)
  end.

(** Three-way comparison of the limbs [0 .. i-1], most significant first. *)
Fixpoint cmp_limbs (a b : list Z) (i : nat) : Z :=
  match i with
  | O => 0
  | S i' =>
      if nth i' a 0 <? nth i' b 0 then -1
      else if nth i' a 0 >? nth i' b 0 then 1
      else cmp_limbs a b i'
  end.

(** [while (x) { x >>= 1; ++b; }]; 32 iterations exhaust a 32-bit limb. *)
Fixpoint count_bits (fuel : nat) (x b : Z) : Z :=
  match fuel with
  | O => b
  | S fuel' => if x =? 0 then b else count_bits fuel' (Z.shiftr x 1) (b + 1)
  end.

(** Scan from limb [i-1] down to limb 0 for the highest nonzero limb. *)
Fixpoint bit_length_limbs (a : list Z) (i : nat) : Z :=
  match i with
  | O => 0
  | S i' =>
      if nth i' a 0 =? 0 then bit_length_limbs a i'
      else Z.of_nat i' * 32 + count_bits 32 (nth i' a 0) 0
  end.

(** ** Value and bounds *)

Lemma lval_bounds l :
  Forall (fits 32) l -> 0 <= lval l < 2 ^ (32 * Z.of_nat (length l)).
Proof.
  unfold fits. induction 1 as [|x l Hx Hl IH]; simpl lval; simpl length; [done|].
  rewrite Nat2Z.inj_succ, Z.mul_succ_r, Z.pow_add_r by lia. nia.
Qed.

Lemma lval_wf n l : wf_limbs n l -> 0 <= lval l < 2 ^ (32 * Z.of_nat n).
Proof. intros [<- H]. by apply lval_bounds. Qed.

Lemma lval_app a b : lval (a ++ b) = lval a + 2 ^ (32 * Z.of_nat (length a)) * lval b.
Proof.
  induction a as [|x a IH]; simpl lval; simpl length; [lia|].
  rewrite IH, Nat2Z.inj_succ, Z.mul_succ_r, (Z.pow_add_r _ _ 32) by lia. ring.
Qed.

Lemma lval_replicate_0 n : lval (replicate n 0) = 0.
Proof. induction n; simpl; lia. Qed.

Lemma lval_inj a b :
  Forall (fits 32) a -> Forall (fits 32) b -> length a = length b ->
  lval a = lval b -> a = b.
Proof.
  unfold fits. intros Ha. revert b.
  induction Ha as [|x a Hx Ha IH]; intros [|y b] Hb Hl Hv; try done.
  inversion_clear Hb. simpl in Hv. assert (x = y /\ lval a = lval b) as [-> Hv'] by lia.
  f_equal. apply IH; auto.
Qed.

Lemma nth_fits l i : Forall (fits 32) l -> fits 32 (nth i l 0).
Proof.
  intros H. destruct (decide (i < length l)%nat).
  - apply Forall_nth; auto.
  - rewrite nth_overflow by lia. unfold fits. lia.
Qed.

Lemma take_S_nth (l : list Z) i :
  (i < length l)%nat -> take (S i) l = take i l ++ [nth i l 0].
Proof.
  intros H. destruct (lookup_lt_is_Some_2 l i H) as [x Hx].
  by rewrite (take_S_r _ _ x Hx), (nth_lookup_Some _ _ _ _ Hx).
Qed.

Lemma lval_take_S l i :
  (i < length l)%nat ->
  lval (take (S i) l) = lval (take i l) + 2 ^ (32 * Z.of_nat i) * nth i l 0.
Proof.
  intros H. rewrite take_S_nth, lval_app by done. simpl lval.
  rewrite length_take, Nat.min_l by lia. lia.
Qed.

Lemma lval_take_bounds l i :
  Forall (fits 32) l -> (i <= length l)%nat ->
  0 <= lval (take i l) < 2 ^ (32 * Z.of_nat i).
Proof.
  intros Hl Hi. pose proof (lval_bounds (take i l)) as H.
  rewrite length_take, Nat.min_l in H by lia. by apply H, Forall_take.
Qed.

(** ** Bits of a limb array *)

Lemma testbit_add_mul x y i n :
  0 <= n -> 0 <= x < 2 ^ n -> 0 <= i ->
  Z.testbit (x + 2 ^ n * y) i = if i <? n then Z.testbit x i else Z.testbit y (i - n).
Proof.
  intros Hn Hx Hi.
  assert (x = (x + 2 ^ n * y) mod 2 ^ n) as Hlo.
  { rewrite Z.mul_comm, Z_mod_plus_full. symmetry. by apply Z.mod_small. }
  assert (y = Z.shiftr (x + 2 ^ n * y) n) as Hhi.
  { rewrite Z.shiftr_div_pow2, Z.mul_comm, Z.div_add by lia. rewrite Z.div_small; lia. }
  destruct (i <? n) eqn:E.
  - rewrite Hlo at 2. rewrite Z.mod_pow2_bits_low by lia. done.
  - rewrite Hhi at 2. rewrite Z.shiftr_spec by lia. f_equal. lia.
Qed.

Lemma testbit_fits_high w x i : fits w x -> w <= i -> Z.testbit x i = false.
Proof.
  unfold fits. intros Hx Hi. destruct (Z.ltb_spec w 0).
  { rewrite Z.pow_neg_r in Hx by lia. lia. }
  rewrite <- (Z.mod_small x (2 ^ w)) by lia. rewrite Z.mod_pow2_bits_high; [done|lia].
Qed.

Lemma lval_testbit l i :
  Forall (fits 32) l -> 0 <= i ->
  Z.testbit (lval l) i = Z.testbit (nth (Z.to_nat (i / 32)) l 0) (i mod 32).
Proof.
  intros Hl. revert i. induction Hl as [|x l Hx Hl IH]; intros i Hi; simpl lval.
  - rewrite Z.bits_0. destruct (Z.to_nat (i / 32)); simpl; by rewrite Z.bits_0.
  - rewrite testbit_add_mul by (try done; lia). destruct (Z.ltb_spec i 32).
    + rewrite Z.div_small, Z.mod_small by lia. done.
    + rewrite IH by lia.
      replace (Z.to_nat (i / 32)) with (S (Z.to_nat ((i - 32) / 32))).
      * simpl nth. f_equal. replace i with (i - 32 + 1 * 32) at 2 by lia.
        by rewrite Z_mod_plus_full.
      * replace i with (i - 32 + 1 * 32) at 2 by lia. rewrite Z.div_add by lia.
        assert (0 <= (i - 32) / 32) by (apply Z.div_pos; lia). lia.
Qed.

(** A limb array computed position by position. *)
Lemma lval_testbit_map (f : nat -> Z) n i :
  (forall k, (k < n)%nat -> fits 32 (f k)) -> 0 <= i -> i < 32 * Z.of_nat n ->
  Z.testbit (lval (map f (seq 0 n))) i = Z.testbit (f (Z.to_nat (i / 32))) (i mod 32).
Proof.
  intros Hf Hi Hn.
  assert (0 <= i / 32 < Z.of_nat n) as Hk.
  { split; [apply Z.div_pos; lia|]. apply Z.div_lt_upper_bound; lia. }
  assert (Forall (fits 32) (map f (seq 0 n))) as Hw.
  { apply Forall_map, Forall_forall. intros k ?%elem_of_seq. apply Hf. lia. }
  rewrite lval_testbit by done.
  f_equal. rewrite (nth_indep _ 0 (f 0%nat)) by (rewrite length_map, length_seq; lia).
  rewrite map_nth, seq_nth by lia. done.
Qed.

(** ** Correctness of the loops *)

Lemma u64_low_high s :
  fits 64 s -> u32 s + 2 ^ 32 * Z.shiftr s 32 = s /\ fits 32 (u32 s) /\ fits 32 (Z.shiftr s 32).
Proof.
  unfold fits, wrap. intros Hs. rewrite Z.shiftr_div_pow2 by lia.
  pose proof (Z.div_mod s (2 ^ 32)). pose proof (Z.mod_pos_bound s (2 ^ 32)).
  assert (0 <= s / 2 ^ 32 < 2 ^ 32); [|lia].
  split; [apply Z.div_pos; lia|apply Z.div_lt_upper_bound; lia].
Qed.

Lemma add_limbs_spec a b c r c' :
  Forall (fits 32) a -> Forall (fits 32) b -> length a = length b -> 0 <= c <= 1 ->
  add_limbs a b c = (r, c') ->
  length r = length a /\ Forall (fits 32) r /\ 0 <= c' <= 1 /\
  lval r + 2 ^ (32 * Z.of_nat (length a)) * c' = lval a + lval b + c.
Proof.
  intros Ha. revert b c r c'.
  induction Ha as [|x a Hx Ha IH]; intros [|y b] c r c' Hb Hl Hc E; simpl in E; try done.
  - injection E as <- <-. simpl. split_and!; [done|constructor|lia..].
  - inversion_clear Hb as [|? ? Hy Hb'].
    unfold fits in Hx, Hy.
    rewrite wrap_id in E by (unfold fits; lia).
    destruct (u64_low_high (x + y + c)) as (Hs & Hlo & Hhi); [unfold fits; lia|].
    destruct (add_limbs a b (Z.shiftr (x + y + c) 32)) as [r0 c0] eqn:E0.
    injection E as <- <-.
    eapply IH in E0 as (Hr & Hf & Hc0 & Hv); [|done|simpl in Hl; lia|unfold fits in *; lia].
    simpl lval. simpl length. split_and!; [lia|by constructor|lia..|].
    rewrite Nat2Z.inj_succ, Z.mul_succ_r, Z.pow_add_r by lia. nia.
Qed.

Lemma sub_limbs_spec a b c r c' :
  Forall (fits 32) a -> Forall (fits 32) b -> length a = length b -> 0 <= c <= 1 ->
  sub_limbs a b c = (r, c') ->
  length r = length a /\ Forall (fits 32) r /\ 0 <= c' <= 1 /\
  lval r - 2 ^ (32 * Z.of_nat (length a)) * c' = lval a - lval b - c.
Proof.
  intros Ha. revert b c r c'.
  induction Ha as [|x a Hx Ha IH]; intros [|y b] c r c' Hb Hl Hc E; simpl in E; try done.
  - injection E as <- <-. simpl. split_and!; [done|constructor|lia..].
  - inversion_clear Hb as [|? ? Hy Hb'].
    unfold fits in Hx, Hy. simpl in Hl.
    destruct (x - y - c <? 0) eqn:Hlt;
      match type of E with context [sub_limbs a b ?k] =>
        destruct (sub_limbs a b k) as [r0 c0] eqn:E0 end;
      injection E as <- <-; rewrite ?Z.shiftl_mul_pow2, ?Z.mul_1_l by lia; simpl length;
      (eapply IH in E0 as (Hr & Hf & Hc0 & Hv); [|done|lia|lia]);
      rewrite wrap_id by (unfold fits; lia); simpl lval;
      (split_and!; [lia|constructor; [unfold fits; lia|done]|lia..|]);
      rewrite Nat2Z.inj_succ, Z.mul_succ_r, Z.pow_add_r by lia; nia.
Qed.

Lemma mul_limbs_spec a m c r c' :
  Forall (fits 32) a -> fits 32 m -> fits 32 c ->
  mul_limbs a m c = (r, c') ->
  length r = length a /\ Forall (fits 32) r /\ fits 32 c' /\
  lval r + 2 ^ (32 * Z.of_nat (length a)) * c' = lval a * m + c.
Proof.
  intros Ha Hm. revert c r c'.
  induction Ha as [|x a Hx Ha IH]; intros c r c' Hc E; simpl in E.
  - injection E as <- <-. simpl. split_and!; [done|constructor|done|lia].
  - assert (fits 64 (x * m + c)) as Hp by (unfold fits in *; nia).
    rewrite wrap_id in E by done.
    destruct (u64_low_high _ Hp) as (Hs & Hlo & Hhi).
    destruct (mul_limbs a m (Z.shiftr (x * m + c) 32)) as [r0 c0] eqn:E0.
    injection E as <- <-.
    apply IH in E0 as (Hr & Hf & Hc0 & Hv); [|done].
    simpl lval. simpl length. split_and!; [lia|by constructor|done|].
    rewrite Nat2Z.inj_succ, Z.mul_succ_r, Z.pow_add_r by lia. nia.
Qed.

Lemma lor_shiftl_add r x : 0 <= r -> fits 32 x -> Z.lor (Z.shiftl r 32) x = r * 2 ^ 32 + x.
Proof.
  unfold fits. intros Hr Hx. rewrite Z.shiftl_mul_pow2 by lia.
  rewrite (Z.mul_comm r). rewrite Z.add_comm. symmetry.
  apply Z.bits_inj'. intros n Hn. rewrite testbit_add_mul by lia.
  rewrite Z.lor_spec. rewrite Z.mul_comm, <- Z.shiftl_mul_pow2 by lia.
  destruct (Z.ltb_spec n 32).
  - rewrite Z.shiftl_spec_low by lia. done.
  - rewrite Z.shiftl_spec by lia. rewrite (testbit_fits_high 32 x) by done.
    by rewrite orb_false_r.
Qed.

Lemma div_limbs_spec a m q r :
  Forall (fits 32) a -> 0 < m < 2 ^ 32 -> div_limbs a m = (q, r) ->
  length q = length a /\ Forall (fits 32) q /\ 0 <= r < m /\ lval a = lval q * m + r.
Proof.
  intros Ha Hm. revert q r.
  induction Ha as [|x a Hx Ha IH]; intros q r E; simpl in E.
  - injection E as <- <-. simpl. split_and!; [done|constructor|lia..].
  - destruct (div_limbs a m) as [q0 r0] eqn:E0. injection E as <- <-.
    destruct (IH _ _ eq_refl) as (Hq & Hf & Hr & Hv).
    assert (0 <= r0 * 2 ^ 32 < 2 ^ 64) by nia.
    rewrite (wrap_id 64) by (unfold fits; rewrite Z.shiftl_mul_pow2 by lia; lia).
    rewrite lor_shiftl_add by (try done; lia).
    unfold fits in Hx. set (cur := r0 * 2 ^ 32 + x).
    assert (0 <= cur < m * 2 ^ 32) by (unfold cur; nia).
    assert (fits 32 (cur / m)).
    { split; [apply Z.div_pos; lia|apply Z.div_lt_upper_bound; lia]. }
    rewrite wrap_id by done. pose proof (Z.div_mod cur m). pose proof (Z.mod_pos_bound cur m).
    simpl lval. simpl length. split_and!; [lia|by constructor|lia..|]. unfold cur in *. nia.
Qed.

Definition sign_of (c : comparison) : Z :=
  match c with Lt => -1 | Eq => 0 | Gt => 1 end.

Lemma cmp_limbs_spec a b i :
  Forall (fits 32) a -> Forall (fits 32) b -> (i <= length a)%nat -> (i <= length b)%nat ->
  cmp_limbs a b i = sign_of (lval (take i a) ?= lval (take i b)).
Proof.
  intros Ha Hb. induction i as [|i IH]; intros Hla Hlb; [done|]. simpl cmp_limbs.
  rewrite (lval_take_S a), (lval_take_S b) by lia.
  pose proof (lval_take_bounds a i Ha ltac:(lia)).
  pose proof (lval_take_bounds b i Hb ltac:(lia)).
  set (p := 2 ^ (32 * Z.of_nat i)) in *.
  destruct (Z.ltb_spec (nth i a 0) (nth i b 0)).
  { rewrite (proj2 (Z.compare_lt_iff _ _)); [done|nia]. }
  destruct (nth i a 0 >? nth i b 0) eqn:E.
  { rewrite (proj2 (Z.compare_gt_iff _ _)); [done|nia]. }
  rewrite IH by lia. assert (nth i a 0 = nth i b 0) as -> by lia.
  rewrite !(Z.add_comm (lval (take i _))). by rewrite Z.add_compare_mono_l.
Qed.

Lemma cmp_limbs_val n a b :
  wf_limbs n a -> wf_limbs n b -> cmp_limbs a b n = sign_of (lval a ?= lval b).
Proof.
  intros [Hla Ha] [Hlb Hb]. rewrite cmp_limbs_spec by (auto; lia).
  rewrite !take_ge by lia. done.
Qed.

Lemma count_bits_spec fuel x b :
  0 < x < 2 ^ Z.of_nat fuel -> count_bits fuel x b = b + Z.log2 x + 1.
Proof.
  revert x b. induction fuel as [|fuel IH]; intros x b Hx; [simpl in Hx; lia|].
  cbn [count_bits]. destruct (Z.eqb_spec x 0); [lia|].
  rewrite Nat2Z.inj_succ, Z.pow_succ_r in Hx by lia.
  destruct (decide (x = 1)) as [->|].
  { simpl. destruct fuel; simpl; lia. }
  assert (0 < Z.shiftr x 1 < 2 ^ Z.of_nat fuel).
  { rewrite Z.shiftr_div_pow2 by lia. change (2 ^ 1) with 2.
    split; [apply Z.div_str_pos; lia|apply Z.div_lt_upper_bound; lia]. }
  rewrite IH by lia. rewrite Z.log2_shiftr by lia.
  assert (1 <= Z.log2 x); [|lia]. apply Z.log2_le_pow2; lia.
Qed.

(** Number of significant bits: 0 for zero, [log2 v + 1] otherwise. *)
Definition num_bits (v : Z) : Z := if v =? 0 then 0 else Z.log2 v + 1.

Lemma num_bits_le v n : 0 <= n -> 0 <= v < 2 ^ n -> 0 <= num_bits v <= n.
Proof.
  intros Hn Hv. unfold num_bits. destruct (Z.eqb_spec v 0); [lia|].
  pose proof (Z.log2_nonneg v). assert (Z.log2 v < n) by (apply Z.log2_lt_pow2; lia). lia.
Qed.

Lemma num_bits_bound v : 0 <= v -> v < 2 ^ num_bits v.
Proof.
  intros Hv. unfold num_bits. destruct (Z.eqb_spec v 0); [subst; simpl; lia|].
  apply Z.log2_spec. lia.
Qed.

Lemma bit_length_limbs_spec a i :
  Forall (fits 32) a -> (i <= length a)%nat ->
  bit_length_limbs a i = num_bits (lval (take i a)).
Proof.
  intros Ha. induction i as [|i IH]; intros Hi; [done|]. cbn [bit_length_limbs].
  rewrite lval_take_S by lia. pose proof (lval_take_bounds a i Ha ltac:(lia)) as Hb.
  pose proof (nth_fits a i Ha) as Hx. unfold fits in Hx.
  destruct (Z.eqb_spec (nth i a 0) 0) as [E|E].
  { rewrite IH by lia. f_equal. lia. }
  rewrite count_bits_spec by (change (2 ^ Z.of_nat 32) with (2 ^ 32); lia).
  set (p := 2 ^ (32 * Z.of_nat i)) in *. set (y := nth i a 0) in *.
  unfold num_bits. destruct (Z.eqb_spec (lval (take i a) + p * y) 0); [nia|].
  assert (Z.log2 (lval (take i a) + p * y) = 32 * Z.of_nat i + Z.log2 y); [|lia].
  apply Z.log2_unique; [pose proof (Z.log2_nonneg y); lia|].
  pose proof (Z.log2_spec y ltac:(lia)) as [H1 H2]. pose proof (Z.log2_nonneg y).
  rewrite <- Z.add_succ_r, !Z.pow_add_r by lia. fold p. nia.
Qed.

Lemma bit_length_limbs_val n a : wf_limbs n a -> bit_length_limbs a n = num_bits (lval a).
Proof.
  intros [Hl Ha]. rewrite bit_length_limbs_spec by (auto; lia). by rewrite take_ge by lia.
Qed.
