(* ===== verification/BtcPow.v ===== *)
(** * 256-bit proof-of-work arithmetic

    Models [include/core/btc_pow.h]: the [U256] struct (eight little-endian
    32-bit limbs), the compact-target codec, the per-block work and the
    2016-block retarget.  Every limb operation is related to the integer it
    represents; the shift-subtract division and the "~t / (t+1) + 1" work formula
    are proved equal to integer division. *)

From S2P Require Import Prelude Limbs.

Module U256.

Definition Zero : list Z := replicate 8 0.

Definition FromU64 (v : Z) : list Z :=
  [Z.land v 0xffffffff; u32 (Z.shiftr v 32); 0; 0; 0; 0; 0; 0].

Definition IsZero (a : list Z) : bool := forallb (fun x => x =? 0) a.

Definition cmp (a b : list Z) : Z := cmp_limbs a b 8.
Definition ltb (a b : list Z) : bool := cmp a b <? 0.
Definition leb (a b : list Z) : bool := cmp a b <=? 0.
Definition gtb (a b : list Z) : bool := cmp a b >? 0.
Definition geb (a b : list Z) : bool := cmp a b >=? 0.
Definition eqb (a b : list Z) : bool := cmp a b =? 0.

(** [operator~]: complement of each 32-bit limb. *)
Definition not (a : list Z) : list Z := map (fun x => u32 (Z.lnot x)) a.

Definition add (a b : list Z) : list Z := fst (add_limbs a b 0).

Definition addCarry (a b : list Z) : list Z * bool :=
  let '(r, carry) := add_limbs a b 0 in (r, negb (carry =? 0)).

Definition sub (a b : list Z) : list Z := fst (sub_limbs a b 0).

(** Product and the overflow flag. *)
Definition mulU32 (a : list Z) (m : Z) : list Z * bool :=
  let '(r, carry) := mul_limbs a m 0 in (r, negb (carry =? 0)).

(** Quotient and remainder. *)
Definition divU32 (a : list Z) (m : Z) : list Z * Z :=
  let '(q, r) := div_limbs a m in (q, u32 r).

Definition getbit (a : list Z) (i : Z) : Z :=
  Z.land (Z.shiftr (nth (Z.to_nat (Z.shiftr i 5)) a 0) (Z.land i 31)) 1.

Definition setbit (a : list Z) (i : Z) : list Z :=
  let k := Z.to_nat (Z.shiftr i 5) in
  <[k := Z.lor (nth k a 0) (Z.shiftl 1 (Z.land i 31))]> a.

Definition bitLength (a : list Z) : Z := bit_length_limbs a 8.

Definition low64 (a : list Z) : Z := Z.lor (nth 0 a 0) (u64 (Z.shiftl (nth 1 a 0) 32)).

Definition shlBits (a : list Z) (n : Z) : list Z :=
  if n >=? 256 then Zero
  else
    let wordShift := Z.shiftr n 5 in
    let bitShift := Z.land n 31 in
    map (fun i =>
           let src := Z.of_nat i - wordShift in
           let v0 := if src >=? 0
                     then u64 (Z.shiftl (nth (Z.to_nat src) a 0) bitShift) else 0 in
           let v1 := if negb (bitShift =? 0) && (src - 1 >=? 0)
                     then Z.shiftr (nth (Z.to_nat (src - 1)) a 0) (32 - bitShift) else 0 in
           u32 (Z.lor v0 v1)) (seq 0 8).

Definition shrBits (a : list Z) (n : Z) : list Z :=
  if n >=? 256 then Zero
  else
    let wordShift := Z.shiftr n 5 in
    let bitShift := Z.land n 31 in
    map (fun i =>
           let src := Z.of_nat i + wordShift in
           let v0 := if src <? 8 then Z.shiftr (nth (Z.to_nat src) a 0) bitShift else 0 in
           let v1 := if negb (bitShift =? 0) && (src + 1 <? 8)
                     then u64 (Z.shiftl (nth (Z.to_nat (src + 1)) a 0) (32 - bitShift)) else 0 in
           u32 (Z.lor v0 v1)) (seq 0 8).

(** The loop of [div], for bit positions [i-1] down to 0. *)
Fixpoint div_loop (a divisor : list Z) (i : nat) (q r : list Z) : list Z * list Z :=
  match i with
  | O => (q, r)
  | S i' =>
      let r1 := shlBits r 1 in
      let r2 := if negb (getbit a (Z.of_nat i') =? 0)
                then <[0%nat := Z.lor (nth 0 r1 0) 1]> r1 else r1 in
      if geb r2 divisor
      then div_loop a divisor i' (setbit q (Z.of_nat i')) (sub r2 divisor)
      else div_loop a divisor i' q r2
  end.

(** Quotient and remainder. *)
Definition div (a divisor : list Z) : list Z * list Z :=
  div_loop a divisor (Z.to_nat (bitLength a)) Zero Zero.

End U256.

(** ** Compact targets *)

(** Target, "negative" flag, "overflow" flag. *)
Definition CompactToTarget (bits : Z) : list Z * bool * bool :=
  let size := Z.shiftr bits 24 in
  let word := Z.land bits 0x007fffff in
  let word' := if size <=? 3 then Z.shiftr word (8 * (3 - size)) else word in
  let r := if size <=? 3 then U256.FromU64 word'
           else U256.shlBits (U256.FromU64 word') (8 * (size - 3)) in
  let negative := negb (word' =? 0) && negb (Z.land bits 0x00800000 =? 0) in
  let overflow := negb (word' =? 0) &&
                  ((size >? 34) || ((word' >? 0xff) && (size >? 33))
                   || ((word' >? 0xffff) && (size >? 32))) in
  (r, negative, overflow).

Definition TargetToCompact (t : list Z) : Z :=
  let size := (U256.bitLength t + 7) / 8 in
  let compact := if size <=? 3
                 then u32 (u64 (Z.shiftl (U256.low64 t) (8 * (3 - size))))
                 else u32 (U256.low64 (U256.shrBits t (8 * (size - 3)))) in
  let '(compact, size) :=
    if negb (Z.land compact 0x00800000 =? 0)
    then (Z.shiftr compact 8, size + 1) else (compact, size) in
  Z.lor compact (u32 (Z.shiftl size 24)).

(** ** Work and retarget *)

Definition BlockWork (target : list Z) : list Z :=
  let tp1 := U256.add target (U256.FromU64 1) in
  if U256.IsZero tp1 then U256.Zero
  else U256.add (fst (U256.div (U256.not target) tp1)) (U256.FromU64 1).

Definition CalcNextBits (old_bits actual_timespan : Z) (pow_limit : list Z)
    (target_timespan : Z) : Z :=
  let a1 := if actual_timespan <? Z.quot target_timespan 4
            then Z.quot target_timespan 4 else actual_timespan in
  let a2 := if a1 >? target_timespan * 4 then target_timespan * 4 else a1 in
  let '(t, _, _) := CompactToTarget old_bits in
  let t := fst (U256.mulU32 t (u32 a2)) in
  let t := fst (U256.divU32 t (u32 target_timespan)) in
  let t := if U256.gtb t pow_limit then pow_limit else t in
  TargetToCompact t.

Definition MainnetPowLimit : list Z := fst (fst (CompactToTarget 0x1d00ffff)).

(** A 32-byte hash read as a little-endian integer. *)
Definition HashToU256 (h : list Z) : list Z :=
  map (fun i => Z.lor (Z.lor (Z.lor (nth (i * 4) h 0) (u32 (Z.shiftl (nth (i * 4 + 1) h 0) 8)))
                         (u32 (Z.shiftl (nth (i * 4 + 2) h 0) 16)))
                  (u32 (Z.shiftl (nth (i * 4 + 3) h 0) 24))) (seq 0 8).

(** ** The limb operations compute the integer operations *)

Abbreviation wf8 := (wf_limbs 8).

Lemma wf8_bounds a : wf8 a -> 0 <= lval a < 2 ^ 256.
Proof. apply lval_wf. Qed.

Lemma Zero_wf : wf8 U256.Zero.
Proof. split; [done|]. unfold U256.Zero. simpl. fits_list. Qed.

Lemma land_ones_wrap w x : 0 <= w -> Z.land x (Z.ones w) = wrap w x.
Proof. intros. unfold wrap. by rewrite Z.land_ones. Qed.

Lemma FromU64_spec v : fits 64 v -> wf8 (U256.FromU64 v) /\ lval (U256.FromU64 v) = v.
Proof.
  intros Hv. unfold U256.FromU64. change 0xffffffff with (Z.ones 32).
  rewrite land_ones_wrap by lia. destruct (u64_low_high v Hv) as (Hs & Hlo & Hhi).
  rewrite (wrap_id 32 (Z.shiftr v 32)) by done.
  split; [split; [done|fits_list]|]. simpl lval. lia.
Qed.

Lemma IsZero_spec a : wf8 a -> U256.IsZero a = (lval a =? 0).
Proof.
  intros [_ Ha]. unfold U256.IsZero. induction Ha as [|x l Hx Hl IH]; [done|].
  simpl. rewrite IH. pose proof (lval_bounds l Hl). unfold fits in Hx.
  destruct (Z.eqb_spec x 0), (Z.eqb_spec (lval l) 0), (Z.eqb_spec (x + 2 ^ 32 * lval l) 0);
    simpl; try done; lia.
Qed.

Lemma cmp_spec a b : wf8 a -> wf8 b -> U256.cmp a b = sign_of (lval a ?= lval b).
Proof. apply cmp_limbs_val. Qed.

Lemma geb_spec a b : wf8 a -> wf8 b -> U256.geb a b = (lval b <=? lval a).
Proof.
  intros. unfold U256.geb. rewrite cmp_spec by done.
  destruct (Z.compare_spec (lval a) (lval b)); simpl; lia.
Qed.

Lemma gtb_spec a b : wf8 a -> wf8 b -> U256.gtb a b = (lval b <? lval a).
Proof.
  intros. unfold U256.gtb. rewrite cmp_spec by done.
  destruct (Z.compare_spec (lval a) (lval b)); simpl; lia.
Qed.

Lemma leb_spec a b : wf8 a -> wf8 b -> U256.leb a b = (lval a <=? lval b).
Proof.
  intros. unfold U256.leb. rewrite cmp_spec by done.
  destruct (Z.compare_spec (lval a) (lval b)); simpl; lia.
Qed.

Lemma add_spec a b :
  wf8 a -> wf8 b ->
  wf8 (U256.add a b) /\ lval (U256.add a b) = (lval a + lval b) mod 2 ^ 256.
Proof.
  intros [Hla Ha] [Hlb Hb]. unfold U256.add.
  destruct (add_limbs a b 0) as [r c] eqn:E.
  apply add_limbs_spec in E as (Hl & Hf & Hc & Hv); [|auto; lia..]. simpl fst.
  assert (wf8 r) as Hw by (split; [lia|done]). split; [done|].
  pose proof (wf8_bounds r Hw). rewrite Hla in Hv. change (32 * Z.of_nat 8) with 256 in Hv.
  apply Z.mod_unique with c; lia.
Qed.

Lemma addCarry_spec a b r c :
  wf8 a -> wf8 b -> U256.addCarry a b = (r, c) ->
  wf8 r /\ lval r = (lval a + lval b) mod 2 ^ 256 /\ c = (2 ^ 256 <=? lval a + lval b).
Proof.
  intros [Hla Ha] [Hlb Hb]. unfold U256.addCarry.
  destruct (add_limbs a b 0) as [r' c'] eqn:E. intros [= <- <-].
  apply add_limbs_spec in E as (Hl & Hf & Hc & Hv); [|auto; lia..].
  assert (wf8 r') as Hw by (split; [lia|done]). pose proof (wf8_bounds r' Hw).
  rewrite Hla in Hv. change (32 * Z.of_nat 8) with 256 in Hv.
  split_and!; [done|apply Z.mod_unique with c'; lia|]. destruct (Z.eqb_spec c' 0); simpl; lia.
Qed.

Lemma sub_spec a b :
  wf8 a -> wf8 b ->
  wf8 (U256.sub a b) /\ lval (U256.sub a b) = (lval a - lval b) mod 2 ^ 256.
Proof.
  intros [Hla Ha] [Hlb Hb]. unfold U256.sub.
  destruct (sub_limbs a b 0) as [r c] eqn:E.
  apply sub_limbs_spec in E as (Hl & Hf & Hc & Hv); [|auto; lia..]. simpl fst.
  assert (wf8 r) as Hw by (split; [lia|done]). split; [done|].
  pose proof (wf8_bounds r Hw). rewrite Hla in Hv. change (32 * Z.of_nat 8) with 256 in Hv.
  apply Z.mod_unique with (- c); lia.
Qed.

Lemma mulU32_spec a m r o :
  wf8 a -> fits 32 m -> U256.mulU32 a m = (r, o) ->
  wf8 r /\ lval r = (lval a * m) mod 2 ^ 256 /\ o = (2 ^ 256 <=? lval a * m).
Proof.
  intros [Hla Ha] Hm. unfold U256.mulU32.
  destruct (mul_limbs a m 0) as [r' c'] eqn:E. intros [= <- <-].
  apply mul_limbs_spec in E as (Hl & Hf & Hc & Hv); [|auto; unfold fits; lia..].
  assert (wf8 r') as Hw by (split; [lia|done]). pose proof (wf8_bounds r' Hw).
  rewrite Hla in Hv. change (32 * Z.of_nat 8) with 256 in Hv. unfold fits in Hc.
  split_and!; [done|apply Z.mod_unique with c'; lia|]. destruct (Z.eqb_spec c' 0); simpl; lia.
Qed.

Lemma divU32_spec a m q r :
  wf8 a -> 0 < m < 2 ^ 32 -> U256.divU32 a m = (q, r) ->
  wf8 q /\ lval q = lval a / m /\ r = lval a mod m.
Proof.
  intros [Hla Ha] Hm. unfold U256.divU32.
  destruct (div_limbs a m) as [q' r'] eqn:E. intros [= <- <-].
  apply div_limbs_spec in E as (Hl & Hf & Hr & Hv); [|done..].
  rewrite wrap_id by (unfold fits; lia).
  split_and!; [split; [lia|done]|apply Z.div_unique with r'; lia|
               apply Z.mod_unique with (lval q'); lia].
Qed.

Lemma not_spec a : wf8 a -> wf8 (U256.not a) /\ lval (U256.not a) = 2 ^ 256 - 1 - lval a.
Proof.
  intros [Hla Ha].
  assert (forall l, Forall (fits 32) l ->
    Forall (fits 32) (U256.not l) /\
    lval (U256.not l) = 2 ^ (32 * Z.of_nat (length l)) - 1 - lval l) as H.
  { clear. induction 1 as [|x l Hx Hl [IHf IHv]]; [done|].
    change (U256.not (x :: l)) with (u32 (Z.lnot x) :: U256.not l).
    simpl lval. simpl length.
    assert (u32 (Z.lnot x) = 2 ^ 32 - 1 - x) as ->.
    { unfold fits in Hx. unfold wrap, Z.lnot. symmetry. apply Z.mod_unique with (-1); lia. }
    split; [constructor; [unfold fits in *; lia|done]|].
    rewrite IHv, Nat2Z.inj_succ, Z.mul_succ_r, Z.pow_add_r by lia. ring. }
  destruct (H a Ha) as [Hf Hv]. rewrite Hla in Hv.
  split; [split; [unfold U256.not; by rewrite length_map|done]|done].
Qed.

Lemma shiftr5_div i : Z.shiftr i 5 = i / 32.
Proof. by rewrite Z.shiftr_div_pow2. Qed.

Lemma land31_mod i : Z.land i 31 = i mod 32.
Proof. change 31 with (Z.ones 5). by rewrite Z.land_ones. Qed.

Lemma getbit_spec a i :
  wf8 a -> 0 <= i -> U256.getbit a i = Z.b2z (Z.testbit (lval a) i).
Proof.
  intros [_ Ha] Hi. unfold U256.getbit. rewrite shiftr5_div, land31_mod.
  rewrite lval_testbit by done. change 1 with (Z.ones 1).
  rewrite Z.land_ones by lia. rewrite Z.testbit_spec' by (apply Z.mod_pos_bound; lia).
  by rewrite Z.shiftr_div_pow2 by (apply Z.mod_pos_bound; lia).
Qed.

Lemma low64_spec a : wf8 a -> U256.low64 a = lval a mod 2 ^ 64.
Proof.
  intros [Hl Ha]. unfold U256.low64. do 8 (destruct a as [|? a]; [done|]). destruct a; [|done].
  simpl nth. rewrite Forall_cons in Ha. destruct Ha as [Hx Ha].
  rewrite Forall_cons in Ha. destruct Ha as [Hy Ha].
  pose proof (lval_bounds _ Ha) as Hb.
  rewrite wrap_id by (unfold fits in *; rewrite Z.shiftl_mul_pow2 by lia; nia).
  rewrite Z.lor_comm, lor_shiftl_add by (try done; unfold fits in *; lia).
  match type of Ha with Forall _ ?l => set (l' := l) in * end.
  change (lval (z :: z0 :: l')) with (z + 2 ^ 32 * (z0 + 2 ^ 32 * lval l')).
  unfold fits in *. apply Z.mod_unique with (lval l'); lia.
Qed.

Lemma bitLength_spec a : wf8 a -> U256.bitLength a = num_bits (lval a).
Proof. apply bit_length_limbs_val. Qed.

(** *** Shifts *)

Lemma bit_split i n :
  0 <= n -> 0 <= i ->
  i - n = 32 * (i / 32 - n / 32) + (i mod 32 - n mod 32) /\
  0 <= i mod 32 < 32 /\ 0 <= n mod 32 < 32 /\ 0 <= n / 32 /\ 0 <= i / 32.
Proof.
  intros. pose proof (Z.div_mod i 32). pose proof (Z.div_mod n 32).
  pose proof (Z.mod_pos_bound i 32). pose proof (Z.mod_pos_bound n 32).
  pose proof (Z.div_pos n 32). pose proof (Z.div_pos i 32). lia.
Qed.

Lemma wf8_map (f : nat -> Z) : wf8 (map (fun i => u32 (f i)) (seq 0 8)).
Proof.
  split; [done|]. apply Forall_map, Forall_forall. intros k _. by apply wrap_fits.
Qed.

Lemma shlBits_wf a n : wf8 (U256.shlBits a n).
Proof.
  unfold U256.shlBits. destruct (n >=? 256); [apply Zero_wf|].
  exact (wf8_map _).
Qed.

Lemma shlBits_spec a n :
  wf8 a -> 0 <= n -> lval (U256.shlBits a n) = (lval a * 2 ^ n) mod 2 ^ 256.
Proof.
  intros [Hla Ha] Hn. unfold U256.shlBits. destruct (n >=? 256) eqn:E.
  { replace (lval a * 2 ^ n) with (lval a * 2 ^ (n - 256) * 2 ^ 256).
    - by rewrite Z_mod_mult.
    - rewrite <- Z.mul_assoc, <- Z.pow_add_r by lia. do 2 f_equal. lia. }
  rewrite shiftr5_div, land31_mod. rewrite <- Z.shiftl_mul_pow2 by lia.
  apply Z.bits_inj'. intros i Hi. destruct (Z.ltb_spec i 256); cycle 1.
  { rewrite Z.mod_pow2_bits_high by lia.
    apply (testbit_fits_high 256); [|done]. exact (wf8_bounds _ (wf8_map _)). }
  rewrite Z.mod_pow2_bits_low, Z.shiftl_spec by lia.
  rewrite lval_testbit_map; [|intros; by apply wrap_fits|done|simpl; lia].
  destruct (bit_split i n Hn Hi) as (Hs & Hb & Hbn & Hw & Hwi).
  unfold wrap at 1. rewrite Z.mod_pow2_bits_low, Z.lor_spec by lia. rewrite Z2Nat.id by done.
  set (k := i / 32) in *. set (b := i mod 32) in *. set (ws := n / 32) in *.
  set (bs := n mod 32) in *.
  destruct (Z.leb_spec bs b) as [Hle|Hlt].
  - (* the bit comes from limb [k - ws] *)
    assert (Z.testbit (if negb (bs =? 0) && (k - ws - 1 >=? 0)
             then Z.shiftr (nth (Z.to_nat (k - ws - 1)) a 0) (32 - bs) else 0) b = false) as ->.
    { destruct (negb (bs =? 0) && _) eqn:Ec; [|apply Z.bits_0]. bool_hyps.
      rewrite Z.shiftr_spec by lia. apply (testbit_fits_high 32); [by apply nth_fits|lia]. }
    rewrite orb_false_r. destruct (k - ws >=? 0) eqn:Ek.
    + unfold wrap. rewrite Z.mod_pow2_bits_low, Z.shiftl_spec by lia.
      rewrite lval_testbit by (auto; lia).
      replace ((i - n) / 32) with (k - ws) by (apply Z.div_unique with (b - bs); lia).
      f_equal. apply Z.mod_unique with (k - ws); lia.
    + rewrite Z.bits_0. symmetry. apply Z.testbit_neg_r. lia.
  - (* the bit comes from limb [k - ws - 1] *)
    assert (Z.testbit (if k - ws >=? 0
             then u64 (Z.shiftl (nth (Z.to_nat (k - ws)) a 0) bs) else 0) b = false) as ->.
    { destruct (k - ws >=? 0); [|apply Z.bits_0]. unfold wrap.
      rewrite Z.mod_pow2_bits_low, Z.shiftl_spec by lia. apply Z.testbit_neg_r. lia. }
    rewrite orb_false_l. destruct (Z.eqb_spec bs 0); [lia|]. simpl andb.
    destruct (k - ws - 1 >=? 0) eqn:Ek.
    + rewrite Z.shiftr_spec, lval_testbit by (auto; lia).
      replace ((i - n) / 32) with (k - ws - 1) by (apply Z.div_unique with (32 + b - bs); lia).
      f_equal. apply Z.mod_unique with (k - ws - 1); lia.
    + rewrite Z.bits_0. symmetry. apply Z.testbit_neg_r. lia.
Qed.

Lemma shrBits_wf a n : wf8 (U256.shrBits a n).
Proof.
  unfold U256.shrBits. destruct (n >=? 256); [apply Zero_wf|]. exact (wf8_map _).
Qed.

Lemma nth_wf8_high a k : wf8 a -> 8 <= k -> nth (Z.to_nat k) a 0 = 0.
Proof. intros [Hl _] Hk. apply nth_overflow. lia. Qed.

Lemma shrBits_spec a n :
  wf8 a -> 0 <= n -> lval (U256.shrBits a n) = lval a / 2 ^ n.
Proof.
  intros Hw Hn. pose proof (wf8_bounds a Hw) as Hab. unfold U256.shrBits.
  destruct (n >=? 256) eqn:E.
  { rewrite Z.div_small; [done|]. split; [lia|].
    apply Z.lt_le_trans with (2 ^ 256); [lia|]. apply Z.pow_le_mono_r; lia. }
  rewrite shiftr5_div, land31_mod. rewrite <- Z.shiftr_div_pow2 by lia.
  apply Z.bits_inj'. intros i Hi. rewrite Z.shiftr_spec by lia.
  destruct (Z.ltb_spec i 256); cycle 1.
  { rewrite (testbit_fits_high 256 (lval a)) by (done || lia).
    apply (testbit_fits_high 256); [|done]. exact (wf8_bounds _ (wf8_map _)). }
  rewrite lval_testbit_map; [|intros; by apply wrap_fits|done|simpl; lia].
  destruct (bit_split i n Hn Hi) as (_ & Hb & Hbn & Hwn & Hwi).
  pose proof (Z.div_mod i 32 ltac:(lia)) as Hdi. pose proof (Z.div_mod n 32 ltac:(lia)) as Hdn.
  unfold wrap at 1. rewrite Z.mod_pow2_bits_low, Z.lor_spec by lia. rewrite Z2Nat.id by done.
  pose proof Hw as [_ Ha].
  set (k := i / 32) in *. set (b := i mod 32) in *. set (ws := n / 32) in *.
  set (bs := n mod 32) in *.
  rewrite lval_testbit by (auto; lia).
  destruct (Z.ltb_spec (b + bs) 32) as [Hlt|Hge].
  - replace ((i + n) / 32) with (k + ws) by (apply Z.div_unique with (b + bs); lia).
    replace ((i + n) mod 32) with (b + bs) by (apply Z.mod_unique with (k + ws); lia).
    assert (Z.testbit (if negb (bs =? 0) && (k + ws + 1 <? 8)
             then u64 (Z.shiftl (nth (Z.to_nat (k + ws + 1)) a 0) (32 - bs)) else 0) b = false)
      as ->.
    { destruct (negb (bs =? 0) && _) eqn:Ec; [|apply Z.bits_0]. bool_hyps. unfold wrap.
      rewrite Z.mod_pow2_bits_low, Z.shiftl_spec by lia. apply Z.testbit_neg_r. lia. }
    rewrite orb_false_r. destruct (Z.ltb_spec (k + ws) 8).
    + by rewrite Z.shiftr_spec by lia.
    + by rewrite nth_wf8_high, !Z.bits_0 by (done || lia).
  - replace ((i + n) / 32) with (k + ws + 1) by (apply Z.div_unique with (b + bs - 32); lia).
    replace ((i + n) mod 32) with (b + bs - 32) by (apply Z.mod_unique with (k + ws + 1); lia).
    assert (Z.testbit (if k + ws <? 8
             then Z.shiftr (nth (Z.to_nat (k + ws)) a 0) bs else 0) b = false) as ->.
    { destruct (k + ws <? 8); [|apply Z.bits_0]. rewrite Z.shiftr_spec by lia.
      apply (testbit_fits_high 32); [by apply nth_fits|lia]. }
    rewrite orb_false_l. destruct (Z.eqb_spec bs 0); [lia|]. simpl andb.
    destruct (Z.ltb_spec (k + ws + 1) 8).
    + unfold wrap. rewrite Z.mod_pow2_bits_low, Z.shiftl_spec by lia. f_equal. lia.
    + by rewrite nth_wf8_high, !Z.bits_0 by (done || lia).
Qed.

(** *** Single bits *)

Lemma nth_insert (l : list Z) k j v :
  (k < length l)%nat -> nth j (<[k := v]> l) 0 = if decide (j = k) then v else nth j l 0.
Proof.
  intros Hk. rewrite !nth_lookup. case_decide as E.
  - subst j. by rewrite list_lookup_insert_eq.
  - by rewrite list_lookup_insert_ne.
Qed.

Lemma setbit_spec a i :
  wf8 a -> 0 <= i < 256 ->
  wf8 (U256.setbit a i) /\ lval (U256.setbit a i) = Z.setbit (lval a) i.
Proof.
  intros Hw Hi. pose proof Hw as [Hl Ha]. unfold U256.setbit.
  rewrite shiftr5_div, land31_mod.
  destruct (bit_split i 0 ltac:(lia) ltac:(lia)) as (_ & Hb & _ & _ & Hk).
  assert (i / 32 < 8) as Hk8 by (apply Z.div_lt_upper_bound; lia).
  set (k := Z.to_nat (i / 32)). set (v := Z.lor _ _).
  assert (fits 32 v) as Hv.
  { unfold v, fits. split.
    - apply Z.lor_nonneg. split; [apply nth_fits; done|apply Z.shiftl_nonneg; lia].
    - destruct (decide (Z.lor (nth k a 0) (Z.shiftl 1 (i mod 32)) = 0)) as [->|]; [done|].
      assert (0 <= nth k a 0) by (apply nth_fits; done).
      apply Z.log2_lt_pow2; [|rewrite Z.log2_lor by (try apply Z.shiftl_nonneg; lia)].
      + assert (0 <= Z.lor (nth k a 0) (Z.shiftl 1 (i mod 32))); [|lia].
        apply Z.lor_nonneg. split; [done|apply Z.shiftl_nonneg; lia].
      + apply Z.max_lub_lt; [|rewrite Z.log2_shiftl by lia; simpl; lia].
        pose proof (nth_fits a k Ha) as Hf. unfold fits in Hf.
        destruct (decide (nth k a 0 = 0)) as [->|]; [simpl; lia|apply Z.log2_lt_pow2; lia]. }
  assert (wf8 (<[k:=v]> a)) as Hw'.
  { split; [by rewrite length_insert|]. by apply Forall_insert. }
  split; [done|]. apply Z.bits_inj'. intros n Hn.
  rewrite Z.setbit_eqb by lia. rewrite !lval_testbit by (try done; apply Hw').
  rewrite nth_insert by (unfold k; lia).
  pose proof (Z.div_mod n 32 ltac:(lia)). pose proof (Z.div_mod i 32 ltac:(lia)).
  pose proof (Z.mod_pos_bound n 32 ltac:(lia)). pose proof (Z.div_pos n 32 ltac:(lia) ltac:(lia)).
  case_decide as E.
  - assert (n / 32 = i / 32) as En by (unfold k in E; lia).
    unfold v. rewrite E, Z.lor_spec, Z.shiftl_spec by lia.
    destruct (Z.eqb_spec i n) as [->|].
    + by rewrite Z.sub_diag, orb_true_r.
    + rewrite orb_false_l. destruct (Z.ltb_spec (n mod 32) (i mod 32)).
      * rewrite (Z.testbit_neg_r 1) by lia. by rewrite orb_false_r.
      * rewrite (testbit_fits_high 1 1) by (unfold fits; lia). by rewrite orb_false_r.
  - destruct (Z.eqb_spec i n) as [->|]; [by destruct E|done].
Qed.

Lemma setbit_add v i : 0 <= i -> Z.testbit v i = false -> Z.setbit v i = v + 2 ^ i.
Proof.
  intros Hi Hv. rewrite Z.setbit_spec'.
  assert (Z.land v (2 ^ i) = 0) as Hd.
  { apply Z.bits_inj'. intros n Hn. rewrite Z.land_spec, Z.bits_0.
    destruct (Z.eqb_spec n i) as [->|]; [by rewrite Hv|].
    rewrite Z.pow2_bits_false by lia. by rewrite andb_false_r. }
  rewrite <- Z.lxor_lor by done. symmetry. by apply Z.add_nocarry_lxor.
Qed.

Lemma testbit_mul_pow2_low q i n : 0 <= i < n -> Z.testbit (q * 2 ^ n) i = false.
Proof. intros. by rewrite Z.mul_pow2_bits_low by lia. Qed.

(** *** Division *)

Lemma div_step_Z A D i :
  0 <= A -> 0 < D -> 0 <= i ->
  let r := 2 * ((A / 2 ^ (i + 1)) mod D) + Z.b2z (Z.testbit A i) in
  let q := A / 2 ^ (i + 1) / D in
  0 <= r <= A / 2 ^ i /\
  (if D <=? r
   then (A / 2 ^ i) mod D = r - D /\ A / 2 ^ i / D = 2 * q + 1
   else (A / 2 ^ i) mod D = r /\ A / 2 ^ i / D = 2 * q).
Proof.
  intros HA HD Hi r q.
  assert (A / 2 ^ i = 2 * (A / 2 ^ (i + 1)) + Z.b2z (Z.testbit A i)) as HE.
  { rewrite Z.pow_add_r, <- Z.div_div by lia. change (2 ^ 1) with 2.
    rewrite Z.testbit_spec' by lia. apply Z.div_mod. lia. }
  pose proof (Z.div_mod (A / 2 ^ (i + 1)) D ltac:(lia)) as Hdm.
  pose proof (Z.mod_pos_bound (A / 2 ^ (i + 1)) D HD) as Hmb.
  assert (0 <= q) by (apply Z.div_pos; [apply Z.div_pos|]; lia).
  assert (0 <= Z.b2z (Z.testbit A i) <= 1) by (destruct (Z.testbit A i); simpl; lia).
  fold q in Hdm. set (m := (A / 2 ^ (i + 1)) mod D) in *.
  split; [unfold r; nia|].
  destruct (Z.leb_spec D r); (split;
    [symmetry; eapply Z.mod_unique; [left|]|symmetry; eapply Z.div_unique; [left|]]);
    try (unfold r in *; lia).
  - instantiate (1 := 2 * q + 1). unfold r in *. lia.
  - unfold r in *. instantiate (1 := 2 * m + Z.b2z (Z.testbit A i) - D). lia.
  - unfold r in *. lia.
  - instantiate (1 := 2 * q). unfold r in *. lia.
  - instantiate (1 := r). unfold r in *. lia.
  - unfold r in *. lia.
Qed.

Lemma or_low_bit r1 :
  <[0%nat := Z.lor (nth 0 r1 0) 1]> r1 = U256.setbit r1 0.
Proof. done. Qed.

Lemma div_loop_spec a d i q r q' r' :
  wf8 a -> wf8 d -> 0 < lval d -> (i <= 256)%nat -> wf8 q -> wf8 r ->
  lval r = (lval a / 2 ^ Z.of_nat i) mod lval d ->
  lval q = lval a / 2 ^ Z.of_nat i / lval d * 2 ^ Z.of_nat i ->
  U256.div_loop a d i q r = (q', r') ->
  wf8 q' /\ wf8 r' /\ lval q' = lval a / lval d /\ lval r' = lval a mod lval d.
Proof.
  intros Ha Hd HD. pose proof (wf8_bounds a Ha) as HA.
  revert q r. induction i as [|i IH]; intros q r Hi Hq Hr Hvr Hvq E; cbn [U256.div_loop] in E.
  { injection E as <- <-. simpl Z.of_nat in *. rewrite Z.pow_0_r, Z.div_1_r in *.
    split_and!; [done..|lia|done]. }
  rewrite Nat2Z.inj_succ, <- Z.add_1_r in Hvr, Hvq.
  pose proof (div_step_Z (lval a) (lval d) (Z.of_nat i) ltac:(lia) HD ltac:(lia)) as [Hle Hstep].
  cbv zeta in Hle, Hstep. rewrite <- Hvr in Hle, Hstep.
  assert (lval a / 2 ^ Z.of_nat i <= lval a) by (apply Z.div_le_upper_bound; nia).
  set (b := Z.testbit (lval a) (Z.of_nat i)) in *.
  assert (wf8 (U256.shlBits r 1)) as Hr1 by apply shlBits_wf.
  assert (lval (U256.shlBits r 1) = lval r * 2) as Hv1.
  { rewrite shlBits_spec by (done || lia). change (2 ^ 1) with 2. apply Z.mod_small.
    pose proof (wf8_bounds r Hr). assert (0 <= Z.b2z b) by (destruct b; simpl; lia). lia. }
  rewrite getbit_spec in E by (done || lia). fold b in E. rewrite or_low_bit in E.
  set (r2 := if negb (Z.b2z b =? 0) then _ else _) in E.
  assert (wf8 r2 /\ lval r2 = 2 * lval r + Z.b2z b) as [Hr2 Hv2].
  { unfold r2. destruct b; cbn [negb Z.b2z Z.eqb]; [|split; [done|lia]].
    destruct (setbit_spec _ 0 Hr1 ltac:(lia)) as [Hw Hv]. split; [done|].
    rewrite Hv, setbit_add, Hv1; [change (2 ^ 0) with 1; lia|lia|].
    rewrite Hv1. apply (testbit_mul_pow2_low _ 0 1). lia. }
  rewrite geb_spec, Hv2 in E by done.
  destruct (lval d <=? 2 * lval r + Z.b2z b) eqn:Hc; destruct Hstep as [Hm Hdv].
  - destruct (sub_spec r2 d Hr2 Hd) as [Hw3 Hv3].
    destruct (setbit_spec q (Z.of_nat i) Hq ltac:(lia)) as [Hw4 Hv4].
    eapply IH in E; try done; [lia|..].
    + rewrite Hm, Hv3, Hv2. apply Z.mod_small.
      pose proof (wf8_bounds r2 Hr2). pose proof (wf8_bounds d Hd). lia.
    + rewrite Hv4, setbit_add; [|lia|rewrite Hvq; apply testbit_mul_pow2_low; lia].
      rewrite Hvq, Hdv, Z.pow_add_r by lia. ring.
  - eapply IH in E; try done; [lia|..].
    + rewrite Hm, Hv2. done.
    + rewrite Hvq, Hdv, Z.pow_add_r by lia. ring.
Qed.

Lemma div_spec a d :
  wf8 a -> wf8 d -> 0 < lval d ->
  wf8 (fst (U256.div a d)) /\ wf8 (snd (U256.div a d)) /\
  lval (fst (U256.div a d)) = lval a / lval d /\
  lval (snd (U256.div a d)) = lval a mod lval d.
Proof.
  intros Ha Hd HD. unfold U256.div. pose proof (wf8_bounds a Ha) as HA.
  rewrite bitLength_spec by done.
  pose proof (num_bits_le (lval a) 256 ltac:(lia) HA).
  pose proof (num_bits_bound (lval a) ltac:(lia)).
  destruct (U256.div_loop _ _ _ _ _) as [q r] eqn:E. simpl.
  eapply div_loop_spec in E; try done; try apply Zero_wf; [lia|..];
    rewrite Z2Nat.id by lia; rewrite (Z.div_small (lval a)) by lia.
  - by rewrite Z.mod_0_l by lia.
  - by rewrite Z.div_0_l by lia.
Qed.

Lemma BlockWork_spec t :
  wf8 t ->
  wf8 (BlockWork t) /\
  lval (BlockWork t) =
    if lval t =? 2 ^ 256 - 1 then 0 else (2 ^ 256 / (lval t + 1)) mod 2 ^ 256.
Proof.
  intros Ht. pose proof (wf8_bounds t Ht) as HT. unfold BlockWork.
  destruct (FromU64_spec 1) as [Hw1 Hv1]; [unfold fits; lia|].
  destruct (add_spec t (U256.FromU64 1) Ht Hw1) as [Hwp Hvp]. rewrite Hv1 in Hvp.
  rewrite IsZero_spec by done. destruct (Z.eqb_spec (lval t) (2 ^ 256 - 1)) as [E|E].
  { rewrite Hvp, E. split; [apply Zero_wf|done]. }
  rewrite Z.mod_small in Hvp by lia. destruct (Z.eqb_spec (lval (U256.add t (U256.FromU64 1))) 0); [lia|].
  destruct (not_spec t Ht) as [Hwn Hvn].
  destruct (div_spec (U256.not t) (U256.add t (U256.FromU64 1)) Hwn Hwp ltac:(lia))
    as (Hwq & _ & Hvq & _).
  destruct (add_spec _ _ Hwq Hw1) as [Hwr Hvr]. split; [done|].
  rewrite Hvr, Hvq, Hv1, Hvn, Hvp. f_equal.
  rewrite <- (Z.div_add _ 1) by lia. f_equal. lia.
Qed.

(** ** The compact encoding, on integers

    [compactZ v] is the normalised (mantissa, exponent) pair of [v], and
    [mant_exp m s] the integer a pair denotes. *)

Definition compactZ (v : Z) : Z * Z :=
  let size := (num_bits v + 7) / 8 in
  let m := if size <=? 3 then v * 2 ^ (8 * (3 - size)) else v / 2 ^ (8 * (size - 3)) in
  if 2 ^ 23 <=? m then (m / 256, size + 1) else (m, size).

Definition mant_exp (m s : Z) : Z :=
  if s <=? 3 then m / 2 ^ (8 * (3 - s)) else m * 2 ^ (8 * (s - 3)).

Lemma mant_exp_1 m : mant_exp m 1 = m / 65536.
Proof. done. Qed.
Lemma mant_exp_2 m : mant_exp m (1 + 1) = m / 256 /\ mant_exp m 2 = m / 256.
Proof. done. Qed.
Lemma mant_exp_3 m : mant_exp m (2 + 1) = m / 1 /\ mant_exp m 3 = m / 1.
Proof. done. Qed.

Lemma num_bits_mul_pow2 m k : 0 < m -> 0 <= k -> num_bits (m * 2 ^ k) = num_bits m + k.
Proof.
  intros Hm Hk. unfold num_bits.
  destruct (Z.eqb_spec m 0), (Z.eqb_spec (m * 2 ^ k) 0); try nia.
  rewrite Z.log2_mul_pow2 by lia. lia.
Qed.

Lemma num_bits_range v k : 0 <= k -> 2 ^ k <= v < 2 ^ (k + 1) -> num_bits v = k + 1.
Proof.
  intros Hk Hv. unfold num_bits. destruct (Z.eqb_spec v 0); [lia|].
  f_equal. by apply Z.log2_unique.
Qed.

Lemma num_bits_bounds v : 0 < v -> 2 ^ (num_bits v - 1) <= v < 2 ^ num_bits v /\ 1 <= num_bits v.
Proof.
  intros Hv. unfold num_bits. destruct (Z.eqb_spec v 0); [lia|].
  pose proof (Z.log2_spec v Hv). pose proof (Z.log2_nonneg v).
  rewrite Z.add_simpl_r. unfold Z.succ in *. lia.
Qed.

(** A normalised mantissa above the small exponents is its own encoding. *)
Lemma compactZ_canonical m s :
  2 ^ 15 <= m < 2 ^ 23 -> 4 <= s -> compactZ (m * 2 ^ (8 * (s - 3))) = (m, s).
Proof.
  intros Hm Hs. unfold compactZ. rewrite num_bits_mul_pow2 by lia.
  destruct (Z.ltb_spec m (2 ^ 16)).
  - assert (num_bits m = 16) as -> by (apply (num_bits_range m 15); lia).
    replace ((16 + 8 * (s - 3) + 7) / 8) with (s - 1) by (apply Z.div_unique with 7; lia).
    assert ((if s - 1 <=? 3 then m * 2 ^ (8 * (s - 3)) * 2 ^ (8 * (3 - (s - 1)))
             else m * 2 ^ (8 * (s - 3)) / 2 ^ (8 * (s - 1 - 3))) = m * 256) as ->.
    { destruct (Z.leb_spec (s - 1) 3).
      - assert (s = 4) as -> by lia. simpl. lia.
      - replace (8 * (s - 3)) with (8 + 8 * (s - 1 - 3)) by lia.
        rewrite Z.pow_add_r, Z.mul_assoc, Z.div_mul by lia. done. }
    destruct (Z.leb_spec (2 ^ 23) (m * 256)); [|lia]. rewrite Z.div_mul by lia. f_equal. lia.
  - assert (16 <= num_bits m <= 23 /\ 17 <= num_bits m) as Hn.
    { pose proof (num_bits_le m 23). split; [|].
      - pose proof (num_bits_bounds m ltac:(lia)) as [Hb _].
        destruct (Z.ltb_spec (num_bits m) 16); [|lia].
        assert (2 ^ num_bits m <= 2 ^ 15) by (apply Z.pow_le_mono_r; lia). lia.
      - pose proof (num_bits_bounds m ltac:(lia)) as [Hb _].
        destruct (Z.ltb_spec (num_bits m) 17); [|lia].
        assert (2 ^ num_bits m <= 2 ^ 16) by (apply Z.pow_le_mono_r; lia). lia. }
    replace ((num_bits m + 8 * (s - 3) + 7) / 8) with s
      by (apply Z.div_unique with (num_bits m - 17); lia).
    destruct (Z.leb_spec s 3); [lia|]. rewrite Z.div_mul by lia.
    destruct (Z.leb_spec (2 ^ 23) m); [lia|done].
Qed.

(** Relation between an integer and a normalised encoding of it: only the digits
    below the mantissa are lost, and encoding the result again changes nothing. *)
Definition encodes (v m s : Z) : Prop :=
  2 ^ 15 <= m < 2 ^ 23 /\ 1 <= s <= 33 /\
  0 < mant_exp m s <= v /\ v < mant_exp m s + 2 ^ (8 * Z.max 0 (s - 3)) /\
  compactZ (mant_exp m s) = (m, s).

Lemma encodes_exact v m s :
  0 < v -> 2 ^ 15 <= m < 2 ^ 23 -> 1 <= s <= 33 -> mant_exp m s = v ->
  compactZ v = (m, s) -> encodes v m s.
Proof.
  intros Hv Hm Hs E Hc. unfold encodes. rewrite E. split_and!; try done; lia.
Qed.

Lemma encodes_truncated v m s :
  2 ^ 15 <= m < 2 ^ 23 -> 4 <= s <= 33 -> m = v / 2 ^ (8 * (s - 3)) -> encodes v m s.
Proof.
  intros Hm Hs E. unfold encodes.
  assert (mant_exp m s = m * 2 ^ (8 * (s - 3))) as ->.
  { unfold mant_exp. destruct (Z.leb_spec s 3); [lia|done]. }
  pose proof (Z.div_mod v (2 ^ (8 * (s - 3))) ltac:(lia)).
  pose proof (Z.mod_pos_bound v (2 ^ (8 * (s - 3))) ltac:(lia)).
  rewrite Z.max_r by lia. split_and!; try lia; try nia. apply compactZ_canonical; lia.
Qed.

Lemma compactZ_spec v m s :
  0 < v < 2 ^ 256 -> compactZ v = (m, s) -> encodes v m s.
Proof.
  intros Hv E.
  pose proof (num_bits_bounds v ltac:(lia)) as [[Hlo Hhi] Hn1].
  pose proof (num_bits_le v 256 ltac:(lia) ltac:(lia)) as [_ Hn2].
  pose proof E as E'. unfold compactZ in E'.
  set (size := (num_bits v + 7) / 8) in *.
  assert (8 * size - 7 <= num_bits v <= 8 * size) as Hsz.
  { pose proof (Z.div_mod (num_bits v + 7) 8 ltac:(lia)) as Hd.
    pose proof (Z.mod_pos_bound (num_bits v + 7) 8 ltac:(lia)). fold size in Hd. lia. }
  assert (2 ^ (8 * size - 8) <= v) as Hlo'.
  { apply Z.le_trans with (2 ^ (num_bits v - 1)); [apply Z.pow_le_mono_r; lia|done]. }
  assert (v < 2 ^ (8 * size)) as Hhi'.
  { apply Z.lt_le_trans with (2 ^ num_bits v); [done|apply Z.pow_le_mono_r; lia]. }
  clearbody size. destruct (Z.leb_spec size 3) as [Hsm|Hbig].
  - (* at most three bytes: exact unless a three-byte value is bumped to four *)
    assert (size = 1 \/ size = 2 \/ size = 3) as [-> | [-> | ->]] by lia;
      [change (2 ^ (8 * (3 - 1))) with 65536 in E'|change (2 ^ (8 * (3 - 2))) with 256 in E'|
       change (2 ^ (8 * (3 - 3))) with 1 in E'];
      match type of E' with context [2 ^ 23 <=? ?x] => destruct (Z.leb_spec (2 ^ 23) x) end;
      injection E' as <- <-.
    5: { apply encodes_truncated; [|lia|].
         - split; [apply Z.div_le_lower_bound; lia|apply Z.div_lt_upper_bound; lia].
         - rewrite Z.mul_1_r. done. }
    all: apply encodes_exact; [lia| |lia| |done];
      rewrite ?mant_exp_1, ?(proj1 (mant_exp_2 _)), ?(proj2 (mant_exp_2 _)),
        ?(proj1 (mant_exp_3 _)), ?(proj2 (mant_exp_3 _)); Z.div_mod_to_equations; lia.
  - (* m0 = v / 2^(8(size-3)) has between 17 and 24 bits *)
    set (k := 8 * (size - 3)) in *.
    assert (2 ^ 16 <= v / 2 ^ k < 2 ^ 24) as Hm0.
    { split.
      - apply Z.div_le_lower_bound; [lia|]. rewrite <- Z.pow_add_r by lia.
        apply Z.le_trans with (2 ^ (8 * size - 8)); [apply Z.pow_le_mono_r; lia|done].
      - apply Z.div_lt_upper_bound; [lia|]. rewrite <- Z.pow_add_r by lia.
        apply Z.lt_le_trans with (2 ^ (8 * size)); [done|apply Z.pow_le_mono_r; lia]. }
    destruct (Z.leb_spec (2 ^ 23) (v / 2 ^ k)); injection E' as <- <-.
    + apply encodes_truncated; [|lia|].
      * split; [apply Z.div_le_lower_bound; lia|apply Z.div_lt_upper_bound; lia].
      * rewrite Z.div_div by lia. change 256 with (2 ^ 8). rewrite <- Z.pow_add_r by lia.
        do 2 f_equal. lia.
    + apply encodes_truncated; [lia|lia|done].
Qed.

Lemma lor_add_disjoint x s n :
  0 <= n -> 0 <= x < 2 ^ n -> 0 <= s -> Z.lor x (Z.shiftl s n) = x + 2 ^ n * s.
Proof.
  intros Hn Hx Hs. apply Z.bits_inj'. intros i Hi.
  rewrite testbit_add_mul, Z.lor_spec by lia. destruct (Z.ltb_spec i n).
  - rewrite Z.shiftl_spec_low by lia. by rewrite orb_false_r.
  - rewrite Z.shiftl_spec by lia. rewrite (testbit_fits_high n x) by done. done.
Qed.

Lemma land_bit_23 x : 0 <= x < 2 ^ 24 -> negb (Z.land x 0x00800000 =? 0) = (2 ^ 23 <=? x).
Proof.
  intros Hx. change 0x00800000 with (2 ^ 23).
  assert (Z.land x (2 ^ 23) = if Z.testbit x 23 then 2 ^ 23 else 0) as ->.
  { apply Z.bits_inj'. intros n Hn. rewrite Z.land_spec, Z.pow2_bits_eqb by lia.
    destruct (Z.eqb_spec 23 n) as [<-|].
    - rewrite andb_true_r. by destruct (Z.testbit x 23).
    - rewrite andb_false_r. destruct (Z.testbit x 23); [|by rewrite Z.bits_0].
      by rewrite Z.pow2_bits_false by lia. }
  rewrite Z.testbit_odd, Z.shiftr_div_pow2 by lia.
  destruct (Z.leb_spec (2 ^ 23) x).
  - assert (x / 2 ^ 23 = 1) as -> by (symmetry; apply Z.div_unique with (x - 2 ^ 23); lia). done.
  - rewrite Z.div_small by lia. done.
Qed.

Lemma TargetToCompact_spec t m s :
  wf8 t -> 0 < lval t -> compactZ (lval t) = (m, s) ->
  TargetToCompact t = m + 2 ^ 24 * s.
Proof.
  intros Ht Hpos E. pose proof (wf8_bounds t Ht) as Hb.
  pose proof (compactZ_spec (lval t) m s ltac:(lia) E) as (Hm & Hs & _).
  unfold TargetToCompact. rewrite bitLength_spec by done.
  unfold compactZ in E. set (size := (num_bits (lval t) + 7) / 8) in *.
  assert (0 <= num_bits (lval t) <= 256) as Hn by (apply num_bits_le; lia).
  assert (8 * size <= num_bits (lval t) + 7 < 8 * size + 8) as Hsz.
  { pose proof (Z.div_mod (num_bits (lval t) + 7) 8 ltac:(lia)) as Hd.
    pose proof (Z.mod_pos_bound (num_bits (lval t) + 7) 8 ltac:(lia)). fold size in Hd. lia. }
  pose proof (num_bits_bound (lval t) ltac:(lia)) as Hnb.
  assert (lval t < 2 ^ (8 * size)) as Hhi.
  { apply Z.lt_le_trans with (2 ^ num_bits (lval t)); [done|apply Z.pow_le_mono_r; lia]. }
  set (c := if size <=? 3 then u32 _ else u32 _).
  set (m0 := if size <=? 3 then lval t * _ else _) in E.
  assert (c = m0 /\ 0 <= m0 < 2 ^ 24) as [-> Hm0].
  { unfold c, m0. destruct (Z.leb_spec size 3).
    - assert (0 <= lval t * 2 ^ (8 * (3 - size)) < 2 ^ 24).
      { replace 24 with (8 * size + 8 * (3 - size)) by lia. rewrite Z.pow_add_r by lia. nia. }
      split; [|done]. rewrite low64_spec by done.
      assert (2 ^ (8 * size) <= 2 ^ 24) by (apply Z.pow_le_mono_r; lia).
      rewrite Z.mod_small, Z.shiftl_mul_pow2 by lia.
      rewrite !wrap_id; [done|..]; rewrite ?wrap_id; unfold fits; lia.
    - assert (0 <= lval t / 2 ^ (8 * (size - 3)) < 2 ^ 24).
      { split; [apply Z.div_pos; lia|]. apply Z.div_lt_upper_bound; [lia|].
        rewrite <- Z.pow_add_r by lia. replace (8 * (size - 3) + 24) with (8 * size) by lia. done. }
      split; [|done]. rewrite low64_spec by apply shrBits_wf.
      rewrite shrBits_spec by (done || lia). rewrite Z.mod_small by lia.
      apply wrap_id. unfold fits. lia. }
  rewrite land_bit_23 by done.
  assert (Z.shiftr m0 8 = m0 / 256) as -> by by rewrite Z.shiftr_div_pow2 by lia.
  destruct (2 ^ 23 <=? m0); injection E as <- <-;
    rewrite wrap_id by (unfold fits; rewrite Z.shiftl_mul_pow2 by lia; lia);
    apply lor_add_disjoint; lia.
Qed.

Lemma CompactToTarget_spec bits r neg ov :
  fits 32 bits -> CompactToTarget bits = (r, neg, ov) ->
  let s := bits / 2 ^ 24 in let m := bits mod 2 ^ 23 in
  let v := mant_exp m s in
  wf8 r /\ lval r = v mod 2 ^ 256 /\
  ov = (2 ^ 256 <=? v) /\ neg = negb (v =? 0) && Z.testbit bits 23.
Proof.
  intros Hbits E s m v. unfold fits in Hbits.
  unfold CompactToTarget in E. rewrite Z.shiftr_div_pow2 in E by lia. fold s in E.
  assert (Z.land bits 0x007fffff = m) as Em.
  { change 0x007fffff with (Z.ones 23). by rewrite Z.land_ones by lia. }
  rewrite Em in E. injection E as <- <- <-.
  assert (0 <= s < 256) as Hs.
  { unfold s. split; [apply Z.div_pos; lia|apply Z.div_lt_upper_bound; lia]. }
  assert (0 <= m < 2 ^ 23) as Hm by (apply Z.mod_pos_bound; lia).
  assert (Z.testbit bits 23 = negb (Z.land bits 0x00800000 =? 0)) as ->.
  { change 0x00800000 with (2 ^ 23). destruct (Z.testbit bits 23) eqn:Eb; symmetry.
    - apply negb_true_iff, Z.eqb_neq. intros E0.
      assert (Z.testbit (Z.land bits (2 ^ 23)) 23 = false) as Hx by by rewrite E0, Z.bits_0.
      by rewrite Z.land_spec, Eb, Z.pow2_bits_true in Hx by lia.
    - apply negb_false_iff, Z.eqb_eq, Z.bits_inj'. intros n Hn.
      rewrite Z.land_spec, Z.pow2_bits_eqb, Z.bits_0 by lia.
      destruct (Z.eqb_spec 23 n) as [<-|]; [by rewrite Eb|by rewrite andb_false_r]. }
  unfold v, mant_exp. destruct (Z.leb_spec s 3) as [Hle|Hgt].
  - rewrite Z.shiftr_div_pow2 by lia. set (w := m / 2 ^ (8 * (3 - s))).
    assert (0 <= w <= m) as Hw.
    { split; [apply Z.div_pos; lia|]. apply Z.div_le_upper_bound; nia. }
    destruct (FromU64_spec w) as [Hwf Hv]; [unfold fits; lia|].
    rewrite Hv, Z.mod_small by lia. split_and!; [done|done| |done].
    destruct (Z.leb_spec (2 ^ 256) w), (Z.gtb_spec s 34), (Z.gtb_spec s 33), (Z.gtb_spec s 32);
      lia.
  - destruct (FromU64_spec m) as [Hwf Hv]; [unfold fits; lia|].
    rewrite shlBits_spec, Hv by (done || lia). split_and!; [apply shlBits_wf|done| |].
    + destruct (Z.eqb_spec m 0) as [->|]; [done|]. simpl andb.
      destruct (Z.gtb_spec s 34).
      { assert (2 ^ 256 <= 2 ^ (8 * (s - 3))) by (apply Z.pow_le_mono_r; lia).
        simpl orb. destruct (Z.leb_spec (2 ^ 256) (m * 2 ^ (8 * (s - 3)))); [done|nia]. }
      destruct (decide (s = 34)) as [->|]; [|destruct (decide (s = 33)) as [->|]].
      * simpl.
        destruct (Z.gtb_spec m 255), (Z.gtb_spec m 65535), (Z.leb_spec (2 ^ 256) (m * 2 ^ (8 * (34 - 3))));
          simpl; try done; lia.
      * simpl. destruct (Z.gtb_spec m 255), (Z.gtb_spec m 65535), (Z.leb_spec (2 ^ 256) (m * 2 ^ (8 * (33 - 3))));
          simpl; try done; lia.
      * destruct (Z.gtb_spec s 33); [lia|]. destruct (Z.gtb_spec s 32); [lia|].
        rewrite !andb_false_r. simpl. symmetry. apply Z.leb_gt.
        assert (2 ^ (8 * (s - 3)) <= 2 ^ 232) by (apply Z.pow_le_mono_r; lia). nia.
    + f_equal. f_equal. destruct (Z.eqb_spec m 0), (Z.eqb_spec (m * 2 ^ (8 * (s - 3))) 0); try done; nia.
Qed.

(** ** Retarget *)

Definition clamp_timespan (span T : Z) : Z := Z.min (Z.max span (T / 4)) (T * 4).

Lemma CalcNextBits_spec bits span limit T t neg ov :
  fits 32 bits -> wf8 limit -> 4 <= T -> T * 4 < 2 ^ 32 ->
  CompactToTarget bits = (t, neg, ov) -> lval t * (T * 4) < 2 ^ 256 ->
  exists u, wf8 u /\ CalcNextBits bits span limit T = TargetToCompact u /\
    lval u = Z.min (lval t * clamp_timespan span T / T) (lval limit).
Proof.
  intros Hb Hlim HT HT4 E Hsmall. unfold CalcNextBits. rewrite E.
  pose proof (CompactToTarget_spec _ _ _ _ Hb E) as (Hwt & _).
  pose proof (wf8_bounds t Hwt). rewrite !Z.quot_div_nonneg by lia.
  set (a2 := if _ >? _ then _ else _).
  assert (a2 = clamp_timespan span T) as ->.
  { unfold a2, clamp_timespan. pose proof (Z.div_le_upper_bound T 4 T ltac:(lia) ltac:(lia)).
    destruct (Z.ltb_spec span (T / 4)); destruct (Z.gtb_spec (if span <? T / 4 then T / 4 else span) (T * 4));
      destruct (Z.gtb_spec (T / 4) (T * 4)); destruct (Z.gtb_spec span (T * 4)); lia. }
  assert (0 <= clamp_timespan span T <= T * 4) as Hc.
  { unfold clamp_timespan. pose proof (Z.div_pos T 4 ltac:(lia) ltac:(lia)). lia. }
  rewrite (wrap_id 32 (clamp_timespan span T)), (wrap_id 32 T) by (unfold fits; lia).
  destruct (U256.mulU32 t (clamp_timespan span T)) as [p o] eqn:Ep.
  apply mulU32_spec in Ep as (Hwp & Hvp & _); [|done|unfold fits; lia].
  rewrite Z.mod_small in Hvp by nia. cbn [fst].
  destruct (U256.divU32 p T) as [q r] eqn:Eq.
  apply divU32_spec in Eq as (Hwq & Hvq & _); [|done|lia]. cbn [fst].
  rewrite gtb_spec by done. rewrite Hvp in Hvq.
  destruct (Z.ltb_spec (lval limit) (lval q)).
  - exists limit. split_and!; [done..|lia].
  - exists q. split_and!; [done..|lia].
Qed.

(** ** Properties *)

(** The shift-subtract division of [U256] returns the integer quotient and
    remainder for every dividend and every nonzero divisor, including divisors
    above [2^255], for which the shifted remainder could be expected to overflow. *)
Lemma U256_div_exact a d :
  wf8 a -> wf8 d -> 0 < lval d ->
  lval (fst (U256.div a d)) = lval a / lval d /\
  lval (snd (U256.div a d)) = lval a mod lval d.
Proof. intros Ha Hd Hp. apply (div_spec a d Ha Hd Hp). Qed.

Lemma U256_div_exact_witness :
  let a := U256.not U256.Zero in
  let d := U256.add (U256.shlBits (U256.FromU64 1) 255) (U256.FromU64 1) in
  lval (fst (U256.div a d)) = 1 /\ lval (snd (U256.div a d)) = 2 ^ 255 - 2.
Proof.
  assert (wf8 (U256.not U256.Zero)) as Ha by apply not_spec, Zero_wf.
  assert (wf8 (U256.add (U256.shlBits (U256.FromU64 1) 255) (U256.FromU64 1))) as Hd.
  { apply add_spec; [apply shlBits_wf|apply FromU64_spec; unfold fits; lia]. }
  intros a d. destruct (U256_div_exact a d Ha Hd) as [H1 H2]; [vm_compute; reflexivity|].
  rewrite H1, H2. split; vm_compute; reflexivity.
Defined.

(** Bitcoin's difficulty retarget.  When the old target times four times the
    timespan fits 256 bits, the new bits encode
    [min(old * clamp(span, T/4, 4T) / T, limit)] computed on integers, so the
    32-bit limb multiplication and division lose nothing. *)
Lemma retarget_exact bits span limit T t neg ov :
  fits 32 bits -> wf8 limit -> 4 <= T -> T * 4 < 2 ^ 32 ->
  CompactToTarget bits = (t, neg, ov) -> lval t * (T * 4) < 2 ^ 256 ->
  exists u, CalcNextBits bits span limit T = TargetToCompact u /\
    lval u = Z.min (lval t * clamp_timespan span T / T) (lval limit) /\
    (lval u <= lval t * 4) /\ (T mod 4 = 0 -> lval t / 4 <= lval limit -> lval t / 4 <= lval u).
Proof.
  intros Hb Hl HT HT4 E Hs. pose proof (CompactToTarget_spec _ _ _ _ Hb E) as (Hwt & _).
  pose proof (wf8_bounds t Hwt).
  destruct (CalcNextBits_spec bits span limit T t neg ov Hb Hl HT HT4 E Hs) as (u & _ & Eu & Vu).
  exists u. split_and!; [done..| |].
  - rewrite Vu. apply Z.le_trans with (lval t * clamp_timespan span T / T); [lia|].
    apply Z.div_le_upper_bound; [lia|]. unfold clamp_timespan. nia.
  - intros Hm Hq. rewrite Vu. apply Z.min_glb; [|done].
    apply Z.div_le_lower_bound; [lia|].
    pose proof (Z.div_mod T 4 ltac:(lia)).
    pose proof (Z.div_mod (lval t) 4 ltac:(lia)). pose proof (Z.mod_pos_bound (lval t) 4 ltac:(lia)).
    assert (T / 4 <= clamp_timespan span T) by (unfold clamp_timespan; lia). nia.
Qed.

Lemma retarget_exact_witness :
  exists u, CalcNextBits 0x1d00ffff 100 MainnetPowLimit 1209600 = TargetToCompact u /\
    lval u = 0xffff * 2 ^ 208 / 4.
Proof.
  destruct (CompactToTarget 0x1d00ffff) as [[t neg] ov] eqn:E.
  destruct (retarget_exact 0x1d00ffff 100 MainnetPowLimit 1209600 t neg ov)
    as (u & Hu & Hv & _); [unfold fits; lia| |lia|lia|exact E| |].
  - unfold MainnetPowLimit. destruct (CompactToTarget_spec 0x1d00ffff t neg ov) as (Hw & _);
      [unfold fits; lia|exact E|]. rewrite E. exact Hw.
  - vm_compute in E. injection E as <- <- <-. vm_compute. reflexivity.
  - exists u. split; [exact Hu|]. rewrite Hv. vm_compute in E. injection E as <- <- <-.
    vm_compute. reflexivity.
Defined.
