(* ===== verification/PowTarget.v ===== *)
(** * Canonical targets and cumulative chain work

    Models [include/core/pow_target.h] (the canonical compact-target decoder every
    consensus path uses) and [include/core/chain_work.h] (exact per-block work and
    the 320-bit cumulative work that fork choice compares). *)

From S2P Require Import Prelude Limbs BtcPow.

(** ** Canonical targets *)

Definition VELD_POW_LIMIT_BITS : Z := 0x207fffff.

Inductive CompactTargetError :=
  | Err_None | Err_Negative | Err_Zero | Err_Overflow | Err_AboveLimit | Err_NonCanonical.

#[global] Instance CompactTargetError_eq_dec : EqDecision CompactTargetError.
Proof. solve_decision. Defined.

Record CanonicalPowTarget := mkTarget {
  tgt_bits : Z;
  tgt_value : list Z;
  tgt_bytes : list Z
}.

Definition VeldPowLimit : list Z := fst (fst (CompactToTarget VELD_POW_LIMIT_BITS)).

(** [bytes[31 - byte] = (uint8_t)(w[byte / 4] >> (8 * (byte % 4)))]. *)
Definition target_bytes (target : list Z) : list Z :=
  map (fun k => let byte := (31 - k)%nat in
                u8 (Z.shiftr (nth (byte / 4) target 0) (Z.of_nat (byte mod 4) * 8)))
      (seq 0 32).

(** [inl] carries the reported error, [inr] the decoded target. *)
Definition DecodeCanonicalVeldTarget (raw_bits : Z) : CompactTargetError + CanonicalPowTarget :=
  let '(target, negative, overflow) := CompactToTarget raw_bits in
  if negative : bool then inl Err_Negative
  else if overflow : bool then inl Err_Overflow
  else if U256.IsZero target then inl Err_Zero
  else if U256.gtb target VeldPowLimit then inl Err_AboveLimit
  else if negb (TargetToCompact target =? raw_bits) then inl Err_NonCanonical
  else inr (mkTarget raw_bits target (target_bytes target)).

Definition DecodeExpectedVeldTarget (raw_bits expected_bits : Z) :
    CompactTargetError + CanonicalPowTarget :=
  match DecodeCanonicalVeldTarget raw_bits with
  | inl e => inl e
  | inr t => if negb (raw_bits =? expected_bits) then inl Err_NonCanonical else inr t
  end.

Definition CompactTargetErrorName (e : CompactTargetError) : string :=
  match e with
  | Err_None => "none"
  | Err_Negative => "negative"
  | Err_Zero => "zero"
  | Err_Overflow => "overflow"
  | Err_AboveLimit => "above_limit"
  | Err_NonCanonical => "noncanonical"
  end.

(** ** Chain work *)

Module ChainWork.

(** [ChainWork(uint64_t)] and [ChainWork(const U256&)]. *)
Definition of_u64 (v : Z) : list Z := [u32 v; u32 (Z.shiftr v 32); 0; 0; 0; 0; 0; 0; 0; 0].
Definition of_u256 (v : list Z) : list Z := v ++ [0; 0].

Definition Compare (a b : list Z) : Z := cmp_limbs a b 10.
Definition eqb (a b : list Z) : bool := Compare a b =? 0.
Definition ltb (a b : list Z) : bool := Compare a b <? 0.
Definition gtb (a b : list Z) : bool := Compare a b >? 0.
Definition leb (a b : list Z) : bool := Compare a b <=? 0.
Definition geb (a b : list Z) : bool := Compare a b >=? 0.

Definition MulU32 (a : list Z) (scalar : Z) : list Z * bool :=
  let '(r, carry) := mul_limbs a scalar 0 in (r, negb (carry =? 0)).

Definition BitLength (a : list Z) : Z := bit_length_limbs a 10.

Definition ToUint64Saturated (a : list Z) : Z :=
  if forallb (fun x => x =? 0) (drop 2 a)
  then Z.lor (nth 0 a 0) (u64 (Z.shiftl (nth 1 a 0) 32))
  else UINT64_MAX.

(** Work of one block; structurally invalid encodings score zero. *)
Definition BlockWork (bits : Z) : list Z :=
  match DecodeCanonicalVeldTarget bits with
  | inl _ => of_u64 0
  | inr t => of_u256 (BtcPow.BlockWork (tgt_value t))
  end.

(** [None] is the [std::overflow_error] the code throws. *)
Definition AddChainWork (accumulated increment : list Z) : option (list Z) :=
  let '(r, carry) := add_limbs accumulated increment 0 in
  if negb (carry =? 0) then None else Some r.

Definition BlockWorkForTier (bits : Z) : Z := ToUint64Saturated (BlockWork bits).

End ChainWork.

Abbreviation wf10 := (wf_limbs 10).

(** ** Facts about the proof-of-work limit *)

Lemma VeldPowLimit_wf : wf8 VeldPowLimit.
Proof.
  unfold VeldPowLimit. destruct (CompactToTarget VELD_POW_LIMIT_BITS) as [[r n] o] eqn:E.
  apply CompactToTarget_spec in E; [apply E|]. unfold fits, VELD_POW_LIMIT_BITS. lia.
Qed.

Lemma VeldPowLimit_val : lval VeldPowLimit = 0x7fffff * 2 ^ 232.
Proof. vm_compute. reflexivity. Qed.

(** ** The canonical decoder *)

Lemma compact_pack m s :
  0 <= m < 2 ^ 23 -> 0 <= s < 256 ->
  fits 32 (m + 2 ^ 24 * s) /\ (m + 2 ^ 24 * s) / 2 ^ 24 = s /\
  (m + 2 ^ 24 * s) mod 2 ^ 23 = m /\ Z.testbit (m + 2 ^ 24 * s) 23 = false.
Proof.
  intros Hm Hs. unfold fits. split_and!; try lia.
  - symmetry. apply Z.div_unique with m; lia.
  - symmetry. apply Z.mod_unique with (2 * s); lia.
  - rewrite testbit_add_mul by lia. change (23 <? 24) with true. cbn iota.
    apply (testbit_fits_high 23); [done|lia].
Qed.

(** The accepted encodings are exactly the normalised (mantissa, exponent)
    pairs of the integers in [(0, limit]]. *)
Lemma decode_ok_inv raw t :
  fits 32 raw -> DecodeCanonicalVeldTarget raw = inr t ->
  tgt_bits t = raw /\ wf8 (tgt_value t) /\ 0 < lval (tgt_value t) <= lval VeldPowLimit /\
  TargetToCompact (tgt_value t) = raw /\ tgt_bytes t = target_bytes (tgt_value t).
Proof.
  intros Hraw H. unfold DecodeCanonicalVeldTarget in H.
  destruct (CompactToTarget raw) as [[r neg] ov] eqn:E.
  pose proof (CompactToTarget_spec _ _ _ _ Hraw E) as (Hw & Hv & _ & _).
  destruct neg, ov; try done.
  rewrite IsZero_spec in H by done. rewrite gtb_spec in H by (done || apply VeldPowLimit_wf).
  destruct (Z.eqb_spec (lval r) 0); [done|].
  destruct (Z.ltb_spec (lval VeldPowLimit) (lval r)); [done|].
  destruct (Z.eqb_spec (TargetToCompact r) raw); [|done].
  injection H as <-. simpl. pose proof (wf8_bounds r Hw). split_and!; (done || lia).
Qed.

Lemma decode_encode t :
  wf8 t -> 0 < lval t <= lval VeldPowLimit ->
  exists d, DecodeCanonicalVeldTarget (TargetToCompact t) = inr d /\
    lval (tgt_value d) <= lval t /\
    (forall m s, compactZ (lval t) = (m, s) -> lval (tgt_value d) = mant_exp m s).
Proof.
  intros Ht Hr. destruct (compactZ (lval t)) as [m s] eqn:E.
  pose proof (wf8_bounds t Ht) as Hb.
  pose proof (compactZ_spec (lval t) m s ltac:(lia) E) as (Hm & Hs & [Hp Hle] & _ & Hc).
  rewrite (TargetToCompact_spec t m s) by (done || lia).
  destruct (compact_pack m s) as (Hf & Hd & Hmd & Hb23); [lia..|].
  unfold DecodeCanonicalVeldTarget.
  destruct (CompactToTarget (m + 2 ^ 24 * s)) as [[r neg] ov] eqn:Ec.
  pose proof (CompactToTarget_spec _ _ _ _ Hf Ec) as (Hw & Hv & Hov & Hneg).
  rewrite Hd, Hmd in Hv, Hov, Hneg. rewrite Hb23, andb_false_r in Hneg.
  rewrite Z.mod_small in Hv by lia.
  assert ((2 ^ 256 <=? mant_exp m s) = false) as Hno by lia. rewrite Hno in Hov.
  subst neg ov. rewrite IsZero_spec, gtb_spec by (done || apply VeldPowLimit_wf).
  rewrite Hv. destruct (Z.eqb_spec (mant_exp m s) 0); [lia|].
  destruct (Z.ltb_spec (lval VeldPowLimit) (mant_exp m s)); [lia|].
  rewrite (TargetToCompact_spec r m s) by (rewrite ?Hv; done || lia).
  rewrite Z.eqb_refl. simpl. eexists. split_and!; [done|simpl; lia|].
  intros m' s' [= <- <-]. done.
Qed.

Lemma encode_fits t : wf8 t -> 0 < lval t -> fits 32 (TargetToCompact t).
Proof.
  intros Ht Hp. destruct (compactZ (lval t)) as [m s] eqn:E.
  pose proof (wf8_bounds t Ht).
  pose proof (compactZ_spec (lval t) m s ltac:(lia) E) as (Hm & Hs & _).
  rewrite (TargetToCompact_spec t m s) by done. unfold fits. lia.
Qed.

(** ** The byte form of a target *)

(** Big-endian value of a byte string. *)
Definition be_val (l : list Z) : Z := foldl (fun acc b => acc * 256 + b) 0 l.

Lemma limb_bytes x :
  fits 32 x ->
  u8 (Z.shiftr x 24) * 16777216 + u8 (Z.shiftr x 16) * 65536 + u8 (Z.shiftr x 8) * 256
  + u8 (Z.shiftr x 0) = x.
Proof.
  unfold fits, wrap. intros Hx. rewrite !Z.shiftr_div_pow2 by lia.
  change (2 ^ 24) with 16777216. change (2 ^ 16) with 65536. change (2 ^ 8) with 256.
  change (2 ^ 0) with 1. Z.div_mod_to_equations. lia.
Qed.

Lemma target_bytes_val t : wf8 t -> be_val (target_bytes t) = lval t.
Proof.
  intros [Hl Ht]. do 8 (destruct t as [|? t]; [done|]). destruct t; [|done].
  repeat (apply Forall_cons in Ht as [?%limb_bytes Ht]).
  unfold target_bytes, be_val.
  cbn -[wrap Z.shiftr Z.mul Z.add Z.pow]. change (Z.of_nat 0 * 8) with 0.
  change (Z.of_nat 1 * 8) with 8. change (Z.of_nat 2 * 8) with 16. change (Z.of_nat 3 * 8) with 24.
  change (2 ^ 32) with 4294967296.
  lia.
Qed.

(** ** Chain work arithmetic *)

Lemma of_u256_spec v : wf8 v -> wf10 (ChainWork.of_u256 v) /\ lval (ChainWork.of_u256 v) = lval v.
Proof.
  intros [Hl Hv]. unfold ChainWork.of_u256. split.
  - split; [rewrite length_app, Hl; done|]. apply Forall_app. split; [done|fits_list].
  - rewrite lval_app. simpl lval. lia.
Qed.

Lemma of_u64_spec v : fits 64 v -> wf10 (ChainWork.of_u64 v) /\ lval (ChainWork.of_u64 v) = v.
Proof.
  intros Hv. unfold ChainWork.of_u64. destruct (u64_low_high v Hv) as (Hs & Hlo & Hhi).
  rewrite (wrap_id 32 (Z.shiftr v 32)) by done. split; [split; [done|fits_list]|].
  simpl lval. lia.
Qed.

Lemma AddChainWork_spec a b :
  wf10 a -> wf10 b ->
  match ChainWork.AddChainWork a b with
  | Some r => wf10 r /\ lval r = lval a + lval b
  | None => 2 ^ 320 <= lval a + lval b
  end.
Proof.
  intros [Hla Ha] [Hlb Hb]. unfold ChainWork.AddChainWork.
  destruct (add_limbs a b 0) as [r c] eqn:E.
  apply add_limbs_spec in E as (Hl & Hf & Hc & Hv); [|auto; lia..].
  assert (wf10 r) as Hw by (split; [lia|done]). pose proof (lval_wf 10 r Hw) as Hr.
  rewrite Hla in Hv. change (32 * Z.of_nat 10) with 320 in *.
  destruct (Z.eqb_spec c 0); simpl; [split; [done|lia]|lia].
Qed.

(** A canonical target scores between 1 and [2^255]. *)
Lemma work_of_decoded bits t :
  fits 32 bits -> DecodeCanonicalVeldTarget bits = inr t ->
  wf10 (ChainWork.BlockWork bits) /\
  lval (ChainWork.BlockWork bits) = 2 ^ 256 / (lval (tgt_value t) + 1) /\
  1 <= lval (ChainWork.BlockWork bits) <= 2 ^ 255.
Proof.
  intros Hb E. unfold ChainWork.BlockWork. rewrite E.
  destruct (decode_ok_inv bits t Hb E) as (_ & Hw & [Hp Hle] & _).
  rewrite VeldPowLimit_val in Hle.
  destruct (BlockWork_spec _ Hw) as [Hww Hv]. destruct (of_u256_spec _ Hww) as [Hw10 Hv10].
  destruct (Z.eqb_spec (lval (tgt_value t)) (2 ^ 256 - 1)); [lia|].
  assert (1 <= 2 ^ 256 / (lval (tgt_value t) + 1) <= 2 ^ 255) as Hrange.
  { split; [apply Z.div_le_lower_bound; lia|]. apply Z.div_le_upper_bound; lia. }
  rewrite Z.mod_small in Hv by lia. rewrite Hv10, Hv. done.
Qed.

Lemma BlockWork_range bits :
  fits 32 bits -> wf10 (ChainWork.BlockWork bits) /\ 0 <= lval (ChainWork.BlockWork bits) <= 2 ^ 255.
Proof.
  intros Hb. destruct (DecodeCanonicalVeldTarget bits) as [e|t] eqn:E.
  - unfold ChainWork.BlockWork. rewrite E.
    destruct (of_u64_spec 0) as [Hw ->]; [unfold fits; lia|]. split; [done|lia].
  - destruct (work_of_decoded bits t Hb E) as (Hw & _ & Hr). split; [done|lia].
Qed.

(** Cumulative work of a chain, from genesis, as the code accumulates it. *)
Fixpoint chain_work (acc : list Z) (chain : list Z) : option (list Z) :=
  match chain with
  | [] => Some acc
  | bits :: rest =>
      match ChainWork.AddChainWork acc (ChainWork.BlockWork bits) with
      | Some acc' => chain_work acc' rest
      | None => None
      end
  end.

Definition work_sum (chain : list Z) : Z :=
  foldr (fun bits s => lval (ChainWork.BlockWork bits) + s) 0 chain.

Lemma chain_work_exact acc chain :
  wf10 acc -> Forall (fits 32) chain ->
  lval acc + Z.of_nat (length chain) * 2 ^ 255 < 2 ^ 320 ->
  exists w, chain_work acc chain = Some w /\ wf10 w /\ lval w = lval acc + work_sum chain.
Proof.
  intros Hacc Hc. revert acc Hacc.
  induction Hc as [|bits chain Hb Hc IH]; intros acc Hacc Hlt; simpl chain_work.
  { exists acc. split_and!; [done..|simpl; lia]. }
  destruct (BlockWork_range bits Hb) as [Hw Hr].
  pose proof (AddChainWork_spec acc _ Hacc Hw) as Hadd.
  simpl length in Hlt. rewrite Nat2Z.inj_succ in Hlt.
  destruct (ChainWork.AddChainWork acc (ChainWork.BlockWork bits)) as [acc'|]; [|lia].
  destruct Hadd as [Hacc' Hv]. destruct (IH acc' Hacc') as (w & E & Hww & Hvw); [lia|].
  exists w. split_and!; [done..|]. unfold work_sum in *. cbn [foldr]. lia.
Qed.

Lemma ToUint64Saturated_spec a :
  wf10 a -> ChainWork.ToUint64Saturated a = Z.min (lval a) UINT64_MAX.
Proof.
  intros [Hl Ha]. unfold ChainWork.ToUint64Saturated, UINT64_MAX.
  destruct a as [|x [|y a]]; try done.
  change (drop 2 (x :: y :: a)) with a. simpl nth.
  apply Forall_cons in Ha as [Hx Ha]. apply Forall_cons in Ha as [Hy Ha].
  pose proof (lval_bounds a Ha) as Hb. unfold fits in *.
  simpl lval. rewrite wrap_id by (unfold fits; rewrite Z.shiftl_mul_pow2; lia).
  rewrite Z.lor_comm, lor_shiftl_add by (unfold fits; lia).
  assert (forallb (fun x => x =? 0) a = (lval a =? 0)) as ->.
  { clear Hl Hb. induction Ha as [|z l Hz Hf IH]; [done|]. simpl. rewrite IH.
    pose proof (lval_bounds l Hf). unfold fits in Hz.
    destruct (Z.eqb_spec z 0), (Z.eqb_spec (lval l) 0), (Z.eqb_spec (z + 2 ^ 32 * lval l) 0);
      simpl; try done; lia. }
  destruct (Z.eqb_spec (lval a) 0); lia.
Qed.

(** ** Properties *)

(** The canonical decoder is a bijection between accepted encodings and
    targets.  An accepted 32-bit encoding denotes a target in (0, limit] whose
    re-encoding is that encoding and whose 32 bytes are its big-endian form; and two
    accepted encodings of the same target are equal, so no alias passes. *)
Lemma decode_roundtrip raw t :
  fits 32 raw -> DecodeCanonicalVeldTarget raw = inr t ->
  0 < lval (tgt_value t) <= 0x7fffff * 2 ^ 232 /\
  TargetToCompact (tgt_value t) = raw /\
  be_val (tgt_bytes t) = lval (tgt_value t) /\
  (forall raw' t', fits 32 raw' -> DecodeCanonicalVeldTarget raw' = inr t' ->
     lval (tgt_value t') = lval (tgt_value t) -> raw' = raw).
Proof.
  intros Hr E. destruct (decode_ok_inv raw t Hr E) as (_ & Hw & Hv & Hc & Hby).
  rewrite VeldPowLimit_val in Hv. split; [done|]. split; [done|]. split.
  - rewrite Hby. by apply target_bytes_val.
  - intros raw' t' Hr' E' Heq. destruct (decode_ok_inv raw' t' Hr' E') as (_ & Hw' & _ & Hc' & _).
    rewrite <- Hc, <- Hc'. f_equal. apply lval_inj; try apply Hw; try apply Hw'; [|done].
    destruct Hw as [-> _], Hw' as [-> _]. done.
Qed.

Lemma decode_roundtrip_witness :
  exists t, DecodeCanonicalVeldTarget 0x1e390000 = inr t /\
    TargetToCompact (tgt_value t) = 0x1e390000.
Proof.
  destruct (DecodeCanonicalVeldTarget 0x1e390000) as [e|t] eqn:E; [vm_compute in E; discriminate|].
  exists t. split; [reflexivity|].
  destruct (decode_roundtrip 0x1e390000 t) as (_ & H & _); [unfold fits; lia|exact E|exact H].
Defined.

(** Encoding any target in (0, limit] gives an encoding the canonical decoder
    accepts; the decoded target rounds the input down to its 23-bit mantissa and
    differs from it by less than one unit of the last retained byte. *)
Lemma encode_accepted t m s :
  wf8 t -> 0 < lval t <= 0x7fffff * 2 ^ 232 -> compactZ (lval t) = (m, s) ->
  exists d, DecodeCanonicalVeldTarget (TargetToCompact t) = inr d /\
    lval (tgt_value d) <= lval t < lval (tgt_value d) + 2 ^ (8 * Z.max 0 (s - 3)).
Proof.
  intros Ht Hv E. rewrite <- VeldPowLimit_val in Hv.
  destruct (decode_encode t Ht Hv) as (d & Hd & Hle & Hval). exists d. split; [done|].
  rewrite (Hval m s E) in *. pose proof (wf8_bounds t Ht).
  pose proof (compactZ_spec (lval t) m s ltac:(lia) E) as (_ & _ & _ & Hlt & _). lia.
Qed.

Lemma encode_accepted_witness :
  let t := U256.FromU64 0x123456789abc in
  exists d, DecodeCanonicalVeldTarget (TargetToCompact t) = inr d /\
    lval (tgt_value d) = 0x123456000000.
Proof.
  simpl. destruct (encode_accepted (U256.FromU64 0x123456789abc) 0x123456 6) as (d & Hd & _).
  - apply FromU64_spec. unfold fits. lia.
  - vm_compute. split; [reflexivity|discriminate].
  - vm_compute. reflexivity.
  - exists d. split; [exact Hd|]. vm_compute in Hd. injection Hd as <-. vm_compute. reflexivity.
Defined.

(** A block whose [bits] the canonical decoder accepts scores exactly
    [2^256 / (target + 1)] work, at least 1 and at most [2^255]; any other encoding
    scores zero. *)
Lemma block_work_exact bits :
  fits 32 bits ->
  match DecodeCanonicalVeldTarget bits with
  | inr t => lval (ChainWork.BlockWork bits) = 2 ^ 256 / (lval (tgt_value t) + 1) /\
             1 <= lval (ChainWork.BlockWork bits) <= 2 ^ 255
  | inl _ => lval (ChainWork.BlockWork bits) = 0
  end.
Proof.
  intros Hb. destruct (DecodeCanonicalVeldTarget bits) as [e|t] eqn:E.
  - unfold ChainWork.BlockWork. rewrite E. apply of_u64_spec. unfold fits. lia.
  - by apply work_of_decoded.
Qed.

Lemma block_work_exact_witness :
  lval (ChainWork.BlockWork 0x1e390000) = 2 ^ 256 / (0x390000 * 2 ^ 216 + 1).
Proof.
  pose proof (block_work_exact 0x1e390000 ltac:(unfold fits; lia)) as H.
  vm_compute in H |- *. apply H.
Defined.

(** C30: cumulative work is exact and never throws.  For every chain of at most
    [2^64] headers the accumulation from zero returns the sum of the block works,
    so the 320-bit width of [ChainWork] suffices for the whole height domain; and
    the comparison used by fork choice orders such totals as integers. *)
Theorem chain_work_never_overflows chain1 chain2 :
  Forall (fits 32) chain1 -> Forall (fits 32) chain2 ->
  Z.of_nat (length chain1) <= 2 ^ 64 -> Z.of_nat (length chain2) <= 2 ^ 64 ->
  exists w1 w2,
    chain_work (ChainWork.of_u64 0) chain1 = Some w1 /\ lval w1 = work_sum chain1 /\
    chain_work (ChainWork.of_u64 0) chain2 = Some w2 /\ lval w2 = work_sum chain2 /\
    ChainWork.gtb w2 w1 = (work_sum chain1 <? work_sum chain2).
Proof.
  intros H1 H2 L1 L2. destruct (of_u64_spec 0) as [Hw0 Hv0]; [unfold fits; lia|].
  destruct (chain_work_exact _ chain1 Hw0 H1) as (w1 & E1 & W1 & V1); [lia|].
  destruct (chain_work_exact _ chain2 Hw0 H2) as (w2 & E2 & W2 & V2); [lia|].
  rewrite Hv0 in V1, V2. exists w1, w2. split_and!; [done|lia|done|lia|].
  unfold ChainWork.gtb, ChainWork.Compare. rewrite (cmp_limbs_val 10) by done.
  rewrite V1, V2, !Z.add_0_l.
  destruct (Z.compare_spec (work_sum chain2) (work_sum chain1)); simpl; lia.
Qed.

Lemma chain_work_never_overflows_witness :
  exists w1 w2,
    chain_work (ChainWork.of_u64 0) [0x1e390000] = Some w1 /\
    chain_work (ChainWork.of_u64 0) [0x1e390000; 0x207fffff] = Some w2 /\
    ChainWork.gtb w2 w1 = true.
Proof.
  destruct (chain_work_never_overflows [0x1e390000] [0x1e390000; 0x207fffff])
    as (w1 & w2 & E1 & _ & E2 & _ & G).
  - fits_list.
  - fits_list.
  - simpl length. lia.
  - simpl length. lia.
  - exists w1, w2. split; [exact E1|]. split; [exact E2|]. rewrite G. vm_compute. reflexivity.
Defined.
