(* ===== verification/Asert.v ===== *)
(** * ASERT difficulty

    Models [include/core/asert.h]: the integer ASERT update, with its fixed-point
    approximation of [2^x], the 288-bit product and the bit-by-bit placement of
    the shifted product, and proves it equal to one closed formula on integers. *)

From S2P Require Import Prelude Limbs BtcPow PowTarget.

(** [uint64_t] polynomial, every operation at its width. *)
Definition asert_factor (fraction : Z) : Z :=
  let t1 := u64 (195766423245049 * fraction) in
  let t2 := u64 (u64 (971821376 * fraction) * fraction) in
  let t3 := u64 (u64 (u64 (5127 * fraction) * fraction) * fraction) in
  u64 (65536 + Z.shiftr (u64 (u64 (u64 (t1 + t2) + t3) + u64 (Z.shiftl 1 47))) 48).

Definition asert_shifts (e : Z) : Z :=
  if e >=? 0 then Z.quot e 65536 else - (Z.quot (- e + 65535) 65536).

(** [for (bit = 0; bit < 288; ++bit)]: place every set bit of the product at
    [bit + shifts - 16]; [None] is the early return taken when one lands at or
    above bit 256. *)
Fixpoint place_bits (product : list Z) (shifts : Z) (bits : list nat) (result : list Z) :
    option (list Z) :=
  match bits with
  | [] => Some result
  | bit :: rest =>
      if Z.land (nth (bit / 32) product 0) (u32 (Z.shiftl 1 (Z.of_nat (bit mod 32)))) =? 0
      then place_bits product shifts rest result
      else
        let destination := Z.of_nat bit + shifts - 16 in
        if destination >=? 256 then None
        else if destination >=? 0
        then place_bits product shifts rest (U256.setbit result destination)
        else place_bits product shifts rest result
  end.

(** [None] is the return value [false]; [Some bits] is [true] with [out_bits]. *)
Definition CalculateASERTBits (anchor_bits time_delta height_delta spacing half_life
    limit_bits : Z) : option Z :=
  if (spacing =? 0) || (half_life =? 0) then None else
  match DecodeCanonicalVeldTarget anchor_bits, DecodeCanonicalVeldTarget limit_bits with
  | inr anchor, inr limit =>
      if U256.gtb (tgt_value anchor) (tgt_value limit) then None else
      let delta := time_delta - spacing * (height_delta + 1) in
      let exponent := Z.quot (delta * 65536) half_life in
      if exponent >? 512 * 65536 then Some limit_bits
      else if exponent <? -512 * 65536 then Some 0x01010000
      else
        let shifts := asert_shifts exponent in
        let fraction := exponent - shifts * 65536 in
        let factor := asert_factor fraction in
        let '(low, carry) := mul_limbs (tgt_value anchor) factor 0 in
        let product := low ++ [u32 carry] in
        match place_bits product shifts (seq 0 288) U256.Zero with
        | None => Some limit_bits
        | Some result =>
            let result := if U256.IsZero result then U256.FromU64 1 else result in
            let result := if U256.gtb result (tgt_value limit) then tgt_value limit else result in
            let out_bits := TargetToCompact result in
            match DecodeCanonicalVeldTarget out_bits with
            | inr _ => Some out_bits
            | inl _ => None
            end
        end
  | _, _ => None
  end.

(** ** Reference formula *)

Definition asert_poly (f : Z) : Z :=
  65536 + (195766423245049 * f + 971821376 * f * f + 5127 * f * f * f + 2 ^ 47) / 2 ^ 48.

(** [x * 2^k], rounded down. *)
Definition scale2 (x k : Z) : Z := if 0 <=? k then x * 2 ^ k else x / 2 ^ (- k).

Definition asert_exponent (time_delta height_delta spacing half_life : Z) : Z :=
  Z.quot ((time_delta - spacing * (height_delta + 1)) * 65536) half_life.

(** [anchor * 2^(e / 65536)] in fixed point, with [e] split into its integer and
    fractional parts by floor division. *)
Definition asert_target (anchor e : Z) : Z :=
  scale2 (anchor * asert_poly (e mod 65536)) (e / 65536 - 16).

(** ** The polynomial *)

Lemma asert_poly_max f :
  0 <= f <= 65535 ->
  0 <= 195766423245049 * f + 971821376 * f * f + 5127 * f * f * f + 2 ^ 47 < 2 ^ 64.
Proof.
  intros Hf. assert (0 <= f * f <= 65535 * 65535) by nia.
  assert (0 <= f * f * f <= 65535 * 65535 * 65535) by nia. lia.
Qed.

Lemma asert_factor_poly f : 0 <= f <= 65535 -> asert_factor f = asert_poly f.
Proof.
  intros Hf. unfold asert_factor, asert_poly.
  pose proof (asert_poly_max f Hf) as Hmax.
  assert (0 <= f * f <= 65535 * 65535) by nia.
  assert (0 <= f * f * f <= 65535 * 65535 * 65535) by nia.
  rewrite (wrap_id 64 (195766423245049 * f)) by (unfold fits; lia).
  rewrite (wrap_id 64 (971821376 * f)) by (unfold fits; lia).
  rewrite (wrap_id 64 (971821376 * f * f)) by (unfold fits; lia).
  rewrite (wrap_id 64 (5127 * f)) by (unfold fits; lia).
  rewrite (wrap_id 64 (5127 * f * f)) by (unfold fits; lia).
  rewrite (wrap_id 64 (5127 * f * f * f)) by (unfold fits; lia).
  rewrite (wrap_id 64 (Z.shiftl 1 47)) by (vm_compute; split; [discriminate|reflexivity]).
  rewrite Z.shiftl_1_l.
  rewrite (wrap_id 64 (_ + 971821376 * f * f)) by (unfold fits; lia).
  rewrite (wrap_id 64 (_ + 5127 * f * f * f)) by (unfold fits; lia).
  rewrite (wrap_id 64 (_ + 2 ^ 47)) by (unfold fits; lia).
  rewrite Z.shiftr_div_pow2 by lia. apply wrap_id. unfold fits.
  set (n := _ + 2 ^ 47) in *.
  assert (0 <= n / 2 ^ 48 < 2 ^ 16); [|lia].
  split; [apply Z.div_pos; lia|apply Z.div_lt_upper_bound; lia].
Qed.

Lemma asert_poly_range f : 0 <= f <= 65535 -> 65536 <= asert_poly f <= 131072.
Proof.
  intros Hf. unfold asert_poly. pose proof (asert_poly_max f Hf) as Hmax.
  set (n := _ + 2 ^ 47) in *. split.
  - pose proof (Z.div_pos n (2 ^ 48)). lia.
  - assert (n / 2 ^ 48 < 65536) by (apply Z.div_lt_upper_bound; lia). lia.
Qed.

Lemma asert_poly_mono f g : 0 <= f <= g -> asert_poly f <= asert_poly g.
Proof.
  intros H. unfold asert_poly. apply Z.add_le_mono_l, Z.div_le_mono; [lia|].
  assert (f * f <= g * g) by nia. assert (f * f * f <= g * g * g) by nia. lia.
Qed.

Lemma asert_split e :
  asert_shifts e = e / 65536 /\ e - asert_shifts e * 65536 = e mod 65536.
Proof.
  assert (asert_shifts e = e / 65536) as H.
  { unfold asert_shifts. destruct (e >=? 0) eqn:E.
    - apply Z.quot_div_nonneg; lia.
    - rewrite Z.quot_div_nonneg by lia. Z.div_mod_to_equations. lia. }
  split; [done|]. rewrite H. pose proof (Z.div_mod e 65536 ltac:(lia)). lia.
Qed.

(** ** Placing the bits of the product *)

Lemma land_bit x k : 0 <= k -> (Z.land x (Z.shiftl 1 k) =? 0) = negb (Z.testbit x k).
Proof.
  intros Hk. rewrite Z.shiftl_1_l. destruct (Z.testbit x k) eqn:E; simpl.
  - apply Z.eqb_neq. intros H0. assert (Z.testbit (Z.land x (2 ^ k)) k = false) as Hx
      by by rewrite H0, Z.bits_0.
    by rewrite Z.land_spec, E, Z.pow2_bits_true in Hx by lia.
  - apply Z.eqb_eq, Z.bits_inj'. intros n Hn. rewrite Z.land_spec, Z.pow2_bits_eqb, Z.bits_0 by lia.
    destruct (Z.eqb_spec k n) as [<-|]; [by rewrite E|by rewrite andb_false_r].
Qed.

Lemma product_bit product bit :
  Forall (fits 32) product ->
  (Z.land (nth (bit / 32) product 0) (u32 (Z.shiftl 1 (Z.of_nat (bit mod 32)))) =? 0)
  = negb (Z.testbit (lval product) (Z.of_nat bit)).
Proof.
  intros Hp. pose proof (Nat.mod_upper_bound bit 32 ltac:(lia)).
  assert (fits 32 (Z.shiftl 1 (Z.of_nat (bit mod 32)))) as Hf.
  { unfold fits. rewrite Z.shiftl_1_l. split; [lia|apply Z.pow_lt_mono_r; lia]. }
  rewrite wrap_id by done. rewrite land_bit by lia. rewrite lval_testbit by (done || lia).
  pose proof (Nat2Z.inj_div bit 32) as Hd. pose proof (Nat2Z.inj_mod bit 32) as Hm.
  change (Z.of_nat 32) with 32 in Hd, Hm. by rewrite <- Hd, <- Hm, Nat2Z.id.
Qed.

Lemma mod_pow2_succ P k :
  0 <= k -> P mod 2 ^ (k + 1) = P mod 2 ^ k + Z.b2z (Z.testbit P k) * 2 ^ k.
Proof.
  intros Hk. rewrite Z.testbit_spec' by done. rewrite Z.pow_add_r by lia.
  rewrite Z.rem_mul_r by lia. change (2 ^ 1) with 2. ring.
Qed.

Lemma scale2_add_bit x k d :
  0 <= k -> 0 <= x < 2 ^ k ->
  scale2 (x + 2 ^ k) d = scale2 x d + (if 0 <=? k + d then 2 ^ (k + d) else 0) /\
  0 <= scale2 x d < 2 ^ Z.max 0 (k + d).
Proof.
  intros Hk Hx. unfold scale2. destruct (Z.leb_spec 0 d).
  - destruct (Z.leb_spec 0 (k + d)); [|lia]. rewrite Z.max_r, Z.pow_add_r by lia. nia.
  - destruct (Z.leb_spec 0 (k + d)).
    + replace (2 ^ k) with (2 ^ (k + d) * 2 ^ (- d)) by (rewrite <- Z.pow_add_r by lia; f_equal; lia).
      rewrite Z.div_add by lia. rewrite Z.max_r by lia. split; [done|].
      split; [apply Z.div_pos; lia|]. apply Z.div_lt_upper_bound; [lia|].
      rewrite <- Z.pow_add_r by lia. replace (- d + (k + d)) with k by lia. lia.
    + assert (2 ^ k + 2 ^ k <= 2 ^ (- d)).
      { replace (2 ^ k + 2 ^ k) with (2 ^ (k + 1)) by (rewrite Z.pow_add_r by lia; lia).
        apply Z.pow_le_mono_r; lia. }
      rewrite !Z.div_small by lia. rewrite Z.max_l by lia. lia.
Qed.

Lemma scale2_mono x y d : 0 <= x <= y -> scale2 x d <= scale2 y d.
Proof.
  intros H. unfold scale2. destruct (Z.leb_spec 0 d); [nia|]. apply Z.div_le_mono; lia.
Qed.

Lemma scale2_pow2 k d : 0 <= k -> 0 <= k + d -> scale2 (2 ^ k) d = 2 ^ (k + d).
Proof.
  intros Hk Hd. destruct (scale2_add_bit 0 k d) as [H _]; [lia|lia|].
  rewrite Z.add_0_l in H. rewrite H. unfold scale2 at 1.
  destruct (Z.leb_spec 0 d), (Z.leb_spec 0 (k + d)); rewrite ?Z.div_0_l by lia; lia.
Qed.

Lemma pow2_le_of_testbit P k : 0 <= P -> 0 <= k -> Z.testbit P k = true -> 2 ^ k <= P.
Proof.
  intros HP Hk Hb. destruct (Z.leb_spec (2 ^ k) P); [done|].
  rewrite (testbit_fits_high k P) in Hb; [done|unfold fits; lia|lia].
Qed.

Lemma scale2_0 d : scale2 0 d = 0.
Proof. unfold scale2. destruct (Z.leb_spec 0 d); [done|]. by rewrite Z.div_0_l by lia. Qed.

Lemma place_bits_spec product shifts n k result :
  Forall (fits 32) product -> wf8 result ->
  lval result = scale2 (lval product mod 2 ^ Z.of_nat k) (shifts - 16) ->
  match place_bits product shifts (seq k n) result with
  | Some r => wf8 r /\ lval r = scale2 (lval product mod 2 ^ Z.of_nat (k + n)) (shifts - 16)
  | None => 2 ^ 256 <= scale2 (lval product) (shifts - 16)
  end.
Proof.
  intros Hp. revert k result. induction n as [|n IH]; intros k result Hr Hv; cbn [seq place_bits].
  { by rewrite Nat.add_0_r. }
  pose proof (lval_bounds product Hp) as HP.
  rewrite product_bit by done.
  assert (0 <= lval product mod 2 ^ Z.of_nat k < 2 ^ Z.of_nat k) as Hm by (apply Z.mod_pos_bound; lia).
  pose proof (scale2_add_bit (lval product mod 2 ^ Z.of_nat k) (Z.of_nat k) (shifts - 16)
    ltac:(lia) Hm) as [Hadd Hlt].
  pose proof (mod_pow2_succ (lval product) (Z.of_nat k) ltac:(lia)) as Hsucc.
  rewrite Z.add_1_r, <- Nat2Z.inj_succ in Hsucc.
  replace (k + S n)%nat with (S k + n)%nat by lia.
  destruct (Z.testbit (lval product) (Z.of_nat k)) eqn:Eb; cbn [negb Z.b2z] in *.
  - rewrite Z.mul_1_l in Hsucc.
    destruct (Z.of_nat k + shifts - 16 >=? 256) eqn:E256.
    { apply Z.le_trans with (2 ^ (Z.of_nat k + (shifts - 16))); [apply Z.pow_le_mono_r; lia|].
      rewrite <- scale2_pow2 by lia. apply scale2_mono.
      pose proof (pow2_le_of_testbit (lval product) (Z.of_nat k) ltac:(lia) ltac:(lia) Eb). lia. }
    destruct (Z.of_nat k + shifts - 16 >=? 0) eqn:E0.
    + destruct (setbit_spec result (Z.of_nat k + shifts - 16) Hr ltac:(lia)) as [Hw Hs].
      apply IH; [done|]. rewrite Hs, setbit_add; [|lia|].
      * rewrite Hv, Hsucc, Hadd. destruct (Z.leb_spec 0 (Z.of_nat k + (shifts - 16))); [|lia].
        do 2 f_equal. lia.
      * rewrite Hv. apply (testbit_fits_high (Z.max 0 (Z.of_nat k + (shifts - 16)))); [done|lia].
    + apply IH; [done|]. rewrite Hv, Hsucc, Hadd.
      destruct (Z.leb_spec 0 (Z.of_nat k + (shifts - 16))); lia.
  - apply IH; [done|]. rewrite Hv, Hsucc. f_equal. lia.
Qed.

(** ** The update as a whole *)

Lemma Forall_fits_app a b : Forall (fits 32) a -> fits 32 b -> Forall (fits 32) (a ++ [b]).
Proof. intros. apply Forall_app. split; [done|]. by apply Forall_cons_2; [|apply Forall_nil_2]. Qed.

Definition asert_valid (anchor_bits limit_bits : Z) (anchor limit : CanonicalPowTarget) : Prop :=
  fits 32 anchor_bits /\ fits 32 limit_bits /\
  DecodeCanonicalVeldTarget anchor_bits = inr anchor /\
  DecodeCanonicalVeldTarget limit_bits = inr limit /\
  lval (tgt_value anchor) <= lval (tgt_value limit).

Lemma asert_target_high anchor e limit :
  1 <= anchor -> 0 <= limit < 2 ^ 256 -> e > 512 * 65536 -> limit <= asert_target anchor e.
Proof.
  intros Ha Hl He. unfold asert_target.
  assert (512 <= e / 65536) by (apply Z.div_le_lower_bound; lia).
  pose proof (Z.mod_pos_bound e 65536 ltac:(lia)).
  pose proof (asert_poly_range (e mod 65536) ltac:(lia)).
  assert (2 ^ 0 <= anchor * asert_poly (e mod 65536)) by nia.
  apply Z.le_trans with (scale2 (2 ^ 0) (e / 65536 - 16)); [|apply scale2_mono; lia].
  rewrite scale2_pow2 by lia.
  assert (2 ^ 256 <= 2 ^ (0 + (e / 65536 - 16))); [apply Z.pow_le_mono_r; lia|lia].
Qed.

Lemma asert_target_low anchor e :
  0 <= anchor < 2 ^ 256 -> e < -512 * 65536 -> asert_target anchor e = 0.
Proof.
  intros Ha He. unfold asert_target.
  assert (e / 65536 < -511) by (apply Z.div_lt_upper_bound; lia).
  pose proof (Z.mod_pos_bound e 65536 ltac:(lia)).
  pose proof (asert_poly_range (e mod 65536) ltac:(lia)).
  unfold scale2. destruct (Z.leb_spec 0 (e / 65536 - 16)); [lia|]. apply Z.div_small.
  split; [nia|]. apply Z.lt_le_trans with (2 ^ 300); [nia|]. apply Z.pow_le_mono_r; lia.
Qed.

Lemma wf8_target bits t :
  fits 32 bits -> DecodeCanonicalVeldTarget bits = inr t ->
  wf8 (tgt_value t) /\ 0 < lval (tgt_value t) < 2 ^ 256 /\
  lval (tgt_value t) <= lval VeldPowLimit /\ TargetToCompact (tgt_value t) = bits.
Proof.
  intros Hb E. destruct (decode_ok_inv bits t Hb E) as (_ & Hw & Hv & Hc & _).
  pose proof (wf8_bounds _ Hw). split_and!; (done || lia).
Qed.

Lemma asert_product anchor f low carry :
  wf8 anchor -> 0 <= f <= 65535 -> mul_limbs anchor (asert_factor f) 0 = (low, carry) ->
  Forall (fits 32) (low ++ [u32 carry]) /\ lval (low ++ [u32 carry]) = lval anchor * asert_poly f /\
  0 <= lval anchor * asert_poly f < 2 ^ 288.
Proof.
  intros Hw Hf E. pose proof Hw as [Hl Ha]. pose proof (wf8_bounds anchor Hw).
  rewrite asert_factor_poly in E by done. pose proof (asert_poly_range f Hf).
  apply mul_limbs_spec in E as (Hlow & Hfits & Hc & Hv); [|done|unfold fits; lia..].
  rewrite wrap_id by done. split_and!; [by apply Forall_fits_app| |nia|nia].
  rewrite lval_app, Hlow. simpl lval. lia.
Qed.

Lemma asert_spec anchor_bits limit_bits anchor limit td hd spacing half_life :
  asert_valid anchor_bits limit_bits anchor limit -> spacing <> 0 -> half_life <> 0 ->
  exists u, wf8 u /\
    CalculateASERTBits anchor_bits td hd spacing half_life limit_bits = Some (TargetToCompact u) /\
    lval u = Z.min (lval (tgt_value limit))
               (Z.max 1 (asert_target (lval (tgt_value anchor))
                           (asert_exponent td hd spacing half_life))).
Proof.
  intros (Hab & Hlb & Ea & El & Hle) Hs Hh.
  destruct (wf8_target _ _ Hab Ea) as (Hwa & Hva & _ & _).
  destruct (wf8_target _ _ Hlb El) as (Hwl & Hvl & Hll & Hcl).
  unfold CalculateASERTBits. rewrite Ea, El.
  destruct (Z.eqb_spec spacing 0), (Z.eqb_spec half_life 0); try done. cbn [orb].
  rewrite gtb_spec by done.
  destruct (Z.ltb_spec (lval (tgt_value limit)) (lval (tgt_value anchor))); [lia|].
  fold (asert_exponent td hd spacing half_life). set (e := asert_exponent _ _ _ _).
  destruct (Z.gtb_spec e (512 * 65536)).
  { exists (tgt_value limit). rewrite Hcl. split_and!; [done..|].
    pose proof (asert_target_high (lval (tgt_value anchor)) e (lval (tgt_value limit))). lia. }
  destruct (Z.ltb_spec e (-512 * 65536)).
  { exists (U256.FromU64 1). destruct (FromU64_spec 1) as [Hw1 Hv1]; [unfold fits; lia|].
    split_and!; [done|done|]. rewrite asert_target_low by lia. lia. }
  destruct (asert_split e) as [Esh Efr]. rewrite Efr, Esh.
  pose proof (Z.mod_pos_bound e 65536 ltac:(lia)).
  destruct (mul_limbs (tgt_value anchor) (asert_factor (e mod 65536)) 0) as [low carry] eqn:Em.
  destruct (asert_product _ (e mod 65536) _ _ Hwa ltac:(lia) Em) as (Hpf & Hpv & Hpb).
  pose proof (place_bits_spec _ (e / 65536) 288 0 U256.Zero Hpf Zero_wf) as Hplace.
  rewrite Hpv in Hplace. change (Z.of_nat 0) with 0 in Hplace.
  rewrite Z.pow_0_r, Z.mod_1_r, scale2_0 in Hplace. specialize (Hplace eq_refl).
  fold (asert_target (lval (tgt_value anchor)) e) in Hplace.
  destruct (place_bits _ _ _ _) as [r|]; cycle 1.
  { exists (tgt_value limit). rewrite Hcl. split_and!; [done..|].
    lia. }
  destruct Hplace as [Hwr Hvr].
  change (Z.of_nat (0 + 288)) with 288 in Hvr. rewrite Z.mod_small in Hvr by done.
  fold (asert_target (lval (tgt_value anchor)) e) in Hvr.
  rewrite IsZero_spec by done. pose proof (wf8_bounds r Hwr).
  set (r1 := if lval r =? 0 then _ else _).
  assert (wf8 r1 /\ lval r1 = Z.max 1 (lval r)) as [Hw1 Hv1].
  { unfold r1. destruct (FromU64_spec 1) as [Hw1 Hv1]; [unfold fits; lia|].
    destruct (Z.eqb_spec (lval r) 0); split; (done || lia). }
  rewrite gtb_spec by done.
  set (r2 := if lval (tgt_value limit) <? lval r1 then _ else _).
  assert (wf8 r2 /\ lval r2 = Z.min (lval (tgt_value limit)) (lval r1)) as [Hw2 Hv2].
  { unfold r2. destruct (Z.ltb_spec (lval (tgt_value limit)) (lval r1)); split; (done || lia). }
  destruct (decode_encode r2 Hw2 ltac:(lia)) as (d & -> & _).
  exists r2. split_and!; [done..|]. rewrite Hv2, Hv1, Hvr. done.
Qed.

(** ** Properties *)

(** C27: for every accepted anchor not above an accepted limit and nonzero spacing
    and half-life, the update returns [true], and the bits it returns encode the
    closed formula [min(limit, max(1, anchor * 2^(e/65536)))] with the documented
    cubic approximation of the fractional power, computed on unbounded integers:
    no 64-bit product wraps, the 288-bit product loses nothing and the two early
    exits agree with the formula. *)
Theorem asert_exact anchor_bits limit_bits anchor limit td hd spacing half_life :
  asert_valid anchor_bits limit_bits anchor limit -> spacing <> 0 -> half_life <> 0 ->
  exists u d,
    CalculateASERTBits anchor_bits td hd spacing half_life limit_bits = Some (TargetToCompact u) /\
    lval u = Z.min (lval (tgt_value limit))
               (Z.max 1 (asert_target (lval (tgt_value anchor))
                           (asert_exponent td hd spacing half_life))) /\
    DecodeCanonicalVeldTarget (TargetToCompact u) = inr d /\
    lval (tgt_value d) <= lval (tgt_value limit).
Proof.
  intros Hv Hs Hh. destruct (asert_spec _ _ _ _ td hd _ _ Hv Hs Hh) as (u & Hw & E & Hu).
  destruct Hv as (_ & Hlb & _ & El & _). destruct (wf8_target _ _ Hlb El) as (_ & Hl & Hll & _).
  destruct (decode_encode u Hw ltac:(lia)) as (d & Hd & Hle & _).
  exists u, d. split_and!; (done || lia).
Qed.

Lemma genesis_asert_valid a l :
  DecodeCanonicalVeldTarget 0x1e390000 = inr a ->
  DecodeCanonicalVeldTarget VELD_POW_LIMIT_BITS = inr l ->
  asert_valid 0x1e390000 VELD_POW_LIMIT_BITS a l.
Proof.
  intros Ea El. unfold asert_valid. split_and!; [unfold fits, VELD_POW_LIMIT_BITS; lia..|done|done|].
  vm_compute in Ea, El. injection Ea as <-. injection El as <-. vm_compute. discriminate.
Defined.

Lemma asert_exact_witness :
  exists u,
    CalculateASERTBits 0x1e390000 2880 0 180 2700 VELD_POW_LIMIT_BITS = Some (TargetToCompact u) /\
    lval u = 2 * (0x390000 * 2 ^ 216).
Proof.
  destruct (DecodeCanonicalVeldTarget 0x1e390000) as [?|a] eqn:Ea; [vm_compute in Ea; discriminate|].
  destruct (DecodeCanonicalVeldTarget VELD_POW_LIMIT_BITS) as [?|l] eqn:El;
    [vm_compute in El; discriminate|].
  destruct (asert_exact 0x1e390000 VELD_POW_LIMIT_BITS a l 2880 0 180 2700) as (u & d & E & Hu & _);
    [by apply genesis_asert_valid|discriminate|discriminate|].
  exists u. split; [exact E|]. rewrite Hu.
  vm_compute in Ea, El. injection Ea as <-. injection El as <-. vm_compute. reflexivity.
Defined.

Lemma asert_target_mono a e1 e2 : 0 <= a -> e1 <= e2 -> asert_target a e1 <= asert_target a e2.
Proof.
  intros Ha He. unfold asert_target.
  pose proof (Z.mod_pos_bound e1 65536 ltac:(lia)). pose proof (Z.mod_pos_bound e2 65536 ltac:(lia)).
  pose proof (Z.div_mod e1 65536 ltac:(lia)). pose proof (Z.div_mod e2 65536 ltac:(lia)).
  pose proof (asert_poly_range (e1 mod 65536) ltac:(lia)).
  pose proof (asert_poly_range (e2 mod 65536) ltac:(lia)).
  destruct (decide (e1 / 65536 = e2 / 65536)) as [E|E].
  - rewrite E. apply scale2_mono.
    pose proof (asert_poly_mono (e1 mod 65536) (e2 mod 65536) ltac:(lia)). nia.
  - set (p1 := asert_poly (e1 mod 65536)) in *. set (p2 := asert_poly (e2 mod 65536)) in *.
    apply Z.le_trans with (scale2 (a * p2) (e1 / 65536 - 16 + 1)).
    + apply Z.le_trans with (scale2 (2 * (a * p2)) (e1 / 65536 - 16)); [apply scale2_mono; nia|].
      set (d := e1 / 65536 - 16). unfold scale2.
      destruct (Z.leb_spec 0 d), (Z.leb_spec 0 (d + 1)); try lia.
      * rewrite Z.pow_add_r by lia. lia.
      * assert (d = -1) as -> by lia. change (2 ^ (- -1)) with 2. change (2 ^ (-1 + 1)) with 1.
        rewrite Z.mul_comm, Z.div_mul by lia. lia.
      * replace (- d) with (1 + - (d + 1)) by lia. rewrite Z.pow_add_r by lia.
        change (2 ^ 1) with 2. rewrite Z.div_mul_cancel_l by lia. lia.
    + assert (forall x k j, 0 <= x -> 0 <= j -> scale2 x k <= scale2 x (k + j)) as Hup.
      { clear. intros x k j Hx Hj. unfold scale2.
        destruct (Z.leb_spec 0 k), (Z.leb_spec 0 (k + j)); try lia.
        - rewrite Z.pow_add_r by lia. nia.
        - apply Z.le_trans with x; [|nia]. apply Z.div_le_upper_bound; nia.
        - apply Z.div_le_compat_l; [lia|]. split; [lia|apply Z.pow_le_mono_r; lia]. }
      replace (e2 / 65536 - 16) with (e1 / 65536 - 16 + 1 + (e2 / 65536 - e1 / 65536 - 1)) by lia.
      apply Hup; nia.
Qed.

(** The bounds an encoding gives on the encoded integer. *)
Lemma encodes_window v m s :
  encodes v m s ->
  v < 2 ^ (8 * s - 1) /\ (2 <= s -> 2 ^ (8 * s - 9) <= mant_exp m s).
Proof.
  intros (Hm & Hs & _ & Hlt & _). unfold mant_exp in *. destruct (Z.leb_spec s 3) as [Hle|Hgt].
  - rewrite Z.max_l in Hlt by lia. change (2 ^ (8 * 0)) with 1 in Hlt.
    assert (m / 2 ^ (8 * (3 - s)) < 2 ^ (8 * s - 1)).
    { apply Z.div_lt_upper_bound; [lia|]. rewrite <- Z.pow_add_r by lia.
      replace (8 * (3 - s) + (8 * s - 1)) with 23 by lia. lia. }
    split; [lia|]. intros H2. apply Z.div_le_lower_bound; [lia|].
    rewrite <- Z.pow_add_r by lia. replace (8 * (3 - s) + (8 * s - 9)) with 15 by lia. lia.
  - rewrite Z.max_r in Hlt by lia.
    replace (8 * s - 1) with (23 + 8 * (s - 3)) by lia.
    replace (8 * s - 9) with (15 + 8 * (s - 3)) by lia. rewrite !Z.pow_add_r by lia. nia.
Qed.

(** Rounding to the compact form preserves order. *)
Lemma encodes_mono v1 m1 s1 v2 m2 s2 :
  encodes v1 m1 s1 -> encodes v2 m2 s2 -> v1 <= v2 -> mant_exp m1 s1 <= mant_exp m2 s2.
Proof.
  intros E1 E2 Hle. destruct (encodes_window _ _ _ E1) as [U1 L1].
  destruct (encodes_window _ _ _ E2) as [U2 L2].
  destruct E1 as (Hm1 & Hs1 & [_ B1] & T1 & _), E2 as (Hm2 & Hs2 & [_ B2] & T2 & _).
  destruct (Z.lt_trichotomy s1 s2) as [Hlt|[->|Hgt]].
  - assert (2 ^ (8 * s1 - 1) <= 2 ^ (8 * s2 - 9)) by (apply Z.pow_le_mono_r; lia). lia.
  - unfold mant_exp in *. destruct (Z.leb_spec s2 3).
    + rewrite Z.max_l in T1, T2 by lia. change (2 ^ (8 * 0)) with 1 in *. lia.
    + rewrite Z.max_r in T1, T2 by lia. set (p := 2 ^ (8 * (s2 - 3))) in *.
      assert (0 < p) by (apply Z.pow_pos_nonneg; lia).
      assert (m1 < m2 + 1) by (apply (Z.mul_lt_mono_pos_r p); lia). nia.
  - assert (2 ^ (8 * s2 - 1) <= 2 ^ (8 * s1 - 9)) by (apply Z.pow_le_mono_r; lia). lia.
Qed.

(** Difficulty responds in the right direction.  With the same anchor and
    height, a later block time never yields a smaller (harder) target: the targets
    decoded from the returned bits are ordered as the time deltas. *)
Lemma asert_monotone anchor_bits limit_bits anchor limit td1 td2 hd spacing half_life :
  asert_valid anchor_bits limit_bits anchor limit -> spacing <> 0 -> 0 < half_life ->
  td1 <= td2 ->
  exists b1 b2 d1 d2,
    CalculateASERTBits anchor_bits td1 hd spacing half_life limit_bits = Some b1 /\
    CalculateASERTBits anchor_bits td2 hd spacing half_life limit_bits = Some b2 /\
    DecodeCanonicalVeldTarget b1 = inr d1 /\ DecodeCanonicalVeldTarget b2 = inr d2 /\
    lval (tgt_value d1) <= lval (tgt_value d2).
Proof.
  intros Hv Hs Hh Htd.
  destruct (asert_spec _ _ _ _ td1 hd spacing half_life Hv Hs ltac:(lia)) as (u1 & W1 & E1 & V1).
  destruct (asert_spec _ _ _ _ td2 hd spacing half_life Hv Hs ltac:(lia)) as (u2 & W2 & E2 & V2).
  destruct Hv as (Hab & Hlb & Ea & El & _).
  destruct (wf8_target _ _ Hlb El) as (_ & Hl & Hll & _).
  destruct (wf8_target _ _ Hab Ea) as (_ & Ha & _).
  assert (lval u1 <= lval u2) as Hu.
  { pose proof (asert_target_mono (lval (tgt_value anchor)) (asert_exponent td1 hd spacing half_life)
      (asert_exponent td2 hd spacing half_life) ltac:(lia)) as Hmono.
    rewrite V1, V2. enough (asert_exponent td1 hd spacing half_life
      <= asert_exponent td2 hd spacing half_life) by lia.
    unfold asert_exponent. apply Z.quot_le_mono; lia. }
  pose proof (wf8_bounds u1 W1). pose proof (wf8_bounds u2 W2).
  destruct (decode_encode u1 W1 ltac:(lia)) as (d1 & D1 & _ & X1).
  destruct (decode_encode u2 W2 ltac:(lia)) as (d2 & D2 & _ & X2).
  exists (TargetToCompact u1), (TargetToCompact u2), d1, d2. split_and!; try done.
  destruct (compactZ (lval u1)) as [m1 s1] eqn:C1. destruct (compactZ (lval u2)) as [m2 s2] eqn:C2.
  rewrite (X1 m1 s1 eq_refl), (X2 m2 s2 eq_refl).
  eapply encodes_mono; [apply compactZ_spec; [|exact C1]; lia|apply compactZ_spec; [|exact C2]; lia|done].
Qed.

Lemma asert_monotone_witness :
  exists b1 b2,
    CalculateASERTBits 0x1e390000 0 0 180 2700 VELD_POW_LIMIT_BITS = Some b1 /\
    CalculateASERTBits 0x1e390000 2880 0 180 2700 VELD_POW_LIMIT_BITS = Some b2.
Proof.
  destruct (DecodeCanonicalVeldTarget 0x1e390000) as [?|a] eqn:Ea; [vm_compute in Ea; discriminate|].
  destruct (DecodeCanonicalVeldTarget VELD_POW_LIMIT_BITS) as [?|l] eqn:El;
    [vm_compute in El; discriminate|].
  destruct (asert_monotone 0x1e390000 VELD_POW_LIMIT_BITS a l 0 2880 0 180 2700)
    as (b1 & b2 & _ & _ & E1 & E2 & _); [by apply genesis_asert_valid|discriminate|lia|lia|].
  exists b1, b2. split; [exact E1|exact E2].
Defined.
