(* ===== verification/Bytes.v ===== *)
(** * Byte strings, little-endian integers, readers and hexadecimal text

    The byte-level helpers that the serializers share: the push/shift sequences
    of [core/transaction.h], [core/block.h] and [consensus/state_digest.h], the
    bounds-checked readers of the deserializers, and the hexadecimal codecs of
    [core/hash.h].  A [std::vector<uint8_t>] or [std::string] is a list of
    integers in [0, 256). *)
From S2P Require Import Prelude.
From Stdlib Require Ascii.

Abbreviation bytes := (list Z).

Definition is_bytes (l : bytes) : Prop := Forall (fits 8) l.

#[global] Instance is_bytes_dec l : Decision (is_bytes l).
Proof. unfold is_bytes. apply _. Defined.

(** [v.size()] *)
Definition size {A} (l : list A) : Z := Z.of_nat (length l).

(** A string literal as the bytes of its characters. *)
Fixpoint bytes_of_string (s : string) : bytes :=
  match s with
  | EmptyString => []
  | String c s' => Z.of_N (Ascii.N_of_ascii c) :: bytes_of_string s'
  end.

Declare Scope bytes_scope.
Delimit Scope bytes_scope with bytes.
Notation "'b:' s" := (bytes_of_string s%string) (at level 1, format "'b:' s") : bytes_scope.
#[global] Open Scope bytes_scope.

(** ** Little-endian integers *)

(** [n] pushes of [(v >> (i * 8)) & 0xFF], i = 0, 1, ... *)
Fixpoint put_le (n : nat) (v : Z) : bytes :=
  match n with
  | O => []
  | S n' => Z.land v 0xFF :: put_le n' (Z.shiftr v 8)
  end.

(** [data[pos] | data[pos + 1] << 8 | ...] *)
Fixpoint get_le (l : bytes) : Z :=
  match l with
  | [] => 0
  | b :: l' => Z.lor b (Z.shiftl (get_le l') 8)
  end.

(** The big-endian store and load of [crypto/vendored.h]. *)
Definition put_be (n : nat) (v : Z) : bytes := rev (put_le n v).
Definition get_be (l : bytes) : Z := get_le (rev l).

(** ** Readers: what is left of the buffer from [pos] on *)

Definition reader (A : Type) : Type := bytes -> option (A * bytes).

Definition rret {A} (a : A) : reader A := fun d => Some (a, d).
Definition rfail {A} : reader A := fun _ => None.
Definition rbind {A B} (r : reader A) (k : A -> reader B) : reader B := fun d =>
  match r d with Some (a, d') => k a d' | None => None end.

Declare Scope reader_scope.
Delimit Scope reader_scope with reader.
Notation "'read' x <- r ; k" := (rbind r (fun x => k))
  (at level 10, x name, r at level 100, k at level 200) : reader_scope.
Notation "'guard' b ; k" := (if b then k else rfail)
  (at level 10, b at level 100, k at level 200) : reader_scope.
#[global] Open Scope reader_scope.

(** [if (pos + n > size) return 0; copy; pos += n] *)
Definition read_bytes (n : nat) : reader bytes := fun d =>
  if (length d <? n)%nat then None else Some (take n d, drop n d).

Definition read_le (n : nat) : reader Z := read l <- read_bytes n; rret (get_le l).

(** The loop that reads [n] elements. *)
Fixpoint read_list {A} (n : nat) (r : reader A) : reader (list A) :=
  match n with
  | O => rret []
  | S n' => read a <- r; read l <- read_list n' r; rret (a :: l)
  end.

(** ** Decimal text: [std::to_string] on an unsigned 64-bit integer *)

(** Digits are produced from the least significant one; twenty of them cover 64 bits. *)
Fixpoint dec_loop (fuel : nat) (v : Z) (acc : bytes) : bytes :=
  match fuel with
  | O => acc
  | S fuel' => let acc' := (48 + v mod 10) :: acc in
               if v <? 10 then acc' else dec_loop fuel' (v / 10) acc'
  end.

Definition to_string (v : Z) : bytes := dec_loop 20 v [].

(** The number a digit string denotes. *)
Definition dec_val (l : bytes) : Z := foldl (fun a c => a * 10 + (c - 48)) 0 l.

(** ** Hexadecimal text ([core/hash.h]) *)

Definition HEX : bytes := b:"0123456789abcdef".

Fixpoint BytesToHex (data : bytes) : bytes :=
  match data with
  | [] => []
  | x :: data' => nth (Z.to_nat (Z.land (Z.shiftr x 4) 0xF)) HEX 0
                  :: nth (Z.to_nat (Z.land x 0xF)) HEX 0 :: BytesToHex data'
  end.

Definition nibble (c : Z) : Z :=
  if (48 <=? c) && (c <=? 57) then c - 48
  else if (97 <=? c) && (c <=? 102) then c - 97 + 10
  else if (65 <=? c) && (c <=? 70) then c - 65 + 10
  else -1.

(** The loop of [HexToBytes]; [None] is the early [return {}]. *)
Fixpoint hex_pairs (hex : bytes) : option bytes :=
  match hex with
  | [] => Some []
  | [_] => None
  | a :: b :: hex' =>
      if (nibble a <? 0) || (nibble b <? 0) then None
      else match hex_pairs hex' with
           | Some out => Some (u8 (Z.lor (Z.shiftl (nibble a) 4) (nibble b)) :: out)
           | None => None
           end
  end.

Definition HexToBytes (hex : bytes) : bytes :=
  if negb (size hex mod 2 =? 0) then []
  else match hex_pairs hex with Some out => out | None => [] end.

(** ** Hashes as 32-byte arrays *)

Abbreviation Hash256 := (list Z).

Definition ZeroHash : Hash256 := replicate 32 0.
Definition HashIsZero (h : Hash256) : bool := forallb (fun b => b =? 0) h.

Definition HashToHex (h : Hash256) : bytes := BytesToHex h.

(** [std::array]'s and [std::string]'s [operator<]: lexicographic on bytes. *)
Fixpoint lex_lt (a b : bytes) : bool :=
  match a, b with
  | [], [] => false
  | [], _ :: _ => true
  | _ :: _, [] => false
  | x :: a', y :: b' => if x <? y then true else if y <? x then false else lex_lt a' b'
  end.

Definition is_hash (h : Hash256) : Prop := length h = 32%nat /\ is_bytes h.

#[global] Instance is_hash_dec h : Decision (is_hash h).
Proof. unfold is_hash. apply _. Defined.

(** [std::vector]/[std::array] equality. *)
Definition bytes_eqb (a b : bytes) : bool := bool_decide (a = b).

(** ** Lemmas: byte strings *)

Lemma bytes_eqb_eq a b : bytes_eqb a b = true <-> a = b.
Proof. unfold bytes_eqb. apply bool_decide_eq_true. Qed.

Lemma bytes_eqb_refl a : bytes_eqb a a = true.
Proof. by apply bytes_eqb_eq. Qed.

Lemma bytes_eqb_false a b : bytes_eqb a b = false <-> a <> b.
Proof. unfold bytes_eqb. apply bool_decide_eq_false. Qed.

Lemma bytes_eqb_sym a b : bytes_eqb a b = bytes_eqb b a.
Proof. unfold bytes_eqb. apply bool_decide_ext. split; congruence. Qed.

(** ** Lemmas: integers and bytes *)

Lemma length_put_le n v : length (put_le n v) = n.
Proof. revert v. induction n as [|n IH]; intros v; [done|]. cbn [put_le length]. by rewrite IH. Qed.

Lemma land_byte v : Z.land v 0xFF = v mod 256.
Proof. change 0xFF with (Z.ones 8). by rewrite Z.land_ones by lia. Qed.

Lemma put_le_bytes n v : is_bytes (put_le n v).
Proof.
  revert v. induction n as [|n IH]; intros v; [by constructor|].
  constructor; [|apply IH].
  rewrite land_byte. unfold fits. pose proof (Z.mod_pos_bound v 256). lia.
Qed.

Lemma lor_disjoint_add b x : fits 8 b -> Z.lor b (Z.shiftl x 8) = b + 256 * x.
Proof.
  intros Hb.
  assert (H0 : Z.land b (Z.shiftl x 8) = 0).
  { apply Z.bits_inj'. intros j Hj. rewrite Z.land_spec, Z.bits_0, Z.shiftl_spec by lia.
    destruct (decide (j < 8)).
    - rewrite (Z.testbit_neg_r x) by lia. apply andb_false_r.
    - replace (Z.testbit b j) with false; [done|]. symmetry.
      rewrite <- (wrap_id 8 b Hb). apply Z.mod_pow2_bits_high. lia. }
  pose proof (Z.add_lor_land b (Z.shiftl x 8)) as H. rewrite H0 in H.
  rewrite Z.shiftl_mul_pow2 in * by lia. change (2 ^ 8) with 256 in *. lia.
Qed.

Lemma get_le_cons b l : fits 8 b -> get_le (b :: l) = b + 256 * get_le l.
Proof. intros Hb. cbn [get_le]. by apply lor_disjoint_add. Qed.

Lemma get_le_bound l : is_bytes l -> 0 <= get_le l < 256 ^ size l.
Proof.
  unfold size. induction 1 as [|b l Hb Hl IH]; [cbn; lia|].
  rewrite get_le_cons by done. cbn [length]. rewrite Nat2Z.inj_succ, Z.pow_succ_r by lia.
  unfold fits in Hb. lia.
Qed.

Lemma get_le_fits l n : is_bytes l -> length l = n -> fits (8 * Z.of_nat n) (get_le l).
Proof.
  intros Hl <-. unfold fits. rewrite Z.pow_mul_r by lia. by apply get_le_bound.
Qed.

Lemma get_put_le n v : fits (8 * Z.of_nat n) v -> get_le (put_le n v) = v.
Proof.
  revert v. induction n as [|n IH]; intros v Hv.
  { unfold fits in Hv. cbn in *. lia. }
  cbn [put_le]. unfold fits in Hv.
  replace (8 * Z.of_nat (S n)) with (8 + 8 * Z.of_nat n) in Hv by lia.
  rewrite Z.pow_add_r in Hv by lia. change (2 ^ 8) with 256 in Hv.
  rewrite land_byte, Z.shiftr_div_pow2 by lia. change (2 ^ 8) with 256.
  rewrite get_le_cons by (unfold fits; pose proof (Z.mod_pos_bound v 256); lia).
  rewrite IH.
  - pose proof (Z.div_mod v 256). lia.
  - unfold fits. split; [apply Z.div_pos; lia|]. apply Z.div_lt_upper_bound; lia.
Qed.

Lemma put_get_le l : is_bytes l -> put_le (length l) (get_le l) = l.
Proof.
  induction 1 as [|b l Hb Hl IH]; [done|]. cbn [length put_le].
  rewrite get_le_cons, land_byte, Z.shiftr_div_pow2 by (done || lia). change (2 ^ 8) with 256.
  unfold fits in Hb. f_equal.
  - rewrite Z.mul_comm, Z.mod_add by lia. apply Z.mod_small. lia.
  - replace ((b + 256 * get_le l) / 256) with (get_le l); [done|].
    rewrite Z.mul_comm, Z.div_add, Z.div_small by lia. lia.
Qed.

Lemma put_le_inj n v w :
  fits (8 * Z.of_nat n) v -> fits (8 * Z.of_nat n) w -> put_le n v = put_le n w -> v = w.
Proof. intros Hv Hw H. by rewrite <- (get_put_le n v), <- (get_put_le n w), H. Qed.

Lemma is_bytes_app a b : is_bytes (a ++ b) <-> is_bytes a /\ is_bytes b.
Proof. apply Forall_app. Qed.

Lemma is_bytes_take n l : is_bytes l -> is_bytes (take n l).
Proof. apply Forall_take. Qed.
Lemma is_bytes_drop n l : is_bytes l -> is_bytes (drop n l).
Proof. apply Forall_drop. Qed.

Lemma bytes_of_string_bytes s : is_bytes (bytes_of_string s).
Proof.
  induction s as [|c s IH]; [by constructor|]. constructor; [|apply IH].
  unfold fits. split; [lia|]. destruct c as [[] [] [] [] [] [] [] []]; cbn; lia.
Qed.

Lemma app_inv_len {A} (a b c d : list A) :
  length a = length c -> a ++ b = c ++ d -> a = c /\ b = d.
Proof. intros H E. by apply app_inj_1. Qed.

Lemma is_hash_zero : is_hash ZeroHash.
Proof. split; [done|]. unfold ZeroHash, is_bytes. apply Forall_replicate. unfold fits. lia. Qed.

#[export] Hint Resolve put_le_bytes is_bytes_take is_bytes_drop bytes_of_string_bytes is_hash_zero
  : veld.

(** ** Lemmas: readers *)

Lemma read_bytes_app n l rest : length l = n -> read_bytes n (l ++ rest) = Some (l, rest).
Proof.
  intros <-. unfold read_bytes. rewrite length_app.
  destruct (Nat.ltb_spec (length l + length rest) (length l)); [lia|].
  by rewrite take_app_length, drop_app_length.
Qed.

Lemma read_bytes_inv n d l rest :
  read_bytes n d = Some (l, rest) -> d = l ++ rest /\ length l = n.
Proof.
  unfold read_bytes. destruct (Nat.ltb_spec (length d) n); [done|]. intros [= <- <-].
  rewrite take_drop, length_take. split; [done|lia].
Qed.

Lemma read_le_app n v rest :
  fits (8 * Z.of_nat n) v -> read_le n (put_le n v ++ rest) = Some (v, rest).
Proof.
  intros Hv. unfold read_le, rbind. rewrite read_bytes_app by apply length_put_le.
  unfold rret. by rewrite get_put_le.
Qed.

Lemma read_le_inv n d v rest :
  is_bytes d -> read_le n d = Some (v, rest) ->
  d = put_le n v ++ rest /\ fits (8 * Z.of_nat n) v /\ is_bytes rest.
Proof.
  intros Hd. unfold read_le, rbind, rret.
  destruct (read_bytes n d) as [[l r]|] eqn:E; [|done]. intros [= <- <-].
  apply read_bytes_inv in E as [-> <-]. apply is_bytes_app in Hd as [Hl Hr].
  rewrite put_get_le by done. auto using get_le_fits.
Qed.

Lemma read_list_app {A} (r : reader A) (ser : A -> bytes) xs rest :
  Forall (fun x => forall tl, r (ser x ++ tl) = Some (x, tl)) xs ->
  read_list (length xs) r (concat (map ser xs) ++ rest) = Some (xs, rest).
Proof.
  induction 1 as [|x xs Hx Hxs IH]; [done|].
  cbn [read_list length map concat]. unfold rbind. rewrite <- app_assoc, Hx, IH. done.
Qed.

(** Every element read satisfies what the element reader guarantees, and what
    is left of the buffer is still a byte string. *)
Lemma read_list_inv {A} (r : reader A) (P : A -> Prop) n d xs rest :
  (forall d a rest, is_bytes d -> r d = Some (a, rest) -> P a /\ is_bytes rest) ->
  is_bytes d -> read_list n r d = Some (xs, rest) ->
  length xs = n /\ Forall P xs /\ is_bytes rest.
Proof.
  intros Hr. revert d xs rest. induction n as [|n IH]; intros d xs rest Hd; cbn [read_list].
  { intros [= <- <-]. auto. }
  unfold rbind, rret. destruct (r d) as [[a d1]|] eqn:E1; [|done].
  destruct (read_list n r d1) as [[l d2]|] eqn:E2; [|done]. intros [= <- <-].
  destruct (Hr _ _ _ Hd E1) as [Ha Hd1]. destruct (IH _ _ _ Hd1 E2) as (<- & Hl & Hd2). auto.
Qed.

Lemma read_bytes_split n d l rest :
  is_bytes d -> read_bytes n d = Some (l, rest) ->
  d = l ++ rest /\ length l = n /\ is_bytes l /\ is_bytes rest.
Proof.
  intros Hd E. apply read_bytes_inv in E as [-> Hl]. apply is_bytes_app in Hd as [? ?]. auto.
Qed.

Lemma read_chunks_inv n k d xs rest :
  read_list n (read_bytes k) d = Some (xs, rest) ->
  d = concat xs ++ rest /\ length xs = n /\ Forall (fun x => length x = k) xs.
Proof.
  revert d xs rest. induction n as [|n IH]; intros d xs rest; cbn [read_list].
  { intros [= <- <-]. auto. }
  unfold rbind, rret. destruct (read_bytes k d) as [[x d1]|] eqn:E1; [|done].
  destruct (read_list n (read_bytes k) d1) as [[l d2]|] eqn:E2; [|done]. intros [= <- <-].
  apply read_bytes_inv in E1 as [-> H1]. apply IH in E2 as (-> & H2 & H3).
  cbn [concat length]. rewrite <- app_assoc. auto.
Qed.

Lemma read_chunks_app k xs rest :
  Forall (fun x => length x = k) xs ->
  read_list (length xs) (read_bytes k) (concat xs ++ rest) = Some (xs, rest).
Proof.
  intros H. rewrite <- (map_id xs) at 2. apply read_list_app.
  eapply Forall_impl; [exact H|]. intros x Hx tl. by apply read_bytes_app.
Qed.

(** Undo a reader step by step, keeping what each step consumed. *)
Ltac inv_reader H :=
  repeat match type of H with
  | context [match read_bytes ?n ?d with _ => _ end] =>
      let E := fresh "E" in destruct (read_bytes n d) as [[? ?]|] eqn:E; [|discriminate H];
      apply read_bytes_split in E as (-> & ? & ? & ?); [|assumption]
  | context [match read_le ?n ?d with _ => _ end] =>
      let E := fresh "E" in destruct (read_le n d) as [[? ?]|] eqn:E; [|discriminate H];
      apply read_le_inv in E as (-> & ? & ?); [|assumption]
  | context [match read_list ?n (read_bytes ?k) ?d with _ => _ end] =>
      let E := fresh "E" in destruct (read_list n (read_bytes k) d) as [[? ?]|] eqn:E; [|discriminate H];
      apply read_chunks_inv in E as (-> & ? & ?)
  | context [(if ?b then _ else rfail) _] => destruct b eqn:?; [|discriminate H]
  end.

(** Readers only consume. *)
Lemma read_bytes_len n d l rest :
  read_bytes n d = Some (l, rest) -> (length rest + n = length d)%nat.
Proof. intros E. apply read_bytes_inv in E as [-> <-]. rewrite length_app. lia. Qed.

Lemma read_le_len n d v rest : read_le n d = Some (v, rest) -> (length rest + n = length d)%nat.
Proof.
  unfold read_le, rbind, rret. destruct (read_bytes n d) as [[l r]|] eqn:E; [|done].
  intros [= _ <-]. by apply read_bytes_len in E.
Qed.

Lemma read_list_len {A} (r : reader A) n d xs rest :
  (forall d a rest, r d = Some (a, rest) -> (length rest <= length d)%nat) ->
  read_list n r d = Some (xs, rest) -> (length rest <= length d)%nat.
Proof.
  intros Hr. revert d xs rest. induction n as [|n IH]; intros d xs rest; cbn [read_list].
  { intros [= _ <-]. lia. }
  unfold rbind, rret. destruct (r d) as [[a d1]|] eqn:E1; [|done].
  destruct (read_list n r d1) as [[l d2]|] eqn:E2; [|done]. intros [= _ <-].
  apply Hr in E1. apply IH in E2. lia.
Qed.

Lemma size_app {A} (a b : list A) : size (a ++ b) = size a + size b.
Proof. unfold size. rewrite length_app. lia. Qed.

Lemma size_put_le n v : size (put_le n v) = Z.of_nat n.
Proof. unfold size. by rewrite length_put_le. Qed.

(** ** Lemmas: hexadecimal text *)

Lemma nibble_HEX k : (k < 16)%nat -> nibble (nth k HEX 0) = Z.of_nat k.
Proof. intros H. do 16 (destruct k as [|k]; [reflexivity|]). lia. Qed.

Lemma hex_pairs_BytesToHex l : is_bytes l -> hex_pairs (BytesToHex l) = Some l.
Proof.
  induction 1 as [|x l Hx Hl IH]; [done|]. cbn [BytesToHex hex_pairs]. unfold fits in Hx.
  assert (Hn : forall z, 0 <= Z.land z 0xF < 16).
  { intros z. change 0xF with (Z.ones 4). rewrite Z.land_ones by lia.
    change (2 ^ 4) with 16. apply Z.mod_pos_bound. lia. }
  pose proof (Hn x) as Hlo. pose proof (Hn (Z.shiftr x 4)) as Hhi.
  rewrite !nibble_HEX by lia. rewrite !Z2Nat.id by lia. rewrite IH.
  destruct (Z.ltb_spec (Z.land (Z.shiftr x 4) 15) 0); [lia|].
  destruct (Z.ltb_spec (Z.land x 15) 0); [lia|]. cbn [orb]. do 2 f_equal.
  replace (Z.lor _ _) with x; [by apply wrap_id|].
  apply Z.bits_inj'. intros i Hi.
  change 15 with (Z.ones 4). rewrite Z.lor_spec, Z.shiftl_spec by lia.
  destruct (decide (i < 4)).
  - rewrite (Z.testbit_neg_r _ (i - 4)) by lia.
    rewrite Z.land_spec, Z.ones_spec_low by lia. by rewrite andb_true_r.
  - rewrite !Z.land_spec, Z.shiftr_spec by lia. replace (i - 4 + 4) with i by lia.
    rewrite (Z.ones_spec_high 4 i) by lia. rewrite andb_false_r, orb_false_r.
    destruct (decide (i < 8)).
    + rewrite Z.ones_spec_low by lia. by rewrite andb_true_r.
    + rewrite Z.ones_spec_high by lia. rewrite andb_false_r.
      rewrite <- (wrap_id 8 x) by done. apply Z.mod_pow2_bits_high. lia.
Qed.

Lemma length_BytesToHex l : length (BytesToHex l) = (2 * length l)%nat.
Proof. induction l as [|x l IH]; [done|]. cbn [BytesToHex length]. lia. Qed.

Lemma HexToBytes_BytesToHex l : is_bytes l -> HexToBytes (BytesToHex l) = l.
Proof.
  intros Hl. unfold HexToBytes, size. rewrite length_BytesToHex, hex_pairs_BytesToHex by done.
  replace (Z.of_nat (2 * length l)) with (Z.of_nat (length l) * 2) by lia.
  by rewrite Z.mod_mul by lia.
Qed.

Lemma BytesToHex_inj a b : is_bytes a -> is_bytes b -> BytesToHex a = BytesToHex b -> a = b.
Proof.
  intros Ha Hb E. by rewrite <- (HexToBytes_BytesToHex a), <- (HexToBytes_BytesToHex b), E.
Qed.

(** ** Lemmas: the byte order *)

Lemma lex_lt_irrefl a : lex_lt a a = false.
Proof. induction a as [|x a IH]; [done|]. cbn [lex_lt]. by rewrite Z.ltb_irrefl. Qed.

Lemma lex_lt_trans a b c : lex_lt a b = true -> lex_lt b c = true -> lex_lt a c = true.
Proof.
  revert b c. induction a as [|x a IH]; intros [|y b] [|z c]; cbn [lex_lt]; try done.
  destruct (Z.ltb_spec x y), (Z.ltb_spec y x), (Z.ltb_spec y z), (Z.ltb_spec z y),
    (Z.ltb_spec x z), (Z.ltb_spec z x); try done; try lia. apply IH.
Qed.

Lemma lex_lt_total a b : lex_lt a b = false -> lex_lt b a = false -> a = b.
Proof.
  revert b. induction a as [|x a IH]; intros [|y b]; cbn [lex_lt]; try done.
  destruct (Z.ltb_spec x y), (Z.ltb_spec y x); try done. intros H1 H2.
  f_equal; [lia|]. by apply IH.
Qed.

Lemma lex_lt_asym a b : lex_lt a b = true -> lex_lt b a = false.
Proof.
  intros H. destruct (lex_lt b a) eqn:E; [|done].
  pose proof (lex_lt_trans a b a H E) as Haa. by rewrite lex_lt_irrefl in Haa.
Qed.

(** ** Lemmas: decimal text *)

Lemma dec_val_app a b :
  dec_val (a ++ b) = dec_val a * 10 ^ size b + dec_val b.
Proof.
  unfold dec_val, size. rewrite foldl_app. generalize (foldl (fun a c => a * 10 + (c - 48)) 0 a).
  induction b as [|c b IH] using rev_ind; intros x; [cbn; lia|].
  rewrite !foldl_app, length_app. cbn [foldl length]. rewrite IH.
  replace (Z.of_nat (length b + 1)) with (Z.succ (Z.of_nat (length b))) by lia.
  rewrite Z.pow_succ_r by lia. lia.
Qed.

Lemma dec_loop_app fuel v acc : dec_loop fuel v acc = dec_loop fuel v [] ++ acc.
Proof.
  revert v acc. induction fuel as [|fuel IH]; intros v acc; [done|]. cbn [dec_loop].
  destruct (v <? 10); [done|]. rewrite IH. rewrite (IH _ [_]). by rewrite <- app_assoc.
Qed.

Lemma dec_val_loop fuel v :
  0 <= v < 10 ^ Z.of_nat fuel -> dec_val (dec_loop fuel v []) = v.
Proof.
  revert v. induction fuel as [|fuel IH]; intros v Hv; [cbn in *; lia|]. cbn [dec_loop].
  pose proof (Z.div_mod v 10). pose proof (Z.mod_pos_bound v 10).
  destruct (Z.ltb_spec v 10).
  - unfold dec_val. cbn [foldl]. rewrite Z.mod_small by lia. lia.
  - rewrite dec_loop_app, dec_val_app. rewrite IH.
    + unfold dec_val, size. cbn [foldl length]. change (10 ^ Z.of_nat 1) with 10. lia.
    + rewrite Nat2Z.inj_succ, Z.pow_succ_r in Hv by lia.
      split; [apply Z.div_pos; lia|]. apply Z.div_lt_upper_bound; lia.
Qed.

Lemma dec_val_to_string v : fits 64 v -> dec_val (to_string v) = v.
Proof. unfold fits. intros Hv. apply dec_val_loop. change (Z.of_nat 20) with 20. lia. Qed.

Lemma to_string_inj v w : fits 64 v -> fits 64 w -> to_string v = to_string w -> v = w.
Proof. intros Hv Hw E. by rewrite <- (dec_val_to_string v), <- (dec_val_to_string w), E. Qed.

(** A digit string: nonempty, decimal digits only, no leading zero unless it is [0]. *)
Definition is_digit (c : Z) : Prop := 48 <= c <= 57.

Lemma dec_val_nonneg l : Forall is_digit l -> 0 <= dec_val l.
Proof.
  induction l as [|c l IH] using rev_ind; intros H; [unfold dec_val; cbn; lia|].
  apply Forall_app in H as [Hl Hc]. apply Forall_cons in Hc as [Hc _]. specialize (IH Hl).
  rewrite dec_val_app. unfold dec_val at 2. cbn [foldl]. unfold is_digit in Hc.
  change (10 ^ size [c]) with 10. lia.
Qed.

Lemma dec_loop_digits fuel v : 0 <= v -> Forall is_digit (dec_loop fuel v []).
Proof.
  revert v. induction fuel as [|fuel IH]; intros v Hv; [constructor|]. cbn [dec_loop].
  assert (Hd : is_digit (48 + v mod 10))
    by (unfold is_digit; pose proof (Z.mod_pos_bound v 10); lia).
  destruct (v <? 10); [by constructor|]. rewrite dec_loop_app. apply Forall_app.
  split; [apply IH, Z.div_pos; lia | by constructor].
Qed.

Lemma to_string_digits v : 0 <= v -> Forall is_digit (to_string v).
Proof. apply dec_loop_digits. Qed.

Lemma dec_loop_head fuel v : (1 <= fuel)%nat -> 0 < v < 10 ^ Z.of_nat fuel ->
  exists c l, dec_loop fuel v [] = c :: l /\ c <> 48.
Proof.
  revert v. induction fuel as [|fuel IH]; intros v Hf Hv; [lia|]. cbn [dec_loop].
  destruct (Z.ltb_spec v 10).
  - exists (48 + v mod 10), []. split; [done|]. rewrite Z.mod_small by lia. lia.
  - rewrite Nat2Z.inj_succ, Z.pow_succ_r in Hv by lia.
    destruct (IH (v / 10)) as (c & l & E & Hc).
    + destruct fuel; [cbn in Hv; lia|lia].
    + split; [apply Z.div_str_pos; lia|]. apply Z.div_lt_upper_bound; lia.
    + exists c, (l ++ [48 + v mod 10]). by rewrite dec_loop_app, E.
Qed.

Lemma length_dec_loop fuel v : (length (dec_loop fuel v []) <= fuel)%nat.
Proof.
  revert v. induction fuel as [|fuel IH]; intros v; [done|]. cbn [dec_loop].
  destruct (v <? 10); [cbn; lia|]. rewrite dec_loop_app, length_app. cbn [length].
  specialize (IH (v / 10)). lia.
Qed.
