(* ===== verification/Positional.v ===== *)
(** * Positional notation

    Digit lists of any base: values, bounds, and the uniqueness of minimal
    digits.  Shared by the Base58 codec and the decimal parser. *)
From S2P Require Import Prelude Bytes.

(** Value of little-endian digits of base [b]. *)
Definition nval (b : Z) (ds : list Z) : Z := foldr (fun d acc => d + b * acc) 0 ds.

Definition digits_ok (b : Z) (ds : list Z) : Prop := Forall (fun d => 0 <= d < b) ds.

(** Minimal form: zero is [[0]], anything else has a nonzero last digit. *)
Definition minimal (ds : list Z) : Prop := ds = [0] \/ exists l x, ds = l ++ [x] /\ x <> 0.

Lemma nval_cons b d ds : nval b (d :: ds) = d + b * nval b ds.
Proof. done. Qed.

Lemma nval_app b a c : nval b (a ++ c) = nval b a + b ^ size a * nval b c.
Proof.
  unfold size. induction a as [|x a IH].
  { cbn [app length]. change (nval b []) with 0. change (Z.of_nat 0) with 0. rewrite Z.pow_0_r. lia. }
  cbn [app length]. rewrite !nval_cons, IH, Nat2Z.inj_succ, Z.pow_succ_r by lia. ring.
Qed.

Lemma nval_bound b ds : 0 < b -> digits_ok b ds -> 0 <= nval b ds < b ^ size ds.
Proof.
  intros Hb. unfold size. induction 1 as [|d ds Hd Hds IH]; [cbn; lia|].
  cbn [length]. rewrite nval_cons, Nat2Z.inj_succ, Z.pow_succ_r by lia. nia.
Qed.

Lemma nval_inj b x y :
  1 < b -> digits_ok b x -> digits_ok b y -> length x = length y -> nval b x = nval b y -> x = y.
Proof.
  intros Hb Hx. revert y. induction Hx as [|d x Hd Hx IH]; intros [|e y] Hy Hl E; try done.
  apply Forall_cons in Hy as [He Hy]. injection Hl as Hl. rewrite !nval_cons in E.
  assert (d = e) as ->.
  { rewrite <- (Z.mod_small d b), <- (Z.mod_small e b) by done.
    rewrite <- (Z.mod_add d (nval b x) b), <- (Z.mod_add e (nval b y) b) by lia. f_equal. lia. }
  f_equal. apply IH; [done..|]. nia.
Qed.

Lemma minimal_low b l x :
  1 < b -> digits_ok b (l ++ [x]) -> x <> 0 -> b ^ size l <= nval b (l ++ [x]) < b ^ (size l + 1).
Proof.
  intros Hb Hd Hx. pose proof (nval_bound b (l ++ [x]) ltac:(lia) Hd) as Hu.
  unfold size in Hu at 1. rewrite length_app in Hu. cbn [length] in Hu.
  replace (Z.of_nat (length l + 1)) with (size l + 1) in Hu by (unfold size; lia).
  split; [|lia]. apply Forall_app in Hd as [Hl Hx1]. apply Forall_cons in Hx1 as [Hx1 _].
  rewrite nval_app. pose proof (nval_bound b l ltac:(lia) Hl).
  cbn [nval foldr]. pose proof (Z.pow_pos_nonneg b (size l) ltac:(lia) ltac:(unfold size; lia)). nia.
Qed.

(** Minimal digits are determined by their value. *)
Lemma minimal_inj b x y :
  1 < b -> digits_ok b x -> digits_ok b y -> minimal x -> minimal y -> nval b x = nval b y -> x = y.
Proof.
  intros Hb Hx Hy Mx My E.
  assert (Hz : forall l z, digits_ok b (l ++ [z]) -> z <> 0 -> nval b (l ++ [z]) <> 0).
  { intros l z Hd Hne. pose proof (minimal_low b l z Hb Hd Hne).
    pose proof (Z.pow_pos_nonneg b (size l) ltac:(lia) ltac:(unfold size; lia)). lia. }
  destruct Mx as [->|(l & a & -> & Ha)], My as [->|(m & c & -> & Hc)]; [done| | |].
  - exfalso. apply (Hz m c); [done..|]. rewrite <- E. cbn. lia.
  - exfalso. apply (Hz l a); [done..|]. rewrite E. cbn. lia.
  - apply (nval_inj b); try done. rewrite !length_app. f_equal.
    pose proof (minimal_low b l a Hb Hx Ha) as [L1 U1]. pose proof (minimal_low b m c Hb Hy Hc) as [L2 U2].
    rewrite E in *. enough (size l = size m) by (unfold size in *; lia).
    assert (0 <= size l /\ 0 <= size m) by (unfold size; lia).
    destruct (Z.lt_trichotomy (size l) (size m)) as [Hlt|[?|Hlt]]; [|done|]; exfalso.
    + pose proof (Z.pow_le_mono_r b (size l + 1) (size m) ltac:(lia) ltac:(lia)). lia.
    + pose proof (Z.pow_le_mono_r b (size m + 1) (size l) ltac:(lia) ltac:(lia)). lia.
Qed.

(** Digits whose value needs all of them end in a nonzero one. *)
Lemma minimal_of_value b ds :
  1 < b -> digits_ok b ds -> ds <> [] -> b ^ (size ds - 1) <= nval b ds -> minimal ds.
Proof.
  intros Hb Hd Hne Hv. destruct (exists_last Hne) as (l & x & ->). right. exists l, x.
  split; [done|]. intros ->. apply Forall_app in Hd as [Hl _].
  rewrite nval_app in Hv. cbn [nval foldr] in Hv. pose proof (nval_bound b l ltac:(lia) Hl).
  unfold size in *. rewrite length_app in Hv. cbn [length] in Hv.
  replace (Z.of_nat (length l + 1) - 1) with (Z.of_nat (length l)) in Hv by lia. lia.
Qed.

(** Value of big-endian digits. *)
Definition horner (m : Z) (l : list Z) : Z := foldl (fun a d => m * a + d) 0 l.

Lemma horner_rev m l : horner m l = nval m (rev l).
Proof.
  unfold horner. induction l as [|d l IH] using rev_ind; [done|].
  rewrite foldl_app, rev_app_distr. cbn [foldl rev app nval foldr]. fold (nval m (rev l)). lia.
Qed.

Lemma rev_minimal c l : c <> 0 -> minimal (rev (c :: l)).
Proof. intros Hc. right. exists (rev l), c. done. Qed.

