(* ===== verification/Sha256.v ===== *)
(** * SHA-256

    The streaming [Sha256] class of [crypto/vendored.h] (state, bit counter,
    64-byte buffer), the [SHA256] wrapper and [Hash256d] of [core/hash.h], and
    their equivalence with the one-shot padded definition of the standard. *)
From S2P Require Import Prelude Bytes.

Definition vc_rotr32 (x n : Z) : Z := Z.lor (Z.shiftr x n) (low32 (Z.shiftl x (32 - n))).

(** ** The class *)

Module Sha256.

(** [buf_] holds the live prefix of the 64-byte buffer: [buflen_] is its length. *)
Record t := mk { state_ : list Z; bitlen_ : Z; buf_ : bytes }.

Definition IV : list Z :=
  [0x6a09e667; 0xbb67ae85; 0x3c6ef372; 0xa54ff53a; 0x510e527f; 0x9b05688c; 0x1f83d9ab; 0x5be0cd19].

Definition reset : t := mk IV 0 [].

Definition K_ : list Z :=
  [0x428a2f98; 0x71374491; 0xb5c0fbcf; 0xe9b5dba5; 0x3956c25b; 0x59f111f1; 0x923f82a4; 0xab1c5ed5]
  ++ [0xd807aa98; 0x12835b01; 0x243185be; 0x550c7dc3; 0x72be5d74; 0x80deb1fe; 0x9bdc06a7; 0xc19bf174]
  ++ [0xe49b69c1; 0xefbe4786; 0x0fc19dc6; 0x240ca1cc; 0x2de92c6f; 0x4a7484aa; 0x5cb0a9dc; 0x76f988da]
  ++ [0x983e5152; 0xa831c66d; 0xb00327c8; 0xbf597fc7; 0xc6e00bf3; 0xd5a79147; 0x06ca6351; 0x14292967]
  ++ [0x27b70a85; 0x2e1b2138; 0x4d2c6dfc; 0x53380d13; 0x650a7354; 0x766a0abb; 0x81c2c92e; 0x92722c85]
  ++ [0xa2bfe8a1; 0xa81a664b; 0xc24b8b70; 0xc76c51a3; 0xd192e819; 0xd6990624; 0xf40e3585; 0x106aa070]
  ++ [0x19a4c116; 0x1e376c08; 0x2748774c; 0x34b0bcb5; 0x391c0cb3; 0x4ed8aa4a; 0x5b9cca4f; 0x682e6ff3]
  ++ [0x748f82ee; 0x78a5636f; 0x84c87814; 0x8cc70208; 0x90befffa; 0xa4506ceb; 0xbef9a3f7; 0xc67178f2].

Definition Ch_ (x y z : Z) : Z := Z.lxor (Z.land x y) (Z.land (low32 (Z.lnot x)) z).
Definition Maj_ (x y z : Z) : Z := Z.lxor (Z.lxor (Z.land x y) (Z.land x z)) (Z.land y z).
Definition BigS0_ (x : Z) : Z := Z.lxor (Z.lxor (vc_rotr32 x 2) (vc_rotr32 x 13)) (vc_rotr32 x 22).
Definition BigS1_ (x : Z) : Z := Z.lxor (Z.lxor (vc_rotr32 x 6) (vc_rotr32 x 11)) (vc_rotr32 x 25).
Definition SmS0_ (x : Z) : Z := Z.lxor (Z.lxor (vc_rotr32 x 7) (vc_rotr32 x 18)) (Z.shiftr x 3).
Definition SmS1_ (x : Z) : Z := Z.lxor (Z.lxor (vc_rotr32 x 17) (vc_rotr32 x 19)) (Z.shiftr x 10).

(** [for i < 16: W[i] = vc_load32_be(block + i * 4)] *)
Definition load_words (block : bytes) : list Z :=
  map (fun i => get_be (take 4 (drop (i * 4) block))) (seq 0 16).

(** [for 16 <= i < 64: W[i] = ...]: [n] more words after the first [length W]. *)
Fixpoint extend (n : nat) (W : list Z) : list Z :=
  match n with
  | O => W
  | S n' =>
      let i := length W in
      extend n' (W ++ [low32 (SmS1_ (nth (i - 2) W 0) + nth (i - 7) W 0
                            + SmS0_ (nth (i - 15) W 0) + nth (i - 16) W 0)])
  end.

(** One round on the eight working variables. *)
Definition round (v : list Z) (kw : Z * Z) : list Z :=
  match v with
  | [a; b; c; d; e; f; g; h] =>
      let T1 := low32 (h + BigS1_ e + Ch_ e f g + fst kw + snd kw) in
      let T2 := low32 (BigS0_ a + Maj_ a b c) in
      [low32 (T1 + T2); a; b; c; low32 (d + T1); e; f; g]
  | _ => v
  end.

Definition transform_ (st : list Z) (block : bytes) : list Z :=
  let W := extend 48 (load_words block) in
  zip_with (fun x y => low32 (x + y)) st (foldl round st (zip K_ W)).

(** The [while (len > 0)] loop; each turn consumes at least one byte, so
    [length data] turns are enough. *)
Fixpoint update_loop (fuel : nat) (s : t) (data : bytes) : t :=
  match fuel, data with
  | O, _ | _, [] => s
  | S fuel', _ =>
      let tk := Nat.min (64 - length (buf_ s)) (length data) in
      let buf := buf_ s ++ take tk data in
      let s' := if (length buf =? 64)%nat
                then mk (transform_ (state_ s) buf) (u64 (bitlen_ s + 512)) []
                else mk (state_ s) (bitlen_ s) buf in
      update_loop fuel' s' (drop tk data)
  end.

Definition update (s : t) (data : bytes) : t := update_loop (length data) s data.

(** The digest, and the object after its final [reset()]. *)
Definition finalize (s : t) : bytes * t :=
  let bitlen := u64 (bitlen_ s + size (buf_ s) * 8) in
  let buf := buf_ s ++ [0x80] in
  let '(st, buf) := if (56 <? length buf)%nat
                    then (transform_ (state_ s) (buf ++ replicate (64 - length buf) 0), [])
                    else (state_ s, buf) in
  let st := transform_ st (buf ++ replicate (56 - length buf) 0 ++ put_be 8 bitlen) in
  (concat (map (put_be 4) st), reset).

End Sha256.

(** [sha256(data, len, out)]; [SHA256::digest] after one [update]. *)
Definition sha256 (data : bytes) : Hash256 := fst (Sha256.finalize (Sha256.update Sha256.reset data)).

Definition Hash256d (data : bytes) : Hash256 := sha256 (sha256 data).

(** ** The standard's one-shot definition *)

Fixpoint hash_blocks (n : nat) (st : list Z) (msg : bytes) : list Z :=
  match n with
  | O => st
  | S n' => hash_blocks n' (Sha256.transform_ st (take 64 msg)) (drop 64 msg)
  end.

(** The message, a one bit, the least number of zero bits, the bit length. *)
Definition pad (msg : bytes) : bytes :=
  msg ++ [0x80] ++ replicate (Z.to_nat ((55 - size msg) mod 64)) 0
      ++ put_be 8 (u64 (8 * size msg)).

Definition sha256_ref (msg : bytes) : Hash256 :=
  concat (map (put_be 4) (hash_blocks (length (pad msg) / 64) Sha256.IV (pad msg))).

Lemma hash_blocks_app n m st a b :
  length a = (64 * n)%nat -> hash_blocks (n + m) st (a ++ b) = hash_blocks m (hash_blocks n st a) b.
Proof.
  revert st a. induction n as [|n IH]; intros st a Ha.
  { destruct a; [done|cbn in Ha; lia]. }
  cbn [hash_blocks Nat.add]. rewrite take_app_le, drop_app_le by lia.
  rewrite IH; [done|]. rewrite length_drop. lia.
Qed.

Lemma hash_blocks_one st a : length a = 64%nat -> hash_blocks 1 st a = Sha256.transform_ st a.
Proof. intros Ha. cbn [hash_blocks]. by rewrite take_ge by lia. Qed.

(** [absorbed s msg]: the object has consumed exactly [msg]. *)
Definition absorbed (s : Sha256.t) (msg : bytes) : Prop :=
  exists full n, msg = full ++ Sha256.buf_ s /\ length full = (64 * n)%nat
    /\ Sha256.state_ s = hash_blocks n Sha256.IV full
    /\ Sha256.bitlen_ s = u64 (512 * Z.of_nat n) /\ (length (Sha256.buf_ s) < 64)%nat.

Lemma absorbed_reset : absorbed Sha256.reset [].
Proof. exists [], 0%nat. repeat split; cbn; lia. Qed.

Lemma update_loop_absorbed fuel s msg data :
  (length data <= fuel)%nat -> absorbed s msg ->
  absorbed (Sha256.update_loop fuel s data) (msg ++ data).
Proof.
  revert s msg data. induction fuel as [|fuel IH]; intros s msg data Hf Hs.
  { destruct data; [|cbn in Hf; lia]. by rewrite app_nil_r. }
  destruct data as [|b data']; [by rewrite app_nil_r|]. cbn [Sha256.update_loop].
  set (data := b :: data') in *.
  set (tk := Nat.min (64 - length (Sha256.buf_ s)) (length data)).
  assert (Hd : (1 <= length data)%nat) by (cbn; lia).
  replace (msg ++ data) with ((msg ++ take tk data) ++ drop tk data)
    by (by rewrite <- app_assoc, take_drop).
  destruct Hs as (full & n & -> & Hfull & Hst & Hbit & Hbuf).
  apply IH; [rewrite length_drop; lia|].
  destruct (Nat.eqb_spec (length (Sha256.buf_ s ++ take tk data)) 64) as [E|E].
  - exists ((full ++ Sha256.buf_ s) ++ take tk data), (n + 1)%nat.
    cbn [Sha256.buf_ Sha256.state_ Sha256.bitlen_]. rewrite app_nil_r. repeat split.
    + rewrite <- app_assoc, length_app, E. lia.
    + rewrite <- app_assoc, hash_blocks_app by done. by rewrite hash_blocks_one, Hst.
    + rewrite Hbit. unfold wrap. rewrite Zplus_mod_idemp_l. f_equal. lia.
    + cbn. lia.
  - exists full, n. cbn [Sha256.buf_ Sha256.state_ Sha256.bitlen_].
    rewrite <- app_assoc. repeat split; try done.
    rewrite length_app, length_take in E |- *. lia.
Qed.

Lemma update_absorbed s msg data : absorbed s msg -> absorbed (Sha256.update s data) (msg ++ data).
Proof. apply update_loop_absorbed. lia. Qed.

Lemma length_put_be n v : length (put_be n v) = n.
Proof. unfold put_be. by rewrite length_rev, length_put_le. Qed.

Lemma finalize_absorbed s msg :
  absorbed s msg -> Sha256.finalize s = (sha256_ref msg, Sha256.reset).
Proof.
  intros (full & n & -> & Hfull & Hst & Hbit & Hbuf). unfold Sha256.finalize, sha256_ref.
  set (buf := Sha256.buf_ s) in *.
  assert (Hsz : size (full ++ buf) = 64 * Z.of_nat n + size buf)
    by (unfold size; rewrite length_app; lia).
  replace (u64 (Sha256.bitlen_ s + size buf * 8)) with (u64 (8 * size (full ++ buf)))
    by (rewrite Hbit, Hsz; unfold wrap; rewrite Zplus_mod_idemp_l; f_equal; lia).
  unfold pad. set (bl := put_be 8 _). assert (Hbl : length bl = 8%nat) by apply length_put_be.
  rewrite !length_app. rewrite length_replicate, Hbl, Hsz. change (length [0x80]) with 1%nat.
  assert (Hmod : Z.of_nat (Z.to_nat ((55 - (64 * Z.of_nat n + size buf)) mod 64))
          = if (56 <? length buf + 1)%nat then 119 - size buf else 55 - size buf).
  { rewrite Z2Nat.id by (apply Z.mod_pos_bound; lia). unfold size.
    symmetry. destruct (Nat.ltb_spec 56 (length buf + 1)).
    - apply (Z.mod_unique_pos _ _ (- Z.of_nat n - 1)); lia.
    - apply (Z.mod_unique_pos _ _ (- Z.of_nat n)); lia. }
  set (k := Z.to_nat _) in *. rewrite <- (app_assoc full buf). unfold size in *.
  destruct (Nat.ltb_spec 56 (length buf + 1)) as [Hlt|Hge].
  - replace (length full + length buf + (1 + (k + 8)))%nat with ((n + 2) * 64)%nat by lia.
    rewrite Nat.div_mul by lia. rewrite hash_blocks_app by done. rewrite <- Hst.
    set (b1 := (buf ++ [0x80]) ++ replicate (64 - (length buf + 1)) 0).
    replace (buf ++ [0x80] ++ replicate k 0 ++ bl) with (b1 ++ replicate 56 0 ++ bl).
    2:{ unfold b1. replace k with ((64 - (length buf + 1)) + 56)%nat by lia.
        by rewrite replicate_add, <- !app_assoc. }
    assert (Hb1 : length b1 = 64%nat)
      by (unfold b1; rewrite !length_app, length_replicate; cbn [length]; lia).
    change 2%nat with (1 + 1)%nat. rewrite hash_blocks_app by lia.
    by rewrite !hash_blocks_one by (rewrite ?length_app, ?length_replicate, ?Hbl; lia).
  - replace (length full + length buf + (1 + (k + 8)))%nat with ((n + 1) * 64)%nat by lia.
    rewrite Nat.div_mul by lia. rewrite hash_blocks_app by done. rewrite <- Hst.
    rewrite hash_blocks_one by (rewrite ?length_app, ?length_replicate, ?Hbl; cbn [length]; lia).
    rewrite length_app. change (length [0x80]) with 1%nat.
    replace (56 - (length buf + 1))%nat with k by lia. by rewrite <- (app_assoc buf).
Qed.

(** ** Shape of the digest *)

Lemma length_round v kw : length v = 8%nat -> length (Sha256.round v kw) = 8%nat.
Proof.
  intros H. destruct v as [|? [|? [|? [|? [|? [|? [|? [|? [|? ?]]]]]]]]]; cbn [length] in H; try lia.
  reflexivity.
Qed.

Lemma length_transform st b : length st = 8%nat -> length (Sha256.transform_ st b) = 8%nat.
Proof.
  intros H. unfold Sha256.transform_. rewrite length_zip_with.
  assert (Hf : forall l v, length v = 8%nat -> length (foldl Sha256.round v l) = 8%nat).
  { induction l as [|kw l IH]; intros v Hv; [done|]. apply IH, length_round, Hv. }
  rewrite Hf by done. lia.
Qed.

Lemma length_hash_blocks n st msg : length st = 8%nat -> length (hash_blocks n st msg) = 8%nat.
Proof. revert st msg. induction n; intros; [done|]. cbn [hash_blocks]. auto using length_transform. Qed.

Lemma concat_put_be_hash st : length st = 8%nat -> is_hash (concat (map (put_be 4) st)).
Proof.
  intros H. split.
  - destruct st as [|? [|? [|? [|? [|? [|? [|? [|? [|? ?]]]]]]]]]; cbn [length] in H; try lia.
    reflexivity.
  - unfold is_bytes. apply Forall_concat, Forall_map, Forall_forall. intros x _.
    unfold put_be. apply Forall_rev, put_le_bytes.
Qed.

Lemma sha256_eq_ref data : sha256 data = sha256_ref data.
Proof.
  unfold sha256. rewrite (finalize_absorbed _ data); [done|].
  apply (update_absorbed Sha256.reset []), absorbed_reset.
Qed.

(** Hashing a concatenation resumes from the object that absorbed the prefix. *)
Lemma sha256_app p d :
  sha256 (p ++ d) = fst (Sha256.finalize (Sha256.update (Sha256.update Sha256.reset p) d)).
Proof.
  rewrite sha256_eq_ref, (finalize_absorbed _ (p ++ d)); [done|].
  apply update_absorbed, (update_absorbed Sha256.reset []), absorbed_reset.
Qed.

Lemma sha256_hash data : is_hash (sha256 data).
Proof. rewrite sha256_eq_ref. apply concat_put_be_hash. by apply length_hash_blocks. Qed.

Lemma Hash256d_hash data : is_hash (Hash256d data).
Proof. apply sha256_hash. Qed.

#[export] Hint Resolve sha256_hash Hash256d_hash : veld.

(** The incremental hasher is SHA-256.  Feeding a message to the object in
    any pieces and finalizing it gives the digest of the padded message by the
    standard's one-shot definition, and leaves the object ready for reuse. *)
Lemma sha256_streaming (pieces : list bytes) :
  Sha256.finalize (foldl Sha256.update Sha256.reset pieces)
  = (sha256_ref (concat pieces), Sha256.reset).
Proof.
  apply finalize_absorbed. rewrite <- (app_nil_l (concat pieces)).
  generalize absorbed_reset. generalize Sha256.reset, (@nil Z).
  induction pieces as [|p ps IH]; intros s msg Hs; cbn [foldl concat].
  - by rewrite app_nil_r.
  - rewrite app_assoc. by apply IH, update_absorbed.
Qed.

(** FIPS 180-4 test vectors, through the streaming object. *)
Example sha256_abc :
  BytesToHex (sha256 (b:"abc"))
  = b:"ba7816bf8f01cfea414140de5dae2223b00361a396177a9cb410ff61f20015ad".
Proof. vm_compute. reflexivity. Qed.

Example sha256_two_blocks :
  BytesToHex (sha256 (b:"abcdbcdecdefdefgefghfghighijhijkijkljklmklmnlmnomnopnopq"))
  = b:"248d6a61d20638b8e5c026930c3e6039a33ce45964ff2167f6ecedd419db06c1".
Proof. vm_compute. reflexivity. Qed.

#[global] Opaque sha256 Hash256d.
