(* ===== verification/Ripemd160.v ===== *)
(** * RIPEMD-160 and the public-key hash ([crypto/ripemd160.h])

    The streaming [RIPEMD160] class (state, bit counter, 64-byte buffer), its
    equivalence with the one-shot padded definition of the standard, and
    [Hash160Compute], the hash an address commits to. *)
From S2P Require Import Prelude Bytes Sha256.

Module ripemd_detail.

Definition rotl (x n : Z) : Z := Z.lor (low32 (Z.shiftl x n)) (Z.shiftr x (32 - n)).

Definition f (x y z : Z) : Z := Z.lxor (Z.lxor x y) z.
Definition g (x y z : Z) : Z := Z.lor (Z.land x y) (Z.land (low32 (Z.lnot x)) z).
Definition h (x y z : Z) : Z := Z.lxor (Z.lor x (low32 (Z.lnot y))) z.
Definition ii (x y z : Z) : Z := Z.lor (Z.land x z) (Z.land y (low32 (Z.lnot z))).
Definition j (x y z : Z) : Z := Z.lxor x (Z.lor y (low32 (Z.lnot z))).

Definition R_L : list Z :=
  [0; 1; 2; 3; 4; 5; 6; 7; 8; 9; 10; 11; 12; 13; 14; 15]
  ++ [7; 4; 13; 1; 10; 6; 15; 3; 12; 0; 9; 5; 2; 14; 11; 8]
  ++ [3; 10; 14; 4; 9; 15; 8; 1; 2; 7; 0; 6; 13; 11; 5; 12]
  ++ [1; 9; 11; 10; 0; 8; 12; 4; 13; 3; 7; 15; 14; 5; 6; 2]
  ++ [4; 0; 5; 9; 7; 12; 2; 10; 14; 1; 3; 8; 11; 6; 15; 13].
Definition R_R : list Z :=
  [5; 14; 7; 0; 9; 2; 11; 4; 13; 6; 15; 8; 1; 10; 3; 12]
  ++ [6; 11; 3; 7; 0; 13; 5; 10; 14; 15; 8; 12; 4; 9; 1; 2]
  ++ [15; 5; 1; 3; 7; 14; 6; 9; 11; 8; 12; 2; 10; 0; 4; 13]
  ++ [8; 6; 4; 1; 3; 11; 15; 0; 5; 12; 2; 13; 9; 7; 10; 14]
  ++ [12; 15; 10; 4; 1; 5; 8; 7; 6; 2; 13; 14; 0; 3; 9; 11].
Definition S_L : list Z :=
  [11; 14; 15; 12; 5; 8; 7; 9; 11; 13; 14; 15; 6; 7; 9; 8]
  ++ [7; 6; 8; 13; 11; 9; 7; 15; 7; 12; 15; 9; 11; 7; 13; 12]
  ++ [11; 13; 6; 7; 14; 9; 13; 15; 14; 8; 13; 6; 5; 12; 7; 5]
  ++ [11; 12; 14; 15; 14; 15; 9; 8; 9; 14; 5; 6; 8; 6; 5; 12]
  ++ [9; 15; 5; 11; 6; 8; 13; 12; 5; 12; 13; 14; 11; 8; 5; 6].
Definition S_R : list Z :=
  [8; 9; 9; 11; 13; 15; 15; 5; 7; 7; 8; 11; 14; 14; 12; 6]
  ++ [9; 13; 15; 7; 12; 8; 9; 11; 7; 7; 12; 7; 6; 15; 13; 11]
  ++ [9; 7; 15; 11; 8; 6; 6; 14; 12; 13; 5; 14; 13; 13; 7; 5]
  ++ [15; 5; 8; 11; 14; 14; 6; 14; 6; 9; 12; 9; 12; 5; 15; 8]
  ++ [8; 5; 12; 9; 12; 5; 14; 6; 8; 13; 6; 5; 15; 13; 11; 11].

Definition K_L : list Z := [0x00000000; 0x5A827999; 0x6ED9EBA1; 0x8F1BBCDC; 0xA953FD4E].
Definition K_R : list Z := [0x50A28BE6; 0x5C4DD124; 0x6D703EF3; 0x7A6D76E9; 0x00000000].

End ripemd_detail.
Import ripemd_detail.

(** ** The class *)

Module RIPEMD160.

(** [buf_] holds the live prefix of the buffer: [buf_pos_] is its length. *)
Record t := mk { state_ : list Z; count_ : Z; buf_ : bytes }.

Definition IV : list Z := [0x67452301; 0xEFCDAB89; 0x98BADCFE; 0x10325476; 0xC3D2E1F0].
Definition Reset : t := mk IV 0 [].

(** The two [switch (round)] statements. *)
Definition left_fn (round : nat) : Z -> Z -> Z -> Z :=
  match round with 0%nat => f | 1%nat => g | 2%nat => h | 3%nat => ii | _ => j end.
Definition right_fn (round : nat) : Z -> Z -> Z -> Z :=
  match round with 0%nat => j | 1%nat => ii | 2%nat => h | 3%nat => g | _ => f end.

(** One step of one line on its five variables. *)
Definition line_step (fn : Z -> Z -> Z -> Z) (x k s : Z) (v : list Z) : list Z :=
  match v with
  | [a; b; c; d; e] => [e; low32 (rotl (low32 (a + fn b c d + x + k)) s + e); b; rotl c 10; d]
  | _ => v
  end.

Definition nth_ (l : list Z) (i : nat) : Z := nth i l 0.

(** The body of the loop over [i], on the message words [X]. *)
Definition round_step (X : list Z) (lr : list Z * list Z) (i : nat) : list Z * list Z :=
  let round := (i / 16)%nat in
  (line_step (left_fn round) (nth_ X (Z.to_nat (nth_ R_L i))) (nth_ K_L round) (nth_ S_L i) (fst lr),
   line_step (right_fn round) (nth_ X (Z.to_nat (nth_ R_R i))) (nth_ K_R round) (nth_ S_R i) (snd lr)).

Definition load_words (buf : bytes) : list Z :=
  map (fun i => get_le (take 4 (drop (i * 4) buf))) (seq 0 16).

Definition Transform (st : list Z) (buf : bytes) : list Z :=
  let '(l, r) := foldl (round_step (load_words buf)) (st, st) (seq 0 80) in
  match st, l, r with
  | [s0; s1; s2; s3; s4], [al; bl; cl; dl; el], [ar; br; cr; dr; er] =>
      [low32 (s1 + cl + dr); low32 (s2 + dl + er); low32 (s3 + el + ar); low32 (s4 + al + br); low32 (s0 + bl + cr)]
  | _, _, _ => st
  end.

Definition update_byte (s : t) (b : Z) : t :=
  let buf := buf_ s ++ [b] in
  if (length buf =? 64)%nat then mk (Transform (state_ s) buf) (count_ s) []
  else mk (state_ s) (count_ s) buf.

Definition Update (s : t) (data : bytes) : t :=
  let s' := foldl update_byte s data in mk (state_ s') (u64 (count_ s' + size data * 8)) (buf_ s').

Definition pad_len (buf_pos : nat) : nat := if (buf_pos <? 56)%nat then 56 - buf_pos else 120 - buf_pos.

Definition Digest (s : t) : bytes * t :=
  let s1 := Update s (take (pad_len (length (buf_ s))) (0x80 :: replicate 63 0)) in
  let s2 := Update s1 (put_le 8 (count_ s)) in
  (concat (map (put_le 4) (state_ s2)), s2).

End RIPEMD160.

Definition ripemd160 (data : bytes) : bytes := fst (RIPEMD160.Digest (RIPEMD160.Update RIPEMD160.Reset data)).

Definition Hash160Compute (data : bytes) : bytes := ripemd160 (sha256 data).

(** ** The standard's one-shot definition *)

Fixpoint rmd_blocks (n : nat) (st : list Z) (msg : bytes) : list Z :=
  match n with
  | O => st
  | S n' => rmd_blocks n' (RIPEMD160.Transform st (take 64 msg)) (drop 64 msg)
  end.

(** The message, a one bit, the least number of zero bits, the bit length. *)
Definition rmd_pad (msg : bytes) : bytes :=
  msg ++ [0x80] ++ replicate (Z.to_nat ((55 - size msg) mod 64)) 0 ++ put_le 8 (u64 (8 * size msg)).

Definition ripemd160_ref (msg : bytes) : bytes :=
  concat (map (put_le 4) (rmd_blocks (length (rmd_pad msg) / 64) RIPEMD160.IV (rmd_pad msg))).

(** ** The object against the standard *)

Lemma rmd_blocks_snoc n st a b :
  length a = (64 * n)%nat -> length b = 64%nat ->
  rmd_blocks (S n) st (a ++ b) = RIPEMD160.Transform (rmd_blocks n st a) b.
Proof.
  revert st a. induction n as [|n IH]; intros st a Ha Hb.
  - destruct a; [|cbn in Ha; lia]. cbn [rmd_blocks app]. by rewrite take_ge by lia.
  - cbn [rmd_blocks]. rewrite take_app_le, drop_app_le by lia. apply (IH _ (drop 64 a)); [|done].
    rewrite length_drop. lia.
Qed.

(** [rmd_absorbed s msg]: the compression state and buffer have consumed [msg]. *)
Definition rmd_absorbed (s : RIPEMD160.t) (msg : bytes) : Prop :=
  exists full n, msg = full ++ RIPEMD160.buf_ s /\ length full = (64 * n)%nat
    /\ RIPEMD160.state_ s = rmd_blocks n RIPEMD160.IV full /\ (length (RIPEMD160.buf_ s) < 64)%nat.

Lemma update_byte_absorbed s msg b : rmd_absorbed s msg -> rmd_absorbed (RIPEMD160.update_byte s b) (msg ++ [b]).
Proof.
  intros (full & n & -> & Hf & Hs & Hb). unfold RIPEMD160.update_byte.
  destruct (Nat.eqb_spec (length (RIPEMD160.buf_ s ++ [b])) 64) as [E|E];
    rewrite length_app in E; cbn [length] in E.
  - exists (full ++ RIPEMD160.buf_ s ++ [b]), (S n). cbn [RIPEMD160.buf_ RIPEMD160.state_ length].
    rewrite app_nil_r, app_assoc, Hs. split; [done|]. rewrite <- app_assoc. split; [|split; [|lia]].
    + rewrite !length_app. cbn [length]. lia.
    + rewrite rmd_blocks_snoc; [done|done|]. rewrite length_app. cbn [length]. lia.
  - exists full, n. cbn [RIPEMD160.buf_ RIPEMD160.state_]. rewrite app_assoc, length_app. cbn [length].
    split_and!; [done..|lia].
Qed.

Lemma Update_absorbed s msg data : rmd_absorbed s msg -> rmd_absorbed (RIPEMD160.Update s data) (msg ++ data).
Proof.
  intros H. unfold RIPEMD160.Update.
  assert (Hl : forall d s0 m, rmd_absorbed s0 m -> rmd_absorbed (foldl RIPEMD160.update_byte s0 d) (m ++ d)).
  { induction d as [|b d IH]; intros s0 m H0; [by rewrite app_nil_r|]. cbn [foldl].
    replace (m ++ b :: d) with ((m ++ [b]) ++ d) by (by rewrite <- app_assoc).
    by apply IH, update_byte_absorbed. }
  destruct (Hl data s msg H) as (full & n & E & H1 & H2 & H3). by exists full, n.
Qed.

Lemma Update_count s data : RIPEMD160.count_ (RIPEMD160.Update s data) = u64 (RIPEMD160.count_ s + size data * 8).
Proof.
  unfold RIPEMD160.Update. cbn [RIPEMD160.count_]. f_equal. f_equal.
  assert (Hc : forall d s0, RIPEMD160.count_ (foldl RIPEMD160.update_byte s0 d) = RIPEMD160.count_ s0).
  { induction d as [|b d IH]; intros s0; [done|]. cbn [foldl]. rewrite IH. unfold RIPEMD160.update_byte.
    by destruct (_ =? _)%nat. }
  apply Hc.
Qed.

(** The padding the class appends is the standard's. *)
Lemma pad_bytes (full buf : bytes) n :
  length full = (64 * n)%nat -> (length buf < 64)%nat ->
  take (RIPEMD160.pad_len (length buf)) (0x80 :: replicate 63 0)
  = [0x80] ++ replicate (Z.to_nat ((55 - size (full ++ buf)) mod 64)) 0.
Proof.
  intros Hf Hb. set (k := Z.to_nat _).
  assert (Hk : Z.of_nat k = if (length buf <? 56)%nat then 55 - size buf else 119 - size buf).
  { unfold k. rewrite Z2Nat.id by (apply Z.mod_pos_bound; lia). unfold size. rewrite length_app.
    symmetry. destruct (Nat.ltb_spec (length buf) 56).
    - apply (Z.mod_unique_pos _ _ (- Z.of_nat n)); lia.
    - apply (Z.mod_unique_pos _ _ (- Z.of_nat n - 1)); lia. }
  unfold size in Hk.
  replace (RIPEMD160.pad_len (length buf)) with (S k)
    by (unfold RIPEMD160.pad_len; destruct (Nat.ltb_spec (length buf) 56); lia).
  cbn [take app]. f_equal. rewrite take_replicate. f_equal. destruct (Nat.ltb_spec (length buf) 56); lia.
Qed.

Lemma rmd_pad_blocks msg : exists n, length (rmd_pad msg) = (64 * n)%nat.
Proof.
  unfold rmd_pad. rewrite !length_app, length_replicate, length_put_le. cbn [length].
  pose proof (Z.mod_pos_bound (55 - size msg) 64 ltac:(lia)).
  pose proof (Z.div_mod (55 - size msg) 64 ltac:(lia)).
  exists (Z.to_nat (- ((55 - size msg) / 64) + 1)). unfold size in *. lia.
Qed.

(** The incremental hasher is RIPEMD-160: any pieces, one digest. *)
Lemma ripemd160_streaming (pieces : list bytes) :
  fst (RIPEMD160.Digest (foldl RIPEMD160.Update RIPEMD160.Reset pieces)) = ripemd160_ref (concat pieces).
Proof.
  assert (H : forall ps s msg, rmd_absorbed s msg -> RIPEMD160.count_ s = u64 (8 * size msg) ->
    let s' := foldl RIPEMD160.Update s ps in
    rmd_absorbed s' (msg ++ concat ps) /\ RIPEMD160.count_ s' = u64 (8 * size (msg ++ concat ps))).
  { induction ps as [|p ps IH]; intros s msg Hs Hc; cbn [foldl concat]; [by rewrite app_nil_r|].
    rewrite app_assoc. apply IH; [by apply Update_absorbed|]. rewrite Update_count, Hc. unfold wrap, size.
    rewrite Zplus_mod_idemp_l, length_app. f_equal. lia. }
  destruct (H pieces RIPEMD160.Reset []) as [Ha Hc].
  { exists [], 0%nat. repeat split; cbn; lia. }
  { reflexivity. }
  cbn [app] in Ha, Hc. set (s := foldl _ _ _) in *. set (msg := concat pieces) in *. clearbody s msg. clear H.
  unfold RIPEMD160.Digest. cbn [fst].
  pose proof Ha as (full & n & Em & Hf & _ & Hb).
  pose proof (Update_absorbed _ _ (put_le 8 (RIPEMD160.count_ s)) (Update_absorbed _ _
    (take (RIPEMD160.pad_len (length (RIPEMD160.buf_ s))) (0x80 :: replicate 63 0)) Ha)) as Hd.
  rewrite (pad_bytes full _ n Hf Hb), <- Em, Hc, <- !app_assoc in Hd. rewrite (pad_bytes full _ n Hf Hb), <- Em, Hc.
  change (msg ++ _) with (rmd_pad msg) in Hd.
  set (s2 := RIPEMD160.Update (RIPEMD160.Update s _) _) in *.
  destruct Hd as (full' & m & E & Hf' & Hs' & Hb'), (rmd_pad_blocks msg) as [k Hk].
  assert (RIPEMD160.buf_ s2 = []) as Hnil.
  { apply length_zero_iff_nil. rewrite E, length_app in Hk. lia. }
  rewrite Hnil, app_nil_r in E. unfold ripemd160_ref. rewrite E, Hf', Hs', Nat.mul_comm, Nat.div_mul by lia. done.
Qed.

Lemma ripemd160_eq_ref data : ripemd160 data = ripemd160_ref data.
Proof. pose proof (ripemd160_streaming [data]) as H. cbn [foldl concat] in H. by rewrite app_nil_r in H. Qed.

(** ** Shape of the digest *)

Definition is_hash160 (h : bytes) : Prop := length h = 20%nat /\ is_bytes h.
#[global] Instance is_hash160_dec h : Decision (is_hash160 h).
Proof. unfold is_hash160, is_bytes. apply _. Defined.

Lemma length_line_step fn x k s v : length (RIPEMD160.line_step fn x k s v) = length v.
Proof. by destruct v as [|? [|? [|? [|? [|? [|? ?]]]]]]. Qed.

Lemma length_rounds X idx lr :
  length (fst (foldl (RIPEMD160.round_step X) lr idx)) = length (fst lr)
  /\ length (snd (foldl (RIPEMD160.round_step X) lr idx)) = length (snd lr).
Proof.
  revert lr. induction idx as [|i idx IH]; intros lr; [done|]. cbn [foldl].
  destruct (IH (RIPEMD160.round_step X lr i)) as [-> ->]. unfold RIPEMD160.round_step. cbn [fst snd].
  by rewrite !length_line_step.
Qed.

Lemma length_Transform st b : length (RIPEMD160.Transform st b) = length st.
Proof.
  unfold RIPEMD160.Transform.
  destruct (length_rounds (RIPEMD160.load_words b) (seq 0 80) (st, st)) as [Hl Hr].
  destruct (foldl _ _ _) as [l r]. cbn [fst snd] in Hl, Hr.
  destruct st as [|? [|? [|? [|? [|? [|? ?]]]]]]; try done.
  destruct l as [|? [|? [|? [|? [|? [|? ?]]]]]]; try done.
  by destruct r as [|? [|? [|? [|? [|? [|? ?]]]]]].
Qed.

Lemma length_rmd_blocks n st msg : length (rmd_blocks n st msg) = length st.
Proof. revert st msg. induction n; intros; [done|]. cbn [rmd_blocks]. by rewrite IHn, length_Transform. Qed.

Lemma ripemd160_hash data : is_hash160 (ripemd160 data).
Proof.
  rewrite ripemd160_eq_ref. unfold ripemd160_ref. set (st := rmd_blocks _ _ _).
  assert (H : length st = 5%nat) by apply length_rmd_blocks. split.
  - by destruct st as [|? [|? [|? [|? [|? [|? ?]]]]]].
  - unfold is_bytes. apply Forall_concat, Forall_map, Forall_forall. intros x _. apply put_le_bytes.
Qed.

Lemma Hash160Compute_hash data : is_hash160 (Hash160Compute data).
Proof. apply ripemd160_hash. Qed.

#[export] Hint Resolve ripemd160_hash Hash160Compute_hash : veld.

(** The standard's test vectors. *)
Example ripemd160_empty : BytesToHex (ripemd160 []) = b:"9c1185a5c5e9fc54612808977ee8f548b2258d31".
Proof. vm_compute. reflexivity. Qed.

Example ripemd160_abc : BytesToHex (ripemd160 (b:"abc")) = b:"8eb208f7e05d987a9b044a8e98c6b087f15a0bfc".
Proof. vm_compute. reflexivity. Qed.

Example ripemd160_two_blocks :
  BytesToHex (ripemd160 (b:"abcdbcdecdefdefgefghfghighijhijkijkljklmklmnlmnomnopnopq"))
  = b:"12a053384a9c0c88e405a06c27dcf49ada62eb2b".
Proof. vm_compute. reflexivity. Qed.

#[global] Opaque ripemd160 Hash160Compute.
