(* ===== verification/StateDigest.v ===== *)
(** * The consensus-state digest ([consensus/state_digest.h])

    The canonical byte encoders every module digest is built from, the
    domain-separated SHA-256, and the frozen sequence of top-level compositions
    [ComposeV1] ... [ComposeV8], each of which hashes a version tag, the height and
    the component digests in a fixed order. *)
From S2P Require Import Prelude Bytes Sha256.

(** ** Encoders *)

Definition put_u8 (v : Z) : bytes := [v].
Definition put_u32_le (v : Z) : bytes := put_le 4 v.
Definition put_u64_le (v : Z) : bytes := put_le 8 v.
Definition put_bytes (v : bytes) : bytes := v.
Definition put_len_prefixed (v : bytes) : bytes := put_u32_le (u32 (size v)) ++ put_bytes v.

Definition sha256_of (buf : bytes) : Hash256 := sha256 buf.
Definition sha256_domain (tag body : bytes) : Hash256 :=
  sha256_of (put_bytes tag ++ put_bytes body).

Definition empty_container_digest (tag : bytes) : Hash256 := sha256_domain tag [].

(** ** The top-level compositions *)

(** The buffer every composition fills: tag, height, then the digests in order. *)
Definition compose_buf (tag : bytes) (height : Z) (digests : list Hash256) : bytes :=
  put_bytes tag ++ put_u64_le height ++ concat (map put_bytes digests).

Definition ComposeV1 (height : Z) (best_block_hash d_utxo d_validators d_staking d_bondyield
    d_nmstally d_tokens : Hash256) : Hash256 :=
  sha256_of (compose_buf b:"VELD_STATE_DIGEST_v1|" height [best_block_hash; d_utxo;
    d_validators; d_staking; d_bondyield; d_nmstally; d_tokens]).

Definition Compose (height : Z) (best_block_hash d_utxo d_validators d_staking d_bondyield
    d_nmstally d_tokens d_supply d_governance d_nms_extended : Hash256) : Hash256 :=
  sha256_of (compose_buf b:"VELD_STATE_DIGEST_v2|" height [best_block_hash; d_utxo;
    d_validators; d_staking; d_bondyield; d_nmstally; d_tokens; d_supply; d_governance;
    d_nms_extended]).

Definition ComposeV3 (height : Z) (best_block_hash d_utxo d_validators d_staking d_bondyield
    d_nmstally d_tokens d_supply d_governance d_nms_extended d_spv : Hash256) : Hash256 :=
  sha256_of (compose_buf b:"VELD_STATE_DIGEST_v3|" height [best_block_hash; d_utxo;
    d_validators; d_staking; d_bondyield; d_nmstally; d_tokens; d_supply; d_governance;
    d_nms_extended; d_spv]).

Definition ComposeV4 (height : Z) (best_block_hash d_utxo d_validators d_staking d_bondyield
    d_nmstally d_tokens d_supply d_governance d_nms_extended d_spv d_anchors : Hash256) :
    Hash256 :=
  sha256_of (compose_buf b:"VELD_STATE_DIGEST_v4|" height [best_block_hash; d_utxo;
    d_validators; d_staking; d_bondyield; d_nmstally; d_tokens; d_supply; d_governance;
    d_nms_extended; d_spv; d_anchors]).

Definition ComposeV5 (height : Z) (best_block_hash d_utxo d_validators d_staking d_bondyield
    d_nmstally d_tokens d_supply d_governance d_nms_extended d_amm : Hash256) : Hash256 :=
  sha256_of (compose_buf b:"VELD_STATE_DIGEST_v5|" height [best_block_hash; d_utxo;
    d_validators; d_staking; d_bondyield; d_nmstally; d_tokens; d_supply; d_governance;
    d_nms_extended; d_amm]).

Definition ComposeV6 (height : Z) (best_block_hash d_utxo d_validators d_staking d_bondyield
    d_nmstally d_tokens d_supply d_governance d_nms_extended d_spv d_anchors d_amm : Hash256) :
    Hash256 :=
  sha256_of (compose_buf b:"VELD_STATE_DIGEST_v6|" height [best_block_hash; d_utxo;
    d_validators; d_staking; d_bondyield; d_nmstally; d_tokens; d_supply; d_governance;
    d_nms_extended; d_spv; d_anchors; d_amm]).

Definition ComposeV7 (height : Z) (best_block_hash d_utxo d_validators d_staking d_bondyield
    d_nmstally d_tokens d_supply d_governance d_nms_extended d_spv d_anchors d_amm d_finality
    d_redeem_bond : Hash256) : Hash256 :=
  sha256_of (compose_buf b:"VELD_STATE_DIGEST_v7|" height [best_block_hash; d_utxo;
    d_validators; d_staking; d_bondyield; d_nmstally; d_tokens; d_supply; d_governance;
    d_nms_extended; d_spv; d_anchors; d_amm; d_finality; d_redeem_bond]).

Definition ComposeV8 (height : Z) (best_block_hash d_utxo d_validators d_staking d_bondyield
    d_nmstally d_tokens d_supply d_governance d_nms_extended d_spv d_anchors d_amm d_finality
    d_redeem_bond : Hash256) : Hash256 :=
  sha256_of (compose_buf b:"VELD_STATE_DIGEST_v8|" height [best_block_hash; d_utxo;
    d_validators; d_staking; d_bondyield; d_nmstally; d_tokens; d_supply; d_governance;
    d_nms_extended; d_spv; d_anchors; d_amm; d_finality; d_redeem_bond]).

(** ** The Layer-3 finality commitment *)

Definition FINALITY_TAG : bytes := b:"VELD_D_FINALITY_v1|".

Definition FinalityDigest (final_height activation_height finality_window : Z) : Hash256 :=
  sha256_domain FINALITY_TAG
    (put_u32_le 1 ++ put_u64_le final_height ++ put_u64_le activation_height
     ++ put_u64_le finality_window).

(** ** Encoder lemmas *)

Lemma sha256_domain_hash d b : is_hash (sha256_domain d b).
Proof. apply sha256_hash. Qed.

Lemma put_len_prefixed_inj a b r s :
  size a < 2 ^ 32 -> size b < 2 ^ 32 ->
  put_len_prefixed a ++ r = put_len_prefixed b ++ s -> a = b /\ r = s.
Proof.
  unfold put_len_prefixed, put_u32_le, put_bytes, size. intros Ha Hb E.
  rewrite <- !app_assoc in E. apply app_inv_len in E as [E1 E2]; [|by rewrite !length_put_le].
  rewrite !wrap_id in E1 by (unfold fits; lia).
  apply put_le_inj in E1; [|unfold fits; lia..].
  apply app_inv_len in E2; [done|lia].
Qed.

Lemma put_u64_le_app_inj a b r s :
  fits 64 a -> fits 64 b -> put_u64_le a ++ r = put_u64_le b ++ s -> a = b /\ r = s.
Proof.
  unfold put_u64_le, put_u32_le. intros Ha Hb E.
  apply app_inv_len in E as [E1 E2]; [|by rewrite !length_put_le].
  apply put_le_inj in E1; [done|exact Ha|exact Hb].
Qed.

Lemma put_u32_le_app_inj a b r s :
  fits 32 a -> fits 32 b -> put_u32_le a ++ r = put_u32_le b ++ s -> a = b /\ r = s.
Proof.
  unfold put_u64_le, put_u32_le. intros Ha Hb E.
  apply app_inv_len in E as [E1 E2]; [|by rewrite !length_put_le].
  apply put_le_inj in E1; [done|exact Ha|exact Hb].
Qed.

Lemma concat_hashes_inj l m :
  Forall is_hash l -> Forall is_hash m -> concat l = concat m -> l = m.
Proof.
  intros Hl. revert m. induction Hl as [|x l [Hx _] Hl IH]; intros [|y m] Hm E; [done|..].
  - apply Forall_cons in Hm as [[Hy _] _]. apply (f_equal length) in E.
    cbn [concat] in E. rewrite length_app in E. cbn in E. lia.
  - apply (f_equal length) in E. cbn [concat] in E. rewrite length_app in E. cbn in E. lia.
  - apply Forall_cons in Hm as [[Hy _] Hm]. cbn [concat] in E.
    apply app_inv_len in E as [-> E]; [|lia]. f_equal. by apply IH.
Qed.

Lemma compose_buf_inj t h l t' h' l' :
  length t = length t' -> fits 64 h -> fits 64 h' -> Forall is_hash l -> Forall is_hash l' ->
  compose_buf t h l = compose_buf t' h' l' -> t = t' /\ h = h' /\ l = l'.
Proof.
  intros Ht Hh Hh' Hl Hl' E. unfold compose_buf, put_bytes in E. rewrite !map_id in E.
  apply app_inv_len in E as [-> E]; [|done].
  apply put_u64_le_app_inj in E as [-> E]; [|done..]. by apply concat_hashes_inj in E.
Qed.

(** ** What a published digest determines *)

Inductive Version := V1 | V2 | V3 | V4 | V5 | V6 | V7 | V8.

(** Everything a node can measure at one height. *)
Record Measured := mkMeasured {
  m_height : Z;
  m_best_block_hash : Hash256;
  m_d_utxo : Hash256;
  m_d_validators : Hash256;
  m_d_staking : Hash256;
  m_d_bondyield : Hash256;
  m_d_nmstally : Hash256;
  m_d_tokens : Hash256;
  m_d_supply : Hash256;
  m_d_governance : Hash256;
  m_d_nms_extended : Hash256;
  m_d_spv : Hash256;
  m_d_anchors : Hash256;
  m_d_amm : Hash256;
  m_d_finality : Hash256;
  m_d_redeem_bond : Hash256
}.

(** The composition a node publishes under each version. *)
Definition StateDigest (v : Version) (m : Measured) : Hash256 :=
  match v with
    | V1 => ComposeV1 (m_height m) (m_best_block_hash m) (m_d_utxo m) (m_d_validators m)
      (m_d_staking m) (m_d_bondyield m) (m_d_nmstally m) (m_d_tokens m)
    | V2 => Compose (m_height m) (m_best_block_hash m) (m_d_utxo m) (m_d_validators m)
      (m_d_staking m) (m_d_bondyield m) (m_d_nmstally m) (m_d_tokens m) (m_d_supply m)
      (m_d_governance m) (m_d_nms_extended m)
    | V3 => ComposeV3 (m_height m) (m_best_block_hash m) (m_d_utxo m) (m_d_validators m)
      (m_d_staking m) (m_d_bondyield m) (m_d_nmstally m) (m_d_tokens m) (m_d_supply m)
      (m_d_governance m) (m_d_nms_extended m) (m_d_spv m)
    | V4 => ComposeV4 (m_height m) (m_best_block_hash m) (m_d_utxo m) (m_d_validators m)
      (m_d_staking m) (m_d_bondyield m) (m_d_nmstally m) (m_d_tokens m) (m_d_supply m)
      (m_d_governance m) (m_d_nms_extended m) (m_d_spv m) (m_d_anchors m)
    | V5 => ComposeV5 (m_height m) (m_best_block_hash m) (m_d_utxo m) (m_d_validators m)
      (m_d_staking m) (m_d_bondyield m) (m_d_nmstally m) (m_d_tokens m) (m_d_supply m)
      (m_d_governance m) (m_d_nms_extended m) (m_d_amm m)
    | V6 => ComposeV6 (m_height m) (m_best_block_hash m) (m_d_utxo m) (m_d_validators m)
      (m_d_staking m) (m_d_bondyield m) (m_d_nmstally m) (m_d_tokens m) (m_d_supply m)
      (m_d_governance m) (m_d_nms_extended m) (m_d_spv m) (m_d_anchors m) (m_d_amm m)
    | V7 => ComposeV7 (m_height m) (m_best_block_hash m) (m_d_utxo m) (m_d_validators m)
      (m_d_staking m) (m_d_bondyield m) (m_d_nmstally m) (m_d_tokens m) (m_d_supply m)
      (m_d_governance m) (m_d_nms_extended m) (m_d_spv m) (m_d_anchors m) (m_d_amm m)
      (m_d_finality m) (m_d_redeem_bond m)
    | V8 => ComposeV8 (m_height m) (m_best_block_hash m) (m_d_utxo m) (m_d_validators m)
      (m_d_staking m) (m_d_bondyield m) (m_d_nmstally m) (m_d_tokens m) (m_d_supply m)
      (m_d_governance m) (m_d_nms_extended m) (m_d_spv m) (m_d_anchors m) (m_d_amm m)
      (m_d_finality m) (m_d_redeem_bond m)
  end.

(** The component digests the version commits to. *)
Definition committed (v : Version) (m : Measured) : list Hash256 :=
  match v with
    | V1 => [m_best_block_hash m; m_d_utxo m; m_d_validators m; m_d_staking m; m_d_bondyield m;
      m_d_nmstally m; m_d_tokens m]
    | V2 => [m_best_block_hash m; m_d_utxo m; m_d_validators m; m_d_staking m; m_d_bondyield m;
      m_d_nmstally m; m_d_tokens m; m_d_supply m; m_d_governance m; m_d_nms_extended m]
    | V3 => [m_best_block_hash m; m_d_utxo m; m_d_validators m; m_d_staking m; m_d_bondyield m;
      m_d_nmstally m; m_d_tokens m; m_d_supply m; m_d_governance m; m_d_nms_extended m; m_d_spv
      m]
    | V4 => [m_best_block_hash m; m_d_utxo m; m_d_validators m; m_d_staking m; m_d_bondyield m;
      m_d_nmstally m; m_d_tokens m; m_d_supply m; m_d_governance m; m_d_nms_extended m; m_d_spv
      m; m_d_anchors m]
    | V5 => [m_best_block_hash m; m_d_utxo m; m_d_validators m; m_d_staking m; m_d_bondyield m;
      m_d_nmstally m; m_d_tokens m; m_d_supply m; m_d_governance m; m_d_nms_extended m; m_d_amm
      m]
    | V6 => [m_best_block_hash m; m_d_utxo m; m_d_validators m; m_d_staking m; m_d_bondyield m;
      m_d_nmstally m; m_d_tokens m; m_d_supply m; m_d_governance m; m_d_nms_extended m; m_d_spv
      m; m_d_anchors m; m_d_amm m]
    | V7 => [m_best_block_hash m; m_d_utxo m; m_d_validators m; m_d_staking m; m_d_bondyield m;
      m_d_nmstally m; m_d_tokens m; m_d_supply m; m_d_governance m; m_d_nms_extended m; m_d_spv
      m; m_d_anchors m; m_d_amm m; m_d_finality m; m_d_redeem_bond m]
    | V8 => [m_best_block_hash m; m_d_utxo m; m_d_validators m; m_d_staking m; m_d_bondyield m;
      m_d_nmstally m; m_d_tokens m; m_d_supply m; m_d_governance m; m_d_nms_extended m; m_d_spv
      m; m_d_anchors m; m_d_amm m; m_d_finality m; m_d_redeem_bond m]
  end.

Definition domain (v : Version) : bytes :=
  match v with
  | V1 => b:"VELD_STATE_DIGEST_v1|"
  | V2 => b:"VELD_STATE_DIGEST_v2|"
  | V3 => b:"VELD_STATE_DIGEST_v3|"
  | V4 => b:"VELD_STATE_DIGEST_v4|"
  | V5 => b:"VELD_STATE_DIGEST_v5|"
  | V6 => b:"VELD_STATE_DIGEST_v6|"
  | V7 => b:"VELD_STATE_DIGEST_v7|"
  | V8 => b:"VELD_STATE_DIGEST_v8|"
  end.

Definition well_measured (m : Measured) : Prop :=
  fits 64 (m_height m) /\ Forall is_hash (committed V8 m).

#[global] Instance well_measured_dec m : Decision (well_measured m).
Proof. unfold well_measured. apply _. Defined.

(** The buffer hashed under a version. *)
Definition measured_buf (v : Version) (m : Measured) : bytes :=
  compose_buf (domain v) (m_height m) (committed v m).

(** SHA-256 does not collide on the two buffers. *)
Definition collision_free (a b : bytes) : Prop := sha256 a = sha256 b -> a = b.

Lemma StateDigest_buf v m : StateDigest v m = sha256_of (measured_buf v m).
Proof. by destruct v. Qed.

Lemma committed_hashes v m : well_measured m -> Forall is_hash (committed v m).
Proof.
  intros [_ H]. cbn [committed] in H. rewrite !Forall_cons in H.
  destruct v; cbn [committed]; rewrite ?Forall_cons; intuition.
Qed.

Lemma domain_inj v v' : domain v = domain v' -> v = v'.
Proof. destruct v, v'; intros E; try done; by vm_compute in E. Qed.

(** A published state digest pins the state.  Unless SHA-256 collides on the
    two measured buffers, equal digests come from the same digest version, the same
    height and the same best-block and component digests: no component can be
    swapped with another, omitted, or reinterpreted under another version. *)
Lemma state_digest_binding v v' m m' :
  well_measured m -> well_measured m' ->
  collision_free (measured_buf v m) (measured_buf v' m') ->
  StateDigest v m = StateDigest v' m' ->
  v = v' /\ m_height m = m_height m' /\ committed v m = committed v' m'.
Proof.
  intros Hm Hm' Hnc E. rewrite !StateDigest_buf in E. unfold sha256_of in E.
  apply Hnc in E.
  apply compose_buf_inj in E as (Ht & Hh & Hc);
    [|by destruct v, v'|apply Hm|apply Hm'|by apply committed_hashes..].
  apply domain_inj in Ht as ->. done.
Qed.

Definition demo_measured : Measured :=
  let z := ZeroHash in mkMeasured 7 z z z z z z z z z z z z z z z.

Lemma demo_measured_ok : well_measured demo_measured.
Proof. apply (bool_decide_unpack _). vm_compute. exact I. Qed.

Lemma demo_no_collision : collision_free (measured_buf V1 demo_measured) (measured_buf V2 demo_measured).
Proof.
  unfold collision_free. intros C. exfalso. revert C.
  apply (bool_decide_unpack _). vm_compute. exact I.
Qed.

Lemma state_digest_binding_witness :
  StateDigest V1 demo_measured <> StateDigest V2 demo_measured.
Proof.
  intros E. apply (state_digest_binding V1 V2 demo_measured demo_measured) in E.
  - destruct E as [E _]. discriminate E.
  - apply demo_measured_ok.
  - apply demo_measured_ok.
  - apply demo_no_collision.
Defined.
