(* ===== verification/MintNullifier.v ===== *)
(** * The mint nullifier set ([consensus/btcveld_mint_nullifier.h])

    Every mint consumes a Bitcoin outpoint for ever.  Consensus keeps only the root of a
    sparse Merkle tree over the hashed outpoints; a mint carries a compressed proof that its
    outpoint is absent, and the same proof gives the root with the outpoint present. *)
From S2P Require Import Prelude Bytes Sha256 StateDigest.

Definition TREE_DEPTH : nat := 256.
Definition BITMAP_BYTES : nat := 32.
Definition HASH_BYTES : nat := 32.
Definition MIN_PROOF_BYTES : nat := BITMAP_BYTES.
Definition MAX_PROOF_BYTES : nat := BITMAP_BYTES + TREE_DEPTH * HASH_BYTES.

Definition KEY_DOMAIN : bytes := b:"VELD_BTCVELD_MINT_NULLIFIER_KEY_v1|".
Definition EMPTY_LEAF_DOMAIN : bytes := b:"VELD_BTCVELD_MINT_NULLIFIER_EMPTY_LEAF_v1|".
Definition OCCUPIED_LEAF_DOMAIN : bytes := b:"VELD_BTCVELD_MINT_NULLIFIER_OCCUPIED_LEAF_v1|".
Definition NODE_DOMAIN : bytes := b:"VELD_BTCVELD_MINT_NULLIFIER_NODE_v1|".

Record Proof := mkProof { bitmap : bytes; siblings : list Hash256 }.

(** ** Bits *)

(** Bit [depth] of a byte string, most significant first. *)
Definition Bit (key : bytes) (depth : nat) : bool :=
  negb (Z.land (Z.shiftr (nth (depth / 8) key 0) (7 - Z.of_nat (depth mod 8))) 1 =? 0).

Definition BitmapBit (bm : bytes) (depth : nat) : bool := Bit bm depth.

Definition SetBitmapBit (bm : bytes) (depth : nat) (v : bool) : bytes :=
  let mask := u8 (Z.shiftl 1 (7 - Z.of_nat (depth mod 8))) in
  let old := nth (depth / 8) bm 0 in
  <[(depth / 8)%nat := if v then Z.lor old mask else Z.land old (u8 (Z.lnot mask))]> bm.

(** [for (; b != 0; b &= b - 1) ++n;]: a byte has at most eight bits to clear. *)
Fixpoint byte_popcount (fuel : nat) (b : Z) (n : nat) : nat :=
  match fuel with
  | O => n
  | S fuel' => if b =? 0 then n else byte_popcount fuel' (Z.land b (u8 (b - 1))) (S n)
  end.

Definition BitmapPopcount (bm : bytes) : nat := foldl (fun n b => byte_popcount 8 b n) 0%nat bm.

(** ** Hashes of the tree *)

Definition KeyForOutpoint (canonical_outpoint : bytes) : Hash256 :=
  sha256_domain KEY_DOMAIN (put_len_prefixed canonical_outpoint).

Definition EmptyLeaf : Hash256 := sha256_domain EMPTY_LEAF_DOMAIN [].
Definition OccupiedLeaf (key : Hash256) : Hash256 := sha256_domain OCCUPIED_LEAF_DOMAIN (put_bytes key).
Definition Node (left right : Hash256) : Hash256 := sha256_domain NODE_DOMAIN (put_bytes left ++ put_bytes right).

(** The root of an empty subtree with [n] levels under it: [EmptyHashes()[TREE_DEPTH - n]]. *)
Fixpoint empty_subtree (n : nat) : Hash256 :=
  match n with O => EmptyLeaf | S n' => let e := empty_subtree n' in Node e e end.

Definition EmptyHashes (depth : nat) : Hash256 := empty_subtree (TREE_DEPTH - depth).
Definition EmptyRoot : Hash256 := EmptyHashes 0.

(** ** Proofs *)

(** One pass over the depths: the siblings of the set bits in order, and whether each is
    different from the default. *)
Fixpoint take_siblings (n depth : nat) (bm : bytes) (sibs : list Hash256) : option (list Hash256) :=
  match n with
  | O => match sibs with [] => Some [] | _ => None end
  | S n' =>
      if negb (BitmapBit bm depth) then
        match take_siblings n' (S depth) bm sibs with
        | Some out => Some (EmptyHashes (S depth) :: out) | None => None end
      else match sibs with
           | [] => None
           | s :: sibs' =>
               if bytes_eqb s (EmptyHashes (S depth)) then None
               else match take_siblings n' (S depth) bm sibs' with
                    | Some out => Some (s :: out) | None => None end
           end
  end.

Definition IsCanonicalProof (p : Proof) : bool :=
  if negb (length (siblings p) =? BitmapPopcount (bitmap p))%nat then false
  else match take_siblings TREE_DEPTH 0 (bitmap p) (siblings p) with Some _ => true | None => false end.

(** The sibling of every depth, defaults filled in. *)
Definition ExpandSiblings (p : Proof) : option (list Hash256) :=
  if negb (IsCanonicalProof p) then None else take_siblings TREE_DEPTH 0 (bitmap p) (siblings p).

(** The loop of [DecodeProof] over the bytes after the bitmap. *)
Fixpoint read_siblings (n depth : nat) (bm data : bytes) : option (list Hash256 * bytes) :=
  match n with
  | O => Some ([], data)
  | S n' =>
      if negb (BitmapBit bm depth) then read_siblings n' (S depth) bm data
      else
        let sibling := take HASH_BYTES data in
        if bytes_eqb sibling (EmptyHashes (S depth)) then None
        else match read_siblings n' (S depth) bm (drop HASH_BYTES data) with
             | Some (out, rest) => Some (sibling :: out, rest) | None => None end
  end.

Definition DecodeProof (data : bytes) : option Proof :=
  let len := length data in
  if (len <? MIN_PROOF_BYTES)%nat || (MAX_PROOF_BYTES <? len)%nat
     || negb ((len - BITMAP_BYTES) mod HASH_BYTES =? 0)%nat then None
  else
    let bm := take BITMAP_BYTES data in
    let count := BitmapPopcount bm in
    if negb (len =? BITMAP_BYTES + count * HASH_BYTES)%nat then None
    else match read_siblings TREE_DEPTH 0 bm (drop BITMAP_BYTES data) with
         | Some (out, rest) => if (length rest =? 0)%nat && (length out =? count)%nat then Some (mkProof bm out) else None
         | None => None
         end.

Definition EncodeProof (p : Proof) : bytes :=
  if negb (IsCanonicalProof p) then [] else bitmap p ++ concat (siblings p).

Definition EmptyProof : Proof := mkProof (replicate BITMAP_BYTES 0) [].

(** The loop of [CompressSiblings]. *)
Fixpoint compress_loop (depth : nat) (sibs : list Hash256) (out : Proof) : Proof :=
  match sibs with
  | [] => out
  | s :: sibs' =>
      compress_loop (S depth) sibs'
        (if bytes_eqb s (EmptyHashes (S depth)) then out
         else mkProof (SetBitmapBit (bitmap out) depth true) (siblings out ++ [s]))
  end.

Definition CompressSiblings (sibs : list Hash256) : Proof := compress_loop 0 sibs EmptyProof.

(** ** Paths *)

(** The subtree hashes on the path of [key] from [depth] down: the head is [path[depth]],
    the last element the leaf. *)
Fixpoint path_from (key : Hash256) (depth : nat) (leaf : Hash256) (sibs : list Hash256) : list Hash256 :=
  match sibs with
  | [] => [leaf]
  | s :: sibs' =>
      let below := path_from key (S depth) leaf sibs' in
      let sub := nth 0 below [] in
      (if Bit key depth then Node s sub else Node sub s) :: below
  end.

Definition ComputePath (key : Hash256) (occupied : bool) (p : Proof) : option (list Hash256) :=
  match ExpandSiblings p with
  | None => None
  | Some sibs => Some (path_from key 0 (if occupied then OccupiedLeaf key else EmptyLeaf) sibs)
  end.

Definition Verify (root : Hash256) (canonical_outpoint : bytes) (occupied : bool) (p : Proof) : bool :=
  match ComputePath (KeyForOutpoint canonical_outpoint) occupied p with
  | None => false
  | Some path => bytes_eqb (nth 0 path []) root
  end.

(** The new root, or [None]. *)
Definition Insert (current_root : Hash256) (canonical_outpoint : bytes) (nonmembership_proof : Proof) : option Hash256 :=
  let key := KeyForOutpoint canonical_outpoint in
  match ComputePath key false nonmembership_proof with
  | None => None
  | Some old_path =>
      if negb (bytes_eqb (nth 0 old_path []) current_root) then None
      else match ComputePath key true nonmembership_proof with
           | None => None
           | Some new_path => Some (nth 0 new_path [])
           end
  end.

(** [while (divergence < TREE_DEPTH && ...) ++divergence;] *)
Fixpoint divergence (n : nat) (a b : Hash256) (depth : nat) : nat :=
  match n with
  | O => depth
  | S n' => if Bool.eqb (Bit a depth) (Bit b depth) then divergence n' a b (S depth) else depth
  end.

(** The target's membership and proof after another outpoint is inserted. *)
Definition UpdateWitnessAfterInsert (old_root new_root : Hash256) (target_outpoint : bytes) (target_occupied : bool)
    (target_proof : Proof) (inserted_outpoint : bytes) (insertion_proof : Proof) : option (bool * Proof) :=
  match Insert old_root inserted_outpoint insertion_proof with
  | None => None
  | Some r =>
      if negb (bytes_eqb r new_root) || negb (Verify old_root target_outpoint target_occupied target_proof) then None
      else
        let target_key := KeyForOutpoint target_outpoint in
        let inserted_key := KeyForOutpoint inserted_outpoint in
        if bytes_eqb target_key inserted_key then
          if target_occupied then None
          else if Verify new_root target_outpoint true insertion_proof then Some (true, insertion_proof) else None
        else
          let d := divergence TREE_DEPTH target_key inserted_key 0 in
          if (d =? TREE_DEPTH)%nat then None
          else match ExpandSiblings target_proof, ComputePath inserted_key true insertion_proof with
               | Some sibs, Some path =>
                   let p := CompressSiblings (<[d := nth (S d) path []]> sibs) in
                   if Verify new_root target_outpoint target_occupied p then Some (target_occupied, p) else None
               | _, _ => None
               end
  end.
