(* ===== verification/RedeemArchive.v ===== *)
(** * The redemption archive ([consensus/redeem_archive.h])

    A content-addressed radix tree: leaves hold a key and its value, branches the bit on
    which their keys differ, and every record is stored under its own hash.  Only the root
    and the number of leaves are part of consensus state; the records are in a database, a
    parameter ([read_] and [write_]) that either stores a batch or fails.  [None] is an
    exception. *)
From S2P Require Import Prelude Bytes Sha256 StateDigest MintNullifier.

Module RedeemArchive.

Definition HashRecord (record : bytes) : Hash256 := sha256_domain b:"VELD_REDEEM_ARCHIVE_NODE_v1|" record.
Definition EmptyRoot : Hash256 := HashRecord [2].
Record Root := mkRoot { root_hash : Hash256; root_count : Z }.
Definition NoRoot : Root := mkRoot EmptyRoot 0.
Definition Key (kind : Z) (identity : bytes) : Hash256 :=
  sha256_domain b:"VELD_REDEEM_ARCHIVE_KEY_v1|" (kind :: put_len_prefixed identity).

Inductive Node :=
  | LeafNode (key value : bytes)
  | BranchNode (depth : nat) (left right : Hash256).

Definition ReadHash (s : bytes) (at_ : nat) : Hash256 := take 32 (drop at_ s).
Definition Leaf (key value : bytes) : bytes := 0 :: key ++ value.
Definition Branch (depth : nat) (left right : Hash256) : bytes :=
  let d := Z.of_nat depth in 1 :: Z.land d 255 :: Z.shiftr d 8 :: left ++ right.

Definition CheckRoot (root : Root) : bool := Bool.eqb (root_count root =? 0) (bytes_eqb (root_hash root) EmptyRoot).

(** The records of the database, by the hexadecimal text of their hash. *)
Abbreviation Store := (gmap bytes bytes).

Definition Load (st : Store) (hash : Hash256) : option Node :=
  match st !! HashToHex hash with
  | None => None
  | Some raw =>
      if (size raw =? 0) || negb (bytes_eqb (HashRecord raw) hash) then None
      else if (nth 0 raw 0 =? 0) && (33 <=? size raw) then Some (LeafNode (ReadHash raw 1) (drop 33 raw))
      else if (nth 0 raw 0 =? 1) && (size raw =? 67) then
        let depth := Z.lor (nth 1 raw 0) (Z.shiftl (nth 2 raw 0) 8) in
        let left := ReadHash raw 3 in
        let right := ReadHash raw 35 in
        if (256 <=? depth) || bytes_eqb left EmptyRoot || bytes_eqb right EmptyRoot then None
        else Some (BranchNode (Z.to_nat depth) left right)
      else None
  end.

(** A path has at most 256 branches and one leaf. *)
Definition WALK : nat := 257.

(** The loop of [Get]; [previous] is the depth of the last branch. *)
Fixpoint get_loop (st : Store) (fuel : nat) (hash : Hash256) (previous : Z) (key : bytes) : option (option bytes) :=
  match fuel with
  | O => None
  | S fuel' =>
      match Load st hash with
      | None => None
      | Some (LeafNode k v) => Some (if bytes_eqb k key then Some v else None)
      | Some (BranchNode d l r) =>
          if Z.of_nat d <=? previous then None else get_loop st fuel' (if Bit key d then r else l) (Z.of_nat d) key
      end
  end.

Definition Get (st : Store) (root : Root) (key : bytes) : option (option bytes) :=
  if negb (CheckRoot root) then None
  else if root_count root =? 0 then Some None
  else get_loop st WALK (root_hash root) (-1) key.

(** A branch on the way down, with its hash. *)
Record Step := mkStep { s_depth : nat; s_left : Hash256; s_right : Hash256; s_hash : Hash256 }.

(** The first loop of [Insert]: the branches passed, and the leaf with its hash. *)
Fixpoint walk (st : Store) (fuel : nat) (cursor : Hash256) (previous : Z) (key : bytes)
  : option (list Step * (Hash256 * bytes * bytes)) :=
  match fuel with
  | O => None
  | S fuel' =>
      match Load st cursor with
      | None => None
      | Some (LeafNode k v) => Some ([], (cursor, k, v))
      | Some (BranchNode d l r) =>
          if Z.of_nat d <=? previous then None
          else match walk st fuel' (if Bit key d then r else l) (Z.of_nat d) key with
               | None => None
               | Some (path, terminal) => Some (mkStep d l r cursor :: path, terminal)
               end
      end
  end.

(** The first bit on which two keys differ, or the end of the range. *)
Fixpoint first_difference (a b : bytes) (fuel split : nat) : nat :=
  match fuel with
  | O => split
  | S fuel' => if Bool.eqb (Bit a split) (Bit b split) then first_difference a b fuel' (S split) else split
  end.

Fixpoint count_ancestors (path : list Step) (split : nat) : nat :=
  match path with
  | [] => 0
  | p :: path' => if (s_depth p <? split)%nat then S (count_ancestors path' split) else 0
  end.

Abbreviation Records := (list (bytes * bytes)).

Definition Stage (records : Records) (value : bytes) : Records * Hash256 :=
  let hash := HashRecord value in (records ++ [(HashToHex hash, value)], hash).

(** One ancestor is staged again with its new child. *)
Definition restage (key : bytes) (acc : Records * Hash256) (p : Step) : Records * Hash256 :=
  if Bit key (s_depth p) then Stage (acc.1) (Branch (s_depth p) (s_left p) (acc.2))
  else Stage (acc.1) (Branch (s_depth p) (acc.2) (s_right p)).

(** The new branch above the old subtree, then its ancestors from below. *)
Definition graft (key value : bytes) (path : list Step) (cursor : Hash256) (split : nat) : Records * Hash256 :=
  let '(records, child) := Stage [] (Leaf key value) in
  let ancestors := count_ancestors path split in
  let old_subtree := match path !! ancestors with Some p => s_hash p | None => cursor end in
  let forked := if Bit key split then Stage records (Branch split old_subtree child)
                else Stage records (Branch split child old_subtree) in
  foldl (restage key) forked (rev (take ancestors path)).

Section Backend.
(** Whether the database stores a batch. *)
Context (write_ : Records -> bool).

Definition put_all (st : Store) (records : Records) : Store :=
  foldl (fun st r => <[r.1 := r.2]> st) st records.

Definition publish (st : Store) (root : Root) (staged : Records * Hash256) : option (Store * Root * bool) :=
  if negb (write_ (staged.1)) then None
  else Some (put_all st (staged.1), mkRoot (staged.2) (root_count root + 1), true).

Definition Insert (st : Store) (root : Root) (key value : bytes) : option (Store * Root * bool) :=
  if negb (CheckRoot root) then None
  else if root_count root =? 0 then publish st root (Stage [] (Leaf key value))
  else match walk st WALK (root_hash root) (-1) key with
       | None => None
       | Some (path, (cursor, k, v)) =>
           if bytes_eqb k key then if bytes_eqb v value then Some (st, root, false) else None
           else if root_count root =? UINT64_MAX then None
           else let split := first_difference key k 256 0 in
                if (split =? 256)%nat then None
                else publish st root (graft key value path cursor split)
       end.

End Backend.
End RedeemArchive.
