(* ===== verification/NullifierRules.v ===== *)
(** * The nullifier tree as a set

    The root the code computes is a function of the set of keys inserted so far. *)
From S2P Require Import Prelude Bytes Sha256 StateDigest MintNullifier.

(** ** Bits *)

Lemma Bit_testbit key d : Bit key d = Z.testbit (nth (d / 8) key 0) (7 - Z.of_nat (d mod 8)).
Proof.
  unfold Bit. set (x := nth (d / 8) key 0). pose proof (Nat.mod_upper_bound d 8 ltac:(lia)).
  set (k := 7 - Z.of_nat (d mod 8)). assert (0 <= k) by (unfold k; lia).
  change 1 with (Z.ones 1). rewrite Z.land_ones, Z.pow_1_r by lia.
  rewrite <- Z.bit0_mod, Z.shiftr_spec, Z.add_0_l by lia. by destruct (Z.testbit x k).
Qed.

(** Two keys that agree on all bits are equal. *)
Lemma key_bits_inj a b : is_hash a -> is_hash b -> (forall d, (d < TREE_DEPTH)%nat -> Bit a d = Bit b d) -> a = b.
Proof.
  intros [La Ba] [Lb Bb] H. apply (nth_ext _ _ 0 0); [congruence|]. rewrite La. intros i Hi.
  assert (forall l, is_bytes l -> fits 8 (nth i l 0)) as Hf.
  { intros l Hl. destruct (nth_in_or_default i l 0) as [Hin| ->]; [|by split].
    unfold is_bytes in Hl. rewrite Forall_forall in Hl. apply Hl. by apply list_elem_of_In. }
  apply Z.bits_inj'. intros k Hk. destruct (Z.lt_ge_cases k 8) as [Hk8|Hk8].
  - specialize (H (8 * i + Z.to_nat (7 - k))%nat ltac:(unfold TREE_DEPTH; lia)). rewrite !Bit_testbit in H.
    replace ((8 * i + Z.to_nat (7 - k)) / 8)%nat with i in H; [|apply (Nat.div_unique _ _ _ (Z.to_nat (7 - k))); lia].
    replace ((8 * i + Z.to_nat (7 - k)) mod 8)%nat with (Z.to_nat (7 - k)) in H; [|apply (Nat.mod_unique _ _ i); lia].
    by replace (7 - Z.of_nat (Z.to_nat (7 - k))) with k in H by lia.
  - destruct (Hf a Ba), (Hf b Bb). assert (2 ^ 8 <= 2 ^ k) by (apply Z.pow_le_mono_r; lia).
    assert (forall x, 0 <= x < 2 ^ 8 -> Z.testbit x k = false) as Hz.
    { intros x Hx. destruct (Z.eq_dec x 0) as [-> |]; [apply Z.testbit_0_l|]. apply Z.bits_above_log2; [lia|].
      apply Z.log2_lt_pow2; lia. }
    by rewrite !Hz.
Qed.

(** ** The strings the tree hashes *)

(** The leaf of the keys on one full path. *)
Definition set_leaf (ks : list Hash256) : Hash256 := match ks with [] => EmptyLeaf | k :: _ => OccupiedLeaf k end.

Definition node_msg (l r : Hash256) : bytes := NODE_DOMAIN ++ l ++ r.
Definition leaf_msg (ks : list Hash256) : bytes :=
  match ks with [] => EMPTY_LEAF_DOMAIN | k :: _ => OCCUPIED_LEAF_DOMAIN ++ k end.

Lemma Node_eq l r : Node l r = sha256 (node_msg l r).
Proof. unfold Node, sha256_domain, node_msg, put_bytes. done. Qed.

Lemma leaf_eq ks : set_leaf ks = sha256 (leaf_msg ks).
Proof. destruct ks; cbn [set_leaf leaf_msg]; unfold EmptyLeaf, OccupiedLeaf, sha256_domain, put_bytes; by rewrite ?app_nil_r. Qed.

(** Neither the depth nor the hashes are ever computed in these proofs. *)
#[local] Opaque TREE_DEPTH sha256_domain sha256.

(** ** The tree of a set of keys *)

(** The keys on one side at a depth. *)
Definition side (b : bool) (d : nat) (ks : list Hash256) : list Hash256 := filter (fun k => Bit k d = b) ks.

(** The root of the subtree of the given keys, with [n] levels under it. *)
Fixpoint set_root (n : nat) (ks : list Hash256) : Hash256 :=
  match ks with
  | [] => empty_subtree n
  | k :: _ => match n with
              | O => OccupiedLeaf k
              | S n' => Node (set_root n' (side false (TREE_DEPTH - n) ks)) (set_root n' (side true (TREE_DEPTH - n) ks))
              end
  end.

Lemma set_root_nil n : set_root n [] = empty_subtree n.
Proof. by destruct n. Qed.

Lemma set_root_S n ks :
  set_root (S n) ks = Node (set_root n (side false (TREE_DEPTH - S n) ks)) (set_root n (side true (TREE_DEPTH - S n) ks)).
Proof. destruct ks; [|done]. unfold side. rewrite !filter_nil. by destruct n. Qed.

(** The keys that share the path of [key], and the siblings on that path. *)
Fixpoint on_path (n : nat) (key : Hash256) (ks : list Hash256) : list Hash256 :=
  match n with O => ks | S n' => on_path n' key (side (Bit key (TREE_DEPTH - n)) (TREE_DEPTH - n) ks) end.

Fixpoint siblings_of (n : nat) (key : Hash256) (ks : list Hash256) : list Hash256 :=
  match n with
  | O => []
  | S n' => set_root n' (side (negb (Bit key (TREE_DEPTH - n))) (TREE_DEPTH - n) ks)
            :: siblings_of n' key (side (Bit key (TREE_DEPTH - n)) (TREE_DEPTH - n) ks)
  end.

Lemma siblings_of_length n key ks : length (siblings_of n key ks) = n.
Proof. revert ks. induction n as [|n IH]; intros ks; [done|]. cbn [siblings_of length]. by rewrite IH. Qed.

(** The path over the tree's own siblings ends in the root of the set. *)
Lemma root_of_path n key ks :
  (n <= TREE_DEPTH)%nat ->
  nth 0 (path_from key (TREE_DEPTH - n) (set_root 0 (on_path n key ks)) (siblings_of n key ks)) [] = set_root n ks.
Proof.
  revert ks. induction n as [|n IH]; intros ks Hn; [done|]. rewrite set_root_S.
  cbn [on_path siblings_of path_from nth]. replace (S (TREE_DEPTH - S n)) with (TREE_DEPTH - n)%nat by lia.
  rewrite IH by lia. by destruct (Bit key (TREE_DEPTH - S n)).
Qed.

(** ** Absence *)

(** SHA-256 does not collide between the tree of the set and the path of a proof of
    absence, node by node. *)
Fixpoint honest (n : nat) (key : Hash256) (ks sibs : list Hash256) : Prop :=
  match n, sibs with
  | S n', s :: sibs' =>
      let d := (TREE_DEPTH - n)%nat in
      let sub := nth 0 (path_from key (S d) EmptyLeaf sibs') [] in
      collision_free (node_msg (set_root n' (side false d ks)) (set_root n' (side true d ks)))
                     (if Bit key d then node_msg s sub else node_msg sub s)
      /\ honest n' key (side (Bit key d) d ks) sibs'
  | _, _ => collision_free (leaf_msg ks) EMPTY_LEAF_DOMAIN
  end.

Lemma set_root_hash n ks : is_hash (set_root n ks).
Proof.
  destruct n as [|n]; [|rewrite set_root_S, Node_eq; apply sha256_hash].
  change (set_root 0 ks) with (match ks with [] => EmptyLeaf | k :: _ => OccupiedLeaf k end).
  fold (set_leaf ks). rewrite leaf_eq. apply sha256_hash.
Qed.

Lemma path_head_hash key d sibs : is_hash (nth 0 (path_from key d EmptyLeaf sibs) []).
Proof.
  destruct sibs; cbn [path_from nth]; [apply (set_root_hash 0 [])|]. destruct (Bit key d); rewrite Node_eq; apply sha256_hash.
Qed.

Lemma node_msg_inj a b c d : is_hash a -> is_hash c -> node_msg a b = node_msg c d -> a = c /\ b = d.
Proof. intros [Ha _] [Hc _] E. unfold node_msg in E. apply app_inv_head in E. by apply app_inv_len in E; [|congruence]. Qed.

(** A proof of absence that matches the root is the tree's own path, and the key is not in
    the set. *)
Lemma absence_path n key ks sibs :
  (n <= TREE_DEPTH)%nat -> length sibs = n -> Forall is_hash sibs -> honest n key ks sibs ->
  nth 0 (path_from key (TREE_DEPTH - n) EmptyLeaf sibs) [] = set_root n ks ->
  sibs = siblings_of n key ks /\ on_path n key ks = [].
Proof.
  revert ks sibs. induction n as [|n IH]; intros ks sibs Hn Hl Hh Hho Hr.
  - destruct sibs; [|discriminate Hl]. split; [reflexivity|]. cbn [honest path_from nth on_path] in *. destruct ks as [|k ks]; [done|].
    exfalso. change (set_leaf [] = set_leaf (k :: ks)) in Hr. rewrite !leaf_eq in Hr. symmetry in Hr. apply Hho in Hr.
    discriminate Hr.
  - destruct sibs as [|s sibs]; [discriminate Hl|]. apply Forall_cons in Hh as [Hs Hh]. cbn [honest] in Hho. destruct Hho as [Hc Hho].
    rewrite set_root_S in Hr. cbn [path_from nth] in Hr. replace (S (TREE_DEPTH - S n)) with (TREE_DEPTH - n)%nat in * by lia.
    set (d := (TREE_DEPTH - S n)%nat) in *. set (sub := nth 0 (path_from key (TREE_DEPTH - n) EmptyLeaf sibs) []) in *.
    pose proof (path_head_hash key (TREE_DEPTH - n) sibs) as Hsub. fold sub in Hsub.
    assert (s = set_root n (side (negb (Bit key d)) d ks) /\ sub = set_root n (side (Bit key d) d ks)) as [Es Esub].
    { destruct (Bit key d); cbn [negb]; rewrite !Node_eq in Hr; symmetry in Hr; apply Hc in Hr;
        apply node_msg_inj in Hr as [E1 E2]; done || apply set_root_hash. }
    destruct (IH (side (Bit key d) d ks) sibs) as [E1 E2]; [lia|by injection Hl|done|done|exact Esub|].
    cbn [siblings_of on_path]. fold d. by rewrite <- E1, <- Es.
Qed.

Lemma not_on_path n key ks :
  (n <= TREE_DEPTH)%nat -> on_path n key ks = [] -> key ∉ ks.
Proof.
  revert ks. induction n as [|n IH]; intros ks Hn; cbn [on_path]; [intros -> H; by apply elem_of_nil in H|].
  intros H%IH; [|lia]. intros Hin. apply H. apply list_elem_of_filter. done.
Qed.

Lemma on_path_all n key ks k :
  (n <= TREE_DEPTH)%nat -> k ∈ on_path n key ks ->
  k ∈ ks /\ forall d, (TREE_DEPTH - n <= d < TREE_DEPTH)%nat -> Bit k d = Bit key d.
Proof.
  revert ks. induction n as [|n IH]; intros ks Hn; [intros H; split; [done|]; lia|].
  cbn [on_path]. intros [Hin Hb]%IH; [|lia]. apply list_elem_of_filter in Hin as [E Hin]. split; [done|].
  intros d Hd. destruct (decide (d = (TREE_DEPTH - S n)%nat)) as [-> |]; [done|]. apply Hb. lia.
Qed.

(** A key that is not in the set has an empty path. *)
Lemma absent_on_path key ks :
  is_hash key -> Forall is_hash ks -> key ∉ ks -> on_path TREE_DEPTH key ks = [].
Proof.
  intros Hk Hks Hn. destruct (on_path TREE_DEPTH key ks) as [|k l] eqn:E; [done|]. exfalso.
  destruct (on_path_all TREE_DEPTH key ks k) as [Hin Hb]; [lia|rewrite E; by left|]. apply Hn.
  rewrite Forall_forall in Hks. rewrite <- (key_bits_inj k key); [done|by apply Hks|done|]. intros d Hd. apply Hb. lia.
Qed.

(** The tree of a set with one more key. *)
Lemma siblings_of_cons n key ks : (n <= TREE_DEPTH)%nat -> siblings_of n key (key :: ks) = siblings_of n key ks.
Proof.
  revert ks. induction n as [|n IH]; intros ks Hn; [done|]. cbn [siblings_of]. unfold side.
  rewrite !filter_cons. rewrite decide_False, decide_True by (try done; by destruct (Bit key _)).
  f_equal. apply IH. lia.
Qed.

Lemma on_path_cons n key ks : on_path n key (key :: ks) = key :: on_path n key ks.
Proof.
  revert ks. induction n as [|n IH]; intros ks; [done|]. cbn [on_path]. unfold side at 1. rewrite filter_cons, decide_True by done.
  apply IH.
Qed.

Lemma inserted_root key ks :
  nth 0 (path_from key 0 (OccupiedLeaf key) (siblings_of TREE_DEPTH key ks)) [] = set_root TREE_DEPTH (key :: ks).
Proof.
  rewrite <- (root_of_path TREE_DEPTH key (key :: ks)), on_path_cons, siblings_of_cons by lia.
  by replace (TREE_DEPTH - TREE_DEPTH)%nat with 0%nat by lia.
Qed.

Lemma absent_root key ks :
  on_path TREE_DEPTH key ks = [] ->
  nth 0 (path_from key 0 EmptyLeaf (siblings_of TREE_DEPTH key ks)) [] = set_root TREE_DEPTH ks.
Proof.
  intros E. rewrite <- (root_of_path TREE_DEPTH key ks), E by lia. by replace (TREE_DEPTH - TREE_DEPTH)%nat with 0%nat by lia.
Qed.

(** ** Insertion *)

(** The fixed-size arrays of a proof. *)
Definition wf_proof (p : Proof) : Prop :=
  length (bitmap p) = BITMAP_BYTES /\ is_bytes (bitmap p) /\ Forall is_hash (siblings p).

Lemma EmptyHashes_hash d : is_hash (EmptyHashes d).
Proof. unfold EmptyHashes. rewrite <- set_root_nil. apply set_root_hash. Qed.

Lemma take_siblings_shape n d bm sibs out :
  Forall is_hash sibs -> take_siblings n d bm sibs = Some out -> length out = n /\ Forall is_hash out.
Proof.
  revert d sibs out. induction n as [|n IH]; intros d sibs out Hs; cbn [take_siblings].
  - destruct sibs; [|intros Hx; discriminate Hx]. intros [= <-]. by split.
  - destruct (negb _).
    + destruct (take_siblings n _ _ _) as [o|] eqn:E; [|intros Hx; discriminate Hx]. intros [= <-].
      apply IH in E as [<- Ho]; [|done]. split; [reflexivity|]. constructor; [apply EmptyHashes_hash|done].
    + destruct sibs as [|s sibs]; [intros Hx; discriminate Hx|]. destruct (bytes_eqb _ _); [intros Hx; discriminate Hx|].
      apply Forall_cons in Hs as [Hs1 Hs2]. destruct (take_siblings n _ _ _) as [o|] eqn:E; [|intros Hx; discriminate Hx].
      intros [= <-]. apply IH in E as [<- Ho]; [|done]. split; [reflexivity|]. by constructor.
Qed.

Lemma ExpandSiblings_shape p sibs :
  wf_proof p -> ExpandSiblings p = Some sibs -> length sibs = TREE_DEPTH /\ Forall is_hash sibs.
Proof.
  intros (_ & _ & Hs). unfold ExpandSiblings. destruct (negb _); [intros Hx; discriminate Hx|]. by apply take_siblings_shape.
Qed.

Lemma Insert_inv root o p r :
  Insert root o p = Some r ->
  exists sibs, ExpandSiblings p = Some sibs
  /\ nth 0 (path_from (KeyForOutpoint o) 0 EmptyLeaf sibs) [] = root
  /\ r = nth 0 (path_from (KeyForOutpoint o) 0 (OccupiedLeaf (KeyForOutpoint o)) sibs) [].
Proof.
  unfold Insert, ComputePath. destruct (ExpandSiblings p) as [sibs|]; [|intros Hx; discriminate Hx].
  destruct (bytes_eqb _ root) eqn:E; cbn [negb]; [|intros Hx; discriminate Hx]. intros [= <-]. apply bytes_eqb_eq in E. by exists sibs.
Qed.

Lemma Insert_intro root o p sibs :
  ExpandSiblings p = Some sibs -> nth 0 (path_from (KeyForOutpoint o) 0 EmptyLeaf sibs) [] = root ->
  Insert root o p = Some (nth 0 (path_from (KeyForOutpoint o) 0 (OccupiedLeaf (KeyForOutpoint o)) sibs) []).
Proof. intros E <-. unfold Insert, ComputePath. by rewrite E, bytes_eqb_refl. Qed.

(** The proof does not collide with the tree of the set on the way to its key. *)
Definition honest_insert (ks : list Hash256) (o : bytes) (p : Proof) : Prop :=
  forall sibs, ExpandSiblings p = Some sibs -> honest TREE_DEPTH (KeyForOutpoint o) ks sibs.

Lemma insert_sound ks o p r :
  wf_proof p -> honest_insert ks o p -> Insert (set_root TREE_DEPTH ks) o p = Some r ->
  KeyForOutpoint o ∉ ks /\ r = set_root TREE_DEPTH (KeyForOutpoint o :: ks).
Proof.
  intros Hw Hh (sibs & E & Hr & ->)%Insert_inv. destruct (ExpandSiblings_shape p sibs Hw E) as [Hl Hs].
  destruct (absence_path TREE_DEPTH (KeyForOutpoint o) ks sibs) as [-> Hp]; [lia|done|done|by apply Hh| |].
  { by replace (TREE_DEPTH - TREE_DEPTH)%nat with 0%nat by lia. }
  split; [by apply (not_on_path TREE_DEPTH)|apply inserted_root].
Qed.

(** ** Runs of insertions *)

Fixpoint inserts (root : Hash256) (steps : list (bytes * Proof)) : option Hash256 :=
  match steps with
  | [] => Some root
  | (o, p) :: steps' => match Insert root o p with Some r => inserts r steps' | None => None end
  end.

Fixpoint honest_run (ks : list Hash256) (steps : list (bytes * Proof)) : Prop :=
  match steps with
  | [] => True
  | (o, p) :: steps' => wf_proof p /\ honest_insert ks o p /\ honest_run (KeyForOutpoint o :: ks) steps'
  end.

Definition step_keys (steps : list (bytes * Proof)) : list Hash256 := map (fun s => KeyForOutpoint s.1) steps.

Lemma inserts_spec ks steps r :
  inserts (set_root TREE_DEPTH ks) steps = Some r -> honest_run ks steps ->
  NoDup (step_keys steps) /\ (forall k, k ∈ step_keys steps -> k ∉ ks) /\ r = set_root TREE_DEPTH (rev (step_keys steps) ++ ks).
Proof.
  revert ks. induction steps as [|[o p] steps IH]; intros ks; cbn [inserts honest_run step_keys map fst].
  - intros [= <-] _. split_and!; [constructor|intros k Hk; by apply elem_of_nil in Hk|done].
  - destruct (Insert _ _ _) as [r1|] eqn:E; [|intros Hx; discriminate Hx]. intros Hi (Hw & Hh & Hr).
    apply insert_sound in E as [Hn ->]; [|done|done]. destruct (IH _ Hi Hr) as (Hnd & Hout & ->). fold (step_keys steps) in *.
    split_and!.
    + constructor; [|done]. intros Hin. apply Hout in Hin. apply Hin. by left.
    + intros k [-> |Hk]%elem_of_cons; [done|]. apply Hout in Hk. intros Hin. apply Hk. by right.
    + cbn [rev]. by rewrite <- app_assoc.
Qed.

(** ** Compression *)

(** The siblings that are not defaults, and whether the one at a position is one. *)
Fixpoint non_default (d : nat) (sibs : list Hash256) : list Hash256 :=
  match sibs with
  | [] => []
  | s :: sibs' => if bytes_eqb s (EmptyHashes (S d)) then non_default (S d) sibs' else s :: non_default (S d) sibs'
  end.

(** The bits of a bitmap from a depth on mark the siblings that are not defaults. *)
Fixpoint marks (bm : bytes) (d : nat) (sibs : list Hash256) : Prop :=
  match sibs with
  | [] => True
  | s :: sibs' => Bit bm d = negb (bytes_eqb s (EmptyHashes (S d))) /\ marks bm (S d) sibs'
  end.

Lemma take_marked bm d sibs : marks bm d sibs -> take_siblings (length sibs) d bm (non_default d sibs) = Some sibs.
Proof.
  revert d. induction sibs as [|s sibs IH]; intros d; [done|]. cbn [marks non_default length take_siblings].
  intros [Hb Hm]. unfold BitmapBit. rewrite Hb. destruct (bytes_eqb s _) eqn:E; cbn [negb].
  - rewrite IH by done. apply bytes_eqb_eq in E. by rewrite E.
  - by rewrite E, IH.
Qed.

(** Setting one bit of a bitmap. *)
Lemma bit_lor x k j : 0 <= j -> 0 <= k -> Z.testbit (Z.lor x (2 ^ k)) j = (j =? k) || Z.testbit x j.
Proof.
  intros Hj Hk. rewrite Z.lor_spec, orb_comm. f_equal. destruct (Z.eqb_spec j k) as [-> |Hn].
  - by apply Z.pow2_bits_true.
  - apply Z.pow2_bits_false. congruence.
Qed.

Lemma set_bit_spec bm d e :
  is_bytes bm -> (d < 8 * length bm)%nat ->
  let bm' := SetBitmapBit bm d true in
  length bm' = length bm /\ is_bytes bm' /\ Bit bm' e = bool_decide (e = d) || Bit bm e.
Proof.
  intros Hb Hd bm'. unfold bm', SetBitmapBit. pose proof (Nat.mod_upper_bound d 8 ltac:(lia)) as Hm.
  pose proof (Nat.mod_upper_bound e 8 ltac:(lia)) as Hme. set (k := 7 - Z.of_nat (d mod 8)).
  assert (0 <= k < 8) as Hk by (unfold k; lia).
  assert (0 < 2 ^ k < 2 ^ 8) as Hp by (split; [lia|apply Z.pow_lt_mono_r; lia]).
  rewrite Z.shiftl_1_l, wrap_id by (unfold fits; lia).
  assert (d / 8 < length bm)%nat as Hi by (apply Nat.Div0.div_lt_upper_bound; lia).
  assert (fits 8 (nth (d / 8) bm 0)) as Hx.
  { unfold is_bytes in Hb. rewrite Forall_forall in Hb. apply Hb. apply list_elem_of_In, nth_In. done. }
  split_and!; [apply length_insert| |].
  - apply Forall_insert; [done|]. unfold fits in *. split; [apply Z.lor_nonneg; lia|].
    apply Z.log2_lt_cancel. rewrite Z.log2_lor by lia. rewrite Z.log2_pow2, Z.log2_pow2 by lia.
    assert (Z.log2 (nth (d / 8) bm 0) < 8) by (destruct (Z.eq_dec (nth (d / 8) bm 0) 0) as [-> |]; [cbn; lia|apply Z.log2_lt_pow2; lia]).
    lia.
  - rewrite !Bit_testbit. destruct (decide (e / 8 = d / 8)%nat) as [E|E].
    + rewrite E. erewrite nth_lookup_Some; [|by apply list_lookup_insert_eq]. rewrite bit_lor by lia.
      f_equal. case_bool_decide as Hed; [subst e; apply Z.eqb_refl|]. apply Z.eqb_neq. unfold k. intros He. apply Hed.
      pose proof (Nat.div_mod_eq e 8). pose proof (Nat.div_mod_eq d 8). lia.
    + rewrite !nth_lookup, list_lookup_insert_ne by done. rewrite bool_decide_eq_false_2; [done|]. intros ->. done.
Qed.

Lemma compress_loop_spec d sibs out :
  length (bitmap out) = BITMAP_BYTES -> is_bytes (bitmap out) -> (d + length sibs <= 256)%nat ->
  (forall i, (d <= i)%nat -> Bit (bitmap out) i = false) ->
  let p := compress_loop d sibs out in
  length (bitmap p) = BITMAP_BYTES /\ is_bytes (bitmap p) /\ siblings p = siblings out ++ non_default d sibs
  /\ (forall i, (i < d)%nat -> Bit (bitmap p) i = Bit (bitmap out) i) /\ marks (bitmap p) d sibs
  /\ (forall i, (d + length sibs <= i)%nat -> Bit (bitmap p) i = false).
Proof.
  revert d out. induction sibs as [|s sibs IH]; intros d out Hl Hb Hd Hz p; unfold p; cbn [compress_loop length non_default marks] in *.
  - rewrite app_nil_r. split_and!; try done. intros i Hi. apply Hz. lia.
  - set (out' := if bytes_eqb s _ then out else _).
    assert (length (bitmap out') = BITMAP_BYTES /\ is_bytes (bitmap out')
            /\ (forall i, Bit (bitmap out') i = if decide (i = d) then negb (bytes_eqb s (EmptyHashes (S d))) else Bit (bitmap out) i))
      as (Hl' & Hb' & Hbits).
    { unfold out'. destruct (bytes_eqb s _); cbn [negb bitmap].
      - split_and!; try done. intros i. destruct (decide (i = d)) as [-> |]; [by apply Hz|done].
      - destruct (set_bit_spec (bitmap out) d 0 Hb) as (H1 & H2 & _); [rewrite Hl; unfold BITMAP_BYTES; lia|].
        split_and!; [by rewrite H1|done|]. intros i. destruct (set_bit_spec (bitmap out) d i Hb) as (_ & _ & ->); [rewrite Hl; unfold BITMAP_BYTES; lia|].
        destruct (decide (i = d)); [by rewrite bool_decide_eq_true_2|by rewrite bool_decide_eq_false_2]. }
    destruct (IH (S d) out' Hl' Hb' ltac:(lia)) as (P1 & P2 & P3 & P4 & P5 & P6).
    { intros i Hi. rewrite Hbits, decide_False by lia. apply Hz. lia. }
    split_and!; try done.
    + rewrite P3. unfold out'. destruct (bytes_eqb s _); [done|]. cbn [siblings]. by rewrite <- app_assoc.
    + intros i Hi. rewrite P4, Hbits, decide_False by lia. done.
    + rewrite P4, Hbits, decide_True by lia. done.
    + intros i Hi. apply P6. lia.
Qed.

(** ** Population count *)

Lemma byte_popcount_acc f b n : byte_popcount f b n = (n + byte_popcount f b 0)%nat.
Proof.
  revert b n. induction f as [|f IH]; intros b n; cbn [byte_popcount]; [lia|]. destruct (b =? 0); [lia|].
  rewrite IH, (IH _ 1%nat). lia.
Qed.

Definition count_bits (bm : bytes) (d n : nat) : nat := length (filter (fun i => Bit bm i = true) (seq d n)).

Lemma count_bits_S bm d n : count_bits bm d (S n) = ((if Bit bm d then 1 else 0) + count_bits bm (S d) n)%nat.
Proof. unfold count_bits. cbn [seq]. rewrite filter_cons. destruct (Bit bm d); [by rewrite decide_True|by rewrite decide_False]. Qed.

Lemma byte_popcount_bits b : fits 8 b -> byte_popcount 8 b 0 = count_bits [b] 0 8.
Proof.
  intros Hb. assert (forallb (fun b => (byte_popcount 8 b 0 =? count_bits [b] 0 8)%nat) (map Z.of_nat (seq 0 256)) = true) as H
    by (vm_compute; reflexivity).
  rewrite forallb_forall in H. apply Nat.eqb_eq, H, in_map_iff. exists (Z.to_nat b). unfold fits in Hb. split; [lia|]. apply in_seq. lia.
Qed.

Lemma count_bits_tail b bm d n : count_bits (b :: bm) (8 + d) n = count_bits bm d n.
Proof.
  revert d. induction n as [|n IH]; intros d; [done|]. rewrite !count_bits_S. f_equal; [|apply (IH (S d))].
  rewrite !Bit_testbit. change (8 + d)%nat with (1 * 8 + d)%nat. rewrite Nat.div_add_l by lia.
  rewrite (Nat.add_comm (1 * 8) d), Nat.Div0.mod_add. done.
Qed.

Lemma count_bits_cons b bm n : count_bits (b :: bm) 0 (8 + n) = (count_bits [b] 0 8 + count_bits bm 0 n)%nat.
Proof.
  rewrite <- (count_bits_tail b bm 0 n). change (8 + n)%nat with (S (S (S (S (S (S (S (S n)))))))). rewrite !count_bits_S.
  change (count_bits [b] 8 0) with 0%nat. cbn [Nat.add].
  assert (forall i, (i < 8)%nat -> Bit (b :: bm) i = Bit [b] i) as Hb.
  { intros i Hi. rewrite !Bit_testbit, !Nat.div_small by lia. done. }
  rewrite !Hb by lia. lia.
Qed.

Lemma BitmapPopcount_bits bm : is_bytes bm -> BitmapPopcount bm = count_bits bm 0 (8 * length bm).
Proof.
  unfold BitmapPopcount. assert (forall l n, is_bytes l -> foldl (fun n b => byte_popcount 8 b n) n l = (n + count_bits l 0 (8 * length l))%nat) as H.
  { intros l. induction l as [|b l IH]; intros n Hl; [cbn; unfold count_bits; cbn; lia|]. apply Forall_cons in Hl as [Hb Hl].
    cbn [foldl length]. rewrite IH, byte_popcount_acc, byte_popcount_bits by done.
    replace (8 * S (length l))%nat with (8 + 8 * length l)%nat by lia. rewrite count_bits_cons. lia. }
  intros Hb. by rewrite H.
Qed.

Lemma marks_count bm d sibs : marks bm d sibs -> count_bits bm d (length sibs) = length (non_default d sibs).
Proof.
  revert d. induction sibs as [|s sibs IH]; intros d; [done|]. cbn [marks length non_default]. intros [Hb Hm].
  rewrite count_bits_S, Hb, IH by done. by destruct (bytes_eqb s _).
Qed.

(** A full set of siblings survives compression. *)
Lemma expand_compress sibs :
  length sibs = 256%nat -> Forall is_hash sibs ->
  wf_proof (CompressSiblings sibs) /\ ExpandSiblings (CompressSiblings sibs) = Some sibs.
Proof.
  intros Hl Hs. unfold CompressSiblings.
  destruct (compress_loop_spec 0 sibs EmptyProof) as (P1 & P2 & P3 & _ & P5 & _); [done| |lia| |].
  { apply Forall_replicate. by split. }
  { intros i _. rewrite Bit_testbit. unfold EmptyProof. cbn [bitmap].
    destruct (nth_in_or_default (i / 8) (replicate BITMAP_BYTES 0) 0) as [Hin| ->]; [|apply Z.testbit_0_l].
    apply list_elem_of_In, elem_of_replicate in Hin as [Hin _]. rewrite Hin. apply Z.testbit_0_l. }
  set (p := compress_loop 0 sibs EmptyProof) in *. cbn [siblings EmptyProof app] in P3.
  assert (take_siblings 256 0 (bitmap p) (siblings p) = Some sibs) as Ht by (rewrite P3, <- Hl; by apply take_marked).
  split.
  - split; [done|]. split; [done|]. rewrite P3. clear - Hs. generalize 0%nat as d. induction Hs as [|s sibs H Hs IH]; intros d; [constructor|].
    cbn [non_default]. destruct (bytes_eqb s _); [apply IH|constructor; [done|apply IH]].
  - unfold ExpandSiblings, IsCanonicalProof. change TREE_DEPTH with 256%nat. rewrite Ht.
    rewrite BitmapPopcount_bits, P1 by done. change (8 * BITMAP_BYTES)%nat with 256%nat. rewrite <- Hl, (marks_count _ _ _ P5), P3.
    by rewrite Nat.eqb_refl.
Qed.
