(* ===== verification/RedeemArchiveRules.v ===== *)
(** * Rules of the redemption archive

    The tree that a root stands for, and that walking and grafting act on it as lookup and
    insertion on a finite map.  [U] is a set of records without a collision of their hashes
    that contains the records the database accepts. *)
From S2P Require Import Prelude Bytes Sha256 StateDigest MintNullifier NullifierRules RedeemArchive.
Import RedeemArchive.

#[local] Opaque sha256 sha256_domain.

(** ** Trees *)

Inductive tree :=
  | TLeaf (k v : bytes)
  | TBranch (d : nat) (l r : tree).

Fixpoint record_of (t : tree) : bytes :=
  match t with
  | TLeaf k v => Leaf k v
  | TBranch d l r => Branch d (HashRecord (record_of l)) (HashRecord (record_of r))
  end.
Abbreviation hash_of t := (HashRecord (record_of t)).

Fixpoint entries (t : tree) : gmap bytes bytes :=
  match t with
  | TLeaf k v => {[k := v]}
  | TBranch _ l r => entries l ∪ entries r
  end.

(** Branches test increasing bits; the keys below one agree on the bits before it. *)
Definition agree (n : nat) (a b : bytes) : Prop := forall i, (i < n)%nat -> Bit a i = Bit b i.
Fixpoint wf (lo : nat) (t : tree) : Prop :=
  match t with
  | TLeaf k _ => is_hash k
  | TBranch d l r =>
      (lo <= d < 256)%nat /\ wf (S d) l /\ wf (S d) r
      /\ (forall k, is_Some (entries l !! k) -> Bit k d = false)
      /\ (forall k, is_Some (entries r !! k) -> Bit k d = true)
      /\ (forall a b, is_Some (entries (TBranch d l r) !! a) -> is_Some (entries (TBranch d l r) !! b) -> agree d a b)
  end.

Fixpoint stored (st : Store) (t : tree) : Prop :=
  st !! HashToHex (hash_of t) = Some (record_of t)
  /\ match t with TLeaf _ _ => True | TBranch _ l r => stored st l /\ stored st r end.

(** The leaf where a key ends. *)
Fixpoint terminal (key : bytes) (t : tree) : bytes * bytes :=
  match t with
  | TLeaf k v => (k, v)
  | TBranch d l r => terminal key (if Bit key d then r else l)
  end.

Lemma terminal_some key t : is_Some (entries t !! (terminal key t).1).
Proof.
  induction t as [k v|d l IHl r IHr]; cbn [entries terminal fst]; [by rewrite lookup_singleton_eq|].
  apply lookup_union_is_Some. destruct (Bit key d); [by right|by left].
Qed.

Lemma entries_branch d l r lo k :
  wf lo (TBranch d l r) -> entries (TBranch d l r) !! k = if Bit k d then entries r !! k else entries l !! k.
Proof.
  intros (_ & _ & _ & Hl & Hr & _). cbn [entries]. destruct (Bit k d) eqn:E.
  - apply lookup_union_r. destruct (entries l !! k) eqn:El; [|reflexivity]. rewrite (Hl k) in E by by eexists. done.
  - apply lookup_union_l. destruct (entries r !! k) eqn:Er; [|reflexivity]. rewrite (Hr k) in E by by eexists. done.
Qed.

(** Looking a key up is walking to its leaf. *)
Lemma lookup_terminal lo t key :
  wf lo t -> entries t !! key = if bytes_eqb (terminal key t).1 key then Some ((terminal key t).2) else None.
Proof.
  revert lo. induction t as [k v|d l IHl r IHr]; intros lo Hwf.
  - cbn [entries terminal fst snd]. destruct (bytes_eqb k key) eqn:E.
    + apply bytes_eqb_eq in E as ->. by rewrite lookup_singleton_eq.
    + rewrite lookup_singleton_ne; [reflexivity|]. intros ->. by rewrite bytes_eqb_refl in E.
  - rewrite (entries_branch _ _ _ _ _ Hwf). destruct Hwf as (_ & Hl & Hr & _). cbn [terminal].
    destruct (Bit key d); [by eapply IHr|by eapply IHl].
Qed.

Lemma wf_mono lo lo' t : (lo' <= lo)%nat -> wf lo t -> wf lo' t.
Proof. destruct t; cbn [wf]; [done|]. intros H (Hd & Hr). split; [lia|exact Hr]. Qed.

Lemma wf_keys lo t k : wf lo t -> is_Some (entries t !! k) -> is_hash k.
Proof.
  revert lo. induction t as [k' v|d l IHl r IHr]; intros lo Hwf [x Hx].
  - cbn [entries] in Hx. apply lookup_singleton_Some in Hx as [-> _]. exact Hwf.
  - rewrite (entries_branch _ _ _ _ _ Hwf) in Hx. destruct Hwf as (_ & Hl & Hr & _).
    destruct (Bit k d); [eapply IHr|eapply IHl]; eauto.
Qed.

(** ** Insertion *)

Definition fork (s : nat) (key value : bytes) (t : tree) : tree :=
  if Bit key s then TBranch s t (TLeaf key value) else TBranch s (TLeaf key value) t.

Fixpoint ins (s : nat) (key value : bytes) (t : tree) : tree :=
  match t with
  | TLeaf _ _ => fork s key value t
  | TBranch d l r =>
      if (d <? s)%nat then if Bit key d then TBranch d l (ins s key value r) else TBranch d (ins s key value l) r
      else fork s key value t
  end.

(** [s] is the first bit on which the key leaves the leaf where its walk ends. *)
Definition split_at_leaf (s : nat) (key : bytes) (t : tree) : Prop :=
  (s < 256)%nat /\ agree s key (terminal key t).1 /\ Bit key s <> Bit (terminal key t).1 s.

Lemma fork_entries s key value t :
  entries t !! key = None -> entries (fork s key value t) = <[key := value]> (entries t).
Proof.
  intros Hn. unfold fork. destruct (Bit key s); cbn [entries].
  - rewrite insert_union_singleton_r by exact Hn. reflexivity.
  - by rewrite insert_union_singleton_l.
Qed.

(** Below a branch that is not before the split, every key leaves at the split. *)
Lemma fork_wf lo s key value t :
  is_hash key -> (lo <= s < 256)%nat -> wf (S s) t ->
  (forall k, is_Some (entries t !! k) -> agree s key k /\ Bit k s = negb (Bit key s)) -> wf lo (fork s key value t).
Proof.
  intros Hk Hs Ht Hall.
  assert (forall k, is_Some (entries (TLeaf key value) !! k) -> k = key) as Hleaf.
  { intros k [x Hx]. cbn [entries] in Hx. by apply lookup_singleton_Some in Hx as [-> _]. }
  assert (forall k, is_Some (entries t !! k) \/ is_Some (entries (TLeaf key value) !! k) -> agree s key k) as Hag.
  { intros k [H|H]; [by apply Hall|]. rewrite (Hleaf k H). by intros i. }
  unfold fork. destruct (Bit key s) eqn:E; cbn [wf]; split_and!; try lia; try assumption.
  - intros k H. by apply Hall in H as [_ ->].
  - intros k H. by rewrite (Hleaf k H).
  - cbn [entries]. intros a b Ha Hb i Hi. rewrite lookup_union_is_Some in Ha, Hb.
    rewrite <- (Hag a Ha i Hi). by apply (Hag b Hb).
  - intros k H. by rewrite (Hleaf k H).
  - intros k H. by apply Hall in H as [_ ->].
  - cbn [entries]. intros a b Ha Hb i Hi. rewrite lookup_union_is_Some in Ha, Hb.
    rewrite <- (Hag a ltac:(tauto) i Hi). apply (Hag b); [tauto|exact Hi].
Qed.

Lemma split_subtree lo s key t :
  split_at_leaf s key t -> wf lo t -> (match t with TBranch d _ _ => (s <= d)%nat | TLeaf _ _ => True end) ->
  wf (S s) t /\ forall k, is_Some (entries t !! k) -> agree s key k /\ Bit k s = negb (Bit key s).
Proof.
  intros (Hs & Hag & Hne) Hwf Hd. pose proof (terminal_some key t) as Hin.
  destruct t as [k v|d l r].
  - split; [exact Hwf|]. intros k' [x Hx]. cbn [entries terminal fst] in *. apply lookup_singleton_Some in Hx as [<- _].
    split; [exact Hag|]. destruct (Bit key s), (Bit k s); done.
  - assert (d <> s) as Hds.
    { intros ->. pose proof (entries_branch _ _ _ _ (terminal key (TBranch s l r)).1 Hwf) as E. rewrite E in Hin. clear E.
      destruct Hwf as (_ & _ & _ & Hl & Hr & _). cbn [terminal] in Hin, Hne.
      destruct (Bit key s) eqn:Ek.
      - pose proof (Hr _ (terminal_some key r)). congruence.
      - pose proof (Hl _ (terminal_some key l)). congruence. }
    split; [destruct Hwf as (? & H); split; [lia|exact H]|]. intros k Hk.
    destruct Hwf as (_ & _ & _ & _ & _ & Hall). specialize (Hall _ k Hin Hk). split.
    + intros i Hi. rewrite (Hag i Hi). apply Hall. lia.
    + rewrite <- (Hall s) by lia. destruct (Bit key s), (Bit _ s); done.
Qed.

Lemma split_child s key d l r :
  split_at_leaf s key (TBranch d l r) -> split_at_leaf s key (if Bit key d then r else l).
Proof. done. Qed.

Lemma ins_entries lo s key value t :
  wf lo t -> entries t !! key = None -> entries (ins s key value t) = <[key := value]> (entries t).
Proof.
  revert lo. induction t as [k v|d l IHl r IHr]; intros lo Hwf Hn; cbn [ins]; [by apply fork_entries|].
  destruct (_ <? _)%nat; [|by apply fork_entries]. pose proof (entries_branch _ _ _ _ key Hwf) as E. rewrite Hn in E.
  destruct Hwf as (_ & Hl & Hr & Bl & Br & _). destruct (Bit key d) eqn:Eb; cbn [entries].
  - rewrite (IHr _ Hr) by done. rewrite insert_union_r; [reflexivity|].
    destruct (entries l !! key) eqn:El; [|reflexivity]. rewrite (Bl key) in Eb by by eexists. done.
  - rewrite (IHl _ Hl) by done. by rewrite insert_union_l.
Qed.

Lemma ins_some lo s key value t k :
  wf lo t -> entries t !! key = None -> is_Some (entries (ins s key value t) !! k) <-> k = key \/ is_Some (entries t !! k).
Proof.
  intros Hwf Hn. rewrite (ins_entries _ _ _ _ _ Hwf Hn). rewrite lookup_insert_is_Some. destruct (decide (key = k)) as [->|]; [split; by left|].
  split; [intros [?|[_ ?]]; [done|by right]|intros [->|?]; [done|right; by split]].
Qed.

Lemma ins_wf lo s key value t :
  is_hash key -> (lo <= s)%nat -> wf lo t -> split_at_leaf s key t -> entries t !! key = None -> wf lo (ins s key value t).
Proof.
  intros Hk. revert lo. induction t as [k v|d l IHl r IHr]; intros lo Hlo Hwf Hsp Hn; cbn [ins].
  { destruct (split_subtree _ _ _ _ Hsp Hwf I) as [H1 H2]. apply fork_wf; try done. destruct Hsp. lia. }
  destruct (Nat.ltb_spec d s) as [Hd|Hd].
  2:{ destruct (split_subtree _ _ _ _ Hsp Hwf Hd) as [H1 H2]. apply fork_wf; try done. destruct Hsp. lia. }
  pose proof (entries_branch _ _ _ _ key Hwf) as E. rewrite Hn in E. pose proof (split_child _ _ _ _ _ Hsp) as Hc.
  assert (agree d key (terminal key (TBranch d l r)).1) as Hag by (intros i Hi; apply Hsp; lia).
  pose proof (terminal_some key (TBranch d l r)) as Hin.
  pose proof Hwf as (Hb & Hl & Hr & Bl & Br & Hall).
  assert (forall a, a = key \/ is_Some (entries (TBranch d l r) !! a) -> agree d key a) as Hall'.
  { intros a [->|Ha]; [by intros i|]. intros i Hi. rewrite (Hag i Hi). by apply (Hall _ a Hin Ha). }
  assert (forall x y, (forall a, is_Some (entries (TBranch d x y) !! a) -> a = key \/ is_Some (entries (TBranch d l r) !! a)) ->
    forall a b, is_Some (entries (TBranch d x y) !! a) -> is_Some (entries (TBranch d x y) !! b) -> agree d a b) as Hfin.
  { intros x y Hxy a b Ha%Hxy Hb'%Hxy i Hi. rewrite <- (Hall' a Ha i Hi). by apply (Hall' b Hb'). }
  destruct (Bit key d) eqn:Ek; symmetry in E; cbn [wf]; split_and!; try lia; try assumption.
  - by apply IHr.
  - intros k [->|H]%(ins_some _ _ _ _ _ _ Hr E); [exact Ek|by apply Br].
  - apply Hfin. intros a. cbn [entries]. rewrite !lookup_union_is_Some, (ins_some _ _ _ _ _ _ Hr E). tauto.
  - by apply IHl.
  - intros k [->|H]%(ins_some _ _ _ _ _ _ Hl E); [exact Ek|by apply Bl].
  - apply Hfin. intros a. cbn [entries]. rewrite !lookup_union_is_Some, (ins_some _ _ _ _ _ _ Hl E). tauto.
Qed.

(** ** The database *)

Lemma HashRecord_hash r : is_hash (HashRecord r).
Proof. apply sha256_domain_hash. Qed.

Lemma HashToHex_inj a b : is_hash a -> is_hash b -> HashToHex a = HashToHex b -> a = b.
Proof. intros [_ Ha] [_ Hb]. by apply BytesToHex_inj. Qed.

Lemma Leaf_parts k v :
  is_hash k -> 33 <= size (Leaf k v) /\ ReadHash (Leaf k v) 1 = k /\ drop 33 (Leaf k v) = v.
Proof.
  intros [Hk _]. unfold Leaf, ReadHash, size. cbn [length drop]. rewrite length_app, Hk. split; [lia|].
  rewrite drop_0. split; [by rewrite take_app_length'|by rewrite drop_app_length'].
Qed.

Lemma Branch_parts d a b :
  (d < 256)%nat -> is_hash a -> is_hash b ->
  size (Branch d a b) = 67 /\ Z.lor (nth 1 (Branch d a b) 0) (Z.shiftl (nth 2 (Branch d a b) 0) 8) = Z.of_nat d
  /\ ReadHash (Branch d a b) 3 = a /\ ReadHash (Branch d a b) 35 = b.
Proof.
  intros Hd [Ha _] [Hb _]. unfold Branch, ReadHash, size. cbn [length drop nth]. rewrite length_app, Ha, Hb. split; [done|]. split_and!.
  - rewrite Z.shiftr_div_pow2, Z.div_small by lia. rewrite Z.shiftl_0_l, Z.lor_0_r.
    change 255 with (Z.ones 8). rewrite Z.land_ones, Z.mod_small by lia. reflexivity.
  - rewrite drop_0. by rewrite take_app_length'.
  - rewrite drop_app_length' by done. by rewrite <- Hb, firstn_all.
Qed.

Lemma stored_mono st st' t : st ⊆ st' -> stored st t -> stored st' t.
Proof.
  intros Hs. induction t as [k v|d l IHl r IHr]; cbn [stored]; intros [H1 H2].
  - split; [by eapply lookup_weaken|done].
  - split; [by eapply lookup_weaken|]. destruct H2. split; auto.
Qed.

Section Database.
Context (U : bytes -> Prop) (write_ : Records -> bool).
Hypothesis U_inj : forall a b, U a -> U b -> HashRecord a = HashRecord b -> a = b.
Hypothesis U_empty : U [2].
Hypothesis U_write : forall recs, write_ recs = true -> Forall (fun r => U r.2) recs.

Definition store_ok (st : Store) : Prop := forall k r, st !! k = Some r -> k = HashToHex (HashRecord r) /\ U r.

Lemma record_used st t : store_ok st -> stored st t -> U (record_of t).
Proof. intros Hst Hs. destruct t; destruct Hs as [H _]; by apply Hst in H as [_ H]. Qed.

Lemma hash_not_empty st t : store_ok st -> stored st t -> bytes_eqb (hash_of t) EmptyRoot = false.
Proof.
  intros Hst Hs. destruct (bytes_eqb _ _) eqn:E; [|reflexivity]. apply bytes_eqb_eq in E.
  apply U_inj in E; [|by eapply record_used|exact U_empty]. by destruct t.
Qed.

Lemma Load_spec st lo t :
  store_ok st -> stored st t -> wf lo t ->
  Load st (hash_of t) = Some (match t with
                              | TLeaf k v => LeafNode k v
                              | TBranch d l r => BranchNode d (hash_of l) (hash_of r)
                              end).
Proof.
  intros Hst Hs Hwf. unfold Load. pose proof Hs as Hs'. destruct t as [k v|d l r].
  - destruct Hs as [-> _]. cbn [record_of wf] in *. rewrite bytes_eqb_refl. destruct (Leaf_parts k v Hwf) as (H1 & -> & ->).
    rewrite (proj2 (Z.eqb_neq _ 0)) by lia. rewrite (proj2 (Z.leb_le 33 _)) by exact H1. reflexivity.
  - destruct Hs as [-> [Hl Hr]]. cbn [record_of] in *. rewrite bytes_eqb_refl. destruct Hwf as (Hd & _).
    destruct (Branch_parts d (hash_of l) (hash_of r)) as (H1 & H2 & H3 & H4); [lia|apply HashRecord_hash..|].
    rewrite H1, H2, H3, H4, (hash_not_empty st l), (hash_not_empty st r) by assumption.
    rewrite (proj2 (Z.leb_gt 256 (Z.of_nat d))) by lia. rewrite Nat2Z.id. reflexivity.
Qed.

Fixpoint path_of (key : bytes) (t : tree) : list Step :=
  match t with
  | TLeaf _ _ => []
  | TBranch d l r => mkStep d (hash_of l) (hash_of r) (hash_of t) :: path_of key (if Bit key d then r else l)
  end.
Definition leaf_hash (key : bytes) (t : tree) : Hash256 := HashRecord (Leaf (terminal key t).1 (terminal key t).2).

Lemma get_loop_spec st lo t key fuel previous :
  store_ok st -> stored st t -> wf lo t -> (256 - lo < fuel)%nat -> previous < Z.of_nat lo ->
  get_loop st fuel (hash_of t) previous key = Some (entries t !! key).
Proof.
  intros Hst. revert lo fuel previous. induction t as [k v|d l IHl r IHr]; intros lo fuel previous Hs Hwf Hf Hp;
    (destruct fuel as [|fuel]; [lia|]); cbn [get_loop]; rewrite (Load_spec st lo) by assumption.
  - rewrite (lookup_terminal _ _ _ Hwf). reflexivity.
  - rewrite (entries_branch _ _ _ _ _ Hwf). destruct Hs as [_ [Hl Hr]]. destruct Hwf as (Hd & Wl & Wr & _).
    rewrite (proj2 (Z.leb_gt _ _)) by lia. destruct (Bit key d); [eapply IHr|eapply IHl]; try eassumption; lia.
Qed.

Lemma walk_spec st lo t key fuel previous :
  store_ok st -> stored st t -> wf lo t -> (256 - lo < fuel)%nat -> previous < Z.of_nat lo ->
  walk st fuel (hash_of t) previous key = Some (path_of key t, (leaf_hash key t, (terminal key t).1, (terminal key t).2)).
Proof.
  intros Hst. revert lo fuel previous. induction t as [k v|d l IHl r IHr]; intros lo fuel previous Hs Hwf Hf Hp;
    (destruct fuel as [|fuel]; [lia|]); cbn [walk path_of terminal fst snd]; rewrite (Load_spec st lo) by assumption; [reflexivity|].
  destruct Hs as [_ [Hl Hr]]. destruct Hwf as (Hd & Wl & Wr & _). rewrite (proj2 (Z.leb_gt _ _)) by lia.
  destruct (Bit key d) eqn:Eb; [rewrite (IHr (S d)) by (assumption || lia)|rewrite (IHl (S d)) by (assumption || lia)];
    unfold leaf_hash; cbn [terminal]; by rewrite Eb.
Qed.

(** ** Grafting *)

Definition keyed (r : bytes * bytes) : Prop := r.1 = HashToHex (HashRecord r.2).
Definition contains (st : Store) (recs : Records) : Prop := Forall (fun r => st !! r.1 = Some r.2) recs.

Lemma graft_spec s key value t :
  exists recs, graft key value (path_of key t) (leaf_hash key t) s = (recs, hash_of (ins s key value t))
  /\ Forall keyed recs /\ forall st, contains st recs -> stored st t -> stored st (ins s key value t).
Proof.
  unfold graft. cbn [Stage app]. cbv zeta.
  assert (forall t, exists recs,
    (if Bit key s then Stage [(HashToHex (HashRecord (Leaf key value)), Leaf key value)] (Branch s (hash_of t) (HashRecord (Leaf key value)))
     else Stage [(HashToHex (HashRecord (Leaf key value)), Leaf key value)] (Branch s (HashRecord (Leaf key value)) (hash_of t)))
    = (recs, hash_of (fork s key value t)) /\ Forall keyed recs
    /\ forall st, contains st recs -> stored st t -> stored st (fork s key value t)) as Hfork.
  { clear t. intros t. unfold fork. destruct (Bit key s); eexists; (split; [reflexivity|]);
      (split; [repeat constructor|]); intros st Hc Ht; unfold contains in Hc; cbn [app] in Hc;
      apply Forall_cons in Hc as [H1 Hc]; apply Forall_cons in Hc as [H2 _]; cbn [stored record_of fst snd] in *; tauto. }
  induction t as [k v|d l IHl r IHr]; cbn [ins path_of count_ancestors s_depth].
  { cbn [take rev foldl lookup list_lookup]. apply (Hfork (TLeaf k v)). }
  destruct (d <? s)%nat; [|cbn [take rev foldl lookup list_lookup s_hash]; apply (Hfork (TBranch d l r))].
  cbn [take rev]. rewrite foldl_app. cbn [foldl].
  match goal with |- context [(_ :: ?p) !! S ?n] => change ((_ :: p) !! S n) with (p !! n) end. unfold leaf_hash in *. cbn [terminal].
  destruct (Bit key d) eqn:Eb.
  - destruct IHr as (recs & -> & Hk & Hst). eexists. unfold restage. cbn [s_depth s_left s_right fst snd]. rewrite Eb. cbn [Stage].
    split; [reflexivity|]. split; [apply Forall_app; split; [exact Hk|repeat constructor]|].
    intros st Hc [_ [Hl Hr]]. apply Forall_app in Hc as [Hc H1]. apply Forall_cons in H1 as [H1 _]. cbn [stored]. auto.
  - destruct IHl as (recs & -> & Hk & Hst). eexists. unfold restage. cbn [s_depth s_left s_right fst snd]. rewrite Eb. cbn [Stage].
    split; [reflexivity|]. split; [apply Forall_app; split; [exact Hk|repeat constructor]|].
    intros st Hc [_ [Hl Hr]]. apply Forall_app in Hc as [Hc H1]. apply Forall_cons in H1 as [H1 _]. cbn [stored]. auto.
Qed.

Lemma put_all_spec st recs :
  store_ok st -> Forall keyed recs -> Forall (fun r => U r.2) recs ->
  st ⊆ put_all st recs /\ store_ok (put_all st recs) /\ contains (put_all st recs) recs.
Proof.
  revert st. unfold put_all. induction recs as [|[k r] recs IH]; intros st Hst Hk Hu; cbn [foldl]; [split_and!; [done|exact Hst|constructor]|].
  apply Forall_cons in Hk as [Hk1 Hk]. apply Forall_cons in Hu as [Hu1 Hu]. cbn [fst snd] in *. unfold keyed in Hk1. cbn [fst snd] in Hk1.
  assert (store_ok (<[k := r]> st)) as Hst1.
  { intros k' r' [[-> ->]|[_ H]]%lookup_insert_Some; [by split|by apply Hst]. }
  assert (st ⊆ <[k := r]> st) as Hsub.
  { apply map_subseteq_spec. intros k' r' H. apply lookup_insert_Some. destruct (decide (k = k')) as [->|Hne]; [left|right; by split].
    split; [reflexivity|]. destruct (Hst _ _ H) as [E Hr']. rewrite Hk1 in E. apply HashToHex_inj in E; [|apply HashRecord_hash..]. by apply U_inj. }
  destruct (IH _ Hst1 Hk Hu) as (H1 & H2 & H3). split_and!; [by etrans|exact H2|]. constructor; [|exact H3]. cbn [fst snd].
  eapply lookup_weaken; [|exact H1]. apply lookup_insert_eq.
Qed.

(** ** Roots stand for maps *)

Definition holds (st : Store) (root : Root) (m : gmap bytes bytes) : Prop :=
  root_count root = Z.of_nat (base.size m)
  /\ ((m = ∅ /\ root_hash root = EmptyRoot)
      \/ exists t, wf 0 t /\ stored st t /\ root_hash root = hash_of t /\ entries t = m).

Lemma holds_mono st st' root m : st ⊆ st' -> holds st root m -> holds st' root m.
Proof.
  intros Hs [Hc [H|(t & H1 & H2 & H3 & H4)]]; (split; [exact Hc|]); [by left|]. right. exists t. split_and!; try assumption. by eapply stored_mono.
Qed.

Lemma tree_nonempty t : entries t <> ∅.
Proof. intros E. destruct (terminal_some [] t) as [x Hx]. by rewrite E in Hx. Qed.

Lemma size_nonzero {A} (m : gmap bytes A) : m <> ∅ -> Z.of_nat (base.size m) <> 0.
Proof. intros H E. apply H, map_size_empty_iff. lia. Qed.

Lemma holds_root st root m :
  store_ok st -> holds st root m ->
  CheckRoot root = true /\ ((m = ∅ /\ root_count root = 0) \/ (root_count root <> 0 /\
    exists t, wf 0 t /\ stored st t /\ root_hash root = hash_of t /\ entries t = m)).
Proof.
  intros Hst [Hc [[-> Hh]|(t & H1 & H2 & H3 & <-)]]; unfold CheckRoot.
  - rewrite Hc, Hh, bytes_eqb_refl, map_size_empty. split; [reflexivity|left; split; reflexivity].
  - pose proof (size_nonzero _ (tree_nonempty t)) as Hz. rewrite Hc, H3, (hash_not_empty st t) by assumption.
    rewrite (proj2 (Z.eqb_neq _ 0) Hz). split; [reflexivity|]. right. split; [exact Hz|]. by exists t.
Qed.

(** Looking up is exact, and needs at most 257 records. *)
Lemma Get_spec st root m key : store_ok st -> holds st root m -> Get st root key = Some (m !! key).
Proof.
  intros Hst Hh. unfold Get. destruct (holds_root _ _ _ Hst Hh) as [-> [[-> ->]|(Hz & t & H1 & H2 & -> & <-)]]; [reflexivity|].
  rewrite (proj2 (Z.eqb_neq _ 0) Hz). apply (get_loop_spec st 0 t key WALK (-1)); (assumption || (unfold WALK; lia)).
Qed.

Lemma first_difference_spec a b fuel i :
  let s := first_difference a b fuel i in
  (i <= s <= i + fuel)%nat /\ (forall j, (i <= j < s)%nat -> Bit a j = Bit b j) /\ ((s < i + fuel)%nat -> Bit a s <> Bit b s).
Proof.
  revert i. induction fuel as [|fuel IH]; intros i; cbn [first_difference]; [split_and!; intros; lia|].
  destruct (Bool.eqb (Bit a i) (Bit b i)) eqn:E.
  - apply Bool.eqb_prop in E. destruct (IH (S i)) as (H1 & H2 & H3). split_and!; [lia|lia| |intros; apply H3; lia].
    intros j Hj. destruct (decide (j = i)) as [->|]; [exact E|]. apply H2. lia.
  - apply Bool.eqb_false_iff in E. split_and!; [lia|lia|intros; lia|intros _; exact E].
Qed.

(** The new root stands for the new map when the database accepts the staged records. *)
Definition inserted (st : Store) (root : Root) (m : gmap bytes bytes) (key value : bytes) (r : option (Store * Root * bool)) : Prop :=
  exists recs st' root', r = (if write_ recs then Some (st', root', true) else None)
  /\ (write_ recs = true -> store_ok st' /\ st ⊆ st' /\ holds st' root' (<[key := value]> m)).

Lemma publish_spec st root m key value recs h t' :
  store_ok st -> holds st root m -> m !! key = None -> Forall keyed recs ->
  wf 0 t' -> entries t' = <[key := value]> m -> h = hash_of t' -> (forall st', st ⊆ st' -> contains st' recs -> stored st' t') ->
  inserted st root m key value (publish write_ st root (recs, h)).
Proof.
  intros Hst [Hc _] Hn Hk Hwf He -> Hs. exists recs. unfold publish. cbn [fst snd]. eexists _, _. split; [by destruct (write_ recs)|].
  intros Ew. destruct (put_all_spec st recs Hst Hk (U_write _ Ew)) as (H1 & H2 & H3). split_and!; try assumption.
  split; cbn [root_count root_hash].
  - rewrite map_size_insert_None by exact Hn. lia.
  - right. exists t'. split_and!; try assumption; [by apply Hs|reflexivity].
Qed.

(** Inserting a new key extends the map and keeps every older root readable; an existing
    key is kept when the value is the same and refused otherwise. *)
Lemma Insert_spec st root m key value :
  store_ok st -> holds st root m -> is_hash key ->
  match m !! key with
  | Some v => Insert write_ st root key value = if bytes_eqb v value then Some (st, root, false) else None
  | None => if root_count root =? UINT64_MAX then Insert write_ st root key value = None
            else inserted st root m key value (Insert write_ st root key value)
  end.
Proof.
  intros Hst Hh Hkey. unfold Insert. destruct (holds_root _ _ _ Hst Hh) as [-> [[-> ->]|(Hz & t & H1 & H2 & E & He)]]; cbn [negb].
  { rewrite lookup_empty. change (0 =? UINT64_MAX) with false. change (0 =? 0) with true. cbv iota. unfold Stage. cbn [app].
    apply publish_spec with (t' := TLeaf key value); try assumption; [done|repeat constructor|reflexivity|reflexivity|].
    intros st' _ Hc. by apply Forall_cons in Hc as [Hc _]. }
  rewrite (proj2 (Z.eqb_neq _ 0) Hz), E. rewrite (walk_spec st 0) by (assumption || (unfold WALK; lia)).
  assert (m !! key = if bytes_eqb (terminal key t).1 key then Some ((terminal key t).2) else None) as Hl
    by (rewrite <- He; by eapply lookup_terminal).
  rewrite Hl. destruct (bytes_eqb (terminal key t).1 key) eqn:Ek; [reflexivity|].
  destruct (_ =? UINT64_MAX); [reflexivity|]. destruct (first_difference_spec key (terminal key t).1 256 0) as (S1 & S2 & S3).
  set (s := first_difference key (terminal key t).1 256 0) in *. destruct (Nat.eqb_spec s 256) as [Es|Es].
  { exfalso. apply bytes_eqb_false in Ek. apply Ek. symmetry. apply key_bits_inj; [exact Hkey|by eapply wf_keys, terminal_some|].
    intros i Hi. change TREE_DEPTH with 256%nat in Hi. apply S2. lia. }
  assert (split_at_leaf s key t) as Hsp.
  { split; [lia|]. split; [intros i Hi; apply S2; lia|apply S3; lia]. }
  destruct (graft_spec s key value t) as (recs & -> & Hkeyed & Hst'). rewrite <- He in Hl.
  apply publish_spec with (t' := ins s key value t); try assumption; try reflexivity.
  - by rewrite <- He.
  - apply ins_wf; try assumption; lia.
  - rewrite <- He. by eapply ins_entries.
  - intros st' Hsub Hc. apply Hst'; [exact Hc|]. by eapply stored_mono.
Qed.

End Database.
