(* ===== verification/NullifierSafety.v ===== *)
(** * Safety of the nullifier set

    The accumulator refines a set of outpoints: an outpoint is inserted once at most, every
    absent outpoint has a proof that inserts it, a proof survives other insertions, and
    proofs have one wire form. *)
From S2P Require Import Prelude Bytes Sha256 StateDigest MintNullifier NullifierRules.

#[local] Opaque TREE_DEPTH sha256_domain sha256.

(** ** The proof the tree itself gives *)

Definition proof_of (ks : list Hash256) (key : Hash256) : Proof := CompressSiblings (siblings_of TREE_DEPTH key ks).

Lemma siblings_of_hash n key ks : Forall is_hash (siblings_of n key ks).
Proof. revert ks. induction n as [|n IH]; intros ks; constructor; [apply set_root_hash|apply IH]. Qed.

Lemma proof_of_expand ks key :
  wf_proof (proof_of ks key) /\ ExpandSiblings (proof_of ks key) = Some (siblings_of TREE_DEPTH key ks).
Proof. apply expand_compress; [apply siblings_of_length|apply siblings_of_hash]. Qed.

(** It does not collide with the tree: it is the tree's path. *)
Lemma honest_own n key ks :
  (n <= TREE_DEPTH)%nat -> on_path n key ks = [] -> honest n key ks (siblings_of n key ks).
Proof.
  revert ks. induction n as [|n IH]; intros ks Hn Hp; cbn [on_path] in Hp.
  - subst ks. intros _. reflexivity.
  - cbn [honest siblings_of]. split; [|apply IH; [lia|done]]. set (d := (TREE_DEPTH - S n)%nat) in *.
    replace (S d) with (TREE_DEPTH - n)%nat by lia.
    assert (nth 0 (path_from key (TREE_DEPTH - n) EmptyLeaf (siblings_of n key (side (Bit key d) d ks))) []
            = set_root n (side (Bit key d) d ks)) as ->.
    { rewrite <- (root_of_path n key) by lia. by rewrite Hp. }
    destruct (Bit key d); intros _; reflexivity.
Qed.

Lemma KeyForOutpoint_hash o : is_hash (KeyForOutpoint o).
Proof. unfold KeyForOutpoint. Transparent sha256_domain. unfold sha256_domain. Opaque sha256_domain. apply sha256_hash. Qed.

(** An absent outpoint can be inserted. *)
Lemma insert_complete ks o :
  Forall is_hash ks -> KeyForOutpoint o ∉ ks ->
  let p := proof_of ks (KeyForOutpoint o) in
  wf_proof p /\ honest_insert ks o p /\ Insert (set_root TREE_DEPTH ks) o p = Some (set_root TREE_DEPTH (KeyForOutpoint o :: ks)).
Proof.
  intros Hks Hn p. destruct (proof_of_expand ks (KeyForOutpoint o)) as [Hw He]. fold p in Hw, He.
  pose proof (absent_on_path _ ks (KeyForOutpoint_hash o) Hks Hn) as Hp. split_and!; [done| |].
  - intros sibs Hs. rewrite He in Hs. injection Hs as <-. by apply honest_own.
  - rewrite (Insert_intro _ _ _ _ He); [by rewrite inserted_root|by apply absent_root].
Qed.

(** ** Witness maintenance *)

(** The leaf of a key in the tree of a set. *)
Lemma own_leaf ks key :
  is_hash key -> Forall is_hash ks ->
  set_leaf (on_path TREE_DEPTH key ks) = if bool_decide (key ∈ ks) then OccupiedLeaf key else EmptyLeaf.
Proof.
  intros Hk Hks. case_bool_decide as Hin; [|by rewrite absent_on_path].
  destruct (on_path TREE_DEPTH key ks) as [|k l] eqn:E; [by apply not_on_path in E|]. cbn [set_leaf]. f_equal.
  destruct (on_path_all TREE_DEPTH key ks k) as [Hkk Hb]; [lia|rewrite E; by left|].
  rewrite Forall_forall in Hks. apply key_bits_inj; [by apply Hks|done|]. intros d Hd. apply Hb. lia.
Qed.

Lemma verify_own ks o :
  Forall is_hash ks ->
  Verify (set_root TREE_DEPTH ks) o (bool_decide (KeyForOutpoint o ∈ ks)) (proof_of ks (KeyForOutpoint o)) = true.
Proof.
  intros Hks. unfold Verify, ComputePath. destruct (proof_of_expand ks (KeyForOutpoint o)) as [_ ->].
  rewrite <- own_leaf by (done || apply KeyForOutpoint_hash). apply bytes_eqb_eq.
  rewrite <- (root_of_path TREE_DEPTH (KeyForOutpoint o) ks) by lia.
  by replace (TREE_DEPTH - TREE_DEPTH)%nat with 0%nat by lia.
Qed.

Lemma divergence_bounds n a b d :
  (d <= divergence n a b d <= d + n)%nat
  /\ (divergence n a b d = (d + n)%nat -> forall i, (d <= i < d + n)%nat -> Bit a i = Bit b i).
Proof.
  revert d. induction n as [|n IH]; intros d; cbn [divergence]; [split; [lia|intros; lia]|].
  destruct (Bool.eqb _ _) eqn:E; [|split; [lia|intros; lia]]. apply eqb_prop in E. destruct (IH (S d)) as [Hb Hi].
  split; [lia|]. intros Hd i Hr. destruct (decide (i = d)) as [-> |]; [done|]. apply Hi; lia.
Qed.

(** The head of the path below a depth, over the tree's own siblings. *)
Lemma path_own n key ks :
  (n <= TREE_DEPTH)%nat ->
  nth 0 (path_from key (TREE_DEPTH - n) (OccupiedLeaf key) (siblings_of n key ks)) [] = set_root n (key :: ks).
Proof.
  intros Hn. rewrite <- (root_of_path n key (key :: ks)), on_path_cons, siblings_of_cons by lia. done.
Qed.

(** Inserting another key changes the siblings of a key at the depth where the two part,
    and there to the hash on the inserted key's path. *)
Lemma siblings_after n tk ik ks :
  (n <= TREE_DEPTH)%nat ->
  let d := divergence n tk ik (TREE_DEPTH - n) in
  (d < TREE_DEPTH)%nat ->
  siblings_of n tk (ik :: ks)
  = <[ (d - (TREE_DEPTH - n))%nat :=
       nth (S (d - (TREE_DEPTH - n))) (path_from ik (TREE_DEPTH - n) (OccupiedLeaf ik) (siblings_of n ik ks)) [] ]>
    (siblings_of n tk ks).
Proof.
  revert ks. induction n as [|n IH]; intros ks Hn d Hd; [unfold d in Hd; cbn [divergence] in Hd; lia|].
  unfold d in *. clear d. cbn [divergence siblings_of] in *. set (e := (TREE_DEPTH - S n)%nat) in *.
  unfold side at 1 2. rewrite !filter_cons. fold (side (negb (Bit tk e)) e ks). fold (side (Bit tk e) e ks).
  destruct (Bool.eqb (Bit tk e) (Bit ik e)) eqn:E.
  - apply eqb_prop in E. rewrite decide_False, decide_True by (try done; by rewrite <- E; destruct (Bit tk e)).
    replace (S e) with (TREE_DEPTH - n)%nat in * by lia.
    pose proof (proj1 (divergence_bounds n tk ik (TREE_DEPTH - n))) as Hb.
    rewrite (IH (side (Bit tk e) e ks)) by lia.
    set (d' := divergence n tk ik (TREE_DEPTH - n)) in *.
    replace (d' - e)%nat with (S (d' - (TREE_DEPTH - n))) by lia. cbn [path_from].
    replace (S e) with (TREE_DEPTH - n)%nat by lia. change (nth (S (S ?m)) (?x :: ?l) ?y) with (nth (S m) l y).
    rewrite <- E. reflexivity.
  - assert (Bit ik e = negb (Bit tk e)) as Ei by (destruct (Bit tk e), (Bit ik e); done).
    rewrite decide_True, decide_False by (try done; rewrite Ei; by destruct (Bit tk e)).
    rewrite Nat.sub_diag. cbn [path_from nth]. replace (S e) with (TREE_DEPTH - n)%nat by lia.
    rewrite Ei. cbn [insert list_insert]. f_equal. fold (side (negb (Bit tk e)) e ks).
    pose proof (path_own n ik (side (negb (Bit tk e)) e ks) ltac:(lia)) as Hp.
    destruct (path_from ik (TREE_DEPTH - n) (OccupiedLeaf ik) (siblings_of n ik (side (negb (Bit tk e)) e ks))); exact (eq_sym Hp).
Qed.

Lemma update_witness ks t i :
  Forall is_hash ks -> KeyForOutpoint i ∉ ks ->
  UpdateWitnessAfterInsert (set_root TREE_DEPTH ks) (set_root TREE_DEPTH (KeyForOutpoint i :: ks)) t
    (bool_decide (KeyForOutpoint t ∈ ks)) (proof_of ks (KeyForOutpoint t)) i (proof_of ks (KeyForOutpoint i))
  = Some (bool_decide (KeyForOutpoint t ∈ KeyForOutpoint i :: ks), proof_of (KeyForOutpoint i :: ks) (KeyForOutpoint t)).
Proof.
  intros Hks Hn. set (tk := KeyForOutpoint t). set (ik := KeyForOutpoint i) in *.
  assert (Forall is_hash (ik :: ks)) as Hks' by (constructor; [apply KeyForOutpoint_hash|done]).
  unfold UpdateWitnessAfterInsert. destruct (insert_complete ks i Hks Hn) as (_ & _ & Hins). fold ik in Hins.
  pose proof (verify_own ks t Hks) as Hown. fold tk in Hown. rewrite Hins, bytes_eqb_refl, Hown. cbn [negb orb]. fold tk ik.
  destruct (bytes_eqb tk ik) eqn:Ek.
  - apply bytes_eqb_eq in Ek. rewrite Ek. rewrite (bool_decide_eq_false_2 (ik ∈ ks)) by done.
    rewrite (bool_decide_eq_true_2 (ik ∈ ik :: ks)) by (by left).
    assert (proof_of (ik :: ks) ik = proof_of ks ik) as Ep by (unfold proof_of; by rewrite siblings_of_cons by lia).
    pose proof (verify_own (ik :: ks) t Hks') as Hv. fold tk in Hv. rewrite Ek, bool_decide_eq_true_2, Ep in Hv by (by left).
    by rewrite Hv, Ep.
  - apply bytes_eqb_false in Ek. destruct (divergence_bounds TREE_DEPTH tk ik 0) as [Hb Hi].
    set (d := divergence TREE_DEPTH tk ik 0) in *.
    assert (d <> TREE_DEPTH) as Hd.
    { intros E. apply Ek. apply key_bits_inj; [apply KeyForOutpoint_hash..|]. intros j Hj. apply Hi; lia. }
    rewrite (proj2 (Nat.eqb_neq _ _) Hd). destruct (proof_of_expand ks tk) as [_ ->].
    unfold ComputePath. destruct (proof_of_expand ks ik) as [_ ->].
    pose proof (siblings_after TREE_DEPTH tk ik ks ltac:(lia)) as Hs. cbv zeta in Hs.
    replace (TREE_DEPTH - TREE_DEPTH)%nat with 0%nat in Hs by lia. fold d in Hs. rewrite Nat.sub_0_r in Hs.
    rewrite <- Hs by lia. fold (proof_of (ik :: ks) tk).
    assert (bool_decide (tk ∈ ks) = bool_decide (tk ∈ ik :: ks)) as Eo.
    { apply bool_decide_ext. rewrite elem_of_cons. split; [intros E; right; exact E|]. intros [E|E]; [contradiction|exact E]. }
    rewrite Eo. pose proof (verify_own (ik :: ks) t Hks') as Hv. fold tk in Hv. by rewrite Hv.
Qed.

(** ** The wire form *)

Lemma read_taken n d bm sibs out rest :
  Forall is_hash sibs -> take_siblings n d bm sibs = Some out ->
  read_siblings n d bm (concat sibs ++ rest) = Some (sibs, rest).
Proof.
  revert d sibs out. induction n as [|n IH]; intros d sibs out Hs; cbn [take_siblings read_siblings].
  - destruct sibs; [done|intros Hx; discriminate Hx].
  - destruct (negb _).
    + destruct (take_siblings n _ _ _) as [o|] eqn:E; [|intros Hx; discriminate Hx]. intros _. by eapply IH.
    + destruct sibs as [|s sibs]; [intros Hx; discriminate Hx|]. apply Forall_cons in Hs as [[Hl Hb] Hs].
      destruct (bytes_eqb s _) eqn:E; [intros Hx; discriminate Hx|].
      destruct (take_siblings n _ _ _) as [o|] eqn:Et; [|intros Hx; discriminate Hx]. intros _.
      cbn [concat]. rewrite <- app_assoc, take_app_length', drop_app_length' by (unfold HASH_BYTES; lia).
      by rewrite E, (IH _ _ _ Hs Et).
Qed.

Lemma read_siblings_inv n d bm data out rest :
  read_siblings n d bm data = Some (out, rest) ->
  data = concat out ++ rest /\ Forall (fun s => (length s <= HASH_BYTES)%nat) out
  /\ exists full, take_siblings n d bm out = Some full.
Proof.
  revert d data out rest. induction n as [|n IH]; intros d data out rest; cbn [read_siblings take_siblings].
  - intros [= <- <-]. split_and!; [done|constructor|by exists []].
  - destruct (negb _).
    + intros H. destruct (IH _ _ _ _ H) as (-> & Hf & full & ->). split_and!; [done|done|eauto].
    + destruct (bytes_eqb _ _) eqn:E; [intros Hx; discriminate Hx|].
      destruct (read_siblings n _ _ _) as [[o r]|] eqn:Er; [|intros Hx; discriminate Hx]. intros [= <- <-].
      destruct (IH _ _ _ _ Er) as (Hd & Hf & full & Hfull). split_and!.
      * cbn [concat]. rewrite <- app_assoc, <- Hd. by rewrite take_drop.
      * constructor; [rewrite length_take; lia|done].
      * rewrite E, Hfull. eauto.
Qed.

Lemma full_length (l : list bytes) m :
  Forall (fun s => (length s <= m)%nat) l -> length (concat l) = (length l * m)%nat -> Forall (fun s => length s = m) l.
Proof.
  assert (forall l : list bytes, Forall (fun s => (length s <= m)%nat) l -> (length (concat l) <= length l * m)%nat) as Hle.
  { intros l' H. induction H as [|s l' Hs _ IH]; [done|]. cbn [concat length]. rewrite length_app. lia. }
  intros H. induction H as [|s l Hs Hf IH]; [constructor|]. cbn [concat length]. rewrite length_app. intros E.
  pose proof (Hle l Hf). constructor; [lia|apply IH; lia].
Qed.

Lemma canonical_take p :
  IsCanonicalProof p = true <->
  length (siblings p) = BitmapPopcount (bitmap p) /\ exists full, take_siblings TREE_DEPTH 0 (bitmap p) (siblings p) = Some full.
Proof.
  unfold IsCanonicalProof. destruct (Nat.eqb_spec (length (siblings p)) (BitmapPopcount (bitmap p))) as [E|E]; cbn [negb].
  - destruct (take_siblings _ _ _ _); split; [eauto|done|intros Hx; discriminate Hx|intros [_ [f Hf]]; discriminate Hf].
  - split; [intros Hx; discriminate Hx|by intros [? _]].
Qed.

Lemma concat_hash_length (l : list Hash256) : Forall is_hash l -> length (concat l) = (length l * HASH_BYTES)%nat.
Proof. induction 1 as [|s l [Hs _] _ IH]; [done|]. cbn [concat length]. rewrite length_app, Hs, IH. unfold HASH_BYTES. lia. Qed.

Lemma popcount_bound bm : is_bytes bm -> (BitmapPopcount bm <= 8 * length bm)%nat.
Proof. intros H. rewrite BitmapPopcount_bits by done. unfold count_bits. etransitivity; [apply length_filter|by rewrite length_seq]. Qed.

(** The sizes a canonical proof can have. *)
Lemma proof_size_ok c :
  (c <= 256)%nat ->
  (BITMAP_BYTES + c * HASH_BYTES <? MIN_PROOF_BYTES)%nat || (MAX_PROOF_BYTES <? BITMAP_BYTES + c * HASH_BYTES)%nat
  || negb ((BITMAP_BYTES + c * HASH_BYTES - BITMAP_BYTES) mod HASH_BYTES =? 0)%nat = false.
Proof.
  intros Hc. replace (BITMAP_BYTES + c * HASH_BYTES - BITMAP_BYTES)%nat with (c * HASH_BYTES)%nat by lia.
  rewrite Nat.Div0.mod_mul. change MAX_PROOF_BYTES with (BITMAP_BYTES + 256 * HASH_BYTES)%nat. unfold MIN_PROOF_BYTES, BITMAP_BYTES, HASH_BYTES.
  destruct (Nat.ltb_spec (32 + c * 32) 32); [lia|]. destruct (Nat.ltb_spec (32 + 256 * 32) (32 + c * 32)); [lia|]. reflexivity.
Qed.

Lemma null_decode_encode p : wf_proof p -> IsCanonicalProof p = true -> DecodeProof (EncodeProof p) = Some p.
Proof.
  intros (Hl & Hb & Hs) Hc. unfold EncodeProof. rewrite Hc. cbn [negb]. apply canonical_take in Hc as [Hn [full Ht]].
  unfold DecodeProof. rewrite length_app, Hl, concat_hash_length, Hn by done.
  pose proof (popcount_bound _ Hb) as Hp. rewrite Hl in Hp. change (8 * BITMAP_BYTES)%nat with 256%nat in Hp.
  rewrite proof_size_ok by done. rewrite take_app_length', drop_app_length' by done. rewrite Nat.eqb_refl. cbn [negb].
  pose proof (read_taken TREE_DEPTH 0 (bitmap p) (siblings p) full [] Hs Ht) as Hr. rewrite app_nil_r in Hr. rewrite Hr.
  rewrite Hn. cbn [length]. rewrite !Nat.eqb_refl. destruct p. reflexivity.
Qed.

Lemma null_encode_decode data p :
  is_bytes data -> DecodeProof data = Some p -> wf_proof p /\ IsCanonicalProof p = true /\ EncodeProof p = data.
Proof.
  intros Hd. unfold DecodeProof. destruct (_ || _ || _) eqn:E0; [intros Hx; discriminate Hx|].
  apply orb_false_iff in E0 as [E0 _]. apply orb_false_iff in E0 as [E0 _]. apply Nat.ltb_ge in E0.
  destruct (Nat.eqb_spec (length data) (BITMAP_BYTES + BitmapPopcount (take BITMAP_BYTES data) * HASH_BYTES)) as [El|];
    cbn [negb]; [|intros Hx; discriminate Hx].
  destruct (read_siblings _ _ _ _) as [[out rest]|] eqn:Er; [|intros Hx; discriminate Hx].
  destruct (_ && _) eqn:Ec; [|intros Hx; discriminate Hx]. apply andb_true_iff in Ec as [E1%Nat.eqb_eq E2%Nat.eqb_eq].
  intros [= <-]. apply read_siblings_inv in Er as (Hdr & Hf & full & Hfull).
  apply nil_length_inv in E1 as ->. rewrite app_nil_r in Hdr.
  assert (length (concat out) = (length out * HASH_BYTES)%nat) as Hlc.
  { rewrite <- Hdr, length_drop, El, E2. lia. }
  apply full_length in Hlc; [|done].
  assert (Forall is_hash out) as Hh.
  { assert (is_bytes (concat out)) as Hbo by (rewrite <- Hdr; by apply is_bytes_drop). clear - Hlc Hbo.
    induction Hlc as [|s l Hs _ IH]; [constructor|]. cbn [concat] in Hbo. apply is_bytes_app in Hbo as [? ?].
    constructor; [by split|by apply IH]. }
  assert (IsCanonicalProof (mkProof (take BITMAP_BYTES data) out) = true) as Hcan by (apply canonical_take; cbn [bitmap siblings]; eauto).
  split_and!; [split; [cbn [bitmap]; rewrite length_take; unfold MIN_PROOF_BYTES in E0; lia|split; [by apply is_bytes_take|done]]|done|].
  unfold EncodeProof. rewrite Hcan. cbn [negb bitmap siblings]. rewrite <- Hdr. apply take_drop.
Qed.

(** ** Claims *)

(** No Bitcoin outpoint is minted twice. Every sequence of insertions that succeeds from
    the empty root names pairwise different outpoints, whatever the proofs say, unless
    SHA-256 collides between a proof and the tree of the outpoints inserted before it; the
    root it ends in is the root of the set of those outpoints. *)
Lemma no_double_mint steps root :
  inserts EmptyRoot steps = Some root -> honest_run [] steps ->
  NoDup (map fst steps) /\ root = set_root TREE_DEPTH (rev (step_keys steps)).
Proof.
  unfold EmptyRoot, EmptyHashes. rewrite Nat.sub_0_r, <- set_root_nil. intros Hi Hh.
  destruct (inserts_spec [] steps root Hi Hh) as (Hnd & _ & ->). rewrite app_nil_r. split; [|reflexivity].
  apply (NoDup_fmap_1 KeyForOutpoint). unfold step_keys in Hnd. rewrite <- list_fmap_compose. exact Hnd.
Qed.

(** C32: the accumulator is a set of outpoints. From the root of a set of keys, some proof
    that does not collide with the tree inserts an outpoint exactly when the outpoint is
    not in the set, and the new root is the root of the set with the outpoint. *)
Theorem nullifier_refines_set ks o root :
  Forall is_hash ks ->
  (exists p, wf_proof p /\ honest_insert ks o p /\ Insert (set_root TREE_DEPTH ks) o p = Some root)
  <-> KeyForOutpoint o ∉ ks /\ root = set_root TREE_DEPTH (KeyForOutpoint o :: ks).
Proof.
  intros Hks. split.
  - intros (p & Hw & Hh & Hi). by apply (insert_sound ks o p).
  - intros [Hn ->]. destruct (insert_complete ks o Hks Hn) as (Hw & Hh & Hi). exists (proof_of ks (KeyForOutpoint o)).
    split; [exact Hw|]. split; [exact Hh|exact Hi].
Qed.

(** A witness is kept up to date without the set. After an insertion, the update turns
    the tree's proof for any other outpoint, present or absent, into the tree's proof for
    it in the new tree, and the proof of the inserted outpoint into a proof of presence. *)
Lemma witness_maintained ks t i :
  Forall is_hash ks -> KeyForOutpoint i ∉ ks ->
  UpdateWitnessAfterInsert (set_root TREE_DEPTH ks) (set_root TREE_DEPTH (KeyForOutpoint i :: ks)) t
    (bool_decide (KeyForOutpoint t ∈ ks)) (proof_of ks (KeyForOutpoint t)) i (proof_of ks (KeyForOutpoint i))
  = Some (bool_decide (KeyForOutpoint t ∈ KeyForOutpoint i :: ks), proof_of (KeyForOutpoint i :: ks) (KeyForOutpoint t))
  /\ Verify (set_root TREE_DEPTH (KeyForOutpoint i :: ks)) t (bool_decide (KeyForOutpoint t ∈ KeyForOutpoint i :: ks))
       (proof_of (KeyForOutpoint i :: ks) (KeyForOutpoint t)) = true.
Proof.
  intros Hks Hn. split; [by apply update_witness|]. apply verify_own. constructor; [apply KeyForOutpoint_hash|done].
Qed.

(** A proof has one encoding. Decoding gives back every canonical proof from its bytes,
    and bytes that decode are the encoding of a canonical proof with full-size fields. *)
Lemma nullifier_proof_roundtrip :
  (forall p, wf_proof p -> IsCanonicalProof p = true -> DecodeProof (EncodeProof p) = Some p)
  /\ (forall data p, is_bytes data -> DecodeProof data = Some p ->
        wf_proof p /\ IsCanonicalProof p = true /\ EncodeProof p = data).
Proof. split; [apply null_decode_encode|apply null_encode_decode]. Qed.

(** ** Two mints in a row *)

Definition sample_outpoint : bytes := b:"a:0".
Definition sample_outpoint' : bytes := b:"b:0".
Definition sample_steps : list (bytes * Proof) :=
  [(sample_outpoint, proof_of [] (KeyForOutpoint sample_outpoint));
   (sample_outpoint', proof_of [KeyForOutpoint sample_outpoint] (KeyForOutpoint sample_outpoint'))].

Lemma sample_keys_differ : KeyForOutpoint sample_outpoint' ∉ [KeyForOutpoint sample_outpoint].
Proof. apply (bool_decide_unpack _). vm_compute. exact I. Qed.

Lemma sample_key_hashes : Forall is_hash [KeyForOutpoint sample_outpoint].
Proof. constructor; [apply KeyForOutpoint_hash|constructor]. Qed.

Lemma no_double_mint_witness :
  exists root, inserts EmptyRoot sample_steps = Some root /\ NoDup (map fst sample_steps).
Proof.
  destruct (insert_complete [] sample_outpoint) as (W1 & H1 & I1); [constructor|apply not_elem_of_nil|].
  destruct (insert_complete [KeyForOutpoint sample_outpoint] sample_outpoint') as (W2 & H2 & I2);
    [apply sample_key_hashes|apply sample_keys_differ|].
  assert (Hi : inserts EmptyRoot sample_steps
               = Some (set_root TREE_DEPTH [KeyForOutpoint sample_outpoint'; KeyForOutpoint sample_outpoint])).
  { unfold EmptyRoot, EmptyHashes. rewrite Nat.sub_0_r, <- set_root_nil. unfold sample_steps. cbn [inserts]. rewrite I1, I2. reflexivity. }
  eexists. split; [exact Hi|]. refine (proj1 (no_double_mint sample_steps _ Hi _)).
  unfold sample_steps. cbn [honest_run]. split; [exact W1|]. split; [exact H1|]. split; [exact W2|]. split; [exact H2|exact I].
Defined.

Lemma nullifier_refines_set_witness :
  exists p, wf_proof p /\ honest_insert [KeyForOutpoint sample_outpoint] sample_outpoint' p
  /\ Insert (set_root TREE_DEPTH [KeyForOutpoint sample_outpoint]) sample_outpoint' p
     = Some (set_root TREE_DEPTH [KeyForOutpoint sample_outpoint'; KeyForOutpoint sample_outpoint]).
Proof.
  apply (nullifier_refines_set [KeyForOutpoint sample_outpoint] sample_outpoint' _ sample_key_hashes).
  split; [apply sample_keys_differ|reflexivity].
Defined.

Lemma witness_maintained_witness :
  Verify (set_root TREE_DEPTH [KeyForOutpoint sample_outpoint'; KeyForOutpoint sample_outpoint]) sample_outpoint
    (bool_decide (KeyForOutpoint sample_outpoint ∈ [KeyForOutpoint sample_outpoint'; KeyForOutpoint sample_outpoint]))
    (proof_of [KeyForOutpoint sample_outpoint'; KeyForOutpoint sample_outpoint] (KeyForOutpoint sample_outpoint)) = true.
Proof.
  exact (proj2 (witness_maintained [KeyForOutpoint sample_outpoint] sample_outpoint sample_outpoint' sample_key_hashes sample_keys_differ)).
Defined.
