(* ===== verification/Profile.v ===== *)
(** * The public-mainnet profile

    The consensus constants of [core/constants.h] and
    [consensus/security_upgrade.h] in the build profile that the public network
    runs (VELD_MAINNET_POW, VELD_PUBLIC_RELEASE, VELD_PUBLIC_MAINNET), the
    height gates, and the compile-time ISO timestamp parser. *)
From S2P Require Import Prelude Bytes.

(** ** Supply and emission *)

Definition MAX_SUPPLY : Z := 21000000.
Definition VELD_UNITS : Z := 100000000.
Definition MAX_SUPPLY_UNITS : Z := MAX_SUPPLY * VELD_UNITS.
Definition ANNUAL_EMISSION_CAP : Z := 550000.
Definition ANNUAL_EMISSION_UNITS : Z := ANNUAL_EMISSION_CAP * VELD_UNITS.
Definition TARGET_BLOCK_TIME : Z := 180.
Definition BLOCKS_PER_HOUR : Z := 3600 / TARGET_BLOCK_TIME.
Definition BLOCKS_PER_DAY : Z := BLOCKS_PER_HOUR * 24.
Definition BLOCKS_PER_YEAR : Z := BLOCKS_PER_DAY * 365.
Definition BLOCK_REWARD_UNITS : Z := ANNUAL_EMISSION_UNITS / BLOCKS_PER_YEAR.
Definition ANNUAL_EMISSION_REMAINDER : Z :=
  ANNUAL_EMISSION_UNITS - BLOCK_REWARD_UNITS * BLOCKS_PER_YEAR.
Definition VAULT_BLOCK_INTERVAL : Z := 100.

(** ** Transaction and block limits *)

Definition MAX_TRANSACTIONS_PER_BLOCK : Z := 4096.
Definition MAX_TRANSACTION_INPUTS : Z := 10000.
Definition MAX_TRANSACTION_OUTPUTS : Z := 10000.
Definition VAULT_DISTRIBUTION_RESERVED_OUTPUTS : Z := 2.
Definition MAX_VAULT_PAYOUT_STAKERS : Z :=
  MAX_TRANSACTION_OUTPUTS - VAULT_DISTRIBUTION_RESERVED_OUTPUTS.

(** ** Staking thresholds *)

Definition MIN_STAKE_UNITS : Z := 1000 * VELD_UNITS.
Definition MAX_STAKE_UNITS : Z := 10000 * VELD_UNITS.
Definition STAKING_UNLOCK_SUPPLY : Z := 10000 * VELD_UNITS.
Definition STAKING_ACTIVATION_SUPPLY : Z := STAKING_UNLOCK_SUPPLY.
Definition MIN_VALIDATOR_STAKE : Z := 10000 * VELD_UNITS.
Definition VALIDATOR_UNLOCK_STAKED : Z := 10000 * VELD_UNITS.
Definition STAKE_LOCKUP_BLOCKS : Z := 7 * BLOCKS_PER_DAY.
Definition BOND_SETTLEMENT_INTERVAL : Z := BLOCKS_PER_DAY.
Definition SLASH_BOND_LOCKUP_BLOCKS : Z := 30 * BLOCKS_PER_DAY.

(** ** Height gates *)

Definition STAKE_OUTPOINT_BACKING_ACTIVATION_HEIGHT : Z := 1.
Definition StakeOutpointBackingActive (height : Z) : bool :=
  negb (STAKE_OUTPOINT_BACKING_ACTIVATION_HEIGHT =? 0)
  && (STAKE_OUTPOINT_BACKING_ACTIVATION_HEIGHT <=? height).

Definition PROTOCOL_UPGRADE_HEIGHT : Z := 3840.
Definition ProtocolUpgradeActive (inclusion_height : Z) : bool :=
  negb (PROTOCOL_UPGRADE_HEIGHT =? 0) && (PROTOCOL_UPGRADE_HEIGHT <=? inclusion_height).
Definition MinimumStakeAtHeight (inclusion_height : Z) : Z :=
  if ProtocolUpgradeActive inclusion_height then MIN_STAKE_UNITS / 2 else MIN_STAKE_UNITS.

Definition CONSENSUS_SECURITY_UPGRADE_HEIGHT : Z := 2880.
Definition ConsensusSecurityUpgradeActive (height : Z) : bool :=
  negb (CONSENSUS_SECURITY_UPGRADE_HEIGHT =? 0) && (CONSENSUS_SECURITY_UPGRADE_HEIGHT <=? height).

Definition VALIDATOR_REGISTRATION_FORK_HEIGHT : Z := 9500.
Definition ValidatorRegistrationForkActive (height : Z) : bool :=
  negb (VALIDATOR_REGISTRATION_FORK_HEIGHT =? 0) && (VALIDATOR_REGISTRATION_FORK_HEIGHT <=? height).
Definition ValidatorRegistrationNetworkStakeFloor (height : Z) : Z :=
  if ValidatorRegistrationForkActive height then 0 else VALIDATOR_UNLOCK_STAKED.

(** ** Genesis *)

Definition GENESIS_TIMESTAMP_STR : bytes := b:"2026-08-01T15:46:00Z".
Definition GENESIS_MESSAGE : bytes := b:"Veld - Where value is earned.".
Definition GENESIS_NONCE : Z := 187948.
Definition GENESIS_HASH : bytes :=
  b:"880a0057852ffcfa35119a83e556802848ed5cb469b260fb9fbd20e8b97ae77b".
Definition GENESIS_TIME : Z := 1785599160.
Definition GENESIS_BITS : Z := 0x1e390000.

Module genesis_iso.

Definition digit (c : Z) : Z := if (48 <=? c) && (c <=? 57) then c - 48 else -1.

Definition isleap (y : Z) : bool :=
  ((y mod 4 =? 0) && negb (y mod 100 =? 0)) || (y mod 400 =? 0).

Definition mdays (y m : Z) : Z :=
  if (m =? 2) && isleap y then 29
  else nth (Z.to_nat (m - 1)) [31; 28; 31; 30; 31; 30; 31; 31; 30; 31; 30; 31] 0.

(** [for (yy = 1970; yy < y; ++yy) days += ...] over [n] years from [yy]. *)
Fixpoint year_days (n : nat) (yy : Z) : Z :=
  match n with O => 0 | S n' => (if isleap yy then 366 else 365) + year_days n' (yy + 1) end.

Fixpoint month_days (n : nat) (y mm2 : Z) : Z :=
  match n with O => 0 | S n' => mdays y mm2 + month_days n' y (mm2 + 1) end.

Definition parse (s : bytes) : Z :=
  let c i := nth i s 0 in
  if existsb (fun b => b =? 0) s || negb (length s =? 20)%nat then 0
  else if negb ((c 4%nat =? 45) && (c 7%nat =? 45) && (c 10%nat =? 84)
                && (c 13%nat =? 58) && (c 16%nat =? 58) && (c 19%nat =? 90)) then 0
  else
    let y := digit (c 0%nat) * 1000 + digit (c 1%nat) * 100 + digit (c 2%nat) * 10 + digit (c 3%nat) in
    let mo := digit (c 5%nat) * 10 + digit (c 6%nat) in
    let d := digit (c 8%nat) * 10 + digit (c 9%nat) in
    let hh := digit (c 11%nat) * 10 + digit (c 12%nat) in
    let mm := digit (c 14%nat) * 10 + digit (c 15%nat) in
    let ss := digit (c 17%nat) * 10 + digit (c 18%nat) in
    if (y <? 1970) || (mo <? 1) || (12 <? mo) || (d <? 1) || (mdays y mo <? d) || (hh <? 0)
       || (23 <? hh) || (mm <? 0) || (59 <? mm) || (ss <? 0) || (60 <? ss) then 0
    else
      let days := year_days (Z.to_nat (y - 1970)) 1970 + month_days (Z.to_nat (mo - 1)) y 1
                  + (d - 1) in
      days * 86400 + hh * 3600 + mm * 60 + ss.

End genesis_iso.

(** The static assertion that ties the two spellings of the genesis time. *)
Example genesis_timestamp_agrees : genesis_iso.parse GENESIS_TIMESTAMP_STR = GENESIS_TIME.
Proof. vm_compute. reflexivity. Qed.
