(* ===== verification/Transaction.v ===== *)
(** * Transactions

    [core/transaction.h]: inputs, outputs, transactions, their wire format, the
    bounds-checked deserializer, and the stateless validity rules. *)
From S2P Require Import Prelude Bytes Sha256 Profile.

Definition MAX_TRANSACTION_SCRIPT_SIG_BYTES : Z := 32768.
Definition MAX_SPENDABLE_SCRIPT_PUBKEY_BYTES : Z := 10000.
Definition MAX_OP_RETURN_SCRIPT_PUBKEY_BYTES : Z := 65535.

(** ** Data *)

Record TxInput := mkInput {
  prev_tx_hash : Hash256; prev_out_index : Z; script_sig : bytes; sequence : Z }.

Record TxOutput := mkOutput { value : Z; script_pubkey : bytes }.

Record Transaction := mkTx {
  version : Z; inputs : list TxInput; outputs : list TxOutput; locktime : Z }.

#[global] Instance TxInput_eq_dec : EqDecision TxInput.
Proof. solve_decision. Defined.
#[global] Instance TxOutput_eq_dec : EqDecision TxOutput.
Proof. solve_decision. Defined.
#[global] Instance Transaction_eq_dec : EqDecision Transaction.
Proof. solve_decision. Defined.

(** ** Wire format *)

(** The script length prefix of an input or output: one, three or five bytes. *)
Definition put_script_len (slen : Z) : bytes :=
  if slen <? 0xFD then put_le 1 slen
  else if slen <=? 0xFFFF then 0xFD :: put_le 2 slen
  else 0xFE :: put_le 4 slen.

Definition put_varint (v : Z) : bytes :=
  if v <? 0xFD then put_le 1 v
  else if v <=? 0xFFFF then 0xFD :: put_le 2 v
  else if v <=? 0xFFFFFFFF then 0xFE :: put_le 4 v
  else 0xFF :: put_le 8 v.

Module TxInputOps.

Definition Coinbase (message : bytes) : TxInput := mkInput ZeroHash 0xFFFFFFFF message 0xFFFFFFFF.

Definition IsCoinbase (i : TxInput) : bool :=
  (prev_out_index i =? 0xFFFFFFFF) && HashIsZero (prev_tx_hash i).

Definition Serialize (i : TxInput) : bytes :=
  prev_tx_hash i ++ put_le 4 (prev_out_index i) ++ put_script_len (size (script_sig i))
  ++ script_sig i ++ put_le 4 (sequence i).

End TxInputOps.

Module TxOutputOps.

Definition Serialize (o : TxOutput) : bytes :=
  put_le 8 (value o) ++ put_script_len (size (script_pubkey o)) ++ script_pubkey o.

End TxOutputOps.

(** [!script.empty() && script[0] == 0x6A] *)
Definition is_op_return (script : bytes) : bool :=
  match script with b :: _ => b =? 0x6A | [] => false end.

Definition IsProvablyUnspendableOutput (o : TxOutput) : bool := is_op_return (script_pubkey o).

Definition Serialize (tx : Transaction) : bytes :=
  put_le 4 (version tx)
  ++ put_varint (size (inputs tx)) ++ concat (map TxInputOps.Serialize (inputs tx))
  ++ put_varint (size (outputs tx)) ++ concat (map TxOutputOps.Serialize (outputs tx))
  ++ put_le 4 (locktime tx).

(** The identity of a transaction.  The class caches the value after its first
    computation and drops the cache on every mutation through its interface. *)
Definition GetTxID (tx : Transaction) : Hash256 := Hash256d (Serialize tx).

(** ** Deserializer *)

(** [read_varint] and the two script-length readers share this shape: a
    nine-byte prefix (0xFF) is refused. *)
Definition read_varint : reader Z :=
  read first <- read_le 1;
  if first <? 0xFD then rret first
  else if first =? 0xFD then read_le 2
  else if first =? 0xFE then read_le 4
  else rfail.

Definition read_input : reader TxInput :=
  read h <- read_bytes 32;
  read idx <- read_le 4;
  read script_len <- read_varint;
  guard (script_len <=? MAX_TRANSACTION_SCRIPT_SIG_BYTES);
  read s <- read_bytes (Z.to_nat script_len);
  read sq <- read_le 4;
  rret (mkInput h idx s sq).

Definition read_output : reader TxOutput :=
  read v <- read_le 8;
  read pk_len <- read_varint;
  read s <- read_bytes (Z.to_nat pk_len);
  rret (mkOutput v s).

Definition read_transaction : reader Transaction :=
  read ver <- read_le 4;
  read in_count <- read_varint;
  guard (in_count <=? MAX_TRANSACTION_INPUTS);
  read ins <- read_list (Z.to_nat in_count) read_input;
  read out_count <- read_varint;
  guard (out_count <=? MAX_TRANSACTION_OUTPUTS);
  read outs <- read_list (Z.to_nat out_count) read_output;
  read lt <- read_le 4;
  rret (mkTx ver ins outs lt).

(** [Transaction::Deserialize(data, offset, out)]: the object and the number of
    bytes consumed; [None] is the return value 0. *)
Definition Deserialize (data : bytes) (offset : Z) : option (Transaction * Z) :=
  match read_transaction (drop (Z.to_nat offset) data) with
  | Some (tx, rest) => Some (tx, size data - size rest - offset)
  | None => None
  end.

(** ** Validity *)

(** The accumulation loop of [TotalOutput]; any excess saturates to one unit
    above the cap. *)
Fixpoint total_output_loop (outs : list TxOutput) (total : Z) : Z :=
  match outs with
  | [] => total
  | o :: outs' =>
      if value o >? MAX_SUPPLY_UNITS then MAX_SUPPLY_UNITS + 1
      else if total >? MAX_SUPPLY_UNITS - value o then MAX_SUPPLY_UNITS + 1
      else total_output_loop outs' (u64 (total + value o))
  end.

Definition TotalOutput (tx : Transaction) : Z := total_output_loop (outputs tx) 0.

Definition legacy_zero_coinbase_shape (tx : Transaction) : bool :=
  match inputs tx, outputs tx with
  | [i], [o] => TxInputOps.IsCoinbase i && (value o =? 0) && (size (script_pubkey o) =? 0)
  | _, _ => false
  end.

Definition output_ok (legacy : bool) (o : TxOutput) : bool :=
  let opret := is_op_return (script_pubkey o) in
  let max_script := if opret then MAX_OP_RETURN_SCRIPT_PUBKEY_BYTES
                    else MAX_SPENDABLE_SCRIPT_PUBKEY_BYTES in
  negb ((value o =? 0) && negb opret && negb legacy)
  && negb (size (script_pubkey o) >? max_script).

(** The duplicate-detection key: 32 raw bytes, a colon, the decimal index. *)
Definition outpoint_key (i : TxInput) : bytes :=
  prev_tx_hash i ++ 58 :: to_string (prev_out_index i).

Fixpoint inputs_distinct (ins : list TxInput) (seen : gset bytes) : bool :=
  match ins with
  | [] => true
  | i :: ins' =>
      if TxInputOps.IsCoinbase i then inputs_distinct ins' seen
      else if bool_decide (outpoint_key i ∈ seen) then false
      else inputs_distinct ins' ({[outpoint_key i]} ∪ seen)
  end.

Definition IsValid (tx : Transaction) : bool :=
  if (size (inputs tx) =? 0) || (size (outputs tx) =? 0) then false
  else if TotalOutput tx >? MAX_SUPPLY_UNITS then false
  else if (size (inputs tx) >? MAX_TRANSACTION_INPUTS)
          || (size (outputs tx) >? MAX_TRANSACTION_OUTPUTS) then false
  else if negb (forallb (fun i => negb (size (script_sig i) >? MAX_TRANSACTION_SCRIPT_SIG_BYTES))
                        (inputs tx)) then false
  else if negb (forallb (output_ok (legacy_zero_coinbase_shape tx)) (outputs tx)) then false
  else inputs_distinct (inputs tx) ∅.

Definition IsCoinbase (tx : Transaction) : bool :=
  match inputs tx with [i] => TxInputOps.IsCoinbase i | _ => false end.

Definition HasDustOutput (tx : Transaction) (threshold : Z) : bool :=
  if threshold =? 0 then false
  else existsb (fun o => negb (is_op_return (script_pubkey o)) && (value o >? 0) && (value o <? threshold))
               (outputs tx).

Definition CreateCoinbase (reward_units : Z) (miner_script message : bytes) : Transaction :=
  mkTx 1 [TxInputOps.Coinbase message] [mkOutput reward_units miner_script] 0.

Definition CreateProportionalCoinbase (miner_rewards : list (bytes * Z)) (message : bytes) : Transaction :=
  let outs := map (fun p => mkOutput (snd p) (fst p))
                (List.filter (fun p => (snd p >? 0) && negb (size (fst p) =? 0)) miner_rewards) in
  mkTx 1 [TxInputOps.Coinbase message]
    (match outs with [] => [mkOutput 0 [0x6A; 0x00]] | _ => outs end) 0.

(** ** Well-formed objects: field widths and the deserializer's limits *)

Definition wf_input (i : TxInput) : Prop :=
  is_hash (prev_tx_hash i) /\ fits 32 (prev_out_index i) /\ is_bytes (script_sig i)
  /\ size (script_sig i) <= MAX_TRANSACTION_SCRIPT_SIG_BYTES /\ fits 32 (sequence i).

Definition wf_output (o : TxOutput) : Prop :=
  fits 64 (value o) /\ is_bytes (script_pubkey o) /\ fits 32 (size (script_pubkey o)).

Definition wf_tx (tx : Transaction) : Prop :=
  fits 32 (version tx)
  /\ Forall wf_input (inputs tx) /\ size (inputs tx) <= MAX_TRANSACTION_INPUTS
  /\ Forall wf_output (outputs tx) /\ size (outputs tx) <= MAX_TRANSACTION_OUTPUTS
  /\ fits 32 (locktime tx).

#[global] Instance wf_tx_dec tx : Decision (wf_tx tx).
Proof. unfold wf_tx, wf_input, wf_output, is_hash, is_bytes. apply _. Defined.

Lemma size_nonneg {A} (l : list A) : 0 <= size l.
Proof. unfold size. lia. Qed.

Lemma to_nat_size {A} (l : list A) : Z.to_nat (size l) = length l.
Proof. unfold size. lia. Qed.

Lemma read_prefix_app v k n rest :
  n <> 0%nat -> fits 8 k -> 0xFD <= k -> fits (8 * Z.of_nat n) v ->
  (k = 0xFD /\ n = 2%nat \/ k = 0xFE /\ n = 4%nat) ->
  read_varint ((k :: put_le n v) ++ rest) = Some (v, rest).
Proof.
  intros Hn Hk Hge Hv Hcase. unfold read_varint, rbind.
  replace ((k :: put_le n v) ++ rest) with (put_le 1 k ++ put_le n v ++ rest).
  2:{ cbn [put_le app]. rewrite land_byte. unfold fits in Hk. by rewrite Z.mod_small by lia. }
  rewrite read_le_app by (change (8 * Z.of_nat 1) with 8; done).
  destruct (Z.ltb_spec k 0xFD); [lia|].
  destruct Hcase as [[-> ->]|[-> ->]]; cbn [Z.eqb Pos.eqb]; by rewrite read_le_app.
Qed.

Lemma read_varint_small v rest :
  0 <= v < 0xFD -> read_varint (put_le 1 v ++ rest) = Some (v, rest).
Proof.
  intros Hv. unfold read_varint, rbind. rewrite read_le_app by (unfold fits; cbn; lia).
  by destruct (Z.ltb_spec v 0xFD); [|lia].
Qed.

Lemma read_script_len v rest :
  fits 32 v -> read_varint (put_script_len v ++ rest) = Some (v, rest).
Proof.
  unfold fits. intros Hv. unfold put_script_len.
  destruct (Z.ltb_spec v 0xFD); [apply read_varint_small; lia|].
  destruct (Z.leb_spec v 0xFFFF);
    apply read_prefix_app; unfold fits; try (cbn; lia); auto.
Qed.

Lemma put_varint_script_len v : fits 32 v -> put_varint v = put_script_len v.
Proof.
  unfold fits, put_varint, put_script_len. intros Hv.
  destruct (Z.ltb_spec v 0xFD), (Z.leb_spec v 0xFFFF), (Z.leb_spec v 0xFFFFFFFF); (done || lia).
Qed.

Lemma read_put_varint v rest : fits 32 v -> read_varint (put_varint v ++ rest) = Some (v, rest).
Proof. intros Hv. rewrite put_varint_script_len by done. by apply read_script_len. Qed.

Lemma read_varint_inv d v rest :
  is_bytes d -> read_varint d = Some (v, rest) -> fits 32 v /\ is_bytes rest.
Proof.
  intros Hd. unfold read_varint, rbind. destruct (read_le 1 d) as [[f d1]|] eqn:E1; [|done].
  apply read_le_inv in E1 as (_ & Hf & Hd1); [|done].
  destruct (f <? 0xFD).
  - intros [= <- <-]. split; [|done]. apply (fits_mono 8); [lia|]. done.
  - destruct (f =? 0xFD); [|destruct (f =? 0xFE); [|done]]; intros E;
      apply read_le_inv in E as (_ & Hv & Hr); try done; split; try done.
    by apply (fits_mono 16); [lia|].
Qed.

(** Normalise a reader applied to the serialization it expects. *)
Ltac step_reader :=
  repeat first
    [ rewrite <- app_assoc
    | rewrite read_bytes_app by done
    | rewrite read_le_app by done
    | rewrite read_script_len by done
    | rewrite read_put_varint by done ].

Lemma read_input_app i rest : wf_input i -> read_input (TxInputOps.Serialize i ++ rest) = Some (i, rest).
Proof.
  destruct i as [h idx s sq]. intros ([Hh _] & Hidx & Hs & Hlen & Hsq). cbn [prev_tx_hash
    prev_out_index script_sig sequence] in *.
  assert (Hsl : fits 32 (size s))
    by (unfold fits, MAX_TRANSACTION_SCRIPT_SIG_BYTES in *; pose proof (size_nonneg s); lia).
  unfold TxInputOps.Serialize, read_input, rbind. cbn [prev_tx_hash prev_out_index script_sig sequence].
  step_reader. destruct (Z.leb_spec (size s) MAX_TRANSACTION_SCRIPT_SIG_BYTES); [|lia].
  rewrite to_nat_size. by step_reader.
Qed.

Lemma read_output_app o rest :
  wf_output o -> read_output (TxOutputOps.Serialize o ++ rest) = Some (o, rest).
Proof.
  destruct o as [v s]. intros (Hv & Hs & Hlen). cbn [value script_pubkey] in *.
  unfold TxOutputOps.Serialize, read_output, rbind. cbn [value script_pubkey].
  step_reader. rewrite to_nat_size. by step_reader.
Qed.

Lemma read_transaction_app tx rest :
  wf_tx tx -> read_transaction (Serialize tx ++ rest) = Some (tx, rest).
Proof.
  destruct tx as [ver ins outs lt]. intros (Hver & Hins & Hni & Houts & Hno & Hlt).
  cbn [version inputs outputs locktime] in *.
  assert (fits 32 (size ins)) by (unfold fits, MAX_TRANSACTION_INPUTS in *; pose proof (size_nonneg ins); lia).
  assert (fits 32 (size outs)) by (unfold fits, MAX_TRANSACTION_OUTPUTS in *; pose proof (size_nonneg outs); lia).
  unfold Serialize, read_transaction, rbind. cbn [version inputs outputs locktime]. step_reader.
  destruct (Z.leb_spec (size ins) MAX_TRANSACTION_INPUTS); [|lia]. rewrite to_nat_size.
  rewrite read_list_app by (apply (Forall_impl _ _ _ Hins); intros; by apply read_input_app).
  step_reader. destruct (Z.leb_spec (size outs) MAX_TRANSACTION_OUTPUTS); [|lia]. rewrite to_nat_size.
  rewrite read_list_app by (apply (Forall_impl _ _ _ Houts); intros; by apply read_output_app).
  by step_reader.
Qed.

(** The serialization determines the transaction, even inside a longer stream. *)
Lemma Serialize_inj tx1 tx2 r1 r2 :
  wf_tx tx1 -> wf_tx tx2 -> Serialize tx1 ++ r1 = Serialize tx2 ++ r2 -> tx1 = tx2 /\ r1 = r2.
Proof.
  intros H1 H2 E. pose proof (read_transaction_app tx1 r1 H1) as R1.
  rewrite E, (read_transaction_app tx2 r2 H2) in R1. by inversion R1.
Qed.

(** ** What the deserializer accepts is well formed *)

Lemma read_bytes_ok n d l rest :
  is_bytes d -> read_bytes n d = Some (l, rest) -> length l = n /\ is_bytes l /\ is_bytes rest.
Proof.
  intros Hd E. apply read_bytes_inv in E as [-> Hl]. apply is_bytes_app in Hd as [? ?]. auto.
Qed.

(** Run a reader hypothesis one step, keeping what the step guarantees. *)
Ltac run_reader H :=
  repeat match type of H with
  | context [match read_bytes ?n ?d with _ => _ end] =>
      let E := fresh "E" in destruct (read_bytes n d) as [[? ?]|] eqn:E; [|discriminate H];
      apply read_bytes_ok in E as (? & ? & ?); [|assumption]
  | context [match read_le ?n ?d with _ => _ end] =>
      let E := fresh "E" in destruct (read_le n d) as [[? ?]|] eqn:E; [|discriminate H];
      apply read_le_inv in E as (_ & ? & ?); [|assumption]
  | context [match read_varint ?d with _ => _ end] =>
      let E := fresh "E" in destruct (read_varint d) as [[? ?]|] eqn:E; [|discriminate H];
      apply read_varint_inv in E as (? & ?); [|assumption]
  | context [if ?a <=? ?b then _ else _] => destruct (Z.leb_spec a b); [|discriminate H]
  end.

Lemma read_input_inv d i rest :
  is_bytes d -> read_input d = Some (i, rest) -> wf_input i /\ is_bytes rest.
Proof.
  intros Hd E. unfold read_input, rbind, rfail, rret in E. run_reader E. injection E as <- <-.
  split; [|done]. unfold wf_input, is_hash, size. cbn [prev_tx_hash prev_out_index script_sig sequence].
  unfold fits in *. repeat split; try done; lia.
Qed.

Lemma read_output_inv d o rest :
  is_bytes d -> read_output d = Some (o, rest) -> wf_output o /\ is_bytes rest.
Proof.
  intros Hd E. unfold read_output, rbind, rret in E. run_reader E. injection E as <- <-.
  split; [|done]. unfold wf_output, size. cbn [value script_pubkey].
  unfold fits in *. repeat split; try done; lia.
Qed.

Lemma read_transaction_inv d tx rest :
  is_bytes d -> read_transaction d = Some (tx, rest) -> wf_tx tx /\ is_bytes rest.
Proof.
  intros Hd E. unfold read_transaction, rbind, rfail, rret in E. run_reader E.
  match type of E with context [read_list ?n read_input ?l] =>
    destruct (read_list n read_input l) as [[ins d2]|] eqn:E1; [|done];
    apply (read_list_inv _ wf_input) in E1 as (Hn1 & Hi & Hd2); [|apply read_input_inv|done] end.
  run_reader E.
  match type of E with context [read_list ?n read_output ?l] =>
    destruct (read_list n read_output l) as [[outs d3]|] eqn:E2; [|done];
    apply (read_list_inv _ wf_output) in E2 as (Hn2 & Ho & Hd3); [|apply read_output_inv|done] end.
  run_reader E. injection E as <- <-. unfold wf_tx, size. cbn [version inputs outputs locktime].
  unfold fits in *. repeat split; try done; lia.
Qed.

Lemma read_varint_len d v rest :
  read_varint d = Some (v, rest) -> (length rest + 1 <= length d)%nat.
Proof.
  unfold read_varint, rbind. destruct (read_le 1 d) as [[f d1]|] eqn:E1; [|done].
  apply read_le_len in E1. destruct (f <? 0xFD); [intros [= _ <-]; lia|].
  destruct (f =? 0xFD); [|destruct (f =? 0xFE); [|done]]; intros E; apply read_le_len in E; lia.
Qed.

Ltac len_reader H :=
  repeat match type of H with
  | context [match read_bytes ?n ?d with _ => _ end] =>
      let E := fresh "E" in destruct (read_bytes n d) as [[? ?]|] eqn:E; [|discriminate H];
      apply read_bytes_len in E
  | context [match read_le ?n ?d with _ => _ end] =>
      let E := fresh "E" in destruct (read_le n d) as [[? ?]|] eqn:E; [|discriminate H];
      apply read_le_len in E
  | context [match read_varint ?d with _ => _ end] =>
      let E := fresh "E" in destruct (read_varint d) as [[? ?]|] eqn:E; [|discriminate H];
      apply read_varint_len in E
  | context [match read_list ?n ?r ?d with _ => _ end] =>
      let E := fresh "E" in destruct (read_list n r d) as [[? ?]|] eqn:E; [|discriminate H];
      apply read_list_len in E; [|clear; intros d' a r' E']
  | context [if ?a <=? ?b then _ else _] => destruct (Z.leb_spec a b); [|discriminate H]
  end.

Lemma read_input_len d i rest : read_input d = Some (i, rest) -> (length rest <= length d)%nat.
Proof. intros E. unfold read_input, rbind, rfail, rret in E. len_reader E. injection E as _ <-. lia. Qed.

Lemma read_output_len d o rest : read_output d = Some (o, rest) -> (length rest <= length d)%nat.
Proof. intros E. unfold read_output, rbind, rret in E. len_reader E. injection E as _ <-. lia. Qed.

Lemma read_transaction_size d tx rest :
  read_transaction d = Some (tx, rest) -> (length rest + 10 <= length d)%nat.
Proof.
  intros E. unfold read_transaction, rbind, rfail, rret in E. len_reader E.
  2:{ by apply read_output_len in E'. }
  2:{ by apply read_input_len in E'. }
  injection E as _ <-. lia.
Qed.

(** ** What [IsValid] decides *)

Definition output_sum (outs : list TxOutput) : Z := foldr (fun o acc => value o + acc) 0 outs.

Lemma output_sum_nonneg' outs : Forall (fun o => 0 <= value o) outs -> 0 <= output_sum outs.
Proof.
  induction 1 as [|o outs Ho _ IH]; cbn [output_sum foldr]; [lia|]. unfold output_sum in IH. lia.
Qed.

Lemma wf_output_value outs : Forall wf_output outs -> Forall (fun o => 0 <= value o) outs.
Proof. intros H. eapply Forall_impl; [exact H|]. intros o [Ho _]. unfold fits in Ho. lia. Qed.

Lemma output_sum_nonneg outs : Forall wf_output outs -> 0 <= output_sum outs.
Proof. intros H. by apply output_sum_nonneg', wf_output_value. Qed.

Lemma total_output_loop_spec outs total :
  Forall (fun o => 0 <= value o) outs -> 0 <= total <= MAX_SUPPLY_UNITS ->
  total_output_loop outs total
  = if total + output_sum outs <=? MAX_SUPPLY_UNITS then total + output_sum outs
    else MAX_SUPPLY_UNITS + 1.
Proof.
  intros Hw. revert total. induction Hw as [|o outs Ho Hw IH]; intros total Ht;
    cbn [total_output_loop output_sum foldr].
  { rewrite Z.add_0_r. by destruct (Z.leb_spec total MAX_SUPPLY_UNITS); [|lia]. }
  pose proof (output_sum_nonneg' outs Hw). fold (output_sum outs).
  rewrite !Z.gtb_ltb. destruct (Z.ltb_spec MAX_SUPPLY_UNITS (value o)).
  { by destruct (Z.leb_spec (total + (value o + output_sum outs)) MAX_SUPPLY_UNITS); [lia|]. }
  destruct (Z.ltb_spec (MAX_SUPPLY_UNITS - value o) total).
  { by destruct (Z.leb_spec (total + (value o + output_sum outs)) MAX_SUPPLY_UNITS); [lia|]. }
  rewrite wrap_id by (unfold fits; split; [lia|]; apply Z.le_lt_trans with MAX_SUPPLY_UNITS; [lia|done]).
  rewrite IH by lia. by rewrite Z.add_assoc.
Qed.

Lemma TotalOutput_sum tx :
  Forall (fun o => 0 <= value o) (outputs tx) -> output_sum (outputs tx) <= MAX_SUPPLY_UNITS ->
  TotalOutput tx = output_sum (outputs tx).
Proof.
  intros H Hle. unfold TotalOutput. rewrite total_output_loop_spec by (done || (vm_compute; done)).
  rewrite Z.add_0_l. by destruct (Z.leb_spec (output_sum (outputs tx)) MAX_SUPPLY_UNITS); [|lia].
Qed.

Lemma TotalOutput_exact tx :
  Forall wf_output (outputs tx) ->
  TotalOutput tx = if output_sum (outputs tx) <=? MAX_SUPPLY_UNITS then output_sum (outputs tx)
                   else MAX_SUPPLY_UNITS + 1.
Proof.
  intros H%wf_output_value. unfold TotalOutput.
  rewrite total_output_loop_spec by (done || (vm_compute; done)). done.
Qed.

(** The outpoints a transaction spends. *)
Definition outpoint (i : TxInput) : Hash256 * Z := (prev_tx_hash i, prev_out_index i).
Definition spent (ins : list TxInput) : list (Hash256 * Z) :=
  map outpoint (List.filter (fun i => negb (TxInputOps.IsCoinbase i)) ins).

Lemma outpoint_key_inj i j :
  wf_input i -> wf_input j -> outpoint_key i = outpoint_key j -> outpoint i = outpoint j.
Proof.
  intros ([Hi _] & Hi2 & _) ([Hj _] & Hj2 & _) E. unfold outpoint_key in E.
  apply app_inv_len in E as [E1 E2]; [|congruence]. injection E2 as E2.
  apply to_string_inj in E2; [|by apply (fits_mono 32); [lia|]..].
  unfold outpoint. by rewrite E1, E2.
Qed.

Lemma inputs_distinct_spec (ins : list TxInput) (seen : gset bytes) (old : list TxInput) :
  Forall wf_input ins -> Forall wf_input old ->
  (forall k, k ∈ seen <-> exists j, j ∈ old /\ k = outpoint_key j) ->
  NoDup (map outpoint old) ->
  inputs_distinct ins seen = true
  <-> NoDup (map outpoint old ++ spent ins).
Proof.
  intros Hw. revert seen old. induction Hw as [|i ins Hi Hw IH]; intros seen old Hold Hseen Hnd;
    cbn [inputs_distinct].
  { unfold spent. cbn [List.filter map]. by rewrite app_nil_r. }
  unfold spent. cbn [List.filter]. destruct (TxInputOps.IsCoinbase i) eqn:Ecb; cbn [negb].
  { by apply IH. }
  cbn [map]. fold (spent ins).
  case_bool_decide as Hin.
  - split; [done|]. intros H. exfalso. apply Hseen in Hin as (j & Hj & E).
    apply outpoint_key_inj in E; [|done|by eapply Forall_forall].
    apply NoDup_app in H as (_ & H & _). apply (H (outpoint i)); [|left].
    rewrite E. apply list_elem_of_fmap. by exists j.
  - assert (Hni : outpoint i ∉ map outpoint old).
    { intros H. apply list_elem_of_fmap in H as (j & E & Hj). apply Hin, Hseen. exists j.
      split; [done|]. injection E as E1 E2. unfold outpoint_key. by rewrite E1, E2. }
    rewrite (IH _ (old ++ [i])).
    + rewrite map_app. cbn [map]. by rewrite <- app_assoc.
    + apply Forall_app. auto.
    + intros k. rewrite elem_of_union, elem_of_singleton, Hseen. split.
      * intros [->|(j & Hj & ->)]; [exists i|exists j]; split; try done; apply elem_of_app; auto.
        right. by apply list_elem_of_singleton.
      * intros (j & Hj & ->). apply elem_of_app in Hj as [Hj|Hj%list_elem_of_singleton]; [eauto|].
        subst. by left.
    + rewrite map_app. apply NoDup_app. split; [done|]. split; [|apply NoDup_singleton].
      intros x Hx Hx'. apply list_elem_of_singleton in Hx'. by subst.
Qed.

(** A zero value is allowed only on an OP_RETURN output or on the single output
    of the historical zero-reward coinbase; scripts are bounded by their kind. *)
Definition output_rule (tx : Transaction) (o : TxOutput) : Prop :=
  (value o = 0 -> IsProvablyUnspendableOutput o = true \/ legacy_zero_coinbase_shape tx = true)
  /\ size (script_pubkey o) <= (if IsProvablyUnspendableOutput o
                                then MAX_OP_RETURN_SCRIPT_PUBKEY_BYTES
                                else MAX_SPENDABLE_SCRIPT_PUBKEY_BYTES).

Lemma output_ok_spec tx o : output_ok (legacy_zero_coinbase_shape tx) o = true <-> output_rule tx o.
Proof.
  unfold output_ok, output_rule, IsProvablyUnspendableOutput.
  destruct (is_op_return (script_pubkey o)), (legacy_zero_coinbase_shape tx);
    rewrite Z.gtb_ltb; destruct (Z.eqb_spec (value o) 0); cbn [negb andb];
    try match goal with |- context [?a <? ?b] => destruct (Z.ltb_spec a b) end; cbn [negb]; try done;
    split; try done; intros; try (split; [tauto|lia]); try lia; naive_solver.
Qed.

Definition tx_rules (tx : Transaction) : Prop :=
  inputs tx <> [] /\ outputs tx <> []
  /\ output_sum (outputs tx) <= MAX_SUPPLY_UNITS
  /\ size (inputs tx) <= MAX_TRANSACTION_INPUTS /\ size (outputs tx) <= MAX_TRANSACTION_OUTPUTS
  /\ Forall (fun i => size (script_sig i) <= MAX_TRANSACTION_SCRIPT_SIG_BYTES) (inputs tx)
  /\ Forall (output_rule tx) (outputs tx)
  /\ NoDup (spent (inputs tx)).

Lemma size_eq_0 {A} (l : list A) : size l = 0 <-> l = [].
Proof. unfold size. destruct l; cbn; split; (done || lia). Qed.

Lemma TotalOutput_le tx :
  Forall wf_output (outputs tx) ->
  TotalOutput tx <= MAX_SUPPLY_UNITS <-> output_sum (outputs tx) <= MAX_SUPPLY_UNITS.
Proof.
  intros H. rewrite TotalOutput_exact by done.
  destruct (Z.leb_spec (output_sum (outputs tx)) MAX_SUPPLY_UNITS); lia.
Qed.

Lemma forallb_Forall {A} (f : A -> bool) (P : A -> Prop) l :
  (forall x, f x = true <-> P x) -> forallb f l = true <-> Forall P l.
Proof.
  intros Hf. induction l as [|x l IH]; cbn [forallb]; [split; auto|].
  by rewrite andb_true_iff, IH, Hf, Forall_cons.
Qed.

(** ** Properties *)

(** C33: a transaction survives the wire.  Deserializing at the offset where a
    well-formed transaction was written, inside any surrounding bytes, returns
    exactly that transaction and the exact number of bytes it occupies. *)
Theorem transaction_roundtrip tx before after :
  wf_tx tx ->
  Deserialize (before ++ Serialize tx ++ after) (size before) = Some (tx, size (Serialize tx)).
Proof.
  intros Hw. unfold Deserialize. rewrite to_nat_size, drop_app_length, read_transaction_app by done.
  do 2 f_equal. unfold size. rewrite !length_app. lia.
Qed.

Definition sample_tx : Transaction :=
  mkTx 1 [mkInput (replicate 32 7) 3 (replicate 300 9) 0xFFFFFFFE;
          TxInputOps.Coinbase (b:"x")]
    [mkOutput 500000000 (replicate 25 118); mkOutput 0 [0x6A; 0x01; 0x00]] 77.

Lemma sample_tx_wf : wf_tx sample_tx.
Proof. apply (bool_decide_unpack _). vm_compute. exact I. Qed.

Lemma transaction_roundtrip_witness :
  Deserialize ([1; 2; 3] ++ Serialize sample_tx ++ [4; 5]) 3 = Some (sample_tx, 441).
Proof. exact (transaction_roundtrip sample_tx [1; 2; 3] [4; 5] sample_tx_wf). Defined.

(** Whatever bytes arrive, an accepted transaction has every field within its
    width, at most 10,000 inputs and outputs and bounded scripts, it consumed at
    least ten bytes and never more than the buffer holds; so writing it again and
    reading it back gives the same object. *)
Lemma deserialize_well_formed data offset tx n :
  is_bytes data -> 0 <= offset -> Deserialize data offset = Some (tx, n) ->
  wf_tx tx /\ 10 <= n <= size data - offset
  /\ Deserialize (Serialize tx) 0 = Some (tx, size (Serialize tx)).
Proof.
  intros Hd Ho E. unfold Deserialize in E.
  destruct (read_transaction (drop (Z.to_nat offset) data)) as [[t rest]|] eqn:R; [|done].
  injection E as <- <-.
  assert (Hw : wf_tx t) by (apply read_transaction_inv in R as [? _]; auto with veld).
  split; [done|]. split.
  - apply read_transaction_size in R. unfold size in *. rewrite length_drop in R. lia.
  - unfold Deserialize. change (drop (Z.to_nat 0) (Serialize t)) with (Serialize t).
    rewrite <- (app_nil_r (Serialize t)) at 1. rewrite read_transaction_app by done.
    do 2 f_equal.
Qed.

Lemma deserialize_well_formed_witness :
  wf_tx sample_tx /\ 10 <= 441 <= 443 - 2
  /\ Deserialize (Serialize sample_tx) 0 = Some (sample_tx, size (Serialize sample_tx)).
Proof.
  apply (deserialize_well_formed (0 :: 1 :: Serialize sample_tx) 2);
    [apply (bool_decide_unpack _); vm_compute; exact I | lia | vm_compute; reflexivity].
Defined.

(** [IsValid] decides exactly the stateless rules.  For a transaction with
    in-range fields it returns true when there are inputs and outputs within the
    limits, the outputs sum (as integers, no wrap-around) to at most the 21M cap,
    scripts respect their bounds, zero-valued outputs are OP_RETURN or the
    historical coinbase, and no outpoint is spent twice; otherwise false. *)
Lemma is_valid_decides tx : wf_tx tx -> IsValid tx = true <-> tx_rules tx.
Proof.
  intros (_ & Hi & _ & Ho & _ & _).
  pose proof (TotalOutput_le tx Ho) as Htot.
  assert (Hdist : inputs_distinct (inputs tx) ∅ = true <-> NoDup (spent (inputs tx))).
  { apply (inputs_distinct_spec _ ∅ []); try done; [|constructor].
    intros k. rewrite elem_of_empty. split; [done|]. intros (j & Hj & _). by apply not_elem_of_nil in Hj. }
  assert (Hs : forallb (fun i => negb (size (script_sig i) >? MAX_TRANSACTION_SCRIPT_SIG_BYTES))
                 (inputs tx) = true
    <-> Forall (fun i => size (script_sig i) <= MAX_TRANSACTION_SCRIPT_SIG_BYTES) (inputs tx))
    by (apply forallb_Forall; intros; lia).
  pose proof (forallb_Forall _ (output_rule tx) (outputs tx) (output_ok_spec tx)) as Hr.
  pose proof (size_eq_0 (inputs tx)) as Hei. pose proof (size_eq_0 (outputs tx)) as Heo.
  unfold IsValid, tx_rules. rewrite !Z.gtb_ltb.
  destruct (Z.eqb_spec (size (inputs tx)) 0), (Z.eqb_spec (size (outputs tx)) 0); cbn [orb]; try tauto;
    try (split; [done|tauto]).
  destruct (Z.ltb_spec MAX_SUPPLY_UNITS (TotalOutput tx)); [split; [done|intros; lia]|].
  destruct (Z.ltb_spec MAX_TRANSACTION_INPUTS (size (inputs tx))),
    (Z.ltb_spec MAX_TRANSACTION_OUTPUTS (size (outputs tx))); cbn [orb];
    try (split; [done|intros; lia]).
  destruct (forallb _ (inputs tx)); cbn [negb]; [|split; [done|intros (_ & _ & _ & _ & _ & ? & _); by apply Hs]].
  destruct (forallb _ (outputs tx)); cbn [negb]; [|split; [done|intros (_ & _ & _ & _ & _ & _ & ? & _); by apply Hr]].
  rewrite Hdist. tauto.
Qed.

Lemma is_valid_decides_witness : tx_rules sample_tx.
Proof. apply (is_valid_decides sample_tx sample_tx_wf). vm_compute. reflexivity. Defined.
