(* ===== verification/Block.v ===== *)
(** * Blocks

    [core/block.h]: the 88-byte header, its hash and target test, the tagged
    Merkle tree, the block wire format and the pinned genesis block. *)
From S2P Require Import Prelude Bytes Sha256 Profile Limbs BtcPow PowTarget Transaction.

(** ** Header *)

Record BlockHeader := mkHeader {
  hdr_version : Z; prev_block_hash : Hash256; merkle_root : Hash256;
  timestamp : Z; bits : Z; nonce : Z }.

#[global] Instance BlockHeader_eq_dec : EqDecision BlockHeader.
Proof. solve_decision. Defined.

Module BlockHeaderOps.

Definition Serialize (h : BlockHeader) : bytes :=
  put_le 4 (hdr_version h) ++ prev_block_hash h ++ merkle_root h
  ++ put_le 8 (timestamp h) ++ put_le 4 (bits h) ++ put_le 8 (nonce h).

(** [rd32]/[rd64] at an absolute offset *)
Definition rd (n : nat) (data : bytes) (o : nat) : Z := get_le (take n (drop o data)).

Definition Deserialize (data : bytes) (offset : Z) : option BlockHeader :=
  if size data <? offset + 88 then None
  else
    let o := Z.to_nat offset in
    Some (mkHeader (rd 4 data o) (take 32 (drop (o + 4) data)) (take 32 (drop (o + 36) data))
            (rd 8 data (o + 68)) (rd 4 data (o + 76)) (rd 8 data (o + 80))).

Definition GetHash (h : BlockHeader) : Hash256 := Hash256d (Serialize h).

Definition GetTemplateWorkIdentity (h : BlockHeader) : Hash256 :=
  Hash256d (Serialize (mkHeader (hdr_version h) (prev_block_hash h) (merkle_root h)
                         (timestamp h) (bits h) 0)).

(** The out-parameter is zeroed when the encoding is refused. *)
Definition DecodeBits (b : Z) : bool * Hash256 :=
  match DecodeCanonicalVeldTarget b with
  | inr t => (true, tgt_bytes t)
  | inl _ => (false, ZeroHash)
  end.

Definition GetTarget (h : BlockHeader) : Hash256 :=
  let '(ok, target) := DecodeBits (bits h) in if ok then target else ZeroHash.

Definition MeetsTarget (h : BlockHeader) : bool := lex_lt (GetHash h) (GetTarget h).

End BlockHeaderOps.

(** ** Merkle tree *)

Definition tagged (tag data : bytes) : bytes := Hash256d tag ++ Hash256d tag ++ data.
Definition TaggedHash (tag data : bytes) : Hash256 := Hash256d (tagged tag data).

Definition LEAF_TAG : bytes := b:"VeldMerkleLeaf".
Definition BRANCH_TAG : bytes := b:"VeldMerkleBranch".

(** One pass of the outer loop: pairs are hashed, an odd last node moves up unchanged. *)
Fixpoint next_layer (hashes : list Hash256) : list Hash256 :=
  match hashes with
  | a :: b :: rest => TaggedHash BRANCH_TAG (a ++ b) :: next_layer rest
  | _ => hashes
  end.

(** [while (hashes.size() > 1)]: every pass shortens the list, so its length
    bounds the number of passes. *)
Fixpoint merkle_loop (fuel : nat) (hashes : list Hash256) : list Hash256 :=
  match fuel with
  | O => hashes
  | S fuel' => if (1 <? length hashes)%nat then merkle_loop fuel' (next_layer hashes) else hashes
  end.

Definition ComputeMerkleRoot (txs : list Transaction) : Hash256 :=
  match txs with
  | [] => ZeroHash
  | _ => let hashes := map (fun tx => TaggedHash LEAF_TAG (GetTxID tx)) txs in
         nth 0 (merkle_loop (length hashes) hashes) ZeroHash
  end.

(** ** Block *)

Record Block := mkBlock { header : BlockHeader; transactions : list Transaction; height : Z }.

Definition UpdateMerkleRoot (b : Block) : Block :=
  let h := header b in
  mkBlock (mkHeader (hdr_version h) (prev_block_hash h) (ComputeMerkleRoot (transactions b))
             (timestamp h) (bits h) (nonce h)) (transactions b) (height b).

Definition IsStructurallyValid (b : Block) : bool :=
  match transactions b with
  | [] => false
  | tx0 :: _ =>
      if negb (IsCoinbase tx0) then false
      else if negb (bytes_eqb (ComputeMerkleRoot (transactions b)) (merkle_root (header b))) then false
      else if negb (BlockHeaderOps.MeetsTarget (header b)) then false
      else negb (size (transactions b) >? MAX_TRANSACTIONS_PER_BLOCK)
  end.

Module BlockOps.

Definition Serialize (b : Block) : bytes :=
  BlockHeaderOps.Serialize (header b) ++ put_le 4 (u32 (size (transactions b)))
  ++ concat (map Transaction.Serialize (transactions b)).

(** [size_t] arithmetic, saturating at its maximum. *)
Fixpoint size_loop (txs : list Transaction) (total : Z) : Z :=
  match txs with
  | [] => total
  | tx :: txs' =>
      let tx_size := size (Transaction.Serialize tx) in
      if tx_size >? UINT64_MAX - total then UINT64_MAX else size_loop txs' (u64 (total + tx_size))
  end.

Definition SerializedSize (b : Block) : Z := size_loop (transactions b) 92.

Definition read_header : reader BlockHeader :=
  read v <- read_le 4; read p <- read_bytes 32; read m <- read_bytes 32;
  read ts <- read_le 8; read b <- read_le 4; read n <- read_le 8;
  rret (mkHeader v p m ts b n).

(** The header is followed by the transaction count and the transactions; the
    caller supplies the height. *)
Definition read_block (h : Z) : reader Block :=
  read hdr <- read_header;
  read tx_count <- read_le 4;
  guard (tx_count <=? MAX_TRANSACTIONS_PER_BLOCK);
  read txs <- read_list (Z.to_nat tx_count) read_transaction;
  rret (mkBlock hdr txs h).

Definition Deserialize (h : Z) (data : bytes) (offset : Z) : option (Block * Z) :=
  match read_block h (drop (Z.to_nat offset) data) with
  | Some (b, rest) => Some (b, size data - size rest - offset)
  | None => None
  end.

End BlockOps.

(** ** Genesis: [None] is the fatal mismatch exception *)

Definition genesis_block : Block :=
  let coinbase := mkTx 1 [TxInputOps.Coinbase GENESIS_MESSAGE] [mkOutput 0 []] 0 in
  mkBlock (mkHeader 1 ZeroHash (ComputeMerkleRoot [coinbase]) GENESIS_TIME GENESIS_BITS GENESIS_NONCE)
    [coinbase] 0.

Definition CreateGenesisBlock : option Block :=
  let be_hex := BytesToHex (rev (BlockHeaderOps.GetHash (header genesis_block))) in
  if negb (size GENESIS_HASH =? 0) && negb (bytes_eqb be_hex GENESIS_HASH) then None
  else Some genesis_block.

(** ** Lemmas: wire format *)

Definition wf_header (h : BlockHeader) : Prop :=
  fits 32 (hdr_version h) /\ is_hash (prev_block_hash h) /\ is_hash (merkle_root h)
  /\ fits 64 (timestamp h) /\ fits 32 (bits h) /\ fits 64 (nonce h).

Definition wf_block (b : Block) : Prop :=
  wf_header (header b) /\ Forall wf_tx (transactions b)
  /\ size (transactions b) <= MAX_TRANSACTIONS_PER_BLOCK.

#[global] Instance wf_block_dec b : Decision (wf_block b).
Proof. unfold wf_block, wf_header. apply _. Defined.

Lemma length_header_serialize h : wf_header h -> length (BlockHeaderOps.Serialize h) = 88%nat.
Proof.
  intros (_ & [Hp _] & [Hm _] & _). unfold BlockHeaderOps.Serialize.
  rewrite !length_app, !length_put_le, Hp, Hm. done.
Qed.

Lemma read_header_app h rest :
  wf_header h -> BlockOps.read_header (BlockHeaderOps.Serialize h ++ rest) = Some (h, rest).
Proof.
  destruct h as [v p m ts b n]. intros (Hv & [Hp _] & [Hm _] & Hts & Hb & Hn).
  cbn [hdr_version prev_block_hash merkle_root timestamp bits nonce] in *.
  unfold BlockHeaderOps.Serialize, BlockOps.read_header, rbind.
  cbn [hdr_version prev_block_hash merkle_root timestamp bits nonce]. by step_reader.
Qed.

Lemma read_block_app b rest :
  wf_block b -> BlockOps.read_block (height b) (BlockOps.Serialize b ++ rest) = Some (b, rest).
Proof.
  destruct b as [h txs ht]. intros (Hh & Htx & Hn). cbn [header transactions height] in *.
  unfold BlockOps.Serialize, BlockOps.read_block, rbind. cbn [header transactions height].
  assert (fits 32 (size txs))
    by (unfold fits, MAX_TRANSACTIONS_PER_BLOCK in *; pose proof (size_nonneg txs); lia).
  rewrite (wrap_id 32) by done. rewrite <- app_assoc, read_header_app by done. step_reader.
  destruct (Z.leb_spec (size txs) MAX_TRANSACTIONS_PER_BLOCK); [|lia]. rewrite to_nat_size.
  by rewrite read_list_app
    by (apply (Forall_impl _ _ _ Htx); intros; by apply read_transaction_app).
Qed.

Lemma size_loop_exact txs total :
  0 <= total -> total + size (concat (map Serialize txs)) <= UINT64_MAX ->
  BlockOps.size_loop txs total = total + size (concat (map Serialize txs)).
Proof.
  revert total. induction txs as [|tx txs IH]; intros total Ht Hb; cbn [BlockOps.size_loop map concat] in *.
  { unfold size. cbn. lia. }
  assert (Hs : size (Serialize tx ++ concat (map Serialize txs))
               = size (Serialize tx) + size (concat (map Serialize txs)))
    by (unfold size; rewrite length_app; lia).
  rewrite Hs in *. pose proof (size_nonneg (Serialize tx)).
  pose proof (size_nonneg (concat (map Serialize txs))).
  rewrite Z.gtb_ltb. destruct (Z.ltb_spec (UINT64_MAX - total) (size (Serialize tx))); [lia|].
  rewrite wrap_id by (unfold fits, UINT64_MAX in *; lia). rewrite IH by lia. lia.
Qed.

Lemma serialized_size_exact b :
  wf_header (header b) -> size (BlockOps.Serialize b) <= UINT64_MAX ->
  BlockOps.SerializedSize b = size (BlockOps.Serialize b).
Proof.
  intros Hh. unfold BlockOps.SerializedSize, BlockOps.Serialize. intros Hs.
  assert (E : size (BlockHeaderOps.Serialize (header b) ++ put_le 4 (u32 (size (transactions b)))
                    ++ concat (map Serialize (transactions b)))
              = 92 + size (concat (map Serialize (transactions b)))).
  { unfold size. rewrite !length_app, length_header_serialize, length_put_le by done. lia. }
  rewrite E in *. apply size_loop_exact; lia.
Qed.

(** ** Lemmas: big-endian comparison *)

Lemma be_val_acc x l :
  foldl (fun acc b => acc * 256 + b) x l = x * 256 ^ size l + be_val l.
Proof.
  unfold be_val, size. induction l as [|c l IH] using rev_ind; [cbn; lia|].
  rewrite !foldl_app, length_app. cbn [foldl length]. rewrite IH.
  replace (Z.of_nat (length l + 1)) with (Z.succ (Z.of_nat (length l))) by lia.
  rewrite Z.pow_succ_r by lia. lia.
Qed.

Lemma be_val_cons b l : be_val (b :: l) = b * 256 ^ size l + be_val l.
Proof. unfold be_val at 1. cbn [foldl]. rewrite be_val_acc. lia. Qed.

Lemma be_val_bound l : is_bytes l -> 0 <= be_val l < 256 ^ size l.
Proof.
  unfold size. induction 1 as [|b l Hb Hl IH]; [cbn; lia|].
  rewrite be_val_cons. unfold size. cbn [length]. rewrite Nat2Z.inj_succ, Z.pow_succ_r by lia.
  unfold fits in Hb. nia.
Qed.

(** The array order is the order of the big-endian values. *)
Lemma lex_lt_be a b :
  is_bytes a -> is_bytes b -> length a = length b -> lex_lt a b = (be_val a <? be_val b).
Proof.
  intros Ha. revert b. induction Ha as [|x a Hx Ha IH]; intros [|y b] Hb Hl; try done.
  apply Forall_cons in Hb as [Hy Hb]. injection Hl as Hl. cbn [lex_lt].
  rewrite !be_val_cons. unfold size. rewrite Hl.
  pose proof (be_val_bound a Ha) as Ba. pose proof (be_val_bound b Hb) as Bb. unfold size in *.
  rewrite Hl in Ba. unfold fits in *. set (P := 256 ^ Z.of_nat (length b)) in *.
  destruct (Z.ltb_spec x y); [symmetry; apply Z.ltb_lt; nia|].
  destruct (Z.ltb_spec y x); [symmetry; apply Z.ltb_ge; nia|].
  rewrite IH by done. assert (x = y) as -> by lia.
  destruct (Z.ltb_spec (be_val a) (be_val b)); symmetry; [apply Z.ltb_lt|apply Z.ltb_ge]; lia.
Qed.

Lemma target_bytes_bytes t : is_hash (target_bytes t).
Proof.
  unfold target_bytes. split; [by rewrite length_map|]. apply Forall_map, Forall_forall.
  intros i _. apply wrap_fits. lia.
Qed.

(** ** Lemmas: the Merkle tree *)

Lemma length_next_layer hs : (length (next_layer hs) <= length hs)%nat
  /\ ((1 < length hs)%nat -> (length (next_layer hs) < length hs)%nat)
  /\ ((0 < length hs)%nat -> (0 < length (next_layer hs))%nat).
Proof.
  enough (H : forall n hs, (length hs <= n)%nat -> (length (next_layer hs) <= length hs)%nat
    /\ ((1 < length hs)%nat -> (length (next_layer hs) < length hs)%nat)
    /\ ((0 < length hs)%nat -> (0 < length (next_layer hs))%nat)) by (apply (H (length hs)); lia).
  induction n as [|n IH]; intros [|a [|b l]] Hn; cbn [next_layer length] in *; try lia.
  destruct (IH l) as (H1 & _ & _); lia.
Qed.

Lemma merkle_loop_one fuel hs :
  (0 < length hs <= fuel)%nat -> length (merkle_loop fuel hs) = 1%nat.
Proof.
  revert hs. induction fuel as [|fuel IH]; intros hs H; [lia|]. cbn [merkle_loop].
  destruct (Nat.ltb_spec 1 (length hs)); [|lia]. destruct (length_next_layer hs) as (_ & H1 & H2).
  apply IH. lia.
Qed.

(** The tree the loop builds over the transaction ids. *)
Inductive mtree := Leaf (txid : Hash256) | Node (l r : mtree).

Fixpoint thash (t : mtree) : Hash256 :=
  match t with
  | Leaf x => TaggedHash LEAF_TAG x
  | Node l r => TaggedHash BRANCH_TAG (thash l ++ thash r)
  end.

Fixpoint leaves (t : mtree) : list Hash256 :=
  match t with Leaf x => [x] | Node l r => leaves l ++ leaves r end.

(** What hashing the tree feeds to the hash function, tags apart. *)
Fixpoint tree_inputs (t : mtree) : list bytes :=
  match t with
  | Leaf x => [tagged LEAF_TAG x]
  | Node l r => tagged BRANCH_TAG (thash l ++ thash r) :: tree_inputs l ++ tree_inputs r
  end.

Fixpoint next_trees (ts : list mtree) : list mtree :=
  match ts with a :: b :: rest => Node a b :: next_trees rest | _ => ts end.

(** What one pass, and the whole loop, feed to the hash function. *)
Fixpoint layer_inputs (hashes : list Hash256) : list bytes :=
  match hashes with
  | a :: b :: rest => tagged BRANCH_TAG (a ++ b) :: layer_inputs rest
  | _ => []
  end.

Fixpoint loop_inputs (fuel : nat) (hashes : list Hash256) : list bytes :=
  match fuel with
  | O => []
  | S fuel' => if (1 <? length hashes)%nat
               then layer_inputs hashes ++ loop_inputs fuel' (next_layer hashes) else []
  end.

(** Every byte string [ComputeMerkleRoot txs] hashes. *)
Definition merkle_inputs (txs : list Transaction) : list bytes :=
  let hashes := map (fun tx => TaggedHash LEAF_TAG (GetTxID tx)) txs in
  [LEAF_TAG; BRANCH_TAG] ++ map Serialize txs
  ++ map (fun tx => tagged LEAF_TAG (GetTxID tx)) txs ++ loop_inputs (length hashes) hashes.

(** [Hash256d] has no collision among the listed messages. *)
Definition no_collision (msgs : list bytes) : Prop :=
  Forall (fun a => Forall (fun b => Hash256d a = Hash256d b -> a = b) msgs) msgs.

Lemma no_collision_elim msgs a b :
  no_collision msgs -> a ∈ msgs -> b ∈ msgs -> Hash256d a = Hash256d b -> a = b.
Proof.
  intros H Ha Hb. eapply Forall_forall in H; [|exact Ha]. by eapply Forall_forall in H.
Qed.

(** Pairwise induction on lists. *)
Lemma list_pair_ind {A} (P : list A -> Prop) :
  P [] -> (forall a, P [a]) -> (forall a b l, P l -> P (a :: b :: l)) -> forall l, P l.
Proof.
  intros H0 H1 H2. fix IH 1. intros [|a [|b l]]; [exact H0|exact (H1 a)|exact (H2 a b l (IH l))].
Qed.

Lemma next_trees_hash ts : map thash (next_trees ts) = next_layer (map thash ts).
Proof.
  induction ts as [|a|a b l IH] using list_pair_ind; [done..|].
  cbn [next_trees map next_layer thash]. by rewrite IH.
Qed.

Lemma next_trees_leaves ts : concat (map leaves (next_trees ts)) = concat (map leaves ts).
Proof.
  induction ts as [|a|a b l IH] using list_pair_ind; [done..|].
  cbn [next_trees map concat leaves]. by rewrite IH, app_assoc.
Qed.

Lemma next_trees_inputs ts (msgs : list bytes) :
  Forall (fun t => tree_inputs t ⊆ msgs) ts -> layer_inputs (map thash ts) ⊆ msgs ->
  Forall (fun t => tree_inputs t ⊆ msgs) (next_trees ts).
Proof.
  induction ts as [|a|a b l IH] using list_pair_ind; intros Hts Hl; [done..|].
  apply Forall_cons in Hts as [Ha Hts]. apply Forall_cons in Hts as [Hb Hts].
  cbn [layer_inputs map next_trees] in *.
  assert (Hh : tagged BRANCH_TAG (thash a ++ thash b) ∈ msgs) by (apply Hl; left).
  constructor; [|apply IH; [done|]; intros y Hy; apply Hl; by right].
  cbn [tree_inputs]. intros y [->|[Hy|Hy]%elem_of_app]%elem_of_cons; auto.
Qed.

(** The loop computes the hash of one tree over the same leaves, all of whose
    hash inputs are among those of the loop. *)
Lemma merkle_loop_tree fuel ts (msgs : list bytes) :
  (0 < length ts <= fuel)%nat -> Forall (fun t => tree_inputs t ⊆ msgs) ts ->
  loop_inputs fuel (map thash ts) ⊆ msgs ->
  exists t, merkle_loop fuel (map thash ts) = [thash t]
    /\ leaves t = concat (map leaves ts) /\ tree_inputs t ⊆ msgs.
Proof.
  revert ts. induction fuel as [|fuel IH]; intros ts Hlen Hts Hin; [lia|].
  cbn [merkle_loop loop_inputs] in *. rewrite length_map in *.
  destruct (Nat.ltb_spec 1 (length ts)) as [Hgt|Hle].
  - rewrite <- next_trees_hash in *.
    destruct (length_next_layer (map thash ts)) as (_ & H1 & H2).
    rewrite <- next_trees_hash, !length_map in H1, H2.
    destruct (IH (next_trees ts)) as (t & E & El & Ei);
      [lia | apply next_trees_inputs; [done|] | |];
      try (intros y Hy; apply Hin, elem_of_app; auto).
    exists t. by rewrite <- next_trees_leaves.
  - destruct ts as [|t [|? ?]]; cbn [length] in *; try lia. exists t. cbn [map concat].
    rewrite app_nil_r. apply Forall_cons in Hts as [? _]. done.
Qed.

Lemma thash_len t : length (thash t) = 32%nat.
Proof. destruct t; apply Hash256d_hash. Qed.

Lemma tagged_inj tag1 tag2 d1 d2 :
  tagged tag1 d1 = tagged tag2 d2 -> Hash256d tag1 = Hash256d tag2 /\ d1 = d2.
Proof.
  unfold tagged. intros E.
  assert (Hl : forall x, length (Hash256d x) = 32%nat) by (intros; apply Hash256d_hash).
  apply app_inv_len in E as [E1 E]; [|by rewrite !Hl].
  apply app_inv_len in E as [E2 E]; [|by rewrite !Hl]. done.
Qed.

Lemma cons_app_subseteq {A} (x : A) a b (m : list A) :
  x :: a ++ b ⊆ m -> x ∈ m /\ a ⊆ m /\ b ⊆ m.
Proof.
  intros H. split; [apply H; left|].
  split; intros y Hy; apply H; right; apply elem_of_app; auto.
Qed.

Lemma thash_binding msgs t1 t2 :
  no_collision msgs -> LEAF_TAG ∈ msgs -> BRANCH_TAG ∈ msgs ->
  tree_inputs t1 ⊆ msgs -> tree_inputs t2 ⊆ msgs -> thash t1 = thash t2 -> t1 = t2.
Proof.
  intros Hnc HL HB.
  assert (Htags : Hash256d LEAF_TAG <> Hash256d BRANCH_TAG).
  { intros E. apply (no_collision_elim msgs) in E; [|done..]. discriminate E. }
  revert t2.
  induction t1 as [x|l IHl r IHr]; intros [y|l' r'] H1 H2 E; cbn [thash tree_inputs] in *;
    unfold TaggedHash in E;
    (apply (no_collision_elim msgs) in E; [|done|apply H1; left|apply H2; left]);
    apply tagged_inj in E as [Et Ed].
  - by subst.
  - by destruct (Htags Et).
  - exact (False_ind _ (Htags (eq_sym Et))).
  - apply app_inv_len in Ed as [El Er]; [|by rewrite !thash_len].
    apply cons_app_subseteq in H1 as (_ & H1l & H1r). apply cons_app_subseteq in H2 as (_ & H2l & H2r).
    by rewrite (IHl l' H1l H2l El), (IHr r' H1r H2r Er).
Qed.

Lemma merkle_tree_of txs (msgs : list bytes) :
  txs <> [] -> merkle_inputs txs ⊆ msgs ->
  exists t, ComputeMerkleRoot txs = thash t /\ leaves t = map GetTxID txs /\ tree_inputs t ⊆ msgs.
Proof.
  intros Hne Hin. unfold merkle_inputs in Hin. set (ts := map (fun tx => Leaf (GetTxID tx)) txs).
  assert (Hts : map (fun tx => TaggedHash LEAF_TAG (GetTxID tx)) txs = map thash ts).
  { unfold ts. rewrite map_map. done. }
  rewrite Hts in Hin.
  assert (Hlen : (0 < length ts)%nat).
  { unfold ts. rewrite length_map. destruct txs; [done|cbn; lia]. }
  destruct (merkle_loop_tree (length (map thash ts)) ts msgs) as (t & E & El & Ei).
  - rewrite length_map. lia.
  - unfold ts. apply Forall_map, Forall_forall. intros tx Htx. cbn [tree_inputs].
    intros m Hm%list_elem_of_singleton. subst m. apply Hin. rewrite !elem_of_app. right. right. left.
    apply list_elem_of_fmap. by exists tx.
  - intros y Hy. apply Hin. rewrite !elem_of_app. auto.
  - exists t. split; [|split; [|done]].
    + unfold ComputeMerkleRoot. rewrite Hts. destruct txs; [done|]. by rewrite E.
    + rewrite El. unfold ts. clear. induction txs as [|tx txs IH]; [done|].
      cbn [map concat leaves app]. by f_equal.
Qed.

Fixpoint no_collision_b_with (hs all : list (Hash256 * bytes)) : bool :=
  match hs with
  | [] => true
  | p :: hs' => forallb (fun q => negb (bytes_eqb (fst p) (fst q)) || bytes_eqb (snd p) (snd q)) all
                && no_collision_b_with hs' all
  end.

(** A check of [no_collision] that hashes every message once. *)
Definition no_collision_b (msgs : list bytes) : bool :=
  let hs := map (fun m => (Hash256d m, m)) msgs in no_collision_b_with hs hs.

Lemma no_collision_b_sound msgs : no_collision_b msgs = true -> no_collision msgs.
Proof.
  unfold no_collision_b, no_collision. generalize msgs at 2 3 as all.
  induction msgs as [|m msgs IH]; intros all H; [constructor|].
  cbn [map no_collision_b_with] in H. apply andb_true_iff in H as [H1 H2].
  constructor; [|by apply IH]. clear IH H2. induction all as [|x all IH]; [constructor|].
  cbn [map forallb fst snd] in H1. apply andb_true_iff in H1 as [H1 H2]. constructor; [|by apply IH].
  intros E. unfold bytes_eqb in H1. rewrite E, bool_decide_eq_true_2 in H1 by done.
  cbn [negb orb] in H1. by apply bool_decide_eq_true_1 in H1.
Qed.

(** Equal transaction ids mean equal transactions. *)
Lemma txids_binding msgs txs1 txs2 :
  no_collision msgs -> Forall wf_tx txs1 -> Forall wf_tx txs2 ->
  map Serialize txs1 ⊆ msgs -> map Serialize txs2 ⊆ msgs ->
  map GetTxID txs1 = map GetTxID txs2 -> txs1 = txs2.
Proof.
  intros Hnc Hw1. revert txs2. induction Hw1 as [|a l Ha Hl IH]; intros [|b l2] Hw2 H1 H2 E; try done.
  cbn [map] in *. injection E as E1 E2. apply Forall_cons in Hw2 as [Hb Hw2]. f_equal.
  - apply (no_collision_elim msgs) in E1; [|done|apply H1; left|apply H2; left].
    apply (Serialize_inj a b [] []); [done..|]. by rewrite E1.
  - apply IH; try done; intros y Hy; [apply H1|apply H2]; by right.
Qed.

Lemma read_bytes_step n d :
  read_bytes n d = if (length d <? n)%nat then None else Some (take n d, drop n d).
Proof. done. Qed.

(** ** Properties *)

(** A block survives the wire.  Reading at the offset where a well-formed
    block was written returns that block and consumes exactly the number of bytes
    that [SerializedSize] reports to the consensus size check. *)
Lemma block_roundtrip b before after :
  wf_block b -> size (BlockOps.Serialize b) <= UINT64_MAX ->
  BlockOps.Deserialize (height b) (before ++ BlockOps.Serialize b ++ after) (size before)
  = Some (b, BlockOps.SerializedSize b).
Proof.
  intros Hw Hs. unfold BlockOps.Deserialize.
  rewrite to_nat_size, drop_app_length, read_block_app by done. do 2 f_equal.
  transitivity (size (BlockOps.Serialize b)); [unfold size; rewrite !length_app; lia|].
  symmetry. apply serialized_size_exact; [apply Hw|done].
Qed.

Definition sample_block : Block :=
  mkBlock (mkHeader 2 (replicate 32 1) (replicate 32 2) 1785599160 0x1e390000 42)
    [sample_tx; sample_tx] 7.

Lemma sample_block_wf : wf_block sample_block.
Proof. apply (bool_decide_unpack _). vm_compute. exact I. Qed.

Lemma block_roundtrip_witness :
  BlockOps.Deserialize 7 ([9] ++ BlockOps.Serialize sample_block ++ [8]) 1 = Some (sample_block, 974).
Proof.
  exact (block_roundtrip sample_block [9] [8] sample_block_wf ltac:(vm_compute; discriminate)).
Defined.

(** The header has two independent parsers, one by absolute offsets and one
    inside the block reader; they agree on every input, refusing the same
    buffers and returning the same header. *)
Lemma header_parsers_agree data offset :
  0 <= offset ->
  BlockHeaderOps.Deserialize data offset
  = option_map fst (BlockOps.read_header (drop (Z.to_nat offset) data)).
Proof.
  intros Ho. unfold BlockHeaderOps.Deserialize, BlockOps.read_header, read_le, rbind, rret.
  replace (size data <? offset + 88) with (length (drop (Z.to_nat offset) data) <? 88)%nat
    by (unfold size; rewrite length_drop; destruct (Nat.ltb_spec (length data - Z.to_nat offset) 88),
          (Z.ltb_spec (Z.of_nat (length data)) (offset + 88)); (done || lia)).
  unfold BlockHeaderOps.rd. rewrite <- !drop_drop. set (d := drop (Z.to_nat offset) data).
  assert (Hrb : forall n k, read_bytes n (drop k d)
    = if (length d - k <? n)%nat then None else Some (take n (drop k d), drop (k + n) d)).
  { intros n k. rewrite read_bytes_step, length_drop, drop_drop. done. }
  change d with (drop 0 d) at 8. destruct (Nat.ltb_spec (length d) 88) as [Hlt|Hge].
  - repeat (rewrite Hrb; match goal with |- context [(?a <? ?b)%nat] =>
      destruct (Nat.ltb_spec a b); [done|] end; cbn [Nat.add] in * ). lia.
  - repeat (rewrite Hrb; match goal with |- context [(?a <? ?b)%nat] =>
      destruct (Nat.ltb_spec a b); [lia|] end; cbn [Nat.add] in * ). done.
Qed.

Lemma header_parsers_agree_witness :
  BlockHeaderOps.Deserialize (0 :: BlockHeaderOps.Serialize (header sample_block)) 1
  = Some (header sample_block).
Proof. rewrite (header_parsers_agree _ 1); [vm_compute; reflexivity | lia]. Defined.

(** The proof-of-work test.  A header meets its target exactly when its
    [bits] field is an encoding the canonical decoder accepts and the hash, read
    as a big-endian integer, is strictly below the decoded target; refused
    encodings are never met. *)
Lemma meets_target_exact h :
  fits 32 (bits h) ->
  BlockHeaderOps.MeetsTarget h = true
  <-> exists t, DecodeCanonicalVeldTarget (bits h) = inr t
        /\ be_val (BlockHeaderOps.GetHash h) < lval (tgt_value t).
Proof.
  intros Hb. unfold BlockHeaderOps.MeetsTarget, BlockHeaderOps.GetTarget, BlockHeaderOps.DecodeBits.
  destruct (Hash256d_hash (BlockHeaderOps.Serialize h)) as [Hl Hby].
  unfold BlockHeaderOps.GetHash. set (hash := Hash256d _) in *.
  destruct (DecodeCanonicalVeldTarget (bits h)) as [e|t] eqn:E.
  - destruct is_hash_zero as [Hz0 Hz1]. rewrite lex_lt_be by (done || by rewrite Hl).
    change (be_val ZeroHash) with 0. pose proof (be_val_bound hash Hby).
    split; [lia|]. by intros (t & ? & _).
  - destruct (decode_ok_inv (bits h) t Hb E) as (_ & Hw & _ & _ & Htb).
    destruct (target_bytes_bytes (tgt_value t)) as [Ht0 Ht1]. rewrite Htb.
    rewrite lex_lt_be by (done || by rewrite Hl). rewrite target_bytes_val by done.
    rewrite Z.ltb_lt. split; [eauto|]. intros (t' & [= <-] & ?). done.
Qed.

Lemma meets_target_exact_witness :
  exists t, DecodeCanonicalVeldTarget 0x207fffff = inr t
    /\ be_val (BlockHeaderOps.GetHash (mkHeader 1 ZeroHash ZeroHash 0 0x207fffff 1)) < lval (tgt_value t).
Proof.
  apply (meets_target_exact (mkHeader 1 ZeroHash ZeroHash 0 0x207fffff 1));
    [unfold fits; cbn [bits]; lia | vm_compute; reflexivity].
Defined.

(** The Merkle root commits to the whole transaction list.  If the double
    SHA-256 has no collision among the byte strings hashed for two non-empty
    lists, equal roots mean equal lists: no reordering, no duplicated or promoted
    trailing transaction, and no list of another length has the same root. *)
Lemma merkle_root_binding txs1 txs2 :
  txs1 <> [] -> txs2 <> [] -> Forall wf_tx txs1 -> Forall wf_tx txs2 ->
  no_collision (merkle_inputs txs1 ++ merkle_inputs txs2) ->
  ComputeMerkleRoot txs1 = ComputeMerkleRoot txs2 -> txs1 = txs2.
Proof.
  intros Hn1 Hn2 Hw1 Hw2 Hnc E. set (msgs := merkle_inputs txs1 ++ merkle_inputs txs2) in *.
  assert (Hs1 : merkle_inputs txs1 ⊆ msgs) by (intros y Hy; apply elem_of_app; auto).
  assert (Hs2 : merkle_inputs txs2 ⊆ msgs) by (intros y Hy; apply elem_of_app; auto).
  destruct (merkle_tree_of txs1 msgs Hn1 Hs1) as (t1 & R1 & L1 & I1).
  destruct (merkle_tree_of txs2 msgs Hn2 Hs2) as (t2 & R2 & L2 & I2).
  assert (Ht : t1 = t2).
  { apply (thash_binding msgs); try done; [apply Hs1..|congruence].
    - left.
    - right. left. }
  subst t2. rewrite L1 in L2. apply (txids_binding msgs); try done.
  - intros y Hy. apply Hs1. unfold merkle_inputs. rewrite !elem_of_app. auto.
  - intros y Hy. apply Hs2. unfold merkle_inputs. rewrite !elem_of_app. auto.
Qed.

Definition small_tx : Transaction := mkTx 1 [] [] 0.

Lemma small_tx_wf : wf_tx small_tx.
Proof. apply (bool_decide_unpack _). vm_compute. exact I. Qed.

Lemma merkle_root_binding_witness :
  ComputeMerkleRoot [small_tx] <> ComputeMerkleRoot [small_tx; small_tx].
Proof.
  intros E. apply (merkle_root_binding [small_tx] [small_tx; small_tx]) in E.
  - discriminate E.
  - discriminate.
  - discriminate.
  - apply Forall_singleton, small_tx_wf.
  - apply Forall_cons_2; [apply small_tx_wf|apply Forall_singleton, small_tx_wf].
  - apply no_collision_b_sound. vm_compute. reflexivity.
Defined.

(** The node starts from the pinned genesis.  Computing the genesis block
    (coinbase, Merkle root, header, double SHA-256 of the 88 bytes) gives the hash
    compiled into the constants, so [CreateGenesisBlock] does not throw. *)
Lemma genesis_hash_pinned :
  CreateGenesisBlock = Some genesis_block
  /\ BytesToHex (rev (BlockHeaderOps.GetHash (header genesis_block))) = GENESIS_HASH
  /\ wf_block genesis_block /\ Forall (fun tx => IsValid tx = true) (transactions genesis_block).
Proof.
  split; [vm_compute; reflexivity|]. split; [vm_compute; reflexivity|].
  split; apply (bool_decide_unpack _); vm_compute; exact I.
Qed.
