(* ===== verification/Address.v ===== *)
(** * Addresses, key scripts, script numbers and lock times

    The context-free part of [core/script.h] and [core/destination.h] in the
    mainnet profile: script classes, the Base58Check codec between scripts and
    addresses, minimal script numbers, and transaction lock times. *)
From S2P Require Import Prelude Positional Bytes Sha256 Profile Transaction.

(** ** Script classes *)

Definition SHA384_DESTINATION_MAINNET : Z := 0x47.
Definition SHA384_DESTINATION_OPCODE : Z := 0xc0.
Definition SHA384_DESTINATION_VERSION : Z := 1.
Definition SHA384_DESTINATION_ACTIVATION_HEIGHT : Z := 9500.
Definition VELD_ADDR_VERSION_MAINNET : Z := 0x46.
Definition VELD_P2SH_VERSION_MAINNET : Z := 0x05.

Definition Sha384DestinationsActive (height : Z) : bool :=
  negb (SHA384_DESTINATION_ACTIVATION_HEIGHT =? 0) && (SHA384_DESTINATION_ACTIVATION_HEIGHT <=? height).

(** [v[i]] for an index the code has checked *)
Definition at_ (l : bytes) (i : nat) : Z := nth i l 0.

Definition BuildSha384KeyScript (digest : bytes) : bytes :=
  [SHA384_DESTINATION_OPCODE; SHA384_DESTINATION_VERSION; 48] ++ digest.

Definition IsSha384KeyScript (script : bytes) : bool :=
  (size script =? 51) && (at_ script 0 =? SHA384_DESTINATION_OPCODE)
  && (at_ script 1 =? SHA384_DESTINATION_VERSION) && (at_ script 2 =? 48).

Definition is_p2pkh (script : bytes) : bool :=
  (size script =? 25) && (at_ script 0 =? 0x76) && (at_ script 1 =? 0xA9) && (at_ script 2 =? 0x14)
  && (at_ script 23 =? 0x88) && (at_ script 24 =? 0xAC).

Inductive ScriptType := P2PKH | SHA384_KEY | P2PK | MULTISIG | OP_RETURN | UNKNOWN.

#[global] Instance ScriptType_eq_dec : EqDecision ScriptType.
Proof. solve_decision. Defined.

Definition DetectScriptType (script : bytes) : ScriptType :=
  if IsSha384KeyScript script then SHA384_KEY
  else if is_p2pkh script then P2PKH
  else if is_op_return script then OP_RETURN
  else if (size script =? 1956) && (at_ script 0 =? 0x4D) && (at_ script 1 =? 0xA0)
          && (at_ script 2 =? 0x07) && (at_ script 1955 =? 0xAC) then P2PK
  else UNKNOWN.

Definition ExtractP2PKHHash (script : bytes) : bytes :=
  if (size script =? 25) && bool_decide (DetectScriptType script = P2PKH)
  then take 20 (drop 3 script) else replicate 20 0.

Definition IsCanonicalKeyScriptAtHeight (script : bytes) (height : Z) : bool :=
  bool_decide (DetectScriptType script = P2PKH)
  || (Sha384DestinationsActive height && IsSha384KeyScript script).

(** ** Base 58 *)

Definition B58 : bytes := b:"123456789ABCDEFGHJKLMNPQRSTUVWXYZabcdefghijkmnopqrstuvwxyz".

(** [for (auto& d : digits) { carry += m * d; d = carry % b; carry /= b; }] *)
Fixpoint carry_digits (b m : Z) (digits : list Z) (carry : Z) : list Z * Z :=
  match digits with
  | [] => ([], carry)
  | d :: ds => let c := carry + m * d in
               let '(ds', c') := carry_digits b m ds (c / b) in (c mod b :: ds', c')
  end.

(** [while (carry > 0) { digits.push_back(carry % b); carry /= b; }]: the carry
    is below [b * b], so two turns are enough. *)
Fixpoint push_carry (fuel : nat) (b carry : Z) : list Z :=
  match fuel with
  | O => []
  | S fuel' => if carry >? 0 then carry mod b :: push_carry fuel' b (carry / b) else []
  end.

(** One input digit [c] of base [m] into little-endian digits of base [b]. *)
Definition conv_step (b m : Z) (digits : list Z) (c : Z) : list Z :=
  let '(ds, cr) := carry_digits b m digits c in ds ++ push_carry 2 b cr.

(** [std::string::find(c)] *)
Fixpoint find_char (c : Z) (l : bytes) : option Z :=
  match l with
  | [] => None
  | x :: l' => if x =? c then Some 0
               else match find_char c l' with Some i => Some (i + 1) | None => None end
  end.

(** The character loop of the decoder; [None] is its early [return {}]. *)
Fixpoint decode_digits (address : bytes) (digits : list Z) : option (list Z) :=
  match address with
  | [] => Some digits
  | c :: address' =>
      match find_char c B58 with
      | None => None
      | Some pos => decode_digits address' (conv_step 256 58 digits pos)
      end
  end.

(** Length of the leading run of [x]. *)
Fixpoint count_leading (x : Z) (l : bytes) : nat :=
  match l with c :: l' => if c =? x then S (count_leading x l') else O | [] => O end.

Definition Base58CheckDecode_ (address : bytes) : bytes :=
  if (size address <? 25) || (size address >? 75) then []
  else match decode_digits address [0] with
  | None => []
  | Some digits =>
      let dec := replicate (count_leading 49 address) 0 ++ rev digits in
      if size dec <? 5 then []
      else
        let n := (length dec - 4)%nat in
        let payload := take n dec in
        if negb (bytes_eqb (take 4 (Hash256d payload)) (drop n dec)) then []
        else if negb (size payload =? 21) && negb (size payload =? 49) then []
        else payload
  end.

Definition IsValidVeldAddress (address : bytes) : bool :=
  let payload := Base58CheckDecode_ address in
  if size payload =? 49 then at_ payload 0 =? SHA384_DESTINATION_MAINNET
  else if negb (size payload =? 21) then false
  else (at_ payload 0 =? VELD_ADDR_VERSION_MAINNET) || (at_ payload 0 =? VELD_P2SH_VERSION_MAINNET).

Definition AddressToScript (address : bytes) : bytes :=
  let payload := Base58CheckDecode_ address in
  if size payload =? 49 then
    (if negb (at_ payload 0 =? SHA384_DESTINATION_MAINNET) then []
     else BuildSha384KeyScript (drop 1 payload))
  else if negb (size payload =? 21) then []
  else if at_ payload 0 =? VELD_P2SH_VERSION_MAINNET then [0xA9; 0x14] ++ drop 1 payload ++ [0x87]
  else if negb (at_ payload 0 =? VELD_ADDR_VERSION_MAINNET) then []
  else [0x76; 0xA9; 0x14] ++ drop 1 payload ++ [0x88; 0xAC].

Definition IsCanonicalTokenCreditAddress (address : bytes) : bool := is_p2pkh (AddressToScript address).

Definition ScriptToAddress (script : bytes) : bytes :=
  let wide := IsSha384KeyScript script in
  if negb wide && negb (is_p2pkh script) then []
  else
    let ver := if wide then SHA384_DESTINATION_MAINNET else VELD_ADDR_VERSION_MAINNET in
    let body := ver :: take (if wide then 48 else 20) (drop 3 script) in
    let data := body ++ take 4 (Hash256d body) in
    let digits := foldl (conv_step 58 256) [0] data in
    replicate (count_leading 0 data) 49 ++ map (fun d => nth (Z.to_nat d) B58 0) (rev digits).

(** ** Script numbers *)

(** Little-endian sign-magnitude; over-long and non-minimal forms are refused. *)
Definition ReadScriptNum (v : bytes) (max_size : Z) : option Z :=
  if size v >? max_size then None
  else match last v with
  | None => Some 0
  | Some back =>
      if (Z.land back 0x7f =? 0)
         && ((size v <=? 1) || (Z.land (nth (length v - 2) v 0) 0x80 =? 0)) then None
      else
        let result := get_le v in
        if negb (Z.land back 0x80 =? 0)
        then Some (- Z.land result (Z.lnot (Z.shiftl 1 (8 * size v - 1))))
        else Some result
  end.

(** [while (abs) { push_back(abs & 0xFF); abs >>= 8; }] on 64 bits *)
Fixpoint magnitude_bytes (fuel : nat) (a : Z) : bytes :=
  match fuel with
  | O => []
  | S fuel' => if a =? 0 then [] else Z.land a 0xFF :: magnitude_bytes fuel' (Z.shiftr a 8)
  end.

Definition EncodeScriptNum (v : Z) : bytes :=
  if v =? 0 then []
  else
    let neg := v <? 0 in
    let result := magnitude_bytes 8 (Z.abs v) in
    match last result with
    | None => result
    | Some back =>
        if negb (Z.land back 0x80 =? 0) then result ++ [if neg then 0x80 else 0]
        else if neg then take (length result - 1) result ++ [Z.lor back 0x80]
        else result
    end.

(** ** Lock times *)

Definition LOCKTIME_THRESHOLD : Z := 500000000.

(** [utxo_conf i] is the confirmation height and median time past of the output
    that input [i] spends; [None] skips the input. *)
Fixpoint sequence_locks_ok (ins : list TxInput) (i : nat) (height mtp : Z)
    (utxo_conf : nat -> option (Z * Z)) : bool :=
  match ins with
  | [] => true
  | inp :: ins' =>
      let seq := sequence inp in
      let rest := sequence_locks_ok ins' (S i) height mtp utxo_conf in
      if negb (Z.land seq 0x80000000 =? 0) then rest
      else match utxo_conf i with
      | None => rest
      | Some (out_h, out_mtp) =>
          let val := Z.land seq 0xFFFF in
          if negb (Z.land seq 0x400000 =? 0)
          then (if mtp <? u64 (out_mtp + val * 512) then false else rest)
          else (if height <? u64 (out_h + val) then false else rest)
      end
  end.

Definition CheckTxLockTimes (tx : Transaction) (height mtp : Z)
    (utxo_conf : nat -> option (Z * Z)) : bool :=
  let all_final := forallb (fun i => sequence i =? 0xFFFFFFFF) (inputs tx) in
  let cmp := if locktime tx <? LOCKTIME_THRESHOLD then height else mtp in
  if negb (locktime tx =? 0) && negb all_final && (locktime tx >? cmp) then false
  else sequence_locks_ok (inputs tx) 0 height mtp utxo_conf.

(** ** Lemmas: the conversion loop *)

Lemma carry_digits_spec b m ds c ds' c' :
  0 < b -> 0 < m -> digits_ok b ds -> 0 <= c < m -> carry_digits b m ds c = (ds', c') ->
  digits_ok b ds' /\ length ds' = length ds /\ 0 <= c' < m
  /\ nval b ds' + b ^ size ds * c' = m * nval b ds + c.
Proof.
  intros Hb Hm Hd. revert c ds' c'. induction Hd as [|d ds Hd Hds IH]; intros c ds' c' Hc E;
    cbn [carry_digits] in E.
  { injection E as <- <-. unfold size. cbn. repeat split; try constructor; lia. }
  destruct (carry_digits b m ds ((c + m * d) / b)) as [ds1 c1] eqn:E1. injection E as <- <-.
  apply IH in E1 as (H1 & H2 & H3 & H4).
  2:{ split; [apply Z.div_pos; nia|]. apply Z.div_lt_upper_bound; nia. }
  split; [constructor; [apply Z.mod_pos_bound; lia|done]|]. split; [cbn; lia|]. split; [done|].
  rewrite !nval_cons. unfold size in *. cbn [length].
  rewrite Nat2Z.inj_succ, Z.pow_succ_r by lia. pose proof (Z.div_mod (c + m * d) b). nia.
Qed.

Lemma push_carry_spec b c :
  1 < b -> 0 <= c < b * b ->
  digits_ok b (push_carry 2 b c) /\ nval b (push_carry 2 b c) = c
  /\ (push_carry 2 b c = [] /\ c = 0 \/ exists l x, push_carry 2 b c = l ++ [x] /\ x <> 0).
Proof.
  intros Hb Hc. cbn [push_carry]. rewrite !Z.gtb_ltb.
  pose proof (Z.div_mod c b). pose proof (Z.mod_pos_bound c b).
  assert (Hq : 0 <= c / b < b) by (split; [apply Z.div_pos; lia|apply Z.div_lt_upper_bound; lia]).
  destruct (Z.ltb_spec 0 c).
  2:{ split; [constructor|]. split; [cbn; lia|]. left. split; [done|lia]. }
  destruct (Z.ltb_spec 0 (c / b)).
  - rewrite (Z.mod_small (c / b)) by lia.
    split; [repeat constructor; lia|]. split; [cbn; lia|]. right.
    exists [c mod b], (c / b). split; [done|lia].
  - split; [repeat constructor; lia|]. split; [cbn; lia|]. right.
    exists [], (c mod b). split; [done|]. lia.
Qed.

Lemma conv_step_spec b m ds c :
  1 < b -> 1 < m -> m <= b * b -> digits_ok b ds -> minimal ds -> 0 <= c < m ->
  digits_ok b (conv_step b m ds c) /\ minimal (conv_step b m ds c)
  /\ nval b (conv_step b m ds c) = m * nval b ds + c.
Proof.
  intros Hb Hm Hmb Hd Hmin Hc. unfold conv_step.
  destruct (carry_digits b m ds c) as [ds' c'] eqn:E.
  apply carry_digits_spec in E as (H1 & H2 & H3 & H4); [|lia|lia|done|done].
  destruct (push_carry_spec b c' ltac:(lia) ltac:(lia)) as (P1 & P2 & P3).
  split; [apply Forall_app; split; done|]. split.
  2:{ rewrite nval_app, P2. unfold size in *. rewrite H2. lia. }
  destruct P3 as [[-> ->]|(l & x & -> & Hx)].
  2:{ right. exists (ds' ++ l), x. by rewrite app_assoc. }
  rewrite app_nil_r, Z.mul_0_r, Z.add_0_r in *.
  destruct Hmin as [->|(l & x & -> & Hx)].
  - destruct ds' as [|z [|? ?]]; try done. destruct (decide (z = 0)) as [->|]; [by left|].
    right. by exists [], z.
  - apply (minimal_of_value b); [done..| |].
    + intros ->. rewrite length_app in H2. cbn in H2. lia.
    + pose proof (minimal_low b l x Hb Hd Hx) as [Hlow _]. unfold size in *. rewrite H2, length_app.
      cbn [length]. replace (Z.of_nat (length l + 1) - 1) with (Z.of_nat (length l)) by lia. nia.
Qed.

(** The loop converts between positional systems exactly. *)
Lemma conv_spec b m cs :
  1 < b -> 1 < m -> m <= b * b -> digits_ok m cs ->
  digits_ok b (foldl (conv_step b m) [0] cs) /\ minimal (foldl (conv_step b m) [0] cs)
  /\ nval b (foldl (conv_step b m) [0] cs) = horner m cs.
Proof.
  intros Hb Hm Hmb Hcs. unfold horner. induction cs as [|c cs IH] using rev_ind.
  { cbn. split; [repeat constructor; lia|]. split; [by left|lia]. }
  apply Forall_app in Hcs as [Hcs Hc]. apply Forall_cons in Hc as [Hc _].
  destruct (IH Hcs) as (H1 & H2 & H3). rewrite !foldl_app. cbn [foldl].
  destruct (conv_step_spec b m _ c Hb Hm Hmb H1 H2 Hc) as (S1 & S2 & S3).
  split; [done|]. split; [done|]. rewrite S3, H3. done.
Qed.

(** ** Lemmas: the alphabet *)

Lemma find_B58 d : 0 <= d < 58 -> find_char (nth (Z.to_nat d) B58 0) B58 = Some d.
Proof.
  intros Hd. assert (H : forallb (fun k => match find_char (nth k B58 0) B58 with
      Some i => i =? Z.of_nat k | None => false end) (seq 0 58) = true) by (vm_compute; reflexivity).
  rewrite forallb_forall in H. specialize (H (Z.to_nat d) ltac:(apply in_seq; lia)). revert H.
  destruct (find_char _ _) as [i|]; [|done]. intros H%Z.eqb_eq. f_equal. rewrite H. lia.
Qed.

Lemma find_char_range c l i : find_char c l = Some i -> 0 <= i < size l /\ nth (Z.to_nat i) l 0 = c.
Proof.
  unfold size. revert i. induction l as [|x l IH]; intros i; [done|]. cbn [find_char length].
  destruct (Z.eqb_spec x c); [intros [= <-]; cbn; split; [lia|done]|].
  destruct (find_char c l) as [j|]; [|done]. intros [= <-]. destruct (IH j eq_refl) as [? <-].
  split; [lia|]. replace (Z.to_nat (j + 1)) with (S (Z.to_nat j)) by lia. done.
Qed.

Lemma decode_digits_map ds acc :
  digits_ok 58 ds ->
  decode_digits (map (fun d => nth (Z.to_nat d) B58 0) ds) acc = Some (foldl (conv_step 256 58) acc ds).
Proof.
  intros Hd. revert acc. induction Hd as [|d ds Hd Hds IH]; intros acc; [done|].
  cbn [map decode_digits foldl]. rewrite find_B58 by done. apply IH.
Qed.

(** Conversely, an accepted text is the image of its digits. *)
Lemma decode_digits_inv address acc r :
  decode_digits address acc = Some r ->
  exists ds, digits_ok 58 ds /\ address = map (fun d => nth (Z.to_nat d) B58 0) ds
    /\ r = foldl (conv_step 256 58) acc ds.
Proof.
  revert acc. induction address as [|c address IH]; intros acc; cbn [decode_digits].
  { intros [= <-]. exists []. repeat constructor. }
  destruct (find_char c B58) as [d|] eqn:E; [|done]. intros H.
  destruct (IH _ H) as (ds & Hd & -> & ->). apply find_char_range in E as [Hr <-].
  exists (d :: ds). split; [constructor; [by change (size B58) with 58 in Hr|done]|done].
Qed.

(** ** Lemmas: the Base58Check codec *)

Definition b58_text (ds : list Z) : bytes := map (fun d => nth (Z.to_nat d) B58 0) ds.

(** The text of a payload with its checksum. *)
Definition b58check (body : bytes) : bytes :=
  let data := body ++ take 4 (Hash256d body) in
  replicate (count_leading 0 data) 49 ++ b58_text (rev (foldl (conv_step 58 256) [0] data)).

Lemma take_hash_len body : length (take 4 (Hash256d body)) = 4%nat.
Proof. destruct (Hash256d_hash body) as [Hl _]. rewrite length_take, Hl. done. Qed.

Lemma count_leading_head x c l : c <> x -> count_leading x (c :: l) = 0%nat.
Proof. intros H. cbn [count_leading]. destruct (Z.eqb_spec c x); done. Qed.

Lemma b58_text_one d : 0 <= d < 58 -> nth (Z.to_nat d) B58 0 = 49 -> d = 0.
Proof.
  intros Hd E. pose proof (find_B58 d Hd) as F. rewrite E in F. vm_compute in F. congruence.
Qed.

(** A minimal positive number has a text that does not start with a one. *)
Lemma b58_text_head ds :
  digits_ok 58 ds -> ds <> [0] -> minimal ds -> count_leading 49 (b58_text (rev ds)) = 0%nat.
Proof.
  intros Hd H0 [->|(l & x & -> & Hx)]; [done|]. apply Forall_app in Hd as [_ Hd].
  apply Forall_cons in Hd as [Hd _]. rewrite rev_app_distr. cbn [rev app b58_text map].
  apply count_leading_head. intros E. by apply b58_text_one in E.
Qed.

Lemma is_bytes_digits l : is_bytes l <-> digits_ok 256 l.
Proof. unfold is_bytes, digits_ok, fits. done. Qed.

(** Number of base-58 digits of a number with 25 or 53 bytes. *)
Lemma b58_length ds data :
  digits_ok 58 ds -> minimal ds -> digits_ok 256 data -> minimal (rev data) ->
  nval 58 ds = nval 256 (rev data) -> (length data = 25 \/ length data = 53)%nat ->
  25 <= size ds <= 75.
Proof.
  intros Hds Hm Hdata Hmd E Hlen.
  assert (Hdr : digits_ok 256 (rev data)) by by apply Forall_rev.
  destruct Hmd as [E0|(l & x & El & Hx)].
  { apply (f_equal length) in E0. rewrite length_rev in E0. cbn in E0. lia. }
  rewrite El in *. pose proof (minimal_low 256 l x ltac:(lia) Hdr Hx) as [Lo Hi].
  apply (f_equal length) in El. rewrite length_rev, length_app in El. cbn [length] in El.
  assert (Hlo : 256 ^ 24 <= nval 58 ds).
  { rewrite E. etrans; [|exact Lo]. apply Z.pow_le_mono_r; unfold size; lia. }
  assert (Hhi : nval 58 ds < 256 ^ 53).
  { rewrite E. eapply Z.lt_le_trans; [exact Hi|]. apply Z.pow_le_mono_r; unfold size; lia. }
  destruct Hm as [->|(k & y & -> & Hy)]; [cbn in Hlo; lia|].
  pose proof (minimal_low 58 k y ltac:(lia) Hds Hy) as [Lo' Hi'].
  replace (size (k ++ [y])) with (size k + 1) by (unfold size; rewrite length_app; cbn; lia).
  assert (Hk : 24 <= size k).
  { destruct (Z.le_gt_cases 24 (size k)); [done|].
    pose proof (Z.pow_le_mono_r 58 (size k + 1) 24 ltac:(lia) ltac:(lia)). lia. }
  assert (size k <= 74); [|lia]. destruct (Z.le_gt_cases (size k) 74); [done|].
  pose proof (Z.pow_le_mono_r 58 75 (size k) ltac:(lia) ltac:(lia)). lia.
Qed.

Lemma take_length_sub {A} (a b : list A) : length b = 4%nat ->
  take (length (a ++ b) - 4) (a ++ b) = a /\ drop (length (a ++ b) - 4) (a ++ b) = b.
Proof.
  intros H. replace (length (a ++ b) - 4)%nat with (length a) by (rewrite length_app; lia).
  by rewrite take_app_length, drop_app_length.
Qed.

Lemma decode_b58check ver body :
  let payload := ver :: body in
  is_bytes payload -> ver <> 0 -> (length payload = 21 \/ length payload = 49)%nat ->
  Base58CheckDecode_ (b58check payload) = payload.
Proof.
  intros payload Hb Hv Hlen. unfold b58check. set (chk := take 4 (Hash256d payload)).
  assert (Hchk : length chk = 4%nat) by apply take_hash_len.
  assert (Hdata : digits_ok 256 (payload ++ chk)).
  { apply is_bytes_digits, is_bytes_app. split; [done|]. apply is_bytes_take, Hash256d_hash. }
  assert (Hcl : count_leading 0 (payload ++ chk) = 0%nat)
    by (unfold payload; cbn [app]; by apply count_leading_head).
  rewrite Hcl. cbn [replicate app].
  destruct (conv_spec 58 256 (payload ++ chk)) as (D1 & D2 & D3); [lia|lia|lia|done|].
  set (ds := foldl (conv_step 58 256) [0] (payload ++ chk)) in *. rewrite horner_rev in D3.
  assert (Hmd : minimal (rev (payload ++ chk))) by by apply rev_minimal.
  assert (Hsz : 25 <= size ds <= 75).
  { apply (b58_length ds (payload ++ chk)); try done. rewrite length_app, Hchk. lia. }
  assert (Hconv : foldl (conv_step 256 58) [0] (rev ds) = rev (payload ++ chk)).
  { assert (Hr : digits_ok 58 (rev ds)) by by apply Forall_rev.
    destruct (conv_spec 256 58 (rev ds)) as (E1 & E2 & E3); [lia|lia|lia|done|].
    apply (minimal_inj 256); try done; [by apply Forall_rev|].
    rewrite E3, horner_rev, rev_involutive. done. }
  unfold Base58CheckDecode_.
  assert (Hszt : size (b58_text (rev ds)) = size ds)
    by (unfold b58_text, size; by rewrite length_map, length_rev).
  rewrite Hszt, Z.gtb_ltb.
  destruct (Z.ltb_spec (size ds) 25), (Z.ltb_spec 75 (size ds)); try lia. cbn [orb].
  rewrite b58_text_head; [|done| |done].
  2:{ intros E. rewrite E in Hsz. unfold size in Hsz. cbn in Hsz. lia. }
  unfold b58_text. rewrite decode_digits_map by by apply Forall_rev.
  cbn [replicate app]. rewrite Hconv, rev_involutive.
  destruct (take_length_sub payload chk Hchk) as [-> ->].
  replace (size (payload ++ chk) <? 5) with false
    by (symmetry; apply Z.ltb_ge; unfold size; rewrite length_app, Hchk; lia).
  fold chk. unfold bytes_eqb. rewrite bool_decide_eq_true_2 by done. cbn [negb].
  destruct (Z.eqb_spec (size payload) 21), (Z.eqb_spec (size payload) 49); cbn [negb andb]; try done.
  unfold size in *. lia.
Qed.

(** What the decoder accepts with a nonzero version is the text of its payload. *)
Lemma decode_b58check_inv address ver body :
  Base58CheckDecode_ address = ver :: body -> ver <> 0 -> address = b58check (ver :: body).
Proof.
  unfold Base58CheckDecode_. intros E Hv. set (payload := ver :: body) in *.
  destruct (Z.ltb_spec (size address) 25); cbn [orb] in E; [done|].
  rewrite Z.gtb_ltb in E. destruct (Z.ltb_spec 75 (size address)); [done|].
  destruct (decode_digits address [0]) as [digits|] eqn:Ed; [|done].
  apply decode_digits_inv in Ed as (ds & Hds & -> & ->). fold (b58_text ds) in *.
  set (k := count_leading 49 (b58_text ds)) in *.
  destruct (conv_spec 256 58 ds) as (E1 & E2 & E3); [lia|lia|lia|done|].
  set (digits := foldl (conv_step 256 58) [0] ds) in *.
  set (dec := replicate k 0 ++ rev digits) in *.
  destruct (Z.ltb_spec (size dec) 5); [done|].
  set (n := (length dec - 4)%nat) in *.
  destruct (negb (bytes_eqb (take 4 (Hash256d (take n dec))) (drop n dec))) eqn:Ec; [done|].
  destruct (negb (size (take n dec) =? 21) && negb (size (take n dec) =? 49)); [done|].
  rewrite E in Ec. apply negb_false_iff, bool_decide_eq_true_1 in Ec.
  assert (Hdec : dec = payload ++ take 4 (Hash256d payload)) by by rewrite Ec, <- E, take_drop.
  assert (Hk : k = 0%nat).
  { destruct k; [done|]. unfold dec, payload in Hdec. cbn in Hdec. by injection Hdec as <- _. }
  unfold dec in Hdec. rewrite Hk in Hdec. cbn [replicate app] in Hdec.
  unfold b58check. rewrite <- Hdec.
  assert (Hc0 : count_leading 0 (rev digits) = 0%nat)
    by (rewrite Hdec; unfold payload; cbn [app]; by apply count_leading_head).
  rewrite Hc0. cbn [replicate app]. f_equal.
  assert (Hrd : digits_ok 256 (rev digits)) by by apply Forall_rev.
  destruct (conv_spec 58 256 (rev digits)) as (D1 & D2 & D3); [lia|lia|lia|done|].
  rewrite horner_rev, rev_involutive, E3, horner_rev in D3.
  rewrite <- (rev_involutive ds) at 1. f_equal.
  symmetry. apply (minimal_inj 58); [lia|done|by apply Forall_rev|done| |done].
  destruct ds as [|d ds']; [unfold b58_text, size in *; cbn in *; lia|].
  apply rev_minimal. intros ->. unfold k in Hk. discriminate Hk.
Qed.

(** ** Lemmas: key scripts *)

(** The payload a key script stands for. *)
Definition key_payload (script : bytes) : bytes :=
  if IsSha384KeyScript script then SHA384_DESTINATION_MAINNET :: take 48 (drop 3 script)
  else VELD_ADDR_VERSION_MAINNET :: take 20 (drop 3 script).

Lemma at_app_drop (l : bytes) i : (i < length l)%nat -> l = take i l ++ at_ l i :: drop (S i) l.
Proof.
  intros Hi. rewrite <- (take_drop i l) at 1. f_equal. unfold at_.
  revert l Hi. induction i as [|i IH]; intros [|x l] Hi; cbn in *; try lia; [done|]. apply IH. lia.
Qed.

Lemma p2pkh_shape s : is_p2pkh s = true ->
  s = [0x76; 0xA9; 0x14] ++ take 20 (drop 3 s) ++ [0x88; 0xAC] /\ length s = 25%nat.
Proof.
  unfold is_p2pkh. intros H. repeat (apply andb_true_iff in H as [H ?]).
  assert (Hl : length s = 25%nat) by (unfold size in H; lia). split; [|done].
  do 25 (destruct s as [|? s]; [done|]). destruct s; [|done]. unfold at_ in *.
  cbn [nth] in *. cbn [drop take app]. repeat match goal with H : (_ =? _) = true |- _ =>
    apply Z.eqb_eq in H; subst end. done.
Qed.

Lemma sha384_shape s : IsSha384KeyScript s = true ->
  s = BuildSha384KeyScript (take 48 (drop 3 s)) /\ length s = 51%nat.
Proof.
  unfold IsSha384KeyScript, BuildSha384KeyScript. intros H. repeat (apply andb_true_iff in H as [H ?]).
  assert (Hl : length s = 51%nat) by (unfold size in H; lia). split; [|done].
  rewrite take_ge by (rewrite length_drop; lia).
  do 3 (destruct s as [|? s]; [done|]). unfold at_ in *. cbn [nth] in *. repeat match goal with H : (_ =? _) = true |- _ =>
    apply Z.eqb_eq in H; subst end. done.
Qed.

Lemma AddressToScript_payload address ver body :
  Base58CheckDecode_ address = ver :: body ->
  AddressToScript address =
    if size (ver :: body) =? 49 then
      (if negb (ver =? SHA384_DESTINATION_MAINNET) then [] else BuildSha384KeyScript body)
    else if negb (size (ver :: body) =? 21) then []
    else if ver =? VELD_P2SH_VERSION_MAINNET then [0xA9; 0x14] ++ body ++ [0x87]
    else if negb (ver =? VELD_ADDR_VERSION_MAINNET) then []
    else [0x76; 0xA9; 0x14] ++ body ++ [0x88; 0xAC].
Proof. intros E. unfold AddressToScript. by rewrite E. Qed.

(** The decoded payload of an address whose script is a key script. *)
Lemma AddressToScript_inv address s :
  AddressToScript address = s -> is_p2pkh s || IsSha384KeyScript s = true ->
  Base58CheckDecode_ address = key_payload s.
Proof.
  intros E Hk. destruct (Base58CheckDecode_ address) as [|ver body] eqn:Ed.
  { unfold AddressToScript in E. rewrite Ed in E. subst s. discriminate Hk. }
  rewrite (AddressToScript_payload _ _ _ Ed) in E.
  assert (Hsz : forall n, (size (ver :: body) =? Z.of_nat (S n)) = true -> length body = n)
    by (intros n Hn%Z.eqb_eq; unfold size in Hn; cbn [length] in Hn; lia).
  destruct (size (ver :: body) =? 49) eqn:E49.
  - apply (Hsz 48%nat) in E49. destruct (Z.eqb_spec ver SHA384_DESTINATION_MAINNET) as [->|];
      cbn [negb] in E; [|subst s; discriminate Hk].
    subst s. unfold key_payload. replace (IsSha384KeyScript _) with true.
    { change (drop 3 (BuildSha384KeyScript body)) with body. by rewrite take_ge by lia. }
    unfold IsSha384KeyScript, BuildSha384KeyScript, size. rewrite length_app, E49. done.
  - destruct (size (ver :: body) =? 21) eqn:E21; cbn [negb] in E; [|subst s; discriminate Hk].
    apply (Hsz 20%nat) in E21. destruct (ver =? VELD_P2SH_VERSION_MAINNET).
    { exfalso. subst s. unfold is_p2pkh, IsSha384KeyScript, size in Hk.
      rewrite !length_app, E21 in Hk. discriminate Hk. }
    destruct (Z.eqb_spec ver VELD_ADDR_VERSION_MAINNET) as [->|]; cbn [negb] in E;
      [|subst s; discriminate Hk].
    subst s. unfold key_payload. replace (IsSha384KeyScript _) with false.
    { change (drop 3 ([0x76; 0xA9; 0x14] ++ body ++ [0x88; 0xAC])) with (body ++ [0x88; 0xAC]).
      rewrite take_app_le by lia. by rewrite take_ge by lia. }
    unfold IsSha384KeyScript, size. rewrite !length_app, E21. done.
Qed.

Lemma ScriptToAddress_text s :
  is_p2pkh s || IsSha384KeyScript s = true -> ScriptToAddress s = b58check (key_payload s).
Proof.
  intros H. unfold ScriptToAddress, key_payload, b58check.
  by destruct (IsSha384KeyScript s), (is_p2pkh s).
Qed.

Lemma key_payload_ok s :
  is_bytes s -> is_p2pkh s || IsSha384KeyScript s = true ->
  exists ver body, key_payload s = ver :: body /\ ver <> 0 /\ is_bytes (ver :: body)
    /\ (length (ver :: body) = 21 \/ length (ver :: body) = 49)%nat
    /\ (forall address, Base58CheckDecode_ address = ver :: body -> AddressToScript address = s).
Proof.
  intros Hb H. unfold key_payload. destruct (IsSha384KeyScript s) eqn:Ew.
  - apply sha384_shape in Ew as [Es El]. exists SHA384_DESTINATION_MAINNET, (take 48 (drop 3 s)).
    assert (Hn : length (take 48 (drop 3 s)) = 48%nat) by (rewrite length_take, length_drop; lia).
    split_and!; [done|done|constructor; [done|by apply is_bytes_take, is_bytes_drop]|cbn [length]; lia|].
    intros a Ea. rewrite (AddressToScript_payload _ _ _ Ea). unfold size. cbn [length]. rewrite Hn. done.
  - rewrite orb_false_r in H. apply p2pkh_shape in H as [Es El].
    exists VELD_ADDR_VERSION_MAINNET, (take 20 (drop 3 s)).
    assert (Hn : length (take 20 (drop 3 s)) = 20%nat) by (rewrite length_take, length_drop; lia).
    split_and!; [done|done|constructor; [done|by apply is_bytes_take, is_bytes_drop]|cbn [length]; lia|].
    intros a Ea. rewrite (AddressToScript_payload _ _ _ Ea). unfold size. cbn [length]. rewrite Hn. done.
Qed.

(** The one text of a key script. *)
Lemma AddressToScript_iff script address :
  is_bytes script -> is_p2pkh script || IsSha384KeyScript script = true ->
  AddressToScript address = script <-> address = ScriptToAddress script.
Proof.
  intros Hb Hk. rewrite ScriptToAddress_text by done.
  destruct (key_payload_ok script Hb Hk) as (ver & body & Ek & Hv & Hpb & Hlen & Hdec). split.
  - intros E. rewrite Ek. apply decode_b58check_inv; [|done]. rewrite <- Ek.
    by apply AddressToScript_inv.
  - intros ->. apply Hdec. rewrite Ek. by apply decode_b58check.
Qed.

(** ** Properties *)

(** Addresses and key scripts correspond one to one.  For every
    pay-to-key-hash or SHA-384 key script, exactly one text decodes to it, the one
    [ScriptToAddress] prints: encoding then decoding is the identity, and no
    second spelling (other case, leading ones, extra digits) is accepted. *)
Lemma address_script_bijection script address :
  is_bytes script -> is_p2pkh script || IsSha384KeyScript script = true ->
  AddressToScript address = script <-> address = ScriptToAddress script.
Proof. apply AddressToScript_iff. Qed.

Definition vault_script : bytes :=
  [0x76; 0xA9; 0x14] ++ [212; 28; 79; 220; 72; 220; 240; 242; 244; 96; 27; 242; 118; 170; 125; 217;
   249; 190; 234; 238] ++ [0x88; 0xAC].

(** The protocol vault address of the constants. *)
Lemma address_script_bijection_witness :
  b:"VVzm6RG8W1t3U9KQYoD34z49jHcYb1sXdv" = ScriptToAddress vault_script.
Proof.
  apply (address_script_bijection vault_script (b:"VVzm6RG8W1t3U9KQYoD34z49jHcYb1sXdv")).
  - apply (bool_decide_unpack _). vm_compute. exact I.
  - vm_compute. reflexivity.
  - vm_compute. reflexivity.
Defined.
