(* ===== verification/OpAuthorization.v ===== *)
(** * Signatures that authorise operations ([core/op_authorization.h],
    [crypto/veld_signing.h], [core/pqc_script.h])

    The signature hash of a transaction input, the canonical two-push script
    signature, the single-input verifier and [TxVerifiedSignedBy], the one test every
    state-changing operation uses to find its actor.  ML-DSA-65 itself is a parameter:
    [crypto_sign_verify sig msg pub] is the library's verifier returning zero. *)
From S2P Require Import Prelude Bytes Sha256 Ripemd160 Profile Transaction Address.

Definition SCHEME_ID_MLDSA65 : Z := 0x01.
Definition PUBKEY_SIZE : Z := 1952.
Definition SIG_SIZE : Z := 3309.

(** ** The signature hash *)

(** [push_le32], [push_varint]: shared with the wire format. *)
Definition sighash_input (input_index : nat) (subscript : bytes) (i : nat) (inp : TxInput) : bytes :=
  prev_tx_hash inp ++ put_le 4 (prev_out_index inp)
  ++ (if (i =? input_index)%nat then put_varint (size subscript) ++ subscript else put_varint 0)
  ++ put_le 4 (sequence inp).

Definition sighash_output (o : TxOutput) : bytes :=
  put_le 8 (value o) ++ put_varint (size (script_pubkey o)) ++ script_pubkey o.

Definition kSighashTag : bytes := b:"VELD_SIG".

Definition sighash_preimage (tx : Transaction) (input_index : nat) (subscript : bytes) (scheme_id : Z)
  : bytes :=
  kSighashTag ++ [0x03] ++ [0x4D] ++ GENESIS_HASH ++ [scheme_id]
  ++ put_le 4 (version tx)
  ++ put_varint (size (inputs tx)) ++ concat (imap (sighash_input input_index subscript) (inputs tx))
  ++ put_varint (size (outputs tx)) ++ concat (map sighash_output (outputs tx))
  ++ put_le 4 (locktime tx) ++ put_le 4 0x00000001.

Definition ComputeSighash (tx : Transaction) (input_index : nat) (subscript : bytes) (scheme_id : Z)
  : Hash256 := Hash256d (sighash_preimage tx input_index subscript scheme_id).

(** ** The script signature *)

Definition push_pushdata2 (data : bytes) : bytes := 0x4D :: put_le 2 (size data) ++ data.

Definition read_pushdata2 : reader bytes :=
  read op <- read_le 1;
  guard (op =? 0x4D);
  read len <- read_le 2;
  read_bytes (Z.to_nat len).

Definition script_sig_of (sig pub : bytes) : bytes := push_pushdata2 sig ++ push_pushdata2 pub.

(** The scheme byte, the raw signature, the hash type. *)
Definition wrap_sig (scheme_id : Z) (raw_sig : bytes) : bytes := scheme_id :: raw_sig ++ [0x01].

(** [ParseScriptSig(ss, sig_out, pubkey_out)]; [None] is [return false]. *)
Definition ParseScriptSig (ss : bytes) : option (bytes * bytes) :=
  if size ss <? 6 then None
  else match (read op <- read_le 1;
              guard (op =? 0x4D);
              read siglen <- read_le 2;
              guard (siglen =? 3311);
              read sig <- read_bytes (Z.to_nat siglen);
              read op2 <- read_le 1;
              guard (op2 =? 0x4D);
              read pklen <- read_le 2;
              guard (pklen =? 1952);
              read pk <- read_bytes (Z.to_nat pklen);
              rret (sig, pk)) ss with
  | Some (sp, rest) => if negb (size rest =? 0) then None else Some sp
  | None => None
  end.

Definition p2pkh_script (h : bytes) : bytes := [0x76; 0xA9; 0x14] ++ h ++ [0x88; 0xAC].

Definition PubkeyToAddress (pubkey_bytes : bytes) : bytes :=
  if negb (size pubkey_bytes =? PUBKEY_SIZE) then []
  else ScriptToAddress (p2pkh_script (Hash160Compute pubkey_bytes)).

(** ** Verification *)

Section Signatures.
Context (crypto_sign_verify : bytes -> bytes -> bytes -> bool).

Definition Verify (pub : bytes) (hash : Hash256) (der_sig : bytes) : bool :=
  if (size der_sig =? 0) || (size der_sig >? SIG_SIZE) then false
  else crypto_sign_verify der_sig hash pub.

Definition VerifyP2PKHInputSig (tx : Transaction) (input_index : nat) (script_pubkey : bytes) : bool :=
  match inputs tx !! input_index with
  | None => false
  | Some inp =>
      if negb (is_p2pkh script_pubkey) then false
      else
        let expected_hash := take 20 (drop 3 script_pubkey) in
        match read_pushdata2 (script_sig inp) with
        | None => false
        | Some (sig_bytes_with_hashtype, pos1) =>
            match read_pushdata2 pos1 with
            | None => false
            | Some (pubkey_bytes, pos2) =>
                if negb (size pubkey_bytes =? 1952) then false
                else if size sig_bytes_with_hashtype =? 0 then false
                else if negb (size pos2 =? 0) then false
                else if negb (size sig_bytes_with_hashtype =? 3311) then false
                else
                  let scheme_id := at_ sig_bytes_with_hashtype 0 in
                  if negb (scheme_id =? SCHEME_ID_MLDSA65) then false
                  else if negb (at_ sig_bytes_with_hashtype (length sig_bytes_with_hashtype - 1) =? 0x01)
                  then false
                  else if bool_decide (Hash160Compute pubkey_bytes <> expected_hash) then false
                  else
                    let sig_bytes := take (length sig_bytes_with_hashtype - 2)
                                       (drop 1 sig_bytes_with_hashtype) in
                    Verify pubkey_bytes (ComputeSighash tx input_index script_pubkey scheme_id) sig_bytes
            end
        end
  end.

Definition TxVerifiedSignedBy (tx : Transaction) (address : bytes) : bool :=
  if size address <? 2 then false
  else
    let script := AddressToScript address in
    if negb (size script =? 25) then false
    else existsb (fun i => VerifyP2PKHInputSig tx i script) (seq 0 (length (inputs tx))).

(** The script signature [BuildScriptSig] produces, with the key's signer. *)
Definition BuildScriptSig (Sign : Hash256 -> bytes) (pub : bytes) (tx : Transaction)
    (input_index : nat) (prev_script : bytes) : bytes :=
  let scheme_id := SCHEME_ID_MLDSA65 in
  let sighash := ComputeSighash tx input_index prev_script scheme_id in
  script_sig_of (wrap_sig scheme_id (Sign sighash)) pub.

(** ** Lemmas: the two-push layout *)

Lemma read_pushdata2_app d rest :
  fits 16 (size d) -> read_pushdata2 (push_pushdata2 d ++ rest) = Some (d, rest).
Proof.
  intros Hs. unfold read_pushdata2, push_pushdata2, rbind.
  change ((0x4D :: put_le 2 (size d) ++ d) ++ rest) with (put_le 1 0x4D ++ (put_le 2 (size d) ++ d) ++ rest).
  rewrite read_le_app by done. cbn [Z.eqb Pos.eqb]. rewrite <- app_assoc, read_le_app by done.
  by rewrite read_bytes_app by (unfold size; lia).
Qed.

(** A reader that wants one fixed little-endian value. *)
Lemma read_le_exact n d v rest : is_bytes d -> read_le n d = Some (v, rest) -> d = put_le n v ++ rest.
Proof.
  intros Hd H. unfold read_le, rbind in H. destruct (read_bytes n d) as [[l r]|] eqn:E; [|done].
  injection H as <- <-. apply read_bytes_inv in E as [-> <-]. apply is_bytes_app in Hd as [Hl _].
  by rewrite put_get_le.
Qed.

Lemma read_pushdata2_inv ss d rest :
  is_bytes ss -> read_pushdata2 ss = Some (d, rest) -> ss = push_pushdata2 d ++ rest /\ fits 16 (size d).
Proof.
  intros Hb. unfold read_pushdata2, rbind. destruct (read_le 1 ss) as [[op r1]|] eqn:E1; [|done].
  pose proof (read_le_inv _ _ _ _ Hb E1) as (_ & _ & Hr1). apply read_le_exact in E1; [|done].
  destruct (Z.eqb_spec op 0x4D) as [->|]; [|done].
  destruct (read_le 2 r1) as [[len r2]|] eqn:E2; [|done].
  pose proof (read_le_inv _ _ _ _ Hr1 E2) as (_ & Hlen & _). apply read_le_exact in E2; [|done].
  intros E3. apply read_bytes_inv in E3 as [-> Hl]. unfold push_pushdata2.
  change (8 * Z.of_nat 2) with 16 in Hlen.
  assert (Hsz : size d = len) by (unfold size; unfold fits in Hlen; lia). rewrite Hsz, E1, E2.
  split; [|done]. cbn [app]. by rewrite <- app_assoc.
Qed.

(** The canonical layout is the only text the parser accepts. *)
Lemma ParseScriptSig_iff ss sig pk : is_bytes ss ->
  ParseScriptSig ss = Some (sig, pk) <-> ss = script_sig_of sig pk /\ size sig = 3311 /\ size pk = 1952.
Proof.
  intros Hb. unfold ParseScriptSig, rbind, rret, script_sig_of, push_pushdata2. split.
  - destruct (size ss <? 6); [done|].
    destruct (read_le 1 ss) as [[op r1]|] eqn:E1; [|done].
    pose proof (read_le_inv _ _ _ _ Hb E1) as (_ & _ & H1). apply read_le_exact in E1 as ->; [|done].
    destruct (Z.eqb_spec op 0x4D) as [->|]; [|done].
    destruct (read_le 2 r1) as [[n r2]|] eqn:E2; [|done].
    pose proof (read_le_inv _ _ _ _ H1 E2) as (_ & _ & H2). apply read_le_exact in E2 as ->; [|done].
    destruct (Z.eqb_spec n 3311) as [->|]; [|done].
    destruct (read_bytes (Z.to_nat 3311) r2) as [[s r3]|] eqn:E3; [|done].
    apply read_bytes_inv in E3 as [-> Hs]. apply is_bytes_app in H2 as [_ H3].
    destruct (read_le 1 r3) as [[op r4]|] eqn:E4; [|done].
    pose proof (read_le_inv _ _ _ _ H3 E4) as (_ & _ & H4). apply read_le_exact in E4 as ->; [|done].
    destruct (Z.eqb_spec op 0x4D) as [->|]; [|done].
    destruct (read_le 2 r4) as [[n r5]|] eqn:E5; [|done].
    apply read_le_exact in E5 as ->; [|done]. destruct (Z.eqb_spec n 1952) as [->|]; [|done].
    destruct (read_bytes (Z.to_nat 1952) r5) as [[p r6]|] eqn:E6; [|done].
    apply read_bytes_inv in E6 as [-> Hp]. destruct (Z.eqb_spec (size r6) 0) as [E|]; [|done].
    apply size_eq_0 in E as ->. cbn [negb]. intros [= -> ->].
    assert (Hs' : size sig = 3311) by (unfold size; lia). assert (Hp' : size pk = 1952) by (unfold size; lia).
    split; [|done]. rewrite Hs', Hp', app_nil_r. change (put_le 1 0x4D) with [0x4D].
    cbn [app]. by rewrite <- !app_assoc.
  - intros (-> & Hs & Hp). rewrite Hs, Hp.
    destruct (Z.ltb_spec (size ((0x4D :: put_le 2 3311 ++ sig) ++ 0x4D :: put_le 2 1952 ++ pk)) 6) as [Hlt|_].
    { unfold size in *. rewrite length_app in Hlt. cbn [length] in Hlt. rewrite length_app, length_put_le in Hlt. lia. }
    change ((0x4D :: put_le 2 3311 ++ sig) ++ 0x4D :: put_le 2 1952 ++ pk)
      with (put_le 1 0x4D ++ (put_le 2 3311 ++ sig) ++ put_le 1 0x4D ++ put_le 2 1952 ++ pk).
    rewrite read_le_app by done. cbn [Z.eqb Pos.eqb]. rewrite <- app_assoc, read_le_app by done.
    cbn [Z.eqb Pos.eqb]. rewrite read_bytes_app by (unfold size in Hs; lia).
    rewrite read_le_app by done. cbn [Z.eqb Pos.eqb]. rewrite read_le_app by done. cbn [Z.eqb Pos.eqb].
    rewrite <- (app_nil_r pk) at 1. by rewrite read_bytes_app by (unfold size in Hp; lia).
Qed.

Lemma wrap_sig_inv w :
  size w = 3311 -> at_ w 0 = SCHEME_ID_MLDSA65 -> at_ w (length w - 1) = 0x01 ->
  w = wrap_sig SCHEME_ID_MLDSA65 (take (length w - 2) (drop 1 w))
  /\ size (take (length w - 2) (drop 1 w)) = SIG_SIZE.
Proof.
  intros Hw H0 H1. unfold size, SIG_SIZE in *.
  split; [|rewrite length_take, length_drop; lia].
  assert (Ew : w = take (length w - 1) w ++ [0x01]).
  { rewrite (at_app_drop w (length w - 1)) at 1 by lia. by rewrite H1, drop_ge by lia. }
  destruct w as [|s w]; [done|]. unfold at_ in H0. cbn [nth] in H0. subst s.
  change (drop 1 (SCHEME_ID_MLDSA65 :: w)) with w. unfold wrap_sig. cbn [length] in *.
  replace (S (length w) - 1)%nat with (S (length w - 1)) in Ew by lia. cbn [take app] in Ew.
  by replace (S (length w) - 2)%nat with (length w - 1)%nat by lia.
Qed.

Lemma wrap_sig_parts raw : size raw = SIG_SIZE ->
  let w := wrap_sig SCHEME_ID_MLDSA65 raw in
  size w = 3311 /\ at_ w 0 = SCHEME_ID_MLDSA65 /\ at_ w (length w - 1) = 0x01
  /\ take (length w - 2) (drop 1 w) = raw.
Proof.
  unfold size, SIG_SIZE, wrap_sig, at_. intros H. cbn zeta. cbn [length nth].
  rewrite length_app. cbn [length]. split_and!; [lia|done|..].
  - replace (S (length raw + 1) - 1)%nat with (S (length raw)) by lia. cbn [nth].
    rewrite app_nth2, Nat.sub_diag by lia. done.
  - replace (S (length raw + 1) - 2)%nat with (length raw) by lia.
    change (drop 1 _) with (raw ++ [0x01]). apply take_app_length.
Qed.

(** ** Lemmas: the verifier *)

Lemma p2pkh_script_is h : length h = 20%nat -> is_p2pkh (p2pkh_script h) = true /\ take 20 (drop 3 (p2pkh_script h)) = h.
Proof.
  intros Hl. unfold p2pkh_script. split.
  - do 20 (destruct h as [|? h]; [done|]). by destruct h.
  - change (drop 3 _) with (h ++ [0x88; 0xAC]). rewrite take_app_le by lia. by rewrite take_ge by lia.
Qed.

(** What one accepted input is: a key of the script's hash and a signature of it on
    this transaction, in the canonical layout. *)
Definition signed_input (tx : Transaction) (i : nat) (script pub raw : bytes) : Prop :=
  exists inp, inputs tx !! i = Some inp
  /\ script_sig inp = script_sig_of (wrap_sig SCHEME_ID_MLDSA65 raw) pub
  /\ size pub = PUBKEY_SIZE /\ size raw = SIG_SIZE
  /\ script = p2pkh_script (Hash160Compute pub)
  /\ crypto_sign_verify raw (ComputeSighash tx i script SCHEME_ID_MLDSA65) pub = true.

Lemma Verify_size pub h raw : size raw = SIG_SIZE -> Verify pub h raw = crypto_sign_verify raw h pub.
Proof. intros H. unfold Verify. by rewrite H. Qed.

Lemma VerifyP2PKHInputSig_iff tx i script :
  Forall wf_input (inputs tx) ->
  VerifyP2PKHInputSig tx i script = true <-> exists pub raw, signed_input tx i script pub raw.
Proof.
  intros Hw. unfold VerifyP2PKHInputSig, signed_input. split.
  - destruct (inputs tx !! i) as [inp|] eqn:Ei; [|done].
    assert (Hb : is_bytes (script_sig inp)) by (rewrite Forall_lookup in Hw; apply (Hw i inp Ei)).
    destruct (is_p2pkh script) eqn:Ek; [|done]. cbn [negb]. apply p2pkh_shape in Ek as [Ek _].
    destruct (read_pushdata2 (script_sig inp)) as [[w r1]|] eqn:E1; [|done].
    apply read_pushdata2_inv in E1 as [E1 _]; [|done]. rewrite E1 in Hb. apply is_bytes_app in Hb as [_ Hb].
    destruct (read_pushdata2 r1) as [[pub r2]|] eqn:E2; [|done].
    apply read_pushdata2_inv in E2 as [E2 _]; [|done].
    destruct (Z.eqb_spec (size pub) 1952); [|done]. destruct (size w =? 0); [done|].
    destruct (Z.eqb_spec (size r2) 0) as [Er|]; [|done]. apply size_eq_0 in Er as ->. cbn [negb].
    destruct (Z.eqb_spec (size w) 3311) as [Hsw|]; [|done].
    destruct (Z.eqb_spec (at_ w 0) SCHEME_ID_MLDSA65) as [H0|]; [|done].
    destruct (Z.eqb_spec (at_ w (length w - 1)) 1) as [H1|]; [|done]. cbn [negb].
    case_bool_decide as Hh; [done|]. intros Hv. destruct (wrap_sig_inv w Hsw H0 H1) as [Ew Er].
    exists pub, (take (length w - 2) (drop 1 w)), inp. rewrite <- Ew.
    split; [done|]. split; [by rewrite E1, E2, app_nil_r|]. split; [done|]. split; [done|].
    rewrite Hh. split; [exact Ek|]. rewrite <- H0, <- Verify_size by done. exact Hv.
  - intros (pub & raw & inp & -> & Es & Hp & Hr & -> & Hv).
    destruct (Hash160Compute_hash pub) as [Hl _]. destruct (p2pkh_script_is _ Hl) as [-> ->]. cbn [negb].
    destruct (wrap_sig_parts raw Hr) as (W1 & W2 & W3 & W4). cbv zeta in *.
    rewrite Es. unfold script_sig_of. rewrite read_pushdata2_app by (rewrite W1; done).
    rewrite <- (app_nil_r (push_pushdata2 pub)), read_pushdata2_app by (rewrite Hp; done).
    rewrite Hp, W1, W2, W3, W4. cbn [Z.eqb Pos.eqb negb]. rewrite bool_decide_false by (intros N; by apply N).
    by rewrite Verify_size.
Qed.

Lemma TxVerifiedSignedBy_iff tx address :
  Forall wf_input (inputs tx) ->
  TxVerifiedSignedBy tx address = true
  <-> exists i pub raw, signed_input tx i (AddressToScript address) pub raw.
Proof.
  intros Hw. unfold TxVerifiedSignedBy. split.
  - destruct (size address <? 2); [done|]. destruct (size (AddressToScript address) =? 25); [|done].
    cbn [negb]. rewrite existsb_exists. intros (i & _ & Hi). apply VerifyP2PKHInputSig_iff in Hi; [|done].
    by exists i.
  - intros (i & pub & raw & H). pose proof H as (inp & Hi & _ & _ & _ & Ea & _).
    destruct (Z.ltb_spec (size address) 2) as [Hlt|_].
    { exfalso. unfold AddressToScript, Base58CheckDecode_ in Ea.
      destruct (Z.ltb_spec (size address) 25); [|lia]. discriminate Ea. }
    destruct (Hash160Compute_hash pub) as [Hl _].
    replace (size (AddressToScript address) =? 25) with true.
    2:{ rewrite Ea. unfold p2pkh_script, size. rewrite !length_app, Hl. done. }
    cbn [negb]. apply existsb_exists. exists i. split.
    + apply in_seq. apply lookup_lt_Some in Hi. lia.
    + apply VerifyP2PKHInputSig_iff; eauto.
Qed.

End Signatures.

(** ** The signature hash as a transaction *)

(** The transaction an input signs: script signatures blanked, the subscript in place
    of the signed input's. *)
Definition signed_form (tx : Transaction) (input_index : nat) (subscript : bytes) : Transaction :=
  mkTx (version tx)
    (imap (fun i inp => mkInput (prev_tx_hash inp) (prev_out_index inp)
                          (if (i =? input_index)%nat then subscript else []) (sequence inp)) (inputs tx))
    (outputs tx) (locktime tx).

(** Everything before the transaction: the tag, the network and genesis, the scheme. *)
Definition sighash_domain (scheme_id : Z) : bytes := kSighashTag ++ [0x03] ++ [0x4D] ++ GENESIS_HASH ++ [scheme_id].

Lemma sighash_output_ser o : wf_output o -> sighash_output o = TxOutputOps.Serialize o.
Proof. intros (_ & _ & H). unfold sighash_output, TxOutputOps.Serialize. by rewrite put_varint_script_len. Qed.

Lemma sighash_preimage_ser tx i sub scheme :
  Forall wf_output (outputs tx) -> fits 32 (size sub) ->
  sighash_preimage tx i sub scheme = sighash_domain scheme ++ Serialize (signed_form tx i sub) ++ put_le 4 1.
Proof.
  intros Ho Hs. unfold sighash_preimage, sighash_domain, Serialize, signed_form.
  cbn [version inputs outputs locktime]. rewrite <- !app_assoc.
  replace (concat (map sighash_output (outputs tx))) with (concat (map TxOutputOps.Serialize (outputs tx))).
  2:{ f_equal. apply map_ext_Forall. apply (Forall_impl _ _ _ Ho). intros o H. by rewrite sighash_output_ser. }
  replace (concat (imap (sighash_input i sub) (inputs tx)))
    with (concat (map TxInputOps.Serialize (inputs (signed_form tx i sub)))).
  2:{ f_equal. unfold signed_form. cbn [inputs]. symmetry.
      etransitivity; [|symmetry; apply (fmap_imap _ TxInputOps.Serialize)]. apply imap_ext. intros j x _. unfold TxInputOps.Serialize, sighash_input, compose.
      cbn [prev_tx_hash prev_out_index script_sig sequence].
      destruct (j =? i)%nat; [by rewrite put_varint_script_len, <- app_assoc|done]. }
  unfold signed_form. cbn [inputs]. replace (size (imap _ (inputs tx))) with (size (inputs tx)); [done|].
  unfold size. by rewrite length_imap.
Qed.

Lemma signed_form_wf tx i sub :
  wf_tx tx -> is_bytes sub -> size sub <= MAX_TRANSACTION_SCRIPT_SIG_BYTES -> wf_tx (signed_form tx i sub).
Proof.
  intros (Hv & Hi & Hn & Ho & Hm & Hl) Hb Hs. unfold wf_tx, signed_form. cbn [version inputs outputs locktime].
  split_and!; try done.
  - apply Forall_lookup. intros j x Hx. rewrite list_lookup_imap in Hx.
    destruct (inputs tx !! j) as [inp|] eqn:Ej; [|done]. injection Hx as <-.
    rewrite Forall_lookup in Hi. destruct (Hi j inp Ej) as (H1 & H2 & _ & _ & H5).
    unfold wf_input. cbn [prev_tx_hash prev_out_index script_sig sequence].
    split_and!; try done; destruct (j =? i)%nat; try done. by constructor.
  - unfold size. rewrite length_imap. exact Hn.
Qed.

(** Two transactions that differ in nothing but script signatures. *)
Definition same_but_sigs (a b : Transaction) : Prop :=
  version a = version b /\ outputs a = outputs b /\ locktime a = locktime b
  /\ map (fun i => (prev_tx_hash i, prev_out_index i, sequence i)) (inputs a)
     = map (fun i => (prev_tx_hash i, prev_out_index i, sequence i)) (inputs b).

Lemma signed_form_same a b i j sub sub' :
  signed_form a i sub = signed_form b j sub' -> same_but_sigs a b.
Proof.
  unfold signed_form. intros E. injection E as E1 E2 E3 E4. split_and!; [done..|].
  apply list_eq. intros k. apply (f_equal (.!! k)) in E2. rewrite !list_lookup_imap in E2.
  rewrite (list_lookup_fmap (fun i => (prev_tx_hash i, prev_out_index i, sequence i)) (inputs a)).
  rewrite (list_lookup_fmap (fun i => (prev_tx_hash i, prev_out_index i, sequence i)) (inputs b)).
  destruct (inputs a !! k) as [x|], (inputs b !! k) as [y|]; try done. cbn in E2 |- *.
  by injection E2 as -> -> _ ->.
Qed.

Lemma signed_form_index a b i j sub sub' :
  signed_form a i sub = signed_form b j sub' -> (i < length (inputs a))%nat -> sub <> [] ->
  i = j /\ sub = sub'.
Proof.
  unfold signed_form. intros E Hi Hs. injection E as _ E _ _.
  apply (f_equal (.!! i)) in E. rewrite !list_lookup_imap, Nat.eqb_refl in E.
  apply lookup_lt_is_Some_2 in Hi as [x Hx]. rewrite Hx in E.
  destruct (inputs b !! i) as [y|]; [|done]. cbn in E. injection E as _ _ E _.
  destruct (Nat.eqb_spec i j); by subst.
Qed.

Lemma sighash_preimage_inj a b i j sub sub' s s' :
  wf_tx a -> wf_tx b -> (i < length (inputs a))%nat ->
  is_bytes sub -> is_bytes sub' -> sub <> [] ->
  size sub <= MAX_TRANSACTION_SCRIPT_SIG_BYTES -> size sub' <= MAX_TRANSACTION_SCRIPT_SIG_BYTES ->
  sighash_preimage a i sub s = sighash_preimage b j sub' s' ->
  same_but_sigs a b /\ i = j /\ sub = sub' /\ s = s'.
Proof.
  intros Ha Hb Hi Bs Bs' Hn Ss Ss' E.
  assert (Hf : forall x : bytes, size x <= MAX_TRANSACTION_SCRIPT_SIG_BYTES -> fits 32 (size x))
    by (intros x Hx; pose proof (size_nonneg x); unfold fits, MAX_TRANSACTION_SCRIPT_SIG_BYTES in *; lia).
  rewrite !sighash_preimage_ser in E by (auto; apply Ha || apply Hb).
  apply app_inv_len in E as [Ed E]; [|done].
  apply Serialize_inj in E as [E _]; [|by apply signed_form_wf..].
  destruct (signed_form_index _ _ _ _ _ _ E Hi Hn) as [-> ->].
  split; [by apply signed_form_same in E|]. split; [done|]. split; [done|].
  unfold sighash_domain in Ed. rewrite !app_assoc in Ed. apply app_inj_tail in Ed. tauto.
Qed.

(** The signature hash does not depend on script signatures. *)
Lemma sighash_same a b i sub s :
  same_but_sigs a b -> ComputeSighash a i sub s = ComputeSighash b i sub s.
Proof.
  intros (Hv & Ho & Hl & Hi). unfold ComputeSighash, sighash_preimage. rewrite Hv, Ho, Hl.
  replace (size (inputs b)) with (size (inputs a))
    by (apply (f_equal length) in Hi; rewrite !length_map in Hi; unfold size; by rewrite Hi).
  replace (imap (sighash_input i sub) (inputs b)) with (imap (sighash_input i sub) (inputs a)); [done|].
  apply list_eq. intros k. rewrite !list_lookup_imap. apply (f_equal (.!! k)) in Hi.
  rewrite (list_lookup_fmap (fun i => (prev_tx_hash i, prev_out_index i, sequence i)) (inputs a)) in Hi.
  rewrite (list_lookup_fmap (fun i => (prev_tx_hash i, prev_out_index i, sequence i)) (inputs b)) in Hi.
  destruct (inputs a !! k) as [x|], (inputs b !! k) as [y|]; try done. cbn in Hi |- *.
  injection Hi as H1 H2 H3. unfold sighash_input. by rewrite H1, H2, H3.
Qed.

Lemma PubkeyToAddress_iff pub address :
  size pub = PUBKEY_SIZE ->
  AddressToScript address = p2pkh_script (Hash160Compute pub) <-> address = PubkeyToAddress pub.
Proof.
  intros Hp. unfold PubkeyToAddress. rewrite Hp. cbn [Z.eqb Pos.eqb negb PUBKEY_SIZE].
  destruct (Hash160Compute_hash pub) as [Hl Hb]. apply AddressToScript_iff.
  - unfold p2pkh_script. apply is_bytes_app. split; [fits_list|]. apply is_bytes_app. split; [done|fits_list].
  - by destruct (p2pkh_script_is _ Hl) as [-> _].
Qed.

(** Installing the signature [BuildScriptSig] makes authorises the key's address,
    whatever the other inputs carry. *)
Lemma signed_transaction_authorizes csv Sign pub tx i inp :
  (forall h, csv (Sign h) h pub = true) -> (forall h, size (Sign h) = SIG_SIZE) ->
  size pub = PUBKEY_SIZE -> inputs tx !! i = Some inp ->
  let ss := BuildScriptSig Sign pub tx i (p2pkh_script (Hash160Compute pub)) in
  let tx' := mkTx (version tx)
               (<[i := mkInput (prev_tx_hash inp) (prev_out_index inp) ss (sequence inp)]> (inputs tx))
               (outputs tx) (locktime tx) in
  Forall wf_input (inputs tx') -> TxVerifiedSignedBy csv tx' (PubkeyToAddress pub) = true.
Proof.
  intros Hv Hs Hp Hi ss tx' Hw. apply TxVerifiedSignedBy_iff; [done|].
  exists i, pub, (Sign (ComputeSighash tx i (p2pkh_script (Hash160Compute pub)) SCHEME_ID_MLDSA65)).
  pose proof (proj2 (PubkeyToAddress_iff pub _ Hp) eq_refl) as Ea. rewrite Ea.
  exists (mkInput (prev_tx_hash inp) (prev_out_index inp) ss (sequence inp)).
  split_and!; [|done|done|apply Hs|done|].
  - apply list_lookup_insert_eq. by apply lookup_lt_Some in Hi.
  - rewrite (sighash_same tx' tx); [apply Hv|]. split_and!; try done.
    unfold tx'. cbn [inputs]. apply list_eq. intros k.
    rewrite !(list_lookup_fmap (fun i => (prev_tx_hash i, prev_out_index i, sequence i))).
    destruct (decide (i = k)) as [<-|Hk].
    + rewrite list_lookup_insert_eq by (by apply lookup_lt_Some in Hi). by rewrite Hi.
    + by rewrite list_lookup_insert_ne.
Qed.

(** ** Properties *)

(** C34: authorisation is a signature and nothing less.  A transaction counts as
    signed by an address exactly when one of its inputs carries, in the canonical
    two-push layout, a full-size public key whose address that is and an ML-DSA
    signature by that key over this transaction's own signature hash at that input.
    A key that merely appears in the bytes authorises nothing; the output that the input
    spends is not consulted. *)
Theorem authorization_exact csv tx address :
  Forall wf_input (inputs tx) ->
  TxVerifiedSignedBy csv tx address = true
  <-> exists i inp pub raw, inputs tx !! i = Some inp
      /\ script_sig inp = script_sig_of (wrap_sig SCHEME_ID_MLDSA65 raw) pub
      /\ size raw = SIG_SIZE /\ size pub = PUBKEY_SIZE /\ address = PubkeyToAddress pub
      /\ csv raw (ComputeSighash tx i (p2pkh_script (Hash160Compute pub)) SCHEME_ID_MLDSA65) pub = true.
Proof.
  intros Hw. rewrite TxVerifiedSignedBy_iff by done. split.
  - intros (i & pub & raw & inp & H1 & H2 & H3 & H4 & H5 & H6).
    exists i, inp, pub, raw. rewrite H5 in H6. split_and!; try done. by apply PubkeyToAddress_iff.
  - intros (i & inp & pub & raw & H1 & H2 & H3 & H4 & H5 & H6).
    exists i, pub, raw, inp. apply PubkeyToAddress_iff in H5; [|done]. rewrite H5. done.
Qed.

Definition auth_key : bytes := replicate 1952 7.
Definition auth_sig : bytes := replicate 3309 9.
Definition auth_tx : Transaction :=
  mkTx 1 [mkInput ZeroHash 0 (script_sig_of (wrap_sig SCHEME_ID_MLDSA65 auth_sig) auth_key) 0]
    [mkOutput 5 [0x51]] 0.

(** A verifier that accepts the one sample signature. *)
Definition sample_verify : bytes -> bytes -> bytes -> bool :=
  fun sig _ pub => bytes_eqb sig auth_sig && bytes_eqb pub auth_key.

Lemma auth_tx_wf : wf_tx auth_tx.
Proof. apply (bool_decide_unpack _). vm_compute. exact I. Qed.

(** The address of the sample key, and that the verifier accepts any transaction whose
    first input carries the sample script signature. *)
Definition auth_address : bytes := b:"VBJnhhGM8WATKs3jXfRp1AFygS5jzZWtab".
Definition auth_input (txid : Hash256) (vout : Z) : TxInput :=
  mkInput txid vout (script_sig_of (wrap_sig SCHEME_ID_MLDSA65 auth_sig) auth_key) 0.

Lemma auth_address_eq : auth_address = PubkeyToAddress auth_key.
Proof. vm_cast_no_check (eq_refl auth_address). Qed.

Lemma auth_input_wf txid vout : is_hash txid -> fits 32 vout -> wf_input (auth_input txid vout).
Proof.
  intros Hh Hv. assert (Hs : wf_input (auth_input ZeroHash 0)) by (apply (bool_decide_unpack _); vm_compute; exact I).
  unfold wf_input in *. cbn [auth_input prev_tx_hash prev_out_index sequence script_sig] in *. tauto.
Qed.

(** A verifier that accepts every signature of the sample key. *)
Definition key_verify : bytes -> bytes -> bytes -> bool := fun _ _ pub => bytes_eqb pub auth_key.

(** What the transactions of the sample key need of a verifier. *)
Definition accepts_sample (csv : bytes -> bytes -> bytes -> bool) : Prop := forall m, csv auth_sig m auth_key = true.

Lemma sample_verify_accepts : accepts_sample sample_verify.
Proof. intros m. unfold sample_verify, bytes_eqb. by rewrite !bool_decide_true. Qed.

Lemma key_verify_accepts : accepts_sample key_verify.
Proof. intros m. unfold key_verify, bytes_eqb. by rewrite bool_decide_true. Qed.

Lemma key_signs csv tx txid vout :
  accepts_sample csv -> is_hash txid -> fits 32 vout -> inputs tx = [auth_input txid vout] ->
  TxVerifiedSignedBy csv tx auth_address = true.
Proof.
  intros Hcsv Hh Hv Hi. apply TxVerifiedSignedBy_iff.
  - rewrite Hi. constructor; [by apply auth_input_wf|constructor].
  - exists 0%nat, auth_key, auth_sig, (auth_input txid vout). rewrite Hi.
    rewrite (proj2 (PubkeyToAddress_iff auth_key auth_address ltac:(vm_compute; reflexivity)) auth_address_eq).
    split; [reflexivity|]. split; [reflexivity|]. split; [vm_compute; reflexivity|]. split; [vm_compute; reflexivity|].
    split; [reflexivity|]. apply Hcsv.
Qed.

Lemma sample_signs tx txid vout :
  is_hash txid -> fits 32 vout -> inputs tx = [auth_input txid vout] ->
  TxVerifiedSignedBy sample_verify tx auth_address = true.
Proof. apply key_signs, sample_verify_accepts. Qed.

Lemma authorization_exact_witness : TxVerifiedSignedBy sample_verify auth_tx (PubkeyToAddress auth_key) = true.
Proof.
  apply (authorization_exact sample_verify auth_tx (PubkeyToAddress auth_key)).
  - apply auth_tx_wf.
  - eexists 0%nat, _, auth_key, auth_sig. split; [reflexivity|]. split; [reflexivity|].
    split; [vm_compute; reflexivity|]. split; [vm_compute; reflexivity|]. split; [reflexivity|].
    vm_compute. reflexivity.
Defined.

(** A signature hash names one transaction, one input and one spent script.
    Unless the double SHA-256 collides on the two preimages, equal signature hashes
    mean the same version, outpoints, sequences, outputs and lock time, the same input,
    the same subscript and the same scheme: a signature cannot be moved to another
    transaction, another input or another coin. *)
Lemma sighash_binding a b i j sub sub' s s' :
  wf_tx a -> wf_tx b -> (i < length (inputs a))%nat ->
  is_bytes sub -> is_bytes sub' -> sub <> [] ->
  size sub <= MAX_TRANSACTION_SCRIPT_SIG_BYTES -> size sub' <= MAX_TRANSACTION_SCRIPT_SIG_BYTES ->
  (Hash256d (sighash_preimage a i sub s) = Hash256d (sighash_preimage b j sub' s') ->
   sighash_preimage a i sub s = sighash_preimage b j sub' s') ->
  ComputeSighash a i sub s = ComputeSighash b j sub' s' ->
  same_but_sigs a b /\ i = j /\ sub = sub' /\ s = s'.
Proof.
  intros Ha Hb Hi B1 B2 Hn S1 S2 Hnc E. apply sighash_preimage_inj; try done. by apply Hnc.
Qed.

(** Raising an output by one unit changes the hash. *)
Definition auth_tx' : Transaction :=
  mkTx 1 [mkInput ZeroHash 0 [] 0] [mkOutput 6 [0x51]] 0.

Lemma sighash_binding_witness :
  ComputeSighash auth_tx 0 [0x51] 1 <> ComputeSighash auth_tx' 0 [0x51] 1.
Proof.
  intros E. apply (sighash_binding auth_tx auth_tx' 0 0 [0x51] [0x51] 1 1) in E as [(_ & E & _) _].
  - discriminate E.
  - apply auth_tx_wf.
  - apply (bool_decide_unpack _). vm_compute. exact I.
  - cbn. lia.
  - fits_list.
  - fits_list.
  - discriminate.
  - vm_compute. discriminate.
  - vm_compute. discriminate.
  - intros C. exfalso. revert C. apply (bool_decide_unpack _). vm_compute. exact I.
Defined.
