(* ===== verification/Marker.v ===== *)
(** * On-chain markers

    [core/canonical_numeric.h], [core/stake_marker.h] and
    [core/marker_composition.h]: canonical decimal text, the staking grammar, the
    OP_RETURN decoder, the canonical-push test and the cross-protocol guard. *)
From S2P Require Import Prelude Bytes Positional Profile Transaction.

(** ** Canonical decimal text *)

(** The digit loop; [None] is the early [return false]. *)
Fixpoint parse_digits (text : bytes) (value : Z) : option Z :=
  match text with
  | [] => Some value
  | c :: text' =>
      if (c <? 48) || (c >? 57) then None
      else
        let digit := c - 48 in
        if value >? (UINT64_MAX - digit) / 10 then None
        else parse_digits text' (u64 (value * 10 + digit))
  end.

Definition ParseCanonicalUint64Text (text : bytes) : option Z :=
  match text with
  | [] => None
  | c :: _ => if (size text >? 1) && (c =? 48) then None else parse_digits text 0
  end.

(** ** Strings *)

(** [s.rfind(prefix, 0) == 0], [s.substr(0, prefix.size()) == prefix] *)
Definition starts_with (prefix s : bytes) : bool := bytes_eqb (take (length prefix) s) prefix.

(** [s.find(c)], then the text before it and the text after it. *)
Fixpoint split_at (c : Z) (s : bytes) : option (bytes * bytes) :=
  match s with
  | [] => None
  | x :: s' => if x =? c then Some ([], s')
               else match split_at c s' with Some (a, b) => Some (x :: a, b) | None => None end
  end.

Abbreviation PIPE := 124.

(** ** Staking grammar *)

Inductive StakeAction := LOCK | UNLOCK.

#[global] Instance StakeAction_eq_dec : EqDecision StakeAction.
Proof. solve_decision. Defined.

Record CanonicalStakeOp := mkStakeOp {
  op_action : StakeAction; op_address : bytes; op_amount : Z; op_tier : Z }.

Definition StakeUnlockPreservesMinimum (current_units mature_units requested_units
    effective_min_units : Z) : bool :=
  if mature_units >? current_units then false
  else
    let applied := if requested_units <? mature_units then requested_units else mature_units in
    let projected := current_units - applied in
    (projected =? 0) || (projected >=? effective_min_units).

Definition lock_prefix : bytes := b:"VELD_STAKE|LOCK|".
Definition unlock_prefix : bytes := b:"VELD_STAKE|UNLOCK|".

(** The fields after the prefix. *)
Definition parse_stake_fields (is_lock : bool) (payload : bytes) : option CanonicalStakeOp :=
  match split_at PIPE payload with
  | None => None
  | Some (address, rest) =>
      if size address =? 0 then None
      else
        let amount_text := match split_at PIPE rest with Some (a, _) => a | None => rest end in
        match ParseCanonicalUint64Text amount_text with
        | None => None
        | Some amount =>
            match is_lock, split_at PIPE rest with
            | false, None => Some (mkStakeOp UNLOCK address amount 0)
            | true, Some (_, tier) =>
                match tier with
                | [t; d] => if negb (t =? 84) || (d <? 49) || (d >? 52) then None
                            else Some (mkStakeOp LOCK address amount (d - 48))
                | _ => None
                end
            | _, _ => None
            end
        end
  end.

Definition ParseCanonicalStakeOp (payload : bytes) : option CanonicalStakeOp :=
  if starts_with lock_prefix payload
  then parse_stake_fields true (drop (length lock_prefix) payload)
  else if starts_with unlock_prefix payload
  then parse_stake_fields false (drop (length unlock_prefix) payload)
  else None.

(** ** OP_RETURN payloads *)

Definition MAX_FINALITY_MARKER_OUTPUTS : Z := 235.

(** The generic decoder; the empty string stands for "not a push". *)
Definition MarkerOpReturnPayload (script : bytes) : bytes :=
  match script with
  | op :: len :: rest =>
      if negb (op =? 0x6A) then []
      else
        let body plen data := if size data <? plen then [] else take (Z.to_nat plen) data in
        if len <=? 75 then body len rest
        else if (len =? 0x4C) && (size script >? 2)
        then match rest with l :: data => body l data | [] => [] end
        else if (len =? 0x4D) && (size script >? 3)
        then match rest with lo :: hi :: data => body (Z.lor lo (Z.shiftl hi 8)) data | _ => [] end
        else []
  | _ => []
  end.

Definition IsCanonicalMarkerOpReturn (script payload : bytes) : bool :=
  let n := size payload in
  match script with
  | [] => false
  | op :: rest =>
      if negb (op =? 0x6A) || (n >? 0xFFFF) then false
      else
        let tail data := bytes_eqb data payload in
        if n <=? 75 then
          match rest with l :: data => (l =? u8 n) && tail data | [] => false end
        else if n <=? 0xFF then
          match rest with k :: l :: data => (k =? 0x4C) && (l =? u8 n) && tail data | _ => false end
        else
          match rest with
          | k :: lo :: hi :: data =>
              (k =? 0x4D) && (lo =? u8 (Z.land n 0xFF)) && (hi =? u8 (Z.shiftr n 8)) && tail data
          | _ => false
          end
  end.

(** ** Protocol families (public-mainnet profile) *)

Definition kStatefulMarkerFamilies : list bytes :=
  [b:"VELD_TOKEN|"; b:"VELD_MSPV|"; b:"VELD_RSV1|"; b:"VELD_AMM|"; b:"VELD_STAKE|";
   b:"VELD_VALIDATOR|"; b:"VELD_GOV|"; b:"VELD_ANCHOR|"; b:"VELD_BHDR|"; b:"VELD_FRAUD|";
   b:"VELD_SBOND|"; b:"VELD_PAYOUT|"; b:"VELD_FINALITY|"].

Definition is_token_marker (payload : bytes) : bool :=
  starts_with (b:"VELD_TOKEN|") payload || starts_with (b:"VELD_MSPV|") payload
  || starts_with (b:"VELD_RSV1|") payload.

Fixpoint token_marker_loop (outs : list TxOutput) (token_markers : Z) : bool :=
  match outs with
  | [] => false
  | o :: outs' =>
      let payload := MarkerOpReturnPayload (script_pubkey o) in
      if negb (is_token_marker payload) then token_marker_loop outs' token_markers
      else if (token_markers + 1 >? 1) || negb (value o =? 0)
              || negb (IsCanonicalMarkerOpReturn (script_pubkey o) payload) then true
      else token_marker_loop outs' (token_markers + 1)
  end.

Definition TxHasInvalidTokenMarkerSet (tx : Transaction) : bool := token_marker_loop (outputs tx) 0.

Definition kExternalValueFamilies : list bytes :=
  [b:"VELD_TOKEN|"; b:"VELD_MSPV|"; b:"VELD_RSV1|"; b:"VELD_AMM|"; b:"VELD_ANCHOR|";
   b:"VELD_BHDR|"; b:"VELD_FRAUD|"; b:"VELD_SBOND|"; b:"VELD_PAYOUT|"].

Definition TxUsesExternalValueProtocol (tx : Transaction) : bool :=
  existsb (fun o => let payload := MarkerOpReturnPayload (script_pubkey o) in
             negb (size payload =? 0)
             && existsb (fun prefix => starts_with prefix payload) kExternalValueFamilies)
          (outputs tx).

(** The inner loop: the first family whose prefix the payload carries. *)
Fixpoint family_index (fams : list bytes) (f : Z) (payload : bytes) : option Z :=
  match fams with
  | [] => None
  | p :: fams' => if starts_with p payload then Some f else family_index fams' (f + 1) payload
  end.

(** The outer loop over outputs with its bit mask and counter. *)
Fixpoint compose_loop (outs : list TxOutput) (seen_mask distinct : Z) : bool :=
  match outs with
  | [] => false
  | o :: outs' =>
      let payload := MarkerOpReturnPayload (script_pubkey o) in
      if size payload =? 0 then compose_loop outs' seen_mask distinct
      else match family_index kStatefulMarkerFamilies 0 payload with
      | None => compose_loop outs' seen_mask distinct
      | Some f =>
          if negb (Z.land seen_mask (u32 (Z.shiftl 1 f)) =? 0) then compose_loop outs' seen_mask distinct
          else if distinct + 1 >=? 2 then true
          else compose_loop outs' (Z.lor seen_mask (u32 (Z.shiftl 1 f))) (distinct + 1)
      end
  end.

Definition TxComposesMultipleProtocols (tx : Transaction) : bool := compose_loop (outputs tx) 0 0.

(** ** Lemmas: decimal text *)

Lemma parse_digits_spec text value v :
  0 <= value <= UINT64_MAX ->
  parse_digits text value = Some v
  <-> Forall is_digit text /\ v = value * 10 ^ size text + dec_val text /\ v <= UINT64_MAX.
Proof.
  revert value. induction text as [|c text IH]; intros val Hval; cbn [parse_digits].
  { unfold size, dec_val. cbn. split; [intros [= <-]; repeat split; [constructor|lia..]|].
    intros (_ & -> & _). f_equal. lia. }
  assert (Hval' : size (c :: text) = size text + 1) by (unfold size; cbn [length]; lia).
  assert (Hdv : dec_val (c :: text) = (c - 48) * 10 ^ size text + dec_val text).
  { change (c :: text) with ([c] ++ text). rewrite dec_val_app. unfold dec_val at 1. cbn [foldl]. lia. }
  rewrite Hval', Hdv, Z.pow_add_r by (unfold size; lia). change (10 ^ 1) with 10.
  assert (Hpow : 0 < 10 ^ size text) by (apply Z.pow_pos_nonneg; unfold size; lia).
  rewrite Z.gtb_ltb. destruct (Z.ltb_spec c 48), (Z.ltb_spec 57 c); cbn [orb];
    try (split; [done|intros (Hd & _); apply Forall_cons in Hd as [Hd _]; unfold is_digit in Hd; lia]).
  assert (Hov : (val >? (UINT64_MAX - (c - 48)) / 10) = (UINT64_MAX <? val * 10 + (c - 48))).
  { rewrite Z.gtb_ltb. pose proof (Z.div_mod (UINT64_MAX - (c - 48)) 10).
    pose proof (Z.mod_pos_bound (UINT64_MAX - (c - 48)) 10).
    destruct (Z.ltb_spec ((UINT64_MAX - (c - 48)) / 10) val),
      (Z.ltb_spec UINT64_MAX (val * 10 + (c - 48))); (done || lia). }
  rewrite Hov. destruct (Z.ltb_spec UINT64_MAX (val * 10 + (c - 48))) as [Hbig|Hok].
  - split; [done|]. intros (Hd & -> & Hle). exfalso. apply Forall_cons in Hd as [_ Hd].
    pose proof (dec_val_nonneg text Hd). nia.
  - rewrite wrap_id by (unfold fits, UINT64_MAX in *; lia). rewrite IH by lia.
    split; intros (Hd & -> & Hle); (split; [|split; [lia|lia]]).
    + constructor; [unfold is_digit; lia|done].
    + by apply Forall_cons in Hd as [_ Hd].
Qed.

(** Digits only, and no redundant leading zero. *)
Definition canonical_text (t : bytes) : Prop :=
  Forall is_digit t /\ (t = [48] \/ exists c l, t = c :: l /\ c <> 48).

Definition digits10 (t : bytes) : list Z := map (fun c => c - 48) (rev t).

Lemma digits10_val t : nval 10 (digits10 t) = dec_val t.
Proof.
  unfold digits10, dec_val. induction t as [|c t IH] using rev_ind; [done|].
  rewrite foldl_app, rev_app_distr. cbn [rev app map foldl]. rewrite nval_cons, IH. lia.
Qed.

Lemma digits10_ok t : Forall is_digit t -> digits_ok 10 (digits10 t).
Proof.
  intros H. apply Forall_map, Forall_rev. eapply Forall_impl; [exact H|].
  intros c Hc. unfold is_digit in Hc. lia.
Qed.

Lemma digits10_minimal t : canonical_text t -> minimal (digits10 t).
Proof.
  intros [_ [->|(c & l & -> & Hc)]]; [by left|]. right. unfold digits10. cbn [rev].
  rewrite map_app. eexists _, _. split; [reflexivity|]. lia.
Qed.

Lemma canonical_text_inj s t :
  canonical_text s -> canonical_text t -> dec_val s = dec_val t -> s = t.
Proof.
  intros Hs Ht E.
  assert (Ed : digits10 s = digits10 t).
  { apply (minimal_inj 10); [lia|apply digits10_ok, Hs|apply digits10_ok, Ht
      |by apply digits10_minimal..|]. by rewrite !digits10_val. }
  unfold digits10 in Ed. apply list_fmap_eq_inj in Ed; [|intros x y; lia].
  by rewrite <- (rev_involutive s), Ed, rev_involutive.
Qed.

Lemma to_string_canonical v : fits 64 v -> canonical_text (to_string v).
Proof.
  intros Hv. split; [apply to_string_digits, Hv|].
  destruct (decide (v = 0)) as [->|Hne]; [by left|]. right. unfold fits in Hv.
  destruct (dec_loop_head 20 v) as (c & l & E & Hc); [lia|change (Z.of_nat 20) with 20; lia|].
  by exists c, l.
Qed.

Lemma ParseCanonicalUint64Text_iff text v :
  ParseCanonicalUint64Text text = Some v <-> fits 64 v /\ text = to_string v.
Proof.
  unfold ParseCanonicalUint64Text. split.
  - destruct text as [|c text']; [done|]. set (text := c :: text').
    destruct ((size text >? 1) && (c =? 48)) eqn:Ez; [done|]. intros E.
    apply parse_digits_spec in E as (Hd & Hv & Hle); [|unfold UINT64_MAX; lia].
    rewrite Z.mul_0_l, Z.add_0_l in Hv.
    assert (Hf : fits 64 v) by (pose proof (dec_val_nonneg text Hd); unfold fits, UINT64_MAX in *; lia).
    split; [done|]. apply canonical_text_inj; [|by apply to_string_canonical|].
    2:{ rewrite dec_val_to_string by done. done. }
    split; [done|]. destruct (Z.eqb_spec c 48) as [->|Hc]; [|right; by exists c, text'].
    rewrite andb_true_r, Z.gtb_ltb in Ez. apply Z.ltb_ge in Ez.
    left. unfold text in *. destruct text' as [|? ?]; [done|]. unfold size in Ez. cbn [length] in Ez. lia.
  - intros [Hf ->]. destruct (to_string_canonical v Hf) as [Hd Hc].
    assert (Hp : parse_digits (to_string v) 0 = Some v).
    { apply parse_digits_spec; [unfold UINT64_MAX; lia|]. rewrite dec_val_to_string by done.
      unfold fits, UINT64_MAX in *. split; [done|]. lia. }
    destruct Hc as [E|(c & l & E & Hc)]; rewrite E in *; [exact Hp|].
    destruct (Z.eqb_spec c 48); [done|]. by rewrite andb_false_r.
Qed.

(** ** Lemmas: the staking grammar *)

Lemma starts_with_app p s : starts_with p (p ++ s) = true.
Proof. unfold starts_with, bytes_eqb. rewrite take_app_length. by apply bool_decide_eq_true_2. Qed.

Lemma starts_with_inv p s : starts_with p s = true -> s = p ++ drop (length p) s.
Proof.
  unfold starts_with, bytes_eqb. intros H%bool_decide_eq_true_1. by rewrite <- H at 1; rewrite take_drop.
Qed.

Lemma split_at_spec c s a b :
  split_at c s = Some (a, b) <-> s = a ++ c :: b /\ c ∉ a.
Proof.
  revert a b. induction s as [|x s IH]; intros a b; cbn [split_at].
  { split; [done|]. intros [E _]. by destruct a. }
  destruct (Z.eqb_spec x c) as [->|Hne].
  - split; [intros [= <- <-]; split; [done|apply not_elem_of_nil]|].
    intros [E Ha]. destruct a as [|y a]; [by injection E as <-|]. injection E as <- _.
    exfalso. apply Ha. left.
  - split.
    + destruct (split_at c s) as [[a' b']|] eqn:E; [|done]. intros [= <- <-].
      destruct (proj1 (IH a' b') eq_refl) as [-> Ha]. split; [done|]. rewrite not_elem_of_cons. auto.
    + intros [E Ha]. destruct a as [|y a]; [injection E; congruence|]. injection E as <- E.
      apply not_elem_of_cons in Ha as [_ Ha]. by rewrite (proj2 (IH a b) (conj E Ha)).
Qed.

Lemma split_at_none c s : split_at c s = None <-> c ∉ s.
Proof.
  induction s as [|x s IH]; cbn [split_at]; [split; [intros _; apply not_elem_of_nil|done]|].
  rewrite not_elem_of_cons. destruct (Z.eqb_spec x c) as [->|Hne]; [split; [done|tauto]|].
  destruct (split_at c s) as [[a b]|]; split; try done; try tauto.
  - intros [_ H]. by apply IH in H.
  - intros _. split; [done|]. by apply IH.
Qed.

(** The marker text of an operation, field by field. *)
Definition stake_op_text (op : CanonicalStakeOp) : bytes :=
  match op_action op with
  | LOCK => lock_prefix ++ op_address op ++ PIPE :: to_string (op_amount op)
            ++ [PIPE; 84; 48 + op_tier op]
  | UNLOCK => unlock_prefix ++ op_address op ++ PIPE :: to_string (op_amount op)
  end.

Definition wf_stake_op (op : CanonicalStakeOp) : Prop :=
  op_address op <> [] /\ PIPE ∉ op_address op /\ fits 64 (op_amount op)
  /\ match op_action op with LOCK => 1 <= op_tier op <= 4 | UNLOCK => op_tier op = 0 end.

Lemma digits_no_pipe v : 0 <= v -> PIPE ∉ to_string v.
Proof.
  intros Hv H. pose proof (to_string_digits v Hv) as Hd. eapply Forall_forall in Hd; [|exact H].
  unfold is_digit in Hd. lia.
Qed.

Lemma parse_stake_fields_lock payload op :
  parse_stake_fields true payload = Some op
  <-> op_action op = LOCK /\ wf_stake_op op
      /\ payload = op_address op ++ PIPE :: to_string (op_amount op) ++ [PIPE; 84; 48 + op_tier op].
Proof.
  unfold parse_stake_fields. split.
  - destruct (split_at PIPE payload) as [[addr rest]|] eqn:E1; [|done].
    apply split_at_spec in E1 as [-> Hp]. destruct (Z.eqb_spec (size addr) 0) as [|Hne]; [done|].
    destruct (split_at PIPE rest) as [[amt tier]|] eqn:E2.
    2:{ by destruct (ParseCanonicalUint64Text rest). }
    apply split_at_spec in E2 as [-> Ha].
    destruct (ParseCanonicalUint64Text amt) as [v|] eqn:E3; [|done].
    apply ParseCanonicalUint64Text_iff in E3 as [Hv ->].
    destruct tier as [|t [|d [|? ?]]]; try done.
    destruct (Z.eqb_spec t 84) as [->|]; cbn [negb orb]; [|done]. rewrite Z.gtb_ltb.
    destruct (Z.ltb_spec d 49), (Z.ltb_spec 52 d); cbn [orb]; try done. intros [= <-].
    unfold wf_stake_op. cbn [op_action op_address op_amount op_tier]. split_and!; try done; try lia.
    + intros ->. done.
    + replace (48 + (d - 48)) with d by lia. done.
  - destruct op as [act addr v tier]. intros (Hact & (Hne & Hp & Hv & Ht) & ->).
    cbn [op_action op_address op_amount op_tier] in *. subst act.
    rewrite (proj2 (split_at_spec PIPE _ addr _)) by done.
    destruct (Z.eqb_spec (size addr) 0) as [E%size_eq_0|_]; [done|].
    rewrite (proj2 (split_at_spec PIPE _ (to_string v) [84; 48 + tier]))
      by (split; [done|apply digits_no_pipe; unfold fits in Hv; lia]).
    rewrite (proj2 (ParseCanonicalUint64Text_iff (to_string v) v)) by done.
    cbn [Z.eqb Pos.eqb negb orb]. rewrite Z.gtb_ltb.
    destruct (Z.ltb_spec (48 + tier) 49), (Z.ltb_spec 52 (48 + tier)); cbn [orb]; try lia.
    do 2 f_equal. lia.
Qed.

Lemma parse_stake_fields_unlock payload op :
  parse_stake_fields false payload = Some op
  <-> op_action op = UNLOCK /\ wf_stake_op op
      /\ payload = op_address op ++ PIPE :: to_string (op_amount op).
Proof.
  unfold parse_stake_fields. split.
  - destruct (split_at PIPE payload) as [[addr rest]|] eqn:E1; [|done].
    apply split_at_spec in E1 as [-> Hp]. destruct (Z.eqb_spec (size addr) 0) as [|Hne]; [done|].
    destruct (split_at PIPE rest) as [[amt tier]|] eqn:E2.
    { by destruct (ParseCanonicalUint64Text amt). }
    destruct (ParseCanonicalUint64Text rest) as [v|] eqn:E3; [|done].
    apply ParseCanonicalUint64Text_iff in E3 as [Hv ->]. intros [= <-].
    unfold wf_stake_op. cbn [op_action op_address op_amount op_tier]. split_and!; try done.
    intros ->. done.
  - destruct op as [act addr v tier]. intros (Hact & (Hne & Hp & Hv & Ht) & ->).
    cbn [op_action op_address op_amount op_tier] in *. subst act tier.
    rewrite (proj2 (split_at_spec PIPE _ addr _)) by done.
    destruct (Z.eqb_spec (size addr) 0) as [E%size_eq_0|_]; [done|].
    rewrite (proj2 (split_at_none PIPE (to_string v))) by (apply digits_no_pipe; unfold fits in Hv; lia).
    by rewrite (proj2 (ParseCanonicalUint64Text_iff (to_string v) v)).
Qed.

(** The two prefixes exclude each other. *)
Lemma lock_not_unlock s : starts_with lock_prefix (unlock_prefix ++ s) = false.
Proof.
  unfold starts_with, bytes_eqb. apply bool_decide_eq_false_2.
  rewrite take_app_le by (vm_compute; lia). vm_compute. discriminate.
Qed.

(** ** Lemmas: OP_RETURN scripts *)

(** The one canonical script of a payload: shortest push, nothing after it. *)
Definition op_return_script (payload : bytes) : bytes :=
  let n := size payload in
  0x6A :: (if n <=? 75 then [n] else if n <=? 0xFF then [0x4C; n]
           else [0x4D; n mod 256; n / 256]) ++ payload.

Lemma IsCanonicalMarkerOpReturn_iff script payload :
  IsCanonicalMarkerOpReturn script payload = true
  <-> size payload <= 0xFFFF /\ script = op_return_script payload.
Proof.
  unfold IsCanonicalMarkerOpReturn, op_return_script. pose proof (size_nonneg payload) as H0.
  set (n := size payload) in *. rewrite Z.gtb_ltb.
  assert (H8 : forall x, 0 <= x < 256 -> u8 x = x) by (intros; apply wrap_id; unfold fits; lia).
  destruct script as [|op rest]; [split; [done|intros [_ E]; discriminate E]|].
  destruct (Z.eqb_spec op 0x6A) as [->|Hop]; cbn [negb orb];
    [|split; [done|intros [_ E]; injection E as E _; done]].
  destruct (Z.ltb_spec 0xFFFF n); [split; [done|intros [? _]; lia]|].
  unfold bytes_eqb. destruct (Z.leb_spec n 75); [|destruct (Z.leb_spec n 0xFF)].
  - rewrite H8 by lia. destruct rest as [|l data]; [split; [done|intros [_ E]; discriminate E]|].
    cbn [app]. rewrite andb_true_iff, Z.eqb_eq, bool_decide_eq_true. naive_solver.
  - rewrite H8 by lia. destruct rest as [|k [|l data]]; try (split; [done|intros [_ E]; discriminate E]).
    cbn [app]. rewrite !andb_true_iff, !Z.eqb_eq, bool_decide_eq_true. naive_solver.
  - rewrite land_byte, Z.shiftr_div_pow2 by lia. change (2 ^ 8) with 256.
    assert (0 <= n mod 256 < 256) by (apply Z.mod_pos_bound; lia).
    assert (0 <= n / 256 < 256) by (split; [apply Z.div_pos; lia|apply Z.div_lt_upper_bound; lia]).
    rewrite !H8 by lia.
    destruct rest as [|k [|lo [|hi data]]]; try (split; [done|intros [_ E]; discriminate E]).
    cbn [app]. rewrite !andb_true_iff, !Z.eqb_eq, bool_decide_eq_true. naive_solver.
Qed.

Lemma MarkerOpReturnPayload_script payload :
  size payload <= 0xFFFF -> MarkerOpReturnPayload (op_return_script payload) = payload.
Proof.
  intros Hn. unfold op_return_script. pose proof (size_nonneg payload) as H0.
  assert (Htk : take (Z.to_nat (size payload)) payload = payload)
    by (rewrite to_nat_size; by apply take_ge).
  assert (Hsz : (size payload <? size payload) = false) by apply Z.ltb_irrefl.
  destruct (Z.leb_spec (size payload) 75) as [Hs|Hs].
  { cbn [app MarkerOpReturnPayload Z.eqb Pos.eqb negb].
    destruct (Z.leb_spec (size payload) 75); [|lia]. by rewrite Hsz. }
  assert (Hb : forall k l, size (k ++ l) = size k + size (l : bytes))
    by (intros k l; unfold size; rewrite length_app; lia).
  destruct (Z.leb_spec (size payload) 0xFF) as [Hm|Hm].
  - set (s := 0x6A :: _). assert (Hss : (size s >? 2) = true).
    { rewrite Z.gtb_ltb. apply Z.ltb_lt. unfold s. change (0x6A :: [0x4C; size payload] ++ payload)
        with ([0x6A; 0x4C; size payload] ++ payload). rewrite Hb. change (size [0x6A; 0x4C; size payload]) with 3. lia. }
    unfold MarkerOpReturnPayload. rewrite Hss. unfold s.
    cbn [app Z.eqb Pos.eqb negb Z.leb Z.compare Pos.compare Pos.compare_cont andb]. by rewrite Hsz.
  - set (s := 0x6A :: _). assert (Hss : (size s >? 3) = true).
    { rewrite Z.gtb_ltb. apply Z.ltb_lt. unfold s.
      change (0x6A :: [0x4D; size payload mod 256; size payload / 256] ++ payload)
        with ([0x6A; 0x4D; size payload mod 256; size payload / 256] ++ payload).
      rewrite Hb. change (size [0x6A; 0x4D; size payload mod 256; size payload / 256]) with 4. lia. }
    unfold MarkerOpReturnPayload. rewrite Hss. unfold s.
    cbn [app Z.eqb Pos.eqb negb Z.leb Z.compare Pos.compare Pos.compare_cont andb].
    rewrite lor_disjoint_add by (unfold fits; pose proof (Z.mod_pos_bound (size payload) 256); lia).
    replace (size payload mod 256 + 256 * (size payload / 256)) with (size payload)
      by (pose proof (Z.div_mod (size payload) 256); lia).
    by rewrite Hsz.
Qed.

(** ** Lemmas: families *)

Definition family (f : Z) : bytes := nth (Z.to_nat f) kStatefulMarkerFamilies [].

(** [tx] carries a marker of the family with prefix [F]. *)
Definition carries (tx : Transaction) (F : bytes) : Prop :=
  exists o, o ∈ outputs tx /\ starts_with F (MarkerOpReturnPayload (script_pubkey o)) = true.

Lemma family_index_inv fams k p f :
  family_index fams k p = Some f ->
  k <= f < k + size fams /\ starts_with (nth (Z.to_nat (f - k)) fams []) p = true.
Proof.
  unfold size. revert k. induction fams as [|F fams IH]; intros k; [done|]. cbn [family_index length].
  destruct (starts_with F p) eqn:E.
  - intros [= <-]. rewrite Z.sub_diag. split; [lia|done].
  - intros H%IH. destruct H as [Hr Hs]. split; [lia|].
    replace (Z.to_nat (f - k)) with (S (Z.to_nat (f - (k + 1)))) by lia. done.
Qed.

Lemma family_index_none fams k p :
  family_index fams k p = None -> forall F, F ∈ fams -> starts_with F p = false.
Proof.
  revert k. induction fams as [|F fams IH]; intros k; cbn [family_index];
    [intros _ G H; by apply not_elem_of_nil in H|].
  destruct (starts_with F p) eqn:E; [done|]. intros H G [->|HG]%elem_of_cons; [done|].
  by apply (IH (k + 1)).
Qed.

Lemma starts_with_prefix a b p :
  starts_with a p = true -> starts_with b p = true -> (length a <= length b)%nat -> starts_with a b = true.
Proof.
  unfold starts_with, bytes_eqb. rewrite !bool_decide_eq_true. intros Ha Hb Hl.
  rewrite <- Hb, take_take. by replace (length a `min` length b)%nat with (length a) by lia.
Qed.

(** No family prefix is a prefix of another: a payload has at most one family. *)
Lemma families_prefix_free F G p :
  F ∈ kStatefulMarkerFamilies -> G ∈ kStatefulMarkerFamilies ->
  starts_with F p = true -> starts_with G p = true -> F = G.
Proof.
  intros HF HG SF SG.
  assert (H : forallb (fun a => forallb (fun b => implb (starts_with a b) (bytes_eqb a b))
    kStatefulMarkerFamilies) kStatefulMarkerFamilies = true) by (vm_compute; reflexivity).
  rewrite forallb_forall in H. pose proof (H F ltac:(by apply list_elem_of_In)) as H1.
  pose proof (H G ltac:(by apply list_elem_of_In)) as H2. rewrite forallb_forall in H1, H2.
  specialize (H1 G ltac:(by apply list_elem_of_In)). specialize (H2 F ltac:(by apply list_elem_of_In)).
  destruct (Nat.le_ge_cases (length F) (length G)) as [Hl|Hl].
  - rewrite (starts_with_prefix F G p SF SG Hl) in H1. by apply bool_decide_eq_true_1 in H1.
  - rewrite (starts_with_prefix G F p SG SF Hl) in H2. by apply bool_decide_eq_true_1 in H2.
Qed.

Lemma family_elem f : 0 <= f < 13 -> family f ∈ kStatefulMarkerFamilies.
Proof.
  intros Hf. unfold family. apply list_elem_of_In, nth_In. change (length kStatefulMarkerFamilies) with 13%nat. lia.
Qed.

Lemma family_index_of F : F ∈ kStatefulMarkerFamilies -> exists f, 0 <= f < 13 /\ family f = F.
Proof.
  intros H. apply list_elem_of_In, (In_nth _ _ []) in H as (n & Hn & E).
  change (length kStatefulMarkerFamilies) with 13%nat in Hn. exists (Z.of_nat n).
  split; [lia|]. unfold family. by rewrite Nat2Z.id.
Qed.

Lemma family_inj f g : 0 <= f < 13 -> 0 <= g < 13 -> family f = family g -> f = g.
Proof.
  intros Hf Hg E. assert (Hnd : NoDup kStatefulMarkerFamilies)
    by (apply (bool_decide_unpack _); vm_compute; exact I).
  apply NoDup_ListNoDup in Hnd. rewrite (List.NoDup_nth _ []) in Hnd.
  specialize (Hnd (Z.to_nat f) (Z.to_nat g)). change (length kStatefulMarkerFamilies) with 13%nat in Hnd.
  unfold family in E. specialize (Hnd ltac:(lia) ltac:(lia) E). lia.
Qed.

(** The family of one output, as both loops find it. *)
Definition out_family (o : TxOutput) : option Z :=
  let payload := MarkerOpReturnPayload (script_pubkey o) in
  if size payload =? 0 then None else family_index kStatefulMarkerFamilies 0 payload.

Lemma out_family_iff o f :
  out_family o = Some f
  <-> 0 <= f < 13 /\ starts_with (family f) (MarkerOpReturnPayload (script_pubkey o)) = true.
Proof.
  unfold out_family. set (p := MarkerOpReturnPayload (script_pubkey o)). split.
  - destruct (size p =? 0); [done|]. intros H%family_index_inv. rewrite Z.sub_0_r in H. exact H.
  - intros [Hf Hs]. destruct (Z.eqb_spec (size p) 0) as [E%size_eq_0|_].
    { exfalso. rewrite E in Hs. apply starts_with_inv in Hs.
      pose proof (family_elem f Hf) as He. unfold family in *.
      destruct (nth (Z.to_nat f) kStatefulMarkerFamilies []) eqn:En; [|done].
      assert (Hn : ([] : bytes) ∉ kStatefulMarkerFamilies)
        by (apply (bool_decide_unpack _); vm_compute; exact I). done. }
    destruct (family_index kStatefulMarkerFamilies 0 p) as [g|] eqn:E.
    + apply family_index_inv in E as [Hg Sg]. rewrite Z.sub_0_r in Sg. change (size kStatefulMarkerFamilies) with 13 in Hg.
      f_equal. apply family_inj; [lia|done|].
      apply (families_prefix_free _ _ p); [apply family_elem; lia|by apply family_elem|done..].
    + exfalso. pose proof (family_index_none _ _ _ E (family f) (family_elem f Hf)). congruence.
Qed.

Lemma land_pow2 f g : 0 <= f -> 0 <= g -> (Z.land (2 ^ f) (2 ^ g) =? 0) = negb (f =? g).
Proof.
  intros Hf Hg. destruct (Z.eqb_spec f g) as [->|Hne]; cbn [negb].
  - rewrite Z.land_diag. apply Z.eqb_neq. pose proof (Z.pow_pos_nonneg 2 g). lia.
  - apply Z.eqb_eq. apply Z.bits_inj'. intros i Hi. rewrite Z.land_spec, Z.bits_0, !Z.pow2_bits_eqb by lia.
    destruct (Z.eqb_spec f i), (Z.eqb_spec g i); (done || lia).
Qed.

Lemma family_bit f : 0 <= f < 13 -> u32 (Z.shiftl 1 f) = 2 ^ f.
Proof.
  intros Hf. rewrite Z.shiftl_1_l. apply wrap_id. unfold fits.
  pose proof (Z.pow_pos_nonneg 2 f). pose proof (Z.pow_lt_mono_r 2 f 32). lia.
Qed.

Lemma compose_loop_step o outs m d :
  compose_loop (o :: outs) m d =
  match out_family o with
  | None => compose_loop outs m d
  | Some f => if negb (Z.land m (u32 (Z.shiftl 1 f)) =? 0) then compose_loop outs m d
              else if d + 1 >=? 2 then true
              else compose_loop outs (Z.lor m (u32 (Z.shiftl 1 f))) (d + 1)
  end.
Proof. cbn [compose_loop]. unfold out_family. by destruct (size _ =? 0). Qed.

(** After one family has been seen, any other one is refused. *)
Lemma compose_loop_one outs f :
  0 <= f < 13 ->
  compose_loop outs (2 ^ f) 1 = true
  <-> exists o g, o ∈ outs /\ out_family o = Some g /\ g <> f.
Proof.
  intros Hf. induction outs as [|o outs IH].
  { split; [done|]. intros (o & g & H & _). by apply not_elem_of_nil in H. }
  rewrite compose_loop_step. destruct (out_family o) as [g|] eqn:E.
  - pose proof (proj1 (out_family_iff o g) E) as [Hg _]. rewrite family_bit, land_pow2 by lia.
    destruct (Z.eqb_spec f g) as [->|Hne]; cbn [negb].
    + rewrite IH. split; [intros (o' & g' & ? & ? & ?); exists o', g'; split_and!; [by right|done..]|].
      intros (o' & g' & [->|Ho']%elem_of_cons & E' & Hn'); [congruence|]. eauto.
    + split; [|done]. intros _. exists o, g. split_and!; [by left|done|done].
  - rewrite IH. split; [intros (o' & g' & ? & ? & ?); exists o', g'; split_and!; [by right|done..]|].
    intros (o' & g' & [->|Ho']%elem_of_cons & E' & Hn'); [congruence|]. eauto.
Qed.

Lemma compose_loop_zero outs :
  compose_loop outs 0 0 = true
  <-> exists o1 o2 f g, o1 ∈ outs /\ o2 ∈ outs /\ out_family o1 = Some f /\ out_family o2 = Some g /\ f <> g.
Proof.
  induction outs as [|o outs IH].
  { split; [done|]. intros (o & _ & f & g & H & _). by apply not_elem_of_nil in H. }
  rewrite compose_loop_step. destruct (out_family o) as [g|] eqn:E.
  - pose proof (proj1 (out_family_iff o g) E) as [Hg _].
    rewrite family_bit, Z.land_0_l, Z.lor_0_l by lia.
    change (compose_loop outs (2 ^ g) 1 = true <-> exists o1 o2 f g0, o1 ∈ o :: outs /\ o2 ∈ o :: outs
      /\ out_family o1 = Some f /\ out_family o2 = Some g0 /\ f <> g0).
    rewrite compose_loop_one by done. split.
    + intros (o' & g' & Ho' & E' & Hn). exists o, o', g, g'. split_and!; [by left|by right|done..].
    + intros (o1 & o2 & f1 & f2 & [->|H1]%elem_of_cons & [->|H2]%elem_of_cons & E1 & E2 & Hne);
        [congruence|exists o2, f2; split_and!; [done..|congruence]
        |exists o1, f1; split_and!; [done..|congruence]|].
      destruct (decide (f1 = g)); [exists o2, f2|exists o1, f1]; split_and!; (done || congruence).
  - rewrite IH. split; intros (o1 & o2 & f1 & f2 & H1 & H2 & E1 & E2 & Hne).
    + exists o1, o2, f1, f2. split_and!; [by right|by right|done..].
    + apply elem_of_cons in H1 as [->|H1]; [congruence|]. apply elem_of_cons in H2 as [->|H2]; [congruence|].
      by exists o1, o2, f1, f2.
Qed.

(** ** Properties *)

(** The staking grammar is unambiguous.  The parser accepts a payload exactly
    when it is the marker text of a well-formed operation (non-empty address
    without a pipe, canonical 64-bit decimal, tier 1 to 4 on a lock), and then
    returns that operation; no other spelling of the same operation passes. *)
Lemma stake_grammar_exact payload op :
  ParseCanonicalStakeOp payload = Some op <-> wf_stake_op op /\ payload = stake_op_text op.
Proof.
  unfold ParseCanonicalStakeOp, stake_op_text. split.
  - destruct (starts_with lock_prefix payload) eqn:EL.
    + apply starts_with_inv in EL. rewrite EL at 2.
      rewrite parse_stake_fields_lock. intros (Ha & Hw & E). rewrite Ha. by rewrite <- E.
    + destruct (starts_with unlock_prefix payload) eqn:EU; [|done].
      apply starts_with_inv in EU. rewrite EU at 2.
      rewrite parse_stake_fields_unlock. intros (Ha & Hw & E). rewrite Ha. by rewrite <- E.
  - intros [Hw ->]. destruct (op_action op) eqn:Ea.
    + rewrite starts_with_app, drop_app_length. by apply parse_stake_fields_lock.
    + rewrite lock_not_unlock, starts_with_app, drop_app_length. by apply parse_stake_fields_unlock.
Qed.

Definition sample_lock : CanonicalStakeOp := mkStakeOp LOCK (b:"VVzm6RG8W1t3U9") 100000000000 2.

Lemma stake_grammar_exact_witness :
  ParseCanonicalStakeOp (b:"VELD_STAKE|LOCK|VVzm6RG8W1t3U9|100000000000|T2") = Some sample_lock.
Proof.
  apply (stake_grammar_exact (b:"VELD_STAKE|LOCK|VVzm6RG8W1t3U9|100000000000|T2") sample_lock).
  split; [|vm_compute; reflexivity]. unfold wf_stake_op, sample_lock.
  cbn [op_action op_address op_amount op_tier].
  split_and!; [discriminate|apply (bool_decide_unpack _); vm_compute; exact I|unfold fits; lia|lia..].
Defined.

(** Marker outputs have one canonical script.  The consensus test accepts a
    script for a payload exactly when the payload fits two length bytes and the
    script is OP_RETURN, the shortest push and the payload with nothing after it;
    and the generic decoder recovers the payload from that script. *)
Lemma marker_script_canonical script payload :
  IsCanonicalMarkerOpReturn script payload = true
  <-> size payload <= 0xFFFF /\ script = op_return_script payload
      /\ MarkerOpReturnPayload script = payload.
Proof.
  rewrite IsCanonicalMarkerOpReturn_iff. split.
  - intros [Hn ->]. auto using MarkerOpReturnPayload_script.
  - tauto.
Qed.

(** The cross-protocol guard rejects exactly the transactions that carry
    markers of two distinct stateful families; several markers of one family, or
    payloads of no family, pass it. *)
Lemma composition_guard_exact tx :
  TxComposesMultipleProtocols tx = true
  <-> exists F G, F ∈ kStatefulMarkerFamilies /\ G ∈ kStatefulMarkerFamilies /\ F <> G
        /\ carries tx F /\ carries tx G.
Proof.
  unfold TxComposesMultipleProtocols. rewrite compose_loop_zero. split.
  - intros (o1 & o2 & f & g & H1 & H2 & E1 & E2 & Hne).
    apply out_family_iff in E1 as [Hf S1]. apply out_family_iff in E2 as [Hg S2].
    exists (family f), (family g). split_and!; try by apply family_elem.
    + intros E. by apply Hne, family_inj.
    + by exists o1.
    + by exists o2.
  - intros (F & G & HF & HG & Hne & (o1 & H1 & S1) & (o2 & H2 & S2)).
    destruct (family_index_of F HF) as (f & Hf & <-). destruct (family_index_of G HG) as (g & Hg & <-).
    exists o1, o2, f, g. split_and!; try done; try (apply out_family_iff; done). congruence.
Qed.
