(* ===== verification/Coinbase.v ===== *)
(** * Coinbase accounting and the native supply

    [core/coinbase_allocation.h] and the coinbase part of [core/blockchain.h]:
    the reward split, the canonical coinbase builder, its two validators, and the
    supply transition that every commit and replay path shares. *)
From S2P Require Import Prelude Bytes Sha256 Profile Transaction Block Address Marker.

(** ** Allocation *)

Record CoinbaseAllocation := mkAllocation {
  subsidy : Z; miner : Z; pool : Z; vault : Z; endorsement : Z }.

Definition ComputeCoinbaseAllocation (height base_subsidy parent_supply authenticated_fees : Z)
    : option CoinbaseAllocation :=
  if parent_supply >? MAX_SUPPLY_UNITS then None
  else
    let sub := Z.min base_subsidy (MAX_SUPPLY_UNITS - parent_supply) in
    if authenticated_fees >? MAX_SUPPLY_UNITS - sub then None
    else if sub =? 0 then
      let v := u64 (authenticated_fees * 40) / 100 in
      let e := u64 (authenticated_fees * 10) / 100 in
      Some (mkAllocation sub (u64 (authenticated_fees - v - e)) 0 v e)
    else if (height >? 0) && (height mod VAULT_BLOCK_INTERVAL =? 0) then
      Some (mkAllocation sub 0 0 (u64 (sub + authenticated_fees)) 0)
    else if parent_supply <? STAKING_UNLOCK_SUPPLY then
      let m := u64 (sub * 50) / 100 in
      Some (mkAllocation sub m 0 (u64 (sub - m + authenticated_fees)) 0)
    else
      let p := u64 (sub * 20) / 100 in
      let v := u64 (sub * 20) / 100 in
      let e := u64 (sub * 10) / 100 in
      Some (mkAllocation sub (u64 (sub - p - v - e)) p (u64 (v + authenticated_fees)) e).

(** ** Subsidy and supply *)

Definition ExpectedBlockSubsidy (height : Z) : Z :=
  if (height >? 0) && (height mod BLOCKS_PER_YEAR =? 0)
  then BLOCK_REWARD_UNITS + ANNUAL_EMISSION_REMAINDER else BLOCK_REWARD_UNITS.

(** The 64-bit output sum; [None] on overflow. *)
Fixpoint sum_outputs (outs : list TxOutput) (total : Z) : option Z :=
  match outs with
  | [] => Some total
  | o :: outs' => if value o >? UINT64_MAX - total then None else sum_outputs outs' (total + value o)
  end.

(** [None] is [return false] with the supply untouched. *)
Definition AdvanceCanonicalSupply (block : Block) (supply_units : Z) : option Z :=
  if supply_units >? MAX_SUPPLY_UNITS then None
  else match transactions block with
  | [] => Some supply_units
  | cb :: _ =>
      match sum_outputs (outputs cb) 0 with
      | None => None
      | Some coinbase_total =>
          let emission := Z.min coinbase_total (ExpectedBlockSubsidy (height block)) in
          Some (supply_units + Z.min emission (MAX_SUPPLY_UNITS - supply_units))
      end
  end.

(** ** Protocol custody addresses *)

Definition VAULT_ADDRESS : bytes := b:"VVzm6RG8W1t3U9KQYoD34z49jHcYb1sXdv".
Definition POOL_ADDRESS : bytes := b:"VHkWh9Xfbnp3gCotHSeM9LLN5MwcoXYijZ".
Definition ENDORSEMENT_POOL_ADDRESS : bytes := b:"VQ3MkHSNrXYXiWQErPfUUu4hWWEVvpfAFT".
Definition STAKE_VAULT_ADDRESS : bytes := b:"VV6pcrLQvxq7uBZEFtc4qxCizQ26azxTtK".
Definition BOND_YIELD_ESCROW : bytes := b:"VSBBBLkFn775t1BoSn7a7nPUNJxxByyALd".

(** The five protocol scripts the validators look up. *)
Record Custody := mkCustody {
  vault_script : bytes; pool_script : bytes; endorse_script : bytes;
  stake_vault_script : bytes; bond_yield_script : bytes }.

(** [AddressToScript(...AtHeight(height))]: the addresses do not depend on the height. *)
Definition CustodyAtHeight (height : Z) : Custody :=
  mkCustody (AddressToScript VAULT_ADDRESS) (AddressToScript POOL_ADDRESS)
    (AddressToScript ENDORSEMENT_POOL_ADDRESS) (AddressToScript STAKE_VAULT_ADDRESS)
    (AddressToScript BOND_YIELD_ESCROW).

Section Custodied.
Context (cs : Custody).

(** ** Builder: [None] is the invalid_argument exception *)

Definition BuildCanonicalCoinbase (ht parent_supply fees : Z) (miner_script : bytes)
    (metadata : list bytes) : option Transaction :=
  match ComputeCoinbaseAllocation ht (ExpectedBlockSubsidy ht) parent_supply fees with
  | None => None
  | Some a =>
      let coinbase := CreateProportionalCoinbase
        [(miner_script, miner a); ((pool_script cs), pool a); ((vault_script cs), vault a);
         ((endorse_script cs), endorsement a)] (b:"Veld block " ++ to_string ht) in
      let outs := match metadata with
                  | [] => outputs coinbase
                  | _ => if TotalOutput coinbase =? 0 then [] else outputs coinbase
                  end in
      Some (mkTx (version coinbase) (inputs coinbase)
              (outs ++ map (mkOutput 0) metadata) (locktime coinbase))
  end.

(** ** Validators *)

Record UTXO := mkUTXO { u_value : Z; u_script : bytes; u_height : Z; u_coinbase : bool }.

(** The part of the chain state the validators read. *)
Record ChainView := mkView {
  utxo_set : gmap (Hash256 * Z) UTXO; total_supply_units : Z }.

Definition GetUTXONoLock (c : ChainView) (h : Hash256) (index : Z) : option UTXO :=
  utxo_set c !! (h, index).

Definition IsFinalityCoinbaseMetadata (o : TxOutput) : bool :=
  if negb (value o =? 0) then false
  else
    let payload := MarkerOpReturnPayload (script_pubkey o) in
    starts_with (b:"VELD_FINALITY|") payload && IsCanonicalMarkerOpReturn (script_pubkey o) payload.

Definition metadata_count (outs : list TxOutput) : Z :=
  size (List.filter IsFinalityCoinbaseMetadata outs).

(** [outputs.size() == 1 && outputs[0].script_pubkey == {0x6A, 0x00}] *)
Definition empty_marker_only (outs : list TxOutput) : bool :=
  match outs with [o] => bytes_eqb (script_pubkey o) [0x6A; 0x00] | _ => false end.

(** The vault-block loop of [ValidateCoinbaseOutputs]; [None] is [return false]. *)
Fixpoint vault_block_loop (outs : list TxOutput) (received : Z) : option Z :=
  match outs with
  | [] => Some received
  | o :: outs' =>
      if IsFinalityCoinbaseMetadata o then vault_block_loop outs' received
      else if bytes_eqb (script_pubkey o) (vault_script cs) then vault_block_loop outs' (u64 (received + value o))
      else if negb (size (endorse_script cs) =? 0) && bytes_eqb (script_pubkey o) (endorse_script cs)
      then vault_block_loop outs' received
      else None
  end.

Fixpoint winner_loop (outs : list TxOutput) (received max_single : Z) : Z * Z :=
  match outs with
  | [] => (received, max_single)
  | o :: outs' =>
      if IsFinalityCoinbaseMetadata o then winner_loop outs' received max_single
      else if bytes_eqb (script_pubkey o) (vault_script cs)
      then winner_loop outs' (u64 (received + value o)) max_single
      else winner_loop outs' received (Z.max max_single (value o))
  end.

Definition ValidateCoinbaseOutputs (c : ChainView) (block : Block) : bool :=
  match transactions block with
  | [] => false
  | cb :: _ =>
      let outs := outputs cb in
      if negb (IsCoinbase cb) then false
      else if size outs =? 0 then false
      else if metadata_count outs >? MAX_FINALITY_MARKER_OUTPUTS then false
      else
        let total_out := TotalOutput cb in
        if total_out =? 0 then empty_marker_only outs || (metadata_count outs =? size outs)
        else
          let vault_floor := u64 (total_out * 10) / 100 in
          let upgraded_fee_only := ProtocolUpgradeActive (height block)
                                   && (total_supply_units c =? MAX_SUPPLY_UNITS) in
          let is_vault_block := negb upgraded_fee_only && (height block >? 0)
                                && (height block mod VAULT_BLOCK_INTERVAL =? 0) in
          if is_vault_block then
            match vault_block_loop outs 0 with
            | None => false
            | Some received => negb (received <? u64 (total_out * 80) / 100)
            end
          else
            let '(received, max_single) := winner_loop outs 0 0 in
            if received <? vault_floor then false
            else negb (max_single >? u64 (total_out - vault_floor + 1))
  end.

(** Inputs of one transaction: refused sum, a missing output, or the total. *)
Inductive InputSum := SumRefused | SumUnresolved | SumIs (total : Z).

Fixpoint input_sum (c : ChainView) (ins : list TxInput) (tx_in : Z) : InputSum :=
  match ins with
  | [] => SumIs tx_in
  | i :: ins' =>
      if TxInputOps.IsCoinbase i then input_sum c ins' tx_in
      else match GetUTXONoLock c (prev_tx_hash i) (prev_out_index i) with
      | None => SumUnresolved
      | Some u => if (u_value u >? MAX_SUPPLY_UNITS) || (tx_in >? MAX_SUPPLY_UNITS - u_value u)
                  then SumRefused else input_sum c ins' (tx_in + u_value u)
      end
  end.

(** The authenticated fee total and whether every input resolved; [None] is
    [return false]. *)
Fixpoint block_fees (c : ChainView) (txs : list Transaction) (fees : Z) (resolved : bool)
    : option (Z * bool) :=
  match txs with
  | [] => Some (fees, resolved)
  | tx :: txs' =>
      if IsCoinbase tx then block_fees c txs' fees resolved
      else match input_sum c (inputs tx) 0 with
      | SumRefused => None
      | SumUnresolved => block_fees c txs' fees false
      | SumIs tx_in =>
          if tx_in >? TotalOutput tx then
            let fee := tx_in - TotalOutput tx in
            if fees >? MAX_SUPPLY_UNITS - fee then None else block_fees c txs' (fees + fee) resolved
          else block_fees c txs' fees resolved
      end
  end.

(** The category loop: sums and counts per recipient. *)
Record Split := mkSplit {
  sum_vault : Z; sum_pool : Z; sum_endorse : Z; sum_other : Z;
  count_vault : Z; count_pool : Z; count_endorse : Z; count_other : Z; other_ok : bool }.

Fixpoint classify (ht : Z) (outs : list TxOutput) (s : Split) : option Split :=
  match outs with
  | [] => Some s
  | o :: outs' =>
      if IsFinalityCoinbaseMetadata o then classify ht outs' s
      else
        let spk := script_pubkey o in
        if bytes_eqb spk (stake_vault_script cs) || bytes_eqb spk (bond_yield_script cs) then None
        else if bytes_eqb spk (vault_script cs) then
          classify ht outs' (mkSplit (u64 (sum_vault s + value o)) (sum_pool s) (sum_endorse s) (sum_other s)
            (count_vault s + 1) (count_pool s) (count_endorse s) (count_other s) (other_ok s))
        else if bytes_eqb spk (pool_script cs) then
          classify ht outs' (mkSplit (sum_vault s) (u64 (sum_pool s + value o)) (sum_endorse s) (sum_other s)
            (count_vault s) (count_pool s + 1) (count_endorse s) (count_other s) (other_ok s))
        else if bytes_eqb spk (endorse_script cs) then
          classify ht outs' (mkSplit (sum_vault s) (sum_pool s) (u64 (sum_endorse s + value o)) (sum_other s)
            (count_vault s) (count_pool s) (count_endorse s + 1) (count_other s) (other_ok s))
        else
          classify ht outs' (mkSplit (sum_vault s) (sum_pool s) (sum_endorse s) (u64 (sum_other s + value o))
            (count_vault s) (count_pool s) (count_endorse s) (count_other s + 1)
            (other_ok s && IsCanonicalKeyScriptAtHeight spk ht))
  end.

Definition expected_count (units : Z) : Z := if units >? 0 then 1 else 0.

(** The result of the fatal configuration checks: [false] is the exception. *)
Definition custody_scripts_ok : bool :=
  negb (size (vault_script cs) =? 0) && negb (size (pool_script cs) =? 0) && negb (size (endorse_script cs) =? 0)
  && negb (size (stake_vault_script cs) =? 0) && negb (size (bond_yield_script cs) =? 0)
  && negb (bytes_eqb (vault_script cs) (pool_script cs)) && negb (bytes_eqb (vault_script cs) (endorse_script cs))
  && negb (bytes_eqb (pool_script cs) (endorse_script cs)).

(** [None] is the fatal exception, [Some b] the verdict. *)
Definition ValidateCanonicalCoinbaseSplit (c : ChainView) (block : Block) : option bool :=
  if height block =? 0 then Some true
  else match transactions block with
  | [] => Some false
  | cb :: txs =>
      if negb (IsCoinbase cb) then Some false
      else
        let supply := total_supply_units c in
        let base_reward := ExpectedBlockSubsidy (height block) in
        let remaining := if MAX_SUPPLY_UNITS >? supply then MAX_SUPPLY_UNITS - supply else 0 in
        let effective_reward := Z.min base_reward remaining in
        let total_out := TotalOutput cb in
        if total_out <? effective_reward then Some false
        else match block_fees c txs 0 true with
        | None => Some false
        | Some (fees, resolved) =>
            if negb resolved then Some false
            else if (supply >? MAX_SUPPLY_UNITS) || (fees >? MAX_SUPPLY_UNITS - effective_reward)
            then Some false
            else if negb (total_out =? u64 (effective_reward + fees)) then Some false
            else if negb custody_scripts_ok then None
            else if total_out =? 0 then
              Some (empty_marker_only (outputs cb)
                    || (negb (size (outputs cb) =? 0)
                        && (metadata_count (outputs cb) =? size (outputs cb))
                        && (metadata_count (outputs cb) <=? MAX_FINALITY_MARKER_OUTPUTS)))
            else if metadata_count (outputs cb) >? MAX_FINALITY_MARKER_OUTPUTS then Some false
            else match classify (height block) (outputs cb) (mkSplit 0 0 0 0 0 0 0 0 true) with
            | None => Some false
            | Some s =>
                match ComputeCoinbaseAllocation (height block) base_reward supply fees with
                | None => Some false
                | Some a =>
                    Some ((sum_pool s =? pool a) && (sum_vault s =? vault a)
                          && (sum_endorse s =? endorsement a) && (sum_other s =? miner a)
                          && (count_pool s =? expected_count (pool a))
                          && (count_vault s =? expected_count (vault a))
                          && (count_endorse s =? expected_count (endorsement a))
                          && (count_other s =? expected_count (miner a))
                          && negb ((miner a >? 0) && negb (other_ok s)))
                end
            end
        end
  end.

Definition MaximumCoinbaseOutputs (ht : Z) : Z :=
  if ProtocolUpgradeActive ht then MAX_FINALITY_MARKER_OUTPUTS + 4 else 200.

(** ** Lemmas: custody scripts *)

(** Five distinct non-empty scripts. *)
Record custody_wf : Prop := {
  cw_nonempty : Forall (fun s => 1 <= size s <= MAX_SPENDABLE_SCRIPT_PUBKEY_BYTES /\ is_bytes s)
    [vault_script cs; pool_script cs; endorse_script cs; stake_vault_script cs; bond_yield_script cs];
  cw_vault_pool : bytes_eqb (vault_script cs) (pool_script cs) = false;
  cw_vault_endorse : bytes_eqb (vault_script cs) (endorse_script cs) = false;
  cw_pool_endorse : bytes_eqb (pool_script cs) (endorse_script cs) = false;
  cw_reserved : Forall (fun s => bytes_eqb s (stake_vault_script cs) || bytes_eqb s (bond_yield_script cs) = false)
    [vault_script cs; pool_script cs; endorse_script cs] }.

Context (Hcs : custody_wf).

Lemma custody_ok : custody_scripts_ok = true.
Proof using Hcs.
  destruct Hcs as [Hne V P E _]. unfold custody_scripts_ok. rewrite V, P, E.
  repeat (apply Forall_cons in Hne as [[? _] Hne]).
  repeat match goal with |- context [size ?s =? 0] => destruct (Z.eqb_spec (size s) 0); [lia|] end.
  done.
Qed.

(** ** Lemmas: allocation *)

Lemma subsidy_bounds h : 0 < ExpectedBlockSubsidy h <= 400000000.
Proof. unfold ExpectedBlockSubsidy. destruct (_ && _); vm_compute; split; congruence. Qed.

Lemma allocation_ok h base supply fees a :
  0 <= base -> 0 <= supply -> 0 <= fees ->
  ComputeCoinbaseAllocation h base supply fees = Some a ->
  supply <= MAX_SUPPLY_UNITS /\ subsidy a = Z.min base (MAX_SUPPLY_UNITS - supply)
  /\ 0 <= miner a /\ 0 <= pool a /\ 0 <= vault a /\ 0 <= endorsement a
  /\ miner a + pool a + vault a + endorsement a = subsidy a + fees
  /\ subsidy a + fees <= MAX_SUPPLY_UNITS.
Proof.
  intros Hb Hs Hf. unfold ComputeCoinbaseAllocation. rewrite !Z.gtb_ltb.
  destruct (Z.ltb_spec MAX_SUPPLY_UNITS supply); [done|].
  set (sub := Z.min base (MAX_SUPPLY_UNITS - supply)).
  assert (Hsub : 0 <= sub <= MAX_SUPPLY_UNITS) by (unfold sub; lia).
  destruct (Z.ltb_spec (MAX_SUPPLY_UNITS - sub) fees); [done|].
  change MAX_SUPPLY_UNITS with 2100000000000000 in *.
  assert (Hpct : forall x k, 0 <= x <= 2100000000000000 -> 0 <= k <= 50 -> u64 (x * k) = x * k)
    by (intros x k Hx Hk; apply wrap_id; unfold fits; change (2 ^ 64) with 18446744073709551616; nia).
  assert (Hid : forall x, 0 <= x <= 2100000000000000 -> u64 x = x)
    by (intros x Hx; apply wrap_id; unfold fits; change (2 ^ 64) with 18446744073709551616; lia).
  assert (Hdiv : forall x k, 0 <= x -> 0 <= k <= 50 -> 0 <= x * k / 100 <= x * k / 100 /\ 100 * (x * k / 100) <= x * k)
    by (intros x k Hx Hk; split; [split; [apply Z.div_pos; nia|lia]|apply Z.mul_div_le; lia]).
  destruct (Z.eqb_spec sub 0) as [E0|].
  { rewrite !Hpct by lia. intros [= <-]. cbn [subsidy miner pool vault endorsement].
    pose proof (Hdiv fees 40) as D1. pose proof (Hdiv fees 10) as D2. rewrite !Hid by lia. lia. }
  destruct ((0 <? h) && (h mod VAULT_BLOCK_INTERVAL =? 0)).
  { intros [= <-]. cbn [subsidy miner pool vault endorsement]. rewrite Hid by lia. lia. }
  destruct (supply <? STAKING_UNLOCK_SUPPLY).
  { rewrite Hpct by lia. intros [= <-]. cbn [subsidy miner pool vault endorsement].
    pose proof (Hdiv sub 50). rewrite !Hid by lia. lia. }
  rewrite !Hpct by lia. intros [= <-]. cbn [subsidy miner pool vault endorsement].
  pose proof (Hdiv sub 20). pose proof (Hdiv sub 10). rewrite !Hid by lia. lia.
Qed.

(** ** Lemmas: output sums *)

(** What the outputs pay to one script. *)
Definition paid (script : bytes) (outs : list TxOutput) : Z :=
  output_sum (List.filter (fun o => bytes_eqb (script_pubkey o) script) outs).

Lemma output_sum_cons o outs : output_sum (o :: outs) = value o + output_sum outs.
Proof. done. Qed.

Lemma paid_cons s o outs :
  paid s (o :: outs) = (if bytes_eqb (script_pubkey o) s then value o else 0) + paid s outs.
Proof. unfold paid. cbn [List.filter]. by destruct (bytes_eqb (script_pubkey o) s). Qed.

Lemma paid_zero s o outs : value o = 0 -> paid s (o :: outs) = paid s outs.
Proof. intros E. rewrite paid_cons, E. by destruct (bytes_eqb (script_pubkey o) s). Qed.

Lemma sum_outputs_exact outs total :
  Forall wf_output outs -> 0 <= total -> total + output_sum outs <= UINT64_MAX ->
  sum_outputs outs total = Some (total + output_sum outs).
Proof.
  intros Hw. revert total. induction Hw as [|o outs [Ho _] Hw IH]; intros total Ht Hle; cbn [sum_outputs].
  { cbn. f_equal. lia. }
  rewrite output_sum_cons in *. pose proof (output_sum_nonneg outs Hw). unfold fits in Ho.
  rewrite Z.gtb_ltb. destruct (Z.ltb_spec (UINT64_MAX - total) (value o)); [lia|].
  rewrite IH by lia. f_equal. lia.
Qed.

Lemma metadata_zero o : IsFinalityCoinbaseMetadata o = true -> value o = 0.
Proof. unfold IsFinalityCoinbaseMetadata. destruct (Z.eqb_spec (value o) 0); done. Qed.

Definition split_total (s : Split) : Z := sum_vault s + sum_pool s + sum_endorse s + sum_other s.
Definition split_nonneg (s : Split) : Prop :=
  0 <= sum_vault s /\ 0 <= sum_pool s /\ 0 <= sum_endorse s /\ 0 <= sum_other s.

(** The category loop adds up exactly what the outputs pay to each recipient. *)
Lemma classify_spec ht outs s s' :
  Forall wf_output outs -> split_nonneg s -> split_total s + output_sum outs <= MAX_SUPPLY_UNITS ->
  classify ht outs s = Some s' ->
  sum_vault s' = sum_vault s + paid (vault_script cs) outs
  /\ sum_pool s' = sum_pool s + paid (pool_script cs) outs
  /\ sum_endorse s' = sum_endorse s + paid (endorse_script cs) outs
  /\ split_total s' = split_total s + output_sum outs
  /\ paid (stake_vault_script cs) outs = 0 /\ paid (bond_yield_script cs) outs = 0.
Proof.
  intros Hw. revert s. induction Hw as [|o outs [Ho _] Hw IH]; intros s Hn Hle E; cbn [classify] in E.
  { injection E as <-. unfold paid. cbn. lia. }
  rewrite output_sum_cons in *. pose proof (output_sum_nonneg outs Hw) as Hos. unfold fits in Ho.
  destruct (IsFinalityCoinbaseMetadata o) eqn:Em.
  { apply metadata_zero in Em. apply IH in E; [|done|lia]. rewrite !paid_zero by done. lia. }
  rewrite !paid_cons.
  destruct (bytes_eqb (script_pubkey o) (stake_vault_script cs)) eqn:E1; [done|].
  destruct (bytes_eqb (script_pubkey o) (bond_yield_script cs)) eqn:E2; [done|]. cbn [orb] in E.
  unfold split_nonneg, split_total in *.
  assert (Hid : forall x, 0 <= x <= MAX_SUPPLY_UNITS -> u64 x = x)
    by (intros x Hx; apply wrap_id; unfold fits; split; [lia|];
        apply Z.le_lt_trans with MAX_SUPPLY_UNITS; [lia|done]).
  destruct (bytes_eqb (script_pubkey o) (vault_script cs)) eqn:E3.
  { apply bytes_eqb_eq in E3. rewrite E3.
    rewrite (cw_vault_pool Hcs), (cw_vault_endorse Hcs). rewrite Hid in E by lia. apply IH in E; cbn [sum_vault sum_pool sum_endorse sum_other] in *; lia. }
  destruct (bytes_eqb (script_pubkey o) (pool_script cs)) eqn:E4.
  { apply bytes_eqb_eq in E4. rewrite E4.
    rewrite (cw_pool_endorse Hcs). rewrite Hid in E by lia. apply IH in E; cbn [sum_vault sum_pool sum_endorse sum_other] in *; lia. }
  destruct (bytes_eqb (script_pubkey o) (endorse_script cs)) eqn:E5;
    rewrite Hid in E by lia; apply IH in E; cbn [sum_vault sum_pool sum_endorse sum_other] in *; lia.
Qed.

(** ** Lemmas: fees *)

Definition utxo_values (c : ChainView) (ins : list TxInput) : Z :=
  foldr (fun i acc => (if TxInputOps.IsCoinbase i then 0
     else match GetUTXONoLock c (prev_tx_hash i) (prev_out_index i) with
          | Some u => u_value u | None => 0 end) + acc) 0 ins.

(** The fee of a transaction over the integers, never negative. *)
Definition fee_of (c : ChainView) (tx : Transaction) : Z :=
  if IsCoinbase tx then 0 else Z.max 0 (utxo_values c (inputs tx) - output_sum (outputs tx)).

Definition wf_view (c : ChainView) : Prop :=
  0 <= total_supply_units c /\ map_Forall (fun _ u => 0 <= u_value u) (utxo_set c).

Lemma utxo_value_nonneg c h i u : wf_view c -> GetUTXONoLock c h i = Some u -> 0 <= u_value u.
Proof. intros [_ Hm] E. by apply (Hm (h, i) u). Qed.

Lemma utxo_values_cons c i ins : utxo_values c (i :: ins) =
  (if TxInputOps.IsCoinbase i then 0
   else match GetUTXONoLock c (prev_tx_hash i) (prev_out_index i) with
        | Some u => u_value u | None => 0 end) + utxo_values c ins.
Proof. done. Qed.

Lemma input_sum_is c ins acc total :
  wf_view c -> 0 <= acc <= MAX_SUPPLY_UNITS -> input_sum c ins acc = SumIs total ->
  total = acc + utxo_values c ins /\ 0 <= total <= MAX_SUPPLY_UNITS.
Proof.
  intros Hc. revert acc. induction ins as [|i ins IH]; intros acc Ha; cbn [input_sum].
  { intros [= <-]. cbn. lia. }
  rewrite utxo_values_cons. destruct (TxInputOps.IsCoinbase i).
  { intros E. apply IH in E; [|lia]. lia. }
  destruct (GetUTXONoLock c (prev_tx_hash i) (prev_out_index i)) as [u|] eqn:Eu; [|done].
  pose proof (utxo_value_nonneg _ _ _ _ Hc Eu). rewrite !Z.gtb_ltb.
  destruct (Z.ltb_spec MAX_SUPPLY_UNITS (u_value u)), (Z.ltb_spec (MAX_SUPPLY_UNITS - u_value u) acc);
    cbn [orb]; try done. intros E. apply IH in E; lia.
Qed.

Lemma block_fees_exact c txs acc fees :
  wf_view c -> Forall wf_tx txs -> 0 <= acc <= MAX_SUPPLY_UNITS ->
  block_fees c txs acc true = Some (fees, true) ->
  fees = acc + foldr (fun tx z => fee_of c tx + z) 0 txs /\ 0 <= fees <= MAX_SUPPLY_UNITS.
Proof.
  intros Hc Hw. revert acc.
  assert (Hfalse : forall txs acc r, block_fees c txs acc false = Some r -> snd r = false).
  { clear. induction txs as [|tx txs IH]; intros acc r; cbn [block_fees]; [by intros [= <-]|].
    destruct (IsCoinbase tx); [apply IH|]. destruct (input_sum c (inputs tx) 0); [done|apply IH|].
    destruct (_ >? _); [|apply IH]. destruct (_ >? _); [done|apply IH]. }
  induction Hw as [|tx txs (_ & _ & _ & Ho & _) Hw IH]; intros acc Ha; cbn [block_fees foldr].
  { intros [= <-]. lia. }
  unfold fee_of at 1. destruct (IsCoinbase tx).
  { intros E. apply IH in E; [|lia]. lia. }
  destruct (input_sum c (inputs tx) 0) as [| |tx_in] eqn:Ei; [done| |].
  { intros E. apply Hfalse in E. discriminate E. }
  apply input_sum_is in Ei as [-> Hr]; [|done|vm_compute; split; congruence].
  rewrite Z.add_0_l in *. rewrite TotalOutput_exact by done. rewrite !Z.gtb_ltb.
  pose proof (output_sum_nonneg _ Ho).
  destruct (Z.leb_spec (output_sum (outputs tx)) MAX_SUPPLY_UNITS).
  - destruct (Z.ltb_spec (output_sum (outputs tx)) (utxo_values c (inputs tx))).
    + destruct (Z.ltb_spec (MAX_SUPPLY_UNITS - (utxo_values c (inputs tx) - output_sum (outputs tx))) acc);
        [done|]. intros E. apply IH in E; lia.
    + intros E. apply IH in E; lia.
  - destruct (Z.ltb_spec (MAX_SUPPLY_UNITS + 1) (utxo_values c (inputs tx))); [lia|].
    intros E. apply IH in E; lia.
Qed.

(** ** Lemmas: what the split validator accepted *)

Lemma effective_reward_eq base supply :
  supply <= MAX_SUPPLY_UNITS ->
  Z.min base (if MAX_SUPPLY_UNITS >? supply then MAX_SUPPLY_UNITS - supply else 0)
  = Z.min base (MAX_SUPPLY_UNITS - supply).
Proof. intros H. rewrite Z.gtb_ltb. destruct (Z.ltb_spec supply MAX_SUPPLY_UNITS); lia. Qed.

Lemma paid_bounds s outs : Forall wf_output outs -> 0 <= paid s outs <= output_sum outs.
Proof.
  induction 1 as [|o outs [Ho _] Hw IH]; [unfold paid; cbn; lia|].
  rewrite paid_cons, output_sum_cons. unfold fits in Ho.
  destruct (bytes_eqb (script_pubkey o) s); lia.
Qed.

Lemma units_fit x : 0 <= x <= MAX_SUPPLY_UNITS -> u64 x = x.
Proof.
  intros Hx. apply wrap_id. unfold fits. split; [lia|].
  apply Z.le_lt_trans with MAX_SUPPLY_UNITS; [lia|done].
Qed.

(** An allocation with nothing to distribute distributes nothing. *)
Lemma allocation_exists h base supply fees :
  0 <= base -> supply <= MAX_SUPPLY_UNITS -> fees <= MAX_SUPPLY_UNITS - Z.min base (MAX_SUPPLY_UNITS - supply) ->
  exists a, ComputeCoinbaseAllocation h base supply fees = Some a.
Proof.
  intros Hb Hs Hf. unfold ComputeCoinbaseAllocation. rewrite !Z.gtb_ltb.
  destruct (Z.ltb_spec MAX_SUPPLY_UNITS supply); [lia|].
  destruct (Z.ltb_spec (MAX_SUPPLY_UNITS - Z.min base (MAX_SUPPLY_UNITS - supply)) fees); [lia|].
  destruct (_ =? _); [eauto|]. destruct (_ && _); [eauto|]. destruct (_ <? _); eauto.
Qed.

(** What an accepted coinbase pays, category by category. *)
Record paid_exactly (outs : list TxOutput) (a : CoinbaseAllocation) : Prop := {
  pe_vault : paid (vault_script cs) outs = vault a;
  pe_pool : paid (pool_script cs) outs = pool a;
  pe_endorse : paid (endorse_script cs) outs = endorsement a;
  pe_miner : output_sum outs - paid (vault_script cs) outs - paid (pool_script cs) outs
             - paid (endorse_script cs) outs = miner a;
  pe_reserved : paid (stake_vault_script cs) outs = 0 /\ paid (bond_yield_script cs) outs = 0 }.

Lemma split_accepted c block cb txs :
  transactions block = cb :: txs -> wf_tx cb -> Forall wf_tx txs -> wf_view c -> height block <> 0 ->
  ValidateCanonicalCoinbaseSplit c block = Some true ->
  exists fees a,
    block_fees c txs 0 true = Some (fees, true)
    /\ ComputeCoinbaseAllocation (height block) (ExpectedBlockSubsidy (height block))
         (total_supply_units c) fees = Some a
    /\ output_sum (outputs cb) = subsidy a + fees /\ paid_exactly (outputs cb) a.
Proof.
  intros Etx (_ & _ & _ & Ho & _) Hwt Hc Hh. pose proof Hc as [Hs _].
  unfold ValidateCanonicalCoinbaseSplit. rewrite Etx.
  destruct (Z.eqb_spec (height block) 0); [done|].
  destruct (IsCoinbase cb); cbn [negb]; [|done].
  set (supply := total_supply_units c) in *. set (base := ExpectedBlockSubsidy (height block)).
  assert (Hbase : 0 < base) by apply subsidy_bounds. pose proof (output_sum_nonneg _ Ho) as Hos.
  destruct (TotalOutput cb <? _); [done|].
  destruct (block_fees c txs 0 true) as [[fees []]|] eqn:Ef; cbn [negb]; [|done|done].
  apply block_fees_exact in Ef as Hfees; [|done|done|vm_compute; split; congruence].
  destruct Hfees as [_ Hfees]. rewrite (Z.gtb_ltb supply).
  destruct (Z.ltb_spec MAX_SUPPLY_UNITS supply); cbn [orb]; [done|].
  rewrite effective_reward_eq by done. set (eff := Z.min base (MAX_SUPPLY_UNITS - supply)).
  rewrite Z.gtb_ltb. destruct (Z.ltb_spec (MAX_SUPPLY_UNITS - eff) fees); [done|].
  assert (Heff : 0 <= eff) by (unfold eff; lia). rewrite units_fit by lia.
  destruct (Z.eqb_spec (TotalOutput cb) (eff + fees)) as [Et|]; cbn [negb]; [|done].
  assert (Hsum : output_sum (outputs cb) = eff + fees).
  { rewrite TotalOutput_exact in Et by done.
    destruct (Z.leb_spec (output_sum (outputs cb)) MAX_SUPPLY_UNITS); lia. }
  destruct (allocation_exists (height block) base supply fees) as [a Ea]; [lia|done|fold eff; lia|].
  destruct (allocation_ok (height block) base supply fees a) as (_ & Hsub & Hm & Hp & Hv & He & Hcons & _);
    [lia|done|lia|done|].
  fold eff in Hsub. rewrite custody_ok. cbn [negb].
  destruct (Z.eqb_spec (TotalOutput cb) 0) as [Ez|_].
  - intros _. exists fees, a. split; [done|]. split; [done|]. split; [lia|].
    pose proof (paid_bounds (vault_script cs) _ Ho). pose proof (paid_bounds (pool_script cs) _ Ho).
    pose proof (paid_bounds (endorse_script cs) _ Ho). pose proof (paid_bounds (stake_vault_script cs) _ Ho).
    pose proof (paid_bounds (bond_yield_script cs) _ Ho). constructor; lia.
  - destruct (metadata_count (outputs cb) >? MAX_FINALITY_MARKER_OUTPUTS); [done|].
    destruct (classify _ _ _) as [s|] eqn:Ecl; [|done].
    apply classify_spec in Ecl as (C1 & C2 & C3 & C4 & C5 & C6);
      [|done|unfold split_nonneg; cbn [sum_vault sum_pool sum_endorse sum_other]; lia
       |unfold split_total; cbn [sum_vault sum_pool sum_endorse sum_other]; lia].
    cbn [sum_vault sum_pool sum_endorse] in *. rewrite !Z.add_0_l in *.
    fold base. rewrite Ea. intros [= Hok]. repeat (apply andb_true_iff in Hok as [Hok ?]).
    exists fees, a. split; [done|]. split; [done|]. split; [lia|].
    unfold split_total in C4. cbn [sum_vault sum_pool sum_endorse sum_other] in C4.
    constructor; lia.
Qed.

(** ** Lemmas: the emission schedule *)

(** Total subsidy of the blocks at heights 1 to [n], before the cap. *)
Definition scheduled (n : Z) : Z := n * BLOCK_REWARD_UNITS + n / BLOCKS_PER_YEAR * ANNUAL_EMISSION_REMAINDER.

Lemma scheduled_step n : 0 <= n -> scheduled (n + 1) = scheduled n + ExpectedBlockSubsidy (n + 1).
Proof.
  intros Hn. unfold scheduled, ExpectedBlockSubsidy.
  change BLOCKS_PER_YEAR with 175200. pose proof (Z.div_mod n 175200). pose proof (Z.mod_pos_bound n 175200).
  pose proof (Z.div_mod (n + 1) 175200). pose proof (Z.mod_pos_bound (n + 1) 175200).
  rewrite Z.gtb_ltb. destruct (Z.ltb_spec 0 (n + 1)); [cbn [andb]|lia].
  destruct (Z.eqb_spec ((n + 1) mod 175200) 0).
  - replace ((n + 1) / 175200) with (n / 175200 + 1) by lia. lia.
  - replace ((n + 1) / 175200) with (n / 175200) by lia. lia.
Qed.

Lemma scheduled_mono m n : 0 <= m -> m <= n -> scheduled m <= scheduled n.
Proof.
  intros Hm Hle. unfold scheduled. pose proof (Z.div_le_mono m n BLOCKS_PER_YEAR ltac:(done) Hle).
  assert (0 <= BLOCK_REWARD_UNITS /\ 0 <= ANNUAL_EMISSION_REMAINDER) as [? ?]
    by (vm_compute; split; congruence). nia.
Qed.

(** Every full year of blocks emits the annual cap to the unit. *)
Lemma scheduled_years k : 0 <= k -> scheduled (k * BLOCKS_PER_YEAR) = k * ANNUAL_EMISSION_UNITS.
Proof.
  intros Hk. unfold scheduled. rewrite Z.div_mul by done. unfold ANNUAL_EMISSION_REMAINDER. ring.
Qed.

Definition coinbase_total (b : Block) : Z :=
  match transactions b with [] => 0 | cb :: _ => output_sum (outputs cb) end.

Fixpoint supply_after (blocks : list Block) (supply : Z) : option Z :=
  match blocks with
  | [] => Some supply
  | b :: blocks' => match AdvanceCanonicalSupply b supply with
                    | Some s => supply_after blocks' s | None => None end
  end.

(** Consecutive heights from [h]. *)
Fixpoint heights_from (h : Z) (blocks : list Block) : Prop :=
  match blocks with [] => True | b :: blocks' => height b = h /\ heights_from (h + 1) blocks' end.

Definition coinbase_ok (b : Block) : Prop :=
  exists cb txs, transactions b = cb :: txs /\ Forall wf_output (outputs cb)
    /\ output_sum (outputs cb) <= UINT64_MAX.

Lemma advance_supply b s :
  coinbase_ok b -> s <= MAX_SUPPLY_UNITS ->
  AdvanceCanonicalSupply b s
  = Some (Z.min MAX_SUPPLY_UNITS (s + Z.min (coinbase_total b) (ExpectedBlockSubsidy (height b)))).
Proof.
  intros (cb & txs & E & Hw & Hle) Hs. unfold AdvanceCanonicalSupply, coinbase_total. rewrite E.
  rewrite Z.gtb_ltb. destruct (Z.ltb_spec MAX_SUPPLY_UNITS s); [lia|].
  rewrite sum_outputs_exact by (done || lia). f_equal. lia.
Qed.

Lemma supply_after_spec blocks n s :
  0 <= n -> 0 <= s <= Z.min MAX_SUPPLY_UNITS (scheduled n) ->
  Forall coinbase_ok blocks -> heights_from (n + 1) blocks ->
  exists s', supply_after blocks s = Some s' /\ s <= s' <= Z.min MAX_SUPPLY_UNITS (scheduled (n + size blocks))
    /\ (Forall (fun b => ExpectedBlockSubsidy (height b) <= coinbase_total b) blocks ->
        s = Z.min MAX_SUPPLY_UNITS (scheduled n) ->
        s' = Z.min MAX_SUPPLY_UNITS (scheduled (n + size blocks))).
Proof.
  intros Hn Hs Hok. revert n s Hn Hs. induction Hok as [|b blocks Hb Hok IH]; intros n s Hn Hs Hh.
  { exists s. unfold size. cbn [length supply_after]. rewrite Z.add_0_r. split; [done|]. split; [lia|done]. }
  destruct Hh as [Eh Hh]. cbn [supply_after]. rewrite advance_supply by (done || lia).
  pose proof (scheduled_step n Hn) as Hst. rewrite Eh.
  pose proof (subsidy_bounds (n + 1)) as Hsb.
  assert (Hct : 0 <= coinbase_total b).
  { destruct Hb as (cb & txs & E & Hw & _). unfold coinbase_total. rewrite E. by apply output_sum_nonneg. }
  set (s1 := Z.min MAX_SUPPLY_UNITS (s + Z.min (coinbase_total b) (ExpectedBlockSubsidy (n + 1)))).
  destruct (IH (n + 1) s1) as (s' & E & Hs' & Hexact); [lia|unfold s1; lia|done|].
  replace (n + size (b :: blocks)) with (n + 1 + size blocks) by (unfold size; cbn [length]; lia).
  exists s'. split; [done|]. split; [unfold s1 in Hs'; lia|].
  intros Hf Hex. apply Forall_cons in Hf as [Hf1 Hf]. apply Hexact; [done|]. unfold s1. rewrite Eh in Hf1. lia.
Qed.

Lemma supply_after_app a b s :
  supply_after (a ++ b) s = match supply_after a s with Some s' => supply_after b s' | None => None end.
Proof. revert s. induction a as [|x a IH]; intros s; cbn [app supply_after]; [done|]. by destruct (AdvanceCanonicalSupply x s). Qed.

Lemma heights_from_app h a b : heights_from h (a ++ b) <-> heights_from h a /\ heights_from (h + size a) b.
Proof.
  revert h. induction a as [|x a IH]; intros h; cbn [app heights_from]; [unfold size; cbn [length]; rewrite Z.add_0_r; tauto|].
  rewrite IH. replace (h + size (x :: a)) with (h + 1 + size a) by (unfold size; cbn [length]; lia). tauto.
Qed.

(** ** Lemmas: the builder *)

Definition leg (script : bytes) (amount : Z) : list TxOutput :=
  if amount >? 0 then [mkOutput amount script] else [].

(** A miner script the validator accepts: a canonical key script that is none of
    the custody scripts. *)
Definition miner_script_ok (ht : Z) (s : bytes) : Prop :=
  is_bytes s /\ (1 <= size s <= MAX_SPENDABLE_SCRIPT_PUBKEY_BYTES)
  /\ IsCanonicalKeyScriptAtHeight s ht = true
  /\ forallb (fun t => negb (bytes_eqb s t))
       [(vault_script cs); (pool_script cs); (endorse_script cs); (stake_vault_script cs); (bond_yield_script cs)] = true.

Lemma reward_legs ms m p v e :
  size ms <> 0 ->
  map (fun q => mkOutput (snd q) (fst q))
    (List.filter (fun q => (snd q >? 0) && negb (size (fst q) =? 0))
       [(ms, m); ((pool_script cs), p); ((vault_script cs), v); ((endorse_script cs), e)])
  = leg ms m ++ leg (pool_script cs) p ++ leg (vault_script cs) v ++ leg (endorse_script cs) e.
Proof.
  intros Hms. cbn [List.filter fst snd].
  destruct Hcs as [Hne _ _ _ _]. repeat (apply Forall_cons in Hne as [[? _] Hne]).
  repeat match goal with |- context [size ?s =? 0] => destruct (Z.eqb_spec (size s) 0); [lia|] end.
  cbn [negb]. rewrite !andb_true_r. unfold leg.
  by destruct (m >? 0), (p >? 0), (v >? 0), (e >? 0).
Qed.

Lemma classify_app ht a b s :
  classify ht (a ++ b) s = match classify ht a s with Some s' => classify ht b s' | None => None end.
Proof.
  revert s. induction a as [|o a IH]; intros s; [done|]. cbn [app classify].
  destruct (IsFinalityCoinbaseMetadata o); [apply IH|].
  destruct (_ || _); [done|]. destruct (bytes_eqb _ (vault_script cs)); [apply IH|].
  destruct (bytes_eqb _ (pool_script cs)); [apply IH|]. destruct (bytes_eqb _ (endorse_script cs)); apply IH.
Qed.

Lemma classify_metadata ht outs s :
  Forall (fun o => IsFinalityCoinbaseMetadata o = true) outs -> classify ht outs s = Some s.
Proof. induction 1 as [|o outs Ho _ IH]; [done|]. cbn [classify]. by rewrite Ho. Qed.

Lemma not_metadata v s : v > 0 -> IsFinalityCoinbaseMetadata (mkOutput v s) = false.
Proof. intros H. unfold IsFinalityCoinbaseMetadata. cbn [value]. destruct (Z.eqb_spec v 0); [lia|done]. Qed.

(** Each leg lands in its own category. *)
Lemma classify_legs ht ms m p v e :
  miner_script_ok ht ms -> 0 <= m -> 0 <= p -> 0 <= v -> 0 <= e -> m + p + v + e <= MAX_SUPPLY_UNITS ->
  classify ht (leg ms m ++ leg (pool_script cs) p ++ leg (vault_script cs) v ++ leg (endorse_script cs) e)
    (mkSplit 0 0 0 0 0 0 0 0 true)
  = Some (mkSplit v p e m (expected_count v) (expected_count p) (expected_count e) (expected_count m) true).
Proof.
  intros (_ & _ & Hck & Hne) Hm Hp Hv He Hsum.
  cbn [forallb] in Hne. apply andb_true_iff in Hne as [M1%negb_true_iff Hne]. apply andb_true_iff in Hne as [M2%negb_true_iff Hne].
  apply andb_true_iff in Hne as [M3%negb_true_iff Hne]. apply andb_true_iff in Hne as [M4%negb_true_iff Hne].
  apply andb_true_iff in Hne as [M5%negb_true_iff _].
  destruct Hcs as [_ V1 V2 V3 Hr]. apply Forall_cons in Hr as [R1 Hr]. apply Forall_cons in Hr as [R2 Hr].
  apply Forall_cons in Hr as [R3 _].
  assert (V1' : bytes_eqb (pool_script cs) (vault_script cs) = false) by by rewrite bytes_eqb_sym.
  assert (V2' : bytes_eqb (endorse_script cs) (vault_script cs) = false) by by rewrite bytes_eqb_sym.
  assert (V3' : bytes_eqb (endorse_script cs) (pool_script cs) = false) by by rewrite bytes_eqb_sym.
  rewrite !classify_app. unfold leg, expected_count. rewrite !Z.gtb_ltb.
  destruct (Z.ltb_spec 0 m) as [Gm|Gm]; [|assert (m = 0) as -> by lia];
  (destruct (Z.ltb_spec 0 p) as [Gp|Gp]; [|assert (p = 0) as -> by lia]);
  (destruct (Z.ltb_spec 0 v) as [Gv|Gv]; [|assert (v = 0) as -> by lia]);
  (destruct (Z.ltb_spec 0 e) as [Ge|Ge]; [|assert (e = 0) as -> by lia]);
  do 4 (cbn [app classify]; rewrite ?not_metadata by lia; cbn [script_pubkey value];
    rewrite ?R1, ?R2, ?R3, ?bytes_eqb_refl, ?V1, ?V2, ?V3, ?V1', ?V2', ?V3', ?M1, ?M2, ?M3, ?M4, ?M5, ?Hck;
    cbn [orb andb sum_vault sum_pool sum_endorse sum_other count_vault count_pool count_endorse
         count_other other_ok]; rewrite ?units_fit by lia);
  cbn [classify]; do 2 f_equal; lia.
Qed.

Lemma leg_sum s x : 0 <= x -> output_sum (leg s x) = x.
Proof. intros H. unfold leg. rewrite Z.gtb_ltb. destruct (Z.ltb_spec 0 x); cbn; lia. Qed.

Lemma output_sum_app a b : output_sum (a ++ b) = output_sum a + output_sum b.
Proof. unfold output_sum. induction a as [|o a IH]; [done|]. cbn [app foldr]. lia. Qed.

Lemma metadata_sum md : output_sum (map (mkOutput 0) md) = 0.
Proof. induction md as [|s md IH]; [done|]. cbn [map]. rewrite output_sum_cons, IH. done. Qed.

Lemma leg_values s x : Forall (fun o => 0 <= value o) (leg s x).
Proof.
  unfold leg. rewrite Z.gtb_ltb. destruct (Z.ltb_spec 0 x); [|constructor].
  apply Forall_singleton. cbn [value]. lia.
Qed.

Lemma metadata_values md : Forall (fun o => 0 <= value o) (map (mkOutput 0) md).
Proof. apply Forall_map, Forall_forall. intros. cbn. lia. Qed.

(** The reward outputs of an allocation. *)
Definition legs_of (ms : bytes) (a : CoinbaseAllocation) : list TxOutput :=
  leg ms (miner a) ++ leg (pool_script cs) (pool a) ++ leg (vault_script cs) (vault a)
  ++ leg (endorse_script cs) (endorsement a).

Definition alloc_nonneg (a : CoinbaseAllocation) : Prop :=
  0 <= miner a /\ 0 <= pool a /\ 0 <= vault a /\ 0 <= endorsement a
  /\ miner a + pool a + vault a + endorsement a <= MAX_SUPPLY_UNITS.

Lemma legs_sum ms a : alloc_nonneg a ->
  output_sum (legs_of ms a) = miner a + pool a + vault a + endorsement a.
Proof. intros (? & ? & ? & ? & _). unfold legs_of. rewrite !output_sum_app, !leg_sum by done. lia. Qed.

Lemma legs_values ms a : Forall (fun o => 0 <= value o) (legs_of ms a).
Proof. unfold legs_of. rewrite !Forall_app. auto using leg_values. Qed.

Lemma legs_empty ms a : alloc_nonneg a ->
  legs_of ms a = [] <-> miner a + pool a + vault a + endorsement a = 0.
Proof.
  intros (? & ? & ? & ? & _). unfold legs_of, leg. rewrite !Z.gtb_ltb.
  destruct (Z.ltb_spec 0 (miner a)), (Z.ltb_spec 0 (pool a)), (Z.ltb_spec 0 (vault a)),
    (Z.ltb_spec 0 (endorsement a)); cbn [app]; split; (done || lia).
Qed.

(** The builder emits the reward legs, or the empty marker when there is nothing
    to pay and no metadata, followed by the metadata. *)
Lemma build_outputs ht supply fees ms md cb a :
  size ms <> 0 -> alloc_nonneg a ->
  ComputeCoinbaseAllocation ht (ExpectedBlockSubsidy ht) supply fees = Some a ->
  BuildCanonicalCoinbase ht supply fees ms md = Some cb ->
  IsCoinbase cb = true
  /\ outputs cb = (match legs_of ms a, md with
                   | [], [] => [mkOutput 0 [0x6A; 0x00]] | _, _ => legs_of ms a end)
                  ++ map (mkOutput 0) md.
Proof using Hcs.
  intros Hms Ha Ea. unfold BuildCanonicalCoinbase. rewrite Ea. unfold CreateProportionalCoinbase.
  rewrite reward_legs by done. fold (legs_of ms a). intros E. injection E as <-. split; [done|].
  cbn [outputs inputs version locktime]. f_equal.
  destruct md as [|s md]; [by destruct (legs_of ms a)|].
  pose proof (legs_empty ms a Ha) as He. pose proof (legs_sum ms a Ha) as Hs.
  destruct Ha as (? & ? & ? & ? & Hle). pose proof (legs_values ms a) as Hv.
  destruct (legs_of ms a) as [|o l] eqn:El; [done|].
  rewrite TotalOutput_sum by (cbn [outputs]; (done || lia)). cbn [outputs].
  destruct (Z.eqb_spec (output_sum (o :: l)) 0) as [E|]; [|done].
  rewrite E in Hs. symmetry in Hs. by apply He in Hs.
Qed.

Lemma metadata_count_app a b : metadata_count (a ++ b) = metadata_count a + metadata_count b.
Proof. unfold metadata_count, size. rewrite List.filter_app, length_app. lia. Qed.

Lemma metadata_count_all outs :
  Forall (fun o => IsFinalityCoinbaseMetadata o = true) outs -> metadata_count outs = size outs.
Proof.
  unfold metadata_count, size. induction 1 as [|o outs Ho _ IH]; [done|].
  cbn [List.filter]. rewrite Ho. cbn [length]. lia.
Qed.

Lemma metadata_count_legs ms a : metadata_count (legs_of ms a) = 0.
Proof.
  unfold legs_of. rewrite !metadata_count_app. unfold leg, metadata_count. rewrite !Z.gtb_ltb.
  repeat match goal with |- context [0 <? ?x] => destruct (Z.ltb_spec 0 x) end;
    cbn [List.filter]; rewrite ?not_metadata by lia; done.
Qed.

(** The verdict on a coinbase whose outputs are the legs of its allocation,
    followed by metadata. *)
Lemma split_accepts c block cb txs ms md fees a :
  height block <> 0 -> transactions block = cb :: txs -> IsCoinbase cb = true ->
  0 <= total_supply_units c <= MAX_SUPPLY_UNITS -> 0 <= fees ->
  block_fees c txs 0 true = Some (fees, true) ->
  ComputeCoinbaseAllocation (height block) (ExpectedBlockSubsidy (height block))
    (total_supply_units c) fees = Some a ->
  miner_script_ok (height block) ms ->
  Forall (fun s => IsFinalityCoinbaseMetadata (mkOutput 0 s) = true) md ->
  size md <= MAX_FINALITY_MARKER_OUTPUTS ->
  outputs cb = (match legs_of ms a, md with
                | [], [] => [mkOutput 0 [0x6A; 0x00]] | _, _ => legs_of ms a end)
               ++ map (mkOutput 0) md ->
  ValidateCanonicalCoinbaseSplit c block = Some true.
Proof using Hcs.
  intros Hh Etx Hcb Hs Hf Ef Ea Hms Hmd Hmdn Eo.
  set (supply := total_supply_units c) in *. set (base := ExpectedBlockSubsidy (height block)) in *.
  assert (Hbase : 0 < base) by apply subsidy_bounds.
  destruct (allocation_ok (height block) base supply fees a)
    as (_ & Hsub & Hm & Hp & Hv & He & Hcons & Hmax); [lia|lia|lia|done|].
  assert (Ha : alloc_nonneg a) by (repeat split; lia).
  assert (Hmdm : Forall (fun o => IsFinalityCoinbaseMetadata o = true) (map (mkOutput 0) md))
    by (apply Forall_map; done).
  assert (Hsz : size (map (mkOutput 0) md) = size md) by (unfold size; by rewrite length_map).
  assert (Hsum : output_sum (outputs cb) = subsidy a + fees).
  { rewrite Eo, output_sum_app, metadata_sum, Z.add_0_r, <- Hcons.
    destruct (legs_of ms a) as [|o l] eqn:El; [|by rewrite <- El, legs_sum].
    apply legs_empty in El; [|done]. rewrite El. by destruct md. }
  assert (Hvals : Forall (fun o => 0 <= value o) (outputs cb)).
  { rewrite Eo. apply Forall_app. split; [|apply metadata_values].
    pose proof (legs_values ms a). destruct (legs_of ms a); [|by destruct md].
    destruct md; [|done]. apply Forall_singleton. cbn. lia. }
  unfold ValidateCanonicalCoinbaseSplit. rewrite Etx.
  destruct (Z.eqb_spec (height block) 0); [done|]. rewrite Hcb. cbn [negb].
  fold supply. fold base. rewrite effective_reward_eq by lia. rewrite <- Hsub.
  rewrite TotalOutput_sum by (done || lia). rewrite Hsum.
  destruct (Z.ltb_spec (subsidy a + fees) (subsidy a)); [lia|]. rewrite Ef. cbn [negb].
  rewrite (Z.gtb_ltb supply). destruct (Z.ltb_spec MAX_SUPPLY_UNITS supply); [lia|]. cbn [orb].
  rewrite Z.gtb_ltb. destruct (Z.ltb_spec (MAX_SUPPLY_UNITS - subsidy a) fees); [lia|].
  rewrite units_fit by lia. rewrite Z.eqb_refl. cbn [negb]. rewrite custody_ok. cbn [negb].
  destruct (Z.eqb_spec (subsidy a + fees) 0) as [E0|En0].
  - f_equal. rewrite <- Hcons in E0. apply (legs_empty ms) in E0; [|done]. rewrite Eo, E0.
    destruct md as [|s md']; [done|]. rewrite app_nil_l, metadata_count_all, Hsz, Z.eqb_refl by done.
    apply orb_true_iff. right. destruct (Z.eqb_spec (size (s :: md')) 0); [done|].
    by destruct (Z.leb_spec (size (s :: md')) MAX_FINALITY_MARKER_OUTPUTS); [|lia].
  - assert (Eo' : outputs cb = legs_of ms a ++ map (mkOutput 0) md).
    { rewrite Eo. destruct (legs_of ms a) as [|o l] eqn:El; [|by destruct md].
      apply legs_empty in El; [lia|done]. }
    rewrite Eo', metadata_count_app, metadata_count_legs, metadata_count_all, Hsz, Z.gtb_ltb by done.
    destruct (Z.ltb_spec MAX_FINALITY_MARKER_OUTPUTS (0 + size md)); [lia|].
    rewrite classify_app. unfold legs_of. rewrite classify_legs by (done || lia).
    rewrite classify_metadata by done. rewrite Ea.
    cbn [sum_vault sum_pool sum_endorse sum_other count_vault count_pool count_endorse count_other other_ok].
    rewrite !Z.eqb_refl. cbn [negb andb]. by rewrite andb_false_r.
Qed.

End Custodied.

(** ** The mainnet custody scripts *)

Definition mainnet_scripts : Custody := Eval vm_compute in CustodyAtHeight 0.

Lemma mainnet_scripts_eq ht : CustodyAtHeight ht = mainnet_scripts.
Proof. vm_compute. reflexivity. Qed.

Lemma mainnet_custody ht : custody_wf (CustodyAtHeight ht).
Proof.
  rewrite mainnet_scripts_eq.
  constructor; try (vm_compute; reflexivity); apply (bool_decide_unpack _); vm_compute; exact I.
Qed.

(** ** Properties *)

(** The reward split conserves value.  Whenever an allocation exists, its four
    parts are non-negative and add up to the subsidy plus the fees, the subsidy is
    the scheduled one capped by the supply left, no 64-bit product wraps, and an
    allocation exists exactly when the parent supply is within the cap and the fees
    fit beside the subsidy. *)
Lemma allocation_conserves ht base supply fees :
  fits 64 base -> fits 64 supply -> fits 64 fees ->
  match ComputeCoinbaseAllocation ht base supply fees with
  | Some a =>
      0 <= miner a /\ 0 <= pool a /\ 0 <= vault a /\ 0 <= endorsement a
      /\ miner a + pool a + vault a + endorsement a = subsidy a + fees
      /\ subsidy a = Z.min base (MAX_SUPPLY_UNITS - supply)
      /\ supply + subsidy a <= MAX_SUPPLY_UNITS
  | None => MAX_SUPPLY_UNITS < supply
            \/ MAX_SUPPLY_UNITS < Z.min base (MAX_SUPPLY_UNITS - supply) + fees
  end.
Proof.
  unfold fits. intros Hb Hs Hf. destruct (ComputeCoinbaseAllocation ht base supply fees) as [a|] eqn:E.
  - apply allocation_ok in E; [|lia..]. destruct E as (? & ? & ? & ? & ? & ? & ? & ?).
    split_and!; lia.
  - destruct (Z.lt_ge_cases MAX_SUPPLY_UNITS supply) as [?|Hle]; [by left|right].
    destruct (Z.lt_ge_cases MAX_SUPPLY_UNITS (Z.min base (MAX_SUPPLY_UNITS - supply) + fees)) as [?|Hle2];
      [done|].
    destruct (allocation_exists ht base supply fees) as [a Ea]; [lia|lia|lia|]. congruence.
Qed.

Lemma allocation_conserves_witness :
  exists a, ComputeCoinbaseAllocation 7 313926940 (20000 * VELD_UNITS) 100 = Some a
    /\ miner a + pool a + vault a + endorsement a = subsidy a + 100.
Proof.
  destruct (ComputeCoinbaseAllocation 7 313926940 (20000 * VELD_UNITS) 100) as [a|] eqn:E;
    [|vm_compute in E; discriminate E].
  pose proof (allocation_conserves 7 313926940 (20000 * VELD_UNITS) 100 ltac:(vm_compute; split; congruence)
    ltac:(vm_compute; split; congruence) ltac:(vm_compute; split; congruence)) as H.
  rewrite E in H. exists a. split; [reflexivity|]. destruct H as (_ & _ & _ & _ & H & _). exact H.
Defined.

(** C12: an accepted coinbase mints and routes exactly what it should.  When the
    split validator accepts a block, its coinbase pays the capped subsidy plus the
    fees computed from the spent outputs; vault, pool, endorsement pool and miner
    receive their allocated parts and the two settlement scripts nothing; and the
    supply transition then adds exactly the subsidy, staying within the cap. *)
Theorem accepted_coinbase_exact cs c block cb txs :
  custody_wf cs -> wf_view c -> transactions block = cb :: txs -> wf_tx cb -> Forall wf_tx txs ->
  height block <> 0 -> ValidateCanonicalCoinbaseSplit cs c block = Some true ->
  exists a,
    let fees := foldr (fun tx z => fee_of c tx + z) 0 txs in
    ComputeCoinbaseAllocation (height block) (ExpectedBlockSubsidy (height block))
      (total_supply_units c) fees = Some a
    /\ output_sum (outputs cb) = subsidy a + fees
    /\ paid_exactly cs (outputs cb) a
    /\ AdvanceCanonicalSupply block (total_supply_units c) = Some (total_supply_units c + subsidy a)
    /\ total_supply_units c + subsidy a <= MAX_SUPPLY_UNITS.
Proof.
  intros Hcs Hc Etx Hcb Hwt Hh Hv.
  destruct (split_accepted cs Hcs c block cb txs) as (fees & a & Ef & Ea & Hsum & Hpe); try done.
  apply block_fees_exact in Ef as [Ef Hfr]; [|done|done|vm_compute; split; congruence].
  rewrite Z.add_0_l in Ef. exists a. rewrite <- Ef. cbv zeta.
  pose proof (subsidy_bounds (height block)) as Hb. destruct Hc as [Hs _].
  destruct (allocation_ok (height block) (ExpectedBlockSubsidy (height block)) (total_supply_units c) fees a)
    as (Hle & Hsub & _ & _ & _ & _ & _ & Hmax); [lia|done|lia|done|].
  split_and!; try done; [|lia].
  destruct Hcb as (_ & _ & _ & Ho & _).
  assert (Hcap : MAX_SUPPLY_UNITS <= UINT64_MAX) by (vm_compute; congruence).
  assert (Hok : coinbase_ok block) by (exists cb, txs; split; [exact Etx|]; split; [exact Ho|lia]).
  rewrite advance_supply by (exact Hok || exact Hle).
  unfold coinbase_total. rewrite Etx, Hsum. f_equal. lia.
Qed.

(** A one-transaction block paid to a key script, on an early chain. *)
Definition sample_view : ChainView := mkView ∅ (20000 * VELD_UNITS).
Definition sample_miner : bytes := [0x76; 0xA9; 0x14] ++ replicate 20 5 ++ [0x88; 0xAC].
Definition sample_cs : Custody :=
  mkCustody (0x76 :: replicate 24 1) (0x76 :: replicate 24 2) (0x76 :: replicate 24 3)
    (0x76 :: replicate 24 4) (0x76 :: replicate 24 5).
Definition sample_coinbase : Transaction :=
  default (mkTx 1 [] [] 0) (BuildCanonicalCoinbase sample_cs 7 (20000 * VELD_UNITS) 0 sample_miner []).
Definition mined_block : Block :=
  mkBlock (mkHeader 2 ZeroHash ZeroHash 0 0 0) [sample_coinbase] 7.

Lemma sample_custody : custody_wf sample_cs.
Proof.
  constructor; try (vm_compute; reflexivity); apply (bool_decide_unpack _); vm_compute; exact I.
Qed.

Lemma sample_view_wf : wf_view sample_view.
Proof. split; [vm_compute; congruence|]. apply map_Forall_empty. Qed.

Lemma sample_coinbase_wf : wf_tx sample_coinbase.
Proof. apply (bool_decide_unpack _). vm_compute. exact I. Qed.

Lemma accepted_coinbase_exact_witness :
  exists a, paid_exactly sample_cs (outputs sample_coinbase) a
    /\ AdvanceCanonicalSupply mined_block (20000 * VELD_UNITS) = Some (20000 * VELD_UNITS + subsidy a).
Proof.
  destruct (accepted_coinbase_exact sample_cs sample_view mined_block sample_coinbase [])
    as (a & _ & _ & H1 & H2 & _).
  - exact sample_custody.
  - exact sample_view_wf.
  - reflexivity.
  - exact sample_coinbase_wf.
  - constructor.
  - discriminate.
  - vm_compute. reflexivity.
  - exists a. split; [exact H1|exact H2].
Defined.

(** The builder and the validator agree.  A coinbase built for the next height
    from the parent supply and the authenticated fees, paying a canonical key script
    that is not a custody script and carrying at most 235 finality markers, is
    accepted by the split validator, in the subsidy, vault-block, bootstrap,
    fee-only and empty eras alike. *)
Lemma built_coinbase_accepted cs c block cb txs fees miner_script metadata :
  custody_wf cs -> wf_view c -> Forall wf_tx txs -> height block <> 0 ->
  transactions block = cb :: txs -> block_fees c txs 0 true = Some (fees, true) ->
  miner_script_ok cs (height block) miner_script ->
  Forall (fun s => IsFinalityCoinbaseMetadata (mkOutput 0 s) = true) metadata ->
  size metadata <= MAX_FINALITY_MARKER_OUTPUTS ->
  BuildCanonicalCoinbase cs (height block) (total_supply_units c) fees miner_script metadata = Some cb ->
  ValidateCanonicalCoinbaseSplit cs c block = Some true.
Proof.
  intros Hcs Hc Hwt Hh Etx Ef Hms Hmd Hn Hb.
  destruct (ComputeCoinbaseAllocation (height block) (ExpectedBlockSubsidy (height block))
    (total_supply_units c) fees) as [a|] eqn:Ea.
  2:{ unfold BuildCanonicalCoinbase in Hb. by rewrite Ea in Hb. }
  apply block_fees_exact in Ef as Hfees; [|done|done|vm_compute; split; congruence].
  destruct Hfees as [_ Hfees]. pose proof (subsidy_bounds (height block)) as Hsb.
  destruct Hc as [Hs Hu].
  destruct (allocation_ok (height block) (ExpectedBlockSubsidy (height block)) (total_supply_units c) fees a)
    as (Hle & Hsub & Hm & Hp & Hv & He & Hcons & Hmax); [lia|done|lia|done|].
  destruct (build_outputs cs Hcs (height block) (total_supply_units c) fees miner_script metadata cb a)
    as [Hcb Eo]; [destruct Hms as (_ & ? & _); lia|repeat split; lia|done|done|].
  apply (split_accepts cs Hcs c block cb txs miner_script metadata fees a); try done; lia.
Qed.

Lemma built_coinbase_accepted_witness :
  ValidateCanonicalCoinbaseSplit sample_cs sample_view mined_block = Some true.
Proof.
  apply (built_coinbase_accepted sample_cs sample_view mined_block sample_coinbase [] 0 sample_miner []).
  - exact sample_custody.
  - exact sample_view_wf.
  - constructor.
  - discriminate.
  - reflexivity.
  - reflexivity.
  - apply (bool_decide_unpack _). vm_compute. exact I.
  - constructor.
  - vm_compute. congruence.
  - vm_compute. reflexivity.
Defined.

(** C7: the supply follows the schedule and never passes 21 million.  Along any
    chain of blocks at heights 1, 2, ... with well-formed coinbases, the supply
    transition always succeeds, the supply of a chain is at least that of each of its
    prefixes and never exceeds the cap or the scheduled emission
    (exactly 550,000 VELD per 175,200 blocks); when every coinbase pays at least
    its subsidy, the supply is the scheduled emission capped at 21 million. *)
Theorem supply_schedule blocks :
  Forall coinbase_ok blocks -> heights_from 1 blocks ->
  exists s, supply_after blocks 0 = Some s
    /\ 0 <= s <= MAX_SUPPLY_UNITS /\ s <= scheduled (size blocks)
    /\ (forall before after, blocks = before ++ after -> exists s0, supply_after before 0 = Some s0 /\ s0 <= s)
    /\ (forall k, 0 <= k -> size blocks <= k * BLOCKS_PER_YEAR -> s <= k * ANNUAL_EMISSION_UNITS)
    /\ (Forall (fun b => ExpectedBlockSubsidy (height b) <= coinbase_total b) blocks ->
        s = Z.min MAX_SUPPLY_UNITS (scheduled (size blocks))).
Proof.
  intros Hok Hh. destruct (supply_after_spec blocks 0 0) as (s & E & Hs & Hex);
    [lia|vm_compute; split; congruence|done|done|].
  rewrite Z.add_0_l in *. exists s. split; [done|]. split; [lia|]. split; [lia|]. split; [|split].
  - intros before after ->. apply Forall_app in Hok as [Hok1 Hok2]. apply heights_from_app in Hh as [Hh1 Hh2].
    destruct (supply_after_spec before 0 0) as (s0 & E0 & Hs0 & _); [lia|vm_compute; split; congruence|done|done|].
    exists s0. split; [done|]. rewrite supply_after_app, E0 in E. rewrite Z.add_0_l in Hs0.
    destruct (supply_after_spec after (size before) s0) as (s' & E' & Hs' & _);
      [apply size_nonneg|lia|done|by rewrite Z.add_comm|]. rewrite E in E'. injection E' as <-. lia.
  - intros k Hk Hle. rewrite <- scheduled_years by done.
    pose proof (scheduled_mono (size blocks) (k * BLOCKS_PER_YEAR) (size_nonneg blocks) Hle). lia.
  - intros Hf. apply Hex; [done|]. reflexivity.
Qed.

Definition year_one_blocks : list Block :=
  [mkBlock (mkHeader 2 ZeroHash ZeroHash 0 0 0) [CreateCoinbase 313926940 sample_miner []] 1;
   mkBlock (mkHeader 2 ZeroHash ZeroHash 0 0 0) [CreateCoinbase 313926950 sample_miner []] 2].

Lemma supply_schedule_witness :
  supply_after year_one_blocks 0 = Some 627853880
  /\ exists s0, supply_after (take 1 year_one_blocks) 0 = Some s0 /\ s0 <= 627853880.
Proof.
  destruct (supply_schedule year_one_blocks) as (s & E & _ & _ & Hpre & _ & Hex).
  - repeat (apply Forall_cons_2); [..|apply Forall_nil_2];
      (eexists _, []; split; [reflexivity|]; split;
       [apply (bool_decide_unpack _); vm_compute; exact I | vm_compute; congruence]).
  - cbn. lia.
  - assert (s = 627853880) as ->
      by (rewrite Hex; [reflexivity|]; repeat (apply Forall_cons_2); try apply Forall_nil_2; vm_compute; congruence).
    split; [exact E|]. exact (Hpre _ (drop 1 year_one_blocks) (eq_sym (take_drop 1 year_one_blocks))).
Defined.
