(* ===== verification/FinalityQc.v ===== *)
(** * Quorum certificates ([consensus/finality_qc.h])

    The pure core of locked-QC finality: checkpoints and epochs, the frozen
    validator snapshot and its canonical root, the signed vote preimage, quorum
    certificates over a signer bitmap, the lock rule, the retained record and the
    reorganisation rule.  A C++ [Phase] has an 8-bit underlying type, so it is an integer
    here and the validity tests on it are real tests. *)
From S2P Require Import Prelude Bytes Sha256 Profile StateDigest.
From Stdlib Require Import Sorting.Sorted.

(** ** Domains and profile *)

Definition DOMAIN_SNAPSHOT : bytes := b:"VELD_FINALITY_SNAPSHOT_v1|".
Definition DOMAIN_VOTE : bytes := b:"VELD_FINALITY_VOTE_v1|".
Definition DOMAIN_QC : bytes := b:"VELD_FINALITY_QC_v1|".
Definition DOMAIN_RECORD : bytes := b:"VELD_FINALITY_RECORD_v1|".
Definition DOMAIN_PUBKEY : bytes := b:"VELD_FINALITY_PUBKEY_v1|".

Definition EPOCH_BLOCKS : Z := BLOCKS_PER_DAY.
Definition CHECKPOINT_INTERVAL : Z := BLOCKS_PER_DAY / 24.
Definition VOTE_WINDOW_BLOCKS : Z := CHECKPOINT_INTERVAL.
Definition REGISTRATION_MATURITY : Z := EPOCH_BLOCKS.
Definition MIN_VALIDATOR_COUNT : Z := 7.
Definition MAX_FINALITY_VALIDATOR_COUNT : Z := 3398.
Definition BOND_PER_KEY_UNITS : Z := 10000 * VELD_UNITS.
Definition TOTAL_BOND_FLOOR : Z := MIN_VALIDATOR_COUNT * BOND_PER_KEY_UNITS.
Definition FINALITY_LIVENESS_WINDOW : Z := 60.
Definition THRESHOLD_NUM : Z := 2.
Definition THRESHOLD_DEN : Z := 3.
Definition NETWORK_ID : Z := 0x4D.

Abbreviation Phase := Z.
Definition PREVOTE : Phase := 1.
Definition PRECOMMIT : Phase := 2.

(** ** Data *)

Record CheckpointRef := mkRef { height : Z; hash : Hash256 }.

#[global] Instance CheckpointRef_eq_dec : EqDecision CheckpointRef.
Proof. solve_decision. Defined.

Definition NullRef : CheckpointRef := mkRef 0 ZeroHash.

Definition RefIsNull (c : CheckpointRef) : bool :=
  if negb (height c =? 0) then false else forallb (fun b => b =? 0) (hash c).

Record SnapshotEntry := mkEntry {
  pubkey_commit : Hash256;
  address : bytes;
  registered_height : Z;
  weight : Z;
  pubkey_hex : bytes
}.

Record EpochSnapshot := mkSnapshot {
  epoch_id : Z;
  snapshot_height : Z;
  entries : list SnapshotEntry;
  total_weight : Z;
  root : Hash256
}.

Definition Qualified (s : EpochSnapshot) : bool :=
  (MIN_VALIDATOR_COUNT <=? size (entries s))
  && (size (entries s) <=? MAX_FINALITY_VALIDATOR_COUNT)
  && (TOTAL_BOND_FLOOR <=? total_weight s).

Record QuorumCert := mkQc {
  qc_epoch_id : Z;
  qc_set_root : Hash256;
  qc_phase : Phase;
  qc_round : Z;
  qc_source : CheckpointRef;
  qc_target : CheckpointRef;
  qc_bitmap : bytes;
  qc_weight : Z
}.

Record FinalizedRecord := mkRecord {
  r_epoch_id : Z;
  r_target : CheckpointRef;
  r_set_root : Hash256;
  r_round : Z;
  r_phase : Phase;
  r_cert_commit : Hash256;
  r_carrier : CheckpointRef;
  r_retention_floor : Z
}.

Definition NullRecord : FinalizedRecord :=
  mkRecord 0 NullRef ZeroHash 0 PRECOMMIT ZeroHash NullRef 0.

Definition RecordIsNull (r : FinalizedRecord) : bool := RefIsNull (r_target r).

Record Lock := mkLock {
  held : bool;
  lock_epoch_id : Z;
  lock_round : Z;
  lock_target : CheckpointRef
}.

Definition Unlocked : Lock := mkLock false 0 0 NullRef.

(** ** Quorum arithmetic, checkpoints and epochs *)

(** The products are formed at 128 bits. *)
Definition IsSupermajority (weight total_weight : Z) : bool :=
  if total_weight =? 0 then false
  else wrap 128 (total_weight * THRESHOLD_NUM) <? wrap 128 (weight * THRESHOLD_DEN).

Definition IsScheduledCheckpoint (height : Z) : bool :=
  negb (height =? 0) && (height mod CHECKPOINT_INTERVAL =? 0).

Definition CheckpointRound (height : Z) : Z := u32 ((height mod EPOCH_BLOCKS) / CHECKPOINT_INTERVAL).

Definition ConsensusRoundNewer (epoch round prior_epoch prior_round : Z) : bool :=
  (prior_epoch <? epoch) || ((epoch =? prior_epoch) && (prior_round <? round)).

Definition SourceRefWellFormed (source target : CheckpointRef) : bool :=
  if RefIsNull source then true
  else negb (height source =? 0) && IsScheduledCheckpoint (height source)
       && (height source <? height target).

Definition InVoteWindow (target_height inclusion_height : Z) : bool :=
  (target_height <? inclusion_height)
  && (inclusion_height <=? u64 (target_height + VOTE_WINDOW_BLOCKS)).

Definition EpochOf (height : Z) : Z := height / EPOCH_BLOCKS.
Definition EpochStart (epoch_id : Z) : Z := u64 (epoch_id * EPOCH_BLOCKS).
Definition SnapshotHeightFor (epoch_id : Z) : Z :=
  let start := EpochStart epoch_id in if start =? 0 then 0 else start - 1.

(** ** Roots *)

Definition PubkeyCommit (pubkey_hex : bytes) : Hash256 := sha256_domain DOMAIN_PUBKEY pubkey_hex.

Definition snapshot_entry_bytes (e : SnapshotEntry) : bytes :=
  put_bytes (pubkey_commit e) ++ put_len_prefixed (address e)
  ++ put_u64_le (registered_height e) ++ put_u64_le (weight e).

Definition snapshot_body (sorted_entries : list SnapshotEntry)
    (epoch_id snapshot_height total_weight : Z) : bytes :=
  put_u64_le epoch_id ++ put_u64_le snapshot_height ++ put_u64_le (size sorted_entries)
  ++ put_u64_le total_weight ++ concat (map snapshot_entry_bytes sorted_entries).

Definition SnapshotRoot (sorted_entries : list SnapshotEntry)
    (epoch_id snapshot_height total_weight : Z) : Hash256 :=
  sha256_domain DOMAIN_SNAPSHOT (snapshot_body sorted_entries epoch_id snapshot_height total_weight).

(** One turn's tests in [SnapshotWellFormed]; [prev] is the preceding commitment. *)
Definition entry_ok (prev : option Hash256) (e : SnapshotEntry) : bool :=
  (weight e =? BOND_PER_KEY_UNITS)
  && negb (bool_decide (address e = []))
  && ((size (pubkey_hex e) =? 3904) && bool_decide (PubkeyCommit (pubkey_hex e) = pubkey_commit e))
  && match prev with Some p => lex_lt p (pubkey_commit e) | None => true end.

(** The loop; [None] is [return false], otherwise the 64-bit sum. *)
Fixpoint snapshot_loop (prev : option Hash256) (es : list SnapshotEntry) (sum : Z) : option Z :=
  match es with
  | [] => Some sum
  | e :: es' => if entry_ok prev e
                then snapshot_loop (Some (pubkey_commit e)) es' (u64 (sum + weight e)) else None
  end.

Definition SnapshotWellFormed (s : EpochSnapshot) : bool :=
  match snapshot_loop None (entries s) 0 with
  | None => false
  | Some sum =>
      if negb (sum =? total_weight s) then false
      else bool_decide (SnapshotRoot (entries s) (epoch_id s) (snapshot_height s) (total_weight s)
                        = root s)
  end.

(** [std::lower_bound] on a sequence of keys: [first] is the start of the [len]
    keys still in play.  The range at least halves, so [length] turns suffice. *)
Fixpoint lower_bound (fuel : nat) (keys : list Hash256) (first len : nat) (wanted : Hash256) : nat :=
  match fuel, len with
  | O, _ | _, O => first
  | S fuel', _ =>
      let half := (len / 2)%nat in
      let mid := (first + half)%nat in
      if match keys !! mid with Some k => lex_lt k wanted | None => false end
      then lower_bound fuel' keys (S mid) (len - half - 1) wanted
      else lower_bound fuel' keys first half wanted
  end.

(** [None] is [(size_t)-1]. *)
Definition SignerIndex (s : EpochSnapshot) (commit : Hash256) : option nat :=
  let n := length (entries s) in
  let it := lower_bound n (map pubkey_commit (entries s)) 0 n commit in
  match entries s !! it with
  | None => None
  | Some e => if bool_decide (pubkey_commit e <> commit) then None else Some it
  end.

(** ** Votes and certificates *)

Definition ref_bytes (c : CheckpointRef) : bytes := put_u64_le (height c) ++ put_bytes (hash c).

Definition VotePreimage (network_id : Z) (genesis_hash : Hash256) (epoch_id : Z)
    (set_root : Hash256) (phase : Phase) (round : Z) (source target : CheckpointRef) : bytes :=
  put_bytes DOMAIN_VOTE ++ put_u32_le network_id ++ put_bytes genesis_hash ++ put_u64_le epoch_id
  ++ put_bytes set_root ++ put_u8 phase ++ put_u32_le round ++ ref_bytes source ++ ref_bytes target.

(** [byte & (uint8_t)(1u << (i & 7))] as a test. *)
Definition byte_bit (b : Z) (i : nat) : bool :=
  negb (Z.land b (u8 (Z.shiftl 1 (Z.of_nat (i mod 8)))) =? 0).

(** The test of bit [i]; false past the end of the bitmap. *)
Definition bit_set (bitmap : bytes) (i : nat) : bool :=
  match bitmap !! (i / 8)%nat with Some b => byte_bit b i | None => false end.

(** The loop of [BitmapWeight] from entry [i] on; past the bitmap it breaks. *)
Fixpoint bitmap_weight_loop (bitmap : bytes) (i : nat) (es : list SnapshotEntry) (w : Z) : Z :=
  match es with
  | [] => w
  | e :: es' =>
      match bitmap !! (i / 8)%nat with
      | None => w
      | Some b => bitmap_weight_loop bitmap (S i) es' (if byte_bit b i then u64 (w + weight e) else w)
      end
  end.

Definition BitmapWeight (s : EpochSnapshot) (bitmap : bytes) : Z :=
  bitmap_weight_loop bitmap 0 (entries s) 0.

Definition qc_body (qc : QuorumCert) : bytes :=
  put_u64_le (qc_epoch_id qc) ++ put_bytes (qc_set_root qc) ++ put_u8 (qc_phase qc)
  ++ put_u32_le (qc_round qc) ++ ref_bytes (qc_source qc) ++ ref_bytes (qc_target qc)
  ++ put_len_prefixed (qc_bitmap qc) ++ put_u64_le (qc_weight qc).

Definition QcCommitment (qc : QuorumCert) : Hash256 := sha256_domain DOMAIN_QC (qc_body qc).

(** Some bit at or after the last member is set. *)
Definition stray_bits (bitmap : bytes) (n : nat) : bool :=
  existsb (bit_set bitmap) (seq n (length bitmap * 8 - n)).

Definition QcWellFormed (qc : QuorumCert) (s : EpochSnapshot) : bool :=
  if negb (SnapshotWellFormed s) then false
  else if negb (qc_epoch_id qc =? epoch_id s) then false
  else if bool_decide (qc_set_root qc <> root s) then false
  else if negb (qc_phase qc =? PREVOTE) && negb (qc_phase qc =? PRECOMMIT) then false
  else if negb (IsScheduledCheckpoint (height (qc_target qc))) then false
  else if negb (EpochOf (height (qc_target qc)) =? qc_epoch_id qc) then false
  else if negb (qc_round qc =? CheckpointRound (height (qc_target qc))) then false
  else if negb (SourceRefWellFormed (qc_source qc) (qc_target qc)) then false
  else if negb (size (qc_bitmap qc) =? (size (entries s) + 7) / 8) then false
  else if stray_bits (qc_bitmap qc) (length (entries s)) then false
  else if negb (BitmapWeight s (qc_bitmap qc) =? qc_weight qc) then false
  else IsSupermajority (qc_weight qc) (total_weight s).

(** ** Locking *)

Definition LockedPrevoteAllowed (lock : Lock) (new_epoch new_round : Z) (new_target : CheckpointRef)
    (unlock_proof : option QuorumCert) (extends_lock : bool) : bool :=
  if negb (held lock) then true
  else if bool_decide (lock_target lock = new_target) then true
  else if negb (ConsensusRoundNewer new_epoch new_round (lock_epoch_id lock) (lock_round lock))
       then false
  else if extends_lock && (height (lock_target lock) <? height new_target) then true
  else match unlock_proof with
       | None => false
       | Some p =>
           if negb (qc_phase p =? PREVOTE) then false
           else if negb (qc_epoch_id p =? new_epoch) then false
           else if bool_decide (qc_target p <> new_target) then false
           else qc_round p =? new_round
       end.

Definition LockFromPrecommit (qc : QuorumCert) : Lock :=
  if qc_phase qc =? PRECOMMIT then mkLock true (qc_epoch_id qc) (qc_round qc) (qc_target qc)
  else Unlocked.

(** ** The retained record *)

Definition Finalize (qc : QuorumCert) (s : EpochSnapshot) (carrier : CheckpointRef)
  : option FinalizedRecord :=
  if negb (qc_phase qc =? PRECOMMIT) then None
  else if negb (QcWellFormed qc s) then None
  else if negb (Qualified s) then None
  else if negb (InVoteWindow (height (qc_target qc)) (height carrier)) then None
  else Some (mkRecord (qc_epoch_id qc) (qc_target qc) (qc_set_root qc) (qc_round qc) (qc_phase qc)
               (QcCommitment qc) carrier (height (qc_target qc))).

Definition record_body (r : FinalizedRecord) : bytes :=
  put_u64_le (r_epoch_id r) ++ ref_bytes (r_target r) ++ put_bytes (r_set_root r)
  ++ put_u32_le (r_round r) ++ put_u8 (r_phase r) ++ put_bytes (r_cert_commit r)
  ++ ref_bytes (r_carrier r) ++ put_u64_le (r_retention_floor r).

Definition RecordDigest (r : FinalizedRecord) : Hash256 := sha256_domain DOMAIN_RECORD (record_body r).

Definition RecordSupersedes (incoming current : FinalizedRecord) : bool :=
  if RecordIsNull current then true
  else if height (r_target current) <? height (r_target incoming) then true
  else false.

Definition ReorgAllowed (rec : FinalizedRecord) (common_ancestor_height : Z)
    (branch_has : Z -> Hash256 -> bool) : bool :=
  if RecordIsNull rec then true
  else if common_ancestor_height <? height (r_target rec) then false
  else if negb (branch_has (height (r_target rec)) (hash (r_target rec))) then false
  else branch_has (height (r_carrier rec)) (hash (r_carrier rec)).

Definition FinalityLive (current_height last_finalized_height : Z) : bool :=
  if last_finalized_height =? 0 then false
  else if current_height <=? last_finalized_height then true
  else u64 (current_height - last_finalized_height) <=? FINALITY_LIVENESS_WINDOW.

Definition SecurityMilestoneComplete (finality_ever_active ever_promoted_anchor : bool) : bool :=
  finality_ever_active && ever_promoted_anchor.

(** ** Lemmas: quorum arithmetic *)

Lemma IsSupermajority_spec w t :
  fits 64 w -> fits 64 t -> IsSupermajority w t = true <-> 0 < t /\ 2 * t < 3 * w.
Proof.
  unfold IsSupermajority, THRESHOLD_NUM, THRESHOLD_DEN, fits. intros Hw Ht.
  destruct (Z.eqb_spec t 0) as [->|Hne]; [split; [done|lia]|].
  rewrite !wrap_id by (unfold fits; lia). rewrite Z.ltb_lt. lia.
Qed.

Lemma CheckpointRound_eq h :
  0 <= h -> CheckpointRound h = (h mod EPOCH_BLOCKS) / CHECKPOINT_INTERVAL.
Proof.
  intros Hh. apply wrap_id. unfold fits.
  change EPOCH_BLOCKS with 480. change CHECKPOINT_INTERVAL with 20.
  pose proof (Z.mod_pos_bound h 480). pose proof (Z.div_pos (h mod 480) 20).
  pose proof (Z.div_le_upper_bound (h mod 480) 20 24). lia.
Qed.

(** An epoch and a round name one scheduled checkpoint. *)
Lemma checkpoint_determined h h' :
  0 <= h -> 0 <= h' -> IsScheduledCheckpoint h = true -> IsScheduledCheckpoint h' = true ->
  EpochOf h = EpochOf h' -> CheckpointRound h = CheckpointRound h' -> h = h'.
Proof.
  intros Hh Hh' S1 S2. rewrite !CheckpointRound_eq by done. unfold EpochOf, IsScheduledCheckpoint in *.
  change EPOCH_BLOCKS with 480. change CHECKPOINT_INTERVAL with 20 in *.
  bool_hyps. rewrite !Z.eqb_eq in *. intros E R.
  pose proof (Z.div_mod h 480). pose proof (Z.div_mod h' 480).
  pose proof (Z.div_mod h 20). pose proof (Z.div_mod h' 20).
  pose proof (Z.div_mod (h mod 480) 20). pose proof (Z.div_mod (h' mod 480) 20).
  pose proof (Z.mod_pos_bound (h mod 480) 20). pose proof (Z.mod_pos_bound (h' mod 480) 20). lia.
Qed.

(** ** Lemmas: well-formed snapshots *)

Definition commit_lt (a b : SnapshotEntry) : Prop := lex_lt (pubkey_commit a) (pubkey_commit b) = true.

#[global] Instance commit_lt_trans : Transitive commit_lt.
Proof. intros a b c. apply lex_lt_trans. Qed.

(** What [SnapshotWellFormed] asks of one entry by itself. *)
Definition member_ok (e : SnapshotEntry) : Prop := entry_ok None e = true.

Definition commit_follows (prev : option Hash256) (e : SnapshotEntry) : Prop :=
  match prev with Some p => lex_lt p (pubkey_commit e) = true | None => True end.

Lemma entry_ok_iff prev e : entry_ok prev e = true <-> member_ok e /\ commit_follows prev e.
Proof.
  unfold member_ok, entry_ok, commit_follows. rewrite andb_true_r, andb_true_iff.
  destruct prev; intuition.
Qed.

Lemma member_ok_iff e :
  member_ok e <-> weight e = BOND_PER_KEY_UNITS /\ address e <> [] /\ size (pubkey_hex e) = 3904
                  /\ PubkeyCommit (pubkey_hex e) = pubkey_commit e.
Proof.
  unfold member_ok, entry_ok. rewrite andb_true_r, !andb_true_iff, negb_true_iff, !Z.eqb_eq.
  rewrite bool_decide_eq_true, bool_decide_eq_false. tauto.
Qed.

Lemma member_weight e : member_ok e -> weight e = BOND_PER_KEY_UNITS.
Proof. intros H. by apply member_ok_iff in H as (? & _). Qed.

Lemma member_commit e : member_ok e -> PubkeyCommit (pubkey_hex e) = pubkey_commit e.
Proof. intros H. by apply member_ok_iff in H as (_ & _ & _ & ?). Qed.

Lemma snapshot_loop_spec prev es sum t :
  snapshot_loop prev es sum = Some t <->
  Forall member_ok es /\ StronglySorted commit_lt es
  /\ (forall e, head es = Some e -> commit_follows prev e)
  /\ t = foldl (fun t e => u64 (t + weight e)) sum es.
Proof.
  revert prev sum. induction es as [|e es IH]; intros prev sum; cbn [snapshot_loop foldl].
  { split.
    - intros [= <-]. repeat split; [constructor..|done].
    - intros (_ & _ & _ & ->). done. }
  destruct (entry_ok prev e) eqn:E.
  - apply entry_ok_iff in E as [Hm Hf]. rewrite IH, Forall_cons. split.
    + intros (Ha & Hs & Hh & Ht). repeat split; try done.
      * constructor; [done|]. destruct es as [|e' es]; [constructor|].
        specialize (Hh _ eq_refl). constructor; [exact Hh|].
        apply StronglySorted_inv in Hs as [_ Hs]. eapply Forall_impl; [exact Hs|].
        intros x Hx. by apply (lex_lt_trans _ (pubkey_commit e')).
      * by intros ? [= <-].
    + intros ([_ Ha] & Hs & _ & Ht). apply StronglySorted_inv in Hs as [Hs Hf']. repeat split; try done.
      intros x Hx. destruct es as [|e' es]; [done|]. injection Hx as <-. by apply Forall_inv in Hf'.
  - split; [done|]. intros (Ha & _ & Hh & _). apply Forall_cons in Ha as [Hm _].
    assert (E' : entry_ok prev e = true) by (apply entry_ok_iff; auto). congruence.
Qed.

Lemma fold_weights_const es sum :
  Forall member_ok es -> 0 <= sum -> sum + BOND_PER_KEY_UNITS * size es < 2 ^ 64 ->
  foldl (fun t e => u64 (t + weight e)) sum es = sum + BOND_PER_KEY_UNITS * size es.
Proof.
  unfold size. change BOND_PER_KEY_UNITS with 1000000000000.
  intros H. revert sum. induction H as [|e es He Hes IH]; intros sum H0 Hb.
  { cbn. lia. }
  cbn [foldl length] in *. rewrite (member_weight e He). change BOND_PER_KEY_UNITS with 1000000000000.
  rewrite wrap_id by (unfold fits; lia). rewrite IH by lia. lia.
Qed.

(** The validator sets the carrier budget can represent. *)
Definition representable (s : EpochSnapshot) : Prop :=
  size (entries s) <= MAX_FINALITY_VALIDATOR_COUNT.

Lemma SnapshotWellFormed_iff s :
  SnapshotWellFormed s = true <->
  Forall member_ok (entries s) /\ StronglySorted commit_lt (entries s)
  /\ foldl (fun t e => u64 (t + weight e)) 0 (entries s) = total_weight s
  /\ SnapshotRoot (entries s) (epoch_id s) (snapshot_height s) (total_weight s) = root s.
Proof.
  unfold SnapshotWellFormed. destruct (snapshot_loop None (entries s) 0) as [t|] eqn:E.
  - apply snapshot_loop_spec in E as (Ha & Hs & _ & ->).
    destruct (Z.eqb_spec (foldl (fun t e => u64 (t + weight e)) 0 (entries s)) (total_weight s))
      as [Ht|Ht]; cbn [negb].
    + rewrite bool_decide_eq_true. tauto.
    + split; [done|]. intros (_ & _ & Ht' & _). by destruct (Ht Ht').
  - split; [done|]. intros (Ha & Hs & Ht & _).
    assert (E' : snapshot_loop None (entries s) 0 = Some (total_weight s)).
    { apply snapshot_loop_spec. repeat split; try done. }
    congruence.
Qed.

Lemma total_weight_eq s :
  SnapshotWellFormed s = true -> representable s ->
  total_weight s = BOND_PER_KEY_UNITS * size (entries s).
Proof.
  intros H Hr. apply SnapshotWellFormed_iff in H as (Ha & _ & <- & _).
  rewrite fold_weights_const; [lia|done|lia|].
  unfold representable, MAX_FINALITY_VALIDATOR_COUNT in Hr. change BOND_PER_KEY_UNITS with 1000000000000. lia.
Qed.

(** ** Lemmas: the signer index *)

Lemma StronglySorted_lookup_lt {A} (R : A -> A -> Prop) l i j a b :
  StronglySorted R l -> (i < j)%nat -> l !! i = Some a -> l !! j = Some b -> R a b.
Proof.
  intros Hs. revert i j. induction Hs as [|x l Hs IH Hf]; intros i j Hij Hi Hj; [done|].
  destruct j as [|j]; [lia|]. destruct i as [|i].
  - injection Hi as ->. rewrite Forall_lookup in Hf. by apply (Hf j).
  - apply (IH i j); [lia|done..].
Qed.

(** [k] splits the keys into those below [wanted] and the rest. *)
Definition splits (keys : list Hash256) (wanted : Hash256) (k : nat) : Prop :=
  forall j x, keys !! j = Some x -> lex_lt x wanted = true <-> (j < k)%nat.

Definition key_le (a b : Hash256) : Prop := lex_lt b a = false.

Lemma key_le_lt a b c : key_le a b -> lex_lt b c = true -> lex_lt a c = true.
Proof.
  unfold key_le. intros H1 H2. destruct (lex_lt a b) eqn:E; [by apply (lex_lt_trans _ b)|].
  by rewrite (lex_lt_total _ _ E H1).
Qed.

Lemma lower_bound_splits fuel keys first len wanted :
  StronglySorted key_le keys -> (first + len <= length keys)%nat -> (len <= fuel)%nat ->
  (forall j e, keys !! j = Some e -> (j < first)%nat -> lex_lt e wanted = true) ->
  (forall j e, keys !! j = Some e -> (first + len <= j)%nat -> lex_lt e wanted = false) ->
  splits keys wanted (lower_bound fuel keys first len wanted).
Proof.
  intros Hs. revert first len. induction fuel as [|fuel IH]; intros first len Hb Hf Hlo Hhi.
  { assert (len = 0%nat) as -> by lia. cbn [lower_bound]. intros j e Hj. split.
    - intros Hlt. destruct (decide (j < first)%nat); [done|].
      rewrite (Hhi j e Hj) in Hlt by lia. done.
    - by apply Hlo. }
  destruct len as [|len].
  { cbn [lower_bound]. intros j e Hj. split.
    - intros Hlt. destruct (decide (j < first)%nat); [done|].
      rewrite (Hhi j e Hj) in Hlt by lia. done.
    - by apply Hlo. }
  cbn [lower_bound]. set (half := (S len / 2)%nat).
  assert (Hhalf : (half < S len)%nat) by (apply Nat.div_lt; lia).
  destruct (lookup_lt_is_Some_2 keys (first + half)) as [m Hm]; [lia|]. rewrite Hm.
  destruct (lex_lt m wanted) eqn:Em; apply IH; try lia.
  - intros j e Hj Hlt. destruct (decide (j = first + half)%nat) as [->|]; [congruence|].
    apply (key_le_lt _ m); [|done].
    apply (StronglySorted_lookup_lt key_le keys j (first + half)); [done|lia|done..].
  - intros j e Hj Hge. apply (Hhi j e Hj). lia.
  - done.
  - intros j e Hj Hge. destruct (decide (j = first + half)%nat) as [->|]; [congruence|].
    destruct (lex_lt e wanted) eqn:Ee; [|done].
    assert (C : lex_lt m wanted = true); [|congruence].
    apply (key_le_lt _ e); [|done].
    apply (StronglySorted_lookup_lt key_le keys (first + half) j); [done|lia|done..].
Qed.

Lemma lower_bound_all keys wanted :
  StronglySorted key_le keys ->
  splits keys wanted (lower_bound (length keys) keys 0 (length keys) wanted).
Proof.
  intros Hs. apply lower_bound_splits; [done|lia|lia|lia|].
  intros j e Hj Hge. apply lookup_lt_Some in Hj. lia.
Qed.

Lemma commits_sorted es : StronglySorted commit_lt es -> StronglySorted key_le (map pubkey_commit es).
Proof.
  induction 1 as [|x l Hs IH Hf]; [constructor|]. cbn [map]. constructor; [done|].
  apply Forall_map. eapply Forall_impl; [exact Hf|]. intros y. apply lex_lt_asym.
Qed.

(** Commitments are distinct along a sorted snapshot. *)
Lemma sorted_commit_inj es i j a b :
  StronglySorted commit_lt es -> es !! i = Some a -> es !! j = Some b ->
  pubkey_commit a = pubkey_commit b -> i = j.
Proof.
  intros Hs Hi Hj E. destruct (Nat.lt_trichotomy i j) as [H|[H|H]]; [|done|]; exfalso.
  - pose proof (StronglySorted_lookup_lt _ _ _ _ _ _ Hs H Hi Hj) as C. unfold commit_lt in C.
    by rewrite E, lex_lt_irrefl in C.
  - pose proof (StronglySorted_lookup_lt _ _ _ _ _ _ Hs H Hj Hi) as C. unfold commit_lt in C.
    by rewrite E, lex_lt_irrefl in C.
Qed.

(** The binary search finds the member with the commitment, if there is one. *)
Lemma SignerIndex_spec s c i :
  StronglySorted commit_lt (entries s) ->
  SignerIndex s c = Some i <-> exists e, entries s !! i = Some e /\ pubkey_commit e = c.
Proof.
  intros Hs. unfold SignerIndex.
  set (k := lower_bound (length (entries s)) (map pubkey_commit (entries s)) 0 (length (entries s)) c).
  assert (Hk : forall j e, entries s !! j = Some e -> lex_lt (pubkey_commit e) c = true <-> (j < k)%nat).
  { intros j e Hj. unfold k. rewrite <- (length_map pubkey_commit).
    apply (lower_bound_all _ _ (commits_sorted _ Hs)). by rewrite list_lookup_fmap, Hj. }
  split.
  - destruct (entries s !! k) as [e|] eqn:E; [|done].
    case_bool_decide as Hc; [done|]. intros [= <-]. by exists e.
  - intros (e & Hi & He).
    assert (k = i) as ->.
    { destruct (Nat.lt_trichotomy k i) as [H|[H|H]]; [|done|]; exfalso.
      - destruct (entries s !! k) as [x|] eqn:Ex.
        + pose proof (StronglySorted_lookup_lt _ _ _ _ _ _ Hs H Ex Hi) as C. unfold commit_lt in C.
          rewrite He in C. apply (Hk k x Ex) in C. lia.
        + apply lookup_ge_None in Ex. apply lookup_lt_Some in Hi. lia.
      - apply (Hk i e Hi) in H. by rewrite He, lex_lt_irrefl in H. }
    rewrite Hi. case_bool_decide as Hc; [by destruct Hc|done].
Qed.

Lemma SignerIndex_lt s c i : SignerIndex s c = Some i -> (i < length (entries s))%nat.
Proof.
  unfold SignerIndex. destruct (entries s !! _) as [e|] eqn:E; [|done].
  case_bool_decide; [done|]. intros [= <-]. by apply lookup_lt_Some in E.
Qed.

(** ** Lemmas: signer bitmaps *)

Lemma byte_bit_testbit b i : byte_bit b i = Z.testbit b (Z.of_nat (i mod 8)).
Proof.
  pose proof (Nat.mod_upper_bound i 8). unfold byte_bit.
  set (k := Z.of_nat (i mod 8)). assert (Hk : 0 <= k < 8) by lia.
  rewrite Z.shiftl_1_l. rewrite wrap_id.
  2:{ split; [lia|]. apply Z.pow_lt_mono_r; lia. }
  destruct (Z.testbit b k) eqn:E.
  - rewrite negb_true_iff, Z.eqb_neq. intros C.
    assert (C' : Z.testbit (Z.land b (2 ^ k)) k = true)
      by (rewrite Z.land_spec, E, Z.pow2_bits_true by lia; done).
    by rewrite C, Z.bits_0 in C'.
  - rewrite negb_false_iff, Z.eqb_eq. apply Z.bits_inj'. intros j Hj.
    rewrite Z.land_spec, Z.bits_0. destruct (decide (j = k)) as [->|Hne]; [by rewrite E|].
    rewrite Z.pow2_bits_false by done. apply andb_false_r.
Qed.

(** The members the bitmap names, as positions in the snapshot. *)
Definition signers (s : EpochSnapshot) (bitmap : bytes) : list nat :=
  List.filter (bit_set bitmap) (seq 0 (length (entries s))).

Lemma bitmap_weight_loop_count bitmap es i w :
  Forall member_ok es -> 0 <= w -> w + BOND_PER_KEY_UNITS * size es < 2 ^ 64 ->
  bitmap_weight_loop bitmap i es w
  = w + BOND_PER_KEY_UNITS * size (List.filter (bit_set bitmap) (seq i (length es))).
Proof.
  unfold size. change BOND_PER_KEY_UNITS with 1000000000000.
  intros H. revert i w. induction H as [|e es He Hes IH]; intros i w H0 Hb; cbn [length] in *.
  { cbn. lia. }
  cbn [bitmap_weight_loop seq List.filter]. unfold bit_set at 1.
  destruct (bitmap !! (i / 8)%nat) as [b|] eqn:Eb.
  - rewrite (member_weight e He). change BOND_PER_KEY_UNITS with 1000000000000.
    destruct (byte_bit b i).
    + rewrite wrap_id by (unfold fits; lia). rewrite IH by lia. cbn [length]. lia.
    + rewrite IH by lia. done.
  - assert (Hn : forall n k, (i <= k)%nat -> List.filter (bit_set bitmap) (seq k n) = []).
    { induction n as [|n IHn]; intros k Hk; [done|]. cbn [seq List.filter].
      unfold bit_set at 1. apply lookup_ge_None in Eb.
      rewrite lookup_ge_None_2; [apply IHn; lia|].
      assert (i / 8 <= k / 8)%nat by (apply Nat.Div0.div_le_mono; lia). lia. }
    rewrite Hn by lia. cbn. lia.
Qed.

Lemma BitmapWeight_count s bitmap :
  Forall member_ok (entries s) -> representable s ->
  BitmapWeight s bitmap = BOND_PER_KEY_UNITS * size (signers s bitmap).
Proof.
  intros Ha Hr. unfold BitmapWeight. rewrite bitmap_weight_loop_count; [done|done|lia|].
  unfold representable, MAX_FINALITY_VALIDATOR_COUNT in Hr. change BOND_PER_KEY_UNITS with 1000000000000. lia.
Qed.

(** Inclusion and exclusion on one list. *)
Lemma filter_overlap {A} (f g : A -> bool) l :
  (length (List.filter f l) + length (List.filter g l)
   <= length l + length (List.filter (fun x => f x && g x) l))%nat.
Proof. induction l as [|x l IH]; [done|]. cbn. destruct (f x), (g x); cbn; lia. Qed.

Lemma elem_of_signers s bitmap i :
  i ∈ signers s bitmap <-> (i < length (entries s))%nat /\ bit_set bitmap i = true.
Proof.
  unfold signers. rewrite list_elem_of_In, filter_In, in_seq. split; intros [H1 H2]; split; try done; lia.
Qed.

(** ** The binary search is the linear scan *)

(** The scan that [SignerIndex] replaces. *)
Fixpoint linear_index (i : nat) (es : list SnapshotEntry) (commit : Hash256) : option nat :=
  match es with
  | [] => None
  | e :: es' => if bool_decide (pubkey_commit e = commit) then Some i
                else linear_index (S i) es' commit
  end.

Lemma linear_index_spec es commit i k :
  StronglySorted commit_lt es ->
  linear_index i es commit = Some k <->
  exists e, (i <= k)%nat /\ es !! (k - i)%nat = Some e /\ pubkey_commit e = commit.
Proof.
  intros Hs. revert i. induction es as [|e es IH]; intros i; cbn [linear_index].
  { split; [done|]. by intros (e & _ & H & _). }
  pose proof Hs as Hs'. apply StronglySorted_inv in Hs' as [Hs' _].
  case_bool_decide as He.
  - split.
    + intros [= <-]. exists e. by rewrite Nat.sub_diag.
    + intros (x & Hle & Hx & Hc). f_equal.
      assert (0 = k - i)%nat; [|lia].
      by apply (sorted_commit_inj (e :: es) 0 (k - i) e x Hs); [|done|rewrite He, Hc].
  - rewrite IH by done. split; intros (x & Hle & Hx & Hc).
    + exists x. split; [lia|]. by replace (k - i)%nat with (S (k - S i)) by lia.
    + destruct (k - i)%nat as [|m] eqn:Em; [injection Hx as <-; done|].
      exists x. split; [lia|]. by replace (k - S i)%nat with m by lia.
Qed.

(** On every admissible snapshot the binary search of the signer index returns
    exactly what a linear scan for the commitment returns, for members and
    non-members alike. *)
Lemma signer_index_exact s commit :
  SnapshotWellFormed s = true -> SignerIndex s commit = linear_index 0 (entries s) commit.
Proof.
  intros H. apply SnapshotWellFormed_iff in H as (_ & Hs & _ & _).
  apply option_eq. intros i. rewrite SignerIndex_spec, linear_index_spec by done.
  rewrite Nat.sub_0_r. split; intros (e & H); exists e; intuition lia.
Qed.

(** A set of one, for the examples. *)
Definition lone_entry : SnapshotEntry :=
  let key := replicate 3904 48 in mkEntry (PubkeyCommit key) b:"V" 1 BOND_PER_KEY_UNITS key.
Definition lone_set : EpochSnapshot :=
  mkSnapshot 1 479 [lone_entry] BOND_PER_KEY_UNITS (SnapshotRoot [lone_entry] 1 479 BOND_PER_KEY_UNITS).
Definition lone_qc (target : CheckpointRef) : QuorumCert :=
  mkQc 1 (root lone_set) PRECOMMIT (CheckpointRound (height target)) NullRef target [1]
    BOND_PER_KEY_UNITS.

Lemma lone_member_ok : member_ok lone_entry.
Proof.
  apply member_ok_iff. unfold lone_entry. cbn [weight address pubkey_hex pubkey_commit].
  split; [reflexivity|]. split; [discriminate|]. split; [vm_compute; reflexivity|reflexivity].
Qed.

Lemma lone_set_ok : SnapshotWellFormed lone_set = true.
Proof.
  apply SnapshotWellFormed_iff. split; [|split; [|split]].
  - apply Forall_singleton, lone_member_ok.
  - apply SSorted_cons; constructor.
  - reflexivity.
  - unfold lone_set. cbn [entries epoch_id snapshot_height total_weight root]. reflexivity.
Qed.

Lemma lone_qc_ok target :
  IsScheduledCheckpoint (height target) = true -> EpochOf (height target) = 1 ->
  QcWellFormed (lone_qc target) lone_set = true.
Proof.
  intros Hs He. unfold QcWellFormed. rewrite lone_set_ok. cbn [negb lone_qc qc_target qc_epoch_id
    qc_set_root qc_phase qc_round qc_source qc_bitmap qc_weight].
  rewrite Hs, He. case_bool_decide as Hr; [by destruct Hr|].
  rewrite (Z.eqb_refl (CheckpointRound (height target))). reflexivity.
Qed.

Lemma signer_index_exact_witness :
  SignerIndex lone_set (pubkey_commit lone_entry) = Some 0%nat /\ SignerIndex lone_set ZeroHash
  = linear_index 0 (entries lone_set) ZeroHash.
Proof.
  split.
  - rewrite (signer_index_exact lone_set (pubkey_commit lone_entry) lone_set_ok).
    cbn [linear_index lone_set entries]. by rewrite bool_decide_true.
  - apply (signer_index_exact lone_set ZeroHash lone_set_ok).
Defined.

(** ** Quorum intersection *)

Lemma QcWellFormed_inv qc s :
  QcWellFormed qc s = true ->
  SnapshotWellFormed s = true /\ qc_epoch_id qc = epoch_id s /\ qc_set_root qc = root s
  /\ (qc_phase qc = PREVOTE \/ qc_phase qc = PRECOMMIT)
  /\ IsScheduledCheckpoint (height (qc_target qc)) = true
  /\ EpochOf (height (qc_target qc)) = qc_epoch_id qc
  /\ qc_round qc = CheckpointRound (height (qc_target qc))
  /\ SourceRefWellFormed (qc_source qc) (qc_target qc) = true
  /\ size (qc_bitmap qc) = (size (entries s) + 7) / 8
  /\ stray_bits (qc_bitmap qc) (length (entries s)) = false
  /\ BitmapWeight s (qc_bitmap qc) = qc_weight qc
  /\ IsSupermajority (qc_weight qc) (total_weight s) = true.
Proof.
  unfold QcWellFormed. intros H.
  repeat match type of H with
    (if ?b then false else _) = true => destruct b eqn:?; [done|] end.
  bool_hyps. rewrite ?Z.eqb_eq in *.
  assert (Hset : qc_set_root qc = root s).
  { apply dec_stable. assumption. }
  assert (Hph : qc_phase qc = PREVOTE \/ qc_phase qc = PRECOMMIT).
  { match goal with K : (negb _ && negb _) = false |- _ => apply andb_false_iff in K;
      rewrite !negb_false_iff, !Z.eqb_eq in K; exact K end. }
  tauto.
Qed.

Lemma QcWellFormed_intro qc s :
  SnapshotWellFormed s = true -> qc_epoch_id qc = epoch_id s -> qc_set_root qc = root s ->
  (qc_phase qc = PREVOTE \/ qc_phase qc = PRECOMMIT) ->
  IsScheduledCheckpoint (height (qc_target qc)) = true ->
  EpochOf (height (qc_target qc)) = qc_epoch_id qc ->
  qc_round qc = CheckpointRound (height (qc_target qc)) ->
  SourceRefWellFormed (qc_source qc) (qc_target qc) = true ->
  size (qc_bitmap qc) = (size (entries s) + 7) / 8 ->
  (forall i, bit_set (qc_bitmap qc) i = true -> (i < length (entries s))%nat) ->
  BitmapWeight s (qc_bitmap qc) = qc_weight qc ->
  IsSupermajority (qc_weight qc) (total_weight s) = true -> QcWellFormed qc s = true.
Proof.
  intros Hs He Hr Hp Hc Hep Hrd Hsrc Hsz Hbits Hw Hm.
  assert (Hst : stray_bits (qc_bitmap qc) (length (entries s)) = false).
  { unfold stray_bits. apply not_true_iff_false. rewrite existsb_exists. intros (i & Hin & Hb).
    apply in_seq in Hin. apply Hbits in Hb. lia. }
  unfold QcWellFormed. rewrite Hs, He, Z.eqb_refl, Hc. cbn [negb].
  rewrite bool_decide_false by (intros C; by destruct C). rewrite <- He, Hep, Z.eqb_refl.
  rewrite Hrd, Z.eqb_refl, Hsrc, Hsz, Z.eqb_refl, Hst, Hw, Z.eqb_refl. cbn [negb].
  rewrite Hm. destruct Hp as [->| ->]; reflexivity.
Qed.

(** Two quorums over one set overlap in more than a third of it. *)
Lemma quorum_overlap qc1 qc2 s :
  QcWellFormed qc1 s = true -> QcWellFormed qc2 s = true -> representable s ->
  size (entries s)
  < 3 * size (List.filter (fun i => bit_set (qc_bitmap qc1) i && bit_set (qc_bitmap qc2) i)
                          (seq 0 (length (entries s)))).
Proof.
  intros H1 H2 Hr. apply QcWellFormed_inv in H1, H2.
  destruct H1 as (Hs & _ & _ & _ & _ & _ & _ & _ & _ & _ & W1 & M1).
  destruct H2 as (_ & _ & _ & _ & _ & _ & _ & _ & _ & _ & W2 & M2).
  pose proof Hs as Hf. apply SnapshotWellFormed_iff in Hf as (Hm & _).
  rewrite <- W1, BitmapWeight_count, total_weight_eq in M1 by done.
  rewrite <- W2, BitmapWeight_count, total_weight_eq in M2 by done.
  pose proof (filter_overlap (bit_set (qc_bitmap qc1)) (bit_set (qc_bitmap qc2))
                (seq 0 (length (entries s)))) as Ho.
  assert (Hle : forall f, (length (List.filter f (seq 0 (length (entries s)))) <= length (entries s))%nat).
  { intros f. rewrite <- (length_seq (length (entries s)) 0) at 2. apply filter_length_le. }
  pose proof (Hle (bit_set (qc_bitmap qc1))). pose proof (Hle (bit_set (qc_bitmap qc2))).
  rewrite length_seq in Ho. unfold representable, MAX_FINALITY_VALIDATOR_COUNT, signers, size in *.
  change BOND_PER_KEY_UNITS with 1000000000000 in *.
  apply IsSupermajority_spec in M1; [|unfold fits; lia..].
  apply IsSupermajority_spec in M2; [|unfold fits; lia..]. lia.
Qed.

(** Quorum intersection.  Two valid certificates over the same frozen
    validator set share members carrying strictly more than one third of the total
    bond, so at least one member signed both. *)
Lemma quorum_intersection qc1 qc2 s :
  QcWellFormed qc1 s = true -> QcWellFormed qc2 s = true -> representable s ->
  exists common : list nat,
    NoDup common
    /\ (forall i, i ∈ common <-> i ∈ signers s (qc_bitmap qc1) /\ i ∈ signers s (qc_bitmap qc2))
    /\ total_weight s < 3 * (BOND_PER_KEY_UNITS * size common)
    /\ common <> [].
Proof.
  intros H1 H2 Hr. pose proof (quorum_overlap qc1 qc2 s H1 H2 Hr) as Ho.
  exists (List.filter (fun i => bit_set (qc_bitmap qc1) i && bit_set (qc_bitmap qc2) i)
            (seq 0 (length (entries s)))).
  split; [|split; [|split]]; [| |rewrite total_weight_eq|].
  - apply NoDup_ListNoDup. apply List.NoDup_filter, seq_NoDup.
  - intros i. rewrite !elem_of_signers, list_elem_of_In, filter_In, in_seq, andb_true_iff.
    intuition lia.
  - change BOND_PER_KEY_UNITS with 1000000000000. lia.
  - apply (QcWellFormed_inv qc1 s H1).
  - done.
  - intros E. rewrite E in Ho. unfold size in Ho. cbn in Ho. lia.
Qed.

Lemma quorum_intersection_witness :
  exists common : list nat, common <> []
    /\ forall i, i ∈ common <-> i ∈ signers lone_set [1] /\ i ∈ signers lone_set [1].
Proof.
  destruct (quorum_intersection (lone_qc (mkRef 500 ZeroHash)) (lone_qc (mkRef 520 ZeroHash)) lone_set)
    as (common & _ & Hc & _ & Hne).
  - apply lone_qc_ok; reflexivity.
  - apply lone_qc_ok; reflexivity.
  - unfold representable, size. cbn [entries lone_set length]. vm_compute. discriminate.
  - exists common. split; [exact Hne|exact Hc].
Defined.

(** ** The signed preimage *)

Definition wf_ref (c : CheckpointRef) : Prop := fits 64 (height c) /\ is_hash (hash c).

#[global] Instance wf_ref_dec c : Decision (wf_ref c).
Proof. unfold wf_ref. apply _. Defined.

Lemma ref_bytes_app_inj a b r s :
  wf_ref a -> wf_ref b -> ref_bytes a ++ r = ref_bytes b ++ s -> a = b /\ r = s.
Proof.
  destruct a as [ha xa], b as [hb xb]. intros [Ha [La _]] [Hb [Lb _]] E. unfold ref_bytes, put_bytes in E.
  rewrite <- !app_assoc in E. cbn [height hash] in *.
  apply put_u64_le_app_inj in E as [-> E]; [|done..].
  apply app_inv_len in E as [-> ->]; [done|congruence].
Qed.

(** The signed bytes determine the vote.  Equal preimages mean the same network
    byte, genesis, epoch, validator set, phase, round, source and target, so a
    signature cannot be replayed on another chain, epoch, set, phase, round or
    checkpoint. *)
Lemma vote_preimage_injective net gen ep set ph rd src tgt net' gen' ep' set' ph' rd' src' tgt' :
  fits 32 net -> fits 32 net' -> is_hash gen -> is_hash gen' -> fits 64 ep -> fits 64 ep' ->
  is_hash set -> is_hash set' -> fits 32 rd -> fits 32 rd' ->
  wf_ref src -> wf_ref src' -> wf_ref tgt -> wf_ref tgt' ->
  VotePreimage net gen ep set ph rd src tgt = VotePreimage net' gen' ep' set' ph' rd' src' tgt' ->
  net = net' /\ gen = gen' /\ ep = ep' /\ set = set' /\ ph = ph' /\ rd = rd'
  /\ src = src' /\ tgt = tgt'.
Proof.
  intros Hn Hn' [Hg _] [Hg' _] He He' [Hs _] [Hs' _] Hr Hr' Hsr Hsr' Ht Ht' E.
  unfold VotePreimage in E. apply app_inv_head in E. unfold put_bytes, put_u8 in E.
  apply put_u32_le_app_inj in E as [-> E]; [|done..].
  apply app_inv_len in E as [-> E]; [|congruence].
  apply put_u64_le_app_inj in E as [-> E]; [|done..].
  apply app_inv_len in E as [-> E]; [|congruence].
  apply app_inv_len in E as [Eph E]; [|done]. injection Eph as ->.
  apply put_u32_le_app_inj in E as [-> E]; [|done..].
  apply ref_bytes_app_inj in E as [-> E]; [|done..].
  rewrite <- (app_nil_r (ref_bytes tgt)), <- (app_nil_r (ref_bytes tgt')) in E.
  apply ref_bytes_app_inj in E as [-> _]; [|done..]. tauto.
Qed.

Lemma vote_preimage_injective_witness :
  VotePreimage 0x4D ZeroHash 1 ZeroHash PREVOTE 1 NullRef (mkRef 500 ZeroHash)
  <> VotePreimage 0x54 ZeroHash 1 ZeroHash PREVOTE 1 NullRef (mkRef 500 ZeroHash).
Proof.
  intros E. apply vote_preimage_injective in E; [destruct E as [E _]; discriminate E|..];
    apply (bool_decide_unpack _); vm_compute; exact I.
Defined.
