(* ===== verification/FinalitySnapshot.v ===== *)
(** * Epoch snapshots from the registry ([consensus/finality_snapshot.h])

    Which validator records qualify at a snapshot height, and the construction of
    the frozen, canonically ordered set from the registry's records.  The file ends
    with a sample set of seven validators that the examples of the finality files
    share. *)
From S2P Require Import Prelude Bytes Sha256 Profile StateDigest FinalityQc.
From Stdlib Require Import Sorting.Sorted.

(** ** The construction *)

Record ValidatorRecord := mkValidator {
  v_pubkey_hex : bytes;
  v_address : bytes;
  v_registered_height : Z;
  v_active : bool;
  v_slashed : bool;
  v_slashed_equivocation : bool;
  v_slashed_at_height : Z;
  v_bond_custodial : bool;
  v_bond_units : Z;
  v_deregistered_at_height : Z;
  v_last_finality_vote_height : Z;
  v_principal_settled_at : Z
}.

Definition QualifiedAt (r : ValidatorRecord) (snapshot_height : Z) : bool :=
  if negb (v_bond_custodial r) then false
  else if v_bond_units r <? BOND_PER_KEY_UNITS then false
  else if v_registered_height r =? 0 then false
  else if (snapshot_height <? v_registered_height r)
          || (u64 (snapshot_height - v_registered_height r) <? REGISTRATION_MATURITY) then false
  else if v_slashed r && negb (v_slashed_at_height r =? 0)
          && (v_slashed_at_height r <=? snapshot_height) then false
  else if v_slashed r && (v_slashed_at_height r =? 0) then false
  else if negb (v_deregistered_at_height r =? 0)
          && (v_deregistered_at_height r <=? snapshot_height) then false
  else if negb (v_active r) then false
  else true.

Definition entry_of (r : ValidatorRecord) : SnapshotEntry :=
  mkEntry (PubkeyCommit (v_pubkey_hex r)) (v_address r) (v_registered_height r)
    BOND_PER_KEY_UNITS (v_pubkey_hex r).

(** [std::sort] by commitment. *)
Fixpoint insert_entry (e : SnapshotEntry) (l : list SnapshotEntry) : list SnapshotEntry :=
  match l with
  | [] => [e]
  | x :: l' => if lex_lt (pubkey_commit x) (pubkey_commit e) then x :: insert_entry e l' else e :: l
  end.
Definition sort_entries (l : list SnapshotEntry) : list SnapshotEntry := foldr insert_entry [] l.

(** [std::unique] by commitment: an entry equal to the last kept one is dropped. *)
Fixpoint unique_after (last : SnapshotEntry) (l : list SnapshotEntry) : list SnapshotEntry :=
  match l with
  | [] => []
  | y :: l' => if bool_decide (pubkey_commit last = pubkey_commit y) then unique_after last l'
               else y :: unique_after y l'
  end.
Definition unique_entries (l : list SnapshotEntry) : list SnapshotEntry :=
  match l with [] => [] | x :: l' => x :: unique_after x l' end.

Definition BuildEpochSnapshot (records : list ValidatorRecord) (epoch_id snapshot_height : Z)
  : EpochSnapshot :=
  let es := unique_entries (sort_entries
              (map entry_of (filter (fun r => QualifiedAt r snapshot_height) records))) in
  let total := foldl (fun t e => u64 (t + weight e)) 0 es in
  mkSnapshot epoch_id snapshot_height es total (SnapshotRoot es epoch_id snapshot_height total).

Definition SnapshotQualifies (s : EpochSnapshot) : bool := SnapshotWellFormed s && Qualified s.

(** ** Lemmas: sorting and deduplication *)

Definition commit_le (a b : SnapshotEntry) : Prop := lex_lt (pubkey_commit b) (pubkey_commit a) = false.

Lemma commit_le_trans a b c : commit_le a b -> commit_le b c -> commit_le a c.
Proof.
  unfold commit_le. intros H1 H2. destruct (lex_lt (pubkey_commit c) (pubkey_commit a)) eqn:E; [|done].
  destruct (lex_lt (pubkey_commit c) (pubkey_commit b)) eqn:E'; [done|].
  destruct (lex_lt (pubkey_commit b) (pubkey_commit c)) eqn:E''.
  - pose proof (lex_lt_trans _ _ _ E'' E). congruence.
  - rewrite (lex_lt_total _ _ E' E'') in E. congruence.
Qed.

Lemma insert_entry_perm e l : Permutation (e :: l) (insert_entry e l).
Proof.
  induction l as [|x l IH]; [done|]. cbn [insert_entry].
  destruct (lex_lt (pubkey_commit x) (pubkey_commit e)); [|done].
  etransitivity; [apply Permutation_swap|]. by apply Permutation_skip.
Qed.

Lemma sort_entries_perm l : Permutation l (sort_entries l).
Proof.
  induction l as [|x l IH]; [done|]. cbn [sort_entries foldr].
  etransitivity; [|apply insert_entry_perm]. by apply Permutation_skip.
Qed.

Lemma insert_entry_sorted e l :
  StronglySorted commit_le l -> StronglySorted commit_le (insert_entry e l).
Proof.
  induction 1 as [|x l Hs IH Hf]; cbn [insert_entry]; [by repeat constructor|].
  destruct (lex_lt (pubkey_commit x) (pubkey_commit e)) eqn:E.
  - constructor; [done|]. eapply Permutation_Forall; [apply insert_entry_perm|].
    constructor; [|done]. unfold commit_le. by apply lex_lt_asym.
  - constructor; [by constructor|]. constructor; [done|].
    eapply Forall_impl; [exact Hf|]. intros y. by apply commit_le_trans.
Qed.

Lemma sort_entries_sorted l : StronglySorted commit_le (sort_entries l).
Proof.
  induction l as [|x l IH]; [constructor|]. cbn [sort_entries foldr]. by apply insert_entry_sorted.
Qed.

(** After deduplication the order is strict and nothing new appears. *)
Lemma unique_after_spec last l :
  StronglySorted commit_le l -> Forall (commit_le last) l ->
  StronglySorted commit_lt (unique_after last l) /\ Forall (commit_lt last) (unique_after last l)
  /\ forall e, e ∈ unique_after last l -> e ∈ l.
Proof.
  intros Hs. revert last. induction Hs as [|y l Hs IH Hf]; intros last Hl; cbn [unique_after].
  { repeat split; try constructor. done. }
  apply Forall_cons in Hl as [Hy Hl]. case_bool_decide as E.
  - destruct (IH last Hl) as (H1 & H2 & H3). repeat split; [done..|].
    intros e He. right. by apply H3.
  - destruct (IH y Hf) as (H1 & H2 & H3).
    assert (Hlt : commit_lt last y).
    { unfold commit_lt. destruct (lex_lt (pubkey_commit last) (pubkey_commit y)) eqn:E'; [done|].
      destruct E. symmetry. by apply lex_lt_total. }
    repeat split.
    + by constructor.
    + constructor; [done|]. eapply Forall_impl; [exact H2|]. intros z Hz. by transitivity y.
    + intros e He. apply elem_of_cons in He as [->|He]; [left|right; by apply H3].
Qed.

Lemma unique_entries_spec l :
  StronglySorted commit_le l ->
  StronglySorted commit_lt (unique_entries l) /\ forall e, e ∈ unique_entries l -> e ∈ l.
Proof.
  intros Hs. destruct Hs as [|x l Hs Hf]; [by split; [constructor|]|]. cbn [unique_entries].
  destruct (unique_after_spec x l Hs Hf) as (H1 & H2 & H3). split; [by constructor|].
  intros e He. apply elem_of_cons in He as [->|He]; [left|right; by apply H3].
Qed.

(** Distinct commitments: nothing is dropped. *)
Lemma unique_after_id last l :
  NoDup (map pubkey_commit (last :: l)) -> unique_after last l = l.
Proof.
  revert last. induction l as [|y l IH]; intros last Hn; [done|]. cbn [unique_after map] in *.
  apply NoDup_cons in Hn as [Hni Hn]. rewrite bool_decide_false.
  - f_equal. by apply IH.
  - intros E. apply Hni. rewrite E. left.
Qed.

Lemma unique_entries_id l : NoDup (map pubkey_commit l) -> unique_entries l = l.
Proof. destruct l as [|x l]; [done|]. intros H. cbn [unique_entries]. f_equal. by apply unique_after_id. Qed.

(** Two strictly sorted arrangements of one multiset are equal. *)
Lemma strictly_sorted_unique l l' :
  StronglySorted commit_lt l -> StronglySorted commit_lt l' -> Permutation l l' -> l = l'.
Proof.
  intros Hs. revert l'. induction Hs as [|x l Hs IH Hf]; intros l' Hs' Hp.
  { by apply Permutation_nil_l in Hp. }
  destruct Hs' as [|y l' Hs' Hf']; [by apply Permutation_nil_r in Hp|].
  assert (x = y) as ->.
  { assert (Hx : x ∈ y :: l') by (rewrite <- Hp; left).
    assert (Hy : y ∈ x :: l) by (rewrite Hp; left).
    apply elem_of_cons in Hx as [->|Hx]; [done|]. apply elem_of_cons in Hy as [->|Hy]; [done|].
    rewrite Forall_forall in Hf, Hf'. specialize (Hf y Hy). specialize (Hf' x Hx).
    unfold commit_lt in *. rewrite (lex_lt_asym _ _ Hf) in Hf'. done. }
  f_equal. apply IH; [done|]. by apply Permutation_cons_inv in Hp.
Qed.

(** ** The registry and its snapshot *)

(** What the registry guarantees of its records: one per key, a key commitment each,
    an address, and a full-length key. *)
Definition registry_ok (records : list ValidatorRecord) : Prop :=
  NoDup (map (fun r => PubkeyCommit (v_pubkey_hex r)) records)
  /\ Forall (fun r => v_address r <> [] /\ size (v_pubkey_hex r) = 3904) records.

Definition qualified_records (records : list ValidatorRecord) (h : Z) : list ValidatorRecord :=
  filter (fun r => QualifiedAt r h) records.

Lemma registry_ok_qualified records h :
  registry_ok records ->
  NoDup (map pubkey_commit (map entry_of (qualified_records records h)))
  /\ Forall member_ok (map entry_of (qualified_records records h)).
Proof.
  intros [Hn Hf]. split.
  - rewrite map_map. cbn [entry_of pubkey_commit]. unfold qualified_records.
    induction records as [|r records IH]; [constructor|]. cbn [map] in Hn.
    apply NoDup_cons in Hn as [Hni Hn]. apply Forall_cons in Hf as [_ Hf].
    rewrite filter_cons. destruct (decide (QualifiedAt r h)); [|by apply IH].
    cbn [map]. apply NoDup_cons. split; [|by apply IH].
    intros Hin. apply Hni. apply list_elem_of_fmap in Hin as (x & -> & Hx).
    apply list_elem_of_filter in Hx as [_ Hx]. apply list_elem_of_fmap. by exists x.
  - apply Forall_map, Forall_forall. intros r Hr. apply list_elem_of_filter in Hr as [_ Hr].
    rewrite Forall_forall in Hf. destruct (Hf r Hr) as [Ha Hk]. apply member_ok_iff.
    unfold entry_of. cbn [weight address pubkey_hex pubkey_commit]. auto.
Qed.

(** The entries are the one strictly sorted arrangement of the qualified records. *)
Lemma BuildEpochSnapshot_entries records ep h :
  registry_ok records ->
  let es := entries (BuildEpochSnapshot records ep h) in
  StronglySorted commit_lt es /\ Permutation (map entry_of (qualified_records records h)) es.
Proof.
  intros Hr. cbn [BuildEpochSnapshot entries]. fold (qualified_records records h).
  set (l := map entry_of (qualified_records records h)).
  destruct (registry_ok_qualified records h Hr) as [Hn _].
  split; [apply unique_entries_spec, sort_entries_sorted|].
  rewrite unique_entries_id; [apply sort_entries_perm|].
  by rewrite <- (Permutation_map pubkey_commit (sort_entries_perm l)).
Qed.

Lemma registry_ok_perm records records' :
  registry_ok records -> Permutation records records' -> registry_ok records'.
Proof.
  intros [Hn Hf] Hp. split; [|by rewrite <- Hp].
  by rewrite <- (Permutation_map _ Hp).
Qed.

Lemma BuildEpochSnapshot_ok records ep h :
  registry_ok records -> SnapshotWellFormed (BuildEpochSnapshot records ep h) = true.
Proof.
  intros Hr. destruct (BuildEpochSnapshot_entries records ep h Hr) as [Hs Hp].
  destruct (registry_ok_qualified records h Hr) as [_ Hm].
  apply SnapshotWellFormed_iff. split; [|split; [done|split; reflexivity]].
  by rewrite <- Hp.
Qed.

Lemma BuildEpochSnapshot_qualifies records ep h :
  registry_ok records ->
  SnapshotQualifies (BuildEpochSnapshot records ep h) = true
  <-> MIN_VALIDATOR_COUNT <= size (qualified_records records h) <= MAX_FINALITY_VALIDATOR_COUNT.
Proof.
  intros Hr. pose proof (BuildEpochSnapshot_ok records ep h Hr) as Hok.
  destruct (BuildEpochSnapshot_entries records ep h Hr) as [_ He].
  set (s := BuildEpochSnapshot records ep h) in *.
  assert (Hn : size (entries s) = size (qualified_records records h)).
  { unfold size. rewrite <- He. by rewrite length_map. }
  unfold SnapshotQualifies, Qualified. rewrite Hok, Hn. cbn [andb].
  rewrite !andb_true_iff, !Z.leb_le. split; [tauto|]. intros Hb.
  split; [done|]. rewrite total_weight_eq; [|done|unfold representable; lia].
  rewrite Hn. unfold TOTAL_BOND_FLOOR. change BOND_PER_KEY_UNITS with 1000000000000. lia.
Qed.

(** The epoch snapshot is canonical.  Whatever order the registry's hash table
    yields its records in, the snapshot is the same; it is well formed, its members
    are exactly the records qualified at the snapshot height, each with the capped
    weight, and it qualifies exactly when their number lies between the floor of
    seven and the carrier ceiling. *)
Lemma snapshot_canonical records records' ep h :
  registry_ok records -> Permutation records records' ->
  let s := BuildEpochSnapshot records ep h in
  let n := size (qualified_records records h) in
  BuildEpochSnapshot records' ep h = s /\ SnapshotWellFormed s = true
  /\ (forall e, e ∈ entries s <-> exists r, r ∈ records /\ QualifiedAt r h = true /\ e = entry_of r)
  /\ (SnapshotQualifies s = true <-> MIN_VALIDATOR_COUNT <= n <= MAX_FINALITY_VALIDATOR_COUNT).
Proof.
  intros Hr Hp s n. pose proof (BuildEpochSnapshot_ok records ep h Hr) as Hok. fold s in Hok.
  destruct (BuildEpochSnapshot_entries records ep h Hr) as [Hs He]. fold s in Hs, He.
  split; [|split; [done|split]].
  - destruct (BuildEpochSnapshot_entries records' ep h) as [Hs' He'];
      [by eapply registry_ok_perm|].
    assert (E : entries (BuildEpochSnapshot records' ep h) = entries s).
    { apply strictly_sorted_unique; [done..|]. rewrite <- He', <- He.
      apply Permutation_map. unfold qualified_records. by rewrite Hp. }
    unfold s, BuildEpochSnapshot in *. cbn [entries] in E. by rewrite E.
  - intros e. rewrite <- He, list_elem_of_fmap. split.
    + intros (r & -> & Hin). apply list_elem_of_filter in Hin as [Hq Hin].
      exists r. split; [exact Hin|]. split; [by apply Is_true_true|reflexivity].
    + intros (r & Hin & Hq & ->). exists r. split; [reflexivity|].
      apply list_elem_of_filter. split; [by apply Is_true_true|exact Hin].
  - apply BuildEpochSnapshot_qualifies, Hr.
Qed.

(** ** Root binding *)

Definition wf_set (s : EpochSnapshot) : Prop :=
  fits 64 (epoch_id s) /\ fits 64 (snapshot_height s) /\ representable s
  /\ Forall (fun e => size (address e) < 2 ^ 32 /\ fits 64 (registered_height e)) (entries s).

Lemma snapshot_entry_bytes_inj a b r r' :
  member_ok a -> member_ok b -> size (address a) < 2 ^ 32 -> size (address b) < 2 ^ 32 ->
  fits 64 (registered_height a) -> fits 64 (registered_height b) ->
  snapshot_entry_bytes a ++ r = snapshot_entry_bytes b ++ r' ->
  pubkey_commit a = pubkey_commit b /\ address a = address b
  /\ registered_height a = registered_height b /\ r = r'.
Proof.
  intros Ha Hb Sa Sb Fa Fb E. unfold snapshot_entry_bytes in E. rewrite <- !app_assoc in E.
  unfold put_bytes in E. apply app_inv_len in E as [Ec E].
  2:{ rewrite <- (member_commit a Ha), <- (member_commit b Hb).
      transitivity 32%nat; [|symmetry]; apply sha256_hash. }
  apply put_len_prefixed_inj in E as [Ead E]; [|done..].
  apply put_u64_le_app_inj in E as [Er E]; [|done..].
  apply app_inv_len in E as [_ E]; [done|]. unfold put_u64_le. by rewrite !length_put_le.
Qed.

Lemma snapshot_entries_inj l l' :
  Forall member_ok l -> Forall member_ok l' ->
  Forall (fun e => size (address e) < 2 ^ 32 /\ fits 64 (registered_height e)) l ->
  Forall (fun e => size (address e) < 2 ^ 32 /\ fits 64 (registered_height e)) l' ->
  length l = length l' ->
  (forall e e', e ∈ l -> e' ∈ l' ->
     collision_free (DOMAIN_PUBKEY ++ pubkey_hex e) (DOMAIN_PUBKEY ++ pubkey_hex e')) ->
  concat (map snapshot_entry_bytes l) = concat (map snapshot_entry_bytes l') -> l = l'.
Proof.
  intros Hm. revert l'. induction Hm as [|a l Ha Hm IH]; intros [|b l'] Hm' Hw Hw' Hl Hc E; try done.
  apply Forall_cons in Hm' as [Hb Hm']. apply Forall_cons in Hw as [[Sa Fa] Hw].
  apply Forall_cons in Hw' as [[Sb Fb] Hw']. cbn [map concat] in E.
  apply snapshot_entry_bytes_inj in E as (Ec & Ead & Er & E); [|done..].
  assert (Ek : pubkey_hex a = pubkey_hex b).
  { rewrite <- (member_commit a Ha), <- (member_commit b Hb) in Ec.
    apply (Hc a b) in Ec; [|left..]. by apply app_inv_head in Ec. }
  f_equal.
  - pose proof (member_weight a Ha). pose proof (member_weight b Hb).
    destruct a, b. cbn in *. congruence.
  - apply IH; [done..|cbn in Hl; lia| |done]. intros e e' He He'. apply Hc; by right.
Qed.

(** A set root names one validator set.  Two well-formed snapshots with the same
    root are the same snapshot, keys included, unless SHA-256 collides on the two
    snapshot bodies or on two of the keys. *)
Lemma snapshot_root_binding s s' :
  SnapshotWellFormed s = true -> SnapshotWellFormed s' = true -> wf_set s -> wf_set s' ->
  collision_free
    (DOMAIN_SNAPSHOT ++ snapshot_body (entries s) (epoch_id s) (snapshot_height s) (total_weight s))
    (DOMAIN_SNAPSHOT ++ snapshot_body (entries s') (epoch_id s') (snapshot_height s') (total_weight s')) ->
  (forall e e', e ∈ entries s -> e' ∈ entries s' ->
     collision_free (DOMAIN_PUBKEY ++ pubkey_hex e) (DOMAIN_PUBKEY ++ pubkey_hex e')) ->
  root s = root s' -> s = s'.
Proof.
  intros Hs Hs' (Fe & Fh & Hr & Hw) (Fe' & Fh' & Hr' & Hw') Hc Hk E.
  pose proof (total_weight_eq s Hs Hr) as Ht. pose proof (total_weight_eq s' Hs' Hr') as Ht'.
  apply SnapshotWellFormed_iff in Hs as (Hm & _ & _ & Hroot).
  apply SnapshotWellFormed_iff in Hs' as (Hm' & _ & _ & Hroot').
  pose proof E as E0. rewrite <- Hroot, <- Hroot' in E. apply Hc in E. apply app_inv_head in E.
  assert (Hn : forall x, size (entries x) <= MAX_FINALITY_VALIDATOR_COUNT ->
            fits 64 (size (entries x)) /\ fits 64 (BOND_PER_KEY_UNITS * size (entries x))).
  { intros x Hx. unfold MAX_FINALITY_VALIDATOR_COUNT in Hx. unfold fits, size in *.
    change BOND_PER_KEY_UNITS with 1000000000000. lia. }
  destruct (Hn s Hr) as [Hn1 Hn2]. destruct (Hn s' Hr') as [Hn1' Hn2'].
  unfold snapshot_body in E. rewrite Ht, Ht' in E.
  apply put_u64_le_app_inj in E as [Ee E]; [|done..].
  apply put_u64_le_app_inj in E as [Eh E]; [|done..].
  apply put_u64_le_app_inj in E as [En E]; [|done..].
  apply put_u64_le_app_inj in E as [_ E]; [|done..].
  unfold size in En. apply snapshot_entries_inj in E; [|done..|lia|done].
  destruct s, s'. cbn in *. congruence.
Qed.

(** ** A sample set of seven *)

(** The keys share all but their last character, so the hash state over the shared
    prefix is computed once. *)
Definition sample_prefix : bytes := DOMAIN_PUBKEY ++ replicate 3880 48.
Definition sample_tail (i : Z) : bytes := replicate 23 48 ++ [48 + i].
Definition sample_key (i : Z) : bytes := replicate 3880 48 ++ sample_tail i.

Definition sample_mid : Sha256.t := Eval vm_compute in Sha256.update Sha256.reset sample_prefix.

Lemma sample_mid_eq : Sha256.update Sha256.reset sample_prefix = sample_mid.
Proof. vm_compute. reflexivity. Qed.

Definition sample_commit (i : Z) : Hash256 :=
  fst (Sha256.finalize (Sha256.update sample_mid (sample_tail i))).

Lemma sample_commit_eq i : PubkeyCommit (sample_key i) = sample_commit i.
Proof.
  unfold PubkeyCommit, sha256_domain, sha256_of, put_bytes, sample_key, sample_commit.
  rewrite app_assoc. fold sample_prefix. by rewrite sha256_app, sample_mid_eq.
Qed.

Definition sample_record (i : Z) : ValidatorRecord :=
  mkValidator (sample_key i) b:"V" 1 true false false 0 true BOND_PER_KEY_UNITS 0 0 0.
Definition sample_registry : list ValidatorRecord := map sample_record [0; 1; 2; 3; 4; 5; 6].

Lemma sample_registry_ok : registry_ok sample_registry.
Proof.
  split.
  - unfold sample_registry. rewrite map_map. cbn [sample_record v_pubkey_hex].
    rewrite (map_ext _ sample_commit) by apply sample_commit_eq.
    apply (bool_decide_unpack _). vm_compute. exact I.
  - unfold sample_registry. apply Forall_map, Forall_forall. intros i _. split; [discriminate|].
    unfold size. cbn [sample_record v_pubkey_hex]. unfold sample_key, sample_tail.
    rewrite !length_app, !length_replicate. reflexivity.
Qed.

Definition sample_set (epoch : Z) : EpochSnapshot :=
  BuildEpochSnapshot sample_registry epoch (SnapshotHeightFor epoch).

Lemma sample_all_qualified h :
  existsb (Z.eqb h) [959; 1439; 1919] = true -> qualified_records sample_registry h = sample_registry.
Proof.
  cbn [existsb]. rewrite !orb_true_iff, !Z.eqb_eq. intros H.
  unfold qualified_records, sample_registry. cbn [map].
  assert (Hq : forall i, QualifiedAt (sample_record i) h = true).
  { intros i. destruct H as [->|[->|[->|H]]]; [reflexivity..|done]. }
  repeat (rewrite filter_cons_True by (apply Is_true_true, Hq)). reflexivity.
Qed.

Lemma sample_set_qualifies ep :
  existsb (Z.eqb ep) [2; 3; 4] = true -> SnapshotQualifies (sample_set ep) = true.
Proof.
  intros H. apply BuildEpochSnapshot_qualifies; [apply sample_registry_ok|].
  rewrite sample_all_qualified; [split; discriminate|].
  cbn [existsb] in H. rewrite !orb_true_iff, !Z.eqb_eq in H.
  destruct H as [->|[->|[->|H]]]; [reflexivity..|done].
Qed.

Lemma snapshot_canonical_witness :
  BuildEpochSnapshot (rev sample_registry) 2 959 = sample_set 2
  /\ SnapshotQualifies (sample_set 2) = true.
Proof.
  destruct (snapshot_canonical sample_registry (rev sample_registry) 2 959) as (H1 & _ & _ & H4).
  - apply sample_registry_ok.
  - apply Permutation_rev.
  - split; [exact H1|]. apply H4. rewrite sample_all_qualified by reflexivity. split; discriminate.
Defined.

(** A set of one with a computed commitment. *)
Definition single_set (epoch : Z) : EpochSnapshot :=
  let es := [mkEntry (sample_commit 0) b:"V" 1 BOND_PER_KEY_UNITS (sample_key 0)] in
  mkSnapshot epoch 959 es BOND_PER_KEY_UNITS (SnapshotRoot es epoch 959 BOND_PER_KEY_UNITS).

Lemma single_set_ok epoch : SnapshotWellFormed (single_set epoch) = true.
Proof.
  apply SnapshotWellFormed_iff. split; [|split; [|split]].
  - apply Forall_singleton, member_ok_iff. cbn [weight address pubkey_hex pubkey_commit].
    split; [reflexivity|]. split; [discriminate|]. split; [|apply sample_commit_eq].
    unfold size, sample_key, sample_tail. rewrite !length_app, !length_replicate. reflexivity.
  - apply SSorted_cons; constructor.
  - reflexivity.
  - unfold single_set. cbn [entries epoch_id snapshot_height total_weight root]. reflexivity.
Qed.

Lemma single_set_wf epoch : fits 64 epoch -> wf_set (single_set epoch).
Proof.
  intros H. unfold wf_set, single_set. cbn [epoch_id snapshot_height].
  split; [done|]. split; [unfold fits; lia|].
  split; [unfold representable, size; cbn [entries length]; vm_compute; discriminate|].
  cbn [entries]. apply Forall_singleton. unfold size, fits. cbn. lia.
Qed.

Lemma single_roots_differ : root (single_set 2) <> root (single_set 3).
Proof. apply (bool_decide_unpack _). vm_compute. exact I. Qed.

Lemma snapshot_root_binding_witness : root (single_set 2) <> root (single_set 3).
Proof.
  intros E. assert (C : single_set 2 = single_set 3).
  { apply (snapshot_root_binding (single_set 2) (single_set 3));
      [apply single_set_ok|apply single_set_ok|apply single_set_wf; unfold fits; lia
      |apply single_set_wf; unfold fits; lia| | |exact E].
    - intros C. destruct (single_roots_differ C).
    - intros e e' He He'. apply list_elem_of_singleton in He as ->.
      apply list_elem_of_singleton in He' as ->. intros _. reflexivity. }
  apply (f_equal epoch_id) in C. discriminate C.
Defined.

(** Proofs use the equations above, never the hash computation. *)
#[global] Opaque sample_commit sample_key.
