(* ===== verification/FinalityVotes.v ===== *)
(** * Signed votes and certificate assembly ([consensus/finality_votes.h])

    Claim validation, authentication of one vote against the frozen set, the
    assembly of a certificate from verified votes, and equivocation evidence.
    ML-DSA-65 verification ([dilithium::Verify], a vendored primitive) is a
    parameter of the section: nothing is assumed about it, so every theorem holds
    for the real verifier, and "verified" means accepted by it. *)
From S2P Require Import Prelude Bytes Sha256 Profile StateDigest FinalityQc FinalitySnapshot.
From Stdlib Require Import Sorting.Sorted.

Definition PUBKEY_BYTES : Z := 1952.
Definition SIG_MAX_BYTES : Z := 3309.

Record SignedVote := mkVote {
  sv_epoch_id : Z;
  sv_set_root : Hash256;
  sv_phase : Phase;
  sv_round : Z;
  sv_source : CheckpointRef;
  sv_target : CheckpointRef;
  sv_pubkey_hex : bytes;
  sv_signature : bytes
}.

Definition VoteClaimWellFormed (v : SignedVote) (snapshot_epoch : Z) (snapshot_root : Hash256) : bool :=
  (sv_epoch_id v =? snapshot_epoch) && bool_decide (sv_set_root v = snapshot_root)
  && ((sv_phase v =? PREVOTE) || (sv_phase v =? PRECOMMIT))
  && IsScheduledCheckpoint (height (sv_target v)) && (EpochOf (height (sv_target v)) =? sv_epoch_id v)
  && (sv_round v =? CheckpointRound (height (sv_target v)))
  && SourceRefWellFormed (sv_source v) (sv_target v)
  && (size (sv_signature v) =? SIG_MAX_BYTES).

Record AuthenticatedVote := mkAuthenticated {
  vote_ : SignedVote;
  snapshot_epoch_ : Z;
  snapshot_root_ : Hash256;
  member_commit_ : Hash256
}.

Definition HexToPublicKey (hex : bytes) : option bytes :=
  if negb (size hex =? PUBKEY_BYTES * 2) then None else hex_pairs hex.

(** ** Evidence *)

Definition IsEquivocation (a b : SignedVote) : bool :=
  if bool_decide (sv_pubkey_hex a <> sv_pubkey_hex b) then false
  else if negb (sv_epoch_id a =? sv_epoch_id b) then false
  else if negb (sv_phase a =? sv_phase b) then false
  else if negb (sv_round a =? sv_round b) then false
  else bool_decide (sv_target a <> sv_target b).

(** The inner loop: the first [j] whose vote equivocates with [v]. *)
Fixpoint equivocates_with (v : SignedVote) (votes : list SignedVote) (j : nat) : option nat :=
  match votes with
  | [] => None
  | w :: votes' => if IsEquivocation v w then Some j else equivocates_with v votes' (S j)
  end.

(** The outer loop from position [i] on. *)
Fixpoint find_equivocation (votes : list SignedVote) (i : nat) : option (nat * nat) :=
  match votes with
  | [] => None
  | v :: votes' => match equivocates_with v votes' (S i) with
                   | Some j => Some (i, j)
                   | None => find_equivocation votes' (S i)
                   end
  end.

Definition FindEquivocation (votes : list SignedVote) : option (nat * nat) := find_equivocation votes 0.

(** The frame a vote must match after its signature was verified. *)
Definition VoteMatchesCanonicalFrame (v : SignedVote) (s : EpochSnapshot) (tip_height : Z)
    (canonical_target : CheckpointRef) (record : FinalizedRecord) : bool :=
  if negb (VoteClaimWellFormed v (epoch_id s) (root s))
     || negb (InVoteWindow (height (sv_target v)) tip_height)
     || bool_decide (sv_target v <> canonical_target) then false
  else if RecordIsNull record then RefIsNull (sv_source v)
  else bool_decide (sv_source v = r_target record)
       && (height (r_target record) <? height (sv_target v)).

(** ** Lemmas: claims and evidence *)

Lemma VoteClaimWellFormed_iff v ep r :
  VoteClaimWellFormed v ep r = true <->
  sv_epoch_id v = ep /\ sv_set_root v = r /\ (sv_phase v = PREVOTE \/ sv_phase v = PRECOMMIT)
  /\ IsScheduledCheckpoint (height (sv_target v)) = true
  /\ EpochOf (height (sv_target v)) = sv_epoch_id v
  /\ sv_round v = CheckpointRound (height (sv_target v))
  /\ SourceRefWellFormed (sv_source v) (sv_target v) = true /\ size (sv_signature v) = SIG_MAX_BYTES.
Proof.
  unfold VoteClaimWellFormed. rewrite !andb_true_iff, orb_true_iff, !Z.eqb_eq, bool_decide_eq_true.
  tauto.
Qed.

Lemma IsEquivocation_iff a b :
  IsEquivocation a b = true <->
  sv_pubkey_hex a = sv_pubkey_hex b /\ sv_epoch_id a = sv_epoch_id b /\ sv_phase a = sv_phase b
  /\ sv_round a = sv_round b /\ sv_target a <> sv_target b.
Proof.
  unfold IsEquivocation. case_bool_decide as Hk; [split; [done|tauto]|].
  destruct (Z.eqb_spec (sv_epoch_id a) (sv_epoch_id b)); cbn [negb]; [|split; [done|tauto]].
  destruct (Z.eqb_spec (sv_phase a) (sv_phase b)); cbn [negb]; [|split; [done|tauto]].
  destruct (Z.eqb_spec (sv_round a) (sv_round b)); cbn [negb]; [|split; [done|tauto]].
  rewrite bool_decide_eq_true. tauto.
Qed.

(** ** Lemmas: the bitmap under assembly *)

Lemma bit_set_insert bitmap i j b :
  bitmap !! (i / 8)%nat = Some b ->
  bit_set (<[(i / 8)%nat := Z.lor b (u8 (Z.shiftl 1 (Z.of_nat (i mod 8))))]> bitmap) j
  = bit_set bitmap j || (i =? j)%nat.
Proof.
  intros Hb. unfold bit_set. pose proof (Nat.mod_upper_bound i 8) as Hi.
  pose proof (Nat.mod_upper_bound j 8) as Hj.
  pose proof (Nat.div_mod_eq i 8). pose proof (Nat.div_mod_eq j 8).
  destruct (decide (i / 8 = j / 8)%nat) as [E|E].
  - rewrite E, list_lookup_insert_eq by (rewrite <- E; by eapply lookup_lt_Some).
    rewrite <- E, Hb, !byte_bit_testbit, Z.lor_spec. f_equal.
    rewrite Z.shiftl_1_l, wrap_id by (split; [lia|apply Z.pow_lt_mono_r; lia]).
    destruct (Nat.eqb_spec i j) as [->|Hne]; [apply Z.pow2_bits_true; lia|].
    apply Z.pow2_bits_false. lia.
  - rewrite list_lookup_insert_ne by done. destruct (Nat.eqb_spec i j) as [->|]; [done|].
    by rewrite orb_false_r.
Qed.

Lemma omap_all_some {A B} (f : A -> option B) l :
  Forall (fun x => exists y, f x = Some y) l -> length (omap f l) = length l.
Proof.
  induction 1 as [|x l [y Hy] Hl IH]; [done|]. cbn [omap list_omap]. rewrite Hy. cbn. by f_equal.
Qed.

Lemma bit_set_empty n i : bit_set (replicate n 0) i = false.
Proof.
  unfold bit_set. destruct (replicate n 0 !! (i / 8)%nat) as [b|] eqn:E; [|done].
  apply lookup_replicate in E as [-> _]. rewrite byte_bit_testbit. apply Z.bits_0.
Qed.

Lemma equivocates_with_some v votes j k :
  equivocates_with v votes j = Some k ->
  exists w, (j <= k)%nat /\ votes !! (k - j)%nat = Some w /\ IsEquivocation v w = true.
Proof.
  revert j. induction votes as [|w votes IH]; intros j; cbn [equivocates_with]; [done|].
  destruct (IsEquivocation v w) eqn:E.
  - intros [= <-]. exists w. rewrite Nat.sub_diag. auto.
  - intros H. apply IH in H as (x & Hle & Hx & Hq). exists x. split; [lia|]. split; [|done].
    by replace (k - j)%nat with (S (k - S j)) by lia.
Qed.

Lemma equivocates_with_none v votes j :
  equivocates_with v votes j = None -> Forall (fun w => IsEquivocation v w = false) votes.
Proof.
  revert j. induction votes as [|w votes IH]; intros j; cbn [equivocates_with]; [by constructor|].
  destruct (IsEquivocation v w) eqn:E; [done|]. intros H. constructor; [done|]. by eapply IH.
Qed.

Lemma find_equivocation_spec votes i :
  match find_equivocation votes i with
  | Some (a, b) => exists v w, (i <= a < b)%nat /\ votes !! (a - i)%nat = Some v
                   /\ votes !! (b - i)%nat = Some w /\ IsEquivocation v w = true
  | None => forall a b v w, (a < b)%nat -> votes !! a = Some v -> votes !! b = Some w ->
            IsEquivocation v w = false
  end.
Proof.
  revert i. induction votes as [|v votes IH]; intros i; cbn [find_equivocation]; [done|].
  destruct (equivocates_with v votes (S i)) as [j|] eqn:E.
  - apply equivocates_with_some in E as (w & Hle & Hw & Hq). exists v, w. rewrite Nat.sub_diag.
    split; [lia|]. split; [done|]. split; [|done]. by replace (j - i)%nat with (S (j - S i)) by lia.
  - specialize (IH (S i)). apply equivocates_with_none in E.
    destruct (find_equivocation votes (S i)) as [[a b]|].
    + destruct IH as (x & y & Hab & Hx & Hy & Hq). exists x, y. split; [lia|].
      split; [by replace (a - i)%nat with (S (a - S i)) by lia|].
      split; [by replace (b - i)%nat with (S (b - S i)) by lia|done].
    + intros [|a] [|b] x y Hab Hx Hy; try lia.
      * injection Hx as <-. rewrite Forall_lookup in E. by apply (E b).
      * apply (IH a b x y); [lia|done..].
Qed.

Section Votes.
Context (Verify : bytes -> bytes -> bytes -> bool).

Definition AuthenticateVoteForMember (v : SignedVote) (snapshot_epoch : Z) (snapshot_root : Hash256)
    (member : SnapshotEntry) (network_id : Z) (genesis_hash : Hash256) : option AuthenticatedVote :=
  if negb (VoteClaimWellFormed v snapshot_epoch snapshot_root) then None
  else
    let commit := PubkeyCommit (sv_pubkey_hex v) in
    if bool_decide (commit <> pubkey_commit member)
       || bool_decide (sv_pubkey_hex v <> pubkey_hex member) then None
    else
      let msg := VotePreimage network_id genesis_hash (sv_epoch_id v) (sv_set_root v) (sv_phase v)
                   (sv_round v) (sv_source v) (sv_target v) in
      match HexToPublicKey (sv_pubkey_hex v) with
      | None => None
      | Some pk => if Verify pk msg (sv_signature v)
                   then Some (mkAuthenticated v snapshot_epoch snapshot_root commit) else None
      end.

Definition AuthenticateVote (v : SignedVote) (s : EpochSnapshot) (network_id : Z)
    (genesis_hash : Hash256) : option AuthenticatedVote :=
  if negb (VoteClaimWellFormed v (epoch_id s) (root s)) then None
  else match SignerIndex s (PubkeyCommit (sv_pubkey_hex v)) with
       | None => None
       | Some idx =>
           match entries s !! idx with
           | None => None
           | Some member => AuthenticateVoteForMember v (epoch_id s) (root s) member network_id
                              genesis_hash
           end
       end.

Definition VerifyVote (v : SignedVote) (s : EpochSnapshot) (network_id : Z) (genesis_hash : Hash256)
  : bool := match AuthenticateVote v s network_id genesis_hash with Some _ => true | None => false end.

(** The loop of [AssembleQc] on the bitmap; [first] fixes the claim. *)
Fixpoint assemble_loop (first : SignedVote) (votes : list SignedVote) (s : EpochSnapshot)
    (network_id : Z) (genesis_hash : Hash256) (bitmap : bytes) : option bytes :=
  match votes with
  | [] => Some bitmap
  | v :: votes' =>
      if negb (sv_phase v =? sv_phase first) || negb (sv_round v =? sv_round first) then None
      else if bool_decide (sv_source v <> sv_source first)
              || bool_decide (sv_target v <> sv_target first) then None
      else if negb (VerifyVote v s network_id genesis_hash) then None
      else match SignerIndex s (PubkeyCommit (sv_pubkey_hex v)) with
           | None => None
           | Some idx =>
               match bitmap !! (idx / 8)%nat with
               | None => None (* no such byte: excluded by the bitmap's size *)
               | Some b =>
                   if byte_bit b idx then None
                   else assemble_loop first votes' s network_id genesis_hash
                          (<[(idx / 8)%nat := Z.lor b (u8 (Z.shiftl 1 (Z.of_nat (idx mod 8))))]> bitmap)
               end
           end
  end.

Definition AssembleQc (votes : list SignedVote) (s : EpochSnapshot) (network_id : Z)
    (genesis_hash : Hash256) : option QuorumCert :=
  match votes with
  | [] => None
  | first :: _ =>
      if negb (SnapshotWellFormed s) then None
      else
        let empty := replicate (Z.to_nat ((size (entries s) + 7) / 8)) 0 in
        match assemble_loop first votes s network_id genesis_hash empty with
        | None => None
        | Some bitmap =>
            let w := BitmapWeight s bitmap in
            if negb (IsSupermajority w (total_weight s)) then None
            else Some (mkQc (epoch_id s) (root s) (sv_phase first) (sv_round first)
                         (sv_source first) (sv_target first) bitmap w)
        end
  end.

(** ** Lemmas: one vote *)

Lemma VerifyVote_inv v s net gen :
  VerifyVote v s net gen = true ->
  VoteClaimWellFormed v (epoch_id s) (root s) = true
  /\ exists i e pk, SignerIndex s (PubkeyCommit (sv_pubkey_hex v)) = Some i /\ entries s !! i = Some e
     /\ sv_pubkey_hex v = pubkey_hex e /\ HexToPublicKey (sv_pubkey_hex v) = Some pk
     /\ Verify pk (VotePreimage net gen (sv_epoch_id v) (sv_set_root v) (sv_phase v)
          (sv_round v) (sv_source v) (sv_target v)) (sv_signature v) = true.
Proof.
  unfold VerifyVote, AuthenticateVote, AuthenticateVoteForMember. intros H.
  destruct (VoteClaimWellFormed v (epoch_id s) (root s)) eqn:Ec; [|done]. cbn [negb] in H.
  destruct (SignerIndex s (PubkeyCommit (sv_pubkey_hex v))) as [i|] eqn:Ei; [|done].
  destruct (entries s !! i) as [e|] eqn:Ee; [|done]. cbn zeta in H.
  destruct (bool_decide (PubkeyCommit (sv_pubkey_hex v) <> pubkey_commit e)); [done|].
  case_bool_decide as Hk; [done|]. cbn [orb] in H.
  destruct (HexToPublicKey (sv_pubkey_hex v)) as [pk|] eqn:Ep; [|done].
  destruct (Verify pk _ _) eqn:Ev; [|done]. split; [done|].
  exists i, e, pk. repeat split; done.
Qed.

Lemma VerifyVote_intro v s net gen i e pk :
  VoteClaimWellFormed v (epoch_id s) (root s) = true ->
  SignerIndex s (PubkeyCommit (sv_pubkey_hex v)) = Some i -> entries s !! i = Some e ->
  PubkeyCommit (sv_pubkey_hex v) = pubkey_commit e -> sv_pubkey_hex v = pubkey_hex e ->
  HexToPublicKey (sv_pubkey_hex v) = Some pk ->
  Verify pk (VotePreimage net gen (sv_epoch_id v) (sv_set_root v) (sv_phase v)
    (sv_round v) (sv_source v) (sv_target v)) (sv_signature v) = true ->
  VerifyVote v s net gen = true.
Proof.
  intros Hc Hi He Hm Hk Hp Hv. unfold VerifyVote, AuthenticateVote, AuthenticateVoteForMember.
  rewrite Hc, Hi, He. cbn [negb]. rewrite Hp, Hv.
  rewrite bool_decide_false by (intros C; by destruct C).
  rewrite bool_decide_false by (intros C; by destruct C). reflexivity.
Qed.

(** ** Lemmas: assembly *)

Definition signer_of (s : EpochSnapshot) (v : SignedVote) : option nat :=
  SignerIndex s (PubkeyCommit (sv_pubkey_hex v)).

Definition agrees (first v : SignedVote) : Prop :=
  sv_phase v = sv_phase first /\ sv_round v = sv_round first
  /\ sv_source v = sv_source first /\ sv_target v = sv_target first.

Definition verified (s : EpochSnapshot) (net : Z) (gen : Hash256) (v : SignedVote) : Prop :=
  VerifyVote v s net gen = true.

Lemma verified_signer s net gen v : verified s net gen v -> exists i, signer_of s v = Some i.
Proof. intros H. apply VerifyVote_inv in H as (_ & i & _ & _ & H & _). by exists i. Qed.

Definition bitmap_len (s : EpochSnapshot) : nat := Z.to_nat ((size (entries s) + 7) / 8).

Lemma bitmap_len_bound s i : (i < length (entries s))%nat -> (i / 8 < bitmap_len s)%nat.
Proof.
  unfold bitmap_len, size. intros H. replace (Z.of_nat (length (entries s)) + 7)
    with (Z.of_nat (length (entries s) + 7)) by lia.
  change 8 with (Z.of_nat 8). rewrite <- Nat2Z.inj_div, Nat2Z.id.
  pose proof (Nat.div_mod_eq i 8). pose proof (Nat.mod_upper_bound i 8).
  pose proof (Nat.div_mod_eq (length (entries s) + 7) 8).
  pose proof (Nat.mod_upper_bound (length (entries s) + 7) 8). lia.
Qed.

(** The votes that one certificate can be built from, given the members already seen. *)
Definition assembles (first : SignedVote) (votes : list SignedVote) (s : EpochSnapshot) (net : Z)
    (gen : Hash256) (seen : list nat) : Prop :=
  Forall (agrees first) votes /\ Forall (verified s net gen) votes
  /\ NoDup (omap (signer_of s) votes) /\ (forall i, i ∈ omap (signer_of s) votes -> i ∉ seen).

Lemma assembles_cons first v votes s net gen seen i :
  signer_of s v = Some i ->
  assembles first (v :: votes) s net gen seen
  <-> agrees first v /\ verified s net gen v /\ (i ∉ seen) /\ assembles first votes s net gen (i :: seen).
Proof.
  intros Hi. unfold assembles. rewrite !Forall_cons. cbn [omap list_omap]. rewrite Hi.
  rewrite NoDup_cons. split.
  - intros ([Ha1 Ha2] & [Hv1 Hv2] & [Hn1 Hn2] & Hd). split; [done|]. split; [done|].
    split; [apply Hd; left|]. split; [done|]. split; [done|]. split; [done|].
    intros j Hj C. apply elem_of_cons in C as [->|C]; [done|]. apply (Hd j); [by right|done].
  - intros (Ha & Hv & Hs & Hal & Hvl & Hn & Hd). split; [done|]. split; [done|]. split.
    + split; [|done]. intros C. apply (Hd i C). left.
    + intros j Hj C. apply elem_of_cons in Hj as [->|Hj]; [done|]. apply (Hd j Hj). by right.
Qed.

Lemma assemble_loop_spec first votes s net gen bitmap seen :
  length bitmap = bitmap_len s -> (forall i, bit_set bitmap i = true <-> i ∈ seen) ->
  match assemble_loop first votes s net gen bitmap with
  | Some bm => assembles first votes s net gen seen /\ length bm = bitmap_len s
               /\ forall i, bit_set bm i = true <-> i ∈ seen \/ i ∈ omap (signer_of s) votes
  | None => ~ assembles first votes s net gen seen
  end.
Proof.
  revert bitmap seen. induction votes as [|v votes IH]; intros bitmap seen Hlen Hseen;
    cbn [assemble_loop].
  { split; [|split; [done|]].
    - unfold assembles. repeat split; try constructor. intros i Hi. by apply elem_of_nil in Hi.
    - intros i. rewrite Hseen. cbn. rewrite elem_of_nil. tauto. }
  destruct (VerifyVote v s net gen) eqn:Ev.
  2:{ repeat split_goal; try done; intros (_ & Hv & _); apply Forall_cons in Hv as [Hv _];
        unfold verified in Hv; congruence. }
  destruct (verified_signer s net gen v Ev) as [i Hi]. pose proof Hi as Hi'. unfold signer_of in Hi'.
  rewrite Hi'. cbn [negb].
  destruct (lookup_lt_is_Some_2 bitmap (i / 8)) as [b Hb].
  { rewrite Hlen. apply bitmap_len_bound. by apply SignerIndex_lt in Hi'. }
  rewrite Hb.
  destruct (Z.eqb_spec (sv_phase v) (sv_phase first)) as [Hp|Hp]; cbn [negb orb].
  2:{ rewrite (assembles_cons _ _ _ _ _ _ _ i Hi). intros ((C & _) & _). done. }
  destruct (Z.eqb_spec (sv_round v) (sv_round first)) as [Hr|Hr]; cbn [negb orb].
  2:{ rewrite (assembles_cons _ _ _ _ _ _ _ i Hi). intros ((_ & C & _) & _). done. }
  case_bool_decide as Hs; cbn [orb].
  { rewrite (assembles_cons _ _ _ _ _ _ _ i Hi). intros ((_ & _ & C & _) & _). done. }
  case_bool_decide as Ht; cbn [orb].
  { rewrite (assembles_cons _ _ _ _ _ _ _ i Hi). intros ((_ & _ & _ & C) & _). done. }
  assert (Hbit : byte_bit b i = true <-> i ∈ seen).
  { rewrite <- Hseen. unfold bit_set. by rewrite Hb. }
  destruct (byte_bit b i) eqn:Eb.
  { rewrite (assembles_cons _ _ _ _ _ _ _ i Hi). intros (_ & _ & C & _). apply C, Hbit. done. }
  assert (Hni : i ∉ seen) by (rewrite <- Hbit; congruence).
  specialize (IH (<[(i / 8)%nat := Z.lor b (u8 (Z.shiftl 1 (Z.of_nat (i mod 8))))]> bitmap) (i :: seen)).
  destruct (assemble_loop first votes s net gen _) as [bm|].
  - destruct IH as (H1 & H2 & H3).
    + by rewrite length_insert.
    + intros j. rewrite bit_set_insert by done. rewrite orb_true_iff, Hseen, Nat.eqb_eq, elem_of_cons.
      intuition congruence.
    + split; [|split; [done|]].
      * rewrite (assembles_cons _ _ _ _ _ _ _ i Hi). done.
      * intros j. rewrite H3. cbn [omap list_omap]. rewrite Hi, !elem_of_cons. tauto.
  - rewrite (assembles_cons _ _ _ _ _ _ _ i Hi). intros (_ & _ & _ & C). apply IH; [..|exact C].
    + by rewrite length_insert.
    + intros j. rewrite bit_set_insert by done. rewrite orb_true_iff, Hseen, Nat.eqb_eq, elem_of_cons.
      intuition congruence.
Qed.

(** The bitmap of a successful assembly names the votes' signers, one each. *)
Lemma assembled_signers first votes s net gen bm :
  assemble_loop first votes s net gen (replicate (bitmap_len s) 0) = Some bm ->
  assembles first votes s net gen [] /\ length bm = bitmap_len s
  /\ (forall i, bit_set bm i = true <-> exists v, v ∈ votes /\ signer_of s v = Some i)
  /\ size (signers s bm) = size votes.
Proof.
  intros E. pose proof (assemble_loop_spec first votes s net gen (replicate (bitmap_len s) 0) []) as H.
  rewrite E in H. destruct H as (Ha & Hl & Hb).
  { apply length_replicate. }
  { intros i. rewrite bit_set_empty, elem_of_nil. by split. }
  assert (Hb' : forall i, bit_set bm i = true <-> i ∈ omap (signer_of s) votes).
  { intros i. rewrite Hb, elem_of_nil. tauto. }
  split; [done|]. split; [done|]. split.
  { intros i. rewrite Hb'. apply list_elem_of_omap. }
  destruct Ha as (_ & Hv & Hn & _). unfold size. f_equal.
  rewrite <- (omap_all_some (signer_of s) votes).
  2:{ eapply Forall_impl; [exact Hv|]. intros v. apply verified_signer. }
  apply Permutation_length, NoDup_Permutation; [|done|].
  - apply NoDup_ListNoDup, List.NoDup_filter, seq_NoDup.
  - intros i. rewrite elem_of_signers, Hb'. split; [tauto|]. intros Hi. split; [|done].
    apply list_elem_of_omap in Hi as (v & _ & Hi). by apply SignerIndex_lt in Hi.
Qed.

Lemma assembled_supermajority s bm :
  SnapshotWellFormed s = true -> representable s ->
  IsSupermajority (BitmapWeight s bm) (total_weight s) = true
  <-> 2 * size (entries s) < 3 * size (signers s bm).
Proof.
  intros Hs Hr. rewrite (total_weight_eq s Hs Hr).
  apply SnapshotWellFormed_iff in Hs as (Hm & _). rewrite (BitmapWeight_count s bm Hm Hr).
  pose proof (filter_length_le (bit_set bm) (seq 0 (length (entries s)))) as Hle.
  rewrite length_seq in Hle. unfold representable, MAX_FINALITY_VALIDATOR_COUNT, signers, size in *.
  change BOND_PER_KEY_UNITS with 1000000000000.
  rewrite IsSupermajority_spec by (unfold fits; lia). lia.
Qed.

Lemma AssembleQc_inv votes s net gen qc :
  AssembleQc votes s net gen = Some qc ->
  exists first, head votes = Some first /\ assembles first votes s net gen []
  /\ qc_phase qc = sv_phase first /\ qc_source qc = sv_source first
  /\ qc_target qc = sv_target first
  /\ QcWellFormed qc s = true
  /\ (forall i, i ∈ signers s (qc_bitmap qc) <-> exists v, v ∈ votes /\ signer_of s v = Some i)
  /\ size (signers s (qc_bitmap qc)) = size votes.
Proof.
  unfold AssembleQc. destruct votes as [|first votes']; [done|]. set (votes := first :: votes').
  destruct (SnapshotWellFormed s) eqn:Hs; cbn [negb]; [|done]. fold (bitmap_len s).
  destruct (assemble_loop _ _ _ _ _ _) as [bm|] eqn:E; [|done].
  apply assembled_signers in E as (Ha & Hl & Hb & Hn).
  destruct (IsSupermajority _ _) eqn:Esup; cbn [negb]; [|done]. intros [= <-].
  exists first. cbn [qc_phase qc_source qc_target qc_bitmap]. split; [done|]. split; [done|].
  split; [done|]. split; [done|]. split; [done|]. split; [|split; [|done]].
  - destruct Ha as (_ & Hv & _). apply Forall_cons in Hv as [Hv _].
    apply VerifyVote_inv in Hv as [Hv _]. apply VoteClaimWellFormed_iff in Hv.
    destruct Hv as (V1 & V2 & V3 & V4 & V5 & V6 & V7 & _).
    apply QcWellFormed_intro; cbn [qc_epoch_id qc_set_root qc_phase qc_target qc_round qc_source
      qc_bitmap qc_weight]; try done; [congruence|unfold size; rewrite Hl; unfold bitmap_len|].
    + rewrite Z2Nat.id; [done|]. apply Z.div_pos; unfold size; lia.
    + intros i Hi. apply Hb in Hi as (v & _ & Hi). by apply SignerIndex_lt in Hi.
  - intros i. rewrite elem_of_signers, Hb. split; [tauto|]. intros Hi. split; [|done].
    destruct Hi as (v & _ & Hi). by apply SignerIndex_lt in Hi.
Qed.

Lemma AssembleQc_none votes s net gen first :
  representable s -> SnapshotWellFormed s = true -> head votes = Some first ->
  assembles first votes s net gen [] -> AssembleQc votes s net gen = None ->
  3 * size votes <= 2 * size (entries s).
Proof.
  intros Hr Hs Hf Ha Eqc. destruct votes as [|f votes']; [done|]. injection Hf as <-.
  unfold AssembleQc in Eqc. rewrite Hs in Eqc. cbn [negb] in Eqc. fold (bitmap_len s) in Eqc.
  destruct (assemble_loop _ _ _ _ _ _) as [bm|] eqn:E.
  - apply assembled_signers in E as (_ & _ & _ & Hn). rewrite <- Hn.
    destruct (Z.le_gt_cases (3 * size (signers s bm)) (2 * size (entries s))) as [|Hgt]; [done|].
    assert (Hsup : IsSupermajority (BitmapWeight s bm) (total_weight s) = true)
      by (apply assembled_supermajority; [done..|lia]).
    cbn zeta in Eqc. by rewrite Hsup in Eqc.
  - exfalso. pose proof (assemble_loop_spec f (f :: votes') s net gen (replicate (bitmap_len s) 0) []) as H.
    rewrite E in H. apply H; [apply length_replicate| |exact Ha].
    intros i. rewrite bit_set_empty, elem_of_nil. by split.
Qed.

(** One verified vote is a quorum of a set of one. *)
Lemma AssembleQc_one v s net gen :
  verified s net gen v -> SnapshotWellFormed s = true -> size (entries s) = 1 ->
  exists qc, AssembleQc [v] s net gen = Some qc
    /\ qc_phase qc = sv_phase v /\ qc_target qc = sv_target v.
Proof.
  intros Hv Hs Hn. destruct (AssembleQc [v] s net gen) as [qc|] eqn:E.
  - exists qc. split; [done|]. apply AssembleQc_inv in E as (f & [= <-] & _ & P & _ & T & _). done.
  - exfalso. destruct (verified_signer s net gen v Hv) as [i Hi].
    apply AssembleQc_none with (first := v) in E; [|unfold representable, MAX_FINALITY_VALIDATOR_COUNT;
      lia|done|done|].
    + unfold size in E, Hn. cbn [length] in E. lia.
    + unfold assembles. rewrite !Forall_singleton. cbn [omap list_omap]. rewrite Hi.
      split; [by unfold agrees|]. split; [exact Hv|]. split; [apply NoDup_singleton|].
      intros j _. apply not_elem_of_nil.
Qed.

(** Certificate assembly is exact.  When it returns a certificate, the votes agree
    on one claim, every one of them verifies, their signers are distinct, the
    certificate carries that claim, its bitmap names exactly those signers and it is
    well formed; when it returns nothing although the set is well formed, some vote
    disagrees, fails verification or repeats a signer, or the votes do not exceed two
    thirds of the members. *)
Lemma assemble_exact votes s net gen :
  representable s ->
  match AssembleQc votes s net gen with
  | Some qc =>
      exists first, head votes = Some first /\ assembles first votes s net gen []
      /\ qc_phase qc = sv_phase first /\ qc_source qc = sv_source first
      /\ qc_target qc = sv_target first
      /\ QcWellFormed qc s = true
      /\ (forall i, i ∈ signers s (qc_bitmap qc)
            <-> exists v, v ∈ votes /\ signer_of s v = Some i)
      /\ size (signers s (qc_bitmap qc)) = size votes
  | None =>
      SnapshotWellFormed s = true -> forall first, head votes = Some first ->
      assembles first votes s net gen [] -> 3 * size votes <= 2 * size (entries s)
  end.
Proof.
  intros Hr. destruct (AssembleQc votes s net gen) as [qc|] eqn:Eqc; [by apply AssembleQc_inv|].
  intros Hs first Hf Ha. by eapply AssembleQc_none.
Qed.

(** ** Accountable safety *)

(** Two verified votes of one member for one height and phase but different blocks are
    evidence. *)
Lemma conflicting_votes_equivocate s net gen v1 v2 i :
  verified s net gen v1 -> verified s net gen v2 ->
  signer_of s v1 = Some i -> signer_of s v2 = Some i ->
  sv_phase v1 = sv_phase v2 -> height (sv_target v1) = height (sv_target v2) ->
  sv_target v1 <> sv_target v2 -> IsEquivocation v1 v2 = true.
Proof.
  intros H1 H2 S1 S2 Hp Hh Ht.
  apply VerifyVote_inv in H1 as (C1 & i1 & e1 & _ & I1 & L1 & K1 & _).
  apply VerifyVote_inv in H2 as (C2 & i2 & e2 & _ & I2 & L2 & K2 & _).
  unfold signer_of in *. assert (e1 = e2) as -> by congruence.
  apply VoteClaimWellFormed_iff in C1 as (A1 & _ & _ & _ & _ & R1 & _).
  apply VoteClaimWellFormed_iff in C2 as (A2 & _ & _ & _ & _ & R2 & _).
  apply IsEquivocation_iff. repeat split; congruence.
Qed.

(** C4: accountable safety.  If two certificates are assembled over one validator set,
    in the same phase and for the same height, but for different blocks, then members
    holding strictly more than a third of the total bond each cast two verified votes
    that are equivocation evidence against them, and the evidence search over the
    votes finds a pair. *)
Theorem accountable_safety votes1 votes2 s net gen qc1 qc2 :
  representable s ->
  AssembleQc votes1 s net gen = Some qc1 -> AssembleQc votes2 s net gen = Some qc2 ->
  qc_phase qc1 = qc_phase qc2 -> height (qc_target qc1) = height (qc_target qc2) ->
  qc_target qc1 <> qc_target qc2 ->
  (exists culprits : list nat, NoDup culprits
     /\ total_weight s < 3 * (BOND_PER_KEY_UNITS * size culprits)
     /\ forall i, i ∈ culprits -> exists e v1 v2, entries s !! i = Some e
          /\ v1 ∈ votes1 /\ v2 ∈ votes2 /\ sv_pubkey_hex v1 = pubkey_hex e
          /\ VerifyVote v1 s net gen = true /\ VerifyVote v2 s net gen = true
          /\ IsEquivocation v1 v2 = true)
  /\ FindEquivocation (votes1 ++ votes2) <> None.
Proof.
  intros Hr A1 A2 Hp Hh Ht.
  apply AssembleQc_inv in A1 as (f1 & _ & (G1 & V1 & _) & P1 & _ & T1 & W1 & B1 & _).
  apply AssembleQc_inv in A2 as (f2 & _ & (G2 & V2 & _) & P2 & _ & T2 & W2 & B2 & _).
  rewrite Forall_forall in G1, G2, V1, V2.
  assert (Hcul : forall i, i ∈ signers s (qc_bitmap qc1) -> i ∈ signers s (qc_bitmap qc2) ->
    exists e v1 v2, entries s !! i = Some e /\ v1 ∈ votes1 /\ v2 ∈ votes2
      /\ sv_pubkey_hex v1 = pubkey_hex e /\ VerifyVote v1 s net gen = true
      /\ VerifyVote v2 s net gen = true /\ IsEquivocation v1 v2 = true).
  { intros i H1 H2. apply B1 in H1 as (v1 & E1 & S1). apply B2 in H2 as (v2 & E2 & S2).
    destruct (G1 v1 E1) as (p1 & _ & _ & t1). destruct (G2 v2 E2) as (p2 & _ & _ & t2).
    pose proof (VerifyVote_inv v1 s net gen (V1 v1 E1)) as (_ & j & e & _ & I1 & L1 & K1 & _).
    assert (j = i) as -> by (unfold signer_of in S1; congruence).
    exists e, v1, v2. repeat split; try done; [by apply V1|by apply V2|].
    apply (conflicting_votes_equivocate s net gen v1 v2 i); auto; congruence. }
  pose proof (quorum_overlap qc1 qc2 s W1 W2 Hr) as Ho.
  set (common := List.filter _ _) in Ho.
  assert (Hc : forall i, i ∈ common -> i ∈ signers s (qc_bitmap qc1) /\ i ∈ signers s (qc_bitmap qc2)).
  { intros i. unfold common. rewrite !elem_of_signers, list_elem_of_In, filter_In, in_seq, andb_true_iff.
    intuition lia. }
  split.
  - exists common. split; [apply NoDup_ListNoDup, List.NoDup_filter, seq_NoDup|].
    rewrite total_weight_eq; [|apply (QcWellFormed_inv qc1 s W1)|done]. split.
    + change BOND_PER_KEY_UNITS with 1000000000000. lia.
    + intros i Hi. destruct (Hc i Hi). by apply Hcul.
  - destruct common as [|i common']; [unfold size in Ho; cbn in Ho; lia|].
    destruct (Hc i) as [H1 H2]; [left|]. destruct (Hcul i H1 H2) as (_ & v1 & v2 & _ & E1 & E2 & _ & _ & _ & Hq).
    apply list_elem_of_lookup in E1 as [a Ha]. apply list_elem_of_lookup in E2 as [b Hb].
    intros C. pose proof (find_equivocation_spec (votes1 ++ votes2) 0) as Hf.
    unfold FindEquivocation in C. rewrite C in Hf.
    rewrite (Hf a (length votes1 + b)%nat v1 v2) in Hq; [done|..].
    + apply lookup_lt_Some in Ha. lia.
    + by apply lookup_app_l_Some.
    + rewrite lookup_app_r by lia. by replace (length votes1 + b - length votes1)%nat with b by lia.
Qed.

End Votes.

(** ** Examples: one member, a verifier that accepts every signature *)

Definition accept_all : bytes -> bytes -> bytes -> bool := fun _ _ _ => true.

Definition single_vote (target : CheckpointRef) : SignedVote :=
  mkVote 2 (root (single_set 2)) PRECOMMIT (CheckpointRound (height target)) NullRef target
    (sample_key 0) (replicate 3309 0).

Lemma sample_key_hex : exists pk, HexToPublicKey (sample_key 0) = Some pk.
Proof. eexists. vm_compute. reflexivity. Qed.

Lemma single_signer target : signer_of (single_set 2) (single_vote target) = Some 0%nat.
Proof.
  apply SignerIndex_spec.
  - pose proof (single_set_ok 2) as H. by apply SnapshotWellFormed_iff in H as (_ & H & _).
  - eexists. split; [reflexivity|]. cbn [single_vote sv_pubkey_hex pubkey_commit].
    symmetry. apply sample_commit_eq.
Qed.

Lemma single_verified target :
  IsScheduledCheckpoint (height target) = true -> EpochOf (height target) = 2 ->
  verified accept_all (single_set 2) NETWORK_ID ZeroHash (single_vote target).
Proof.
  intros Hs He. destruct sample_key_hex as [pk Hpk].
  apply (VerifyVote_intro accept_all (single_vote target) (single_set 2) NETWORK_ID ZeroHash 0
           (mkEntry (sample_commit 0) b:"V" 1 BOND_PER_KEY_UNITS (sample_key 0)) pk).
  - apply (proj2 (VoteClaimWellFormed_iff _ _ _)). cbn [single_vote sv_epoch_id sv_set_root sv_phase sv_round
      sv_source sv_target sv_signature].
    split; [reflexivity|]. split; [reflexivity|]. split; [right; reflexivity|]. split; [exact Hs|].
    split; [exact He|]. split; [reflexivity|]. split; [reflexivity|].
    unfold size. rewrite length_replicate. reflexivity.
  - pose proof (single_signer target) as Hi. unfold signer_of in Hi. exact Hi.
  - reflexivity.
  - exact (sample_commit_eq 0).
  - reflexivity.
  - exact Hpk.
  - reflexivity.
Qed.

Lemma single_assembles target :
  IsScheduledCheckpoint (height target) = true -> EpochOf (height target) = 2 ->
  exists qc, AssembleQc accept_all [single_vote target] (single_set 2) NETWORK_ID ZeroHash = Some qc
    /\ qc_phase qc = PRECOMMIT /\ qc_target qc = target.
Proof.
  intros Hs He. apply (AssembleQc_one accept_all (single_vote target) (single_set 2)).
  - apply single_verified; assumption.
  - apply single_set_ok.
  - reflexivity.
Qed.

Lemma assemble_exact_witness :
  match AssembleQc accept_all [single_vote (mkRef 960 ZeroHash)] (single_set 2) NETWORK_ID ZeroHash with
  | Some qc => QcWellFormed qc (single_set 2) = true
  | None => False
  end.
Proof.
  pose proof (assemble_exact accept_all [single_vote (mkRef 960 ZeroHash)] (single_set 2) NETWORK_ID
                ZeroHash) as H.
  destruct (single_assembles (mkRef 960 ZeroHash)) as (qc & E & _); [reflexivity..|].
  rewrite E in *. destruct H as (f & _ & _ & _ & _ & _ & W & _); [|exact W].
  apply single_set_wf. unfold fits. lia.
Defined.

Lemma accountable_safety_witness :
  FindEquivocation ([single_vote (mkRef 960 ZeroHash)] ++ [single_vote (mkRef 960 (replicate 32 1))])
  <> None.
Proof.
  destruct (single_assembles (mkRef 960 ZeroHash)) as (qc1 & E1 & P1 & T1); [reflexivity..|].
  destruct (single_assembles (mkRef 960 (replicate 32 1))) as (qc2 & E2 & P2 & T2); [reflexivity..|].
  refine (proj2 (accountable_safety accept_all _ _ (single_set 2) NETWORK_ID ZeroHash qc1 qc2
            _ E1 E2 _ _ _)).
  - apply single_set_wf. unfold fits. lia.
  - rewrite P1, P2. reflexivity.
  - rewrite T1, T2. reflexivity.
  - rewrite T1, T2. discriminate.
Defined.
