(* ===== verification/FinalityState.v ===== *)
(** * Retained finality state ([consensus/finality_state.h])

    The activation state machine, the retained snapshots and record, and the
    transitions consensus applies to them.  [std::map<uint64_t, EpochSnapshot>] is
    the list of its pairs in key order.  A mutating member function returns the new
    object with its result. *)
From S2P Require Import Prelude Bytes Sha256 Profile StateDigest FinalityQc FinalitySnapshot.
From Stdlib Require Import Sorting.Sorted.

Definition DOMAIN_STATE : bytes := b:"VELD_FINALITY_STATE_v1|".
Definition SNAPSHOT_RETENTION : nat := 2.

Record FinalityState := mkState {
  consecutive_qualified_epochs : Z;
  finality_ever_active : bool;
  ever_promoted_anchor : bool;
  snapshots : list (Z * EpochSnapshot);
  record : FinalizedRecord;
  certified_carrier_record : FinalizedRecord;
  security_upgrade_active : bool
}.

(** A fresh object, and the object after [Reset()]. *)
Definition Reset : FinalityState := mkState 0 false false [] NullRecord NullRecord false.

(** ** The ordered map *)

Fixpoint map_find {A} (k : Z) (m : list (Z * A)) : option A :=
  match m with
  | [] => None
  | (k', v) :: m' => if k' =? k then Some v else map_find k m'
  end.

(** [m[k] = v] *)
Fixpoint map_insert {A} (k : Z) (v : A) (m : list (Z * A)) : list (Z * A) :=
  match m with
  | [] => [(k, v)]
  | (k', v') :: m' => if k <? k' then (k, v) :: m
                      else if k =? k' then (k, v) :: m'
                      else (k', v') :: map_insert k v m'
  end.

(** [m.rbegin()->first] of a non-empty map. *)
Definition last_key {A} (m : list (Z * A)) : option Z := fst <$> last m.

(** [while (m.size() > n) m.erase(m.begin())] *)
Fixpoint erase_oldest {A} (n : nat) (m : list (Z * A)) : list (Z * A) :=
  match m with
  | [] => []
  | _ :: m' => if (n <? length m)%nat then erase_oldest n m' else m
  end.

(** ** Transitions *)

Definition OnBlockHeight (st : FinalityState) (height : Z) : FinalityState :=
  if ConsensusSecurityUpgradeActive height && negb (security_upgrade_active st) then
    mkState (consecutive_qualified_epochs st) (finality_ever_active st) (ever_promoted_anchor st)
      (snapshots st) (record st) (record st) true
  else st.

(** The write [finality_state.ever_promoted_anchor = true] of the anchor promotion. *)
Definition PromoteAnchor (st : FinalityState) : FinalityState :=
  mkState (consecutive_qualified_epochs st) (finality_ever_active st) true
    (snapshots st) (record st) (certified_carrier_record st) (security_upgrade_active st).

Definition OnEpochBoundary (st : FinalityState) (snap : EpochSnapshot) : FinalityState * bool :=
  if negb (SnapshotWellFormed snap) then (st, false)
  else match map_find (epoch_id snap) (snapshots st) with
  | Some prior =>
      (st, (snapshot_height prior =? snapshot_height snap) && (total_weight prior =? total_weight snap)
           && bool_decide (root prior = root snap))
  | None =>
      if match last_key (snapshots st) with Some k => epoch_id snap <=? k | None => false end
      then (st, false)
      else
        let snaps := erase_oldest SNAPSHOT_RETENTION (map_insert (epoch_id snap) snap (snapshots st)) in
        let count :=
          if SnapshotQualifies snap then
            (if negb (consecutive_qualified_epochs st =? UINT32_MAX)
             then consecutive_qualified_epochs st + 1 else consecutive_qualified_epochs st)
          else 0 in
        let ever := if 2 <=? count then true else finality_ever_active st in
        (mkState count ever (ever_promoted_anchor st) snaps (record st) (certified_carrier_record st)
           (security_upgrade_active st), true)
  end.

Definition FinalityActive (st : FinalityState) : bool := 2 <=? consecutive_qualified_epochs st.
Definition AnchorWarmupComplete (st : FinalityState) : bool := 3 <=? consecutive_qualified_epochs st.

(** The locked-QC transition rule: the source a new certificate must name. *)
Definition source_links (st : FinalityState) (qc : QuorumCert) : bool :=
  if RecordIsNull (record st) then RefIsNull (qc_source qc)
  else if bool_decide (qc_source qc <> r_target (record st)) then false
  else if height (qc_target qc) <=? height (r_target (record st)) then false
  else negb (qc_epoch_id qc <? r_epoch_id (record st)).

Definition OnCertificate (st : FinalityState) (qc : QuorumCert) (carrier : CheckpointRef)
    (canonical_target_hash : Hash256) : FinalityState * bool :=
  match map_find (qc_epoch_id qc) (snapshots st) with
  | None => (st, false)
  | Some snap =>
      if negb (FinalityActive st) then (st, false)
      else if bool_decide (hash (qc_target qc) <> canonical_target_hash) then (st, false)
      else if negb (source_links st qc) then (st, false)
      else match Finalize qc snap carrier with
      | None => (st, false)
      | Some candidate =>
          if negb (RecordSupersedes candidate (record st)) then (st, false)
          else
            let certified :=
              if security_upgrade_active st && negb (RecordIsNull (record st))
                 && (height (r_carrier (record st)) <=? height (r_target candidate))
              then record st else certified_carrier_record st in
            (mkState (consecutive_qualified_epochs st) (finality_ever_active st)
               (ever_promoted_anchor st) (snapshots st) candidate certified
               (security_upgrade_active st), true)
      end
  end.

(** ** Queries *)

Definition AnchorAuthorizationRecord (st : FinalityState) : FinalizedRecord :=
  if security_upgrade_active st then certified_carrier_record st else record st.

Definition RequiredReorgAncestor (st : FinalityState) : Z :=
  if RecordIsNull (record st) then 0
  else if ConsensusSecurityUpgradeActive (height (r_carrier (record st)))
       then height (r_target (record st)) else height (r_carrier (record st)).

Definition CandidateRetainsFinality (st candidate : FinalityState)
    (branch_has : Z -> Hash256 -> bool) : bool :=
  let r := record st in
  if RecordIsNull r then true
  else if negb (branch_has (height (r_target r)) (hash (r_target r))) then false
  else if negb (ConsensusSecurityUpgradeActive (height (r_carrier r)))
       then branch_has (height (r_carrier r)) (hash (r_carrier r))
  else let c := record candidate in
    negb (RecordIsNull c) && (height (r_target r) <=? height (r_target c))
    && (negb (height (r_target c) =? height (r_target r))
        || bool_decide (hash (r_target c) = hash (r_target r))).

Definition FinalizedHeight (st : FinalityState) : Z :=
  if RecordIsNull (record st) then 0 else height (r_target (record st)).

Definition ReorgPermitted (st : FinalityState) (common_ancestor_height : Z)
    (branch_has : Z -> Hash256 -> bool) : bool :=
  let r := record st in
  if RecordIsNull r then true
  else if negb (ConsensusSecurityUpgradeActive (height (r_carrier r)))
       then ReorgAllowed r common_ancestor_height branch_has
  else (height (r_target r) <=? common_ancestor_height)
       && branch_has (height (r_target r)) (hash (r_target r)).

Definition StateSecurityMilestoneComplete (st : FinalityState) : bool :=
  SecurityMilestoneComplete (finality_ever_active st) (ever_promoted_anchor st).

(** ** Digest *)

Definition flag (b : bool) : bytes := put_u8 (if b then 1 else 0).

Definition record_commit (r : FinalizedRecord) : bytes :=
  put_u8 (if RecordIsNull r then 0 else 1) ++ (if RecordIsNull r then [] else put_bytes (RecordDigest r)).

Definition snapshot_commit (p : Z * EpochSnapshot) : bytes :=
  put_u64_le (fst p) ++ put_u64_le (snapshot_height (snd p)) ++ put_u64_le (total_weight (snd p))
  ++ put_bytes (root (snd p)).

Definition state_body (st : FinalityState) : bytes :=
  put_u32_le (if security_upgrade_active st then 2 else 1)
  ++ put_u32_le (consecutive_qualified_epochs st)
  ++ flag (finality_ever_active st) ++ flag (ever_promoted_anchor st)
  ++ put_u32_le (u32 (size (snapshots st))) ++ concat (map snapshot_commit (snapshots st))
  ++ record_commit (record st)
  ++ (if security_upgrade_active st then record_commit (certified_carrier_record st) else []).

Definition Digest (st : FinalityState) : Hash256 := sha256_domain DOMAIN_STATE (state_body st).

(** ** Transition system *)

(** What a block can do to the state: its height, a certificate it carries, an anchor
    promotion, a snapshot at an epoch boundary. *)
Inductive event :=
| Height (h : Z)
| Certificate (qc : QuorumCert) (carrier : CheckpointRef) (canonical : Hash256)
| Promotion
| Boundary (snap : EpochSnapshot).

Definition apply_event (st : FinalityState) (e : event) : FinalityState :=
  match e with
  | Height h => OnBlockHeight st h
  | Certificate qc carrier canonical => fst (OnCertificate st qc carrier canonical)
  | Promotion => PromoteAnchor st
  | Boundary snap => fst (OnEpochBoundary st snap)
  end.

Inductive reachable : FinalityState -> Prop :=
| reach_reset : reachable Reset
| reach_step st e : reachable st -> reachable (apply_event st e).

(** ** Lemmas: certificates *)

Lemma scheduled_not_null c : IsScheduledCheckpoint (height c) = true -> RefIsNull c = false.
Proof. unfold IsScheduledCheckpoint, RefIsNull. intros H. bool_hyps. by rewrite H. Qed.

(** What a record that [Finalize] returned says. *)
Definition backed (r : FinalizedRecord) : Prop :=
  exists qc s, QcWellFormed qc s = true /\ Qualified s = true /\ qc_phase qc = PRECOMMIT
    /\ InVoteWindow (height (r_target r)) (height (r_carrier r)) = true
    /\ r_target r = qc_target qc /\ r_epoch_id r = qc_epoch_id qc /\ r_set_root r = root s
    /\ r_cert_commit r = QcCommitment qc.

Lemma Finalize_inv qc s carrier r :
  Finalize qc s carrier = Some r ->
  qc_phase qc = PRECOMMIT /\ QcWellFormed qc s = true /\ Qualified s = true
  /\ InVoteWindow (height (qc_target qc)) (height carrier) = true
  /\ r = mkRecord (qc_epoch_id qc) (qc_target qc) (qc_set_root qc) (qc_round qc) (qc_phase qc)
           (QcCommitment qc) carrier (height (qc_target qc)).
Proof.
  unfold Finalize. intros H.
  repeat match type of H with
    (if ?b then None else _) = _ => destruct b eqn:?; [done|] end.
  bool_hyps. rewrite Z.eqb_eq in *. injection H as <-. auto.
Qed.

Lemma Finalize_backed qc s carrier r :
  Finalize qc s carrier = Some r ->
  backed r /\ RecordIsNull r = false /\ r_target r = qc_target qc /\ r_carrier r = carrier.
Proof.
  intros H. apply Finalize_inv in H as (Hp & Hw & Hq & Hv & ->). cbn. unfold backed. cbn.
  pose proof (QcWellFormed_inv qc s Hw) as (_ & _ & Hr & _ & Hs & _).
  split; [|split; [|done]].
  - exists qc, s. auto 10.
  - by apply scheduled_not_null.
Qed.

(** The two outcomes of [OnCertificate]. *)
Lemma OnCertificate_cases st qc carrier canonical :
  (exists st', OnCertificate st qc carrier canonical = (st', true)
     /\ FinalityActive st = true /\ source_links st qc = true /\ hash (qc_target qc) = canonical
     /\ backed (record st') /\ RecordIsNull (record st') = false
     /\ r_target (record st') = qc_target qc /\ r_carrier (record st') = carrier
     /\ snapshots st' = snapshots st
     /\ consecutive_qualified_epochs st' = consecutive_qualified_epochs st
     /\ finality_ever_active st' = finality_ever_active st
     /\ security_upgrade_active st' = security_upgrade_active st
     /\ (certified_carrier_record st' = certified_carrier_record st
         \/ certified_carrier_record st' = record st /\ security_upgrade_active st = true
            /\ RecordIsNull (record st) = false))
  \/ OnCertificate st qc carrier canonical = (st, false).
Proof.
  unfold OnCertificate. destruct (map_find (qc_epoch_id qc) (snapshots st)) as [snap|]; [|by right].
  destruct (FinalityActive st) eqn:Ea; cbn [negb]; [|by right].
  case_bool_decide as Hc; [by right|].
  destruct (source_links st qc) eqn:El; cbn [negb]; [|by right].
  destruct (Finalize qc snap carrier) as [r|] eqn:Ef; [|by right].
  destruct (RecordSupersedes r (record st)); cbn [negb]; [|by right].
  left. eexists. split; [reflexivity|]. cbn [record snapshots consecutive_qualified_epochs
    finality_ever_active certified_carrier_record security_upgrade_active].
  pose proof (Finalize_backed qc snap carrier r Ef) as (Hb & Hn & Ht & Hcar).
  repeat (split; [done|]).
  destruct (security_upgrade_active st); cbn [andb]; [|by left].
  destruct (RecordIsNull (record st)); cbn [andb negb]; [by left|].
  destruct (_ <=? _); auto.
Qed.

Lemma source_links_inv st qc :
  source_links st qc = true -> RecordIsNull (record st) = false ->
  qc_source qc = r_target (record st) /\ height (r_target (record st)) < height (qc_target qc)
  /\ r_epoch_id (record st) <= qc_epoch_id qc.
Proof.
  unfold source_links. intros H Hn. rewrite Hn in H. revert H. case_bool_decide as Hs; [done|].
  destruct (Z.leb_spec (height (qc_target qc)) (height (r_target (record st)))); [done|].
  rewrite negb_true_iff, Z.ltb_ge. done.
Qed.

(** ** Lemmas: the ordered map *)

Lemma erase_oldest_drop {A} n (m : list (Z * A)) : erase_oldest n m = drop (length m - n) m.
Proof.
  induction m as [|p m IH]; [done|]. cbn [erase_oldest].
  destruct (Nat.ltb_spec n (length (p :: m))) as [H|H]; cbn [length] in *.
  - rewrite IH. by replace (S (length m) - n)%nat with (S (length m - n)) by lia.
  - by replace (S (length m) - n)%nat with 0%nat by lia.
Qed.

Lemma map_insert_last {A} k (v : A) m :
  Forall (fun p => fst p < k) m -> map_insert k v m = m ++ [(k, v)].
Proof.
  induction 1 as [|[k' v'] m Hk Hm IH]; [done|]. cbn [map_insert fst app] in *.
  destruct (Z.ltb_spec k k'); [lia|]. destruct (Z.eqb_spec k k'); [lia|]. by rewrite IH.
Qed.

Definition keys {A} (m : list (Z * A)) : list Z := map fst m.

(** A key above the last one is above all of them. *)
Lemma above_last_key {A} (m : list (Z * A)) k :
  StronglySorted Z.lt (keys m) ->
  match last_key m with Some l => l < k | None => True end -> Forall (fun p => fst p < k) m.
Proof.
  unfold keys, last_key. induction m as [|[k1 v1] m IH]; intros Hs Hl; [constructor|].
  cbn [map fst] in Hs. apply StronglySorted_inv in Hs as [Hs Hf].
  destruct m as [|p m'].
  - cbn in Hl. constructor; [done|constructor].
  - change (last ((k1, v1) :: p :: m')) with (last (p :: m')) in Hl.
    specialize (IH Hs Hl). constructor; [|done].
    apply Forall_inv in IH. cbn [map] in Hf. apply Forall_inv in Hf. cbn [fst] in *. lia.
Qed.

Lemma StronglySorted_snoc {A} (R : A -> A -> Prop) l x :
  StronglySorted R l -> Forall (fun y => R y x) l -> StronglySorted R (l ++ [x]).
Proof.
  induction 1 as [|a l Hs IH Hf]; intros Hx; cbn [app]; [repeat constructor|].
  apply Forall_cons in Hx as [Ha Hx]. constructor; [by apply IH|].
  apply Forall_app. split; [done|]. by constructor.
Qed.

Lemma StronglySorted_snoc_inv {A} (R : A -> A -> Prop) l x :
  StronglySorted R (l ++ [x]) -> StronglySorted R l /\ Forall (fun y => R y x) l.
Proof.
  induction l as [|a l IH]; cbn [app]; intros H; [split; constructor|].
  apply StronglySorted_inv in H as [H Hf]. apply IH in H as [H1 H2].
  apply Forall_app in Hf as [Hf Hx]. apply Forall_inv in Hx.
  split; [exact (SSorted_cons a H1 Hf)|by apply Forall_cons_2].
Qed.

Lemma StronglySorted_drop {A} (R : A -> A -> Prop) n l :
  StronglySorted R l -> StronglySorted R (drop n l).
Proof.
  intros H. revert n. induction H as [|a l Hs IH Hf]; intros [|n]; cbn [drop]; try constructor; auto.
Qed.

Lemma map_find_Forall {A} (P : Z -> A -> Prop) k v m :
  Forall (fun p => P (fst p) (snd p)) m -> map_find k m = Some v -> P k v.
Proof.
  induction 1 as [|[k' v'] m Hp Hm IH]; cbn [map_find]; [done|].
  destruct (Z.eqb_spec k' k) as [->|]; [|apply IH]. by intros [= <-].
Qed.

(** ** The invariant *)

Definition snapshots_ok (m : list (Z * EpochSnapshot)) : Prop :=
  StronglySorted Z.lt (keys m) /\ (length m <= SNAPSHOT_RETENTION)%nat
  /\ Forall (fun p => epoch_id (snd p) = fst p /\ SnapshotWellFormed (snd p) = true) m.

(** Either nothing is recorded, or the record is backed by a certificate. *)
Definition record_ok (r : FinalizedRecord) : Prop :=
  RecordIsNull r = true \/ RecordIsNull r = false /\ backed r.

Record inv (st : FinalityState) : Prop := mkInv {
  inv_snapshots : snapshots_ok (snapshots st);
  inv_count : 0 <= consecutive_qualified_epochs st <= UINT32_MAX;
  inv_active : FinalityActive st = true -> finality_ever_active st = true;
  inv_record : record_ok (record st);
  inv_warm : RecordIsNull (record st) = false -> finality_ever_active st = true;
  inv_certified : record_ok (certified_carrier_record st);
  inv_certified_le : RecordIsNull (certified_carrier_record st) = false ->
    security_upgrade_active st = true /\ RecordIsNull (record st) = false
    /\ height (r_target (certified_carrier_record st)) <= height (r_target (record st))
}.

Lemma OnEpochBoundary_cases st snap :
  consecutive_qualified_epochs st <= UINT32_MAX ->
  (exists st', OnEpochBoundary st snap = (st', true) /\ SnapshotWellFormed snap = true
     /\ match last_key (snapshots st) with Some k => k < epoch_id snap | None => True end
     /\ snapshots st' = erase_oldest SNAPSHOT_RETENTION (map_insert (epoch_id snap) snap (snapshots st))
     /\ consecutive_qualified_epochs st' =
          (if SnapshotQualifies snap then Z.min UINT32_MAX (consecutive_qualified_epochs st + 1) else 0)
     /\ finality_ever_active st' = FinalityActive st' || finality_ever_active st
     /\ record st' = record st /\ certified_carrier_record st' = certified_carrier_record st
     /\ security_upgrade_active st' = security_upgrade_active st)
  \/ fst (OnEpochBoundary st snap) = st.
Proof.
  intros Hc. unfold OnEpochBoundary. destruct (SnapshotWellFormed snap) eqn:Hw; cbn [negb]; [|by right].
  destruct (map_find (epoch_id snap) (snapshots st)) as [prior|] eqn:Ef; [by right|].
  destruct (match last_key (snapshots st) with Some k => epoch_id snap <=? k | None => false end) eqn:El;
    [by right|].
  left. eexists. split; [reflexivity|]. unfold FinalityActive. cbn [snapshots
    consecutive_qualified_epochs finality_ever_active record certified_carrier_record
    security_upgrade_active].
  split; [done|]. split; [revert El; destruct (last_key (snapshots st)); [intros El; apply Z.leb_gt in El; lia|done]|]. split; [done|].
  split; [destruct (SnapshotQualifies snap); [|done];
          destruct (Z.eqb_spec (consecutive_qualified_epochs st) UINT32_MAX); cbn [negb];
          unfold UINT32_MAX in *; lia|].
  split; [|done]. destruct (2 <=? _); done.
Qed.

Lemma inv_Reset : inv Reset.
Proof.
  split; [|unfold UINT32_MAX; cbn; lia|done|by left|done|by left|done].
  split; [constructor|]. split; [apply Nat.le_0_l|constructor].
Qed.

Lemma inv_Boundary st snap : inv st -> inv (fst (OnEpochBoundary st snap)).
Proof.
  intros [(Hs & Hl & Hf) Hc Ha Hr Hw Hcr Hle].
  destruct (OnEpochBoundary_cases st snap) as [(st' & E & Hwf & Hk & Es & Ec & Ee & Er & Ecr & Eu)|E];
    [lia| |rewrite E; by split].
  rewrite E. cbn [fst]. split; try rewrite Er; try rewrite Ecr; try rewrite Eu; try done.
  - rewrite Es, erase_oldest_drop.
    assert (Hab : Forall (fun p => fst p < epoch_id snap) (snapshots st)) by (by apply above_last_key).
    rewrite map_insert_last by done. unfold snapshots_ok, keys. rewrite <- skipn_map. split; [|split].
    + rewrite map_app. apply StronglySorted_drop, StronglySorted_snoc; [done|].
      by apply Forall_map.
    + rewrite length_drop. lia.
    + apply Forall_drop, Forall_app. split; [done|]. by repeat constructor.
  - rewrite Ec. destruct (SnapshotQualifies snap); lia.
  - rewrite Ee. intros ->. done.
  - intros H. rewrite Ee, (Hw H). apply orb_true_r.
Qed.

Lemma inv_Certificate st qc carrier canonical :
  inv st -> inv (fst (OnCertificate st qc carrier canonical)).
Proof.
  intros [Hs Hc Ha Hr Hw Hcr Hle].
  destruct (OnCertificate_cases st qc carrier canonical)
    as [(st' & E & Hact & Hl & _ & Hb & Hn & Ht & _ & Es & Ec & Ee & Eu & Ecr)|E];
    rewrite E; cbn [fst]; [|by split].
  split.
  - by rewrite Es.
  - by rewrite Ec.
  - rewrite Ee. auto.
  - right. auto.
  - rewrite Ee. auto.
  - destruct Ecr as [->|(-> & _ & _)]; done.
  - rewrite Ht, Eu, Hn. destruct Ecr as [->|(-> & Hup & Hnn)].
    + intros H. apply Hle in H as (? & Hnn & ?). apply source_links_inv in Hl as (_ & ? & _); [|done].
      split; [done|]. split; [done|lia].
    + intros _. apply source_links_inv in Hl as (_ & ? & _); [|done]. split; [done|]. split; [done|lia].
Qed.

Lemma inv_event st e : inv st -> inv (apply_event st e).
Proof.
  intros H. destruct e as [h|qc carrier canonical| |snap]; cbn [apply_event].
  - unfold OnBlockHeight. destruct (_ && _) eqn:E; [|done]. destruct H as [H1 H2 H3 H4 H5 _ _].
    by split.
  - by apply inv_Certificate.
  - destruct H. by split.
  - by apply inv_Boundary.
Qed.

Lemma reachable_inv st : reachable st -> inv st.
Proof. induction 1; [apply inv_Reset|by apply inv_event]. Qed.

(** ** A run to the first certificate *)

Lemma OnCertificate_first st qc carrier snap :
  FinalityActive st = true -> record st = NullRecord ->
  map_find (qc_epoch_id qc) (snapshots st) = Some snap ->
  QcWellFormed qc snap = true -> Qualified snap = true -> qc_phase qc = PRECOMMIT ->
  qc_source qc = NullRef -> InVoteWindow (height (qc_target qc)) (height carrier) = true ->
  OnCertificate st qc carrier (hash (qc_target qc))
  = (mkState (consecutive_qualified_epochs st) (finality_ever_active st) (ever_promoted_anchor st)
       (snapshots st)
       (mkRecord (qc_epoch_id qc) (qc_target qc) (root snap) (qc_round qc) PRECOMMIT (QcCommitment qc)
          carrier (height (qc_target qc)))
       (certified_carrier_record st) (security_upgrade_active st), true).
Proof.
  intros Ha Hr Hf Hw Hq Hp Hs Hv. pose proof (QcWellFormed_inv qc snap Hw) as (_ & _ & Hroot & _).
  unfold OnCertificate. rewrite Hf, Ha. cbn [negb].
  rewrite bool_decide_false by (intros C; by destruct C).
  unfold source_links. rewrite Hr, Hs.
  change (RecordIsNull NullRecord) with true. change (RefIsNull NullRef) with true. cbn [negb].
  unfold Finalize. rewrite Hp, Hw, Hq, Hv, Hroot. cbn [negb].
  rewrite andb_false_r. reflexivity.
Qed.

Section FirstCertificate.
Context (s2 s3 : EpochSnapshot) (qc : QuorumCert) (carrier : CheckpointRef).
Context (H2 : epoch_id s2 = 2) (H3 : epoch_id s3 = 3).
Context (Q2 : SnapshotQualifies s2 = true) (Q3 : SnapshotQualifies s3 = true).

Definition warmed : FinalityState :=
  apply_event (apply_event Reset (Boundary s2)) (Boundary s3).

Lemma warmed_eq : warmed = mkState 2 true false [(2, s2); (3, s3)] NullRecord NullRecord false.
Proof.
  pose proof Q2 as W2. pose proof Q3 as W3. unfold SnapshotQualifies in W2, W3. bool_hyps.
  unfold warmed. cbn [apply_event]. unfold OnEpochBoundary at 2.
  rewrite Q2, H2. match goal with H : SnapshotWellFormed s2 = true |- _ => rewrite H end.
  cbn -[OnEpochBoundary]. unfold OnEpochBoundary. rewrite Q3, H3.
  match goal with H : SnapshotWellFormed s3 = true |- _ => rewrite H end. reflexivity.
Qed.

Lemma first_certificate :
  QcWellFormed qc s3 = true -> qc_phase qc = PRECOMMIT -> qc_source qc = NullRef ->
  InVoteWindow (height (qc_target qc)) (height carrier) = true ->
  OnCertificate warmed qc carrier (hash (qc_target qc))
  = (mkState 2 true false [(2, s2); (3, s3)]
       (mkRecord 3 (qc_target qc) (root s3) (qc_round qc) PRECOMMIT (QcCommitment qc) carrier
          (height (qc_target qc))) NullRecord false, true).
Proof.
  intros Hw Hp Hs Hv. rewrite warmed_eq.
  pose proof (QcWellFormed_inv qc s3 Hw) as (_ & He & _). rewrite H3 in He.
  unfold SnapshotQualifies in Q3. apply andb_true_iff in Q3 as [_ Q].
  rewrite (OnCertificate_first _ qc carrier s3); try done; rewrite He; done.
Qed.

End FirstCertificate.

(** The sample validators finalize height 1440 in the block above it. *)
Definition sample_target : CheckpointRef := mkRef 1440 ZeroHash.
Definition sample_carrier : CheckpointRef := mkRef 1441 (replicate 32 1).
Definition sample_qc : QuorumCert :=
  mkQc 3 (root (sample_set 3)) PRECOMMIT (CheckpointRound 1440) NullRef sample_target [127]
    (7 * BOND_PER_KEY_UNITS).

Lemma sample_set_size ep :
  existsb (Z.eqb ep) [2; 3; 4] = true -> length (entries (sample_set ep)) = 7%nat.
Proof.
  intros H. destruct (BuildEpochSnapshot_entries sample_registry ep (SnapshotHeightFor ep)
    sample_registry_ok) as [_ Hp].
  unfold sample_set. rewrite <- Hp, length_map, sample_all_qualified; [reflexivity|].
  cbn [existsb] in H. rewrite !orb_true_iff, !Z.eqb_eq in H.
  destruct H as [->|[->|[->|H]]]; [reflexivity..|done].
Qed.

(** A certificate signed by all members of a set of seven. *)
Lemma full_weight s :
  SnapshotWellFormed s = true -> length (entries s) = 7%nat ->
  BitmapWeight s [127] = 7 * BOND_PER_KEY_UNITS
  /\ IsSupermajority (7 * BOND_PER_KEY_UNITS) (total_weight s) = true.
Proof.
  intros Hw Hn. assert (Hrep : representable s).
  { unfold representable, size, MAX_FINALITY_VALIDATOR_COUNT. rewrite Hn. lia. }
  split.
  - rewrite BitmapWeight_count; [|by apply SnapshotWellFormed_iff in Hw as (? & _)|done].
    unfold signers. rewrite Hn. reflexivity.
  - rewrite (total_weight_eq _ Hw Hrep). unfold size. rewrite Hn. reflexivity.
Qed.

Lemma full_qc_ok s qc :
  SnapshotWellFormed s = true -> length (entries s) = 7%nat -> qc_epoch_id qc = epoch_id s ->
  qc_set_root qc = root s -> qc_phase qc = PREVOTE \/ qc_phase qc = PRECOMMIT ->
  IsScheduledCheckpoint (height (qc_target qc)) = true ->
  EpochOf (height (qc_target qc)) = qc_epoch_id qc ->
  qc_round qc = CheckpointRound (height (qc_target qc)) ->
  SourceRefWellFormed (qc_source qc) (qc_target qc) = true ->
  qc_bitmap qc = [127] -> qc_weight qc = 7 * BOND_PER_KEY_UNITS ->
  QcWellFormed qc s = true.
Proof.
  intros Hw Hn He Hr Hp Hs Hep Hro Hso Hbm Hwt. destruct (full_weight s Hw Hn) as [Hb Hsup].
  apply QcWellFormed_intro; try done; rewrite ?Hbm, ?Hwt.
  - unfold size. rewrite Hn. reflexivity.
  - intros i Hi. rewrite Hn. destruct (decide (i < 7)%nat) as [|Hge]; [done|exfalso].
    destruct (decide (i < 8)%nat) as [Hlt|Hge8].
    + assert (i = 7%nat) as -> by lia. vm_compute in Hi. discriminate Hi.
    + unfold bit_set in Hi. rewrite lookup_ge_None_2 in Hi; [discriminate Hi|].
      cbn [length]. assert (8 / 8 <= i / 8)%nat by (apply Nat.Div0.div_le_mono; lia).
      change (8 / 8)%nat with 1%nat in *. done.
  - exact Hb.
  - exact Hsup.
Qed.

Lemma sample_qc_ok : QcWellFormed sample_qc (sample_set 3) = true.
Proof.
  pose proof (sample_set_qualifies 3 eq_refl) as Hq. unfold SnapshotQualifies in Hq.
  apply andb_true_iff in Hq as [Hw _]. pose proof (sample_set_size 3 eq_refl) as Hn.
  assert (Hd : EpochOf (height (qc_target sample_qc)) = 3) by reflexivity.
  apply (full_qc_ok (sample_set 3) sample_qc Hw Hn); cbn [sample_qc qc_epoch_id qc_set_root qc_phase
    qc_round qc_source qc_target qc_bitmap qc_weight];
    [reflexivity|reflexivity|right; reflexivity|reflexivity|exact Hd|reflexivity..].
Qed.

Definition sample_state : FinalityState :=
  apply_event (warmed (sample_set 2) (sample_set 3))
    (Certificate sample_qc sample_carrier (hash (qc_target sample_qc))).

Lemma sample_state_record :
  record sample_state
  = mkRecord 3 sample_target (root (sample_set 3)) (qc_round sample_qc) PRECOMMIT (QcCommitment sample_qc)
      sample_carrier 1440.
Proof.
  unfold sample_state. cbn [apply_event].
  rewrite (first_certificate (sample_set 2) (sample_set 3) sample_qc sample_carrier eq_refl eq_refl
    (sample_set_qualifies 2 eq_refl) (sample_set_qualifies 3 eq_refl) sample_qc_ok eq_refl eq_refl eq_refl).
  reflexivity.
Qed.

Lemma sample_state_reachable : reachable sample_state.
Proof. unfold sample_state, warmed. do 3 apply reach_step. apply reach_reset. Qed.

Lemma backed_facts r :
  backed r -> IsScheduledCheckpoint (height (r_target r)) = true
  /\ r_epoch_id r = EpochOf (height (r_target r))
  /\ height (r_target r) < height (r_carrier r) <= u64 (height (r_target r) + VOTE_WINDOW_BLOCKS).
Proof.
  intros (qc & s & Hw & _ & _ & Hv & Ht & He & _).
  apply QcWellFormed_inv in Hw as (_ & _ & _ & _ & Hs & Hep & _).
  unfold InVoteWindow in Hv. bool_hyps. rewrite He, Ht, Hep in *. repeat split; [done|lia..].
Qed.

(** C8: the retained state is sound in every reachable state.  At most two snapshots
    are kept, in epoch order, each well formed and filed under its own epoch; a
    non-empty record exists only after finality was activated and is backed by a
    well-formed precommit certificate over a qualified set, for a scheduled checkpoint
    of the record's epoch, carried inside its vote window; and the record that may
    authorize anchors is never ahead of the latest record. *)
Theorem retained_state_sound st :
  reachable st ->
  snapshots_ok (snapshots st)
  /\ (RecordIsNull (record st) = false ->
      finality_ever_active st = true /\ backed (record st)
      /\ IsScheduledCheckpoint (FinalizedHeight st) = true
      /\ r_epoch_id (record st) = EpochOf (FinalizedHeight st)
      /\ FinalizedHeight st < height (r_carrier (record st))
         <= u64 (FinalizedHeight st + VOTE_WINDOW_BLOCKS))
  /\ (RecordIsNull (AnchorAuthorizationRecord st) = false ->
      backed (AnchorAuthorizationRecord st)
      /\ height (r_target (AnchorAuthorizationRecord st)) <= FinalizedHeight st).
Proof.
  intros H. apply reachable_inv in H as [Hs _ _ Hr Hw Hcr Hle]. split; [done|]. unfold FinalizedHeight.
  split.
  - intros Hn. rewrite Hn. destruct Hr as [C|[_ Hb]]; [congruence|].
    pose proof (backed_facts _ Hb) as (? & ? & ?). auto.
  - unfold AnchorAuthorizationRecord. destruct (security_upgrade_active st).
    + intros Hn. apply Hle in Hn as Hl. destruct Hl as (_ & -> & ?).
      destruct Hcr as [C|[_ Hb]]; [congruence|]. done.
    + intros Hn. rewrite Hn. destruct Hr as [C|[_ Hb]]; [congruence|]. split; [done|lia].
Qed.

Lemma retained_state_sound_witness :
  reachable sample_state /\ RecordIsNull (record sample_state) = false
  /\ backed (record sample_state) /\ IsScheduledCheckpoint (FinalizedHeight sample_state) = true.
Proof.
  destruct (retained_state_sound sample_state sample_state_reachable) as (_ & H & _).
  assert (Hn : RecordIsNull (record sample_state) = false) by (rewrite sample_state_record; reflexivity).
  destruct (H Hn) as (_ & Hb & Hc & _).
  split; [apply sample_state_reachable|]. split; [exact Hn|]. split; [exact Hb|exact Hc].
Defined.

(** ** Warm-up *)

(** The length of the longest all-true suffix. *)
Definition trailing (l : list bool) : Z := foldl (fun n (b : bool) => if b then n + 1 else 0) 0 l.

Definition adjacent_pair (l : list bool) : Prop := exists i, l !! i = Some true /\ l !! S i = Some true.

Definition observe (snaps : list EpochSnapshot) : FinalityState :=
  foldl (fun st s => fst (OnEpochBoundary st s)) Reset snaps.

Lemma trailing_snoc l b : trailing (l ++ [b]) = if b then trailing l + 1 else 0.
Proof. unfold trailing. by rewrite foldl_app. Qed.

Lemma trailing_bound l : 0 <= trailing l <= size l.
Proof.
  unfold size. induction l as [|b l IH] using rev_ind; [cbn; lia|].
  rewrite trailing_snoc, length_app. cbn [length]. destruct b; lia.
Qed.

Lemma trailing_two l : 2 <= trailing l <-> exists l', l = l' ++ [true; true].
Proof.
  split.
  - destruct l as [|b l _] using rev_ind; [cbn; lia|]. rewrite trailing_snoc. destruct b; [|lia].
    destruct l as [|b l _] using rev_ind; [cbn; lia|]. rewrite trailing_snoc. destruct b; [|lia].
    intros _. exists l. by rewrite <- app_assoc.
  - intros [l' ->]. change [true; true] with ([true] ++ [true]). rewrite app_assoc, !trailing_snoc.
    pose proof (trailing_bound l'). lia.
Qed.

Lemma adjacent_pair_snoc l b :
  adjacent_pair (l ++ [b]) <-> adjacent_pair l \/ 2 <= trailing (l ++ [b]).
Proof.
  rewrite trailing_two. unfold adjacent_pair. split.
  - intros (i & H1 & H2). destruct (decide (S i < length l)%nat) as [Hlt|Hge].
    + left. exists i. rewrite !lookup_app_l in * by lia. auto.
    + right. pose proof (lookup_lt_Some _ _ _ H2) as Hlen. rewrite length_app in Hlen. cbn in Hlen.
      rewrite lookup_app_l in H1 by lia. exists (take i l).
      rewrite <- (take_drop_middle l i true H1) at 1. rewrite drop_ge by lia.
      rewrite lookup_app_r in H2 by lia. replace (S i - length l)%nat with 0%nat in H2 by lia.
      injection H2 as ->. by rewrite <- app_assoc.
  - intros [(i & H1 & H2)|[l' E]].
    + exists i. rewrite !lookup_app_l; [done|by eapply lookup_lt_Some..].
    + exists (length l'). rewrite E. split; rewrite lookup_app_r by lia.
      * by rewrite Nat.sub_diag.
      * by replace (S (length l') - length l')%nat with 1%nat by lia.
Qed.

Definition filed (snaps : list EpochSnapshot) : list (Z * EpochSnapshot) :=
  map (fun s => (epoch_id s, s)) snaps.

(** Keeping two of what was kept plus one more is keeping two of all. *)
Lemma keep_two_snoc {A} (l : list A) x :
  let k := drop (length l - 2) l ++ [x] in
  drop (length k - 2) k = drop (length (l ++ [x]) - 2) (l ++ [x]).
Proof.
  intros k. unfold k. rewrite !length_app, length_drop. cbn [length].
  destruct (decide (length l <= 2)%nat) as [Hle|Hgt].
  - replace (length l - 2)%nat with 0%nat by lia. cbn [drop]. f_equal. lia.
  - rewrite !drop_app_le by (rewrite ?length_drop; lia). rewrite drop_drop. f_equal. f_equal. lia.
Qed.

Lemma last_filed snaps : last_key (filed snaps) = epoch_id <$> last snaps.
Proof. unfold last_key, filed. rewrite fmap_last. by destruct (last snaps). Qed.

(** The boundary transition on a newer epoch. *)
Lemma OnEpochBoundary_newer st snap :
  SnapshotWellFormed snap = true -> Forall (fun p => fst p < epoch_id snap) (snapshots st) ->
  0 <= consecutive_qualified_epochs st < UINT32_MAX ->
  let count := if SnapshotQualifies snap then consecutive_qualified_epochs st + 1 else 0 in
  OnEpochBoundary st snap
  = (mkState count ((2 <=? count) || finality_ever_active st) (ever_promoted_anchor st)
       (erase_oldest SNAPSHOT_RETENTION (snapshots st ++ [(epoch_id snap, snap)]))
       (record st) (certified_carrier_record st) (security_upgrade_active st), true).
Proof.
  intros Hw Hf Hc. unfold OnEpochBoundary. rewrite Hw. cbn [negb].
  assert (Hnone : map_find (epoch_id snap) (snapshots st) = None).
  { induction Hf as [|[k v] m Hk Hm IH]; [done|]. cbn [map_find fst] in *.
    destruct (Z.eqb_spec k (epoch_id snap)); [lia|]. done. }
  rewrite Hnone.
  assert (Hlast : (match last_key (snapshots st) with Some k => epoch_id snap <=? k | None => false end)
                  = false).
  { unfold last_key. destruct (last (snapshots st)) as [p|] eqn:E; [|done]. cbn.
    apply last_Some in E as [l' E]. rewrite E, Forall_app, Forall_singleton in Hf. lia. }
  rewrite Hlast, map_insert_last by done.
  destruct (Z.eqb_spec (consecutive_qualified_epochs st) UINT32_MAX); [lia|]. cbn [negb].
  destruct (SnapshotQualifies snap); cbn zeta; f_equal; f_equal; by destruct (2 <=? _).
Qed.

Lemma observe_spec snaps :
  Forall (fun s => SnapshotWellFormed s = true) snaps ->
  StronglySorted Z.lt (map epoch_id snaps) -> size snaps < UINT32_MAX ->
  let l := map SnapshotQualifies snaps in
  consecutive_qualified_epochs (observe snaps) = trailing l
  /\ (finality_ever_active (observe snaps) = true <-> adjacent_pair l)
  /\ snapshots (observe snaps) = drop (length snaps - 2) (filed snaps).
Proof.
  induction snaps as [|s snaps IH] using rev_ind; intros Hw Hs Hn.
  { split; [done|]. split; [|done]. split; [done|]. by intros (i & C & _). }
  cbn zeta in *. apply Forall_app in Hw as [Hw Hws]. apply Forall_inv in Hws.
  rewrite map_app in Hs. apply StronglySorted_snoc_inv in Hs as [Hs Hlt].
  unfold size in *. rewrite length_app in Hn. cbn [length] in Hn.
  destruct IH as (Ec & Ea & Es); [done|done|lia|].
  unfold observe. rewrite foldl_app. cbn [foldl]. fold (observe snaps).
  assert (Hf : Forall (fun p => fst p < epoch_id s) (filed snaps)).
  { apply Forall_map. by apply Forall_map in Hlt. }
  pose proof (trailing_bound (map SnapshotQualifies snaps)) as Hb. unfold size in Hb. rewrite length_map in Hb.
  rewrite OnEpochBoundary_newer; [|done|rewrite Es; by apply Forall_drop|rewrite Ec; lia].
  cbn [fst consecutive_qualified_epochs finality_ever_active snapshots].
  rewrite map_app. cbn [map]. rewrite adjacent_pair_snoc, trailing_snoc, Ec. split; [done|]. split.
  - rewrite orb_true_iff, Z.leb_le, Ea. tauto.
  - rewrite Es, erase_oldest_drop. unfold SNAPSHOT_RETENTION.
    pose proof (keep_two_snoc (filed snaps) (epoch_id s, s)) as K. cbn zeta in K.
    unfold filed in *. rewrite length_map in K. rewrite K, map_app, !length_app, length_map. done.
Qed.

(** The warm-up is exact.  After any sequence of boundary snapshots in epoch order,
    the counter is the number of qualified epochs at the end of the sequence, finality
    has ever been active exactly when two consecutive epochs qualified, it is active
    now exactly when the last two did, and the retained sets are the last two: an
    unqualified epoch restarts the count. *)
Lemma warmup_exact snaps :
  Forall (fun s => SnapshotWellFormed s = true) snaps ->
  StronglySorted Z.lt (map epoch_id snaps) -> size snaps < UINT32_MAX ->
  let l := map SnapshotQualifies snaps in
  let st := observe snaps in
  consecutive_qualified_epochs st = trailing l
  /\ (FinalityActive st = true <-> exists l', l = l' ++ [true; true])
  /\ (finality_ever_active st = true <-> adjacent_pair l)
  /\ snapshots st = drop (length snaps - 2) (filed snaps).
Proof.
  intros Hw Hs Hn l st. destruct (observe_spec snaps Hw Hs Hn) as (Ec & Ea & Es).
  split; [done|]. split; [|done]. unfold FinalityActive, st. rewrite Ec, Z.leb_le. apply trailing_two.
Qed.

Lemma warmup_exact_witness : FinalityActive (observe [sample_set 2; sample_set 3]) = true.
Proof.
  destruct (warmup_exact [sample_set 2; sample_set 3]) as (_ & H & _).
  - apply Forall_cons_2; [|apply Forall_cons_2; [|apply Forall_nil_2]];
      apply BuildEpochSnapshot_ok, sample_registry_ok.
  - cbn [map]. change (epoch_id (sample_set 2)) with 2. change (epoch_id (sample_set 3)) with 3.
    apply SSorted_cons; [apply SSorted_cons; constructor|].
    apply Forall_cons_2; [reflexivity|constructor].
  - unfold size. cbn [length]. reflexivity.
  - apply (proj2 H). exists []. cbn [map app]. rewrite !sample_set_qualifies by reflexivity. reflexivity.
Defined.

(** ** The abstract ledger of finalized checkpoints *)

(** Newest first.  The specification knows only that checkpoints are added, each above
    the one before it. *)
Abbreviation ledger := (list CheckpointRef).

Inductive ledger_step : ledger -> ledger -> Prop :=
| ledger_first t : IsScheduledCheckpoint (height t) = true -> ledger_step [] [t]
| ledger_next t s l :
    IsScheduledCheckpoint (height t) = true -> height s < height t -> ledger_step (s :: l) (t :: s :: l).

Definition represents (st : FinalityState) (l : ledger) : Prop :=
  match l with
  | [] => RecordIsNull (record st) = true
  | t :: _ => RecordIsNull (record st) = false /\ r_target (record st) = t
  end.

(** The justified source a certificate must name against a ledger. *)
Definition justified_by (qc : QuorumCert) (l : ledger) : Prop :=
  match l with [] => RefIsNull (qc_source qc) = true | s :: _ => qc_source qc = s end.

Lemma represents_record st st' l : record st' = record st -> represents st l -> represents st' l.
Proof. intros E. unfold represents. by rewrite E. Qed.

Lemma record_OnBlockHeight st h : record (OnBlockHeight st h) = record st.
Proof. unfold OnBlockHeight. by destruct (_ && _). Qed.

Lemma record_OnEpochBoundary st snap : record (fst (OnEpochBoundary st snap)) = record st.
Proof.
  unfold OnEpochBoundary. destruct (SnapshotWellFormed snap); [|done]. cbn [negb].
  destruct (map_find _ _); [done|].
  by destruct (match last_key (snapshots st) with Some k => epoch_id snap <=? k | None => false end).
Qed.

(** An accepted certificate adds its target to the ledger. *)
Lemma certificate_extends st l qc carrier canonical st' :
  represents st l -> OnCertificate st qc carrier canonical = (st', true) ->
  represents st' (qc_target qc :: l) /\ ledger_step l (qc_target qc :: l) /\ justified_by qc l
  /\ hash (qc_target qc) = canonical.
Proof.
  intros Hl E. destruct (OnCertificate_cases st qc carrier canonical)
    as [(st1 & E1 & _ & Hs & Hc & Hb & Hn & Ht & _)|E1]; [|congruence].
  rewrite E in E1. injection E1 as <-. apply backed_facts in Hb as (Hsch & _). rewrite Ht in Hsch.
  split; [done|]. destruct l as [|s l]; cbn [represents justified_by] in *.
  - unfold source_links in Hs. rewrite Hl in Hs. split; [by constructor|]. done.
  - destruct Hl as [Hnn <-]. apply source_links_inv in Hs as (Hsrc & Hlt & _); [|done].
    split; [by constructor|]. done.
Qed.

(** C13: refinement of the abstract ledger.  Whatever a block does to the finality
    state, the ledger it represents either stays as it is or grows by one checkpoint
    above the last, and it grows only by the target of an accepted certificate whose
    source is the last finalized checkpoint and whose hash is the canonical one. *)
Theorem ledger_refinement st l e :
  represents st l ->
  exists l', represents (apply_event st e) l'
    /\ (l' = l
        \/ ledger_step l l'
           /\ exists qc carrier canonical, e = Certificate qc carrier canonical
              /\ snd (OnCertificate st qc carrier canonical) = true
              /\ l' = qc_target qc :: l /\ justified_by qc l /\ hash (qc_target qc) = canonical).
Proof.
  intros Hl. destruct e as [h|qc carrier canonical| |snap]; cbn [apply_event].
  - exists l. split; [|by left]. by apply (represents_record st); [apply record_OnBlockHeight|].
  - destruct (OnCertificate st qc carrier canonical) as [st' [|]] eqn:E; cbn [fst snd].
    + destruct (certificate_extends st l qc carrier canonical st' Hl E) as (H1 & H2 & H3 & H4).
      exists (qc_target qc :: l). split; [done|]. right. split; [done|].
      exists qc, carrier, canonical. by rewrite E.
    + exists l. split; [|by left].
      destruct (OnCertificate_cases st qc carrier canonical) as [(? & E1 & _)|E1]; [congruence|].
      rewrite E in E1. injection E1 as ->. done.
  - exists l. split; [|by left]. by apply (represents_record st).
  - exists l. split; [|by left]. by apply (represents_record st); [apply record_OnEpochBoundary|].
Qed.

Lemma ledger_refinement_witness :
  exists l', represents sample_state l' /\ (l' = [] \/ l' = [sample_target]).
Proof.
  destruct (ledger_refinement (warmed (sample_set 2) (sample_set 3)) []
    (Certificate sample_qc sample_carrier (hash (qc_target sample_qc)))) 
    as (l' & H & [->|(_ & qc & ca & cn & E & _ & E' & _)]).
  - rewrite warmed_eq; [reflexivity|reflexivity|reflexivity|apply sample_set_qualifies; reflexivity..].
  - exists []. split; [exact H|left; reflexivity].
  - exists l'. split; [exact H|right]. rewrite E'. injection E as <- _ _. reflexivity.
Defined.
