(* ===== verification/Validators.v ===== *)
(** * The validator registry: records, settlement schedule, retained membership
    ([consensus/validators.h])

    The registry's state, the boundary arithmetic that decides when a bond may be
    paid, the epoch membership kept for equivocation evidence, and the admission test
    for that evidence.  An [unordered_map] is a [gmap]; where the code iterates one,
    the iteration order is the map's own and no result depends on it.  The 128-bit
    intermediate sums of the source cannot overflow for 64-bit heights and are
    integers here. *)
From S2P Require Import Prelude Bytes Sha256 Profile StateDigest FinalityQc FinalitySnapshot FinalityState.
From Stdlib Require Import Sorting.Sorted.

(** ** Constants *)

Definition SLASH_EVIDENCE_WINDOW : Z := 7 * BLOCKS_PER_DAY.
Definition VALIDATOR_SLASHING_HEIGHT : Z := 0.
Definition STAKE_VAULT_ACTIVATION_HEIGHT : Z := VALIDATOR_SLASHING_HEIGHT.
Definition VALIDATOR_OP_COOLDOWN_BLOCKS : Z := 100.
Definition BATCH2_HARDENING_HEIGHT : Z := 0.
Definition FINALITY_EQUIV_EVIDENCE_WINDOW : Z := 90 * EPOCH_BLOCKS.
Definition FINALITY_CLEAN_EXIT_WINDOW : Z := FINALITY_EQUIV_EVIDENCE_WINDOW.
Definition FINALITY_MEMBERSHIP_RETENTION_EPOCHS : Z := 92.

(** ** State *)

Record EndorsementRecord := mkEndorsement {
  en_pubkey_hex : bytes;
  en_address : bytes;
  en_sig_hex : bytes;
  en_block_hash_hex : bytes;
  en_block_height : Z;
  en_reward_paid : bool
}.

Record SlashEvidence := mkEvidence {
  ev_pubkey_hex : bytes;
  ev_address : bytes;
  ev_height : Z;
  ev_hash_a_hex : bytes;
  ev_hash_b_hex : bytes;
  ev_sig_a_hex : bytes;
  ev_sig_b_hex : bytes;
  ev_slasher_address : bytes;
  ev_evidence_block : Z
}.

Record FinalityMembershipRecord := mkMembership { m_root : Hash256; m_members : list Hash256 }.

Record RetainedFinalityMember := mkRetained {
  rm_epoch : Z; rm_root : Hash256; rm_pubkey_commit : Hash256; rm_pubkey_hex : bytes }.

Record FinalityEquivocationRecord := mkEquivocation {
  eq_epoch : Z;
  eq_phase : Z;
  eq_round : Z;
  eq_target_a : CheckpointRef;
  eq_target_b : CheckpointRef;
  eq_evidence_block : Z;
  eq_slasher_address : bytes;
  eq_evidence_commit : Hash256
}.

Inductive SettlementKind := DEREGISTER_RETURN | SLASH_CONFISCATE | SLASH_EQUIVOCATION.
#[global] Instance SettlementKind_eq_dec : EqDecision SettlementKind.
Proof. solve_decision. Defined.

Record BondSettlement := mkSettlement {
  bs_address : bytes; bs_kind : SettlementKind; bs_bond_units : Z; bs_slasher_address : bytes }.

Record BondYieldTranche := mkTranche { accrual_height : Z; units : Z }.

Record ValidatorRegistry := mkRegistry {
  total_staked_units_ : Z;
  min_validator_stake_override_ : Z;
  validators_ : gmap bytes ValidatorRecord;
  address_to_pubkey_ : gmap bytes bytes;
  endorsements_ : gmap Z (list EndorsementRecord);
  endorsement_keys_ : gset bytes;
  endorsement_pool_outpoints_ : gset bytes;
  last_canonical_endorsement_flush_height_ : Z;
  last_op_height_ : gmap bytes Z;
  bond_yield_escrow_ : gmap bytes (list BondYieldTranche);
  slashed_evidence_ : list SlashEvidence;
  slashed_evidence_keys_ : gset bytes;
  evidence_per_pubkey_ : gmap bytes Z;
  slashed_pubkeys_ : gset bytes;
  finality_membership_ : list (Z * FinalityMembershipRecord);
  finality_equivocations_ : gmap bytes FinalityEquivocationRecord;
  security_upgrade_active_ : bool;
  state_migration_active_ : bool
}.

(** A default-constructed registry. *)
Definition EmptyRegistry : ValidatorRegistry :=
  mkRegistry 0 0 ∅ ∅ ∅ ∅ ∅ 0 ∅ ∅ [] ∅ ∅ ∅ [] ∅ false false.

Definition set_validators (reg : ValidatorRegistry) (v : gmap bytes ValidatorRecord) : ValidatorRegistry :=
  mkRegistry (total_staked_units_ reg) (min_validator_stake_override_ reg) v (address_to_pubkey_ reg)
    (endorsements_ reg) (endorsement_keys_ reg) (endorsement_pool_outpoints_ reg)
    (last_canonical_endorsement_flush_height_ reg) (last_op_height_ reg) (bond_yield_escrow_ reg)
    (slashed_evidence_ reg) (slashed_evidence_keys_ reg) (evidence_per_pubkey_ reg)
    (slashed_pubkeys_ reg) (finality_membership_ reg) (finality_equivocations_ reg)
    (security_upgrade_active_ reg) (state_migration_active_ reg).

Definition set_membership (reg : ValidatorRegistry) (m : list (Z * FinalityMembershipRecord))
  : ValidatorRegistry :=
  mkRegistry (total_staked_units_ reg) (min_validator_stake_override_ reg) (validators_ reg)
    (address_to_pubkey_ reg) (endorsements_ reg) (endorsement_keys_ reg)
    (endorsement_pool_outpoints_ reg) (last_canonical_endorsement_flush_height_ reg)
    (last_op_height_ reg) (bond_yield_escrow_ reg) (slashed_evidence_ reg) (slashed_evidence_keys_ reg)
    (evidence_per_pubkey_ reg) (slashed_pubkeys_ reg) m (finality_equivocations_ reg)
    (security_upgrade_active_ reg) (state_migration_active_ reg).

(** ** Helpers of the standard library *)

Definition is_lower_hex (c : Z) : bool := ((48 <=? c) && (c <=? 57)) || ((97 <=? c) && (c <=? 102)).

Definition IsCanonicalLowerHex (s : bytes) (exact_size : Z) : bool :=
  (size s =? exact_size) && forallb is_lower_hex s.

(** [std::binary_search] *)
Definition binary_search (keys : list Hash256) (wanted : Hash256) : bool :=
  match keys !! lower_bound (length keys) keys 0 (length keys) wanted with
  | Some k => negb (lex_lt wanted k)
  | None => false
  end.

(** [std::sort] on hashes. *)
Fixpoint insert_hash (h : Hash256) (l : list Hash256) : list Hash256 :=
  match l with
  | [] => [h]
  | x :: l' => if lex_lt x h then x :: insert_hash h l' else h :: l
  end.
Definition sort_hashes (l : list Hash256) : list Hash256 := foldr insert_hash [] l.

(** [while (!m.empty() && m.begin()->first < keep) m.erase(m.begin())] *)
Fixpoint erase_below {A} (keep : Z) (m : list (Z * A)) : list (Z * A) :=
  match m with
  | [] => []
  | (k, v) :: m' => if k <? keep then erase_below keep m' else m
  end.

(** ** Settlement boundaries *)

Definition saturate64 (x : Z) : Z := if x >? UINT64_MAX then UINT64_MAX else x.

Definition DeregEvidenceCooldown (deregistered_at_height : Z) : Z :=
  if STAKE_VAULT_ACTIVATION_HEIGHT <=? deregistered_at_height
  then Z.max VALIDATOR_OP_COOLDOWN_BLOCKS FINALITY_CLEAN_EXIT_WINDOW
  else VALIDATOR_OP_COOLDOWN_BLOCKS.

Definition DeregReturnBoundary (deregistered_at_height last_finality_vote_height : Z) : Z :=
  let evidence_end := deregistered_at_height + DeregEvidenceCooldown deregistered_at_height in
  let evidence_end :=
    if negb (last_finality_vote_height =? 0) then
      let finality_end := last_finality_vote_height + FINALITY_EQUIV_EVIDENCE_WINDOW in
      if finality_end >? evidence_end then finality_end else evidence_end
    else evidence_end in
  saturate64 ((evidence_end / BOND_SETTLEMENT_INTERVAL + 1) * BOND_SETTLEMENT_INTERVAL).

Definition SlashSettlementBoundary (slashed_at_height : Z) : Z :=
  let earliest := slashed_at_height + VALIDATOR_OP_COOLDOWN_BLOCKS in
  saturate64 ((earliest + BOND_SETTLEMENT_INTERVAL - 1) / BOND_SETTLEMENT_INTERVAL
              * BOND_SETTLEMENT_INTERVAL).

Definition LegacyPrincipalBoundary (rec : ValidatorRecord) : Z :=
  if negb (v_bond_custodial rec) || (v_bond_units rec =? 0) then 0
  else if v_slashed rec && negb (v_slashed_at_height rec =? 0)
       then SlashSettlementBoundary (v_slashed_at_height rec)
  else if negb (v_slashed rec) && negb (v_deregistered_at_height rec =? 0)
       then DeregReturnBoundary (v_deregistered_at_height rec) (v_last_finality_vote_height rec)
  else 0.

Definition PrincipalAlreadyPaidLocked (rec : ValidatorRecord) (height : Z) : bool :=
  if negb (v_principal_settled_at rec =? 0) then true
  else let legacy := LegacyPrincipalBoundary rec in
    ConsensusSecurityUpgradeActive height && negb (legacy =? 0)
    && (legacy <? CONSENSUS_SECURITY_UPGRADE_HEIGHT).

(** The loop over the retained memberships: the end of the last evidence window. *)
Fixpoint membership_end (commit : Hash256) (registered : Z)
    (m : list (Z * FinalityMembershipRecord)) (endh : Z) : Z :=
  match m with
  | [] => endh
  | (epoch, membership) :: m' =>
      if negb (binary_search (m_members membership) commit) then membership_end commit registered m' endh
      else
        let epoch_end := (epoch + 1) * EPOCH_BLOCKS - 1 in
        if epoch_end <? registered then membership_end commit registered m' endh
        else membership_end commit registered m'
               (Z.max endh (epoch_end + FINALITY_EQUIV_EVIDENCE_WINDOW))
  end.

Definition evidence_end (reg : ValidatorRegistry) (rec : ValidatorRecord) : Z :=
  let endh := if v_slashed rec then v_slashed_at_height rec + SLASH_EVIDENCE_WINDOW
              else v_deregistered_at_height rec + DeregEvidenceCooldown (v_deregistered_at_height rec) in
  let endh := if negb (v_last_finality_vote_height rec =? 0)
              then Z.max endh (v_last_finality_vote_height rec + FINALITY_EQUIV_EVIDENCE_WINDOW)
              else endh in
  membership_end (PubkeyCommit (v_pubkey_hex rec)) (v_registered_height rec)
    (finality_membership_ reg) endh.

Definition PrincipalSettlementBoundaryLocked (reg : ValidatorRegistry) (rec : ValidatorRecord)
    (height : Z) : Z :=
  let legacy := LegacyPrincipalBoundary rec in
  if negb (ConsensusSecurityUpgradeActive height) then legacy
  else if (legacy =? 0) || PrincipalAlreadyPaidLocked rec height then 0
  else saturate64 ((evidence_end reg rec / BOND_SETTLEMENT_INTERVAL + 1) * BOND_SETTLEMENT_INTERVAL).

Definition PrincipalEvidenceOpenLocked (reg : ValidatorRegistry) (rec : ValidatorRecord) (height : Z)
  : bool :=
  if negb (v_bond_custodial rec) || (v_bond_units rec =? 0) then true
  else if PrincipalAlreadyPaidLocked rec height then false
  else let due := PrincipalSettlementBoundaryLocked reg rec height in (due =? 0) || (height <? due).

Definition DeregisteredBondPendingAtLocked (rec : ValidatorRecord) (inclusion_height : Z) : bool :=
  if ConsensusSecurityUpgradeActive inclusion_height then
    if negb (v_bond_custodial rec) || v_slashed rec || (v_bond_units rec =? 0)
       || (v_deregistered_at_height rec =? 0) then false
    else if negb (v_principal_settled_at rec =? 0) then inclusion_height <=? v_principal_settled_at rec
    else negb (PrincipalAlreadyPaidLocked rec inclusion_height)
  else
    v_bond_custodial rec && negb (v_slashed rec) && (0 <? v_bond_units rec)
    && (0 <? v_deregistered_at_height rec)
    && (inclusion_height <=? DeregReturnBoundary (v_deregistered_at_height rec)
                               (v_last_finality_vote_height rec)).

(** ** Settlements *)

(** [std::tie] on the evidence, as an ordering test. *)
Definition evidence_lt (a b : SlashEvidence) : bool :=
  if negb (ev_evidence_block a =? ev_evidence_block b) then ev_evidence_block a <? ev_evidence_block b
  else if negb (ev_height a =? ev_height b) then ev_height a <? ev_height b
  else if bool_decide (ev_hash_a_hex a <> ev_hash_a_hex b) then lex_lt (ev_hash_a_hex a) (ev_hash_a_hex b)
  else if bool_decide (ev_hash_b_hex a <> ev_hash_b_hex b) then lex_lt (ev_hash_b_hex a) (ev_hash_b_hex b)
  else lex_lt (ev_slasher_address a) (ev_slasher_address b).

Fixpoint best_evidence (pubkey_hex : bytes) (evs : list SlashEvidence) (best : option SlashEvidence)
  : option SlashEvidence :=
  match evs with
  | [] => best
  | e :: evs' =>
      if bool_decide (ev_pubkey_hex e <> pubkey_hex) then best_evidence pubkey_hex evs' best
      else match best with
           | None => best_evidence pubkey_hex evs' (Some e)
           | Some b => best_evidence pubkey_hex evs' (if evidence_lt e b then Some e else best)
           end
  end.

Definition CanonicalSlasherForPubkeyLocked (reg : ValidatorRegistry) (pubkey_hex : bytes) : bytes :=
  if match validators_ reg !! pubkey_hex with Some v => v_slashed_equivocation v | None => false end
  then match finality_equivocations_ reg !! pubkey_hex with
       | Some eq => eq_slasher_address eq | None => [] end
  else match best_evidence pubkey_hex (slashed_evidence_ reg) None with
       | Some e => ev_slasher_address e | None => [] end.

(** The body of the loop over the records. *)
Definition settlement_of (reg : ValidatorRegistry) (boundary_height : Z) (p : bytes * ValidatorRecord)
  : option BondSettlement :=
  let '(pk, rec) := p in
  if negb (v_bond_custodial rec) || (v_bond_units rec =? 0) then None
  else if ConsensusSecurityUpgradeActive boundary_height
          && negb (PrincipalSettlementBoundaryLocked reg rec boundary_height =? boundary_height) then None
  else if v_slashed rec && (0 <? v_slashed_at_height rec) then
    if negb (ConsensusSecurityUpgradeActive boundary_height)
       && negb (SlashSettlementBoundary (v_slashed_at_height rec) =? boundary_height) then None
    else Some (mkSettlement (v_address rec)
                 (if v_slashed_equivocation rec then SLASH_EQUIVOCATION else SLASH_CONFISCATE)
                 (v_bond_units rec) (CanonicalSlasherForPubkeyLocked reg pk))
  else if (0 <? v_deregistered_at_height rec) && negb (v_slashed rec) then
    if negb (ConsensusSecurityUpgradeActive boundary_height)
       && negb (DeregReturnBoundary (v_deregistered_at_height rec) (v_last_finality_vote_height rec)
                =? boundary_height) then None
    else Some (mkSettlement (v_address rec) DEREGISTER_RETURN (v_bond_units rec) [])
  else None.

Definition GetBondSettlements (reg : ValidatorRegistry) (boundary_height : Z) : list BondSettlement :=
  if (boundary_height =? 0) || negb (boundary_height mod BOND_SETTLEMENT_INTERVAL =? 0) then []
  else omap (settlement_of reg boundary_height) (map_to_list (validators_ reg)).

(** ** Retained membership *)

(** [std::sort] of the records by address, then key. *)
Definition record_lt (a b : ValidatorRecord) : bool :=
  if bool_decide (v_address a <> v_address b) then lex_lt (v_address a) (v_address b)
  else lex_lt (v_pubkey_hex a) (v_pubkey_hex b).
Fixpoint insert_record (r : ValidatorRecord) (l : list ValidatorRecord) : list ValidatorRecord :=
  match l with
  | [] => [r]
  | x :: l' => if record_lt x r then x :: insert_record r l' else r :: l
  end.

Definition GetAllValidatorRecords (reg : ValidatorRegistry) : list ValidatorRecord :=
  foldr insert_record [] (map snd (map_to_list (validators_ reg))).

Definition membership_of (snapshot : EpochSnapshot) : FinalityMembershipRecord :=
  mkMembership (root snapshot) (sort_hashes (map pubkey_commit (entries snapshot))).

Definition RecordFinalitySnapshot (reg : ValidatorRegistry) (snapshot : EpochSnapshot)
  : ValidatorRegistry * bool :=
  if negb (SnapshotWellFormed snapshot) then (reg, false)
  else
    let rec := membership_of snapshot in
    match map_find (epoch_id snapshot) (finality_membership_ reg) with
    | Some m => (reg, bool_decide (m_root m = m_root rec) && bool_decide (m_members m = m_members rec))
    | None =>
        if match last_key (finality_membership_ reg) with
           | Some k => epoch_id snapshot <=? k | None => false end then (reg, false)
        else
          let keep := if epoch_id snapshot >? FINALITY_MEMBERSHIP_RETENTION_EPOCHS
                      then epoch_id snapshot - FINALITY_MEMBERSHIP_RETENTION_EPOCHS else 0 in
          (set_membership reg
             (erase_below keep (map_insert (epoch_id snapshot) rec (finality_membership_ reg))), true)
    end.

Definition ResolveRetainedFinalityMember (reg : ValidatorRegistry) (epoch : Z) (root : Hash256)
    (pubkey_hex : bytes) : option RetainedFinalityMember :=
  if negb (IsCanonicalLowerHex pubkey_hex 3904) then None
  else
    let signer_commit := PubkeyCommit pubkey_hex in
    match map_find epoch (finality_membership_ reg) with
    | None => None
    | Some m =>
        if bool_decide (m_root m <> root) || negb (binary_search (m_members m) signer_commit) then None
        else match validators_ reg !! pubkey_hex with
             | None => None
             | Some v => if bool_decide (v_pubkey_hex v <> pubkey_hex) then None
                         else Some (mkRetained epoch root signer_commit pubkey_hex)
             end
    end.

Definition equivocation_key (pubkey_hex : bytes) (epoch round : Z) : bytes :=
  b:"EQ:" ++ pubkey_hex ++ b:":" ++ to_string epoch ++ b:":" ++ to_string round.

Definition CanAcceptFinalityEquivocationEvidence (reg : ValidatorRegistry) (pubkey_hex : bytes)
    (epoch : Z) (set_root : Hash256) (phase round target_height inclusion_height : Z) : bool :=
  if (negb (phase =? PREVOTE) && negb (phase =? PRECOMMIT))
     || negb (IsScheduledCheckpoint target_height) || negb (EpochOf target_height =? epoch)
     || negb (CheckpointRound target_height =? round) || (target_height >? inclusion_height)
     || ((inclusion_height >? target_height)
         && (inclusion_height - target_height >? FINALITY_EQUIV_EVIDENCE_WINDOW))
     || negb (IsCanonicalLowerHex pubkey_hex 3904) then false
  else
    match map_find epoch (finality_membership_ reg) with
    | None => false
    | Some m =>
        if bool_decide (m_root m <> set_root)
           || negb (binary_search (m_members m) (PubkeyCommit pubkey_hex)) then false
        else match validators_ reg !! pubkey_hex with
        | None => false
        | Some v =>
            if v_slashed_equivocation v || (target_height <? v_registered_height v) then false
            else if (if ConsensusSecurityUpgradeActive inclusion_height
                     then negb (PrincipalEvidenceOpenLocked reg v inclusion_height)
                     else (v_deregistered_at_height v >? 0) && negb (v_slashed v)
                          && (DeregReturnBoundary (v_deregistered_at_height v)
                                (v_last_finality_vote_height v) <=? inclusion_height)) then false
            else bool_decide (equivocation_key pubkey_hex epoch round ∉ slashed_evidence_keys_ reg)
                 && bool_decide (finality_equivocations_ reg !! pubkey_hex = None)
        end
    end.

Definition CanAcceptSlashEvidenceLocked (reg : ValidatorRegistry) (pubkey_hex : bytes)
    (sig_height inclusion_height : Z) : bool :=
  if sig_height >? inclusion_height then false
  else if (inclusion_height >? sig_height)
          && (inclusion_height - sig_height >? SLASH_EVIDENCE_WINDOW) then false
  else match validators_ reg !! pubkey_hex with
  | None => false
  | Some v =>
      if ConsensusSecurityUpgradeActive inclusion_height
         && negb (PrincipalEvidenceOpenLocked reg v inclusion_height) then false
      else if BATCH2_HARDENING_HEIGHT <=? inclusion_height then
        if negb (ConsensusSecurityUpgradeActive inclusion_height) && (v_deregistered_at_height v >? 0)
           && negb (v_slashed v)
           && (DeregReturnBoundary (v_deregistered_at_height v) (v_last_finality_vote_height v)
               <=? inclusion_height) then false
        else negb (sig_height <? v_registered_height v)
      else true
  end.

(** ** Votes counted in a canonical certificate *)

Definition bump_vote_height (v : ValidatorRecord) (carrier_height : Z) : ValidatorRecord :=
  mkValidator (v_pubkey_hex v) (v_address v) (v_registered_height v) (v_active v) (v_slashed v)
    (v_slashed_equivocation v) (v_slashed_at_height v) (v_bond_custodial v) (v_bond_units v)
    (v_deregistered_at_height v) (Z.max (v_last_finality_vote_height v) carrier_height)
    (v_principal_settled_at v).

Fixpoint record_qc_loop (bitmap : bytes) (i : nat) (es : list SnapshotEntry) (carrier_height : Z)
    (vs : gmap bytes ValidatorRecord) : option (gmap bytes ValidatorRecord) :=
  match es with
  | [] => Some vs
  | e :: es' =>
      if negb (bit_set bitmap i) then record_qc_loop bitmap (S i) es' carrier_height vs
      else match vs !! pubkey_hex e with
      | None => None
      | Some v =>
          if bool_decide (PubkeyCommit (pubkey_hex e) <> pubkey_commit e) then None
          else record_qc_loop bitmap (S i) es' carrier_height
                 (<[pubkey_hex e := bump_vote_height v carrier_height]> vs)
      end
  end.

(** [None] is [return false]; the caller then restores the registry. *)
Definition RecordFinalityQc (reg : ValidatorRegistry) (qc : QuorumCert) (snapshot : EpochSnapshot)
    (carrier_height : Z) : option ValidatorRegistry :=
  if negb (QcWellFormed qc snapshot) || negb (qc_phase qc =? PRECOMMIT) then None
  else match record_qc_loop (qc_bitmap qc) 0 (entries snapshot) carrier_height (validators_ reg) with
       | Some vs => Some (set_validators reg vs)
       | None => None
       end.

(** ** Lemmas: sorted keys *)

Lemma binary_search_iff keys w :
  StronglySorted key_le keys -> binary_search keys w = true <-> w ∈ keys.
Proof.
  intros Hs. unfold binary_search. set (k := lower_bound _ _ _ _ _).
  assert (Hk : splits keys w k) by (by apply lower_bound_all). split.
  - destruct (keys !! k) as [x|] eqn:E; [|done]. intros H. bool_hyps.
    assert (Hx : lex_lt x w = false).
    { destruct (lex_lt x w) eqn:Ex; [|done]. apply (Hk k x E) in Ex. lia. }
    rewrite (lex_lt_total _ _ H Hx). by apply list_elem_of_lookup_2 in E.
  - intros H. apply list_elem_of_lookup in H as [i Hi].
    assert (Hki : (k <= i)%nat).
    { destruct (decide (i < k)%nat) as [C|C]; [|lia]. apply (Hk i w Hi) in C. by rewrite lex_lt_irrefl in C. }
    destruct (lookup_lt_is_Some_2 keys k) as [x E].
    { apply lookup_lt_Some in Hi. lia. }
    rewrite E. destruct (decide (k = i)) as [->|].
    + rewrite E in Hi. injection Hi as ->. by rewrite lex_lt_irrefl.
    + pose proof (StronglySorted_lookup_lt key_le keys k i _ _ Hs ltac:(lia) E Hi) as C.
      unfold key_le in C. by rewrite C.
Qed.

Lemma insert_hash_perm h l : Permutation (h :: l) (insert_hash h l).
Proof.
  induction l as [|x l IH]; [done|]. cbn [insert_hash]. destruct (lex_lt x h); [|done].
  etransitivity; [apply Permutation_swap|]. by apply Permutation_skip.
Qed.

Lemma sort_hashes_perm l : Permutation l (sort_hashes l).
Proof.
  induction l as [|x l IH]; [done|]. cbn [sort_hashes foldr].
  etransitivity; [|apply insert_hash_perm]. by apply Permutation_skip.
Qed.

Lemma key_le_trans a b c : key_le a b -> key_le b c -> key_le a c.
Proof.
  unfold key_le. intros H1 H2. destruct (lex_lt c a) eqn:E; [|done].
  destruct (lex_lt b c) eqn:E'; [|rewrite (lex_lt_total _ _ H2 E') in E; congruence].
  pose proof (lex_lt_trans _ _ _ E' E). congruence.
Qed.

Lemma insert_hash_sorted h l : StronglySorted key_le l -> StronglySorted key_le (insert_hash h l).
Proof.
  induction 1 as [|x l Hs IH Hf]; cbn [insert_hash]; [by repeat constructor|].
  destruct (lex_lt x h) eqn:E.
  - constructor; [done|]. eapply Permutation_Forall; [apply insert_hash_perm|].
    constructor; [|done]. by apply lex_lt_asym.
  - constructor; [by constructor|]. constructor; [done|].
    eapply Forall_impl; [exact Hf|]. intros y. by apply key_le_trans.
Qed.

Lemma sort_hashes_sorted l : StronglySorted key_le (sort_hashes l).
Proof.
  induction l as [|x l IH]; [constructor|]. cbn [sort_hashes foldr]. by apply insert_hash_sorted.
Qed.

Lemma map_find_elem {A} k (v : A) m : map_find k m = Some v -> (k, v) ∈ m.
Proof.
  induction m as [|[k' v'] m IH]; [done|]. cbn [map_find]. destruct (Z.eqb_spec k' k) as [->|].
  - intros [= ->]. left.
  - intros H. right. by apply IH.
Qed.

(** ** Lemmas: the settlement schedule *)

(** Memberships are stored sorted. *)
Definition memberships_sorted (reg : ValidatorRegistry) : Prop :=
  Forall (fun p => StronglySorted key_le (m_members (snd p))) (finality_membership_ reg).

(** [rec]'s key was frozen into the retained set of epoch [epoch] during its term. *)
Definition frozen_in (reg : ValidatorRegistry) (rec : ValidatorRecord) (epoch : Z) : Prop :=
  exists m, (epoch, m) ∈ finality_membership_ reg /\ PubkeyCommit (v_pubkey_hex rec) ∈ m_members m
    /\ v_registered_height rec <= (epoch + 1) * EPOCH_BLOCKS - 1.

Lemma membership_end_ge commit registered m endh : endh <= membership_end commit registered m endh.
Proof.
  revert endh. induction m as [|[e r] m IH]; intros endh; cbn [membership_end]; [lia|].
  destruct (binary_search _ _); cbn [negb]; [|apply IH]. destruct (_ <? _); [apply IH|].
  etransitivity; [|apply IH]. lia.
Qed.

Lemma membership_end_member commit registered m endh epoch r :
  StronglySorted key_le (m_members r) -> (epoch, r) ∈ m -> commit ∈ m_members r ->
  registered <= (epoch + 1) * EPOCH_BLOCKS - 1 ->
  (epoch + 1) * EPOCH_BLOCKS - 1 + FINALITY_EQUIV_EVIDENCE_WINDOW
  <= membership_end commit registered m endh.
Proof.
  intros Hs. revert endh. induction m as [|[e r'] m IH]; intros endh Hin Hc Hr; [by apply elem_of_nil in Hin|].
  cbn [membership_end]. apply elem_of_cons in Hin as [[= <- <-]|Hin].
  - rewrite (proj2 (binary_search_iff _ _ Hs) Hc). cbn [negb].
    destruct (Z.ltb_spec ((epoch + 1) * EPOCH_BLOCKS - 1) registered); [lia|].
    etransitivity; [|apply membership_end_ge]. lia.
  - destruct (binary_search _ _); cbn [negb]; [|by apply IH]. destruct (_ <? _); by apply IH.
Qed.

(** Every horizon lies below the boundary computed from the evidence end. *)
Lemma next_boundary_gt x : x < (x / BOND_SETTLEMENT_INTERVAL + 1) * BOND_SETTLEMENT_INTERVAL.
Proof.
  unfold BOND_SETTLEMENT_INTERVAL, BLOCKS_PER_DAY, BLOCKS_PER_HOUR, TARGET_BLOCK_TIME.
  change (3600 / 180 * 24) with 480.
  pose proof (Z.div_mod x 480 ltac:(lia)). pose proof (Z.mod_pos_bound x 480 ltac:(lia)). lia.
Qed.

Lemma saturate64_le x b : saturate64 x = b -> b < UINT64_MAX -> x = b.
Proof. unfold saturate64. destruct (Z.gtb_spec x UINT64_MAX); lia. Qed.

(** The part of the horizon that does not depend on memberships. *)
Definition exit_horizon (rec : ValidatorRecord) : Z :=
  if v_slashed rec then v_slashed_at_height rec + SLASH_EVIDENCE_WINDOW
  else v_deregistered_at_height rec + DeregEvidenceCooldown (v_deregistered_at_height rec).

Lemma evidence_end_bounds reg rec :
  memberships_sorted reg ->
  exit_horizon rec <= evidence_end reg rec
  /\ (v_last_finality_vote_height rec <> 0 ->
      v_last_finality_vote_height rec + FINALITY_EQUIV_EVIDENCE_WINDOW <= evidence_end reg rec)
  /\ forall epoch, frozen_in reg rec epoch ->
      (epoch + 1) * EPOCH_BLOCKS - 1 + FINALITY_EQUIV_EVIDENCE_WINDOW <= evidence_end reg rec.
Proof.
  intros Hs. unfold evidence_end. fold (exit_horizon rec).
  set (e0 := if negb _ then _ else exit_horizon rec).
  pose proof (membership_end_ge (PubkeyCommit (v_pubkey_hex rec)) (v_registered_height rec)
    (finality_membership_ reg) e0) as Hge.
  assert (H0 : exit_horizon rec <= e0 /\ (v_last_finality_vote_height rec <> 0 ->
    v_last_finality_vote_height rec + FINALITY_EQUIV_EVIDENCE_WINDOW <= e0)).
  { unfold e0. destruct (Z.eqb_spec (v_last_finality_vote_height rec) 0); cbn [negb]; lia. }
  destruct H0 as [H1 H2]. split; [lia|]. split; [intros Hv; specialize (H2 Hv); lia|].
  intros epoch (m & Hin & Hc & Hr). apply (membership_end_member _ _ _ _ _ m); try done.
  unfold memberships_sorted in Hs. rewrite Forall_forall in Hs. apply (Hs _ Hin).
Qed.

(** When the new schedule is in force, the boundary is either absent or strictly
    above every horizon. *)
Lemma boundary_spec reg rec h :
  ConsensusSecurityUpgradeActive h = true ->
  PrincipalSettlementBoundaryLocked reg rec h = 0
  \/ LegacyPrincipalBoundary rec <> 0 /\ PrincipalAlreadyPaidLocked rec h = false
     /\ PrincipalSettlementBoundaryLocked reg rec h
        = saturate64 ((evidence_end reg rec / BOND_SETTLEMENT_INTERVAL + 1) * BOND_SETTLEMENT_INTERVAL).
Proof.
  intros Hu. unfold PrincipalSettlementBoundaryLocked. rewrite Hu. cbn [negb].
  destruct (Z.eqb_spec (LegacyPrincipalBoundary rec) 0); [by left|].
  destruct (PrincipalAlreadyPaidLocked rec h) eqn:E; [by left|]. by right.
Qed.

Lemma boundary_after reg rec h b :
  ConsensusSecurityUpgradeActive h = true -> PrincipalSettlementBoundaryLocked reg rec h = b ->
  0 < b < UINT64_MAX -> evidence_end reg rec < b.
Proof.
  intros Hu Hb Hr. destruct (boundary_spec reg rec h Hu) as [E|(_ & _ & E)]; [lia|].
  rewrite Hb in E. symmetry in E. apply saturate64_le in E; [|lia]. rewrite <- E. apply next_boundary_gt.
Qed.

(** Inside the evidence window of a frozen epoch the evidence door stays open. *)
Lemma evidence_open_inside reg rec h :
  ConsensusSecurityUpgradeActive h = true -> h < UINT64_MAX -> h <= evidence_end reg rec ->
  PrincipalAlreadyPaidLocked rec h = false -> PrincipalEvidenceOpenLocked reg rec h = true.
Proof.
  intros Hu Hm He Hp. unfold PrincipalEvidenceOpenLocked. destruct (_ || _); [done|]. rewrite Hp.
  destruct (boundary_spec reg rec h Hu) as [->|(_ & _ & ->)]; [done|]. apply orb_true_iff. right.
  apply Z.ltb_lt. pose proof (next_boundary_gt (evidence_end reg rec)). unfold saturate64.
  destruct (_ >? _); lia.
Qed.

Lemma settlement_of_inv reg b pk rec s :
  ConsensusSecurityUpgradeActive b = true -> settlement_of reg b (pk, rec) = Some s ->
  v_bond_custodial rec = true /\ v_bond_units rec <> 0
  /\ PrincipalSettlementBoundaryLocked reg rec b = b
  /\ bs_address s = v_address rec /\ bs_bond_units s = v_bond_units rec
  /\ (v_slashed rec = true -> bs_kind s <> DEREGISTER_RETURN)
  /\ (v_slashed rec = true -> v_slashed_equivocation rec = true -> bs_kind s = SLASH_EQUIVOCATION)
  /\ (v_slashed rec = false -> bs_kind s = DEREGISTER_RETURN).
Proof.
  intros Hu. unfold settlement_of. rewrite Hu. cbn [negb andb].
  destruct (v_bond_custodial rec) eqn:Ec; cbn [negb orb]; [|done].
  destruct (Z.eqb_spec (v_bond_units rec) 0); [done|].
  destruct (Z.eqb_spec (PrincipalSettlementBoundaryLocked reg rec b) b); cbn [negb]; [|done].
  destruct (v_slashed rec) eqn:Es; cbn [negb andb].
  - destruct (0 <? v_slashed_at_height rec); [intros [= <-]|rewrite andb_false_r; done].
    cbn. destruct (v_slashed_equivocation rec); done.
  - destruct (0 <? v_deregistered_at_height rec); [intros [= <-]|]; done.
Qed.

Lemma epoch_contains t : (EpochOf t + 1) * EPOCH_BLOCKS - 1 >= t.
Proof.
  unfold EpochOf. change EPOCH_BLOCKS with 480. pose proof (Z.div_mod t 480 ltac:(lia)).
  pose proof (Z.mod_pos_bound t 480 ltac:(lia)). lia.
Qed.

(** C21: a bond outlives the evidence against it.  Under the schedule of the security
    upgrade (boundaries from height 2880 on; the legacy schedule before it, which settles
    a slash sooner, is not covered) and with each retained list of
    members sorted, a bond is paid or confiscated only at a boundary strictly after its exit horizon, after the
    evidence window of its last counted vote, and after the window of every checkpoint
    of every retained epoch whose frozen set held its key during the term, whether or
    not it signed there; and until such a window has passed, an unpaid bond still
    admits evidence. *)
Theorem collateral_outlives_evidence reg rec :
  memberships_sorted reg ->
  (forall b pk s, ConsensusSecurityUpgradeActive b = true -> b < UINT64_MAX ->
     settlement_of reg b (pk, rec) = Some s ->
     exit_horizon rec < b
     /\ (v_last_finality_vote_height rec <> 0 ->
         v_last_finality_vote_height rec + FINALITY_EQUIV_EVIDENCE_WINDOW < b)
     /\ forall t, frozen_in reg rec (EpochOf t) -> t + FINALITY_EQUIV_EVIDENCE_WINDOW < b)
  /\ (forall h t, ConsensusSecurityUpgradeActive h = true -> h < UINT64_MAX ->
      frozen_in reg rec (EpochOf t) -> h <= t + FINALITY_EQUIV_EVIDENCE_WINDOW ->
      PrincipalAlreadyPaidLocked rec h = false -> PrincipalEvidenceOpenLocked reg rec h = true).
Proof.
  intros Hs. destruct (evidence_end_bounds reg rec Hs) as (H1 & H2 & H3). split.
  - intros b pk s Hu Hm Hset. apply settlement_of_inv in Hset as (_ & _ & Hb & _); [|done].
    assert (0 < b).
    { unfold ConsensusSecurityUpgradeActive, CONSENSUS_SECURITY_UPGRADE_HEIGHT in Hu. bool_hyps. lia. }
    pose proof (boundary_after reg rec b b Hu Hb ltac:(lia)).
    split; [lia|]. split; [intros Hv; specialize (H2 Hv); lia|].
    intros t Hf. specialize (H3 _ Hf). pose proof (epoch_contains t). lia.
  - intros h t Hu Hm Hf Hle Hp. apply evidence_open_inside; try done.
    specialize (H3 _ Hf). pose proof (epoch_contains t). lia.
Qed.

(** A validator that registered at 100, was frozen for epoch 10 and left at 5000. *)
Definition leaver_key : bytes := b:"ab".
Definition leaver : ValidatorRecord :=
  mkValidator leaver_key b:"V" 100 false false false 0 true BOND_PER_KEY_UNITS 5000 0 0.
Definition leaver_registry : ValidatorRegistry :=
  set_membership (set_validators EmptyRegistry {[ leaver_key := leaver ]})
    [(10, mkMembership ZeroHash [PubkeyCommit leaver_key])].

Lemma leaver_frozen : frozen_in leaver_registry leaver 10.
Proof.
  exists (mkMembership ZeroHash [PubkeyCommit leaver_key]).
  split; [left|]. split; [left|]. vm_compute. discriminate.
Qed.

Lemma leaver_paid :
  settlement_of leaver_registry 48480 (leaver_key, leaver)
  = Some (mkSettlement b:"V" DEREGISTER_RETURN BOND_PER_KEY_UNITS []).
Proof. vm_compute. reflexivity. Qed.

Lemma collateral_outlives_evidence_witness : 5279 + FINALITY_EQUIV_EVIDENCE_WINDOW < 48480.
Proof.
  destruct (collateral_outlives_evidence leaver_registry leaver) as [H _].
  { apply Forall_singleton. cbn [snd m_members]. apply SSorted_cons; constructor. }
  destruct (H 48480 leaver_key (mkSettlement b:"V" DEREGISTER_RETURN BOND_PER_KEY_UNITS []))
    as (_ & _ & H3); [reflexivity|reflexivity|exact leaver_paid|].
  apply (H3 5279). change (EpochOf 5279) with 10. exact leaver_frozen.
Defined.

(** ** Lemmas: the retained membership *)

Definition newest (snaps : list EpochSnapshot) : Z := default 0 (epoch_id <$> last snaps).
Definition oldest_kept (e : Z) : Z :=
  if e >? FINALITY_MEMBERSHIP_RETENTION_EPOCHS then e - FINALITY_MEMBERSHIP_RETENTION_EPOCHS else 0.

Definition record_all (reg : ValidatorRegistry) (snaps : list EpochSnapshot) : ValidatorRegistry :=
  foldl (fun r s => fst (RecordFinalitySnapshot r s)) reg snaps.

Definition filing (s : EpochSnapshot) : Z * FinalityMembershipRecord := (epoch_id s, membership_of s).

Lemma erase_below_filter {A} keep (m : list (Z * A)) :
  StronglySorted Z.lt (keys m) -> erase_below keep m = List.filter (fun p => keep <=? fst p) m.
Proof.
  unfold keys. induction m as [|[k v] m IH]; intros Hs; [done|]. cbn [map fst] in Hs.
  apply StronglySorted_inv in Hs as [Hs Hf]. cbn [erase_below List.filter fst].
  destruct (Z.ltb_spec k keep) as [H|H]; destruct (Z.leb_spec keep k); try lia; [by apply IH|].
  f_equal. clear IH Hs. induction m as [|[k' v'] m IH]; [done|]. cbn [map fst] in Hf.
  apply Forall_cons in Hf as [Hk Hf]. cbn [List.filter fst]. destruct (Z.leb_spec keep k'); [|lia].
  f_equal. by apply IH.
Qed.

Lemma map_find_above {A} k (m : list (Z * A)) : Forall (fun p => fst p < k) m -> map_find k m = None.
Proof.
  induction 1 as [|[k' v] m Hk Hm IH]; [done|]. cbn [map_find fst] in *. destruct (Z.eqb_spec k' k); [lia|done].
Qed.

Lemma RecordFinalitySnapshot_newer reg s :
  SnapshotWellFormed s = true -> StronglySorted Z.lt (keys (finality_membership_ reg)) ->
  Forall (fun p => fst p < epoch_id s) (finality_membership_ reg) ->
  RecordFinalitySnapshot reg s
  = (set_membership reg (List.filter (fun p => oldest_kept (epoch_id s) <=? fst p)
       (finality_membership_ reg ++ [filing s])), true).
Proof.
  intros Hw Hs Ha. unfold RecordFinalitySnapshot. rewrite Hw. cbn [negb].
  rewrite map_find_above by done.
  assert (Hl : match last_key (finality_membership_ reg) with
    Some k => epoch_id s <=? k | None => false end = false).
  { unfold last_key. destruct (last (finality_membership_ reg)) as [p|] eqn:E; [|done]. cbn.
    apply last_Some_elem_of in E. rewrite Forall_forall in Ha. apply Ha in E. apply Z.leb_gt. lia. }
  rewrite Hl, map_insert_last by done. fold (filing s). rewrite erase_below_filter; [done|].
  unfold keys. rewrite map_app. apply StronglySorted_snoc; [done|]. by apply Forall_map.
Qed.

Lemma filter_filter_le {A} a b (m : list (Z * A)) :
  a <= b -> List.filter (fun p => b <=? fst p) (List.filter (fun p => a <=? fst p) m)
            = List.filter (fun p => b <=? fst p) m.
Proof.
  intros H. induction m as [|[k v] m IH]; [done|]. cbn [List.filter fst].
  destruct (Z.leb_spec a k); cbn [List.filter fst]; destruct (Z.leb_spec b k); rewrite ?IH; (done || lia).
Qed.

Lemma filter_subset {A} (P : A -> Prop) f (m : list A) : Forall P m -> Forall P (List.filter f m).
Proof.
  induction 1 as [|x m Hx Hm IH]; [constructor|]. cbn [List.filter]. destruct (f x); [by constructor|done].
Qed.

Lemma filter_keys_sorted {A} f (m : list (Z * A)) :
  StronglySorted Z.lt (keys m) -> StronglySorted Z.lt (keys (List.filter f m)).
Proof.
  unfold keys. induction m as [|p m IH]; [done|]. cbn [map]. intros H.
  apply StronglySorted_inv in H as [Hs Hf]. cbn [List.filter]. destruct (f p); [|by apply IH].
  cbn [map]. constructor; [by apply IH|]. rewrite Forall_map in Hf. apply Forall_map. by apply filter_subset.
Qed.

Definition recorded_ok (snaps : list EpochSnapshot) : Prop :=
  Forall (fun s => SnapshotWellFormed s = true /\ 0 <= epoch_id s) snaps
  /\ StronglySorted Z.lt (map epoch_id snaps).

Lemma record_all_spec reg snaps :
  finality_membership_ reg = [] -> recorded_ok snaps ->
  finality_membership_ (record_all reg snaps)
  = List.filter (fun p => oldest_kept (newest snaps) <=? fst p) (map filing snaps)
  /\ validators_ (record_all reg snaps) = validators_ reg.
Proof.
  intros H0. induction snaps as [|s snaps IH] using rev_ind; intros [Hw Hs]; [done|].
  apply Forall_app in Hw as [Hw Hws]. apply Forall_inv in Hws as [Hws Hpos].
  rewrite map_app in Hs. apply StronglySorted_snoc_inv in Hs as [Hs Ha].
  destruct (IH (conj Hw Hs)) as [Hm Hv]. unfold record_all in *. rewrite foldl_app. cbn [foldl].
  set (r := foldl _ reg snaps) in *.
  assert (Hks : StronglySorted Z.lt (keys (map filing snaps))).
  { unfold keys. rewrite map_map. exact Hs. }
  assert (Hka : Forall (fun p => fst p < epoch_id s) (map filing snaps)).
  { rewrite Forall_map in Ha. by apply Forall_map. }
  rewrite RecordFinalitySnapshot_newer; [|done|rewrite Hm; by apply filter_keys_sorted
    |rewrite Hm; by apply filter_subset].
  cbn [fst set_membership finality_membership_ validators_]. split; [|done].
  rewrite Hm, map_app, !List.filter_app. unfold newest at 2 3. rewrite last_snoc. cbn [fmap option_fmap option_map default].
  f_equal. apply filter_filter_le. unfold oldest_kept, newest, FINALITY_MEMBERSHIP_RETENTION_EPOCHS.
  destruct (last snaps) as [x|] eqn:El; cbn [fmap option_fmap option_map default].
  - apply last_Some_elem_of in El. rewrite Forall_map, Forall_forall in Ha. apply Ha in El.
    cbn in El. simpl. destruct (Z.gtb_spec (epoch_id x) 92), (Z.gtb_spec (epoch_id s) 92); lia.
  - simpl. destruct (Z.gtb_spec (epoch_id s) 92); lia.
Qed.

Lemma map_find_iff {A} k (v : A) m :
  StronglySorted Z.lt (keys m) -> map_find k m = Some v <-> (k, v) ∈ m.
Proof.
  intros Hs. split; [apply map_find_elem|]. unfold keys in Hs.
  induction m as [|[k' v'] m IH]; intros Hin; [by apply elem_of_nil in Hin|]. cbn [map fst] in Hs.
  apply StronglySorted_inv in Hs as [Hs Hf]. cbn [map_find].
  apply elem_of_cons in Hin as [[= -> ->]|Hin]; [by rewrite Z.eqb_refl|].
  rewrite Forall_map, Forall_forall in Hf. specialize (Hf _ Hin). cbn [fst] in Hf.
  destruct (Z.eqb_spec k' k); [lia|by apply IH].
Qed.

Lemma membership_of_members s c :
  c ∈ m_members (membership_of s) <-> exists e, e ∈ entries s /\ pubkey_commit e = c.
Proof.
  cbn [membership_of m_members]. rewrite <- (sort_hashes_perm (map pubkey_commit (entries s))).
  rewrite list_elem_of_fmap. split; intros (e & H1 & H2); exists e; auto.
Qed.

Lemma record_all_find reg snaps epoch m :
  finality_membership_ reg = [] -> recorded_ok snaps ->
  map_find epoch (finality_membership_ (record_all reg snaps)) = Some m
  <-> oldest_kept (newest snaps) <= epoch
      /\ exists s, s ∈ snaps /\ epoch_id s = epoch /\ m = membership_of s.
Proof.
  intros H0 Hok. destruct (record_all_spec reg snaps H0 Hok) as [-> _]. destruct Hok as [_ Hs].
  rewrite map_find_iff.
  2:{ apply filter_keys_sorted. unfold keys. by rewrite map_map. }
  rewrite list_elem_of_In, filter_In, <- list_elem_of_In. cbn [fst]. rewrite Z.leb_le.
  rewrite list_elem_of_fmap. split.
  - intros [(s & [= -> ->] & Hs') Hk]. eauto.
  - intros (Hk & s & Hs' & <- & ->). split; [|done]. by exists s.
Qed.

Lemma record_all_sorted reg snaps :
  finality_membership_ reg = [] -> recorded_ok snaps -> memberships_sorted (record_all reg snaps).
Proof.
  intros H0 Hok. unfold memberships_sorted. destruct (record_all_spec reg snaps H0 Hok) as [-> _].
  apply filter_subset, Forall_map, Forall_forall. intros s _. apply sort_hashes_sorted.
Qed.

(** The epoch of a checkpoint inside the evidence window is recent enough to be kept. *)
Lemma window_retained t h last :
  0 <= t -> h <= t + FINALITY_EQUIV_EVIDENCE_WINDOW -> last <= EpochOf h + 1 ->
  oldest_kept last <= EpochOf t.
Proof.
  unfold oldest_kept, FINALITY_EQUIV_EVIDENCE_WINDOW, FINALITY_MEMBERSHIP_RETENTION_EPOCHS, EpochOf.
  change EPOCH_BLOCKS with 480. intros Ht Hh Hl.
  assert (h / 480 <= t / 480 + 90).
  { rewrite <- Z.div_add by lia. apply Z.div_le_mono; lia. }
  assert (0 <= t / 480) by (apply Z.div_pos; lia). destruct (Z.gtb_spec last 92); lia.
Qed.

(** What the two tests on a retained membership decide. *)
Lemma retained_test reg snaps epoch mem :
  finality_membership_ reg = [] -> recorded_ok snaps ->
  map_find epoch (finality_membership_ (record_all reg snaps)) = Some mem ->
  oldest_kept (newest snaps) <= epoch
  /\ (forall s, s ∈ snaps -> epoch_id s = epoch -> m_root mem = root s)
  /\ (forall c, binary_search (m_members mem) c = true <->
        exists s, s ∈ snaps /\ epoch_id s = epoch /\ exists e, e ∈ entries s /\ pubkey_commit e = c).
Proof.
  intros H0 Hok E. pose proof E as E'. apply record_all_find in E' as (Hk & s & Hs & He & ->); [|done..].
  pose proof (record_all_sorted reg snaps H0 Hok) as Hsrt. unfold memberships_sorted in Hsrt.
  rewrite Forall_forall in Hsrt. specialize (Hsrt _ (map_find_elem _ _ _ E)). cbn [snd] in Hsrt.
  assert (Hu : forall s', s' ∈ snaps -> epoch_id s' = epoch -> membership_of s' = membership_of s).
  { intros s' Hs' He'.
    assert (A : map_find epoch (finality_membership_ (record_all reg snaps)) = Some (membership_of s'))
      by (apply record_all_find; eauto 6). congruence. }
  split; [done|]. split.
  - intros s' Hs' He'. by rewrite <- (Hu s' Hs' He').
  - intros c. rewrite binary_search_iff by done. split.
    + intros H. apply membership_of_members in H. by exists s.
    + intros (s' & Hs' & He' & H). rewrite <- (Hu s' Hs' He'). by apply membership_of_members.
Qed.

(** Equivocation evidence stays resolvable for its whole window.  After the
    snapshots of a sequence of epochs have been recorded, a key resolves as a member of
    an epoch exactly when the epoch is among the last ninety-two, the root is the one
    that was frozen, the commitment is in that set and the registry still holds the
    key; and every epoch with a checkpoint whose evidence window is open at a height is
    among them, as long as no later epoch than the next one has been frozen. *)
Lemma membership_retained reg snaps pk :
  finality_membership_ reg = [] -> recorded_ok snaps -> IsCanonicalLowerHex pk 3904 = true ->
  (forall epoch rt m, ResolveRetainedFinalityMember (record_all reg snaps) epoch rt pk = Some m <->
     m = mkRetained epoch rt (PubkeyCommit pk) pk
     /\ oldest_kept (newest snaps) <= epoch
     /\ (exists s, s ∈ snaps /\ epoch_id s = epoch /\ root s = rt
         /\ exists e, e ∈ entries s /\ pubkey_commit e = PubkeyCommit pk)
     /\ exists v, validators_ reg !! pk = Some v /\ v_pubkey_hex v = pk)
  /\ (forall t h, 0 <= t -> h <= t + FINALITY_EQUIV_EVIDENCE_WINDOW -> newest snaps <= EpochOf h + 1 ->
      oldest_kept (newest snaps) <= EpochOf t).
Proof.
  intros H0 Hok Hpk. split; [|intros t h; apply window_retained].
  intros epoch rt m. unfold ResolveRetainedFinalityMember. rewrite Hpk. cbn [negb].
  rewrite (proj2 (record_all_spec reg snaps H0 Hok)).
  destruct (map_find epoch (finality_membership_ (record_all reg snaps))) as [mem|] eqn:E.
  - destruct (retained_test reg snaps epoch mem H0 Hok E) as (Hk & Hroot & Hmem).
    case_bool_decide as Hr; cbn [orb].
    { split; [done|]. intros (_ & _ & (s & Hs & He & Hrt & _) & _). destruct Hr. by rewrite (Hroot s). }
    destruct (binary_search (m_members mem) (PubkeyCommit pk)) eqn:Eb; cbn [negb].
    2:{ split; [done|]. intros (_ & _ & (s & Hs & He & _ & He') & _).
        rewrite (proj2 (Hmem _)) in Eb by (exists s; auto). done. }
    apply Hmem in Eb as (s & Hs & He & He').
    destruct (validators_ reg !! pk) as [v|] eqn:Ev.
    + case_bool_decide as Hp; split; try done.
      * intros (_ & _ & _ & v' & [= <-] & Hv). congruence.
      * intros [= <-]. split; [done|]. split; [done|]. split; [|by exists v]. exists s.
        rewrite <- (Hroot s) by done. auto.
      * intros (-> & _). done.
    + split; [done|]. intros (_ & _ & _ & v' & Hv' & _). done.
  - split; [done|]. intros (_ & Hk & (s & Hs & He & _) & _). exfalso.
    assert (A : map_find epoch (finality_membership_ (record_all reg snaps)) = Some (membership_of s))
      by (apply record_all_find; eauto). congruence.
Qed.

Lemma sample_key_lower : IsCanonicalLowerHex (sample_key 0) 3904 = true.
Proof. vm_compute. reflexivity. Qed.

Lemma membership_retained_witness :
  ResolveRetainedFinalityMember
    (record_all (set_validators EmptyRegistry {[ sample_key 0 := sample_record 0 ]}) [single_set 2; single_set 3])
    2 (root (single_set 2)) (sample_key 0)
  = Some (mkRetained 2 (root (single_set 2)) (PubkeyCommit (sample_key 0)) (sample_key 0)).
Proof.
  destruct (membership_retained (set_validators EmptyRegistry {[ sample_key 0 := sample_record 0 ]})
    [single_set 2; single_set 3] (sample_key 0)) as [H _]; [reflexivity| |apply sample_key_lower|].
  { split.
    - apply Forall_cons_2; [split; [apply single_set_ok|discriminate]|].
      apply Forall_cons_2; [split; [apply single_set_ok|discriminate]|constructor].
    - apply SSorted_cons; [apply SSorted_cons; constructor|]. apply Forall_cons_2; [reflexivity|constructor]. }
  apply H. split; [reflexivity|]. split; [discriminate|]. split.
  - exists (single_set 2). split; [left|]. split; [reflexivity|]. split; [reflexivity|].
    eexists. split; [left|]. symmetry. apply sample_commit_eq.
  - exists (sample_record 0). split; [apply lookup_singleton_eq|reflexivity].
Defined.
