(* ===== verification/BondYield.v ===== *)
(** * The bond-yield escrow of the validator registry ([consensus/validators.h])

    Yield earned by custodial bonds waits in an escrow ledger, one list of tranches per
    key.  At each settlement boundary the registry plans, from the parent state, which
    tranches end (released after ninety days, or confiscated), books the fresh yield
    the block sent to the escrow address, retires the ended tranches and splits the
    fresh yield over the eligible bonds.  A failure of the source ([valid = false], or
    [return false]) is [None]. *)
From S2P Require Import Prelude Bytes Profile Transaction Block Address Coinbase StateDigest FinalityQc.
From S2P Require Import FinalitySnapshot FinalityState Validators.

Definition BOND_YIELD_VEST_BLOCKS : Z := 90 * BLOCKS_PER_DAY.
Definition BOND_YIELD_ACTIVATION_HEIGHT : Z := 0.
Definition BOND_YIELD_STAKED_POSITION_HEIGHT : Z := 0.
Definition BATCH3_HARDENING_HEIGHT : Z := 0.
Definition VAULT_DISTRIBUTION_INTERVAL : Z := BLOCKS_PER_DAY.
Definition D_TOP_TIER_PPM : Z := 1500000.

Definition CeilBondYieldSettlementBoundary (h : Z) : Z :=
  saturate64 ((h + BOND_SETTLEMENT_INTERVAL - 1) / BOND_SETTLEMENT_INTERVAL * BOND_SETTLEMENT_INTERVAL).

(** [None] is [return false], with the total untouched. *)
Definition AddBondYieldUnits (total u : Z) : option Z :=
  if total >? UINT64_MAX - u then None else Some (total + u).

(** ** The plan of one boundary *)

(** [terminal_mask] says, per key, which tranches end. *)
Record BondYieldBoundaryPlan := mkPlan {
  prior_units : Z;
  terminal_units : Z;
  settlements : list BondSettlement;
  terminal_mask : gmap bytes (list bool)
}.

Inductive BondYieldTerminalKind := KIND_NONE | KIND_RELEASE | KIND_CONFISCATE.

(** The height of the first proven offence of a key. *)
Definition first_offence (reg : ValidatorRegistry) (pk : bytes) (slashed_at : Z) : Z :=
  let first_sig := foldl (fun first e =>
      if bool_decide (ev_pubkey_hex e <> pk) then first
      else if (ev_height e >? 0) && (ev_height e <? first) then ev_height e else first)
    UINT64_MAX (slashed_evidence_ reg) in
  let first_sig := match finality_equivocations_ reg !! pk with
    | None => first_sig
    | Some fe => let h := Z.min (height (eq_target_a fe)) (height (eq_target_b fe)) in
                 if (h >? 0) && (h <? first_sig) then h else first_sig
    end in
  if negb (first_sig =? UINT64_MAX) then first_sig else slashed_at.

(** [(slashed, slash_forfeit_boundary, confiscation_boundary)] *)
Definition slash_boundaries (reg : ValidatorRegistry) (pk : bytes) (rec : ValidatorRecord) (boundary : Z)
  : bool * Z * Z :=
  if v_slashed rec && (v_slashed_at_height rec >? 0) then
    let offence := if BATCH2_HARDENING_HEIGHT <=? boundary
                   then first_offence reg pk (v_slashed_at_height rec) else v_slashed_at_height rec in
    let forfeit := CeilBondYieldSettlementBoundary (offence + VALIDATOR_OP_COOLDOWN_BLOCKS) in
    let confiscation :=
      if BATCH3_HARDENING_HEIGHT <=? boundary then
        let reachable := SlashSettlementBoundary (v_slashed_at_height rec) in
        if reachable >? forfeit then reachable else forfeit
      else forfeit in
    (true, forfeit, confiscation)
  else (false, 0, 0).

Definition tranche_kind (sb : bool * Z * Z) (boundary : Z) (t : BondYieldTranche) : BondYieldTerminalKind :=
  let '(slashed, forfeit, confiscation) := sb in
  let release_boundary := CeilBondYieldSettlementBoundary (accrual_height t + BOND_YIELD_VEST_BLOCKS) in
  if slashed && (forfeit <=? release_boundary) then
    (if confiscation =? boundary then KIND_CONFISCATE else KIND_NONE)
  else if release_boundary =? boundary then KIND_RELEASE else KIND_NONE.

(** The running sums of the loop over one key's tranches. *)
Record Sums := mkSums { s_prior : Z; s_terminal : Z; s_release : Z; s_confiscation : Z }.

Fixpoint tranche_loop (sb : bool * Z * Z) (boundary : Z) (ts : list BondYieldTranche) (s : Sums)
  : option (list bool * Sums) :=
  match ts with
  | [] => Some ([], s)
  | t :: ts' =>
      if units t =? 0 then
        match tranche_loop sb boundary ts' s with Some (m, s') => Some (true :: m, s') | None => None end
      else match AddBondYieldUnits (s_prior s) (units t) with
      | None => None
      | Some prior =>
          match tranche_kind sb boundary t with
          | KIND_NONE =>
              match tranche_loop sb boundary ts'
                      (mkSums prior (s_terminal s) (s_release s) (s_confiscation s)) with
              | Some (m, s') => Some (false :: m, s') | None => None end
          | kind =>
              match AddBondYieldUnits (s_terminal s) (units t) with
              | None => None
              | Some terminal =>
                  let sum := match kind with KIND_RELEASE => s_release s | _ => s_confiscation s end in
                  match AddBondYieldUnits sum (units t) with
                  | None => None
                  | Some sum' =>
                      let s1 := match kind with
                        | KIND_RELEASE => mkSums prior terminal sum' (s_confiscation s)
                        | _ => mkSums prior terminal (s_release s) sum' end in
                      match tranche_loop sb boundary ts' s1 with
                      | Some (m, s') => Some (true :: m, s') | None => None end
                  end
              end
          end
      end
  end.

(** The body of the loop over the keys. *)
Definition plan_key (reg : ValidatorRegistry) (boundary : Z) (plan : BondYieldBoundaryPlan)
    (p : bytes * list BondYieldTranche) : option BondYieldBoundaryPlan :=
  let '(pk, tranches) := p in
  match validators_ reg !! pk with
  | None => None
  | Some rec =>
      let sb := slash_boundaries reg pk rec boundary in
      match tranche_loop sb boundary tranches (mkSums (prior_units plan) (terminal_units plan) 0 0) with
      | None => None
      | Some (mask, s) =>
          let released :=
            if s_release s >? 0
            then [mkSettlement (v_address rec) DEREGISTER_RETURN (s_release s) []] else [] in
          let confiscated :=
            if s_confiscation s >? 0
            then [mkSettlement (v_address rec)
                    (if v_slashed_equivocation rec then SLASH_EQUIVOCATION else SLASH_CONFISCATE)
                    (s_confiscation s) (CanonicalSlasherForPubkeyLocked reg pk)] else [] in
          Some (mkPlan (s_prior s) (s_terminal s) (settlements plan ++ released ++ confiscated)
                  (<[pk := mask]> (terminal_mask plan)))
      end
  end.

Fixpoint plan_keys (reg : ValidatorRegistry) (boundary : Z) (plan : BondYieldBoundaryPlan)
    (l : list (bytes * list BondYieldTranche)) : option BondYieldBoundaryPlan :=
  match l with
  | [] => Some plan
  | p :: l' => match plan_key reg boundary plan p with
               | Some plan' => plan_keys reg boundary plan' l' | None => None end
  end.

Definition BuildBondYieldBoundaryPlanLocked (reg : ValidatorRegistry) (boundary : Z)
  : option BondYieldBoundaryPlan :=
  if (boundary =? 0) || negb (boundary mod BOND_SETTLEMENT_INTERVAL =? 0) then Some (mkPlan 0 0 [] ∅)
  else plan_keys reg boundary (mkPlan 0 0 [] ∅) (map_to_list (bond_yield_escrow_ reg)).

Definition GetBondYieldSettlements (reg : ValidatorRegistry) (boundary : Z) : list BondSettlement :=
  match BuildBondYieldBoundaryPlanLocked reg boundary with Some plan => settlements plan | None => [] end.

(** ** Fresh yield *)

(** The scan for escrow outputs: their values, in order, and their sum. *)
Fixpoint escrow_outputs (script : bytes) (outs : list TxOutput) (found : list Z) (total : Z)
  : option (list Z * Z) :=
  match outs with
  | [] => Some (found, total)
  | o :: outs' =>
      if bool_decide (script_pubkey o <> script) then escrow_outputs script outs' found total
      else if size (found ++ [value o]) >? 2 then None
      else match AddBondYieldUnits total (value o) with
           | None => None
           | Some total' => escrow_outputs script outs' (found ++ [value o]) total'
           end
  end.

Definition ComputeFreshBondYieldAccrualLocked (escrow_script : bytes) (block : Block)
    (plan : BondYieldBoundaryPlan) : option Z :=
  if terminal_units plan >? prior_units plan then None
  else if size escrow_script =? 0 then None
  else match escrow_outputs escrow_script (concat (map outputs (transactions block))) [] 0 with
  | None => None
  | Some (outs, output_total) =>
      let carry := prior_units plan - terminal_units plan in
      if terminal_units plan =? 0 then
        if size outs >? 1 then None else Some output_total
      else if (carry >? 0) && bool_decide (carry ∉ outs) then None
      else if negb (carry >? 0) && (size outs >? 1) then None
      else if output_total <? carry then None
      else Some (output_total - carry)
  end.

(** ** Retiring and accruing *)

(** The tranches whose mask entry is unset. *)
Fixpoint unmasked (ts : list BondYieldTranche) (mask : list bool) : list BondYieldTranche :=
  match ts, mask with
  | t :: ts', b :: mask' => if (b : bool) then unmasked ts' mask' else t :: unmasked ts' mask'
  | _, _ => []
  end.

Definition retire_key (mask : gmap bytes (list bool)) (p : bytes * list BondYieldTranche)
  : option (bytes * list BondYieldTranche) :=
  let '(pk, ts) := p in
  match mask !! pk with
  | None => Some (pk, ts)
  | Some m =>
      if negb (length m =? length ts)%nat then Some (pk, ts)
      else match unmasked ts m with [] => None | retained => Some (pk, retained) end
  end.

Definition RetireBondYieldTranchesLocked (plan : BondYieldBoundaryPlan)
    (escrow : gmap bytes (list BondYieldTranche)) : gmap bytes (list BondYieldTranche) :=
  list_to_map (omap (retire_key (terminal_mask plan)) (map_to_list escrow)).

(** [std::map<std::string, ...>]: pairs in key order. *)
Fixpoint smap_insert {A} (k : bytes) (v : A) (m : list (bytes * A)) : list (bytes * A) :=
  match m with
  | [] => [(k, v)]
  | (k', v') :: m' => if lex_lt k k' then (k, v) :: m
                      else if bool_decide (k = k') then (k, v) :: m'
                      else (k', v') :: smap_insert k v m'
  end.

Definition endorsed_in (reg : ValidatorRegistry) (lo boundary : Z) (addr : bytes) : bool :=
  existsb (fun p => (lo <=? fst p) && (fst p <? boundary)
                    && existsb (fun r => negb (size (en_address r) =? 0) && bytes_eqb (en_address r) addr) (snd p))
    (map_to_list (endorsements_ reg)).

Definition bond_weight (rec : ValidatorRecord) : Z :=
  let capped := if v_bond_units rec <? MIN_VALIDATOR_STAKE then v_bond_units rec else MIN_VALIDATOR_STAKE in
  u64 (capped * D_TOP_TIER_PPM / 1000000).

Definition ComputeEligibleBondWeights_Locked (reg : ValidatorRegistry) (boundary : Z)
  : list (bytes * (bytes * Z)) :=
  if boundary =? 0 then []
  else
    let lo := if boundary >? VAULT_DISTRIBUTION_INTERVAL then boundary - VAULT_DISTRIBUTION_INTERVAL else 0 in
    foldl (fun out p =>
        let '(pk, rec) := p in
        if negb (v_active rec) || negb (v_bond_custodial rec) || (v_bond_units rec =? 0) then out
        else if v_slashed rec then out
        else if (boundary <? BOND_YIELD_STAKED_POSITION_HEIGHT)
                && negb (endorsed_in reg lo boundary (v_address rec)) then out
        else if bond_weight rec =? 0 then out
        else smap_insert (v_address rec) (pk, bond_weight rec) out)
      [] (map_to_list (validators_ reg)).

(** The saturating sum. *)
Fixpoint sum_weights (l : list (bytes * (bytes * Z))) (total : Z) : Z :=
  match l with
  | [] => total
  | (_, (_, w)) :: l' => if UINT64_MAX - total <? w then UINT64_MAX else sum_weights l' (total + w)
  end.
Definition GetEligibleBondYieldWeight (reg : ValidatorRegistry) (boundary : Z) : Z :=
  sum_weights (ComputeEligibleBondWeights_Locked reg boundary) 0.

(** The pro-rata loop: the first key, the allocations so far, the amount assigned, and
    the position of the first key's allocation. *)
Fixpoint share_loop (fresh sumw : Z) (ew : list (bytes * (bytes * Z))) (first_pubkey : bytes)
    (allocs : list (bytes * Z)) (assigned : Z) (first_index : option nat)
  : option (bytes * list (bytes * Z) * Z * option nat) :=
  match ew with
  | [] => Some (first_pubkey, allocs, assigned, first_index)
  | (_, (pk, w)) :: ew' =>
      let first_pubkey := if size first_pubkey =? 0 then pk else first_pubkey in
      let share := u64 (fresh * w / sumw) in
      if share =? 0 then share_loop fresh sumw ew' first_pubkey allocs assigned first_index
      else if assigned >? fresh - share then None
      else
        let fi := if bytes_eqb pk first_pubkey then Some (length allocs) else first_index in
        share_loop fresh sumw ew' first_pubkey (allocs ++ [(pk, share)]) (assigned + share) fi
  end.

Definition AllocateBondYield (reg : ValidatorRegistry) (boundary fresh : Z) : option (list (bytes * Z)) :=
  if negb (fresh >? 0) then Some []
  else
    let ew := ComputeEligibleBondWeights_Locked reg boundary in
    let sumw := foldl (fun t p => t + snd (snd p)) 0 ew in
    if sumw =? 0 then None
    else match share_loop fresh sumw ew [] [] 0 None with
    | None => None
    | Some (first_pubkey, allocs, assigned, first_index) =>
        if assigned <? fresh then
          let rem := fresh - assigned in
          if size first_pubkey =? 0 then None
          else match first_index with
          | Some i =>
              match allocs !! i with
              | None => None
              | Some (pk, u) => if u >? UINT64_MAX - rem then None
                                else Some (<[i := (pk, u + rem)]> allocs)
              end
          | None => Some (allocs ++ [(first_pubkey, rem)])
          end
        else Some allocs
    end.

Definition AccrueBondYield (boundary : Z) (allocs : list (bytes * Z))
    (escrow : gmap bytes (list BondYieldTranche)) : gmap bytes (list BondYieldTranche) :=
  foldl (fun e p => <[fst p := default [] (e !! fst p) ++ [mkTranche boundary (snd p)]]> e) escrow allocs.

(** The boundary step of [ProcessBlockImpl] on the escrow ledger. *)
Definition is_bond_yield_boundary (h : Z) : bool :=
  (h >? 0) && (BOND_YIELD_ACTIVATION_HEIGHT <=? h) && (h mod BOND_SETTLEMENT_INTERVAL =? 0).

Definition BondYieldBoundary (escrow_script : bytes) (reg : ValidatorRegistry) (block : Block)
  : option (BondYieldBoundaryPlan * list (bytes * Z)) :=
  match BuildBondYieldBoundaryPlanLocked reg (Block.height block) with
  | None => None
  | Some plan =>
      match ComputeFreshBondYieldAccrualLocked escrow_script block plan with
      | None => None
      | Some fresh =>
          match AllocateBondYield reg (Block.height block) fresh with
          | None => None
          | Some allocs => Some (plan, allocs)
          end
      end
  end.

(** ** Lemmas: sums *)

Definition zsum (l : list Z) : Z := foldr Z.add 0 l.

Lemma zsum_app a b : zsum (a ++ b) = zsum a + zsum b.
Proof. induction a as [|x a IH]; [done|]. cbn [zsum foldr app]. unfold zsum in *. lia. Qed.

#[global] Instance zsum_perm : Proper (Permutation ==> eq) zsum.
Proof. induction 1; cbn [zsum foldr] in *; unfold zsum in *; lia. Qed.

Definition tranche_total (ts : list BondYieldTranche) : Z := zsum (map units ts).
Definition pair_total (l : list (bytes * list BondYieldTranche)) : Z :=
  zsum (map (fun p => tranche_total (snd p)) l).
Definition escrow_total (m : gmap bytes (list BondYieldTranche)) : Z := pair_total (map_to_list m).

Definition wf_tranches (ts : list BondYieldTranche) : Prop := Forall (fun t => fits 64 (units t)) ts.
Definition wf_escrow (m : gmap bytes (list BondYieldTranche)) : Prop :=
  Forall (fun p => wf_tranches (snd p)) (map_to_list m).

Lemma pair_total_perm l l' : Permutation l l' -> pair_total l = pair_total l'.
Proof. intros H. unfold pair_total. by rewrite H. Qed.

Lemma pair_total_cons p l : pair_total (p :: l) = tranche_total (snd p) + pair_total l.
Proof. done. Qed.

Lemma tranche_total_nonneg ts : wf_tranches ts -> 0 <= tranche_total ts.
Proof.
  induction 1 as [|t ts Ht Hts IH]; [done|]. unfold tranche_total in *. cbn [map zsum foldr].
  unfold zsum, fits in *. lia.
Qed.

Lemma AddBondYieldUnits_inv a u b : AddBondYieldUnits a u = Some b -> b = a + u.
Proof. unfold AddBondYieldUnits. destruct (_ >? _); [done|]. by intros [= <-]. Qed.

(** ** Lemmas: the plan *)

Record loop_ok (ts : list BondYieldTranche) (mask : list bool) (s s' : Sums) : Prop := {
  lo_len : length mask = length ts;
  lo_prior : s_prior s' = s_prior s + tranche_total ts;
  lo_terminal : s_terminal s' = s_terminal s + (tranche_total ts - tranche_total (unmasked ts mask));
  lo_paid : s_release s' + s_confiscation s'
            = s_release s + s_confiscation s + (s_terminal s' - s_terminal s);
  lo_release : s_release s <= s_release s';
  lo_confiscation : s_confiscation s <= s_confiscation s'
}.

Lemma tranche_total_cons t ts : tranche_total (t :: ts) = units t + tranche_total ts.
Proof. done. Qed.

Lemma tranche_loop_ok sb b ts s mask s' :
  wf_tranches ts -> tranche_loop sb b ts s = Some (mask, s') -> loop_ok ts mask s s'.
Proof.
  intros Hw. revert s mask s'. induction Hw as [|t ts Ht Hw IH]; intros s mask s' H; cbn [tranche_loop] in H.
  { injection H as <- <-. constructor; cbn; lia. }
  unfold fits in Ht. destruct (Z.eqb_spec (units t) 0) as [E|E].
  { destruct (tranche_loop sb b ts s) as [[m s1]|] eqn:El; [|done]. injection H as <- <-.
    destruct (IH _ _ _ El). constructor; cbn [unmasked length]; rewrite ?tranche_total_cons; lia. }
  destruct (AddBondYieldUnits (s_prior s) (units t)) as [prior|] eqn:Ep; [|done].
  apply AddBondYieldUnits_inv in Ep. destruct (tranche_kind sb b t).
  { destruct (tranche_loop sb b ts _) as [[m s1]|] eqn:El; [|done]. injection H as <- <-.
    destruct (IH _ _ _ El); cbn [s_prior s_terminal s_release s_confiscation] in *.
    constructor; cbn [unmasked length]; rewrite ?tranche_total_cons; lia. }
  all: destruct (AddBondYieldUnits (s_terminal s) (units t)) as [terminal|] eqn:Et; [|done];
    apply AddBondYieldUnits_inv in Et; destruct (AddBondYieldUnits _ (units t)) as [sum|] eqn:Es; [|done];
    apply AddBondYieldUnits_inv in Es; destruct (tranche_loop sb b ts _) as [[m s1]|] eqn:El; [|done];
    injection H as <- <-; destruct (IH _ _ _ El); cbn [s_prior s_terminal s_release s_confiscation] in *;
    constructor; cbn [unmasked length]; rewrite ?tranche_total_cons; lia.
Qed.

Definition settled_units (l : list BondSettlement) : Z := zsum (map bs_bond_units l).

Lemma settled_units_app a b : settled_units (a ++ b) = settled_units a + settled_units b.
Proof. unfold settled_units. by rewrite map_app, zsum_app. Qed.

Lemma plan_key_ok reg b plan pk ts plan' :
  wf_tranches ts -> plan_key reg b plan (pk, ts) = Some plan' ->
  exists mask, terminal_mask plan' = <[pk := mask]> (terminal_mask plan) /\ length mask = length ts
    /\ prior_units plan' = prior_units plan + tranche_total ts
    /\ terminal_units plan' = terminal_units plan + (tranche_total ts - tranche_total (unmasked ts mask))
    /\ settled_units (settlements plan') - settled_units (settlements plan)
       = terminal_units plan' - terminal_units plan.
Proof.
  intros Hw H. unfold plan_key in H. destruct (validators_ reg !! pk) as [rec|]; [|done].
  destruct (tranche_loop _ _ _ _) as [[mask s]|] eqn:El; [|done]. injection H as <-.
  destruct (tranche_loop_ok _ _ _ _ _ _ Hw El) as [H1 H2 H3 H4 H5 H6].
  cbn [s_prior s_terminal s_release s_confiscation] in *. exists mask.
  cbn [terminal_mask prior_units terminal_units settlements].
  split; [done|]. split; [done|]. split; [done|]. split; [done|].
  rewrite !settled_units_app.
  destruct (Z.gtb_spec (s_release s) 0), (Z.gtb_spec (s_confiscation s) 0);
    unfold settled_units at 2 3; cbn [map bs_bond_units zsum foldr]; lia.
Qed.

Lemma plan_keys_mask reg b l plan plan' pk :
  Forall (fun p => wf_tranches (snd p)) l -> plan_keys reg b plan l = Some plan' -> pk ∉ l.*1 ->
  terminal_mask plan' !! pk = terminal_mask plan !! pk.
Proof.
  intros Hw. revert plan. induction Hw as [|[k ts] l Ht Hw IH]; intros plan H Hn; cbn [plan_keys] in H.
  { by injection H as <-. }
  destruct (plan_key reg b plan (k, ts)) as [p1|] eqn:E; [|done].
  apply plan_key_ok in E as (mask & Hm & _); [|done].
  change ((k, ts) :: l).*1 with (k :: l.*1) in Hn. apply not_elem_of_cons in Hn as [Hk Hn].
  rewrite (IH p1 H Hn), Hm. by rewrite lookup_insert_ne.
Qed.

Lemma plan_keys_ok reg b l plan plan' :
  Forall (fun p => wf_tranches (snd p)) l -> NoDup l.*1 -> plan_keys reg b plan l = Some plan' ->
  prior_units plan' = prior_units plan + pair_total l
  /\ pair_total (omap (retire_key (terminal_mask plan')) l)
     = pair_total l - (terminal_units plan' - terminal_units plan)
  /\ settled_units (settlements plan') - settled_units (settlements plan)
     = terminal_units plan' - terminal_units plan.
Proof.
  intros Hw. revert plan. induction Hw as [|[k ts] l Ht Hw IH]; intros plan Hn H; cbn [plan_keys] in H.
  { injection H as <-. cbn. lia. }
  change ((k, ts) :: l).*1 with (k :: l.*1) in Hn. apply NoDup_cons in Hn as [Hk Hn].
  destruct (plan_key reg b plan (k, ts)) as [p1|] eqn:E; [|done].
  apply plan_key_ok in E as (mask & Hm & Hlen & Hp & Hte & Hset); [|done].
  pose proof (plan_keys_mask reg b l p1 plan' k Hw H Hk) as Hmk. rewrite Hm, lookup_insert_eq in Hmk.
  destruct (IH p1 Hn H) as (H1 & H2 & H3). rewrite pair_total_cons. cbn [snd].
  split; [lia|]. split; [|lia].
  cbn [omap list_omap]. unfold retire_key at 1. rewrite Hmk, Hlen, Nat.eqb_refl. cbn [negb].
  destruct (unmasked ts mask) as [|t0 r] eqn:Eu.
  - rewrite H2. change (tranche_total []) with 0 in Hte. lia.
  - rewrite pair_total_cons, H2. cbn [snd]. lia.
Qed.

(** ** Lemmas: retiring and accruing *)

Lemma retire_key_fst mask p q : retire_key mask p = Some q -> fst q = fst p.
Proof.
  destruct p as [k ts]. unfold retire_key. destruct (mask !! k) as [m|]; [|by intros [= <-]].
  destruct (negb _); [by intros [= <-]|]. destruct (unmasked ts m); [done|]. by intros [= <-].
Qed.

Lemma omap_retire_keys mask (l : list (bytes * list BondYieldTranche)) :
  NoDup l.*1 -> NoDup (omap (retire_key mask) l).*1 /\ forall k, k ∈ (omap (retire_key mask) l).*1 -> k ∈ l.*1.
Proof.
  induction l as [|p l IH]; intros Hn; [split; [constructor|done]|].
  change ((p :: l).*1) with (fst p :: l.*1) in *. apply NoDup_cons in Hn as [Hk Hn].
  destruct (IH Hn) as [H1 H2]. cbn [omap list_omap]. destruct (retire_key mask p) as [q|] eqn:E.
  - apply retire_key_fst in E.
    change ((q :: omap (retire_key mask) l).*1) with (fst q :: (omap (retire_key mask) l).*1). rewrite E. split.
    + apply NoDup_cons. split; [|done]. intros C. by apply Hk, H2.
    + intros k Hin. apply elem_of_cons in Hin as [->|Hin]; [left|right; by apply H2].
  - split; [done|]. intros k Hin. right. by apply H2.
Qed.

Lemma retire_total plan m :
  escrow_total (RetireBondYieldTranchesLocked plan m)
  = pair_total (omap (retire_key (terminal_mask plan)) (map_to_list m)).
Proof.
  unfold escrow_total, RetireBondYieldTranchesLocked. apply pair_total_perm, map_to_list_to_map.
  apply omap_retire_keys, NoDup_fst_map_to_list.
Qed.

Lemma escrow_total_insert m k (ts : list BondYieldTranche) :
  escrow_total (<[k := ts]> m) = escrow_total m - tranche_total (default [] (m !! k)) + tranche_total ts.
Proof.
  unfold escrow_total.
  rewrite <- insert_delete_eq, (pair_total_perm _ _ (map_to_list_insert _ k ts (lookup_delete_eq _ _))).
  rewrite pair_total_cons. cbn [snd]. destruct (m !! k) as [old|] eqn:E; cbn [default].
  - rewrite <- (pair_total_perm _ _ (map_to_list_delete m k old E)), pair_total_cons. cbn [snd]. unfold id. lia.
  - rewrite delete_id by done. change (tranche_total []) with 0. lia.
Qed.

Lemma accrue_total b allocs m :
  escrow_total (AccrueBondYield b allocs m) = escrow_total m + zsum (map snd allocs).
Proof.
  unfold AccrueBondYield. revert m. induction allocs as [|[k u] l IH]; intros m; cbn [foldl map zsum foldr fst snd].
  { lia. }
  rewrite IH, escrow_total_insert. unfold tranche_total. rewrite map_app, zsum_app.
  cbn [map units zsum foldr]. unfold zsum. lia.
Qed.

Lemma share_loop_ok fresh sumw first ew allocs assigned fi first' allocs' assigned' fi' :
  share_loop fresh sumw ew first allocs assigned fi = Some (first', allocs', assigned', fi') ->
  zsum (map snd allocs) = assigned -> assigned <= fresh ->
  zsum (map snd allocs') = assigned' /\ assigned' <= fresh.
Proof.
  revert first allocs assigned fi.
  induction ew as [|[a [pk w]] ew IH]; intros first allocs assigned fi H Hs Hle; cbn [share_loop] in H.
  { by injection H as _ <- <- _. }
  destruct (u64 _ =? 0); [by apply (IH _ _ _ _ H)|].
  destruct (Z.gtb_spec assigned (fresh - u64 (fresh * w / sumw))); [done|].
  apply (IH _ _ _ _ H); [|lia]. rewrite map_app, zsum_app, Hs. cbn [map snd zsum foldr]. lia.
Qed.

Lemma zsum_insert (l : list (bytes * Z)) i pk u v :
  l !! i = Some (pk, u) -> zsum (map snd (<[i := (pk, v)]> l)) = zsum (map snd l) - u + v.
Proof.
  revert i. induction l as [|x l IH]; intros [|i] H; try done.
  - injection H as ->. cbn. lia.
  - specialize (IH i H). change (snd x + zsum (map snd (<[i := (pk, v)]> l)) = snd x + zsum (map snd l) - u + v).
    lia.
Qed.

Lemma AllocateBondYield_total reg b fresh allocs :
  0 <= fresh -> AllocateBondYield reg b fresh = Some allocs -> zsum (map snd allocs) = fresh.
Proof.
  intros Hf. unfold AllocateBondYield. destruct (Z.gtb_spec fresh 0); cbn [negb].
  2:{ intros [= <-]. cbn. lia. }
  destruct (_ =? 0); [done|]. destruct (share_loop _ _ _ _ _ _ _) as [[[[fp al] asg] fi]|] eqn:Es; [|done].
  destruct (share_loop_ok _ _ _ _ _ _ _ _ _ _ _ Es eq_refl Hf) as [H1 H2].
  destruct (Z.ltb_spec asg fresh).
  - destruct (_ =? 0); [done|]. destruct fi as [i|].
    + destruct (al !! i) as [[k u]|] eqn:Ei; [|done]. destruct (_ >? _); [done|]. intros [= <-].
      rewrite (zsum_insert al i k u _ Ei). lia.
    + intros [= <-]. rewrite map_app, zsum_app, H1. cbn [map snd zsum foldr]. lia.
  - intros [= <-]. lia.
Qed.

Lemma escrow_outputs_ok script outs found total found' total' :
  escrow_outputs script outs found total = Some (found', total') ->
  total' = total + paid script outs.
Proof.
  revert found total. induction outs as [|o outs IH]; intros found total H; cbn [escrow_outputs] in H.
  { injection H as _ <-. unfold paid. cbn. lia. }
  rewrite paid_cons. case_bool_decide as E.
  - unfold bytes_eqb. rewrite bool_decide_false by done. rewrite (IH _ _ H). lia.
  - unfold bytes_eqb. rewrite bool_decide_true by done. destruct (_ >? 2); [done|].
    destruct (AddBondYieldUnits total (value o)) as [t|] eqn:Ea; [|done].
    apply AddBondYieldUnits_inv in Ea. rewrite (IH _ _ H). lia.
Qed.

Definition escrow_inflow (script : bytes) (block : Block) : Z :=
  paid script (concat (map outputs (transactions block))).

Lemma ComputeFresh_ok script block plan fresh :
  ComputeFreshBondYieldAccrualLocked script block plan = Some fresh ->
  (terminal_units plan = 0 -> fresh = escrow_inflow script block)
  /\ (terminal_units plan <> 0 -> 0 <= fresh
      /\ fresh = escrow_inflow script block - (prior_units plan - terminal_units plan)).
Proof.
  unfold ComputeFreshBondYieldAccrualLocked, escrow_inflow. destruct (_ >? prior_units plan); [done|].
  destruct (_ =? 0); [done|]. destruct (escrow_outputs _ _ _ _) as [[outs total]|] eqn:E; [|done].
  apply escrow_outputs_ok in E. destruct (Z.eqb_spec (terminal_units plan) 0).
  - destruct (_ >? 1); [done|]. intros [= <-]. split; [lia|done].
  - destruct (_ && _); [done|]. destruct (_ && _); [done|]. destruct (Z.ltb_spec total (prior_units plan - terminal_units plan)); [done|].
    intros [= <-]. split; [done|]. lia.
Qed.

(** C28: the yield escrow conserves value.  At every settlement boundary the registry
    accepts, the settlements pay out exactly the units of the tranches that end, the
    ledger loses exactly those units and gains exactly the fresh yield it allocates.
    Without a settlement the total of the ledger grows by what the block's outputs pay
    to the escrow script; with one it equals what they pay to it.  Balances of the
    escrow address are not part of the statement. *)
Theorem bond_yield_conserved script reg block plan allocs :
  wf_escrow (bond_yield_escrow_ reg) -> Forall wf_output (concat (map outputs (transactions block))) ->
  is_bond_yield_boundary (Block.height block) = true ->
  BondYieldBoundary script reg block = Some (plan, allocs) ->
  let old := escrow_total (bond_yield_escrow_ reg) in
  let new := escrow_total (AccrueBondYield (Block.height block) allocs
               (RetireBondYieldTranchesLocked plan (bond_yield_escrow_ reg))) in
  settled_units (settlements plan) = terminal_units plan
  /\ new = old - terminal_units plan + zsum (map snd allocs)
  /\ new = if terminal_units plan =? 0 then old + escrow_inflow script block
           else escrow_inflow script block.
Proof.
  intros Hw Hout Hb H old new. unfold BondYieldBoundary in H.
  destruct (BuildBondYieldBoundaryPlanLocked reg _) as [p|] eqn:Ep; [|done].
  destruct (ComputeFreshBondYieldAccrualLocked script block p) as [fresh|] eqn:Ef; [|done].
  destruct (AllocateBondYield reg _ fresh) as [al|] eqn:Ea; [|done]. injection H as -> ->.
  unfold BuildBondYieldBoundaryPlanLocked in Ep. unfold is_bond_yield_boundary in Hb.
  apply andb_true_iff in Hb as [Hb Hm]. apply andb_true_iff in Hb as [Hb _]. rewrite Hm in Ep.
  replace (Block.height block =? 0) with false in Ep
    by (symmetry; apply Z.eqb_neq; intros E; rewrite E in Hb; discriminate Hb). cbn [negb orb] in Ep.
  destruct (plan_keys_ok _ _ _ _ _ Hw (NoDup_fst_map_to_list _) Ep) as (P1 & P2 & P3).
  cbn [prior_units terminal_units settlements] in *. change (settled_units []) with 0 in P3.
  rewrite <- retire_total in P2. fold (escrow_total (bond_yield_escrow_ reg)) in P1, P2. fold old in P1, P2.
  apply ComputeFresh_ok in Ef as [F1 F2].
  assert (Hin : 0 <= escrow_inflow script block).
  { apply output_sum_nonneg. by apply filter_subset. }
  assert (Hfresh : 0 <= fresh) by (destruct (decide (terminal_units plan = 0)) as [E|E]; [specialize (F1 E)|specialize (F2 E)]; lia).
  pose proof (AllocateBondYield_total _ _ _ _ Hfresh Ea) as Ht.
  assert (Hnew : new = old - terminal_units plan + zsum (map snd allocs)).
  { unfold new. rewrite accrue_total, P2. lia. }
  split; [lia|]. split; [done|]. rewrite Hnew, Ht.
  destruct (Z.eqb_spec (terminal_units plan) 0) as [E|E]; [specialize (F1 E)|specialize (F2 E)]; lia.
Qed.

(** One bond with a tranche of 1000 units that matures in a block which pays 500 units
    of fresh yield to the escrow script. *)
Definition yield_key : bytes := b:"k".
Definition yield_registry : ValidatorRegistry :=
  mkRegistry 0 0
    {[ yield_key := mkValidator yield_key b:"V" 1 true false false 0 true MIN_VALIDATOR_STAKE 0 0 0 ]}
    ∅ ∅ ∅ ∅ 0 ∅ {[ yield_key := [mkTranche 480 1000] ]} [] ∅ ∅ ∅ [] ∅ false false.
Definition yield_block : Block :=
  mkBlock (mkHeader 1 ZeroHash ZeroHash 0 0 0) [mkTx 1 [] [mkOutput 500 [1]; mkOutput 9 [2]] 0] 43680.

Lemma bond_yield_conserved_witness :
  exists plan allocs, BondYieldBoundary [1] yield_registry yield_block = Some (plan, allocs)
    /\ settled_units (settlements plan) = 1000
    /\ escrow_total (AccrueBondYield 43680 allocs
         (RetireBondYieldTranchesLocked plan (bond_yield_escrow_ yield_registry))) = 500.
Proof.
  destruct (BondYieldBoundary [1] yield_registry yield_block) as [[plan allocs]|] eqn:E;
    [|vm_compute in E; discriminate E].
  exists plan, allocs. split; [reflexivity|].
  destruct (bond_yield_conserved [1] yield_registry yield_block plan allocs) as (H1 & _ & H3).
  - apply (bool_decide_unpack _). vm_compute. exact I.
  - apply Forall_cons_2; [|apply Forall_cons_2; [|constructor]]; (apply (bool_decide_unpack _); vm_compute; exact I).
  - reflexivity.
  - exact E.
  - assert (Ht : terminal_units plan = 1000) by (vm_compute in E; injection E as <- <-; reflexivity).
    split; [rewrite H1; exact Ht|]. refine (eq_trans H3 _). rewrite Ht. reflexivity.
Defined.
