(* ===== verification/MapSum.v ===== *)
(** * Sums over finite maps

    The total of the integers a map holds, and how updates change it; token balances and
    liquidity positions are such maps. *)
From S2P Require Import Prelude Bytes.

Definition map_total (m : gmap bytes Z) : Z := map_fold (fun _ v acc => v + acc) 0 m.

Lemma map_total_empty : map_total ∅ = 0.
Proof. apply map_fold_empty. Qed.

Lemma map_total_insert_new m k v : m !! k = None -> map_total (<[k := v]> m) = v + map_total m.
Proof. intros H. unfold map_total. apply (map_fold_insert_L (fun _ v acc => v + acc)); [intros; lia|done]. Qed.

(** An absent key counts as zero. *)
Definition at_key (m : gmap bytes Z) (k : bytes) : Z := default 0 (m !! k).

Lemma map_total_delete m k : map_total (delete k m) = map_total m - at_key m k.
Proof.
  unfold at_key. destruct (m !! k) as [v|] eqn:E; cbn.
  - pose proof (map_total_insert_new (delete k m) k v (lookup_delete_eq _ _)) as H.
    rewrite insert_delete_id in H by done. lia.
  - rewrite delete_id by done. lia.
Qed.

Lemma map_total_insert m k v : map_total (<[k := v]> m) = map_total m - at_key m k + v.
Proof.
  rewrite <- insert_delete_eq, map_total_insert_new by apply lookup_delete_eq. rewrite map_total_delete. lia.
Qed.

Lemma at_key_insert m k v : at_key (<[k := v]> m) k = v.
Proof. unfold at_key. by rewrite lookup_insert_eq. Qed.

Lemma at_key_insert_ne m k k' v : k <> k' -> at_key (<[k := v]> m) k' = at_key m k'.
Proof. intros. unfold at_key. by rewrite lookup_insert_ne. Qed.

Lemma at_key_delete m k : at_key (delete k m) k = 0.
Proof. unfold at_key. by rewrite lookup_delete_eq. Qed.

Lemma at_key_delete_ne m k k' : k <> k' -> at_key (delete k m) k' = at_key m k'.
Proof. intros. unfold at_key. by rewrite lookup_delete_ne. Qed.

(** A map of values at least [b] holds at least [b] per entry and at least each entry. *)
Lemma map_total_lower m b : 0 <= b -> (forall k v, m !! k = Some v -> b <= v) -> b * Z.of_nat (base.size m) <= map_total m.
Proof.
  intros Hb. induction m as [|k v m Hk IH] using map_ind; intros Hv.
  - rewrite map_total_empty, map_size_empty. lia.
  - rewrite map_total_insert_new, map_size_insert_None by done.
    assert (b <= v) by (apply (Hv k); apply lookup_insert_eq).
    assert (b * Z.of_nat (base.size m) <= map_total m); [|lia].
    apply IH. intros k' v' E. apply (Hv k'). rewrite lookup_insert_ne; congruence.
Qed.

Lemma map_total_nonneg m : (forall k v, m !! k = Some v -> 0 <= v) -> 0 <= map_total m.
Proof. intros H. pose proof (map_total_lower m 0 ltac:(lia) H). lia. Qed.

Lemma at_key_le_total m k : (forall k v, m !! k = Some v -> 0 <= v) -> 0 <= at_key m k <= map_total m.
Proof.
  intros H. split.
  - unfold at_key. destruct (m !! k) eqn:E; cbn; [eauto|lia].
  - assert (0 <= map_total (delete k m)); [|rewrite map_total_delete in *; lia].
    apply map_total_nonneg. intros k' v' [_ E]%lookup_delete_Some. eauto.
Qed.
