(* ===== verification/BtcHeaderChain.v ===== *)
(** * The Bitcoin header chain ([core/btc_header_chain.h])

    The in-consensus Bitcoin view: headers are checked for linkage, proof of work,
    difficulty and median time past, the branch with most work is selected, a block the
    validators observed is never rewritten, and a transaction is proven by a Merkle branch.

    A record is found by its hash in [by_hash_]; [best_chain_] is the derived index of the
    selected branch by height.  The bounded loops of the source are recursions on the same
    bound.  [std::invalid_argument] is [None]: the object a failed restore leaves behind is not
    modelled. *)
From S2P Require Import Prelude Limbs BtcPow Bytes Sha256 StateDigest FinalityQc FinalitySnapshot Validators.

Definition EXTERNAL_VALUE_FRESHNESS_REQUIRED : bool := true.
Definition EXTERNAL_VALUE_OBSERVATION_REQUIRED : bool := true.

Definition rd_le32 (raw : bytes) (off : nat) : Z := get_le (take 4 (drop off raw)).
Definition rd_hash (raw : bytes) (off : nat) : Hash256 := take 32 (drop off raw).

(** ** Proof of work ([core/btc_pow.h]) *)

Definition BtcHeaderHash (hdr : bytes) : Hash256 := Hash256d hdr.

Definition CheckProofOfWork (hdr : bytes) (bits : Z) (pow_limit : list Z) : bool :=
  let '(target, neg, over) := CompactToTarget bits in
  if neg || over || U256.IsZero target || U256.gtb target pow_limit then false
  else U256.leb (HashToU256 (BtcHeaderHash hdr)) target.

(** ** Records *)

Record BtcHeaderRecord := mkBtcHeader {
  b_raw : bytes; b_block_hash : Hash256; b_prev_hash : Hash256; b_merkle_root : Hash256;
  b_time : Z; b_bits : Z; b_height : Z; b_chain_work : list Z }.

Record BtcCheckpoint := mkBtcCheckpoint {
  cp_height : Z; cp_hash : Hash256; cp_bits : Z; cp_time : Z; cp_chain_work : list Z;
  cp_prev10_times : list Z }.

(** [std::sort] on a vector of integers. *)
Fixpoint insert_z (x : Z) (l : list Z) : list Z :=
  match l with [] => [x] | y :: l' => if y <? x then y :: insert_z x l' else x :: l end.
Definition sort_z (l : list Z) : list Z := foldr insert_z [] l.

Module BtcHeaderChain.

(** The immutable parameters of a chain. *)
Record Config := mkConfig {
  pow_limit_ : list Z; retarget_interval_ : Z; target_timespan_ : Z; no_retarget_ : bool; cp_ : BtcCheckpoint }.

Record t := mk {
  by_hash_ : gmap Hash256 BtcHeaderRecord;
  best_tip_ : Hash256;
  observed_checkpoint_ : Hash256;
  best_chain_ : list Hash256 }.

Section Chain.
Context (cfg : Config).

Definition cp_record : BtcHeaderRecord :=
  mkBtcHeader (replicate 80 0) (cp_hash (cp_ cfg)) ZeroHash ZeroHash (cp_time (cp_ cfg)) (cp_bits (cp_ cfg))
    (cp_height (cp_ cfg)) (cp_chain_work (cp_ cfg)).

(** [Init] on a cleared object: the constructor, and [Reset]. *)
Definition Init : t := mk {[cp_hash (cp_ cfg) := cp_record]} (cp_hash (cp_ cfg)) ZeroHash [cp_hash (cp_ cfg)].
Definition Reset (st : t) : t := Init.

(** ** Difficulty *)

(** [n] steps towards the ancestors; [None] when one is missing. *)
Fixpoint walk_back (m : gmap Hash256 BtcHeaderRecord) (n : nat) (r : BtcHeaderRecord) : option BtcHeaderRecord :=
  match n with
  | O => Some r
  | S n' => match m !! b_prev_hash r with None => None | Some p => walk_back m n' p end
  end.

Definition ExpectedBits (m : gmap Hash256 BtcHeaderRecord) (parent : BtcHeaderRecord) : Z :=
  if no_retarget_ cfg then b_bits parent
  else
    let next_h := u32 (b_height parent + 1) in
    if negb (next_h mod retarget_interval_ cfg =? 0) then b_bits parent
    else match walk_back m (Z.to_nat (retarget_interval_ cfg - 1)) parent with
         | None => 0
         | Some first => CalcNextBits (b_bits parent) (b_time parent - b_time first) (pow_limit_ cfg)
                           (target_timespan_ cfg)
         end.

(** The loop of [MedianTimePast] fills eleven times, so it runs at most eleven times and
    its guard of 24 never ends it. *)
Fixpoint past_times (m : gmap Hash256 BtcHeaderRecord) (n : nat) (cur : BtcHeaderRecord) : list Z :=
  match n with
  | O => []
  | S n' =>
      b_time cur ::
      (if bool_decide (b_block_hash cur = cp_hash (cp_ cfg)) then take n' (rev (cp_prev10_times (cp_ cfg)))
       else match m !! b_prev_hash cur with None => [] | Some p => past_times m n' p end)
  end.

Definition MedianTimePast (m : gmap Hash256 BtcHeaderRecord) (parent : BtcHeaderRecord) : Z :=
  let t := sort_z (past_times m 11 parent) in
  if (length t =? 0)%nat then 0 else nth (length t / 2) t 0.

(** ** The selected branch *)

(** The loop of [RebuildBestChainIndex]: the branch below [cur], oldest first, in front of
    [acc]; [None] when the index is cleared. *)
Fixpoint rebuild_loop (m : gmap Hash256 BtcHeaderRecord) (bound : nat) (cur : Hash256) (expected_height : Z)
    (acc : list Hash256) : option (list Hash256) :=
  match bound with
  | O => None
  | S bound' =>
      match m !! cur with
      | None => None
      | Some r =>
          if negb (b_height r =? expected_height) then None
          else if bool_decide (cur = cp_hash (cp_ cfg)) then
            if negb (expected_height =? cp_height (cp_ cfg)) then None else Some (cur :: acc)
          else if expected_height =? 0 then None
          else rebuild_loop m bound' (b_prev_hash r) (expected_height - 1) (cur :: acc)
      end
  end.

Definition RebuildBestChainIndex (m : gmap Hash256 BtcHeaderRecord) (tip : Hash256) : list Hash256 :=
  match m !! tip with
  | None => []
  | Some r =>
      if b_height r <? cp_height (cp_ cfg) then []
      else match rebuild_loop m (S (base.size m)) tip (b_height r) [] with Some l => l | None => [] end
  end.

Fixpoint descends_loop (m : gmap Hash256 BtcHeaderRecord) (bound : nat) (child : Hash256) (height : Z)
    (ancestor : Hash256) (anc_height : Z) : bool :=
  match bound with
  | O => false
  | S bound' =>
      if bool_decide (child = ancestor) then true
      else if height <=? anc_height then false
      else match m !! child with
           | None => false
           | Some r => descends_loop m bound' (b_prev_hash r) (height - 1) ancestor anc_height
           end
  end.

Definition DescendsFromLocked_ (m : gmap Hash256 BtcHeaderRecord) (child ancestor : Hash256) : bool :=
  match m !! ancestor, m !! child with
  | Some anc, Some cur =>
      if b_height cur <? b_height anc then false
      else descends_loop m (S (base.size m)) child (b_height cur) ancestor (b_height anc)
  | _, _ => false
  end.

Definition OnBestChain (st : t) (h : Hash256) : bool :=
  match by_hash_ st !! h with
  | None => false
  | Some r =>
      if b_height r <? cp_height (cp_ cfg) then false
      else match best_chain_ st !! Z.to_nat (b_height r - cp_height (cp_ cfg)) with
           | Some x => bytes_eqb x h
           | None => false
           end
  end.

(** ** Operations *)

Definition new_record (raw : bytes) (parent : BtcHeaderRecord) : BtcHeaderRecord :=
  let '(target, _, _) := CompactToTarget (rd_le32 raw 72) in
  mkBtcHeader raw (BtcHeaderHash raw) (rd_hash raw 4) (rd_hash raw 36) (rd_le32 raw 68) (rd_le32 raw 72)
    (u32 (b_height parent + 1)) (U256.add (b_chain_work parent) (BlockWork target)).

Definition SubmitHeader (st : t) (raw : bytes) (veld_block_time : Z) : t * bool :=
  let bh := BtcHeaderHash raw in
  match by_hash_ st !! bh with
  | Some _ => (st, true)
  | None =>
      let prev := rd_hash raw 4 in
      match by_hash_ st !! prev with
      | None => (st, false)
      | Some parent =>
          let htime := rd_le32 raw 68 in
          let hbits := rd_le32 raw 72 in
          if negb (CheckProofOfWork raw hbits (pow_limit_ cfg)) then (st, false)
          else
            let want := ExpectedBits (by_hash_ st) parent in
            if (want =? 0) || negb (hbits =? want) then (st, false)
            else if htime <=? MedianTimePast (by_hash_ st) parent then (st, false)
            else if negb (veld_block_time =? 0) && (htime >? u32 (veld_block_time + 7200)) then (st, false)
            else
              let r := new_record raw parent in
              let m := <[bh := r]> (by_hash_ st) in
              match m !! best_tip_ st with
              | None => (mk (delete bh m) (best_tip_ st) (observed_checkpoint_ st) (best_chain_ st), false)
              | Some best =>
                  if U256.gtb (b_chain_work r) (b_chain_work best) then
                    if bool_decide (observed_checkpoint_ st <> ZeroHash)
                       && negb (DescendsFromLocked_ m bh (observed_checkpoint_ st))
                    then (mk (delete bh m) (best_tip_ st) (observed_checkpoint_ st) (best_chain_ st), false)
                    else
                      let extends := bool_decide (b_prev_hash r = best_tip_ st)
                                     && (b_height r =? u32 (b_height best + 1))
                                     && (cp_height (cp_ cfg) <=? b_height r)
                                     && (size (best_chain_ st) =? b_height r - cp_height (cp_ cfg)) in
                      (mk m bh (observed_checkpoint_ st)
                         (if extends then best_chain_ st ++ [bh] else RebuildBestChainIndex m bh), true)
                  else (mk m (best_tip_ st) (observed_checkpoint_ st) (best_chain_ st), true)
              end
      end
  end.

Definition PromoteObservedCheckpoint (st : t) (block_hash : Hash256) : t * bool :=
  match by_hash_ st !! block_hash with
  | None => (st, false)
  | Some candidate =>
      if negb (OnBestChain st block_hash) then (st, false)
      else if bool_decide (observed_checkpoint_ st = block_hash) then (st, true)
      else
        let promoted := (mk (by_hash_ st) (best_tip_ st) block_hash (best_chain_ st), true) in
        if bool_decide (observed_checkpoint_ st <> ZeroHash) then
          match by_hash_ st !! observed_checkpoint_ st with
          | None => (st, false)
          | Some prior =>
              if negb (OnBestChain st (observed_checkpoint_ st)) then (st, false)
              else if b_height candidate <=? b_height prior
              then (st, DescendsFromLocked_ (by_hash_ st) (observed_checkpoint_ st) block_hash)
              else promoted
          end
        else promoted
  end.

(** ** Reads *)

Definition BestHeight (st : t) : Z :=
  match by_hash_ st !! best_tip_ st with Some r => b_height r | None => 0 end.
Definition ObservedCheckpointHeight (st : t) : Z :=
  match by_hash_ st !! observed_checkpoint_ st with Some r => b_height r | None => 0 end.
Definition Has (st : t) (h : Hash256) : bool := bool_decide (is_Some (by_hash_ st !! h)).
Definition Get (st : t) (h : Hash256) : option BtcHeaderRecord := by_hash_ st !! h.

Definition BTC_TARGET_SECONDS : Z := 600.
Definition MAX_LAG_SECONDS : Z := 48 * 60 * 60.
Definition MAX_LAG_BLOCKS : Z := MAX_LAG_SECONDS / BTC_TARGET_SECONDS.

Definition ExternalValueFresh (st : t) (veld_timestamp : Z) : bool :=
  if negb EXTERNAL_VALUE_FRESHNESS_REQUIRED then true
  else if veld_timestamp =? 0 then false
  else match by_hash_ st !! best_tip_ st with
  | None => false
  | Some best =>
      if (b_time best >? veld_timestamp) && (b_time best - veld_timestamp >? 2 * 60 * 60) then false
      else if b_time best + MAX_LAG_SECONDS <? veld_timestamp then false
      else if veld_timestamp <=? cp_time (cp_ cfg) then true
      else
        let elapsed := veld_timestamp - cp_time (cp_ cfg) in
        let expected_advance := elapsed / BTC_TARGET_SECONDS in
        let required_advance := if expected_advance >? MAX_LAG_BLOCKS then expected_advance - MAX_LAG_BLOCKS else 0 in
        if required_advance >? UINT64_MAX - cp_height (cp_ cfg) then false
        else cp_height (cp_ cfg) + required_advance <=? b_height best
  end.

Definition IsFinal (st : t) (block_hash : Hash256) (k : Z) : bool :=
  match by_hash_ st !! block_hash, by_hash_ st !! best_tip_ st with
  | Some r, Some best => if negb (OnBestChain st block_hash) then false else b_height r + k <=? b_height best
  | _, _ => false
  end.

Definition IsFinalForExternalValue (st : t) (block_hash : Hash256) (k : Z) : bool :=
  match by_hash_ st !! block_hash, by_hash_ st !! best_tip_ st with
  | Some r, Some best =>
      if negb (OnBestChain st block_hash) || (b_height r + k >? b_height best) then false
      else if negb EXTERNAL_VALUE_OBSERVATION_REQUIRED then true
      else match by_hash_ st !! observed_checkpoint_ st with
           | None => false
           | Some observed =>
               if negb (OnBestChain st (observed_checkpoint_ st)) then false
               else b_height r <=? b_height observed
           end
  | _, _ => false
  end.

(** Folding a leaf up its branch; bit [i] of [dirs] puts sibling [i] on the left.  [dirs]
    has 64 bits: the shift of the source is defined for the first 64 siblings only. *)
Fixpoint merkle_fold (h : Hash256) (branch : list Hash256) (dirs : Z) : Hash256 :=
  match branch with
  | [] => h
  | s :: branch' =>
      merkle_fold (Hash256d (if Z.testbit dirs 0 then s ++ h else h ++ s)) branch' (Z.shiftr dirs 1)
  end.

Definition VerifyMerkle (st : t) (block_hash txid : Hash256) (branch : list Hash256) (dirs : Z) : bool :=
  match by_hash_ st !! block_hash with
  | None => false
  | Some r => bytes_eqb (merkle_fold txid branch dirs) (b_merkle_root r)
  end.

(** ** Snapshots and the digest *)

Record StateSnapshot := mkSnapshot {
  s_by_hash : gmap Hash256 BtcHeaderRecord; s_best_tip : Hash256; s_observed_checkpoint : Hash256 }.

Definition SnapshotState (st : t) : StateSnapshot :=
  mkSnapshot (by_hash_ st) (best_tip_ st) (observed_checkpoint_ st).

Definition RestoreState (s : StateSnapshot) : option t :=
  let st := mk (s_by_hash s) (s_best_tip s) (s_observed_checkpoint s)
              (RebuildBestChainIndex (s_by_hash s) (s_best_tip s)) in
  if bool_decide (observed_checkpoint_ st <> ZeroHash)
     && (negb (Has st (observed_checkpoint_ st)) || negb (OnBestChain st (observed_checkpoint_ st)))
  then None else Some st.

Definition put_u256 (v : list Z) : bytes := concat (map (put_le 4) v).

Definition put_header (r : BtcHeaderRecord) : bytes :=
  b_raw r ++ b_block_hash r ++ b_prev_hash r ++ b_merkle_root r ++ put_le 4 (b_time r) ++ put_le 4 (b_bits r)
  ++ put_le 4 (b_height r) ++ put_u256 (b_chain_work r).

Definition SPV_DOMAIN : bytes := b:"VELD_D_SPV_v3_OBSERVED|".

Definition state_buf (st : t) : bytes :=
  SPV_DOMAIN ++ put_u256 (pow_limit_ cfg) ++ put_le 4 (retarget_interval_ cfg)
  ++ put_le 8 (u64 (target_timespan_ cfg)) ++ [if no_retarget_ cfg then 1 else 0] ++ cp_hash (cp_ cfg)
  ++ put_le 4 (cp_height (cp_ cfg)) ++ concat (map (put_le 4) (cp_prev10_times (cp_ cfg)))
  ++ best_tip_ st ++ observed_checkpoint_ st ++ put_le 8 (u64 (Z.of_nat (base.size (by_hash_ st))))
  ++ concat (map (fun k => match by_hash_ st !! k with Some r => k ++ put_header r | None => [] end)
       (sort_hashes (map fst (map_to_list (by_hash_ st))))).

Definition StateDigest (st : t) : Hash256 := Hash256d (state_buf st).

End Chain.
End BtcHeaderChain.
