(* ===== verification/BtcHeaderRules.v ===== *)
(** * Rules of the Bitcoin header chain

    Every stored header descends from the checkpoint, one height at a time; [branch] is
    the path from the checkpoint to a header.  The lemmas here show that the bounded loops
    of the source compute that path, that it never changes as headers are added, and that
    each operation keeps the invariant [chain_inv]. *)
From S2P Require Import Prelude Limbs BtcPow Bytes Sha256 StateDigest BtcHeaderChain.
Import BtcHeaderChain.

Section Rules.
Context (cfg : Config).
Abbreviation cph := (cp_hash (cp_ cfg)).
Abbreviation cp0 := (cp_height (cp_ cfg)).
Abbreviation headers := (gmap Hash256 BtcHeaderRecord).

(** A configuration the code can be given: 32-bit fields and limbs, and a checkpoint whose
    hash is not the null hash, which stands for "no observation". *)
Definition config_ok : Prop :=
  fits 32 cp0 /\ wf8 (cp_chain_work (cp_ cfg)) /\ wf8 (pow_limit_ cfg) /\ cph <> ZeroHash.

(** ** Linkage and branches *)

Definition linked (m : headers) : Prop :=
  m !! cph = Some (cp_record cfg) /\
  forall h r, m !! h = Some r ->
    b_block_hash r = h /\ cp0 <= b_height r
    /\ (h <> cph -> exists p, m !! b_prev_hash r = Some p /\ b_height r = b_height p + 1).

(** The path from the checkpoint to [h], oldest block first. *)
Inductive branch (m : headers) : Hash256 -> list Hash256 -> Prop :=
| branch_cp : branch m cph [cph]
| branch_step h r l : m !! h = Some r -> h <> cph -> branch m (b_prev_hash r) l -> branch m h (l ++ [h]).

Lemma branch_unique m h l1 l2 : branch m h l1 -> branch m h l2 -> l1 = l2.
Proof.
  intros H1. revert l2. induction H1 as [|h r l Hr Hn H1 IH]; intros l2 H2; inversion H2; subst; try done.
  f_equal. apply IH. by simplify_eq.
Qed.

Lemma branch_mono m m' h l : m ⊆ m' -> branch m h l -> branch m' h l.
Proof.
  intros Hs H. induction H; [constructor|]. econstructor; eauto. by apply (lookup_weaken m).
Qed.

Lemma branch_last m h l : branch m h l -> exists l', l = l' ++ [h].
Proof. intros []; [by exists []|eauto]. Qed.

Lemma branch_exists m h r : linked m -> m !! h = Some r -> exists l, branch m h l.
Proof.
  intros [Hcp Hl]. remember (Z.to_nat (b_height r - cp0)) as n eqn:En.
  revert h r En. induction n as [|n IH]; intros h r En Hr;
    (destruct (decide (h = cph)) as [->|Hn]; [eexists; constructor|]);
    destruct (Hl h r Hr) as (_ & Hge & Hp); destruct (Hp Hn) as (p & Ep & Eh);
    pose proof (proj1 (proj2 (Hl _ _ Ep))).
  - lia.
  - destruct (IH (b_prev_hash r) p) as [l Hb]; [lia|done|]. eexists. by econstructor.
Qed.

(** Position in a branch is height above the checkpoint. *)
Lemma branch_height m h l r :
  linked m -> branch m h l -> m !! h = Some r -> Z.of_nat (length l) = b_height r - cp0 + 1.
Proof.
  intros [Hcp Hl] H. revert r. induction H as [|h r0 l Hr0 Hn H IH]; intros r Hr.
  - simplify_eq. cbn [cp_record b_height length]. lia.
  - assert (r0 = r) as -> by congruence. destruct (Hl _ _ Hr) as (_ & _ & Hp). destruct (Hp Hn) as (p & Ep & Eh).
    rewrite length_app, Nat2Z.inj_add, (IH _ Ep). cbn [length]. lia.
Qed.

(** A member of a branch is stored and its own branch is a prefix. *)
Lemma branch_member m h l x :
  linked m -> branch m h l -> x ∈ l -> exists lx, branch m x lx /\ lx `prefix_of` l.
Proof.
  intros HL H. induction H as [|h r l Hr Hn H IH]; intros Hx.
  - apply list_elem_of_singleton in Hx as ->. exists [cph]. split; [constructor|done].
  - apply elem_of_app in Hx as [Hx|Hx].
    + destruct (IH Hx) as (lx & Hb & Hp). exists lx. split; [done|]. by apply prefix_app_r.
    + apply list_elem_of_singleton in Hx as ->. exists (l ++ [h]). split; [by econstructor|done].
Qed.

Lemma branch_stored m h l : linked m -> branch m h l -> exists r, m !! h = Some r.
Proof. intros [Hcp _] []; eauto. Qed.

Lemma branch_lookup m h l x r :
  linked m -> branch m h l -> m !! x = Some r -> x ∈ l <-> l !! Z.to_nat (b_height r - cp0) = Some x.
Proof.
  intros HL H Hr. split; [|apply list_elem_of_lookup_2].
  intros Hx. destruct (branch_member _ _ _ _ HL H Hx) as (lx & Hb & Hp).
  pose proof (branch_height _ _ _ _ HL Hb Hr) as Hlen.
  destruct (branch_last _ _ _ Hb) as [l' ->]. destruct Hp as [k ->].
  rewrite length_app in Hlen. cbn [length] in Hlen.
  rewrite <- app_assoc, lookup_app_r by lia.
  replace (Z.to_nat (b_height r - cp0) - length l')%nat with 0%nat by lia. done.
Qed.

Lemma branch_nodup m h l : linked m -> branch m h l -> NoDup l.
Proof.
  intros HL H. induction H as [|h r l Hr Hn H IH]; [apply NoDup_singleton|].
  apply NoDup_app. split; [done|]. split; [|apply NoDup_singleton].
  intros x Hx ->%list_elem_of_singleton.
  destruct HL as [Hcp Hl]. destruct (Hl _ _ Hr) as (_ & _ & Hp). destruct (Hp Hn) as (p & Ep & Eh).
  pose proof (branch_height _ _ _ _ (conj Hcp Hl) H Ep) as Hlen.
  apply (branch_lookup _ _ _ _ _ (conj Hcp Hl) H Hr), lookup_lt_Some in Hx. lia.
Qed.

Lemma branch_length m h l : linked m -> branch m h l -> (length l <= base.size m)%nat.
Proof.
  intros HL H. pose proof (branch_nodup _ _ _ HL H) as Hnd.
  replace (length l) with (base.size (list_to_set l : gset Hash256)) by (by apply size_list_to_set).
  rewrite <- size_dom. apply subseteq_size. intros x Hx%elem_of_list_to_set.
  destruct (branch_member _ _ _ _ HL H Hx) as (lx & Hb & _).
  destruct (branch_stored _ _ _ HL Hb) as [r Hr]. apply elem_of_dom. eauto.
Qed.

(** ** The loops of the source compute the branch *)

Lemma rebuild_branch m h l r bound acc :
  config_ok -> linked m -> branch m h l -> m !! h = Some r -> (length l <= bound)%nat ->
  rebuild_loop cfg m bound h (b_height r) acc = Some (l ++ acc).
Proof.
  intros (Hf & _) [Hcp Hl] H. revert r bound acc. induction H as [|h r0 l Hr0 Hn H IH]; intros r bound acc Hr Hle.
  - destruct bound as [|bound]; [cbn in Hle; lia|]. cbn [rebuild_loop]. rewrite Hr.
    rewrite Z.eqb_refl, bool_decide_eq_true_2 by done. simplify_eq. cbn. by rewrite Z.eqb_refl.
  - rewrite length_app in Hle. cbn [length] in Hle. destruct bound as [|bound]; [lia|].
    assert (r0 = r) as -> by congruence. cbn [rebuild_loop]. rewrite Hr.
    rewrite Z.eqb_refl, bool_decide_eq_false_2 by done. cbn [negb].
    destruct (Hl _ _ Hr) as (_ & _ & Hp). destruct (Hp Hn) as (p & Ep & Eh).
    pose proof (proj1 (proj2 (Hl _ _ Ep))). unfold fits in Hf.
    destruct (Z.eqb_spec (b_height r) 0); [lia|].
    replace (b_height r - 1) with (b_height p) by lia.
    rewrite (IH _ _ _ Ep) by lia. by rewrite <- app_assoc.
Qed.

Lemma rebuild_index m h l : config_ok -> linked m -> branch m h l -> RebuildBestChainIndex cfg m h = l.
Proof.
  intros HC HL H. destruct (branch_stored _ _ _ HL H) as [r Hr]. unfold RebuildBestChainIndex. rewrite Hr.
  destruct (Z.ltb_spec (b_height r) cp0); [pose proof (proj1 (proj2 (proj2 HL _ _ Hr))); lia|].
  rewrite (rebuild_branch m h l r) by (eauto; pose proof (branch_length _ _ _ HL H); lia).
  apply app_nil_r.
Qed.

Lemma descends_branch m c l r a ra bound :
  linked m -> branch m c l -> m !! c = Some r -> m !! a = Some ra -> (length l <= bound)%nat ->
  descends_loop m bound c (b_height r) a (b_height ra) = bool_decide (a ∈ l).
Proof.
  intros HL H. revert r bound. induction H as [|c r0 l Hr0 Hn H IH]; intros r bound Hr Ha Hle.
  - destruct bound as [|bound]; [cbn in Hle; lia|]. cbn [descends_loop].
    destruct (decide (cph = a)) as [E|E];
      [rewrite bool_decide_eq_true_2 by done; subst; symmetry; apply bool_decide_eq_true_2; set_solver|].
    rewrite (bool_decide_eq_false_2 (cph = a)) by done.
    rewrite (bool_decide_eq_false_2 (a ∈ _)) by set_solver.
    destruct (Z.leb_spec (b_height r) (b_height ra)) as [|Hlt]; [done|].
    destruct HL as [Hcp Hl]. simplify_eq. pose proof (proj1 (proj2 (Hl _ _ Ha))). cbn in Hlt. lia.
  - rewrite length_app in Hle. cbn [length] in Hle. destruct bound as [|bound]; [lia|].
    assert (r0 = r) as -> by congruence.
    cbn [descends_loop]. destruct (decide (c = a)) as [E|E];
      [rewrite bool_decide_eq_true_2 by done; subst; symmetry; apply bool_decide_eq_true_2; set_solver|].
    rewrite (bool_decide_eq_false_2 (c = a)) by done.
    assert (bool_decide (a ∈ l ++ [c]) = bool_decide (a ∈ l)) as -> by (apply bool_decide_ext; set_solver).
    pose proof HL as [Hcp Hl]. destruct (Hl _ _ Hr) as (_ & _ & Hp). destruct (Hp Hn) as (p & Ep & Eh).
    destruct (Z.leb_spec (b_height r) (b_height ra)) as [Hle'|Hlt].
    + symmetry. apply bool_decide_eq_false_2. intros Hin%(branch_lookup _ _ _ _ _ HL H Ha).
      apply lookup_lt_Some in Hin. pose proof (branch_height _ _ _ _ HL H Ep).
      pose proof (proj1 (proj2 (Hl _ _ Ep))). lia.
    + rewrite Hr. replace (b_height r - 1) with (b_height p) by lia. apply IH; [done|done|lia].
Qed.

Lemma descends_iff m c l a : linked m -> branch m c l -> DescendsFromLocked_ m c a = bool_decide (a ∈ l).
Proof.
  intros HL H. destruct (branch_stored _ _ _ HL H) as [r Hr]. unfold DescendsFromLocked_. rewrite Hr.
  destruct (m !! a) as [ra|] eqn:Ea.
  - pose proof (branch_length _ _ _ HL H).
    destruct (Z.ltb_spec (b_height r) (b_height ra)) as [Hlt|].
    + symmetry. apply bool_decide_eq_false_2. intros Hin%(branch_lookup _ _ _ _ _ HL H Ea).
      apply lookup_lt_Some in Hin. pose proof (branch_height _ _ _ _ HL H Hr).
      pose proof (proj1 (proj2 (proj2 HL _ _ Hr))). lia.
    + apply descends_branch; (done || lia).
  - symmetry. apply bool_decide_eq_false_2. intros Hin.
    destruct (branch_member _ _ _ _ HL H Hin) as (lx & Hb & _).
    destruct (branch_stored _ _ _ HL Hb). congruence.
Qed.

Lemma on_best_iff st h :
  linked (by_hash_ st) -> branch (by_hash_ st) (best_tip_ st) (best_chain_ st) ->
  OnBestChain cfg st h = bool_decide (h ∈ best_chain_ st).
Proof.
  intros HL H. unfold OnBestChain. destruct (by_hash_ st !! h) as [r|] eqn:Er.
  - destruct (Z.ltb_spec (b_height r) cp0); [pose proof (proj1 (proj2 (proj2 HL _ _ Er))); lia|].
    pose proof (branch_lookup _ _ _ _ _ HL H Er) as Hiff. rewrite (bool_decide_ext _ _ Hiff).
    destruct (best_chain_ st !! _) as [x|]; [|symmetry; by apply bool_decide_eq_false_2].
    apply bool_decide_ext. split; congruence.
  - symmetry. apply bool_decide_eq_false_2. intros Hin.
    destruct (branch_member _ _ _ _ HL H Hin) as (lx & Hb & _).
    destruct (branch_stored _ _ _ HL Hb). congruence.
Qed.

End Rules.
