(* ===== verification/BtcHeaderSafety.v ===== *)
(** * Safety of the Bitcoin header chain

    What every sequence of submitted headers and promoted observations guarantees: sound
    headers, a most-work tip, an exact constant-time index, and an observed checkpoint no
    later branch can rewrite. *)
From S2P Require Import Prelude Limbs BtcPow Bytes Sha256 StateDigest BtcHeaderChain BtcHeaderRules.
Import BtcHeaderChain.

(** ** Proof of work, on integers *)

Lemma le32_lor a b c d :
  fits 8 a -> fits 8 b -> fits 8 c -> fits 8 d ->
  Z.lor (Z.lor (Z.lor a (u32 (Z.shiftl b 8))) (u32 (Z.shiftl c 16))) (u32 (Z.shiftl d 24))
  = a + 256 * (b + 256 * (c + 256 * d)).
Proof.
  unfold fits. intros. rewrite !Z.shiftl_mul_pow2 by lia.
  rewrite !(wrap_id 32) by (unfold fits; lia).
  rewrite <- !Z.shiftl_mul_pow2 by lia.
  rewrite (lor_add_disjoint a b 8), (lor_add_disjoint _ c 16), (lor_add_disjoint _ d 24) by lia. lia.
Qed.

Lemma HashToU256_spec h : is_hash h -> wf8 (HashToU256 h) /\ lval (HashToU256 h) = get_le h.
Proof.
  intros [Hl Hb]. do 32 (destruct h as [|? h]; [discriminate Hl|]). destruct h; [|discriminate Hl]. clear Hl.
  unfold is_bytes in Hb. rewrite !Forall_cons in Hb. destruct_and! Hb.
  unfold HashToU256. cbn [map seq nth Nat.add Nat.mul]. rewrite !le32_lor by done.
  rewrite !get_le_cons by done. cbn [lval get_le]. unfold fits in *. split; [|lia].
  split; [done|]. repeat constructor; lia.
Qed.

Lemma rd_le32_fits raw off : is_bytes raw -> (off + 4 <= length raw)%nat -> fits 32 (rd_le32 raw off).
Proof.
  intros Hb Hl. apply (get_le_fits _ 4); [by apply is_bytes_take, is_bytes_drop|].
  rewrite length_take, length_drop. lia.
Qed.

(** The proof-of-work gate, on integers: the encoding is positive and canonical, its
    target is at most the network's limit, and the hash is at most the target. *)
Lemma CheckProofOfWork_spec raw bits limit :
  fits 32 bits -> wf8 limit -> CheckProofOfWork raw bits limit = true ->
  let '(target, neg, over) := CompactToTarget bits in
  neg = false /\ over = false /\ 0 < lval target <= lval limit /\ get_le (BtcHeaderHash raw) <= lval target.
Proof.
  intros Hb Hw. unfold CheckProofOfWork. destruct (CompactToTarget bits) as [[t neg] ov] eqn:E.
  destruct (CompactToTarget_spec _ _ _ _ Hb E) as (Ht & _). intros H. split_guard H.
  bool_hyps. rewrite gtb_spec in * by done. rewrite IsZero_spec in * by done.
  destruct (HashToU256_spec (BtcHeaderHash raw)) as [Hh Eh]; [apply Hash256d_hash|].
  rewrite leb_spec, Eh in H by done. pose proof (wf8_bounds t Ht). split_and!; (done || lia).
Qed.

Section Safety.
Context (cfg : Config).
Abbreviation cph := (cp_hash (cp_ cfg)).
Abbreviation cp0 := (cp_height (cp_ cfg)).
Abbreviation linked := (linked cfg).
Abbreviation branch := (branch cfg).

(** ** The invariant *)

(** What is known of a stored header other than the checkpoint. *)
Definition header_ok (m : gmap Hash256 BtcHeaderRecord) (h : Hash256) (r : BtcHeaderRecord) : Prop :=
  exists parent,
    length (b_raw r) = 80%nat /\ is_bytes (b_raw r) /\ h = BtcHeaderHash (b_raw r)
    /\ m !! rd_hash (b_raw r) 4 = Some parent /\ r = new_record (b_raw r) parent
    /\ b_height r = b_height parent + 1
    /\ CheckProofOfWork (b_raw r) (b_bits r) (pow_limit_ cfg) = true
    /\ b_bits r = ExpectedBits cfg m parent /\ b_bits r <> 0
    /\ MedianTimePast cfg m parent < b_time r.

Record chain_inv (st : t) : Prop := {
  ci_linked : linked (by_hash_ st);
  ci_headers : forall h r, by_hash_ st !! h = Some r -> h <> cph -> header_ok (by_hash_ st) h r;
  ci_work : forall h r, by_hash_ st !! h = Some r -> wf8 (b_chain_work r);
  ci_best : exists best, by_hash_ st !! best_tip_ st = Some best
    /\ forall h r, by_hash_ st !! h = Some r -> lval (b_chain_work r) <= lval (b_chain_work best);
  ci_index : branch (by_hash_ st) (best_tip_ st) (best_chain_ st);
  ci_observed : observed_checkpoint_ st <> ZeroHash -> observed_checkpoint_ st ∈ best_chain_ st }.

Lemma init_inv : config_ok cfg -> chain_inv (Init cfg).
Proof.
  intros (Hf & Hw & Hp & Hz).
  assert (forall h r, ({[cph := cp_record cfg]} : gmap _ _) !! h = Some r -> h = cph /\ r = cp_record cfg) as Hs.
  { intros h r [-> ->]%lookup_singleton_Some. done. }
  split; unfold Init; cbn [by_hash_ best_tip_ observed_checkpoint_ best_chain_].
  - split; [apply lookup_singleton_eq|]. intros h r [-> ->]%Hs. cbn [cp_record b_block_hash b_height].
    split_and!; [done|lia|done].
  - intros h r [-> ->]%Hs. done.
  - intros h r [-> ->]%Hs. done.
  - exists (cp_record cfg). split; [apply lookup_singleton_eq|]. intros h r [-> ->]%Hs. lia.
  - constructor.
  - done.
Qed.

(** ** Stored ancestors do not change *)

Lemma walk_back_mono m m' n r f : m ⊆ m' -> walk_back m n r = Some f -> walk_back m' n r = Some f.
Proof.
  intros Hs. revert r. induction n as [|n IH]; intros r; cbn [walk_back]; [done|].
  destruct (m !! b_prev_hash r) as [p|] eqn:E; [|done]. rewrite (lookup_weaken _ _ _ _ E Hs). apply IH.
Qed.

Lemma expected_bits_mono m m' p :
  m ⊆ m' -> ExpectedBits cfg m p <> 0 -> ExpectedBits cfg m' p = ExpectedBits cfg m p.
Proof.
  intros Hs. unfold ExpectedBits. destruct (no_retarget_ cfg); [done|]. destruct (negb _); [done|].
  destruct (walk_back m _ p) as [f|] eqn:E; [|done]. by rewrite (walk_back_mono _ _ _ _ _ Hs E).
Qed.

Lemma past_times_mono m m' n h r :
  linked m -> m ⊆ m' -> m !! h = Some r -> past_times cfg m' n r = past_times cfg m n r.
Proof.
  intros [Hcp Hl] Hs. revert h r. induction n as [|n IH]; intros h r Hr; cbn [past_times]; [done|]. f_equal.
  destruct (Hl _ _ Hr) as (Eh & _ & Hp). case_bool_decide as Ec; [done|].
  destruct Hp as (p & Ep & _); [congruence|]. rewrite Ep, (lookup_weaken _ _ _ _ Ep Hs). by apply (IH (b_prev_hash r)).
Qed.

Lemma header_ok_mono m m' h r : linked m -> m ⊆ m' -> header_ok m h r -> header_ok m' h r.
Proof.
  intros HL Hs (p & Hlen & Hb & Hh & Hp & Er & Eh & Hpow & Hbits & Hnz & Hmtp).
  exists p. rewrite (expected_bits_mono m m' p Hs) by (rewrite <- Hbits; exact Hnz).
  unfold MedianTimePast in *. rewrite (past_times_mono m m' _ _ _ HL Hs Hp).
  split_and!; try done. by apply (lookup_weaken m).
Qed.

(** ** Adding a header *)

(** The tests [SubmitHeader] makes of a header it has not stored. *)
Definition admissible (st : t) (raw : bytes) (vt : Z) (parent : BtcHeaderRecord) : Prop :=
  by_hash_ st !! BtcHeaderHash raw = None /\ by_hash_ st !! rd_hash raw 4 = Some parent
  /\ CheckProofOfWork raw (rd_le32 raw 72) (pow_limit_ cfg) = true
  /\ rd_le32 raw 72 = ExpectedBits cfg (by_hash_ st) parent /\ rd_le32 raw 72 <> 0
  /\ MedianTimePast cfg (by_hash_ st) parent < rd_le32 raw 68
  /\ (vt <> 0 -> rd_le32 raw 68 <= u32 (vt + 7200)).

(** Where the new header is kept and whether it becomes the tip. *)
Definition settled (st : t) (raw : bytes) (parent : BtcHeaderRecord) (res : t * bool) : Prop :=
  let r := new_record raw parent in
  let m := <[BtcHeaderHash raw := r]> (by_hash_ st) in
  exists best, by_hash_ st !! best_tip_ st = Some best /\
  (if U256.gtb (b_chain_work r) (b_chain_work best) then
     if bool_decide (observed_checkpoint_ st <> ZeroHash)
        && negb (DescendsFromLocked_ m (BtcHeaderHash raw) (observed_checkpoint_ st))
     then res = (st, false)
     else exists index,
       res = (mk m (BtcHeaderHash raw) (observed_checkpoint_ st) index, true)
       /\ (index = RebuildBestChainIndex cfg m (BtcHeaderHash raw)
           \/ (b_prev_hash r = best_tip_ st /\ index = best_chain_ st ++ [BtcHeaderHash raw]))
   else res = (mk m (best_tip_ st) (observed_checkpoint_ st) (best_chain_ st), true)).

Lemma submit_cases st raw vt :
  chain_inv st ->
  (SubmitHeader cfg st raw vt = (st, true) /\ is_Some (by_hash_ st !! BtcHeaderHash raw))
  \/ (SubmitHeader cfg st raw vt = (st, false))
  \/ (exists parent, admissible st raw vt parent /\ settled st raw parent (SubmitHeader cfg st raw vt)).
Proof.
  intros I. unfold SubmitHeader. destruct (by_hash_ st !! BtcHeaderHash raw) as [r0|] eqn:E0; [left; eauto|].
  destruct (by_hash_ st !! rd_hash raw 4) as [parent|] eqn:Ep; [|by right; left].
  destruct (CheckProofOfWork raw _ _) eqn:Epow; [cbn [negb]|by right; left].
  destruct (_ || _) eqn:Ew; [by right; left|].
  destruct (_ <=? MedianTimePast _ _ _) eqn:Em; [by right; left|].
  destruct (negb (vt =? 0) && _) eqn:Ev; [by right; left|].
  right; right. exists parent. split; [unfold admissible; bool_hyps; split_and!; (done || lia)|].
  destruct (ci_best _ I) as (best & Eb & _). exists best. split; [done|].
  set (r := new_record raw parent) in *. set (m := <[BtcHeaderHash raw := r]> (by_hash_ st)).
  assert (m !! best_tip_ st = Some best) as -> by (unfold m; rewrite lookup_insert_ne by congruence; done).
  destruct (U256.gtb _ _); [|done]. destruct (bool_decide _ && _) eqn:Eo.
  - unfold m. rewrite delete_insert_id by done. by destruct st.
  - eexists. split; [reflexivity|]. destruct (bool_decide _ && _ && _ && _) eqn:Ee; [right|by left].
    by bool_hyps.
Qed.
Lemma new_record_fields raw parent :
  let r := new_record raw parent in
  b_raw r = raw /\ b_block_hash r = BtcHeaderHash raw /\ b_prev_hash r = rd_hash raw 4
  /\ b_time r = rd_le32 raw 68 /\ b_bits r = rd_le32 raw 72 /\ b_height r = u32 (b_height parent + 1)
  /\ b_chain_work r = U256.add (b_chain_work parent) (BlockWork (fst (fst (CompactToTarget (rd_le32 raw 72))))).
Proof. unfold new_record. destruct (CompactToTarget _) as [[tg ?] ?]. done. Qed.

Definition room (st : t) : Prop := cp0 + Z.of_nat (base.size (by_hash_ st)) < 2 ^ 32.
Definition is_header (raw : bytes) : Prop := length raw = 80%nat /\ is_bytes raw.

Lemma new_height st raw parent h :
  config_ok cfg -> chain_inv st -> room st -> by_hash_ st !! h = Some parent ->
  b_height (new_record raw parent) = b_height parent + 1.
Proof.
  intros HC I HR Hp. destruct (new_record_fields raw parent) as (_ & _ & _ & _ & _ & -> & _).
  apply wrap_id. pose proof (ci_linked _ I) as HL. destruct (branch_exists _ _ _ _ HL Hp) as [l Hb].
  pose proof (branch_height _ _ _ _ _ HL Hb Hp). pose proof (branch_length _ _ _ _ HL Hb).
  pose proof (proj1 (proj2 (proj2 HL _ _ Hp))). unfold room in HR. destruct HC as [[? _] _]. unfold fits. lia.
Qed.

Lemma new_work_wf st raw parent h :
  chain_inv st -> is_header raw -> by_hash_ st !! h = Some parent -> wf8 (b_chain_work (new_record raw parent)).
Proof.
  intros I [Hl Hb] Hp. destruct (new_record_fields raw parent) as (_ & _ & _ & _ & _ & _ & ->).
  destruct (CompactToTarget _) as [[tg ng] ov] eqn:E.
  destruct (CompactToTarget_spec _ _ _ _ (rd_le32_fits raw 72 Hb ltac:(lia)) E) as (Ht & _).
  apply add_spec; [by apply (ci_work _ I h)|]. by apply BlockWork_spec.
Qed.

Lemma admissible_extends st raw vt parent :
  config_ok cfg -> chain_inv st -> room st -> is_header raw -> admissible st raw vt parent ->
  let r := new_record raw parent in let m := <[BtcHeaderHash raw := r]> (by_hash_ st) in
  by_hash_ st ⊆ m /\ linked m /\ (forall h r', m !! h = Some r' -> wf8 (b_chain_work r'))
  /\ (forall h r', m !! h = Some r' -> h <> cph -> header_ok m h r').
Proof.
  intros HC I HR [Hlen Hb] (Hn & Hp & Hpow & Hbits & Hnz & Hmtp & _) r m.
  pose proof (new_height st raw parent _ HC I HR Hp) as Hh.
  pose proof (new_work_wf st raw parent _ I (conj Hlen Hb) Hp) as Hw.
  destruct (new_record_fields raw parent) as (Er & Ehs & Epv & Et & Ebt & _ & _).
  fold r in Hh, Hw, Er, Ehs, Epv, Et, Ebt.
  assert (by_hash_ st ⊆ m) as Hs by (by apply insert_subseteq).
  pose proof (ci_linked _ I) as HL. pose proof HL as [Hcp Hl].
  assert (BtcHeaderHash raw <> cph) as Hne by congruence.
  assert (m !! b_prev_hash r = Some parent) as Hp' by (rewrite Epv; by apply (lookup_weaken (by_hash_ st))).
  split; [done|]. split; [|split].
  - split; [by apply (lookup_weaken (by_hash_ st))|].
    intros h r' [[<- <-]|[Hhn Hr']]%lookup_insert_Some.
    + pose proof (proj1 (proj2 (Hl _ _ Hp))). split_and!; [done|lia|]. intros _. eauto.
    + destruct (Hl _ _ Hr') as (? & ? & Hq). split_and!; [done|done|]. intros Hc.
      destruct (Hq Hc) as (q & Eq & ?). exists q. split; [|done]. by apply (lookup_weaken (by_hash_ st)).
  - intros h r' [[<- <-]|[Hhn Hr']]%lookup_insert_Some; [done|]. by apply (ci_work _ I h).
  - intros h r' [[<- <-]|[Hhn Hr']]%lookup_insert_Some Hc.
    + apply (header_ok_mono (by_hash_ st) m); [done|done|]. exists parent. rewrite Er, Ebt, Et. by split_and!.
    + apply (header_ok_mono (by_hash_ st) m); [done|done|]. by apply (ci_headers _ I).
Qed.

(** ** Every operation keeps the invariant *)

Lemma submit_inv st raw vt :
  config_ok cfg -> chain_inv st -> room st -> is_header raw -> chain_inv (fst (SubmitHeader cfg st raw vt)).
Proof.
  intros HC I HR Hraw. destruct (submit_cases st raw vt I) as [[-> _]|[->|(parent & Ha & best & Eb & Hs)]]; [done|done|].
  destruct (admissible_extends st raw vt parent HC I HR Hraw Ha) as (Hsub & HL & Hwf & Hok).
  destruct Ha as (Hn & Hp & _). destruct (ci_best _ I) as (best' & Eb' & Hmax). assert (best' = best) as -> by congruence.
  set (r := new_record raw parent) in *. set (bh := BtcHeaderHash raw) in *. set (m := <[bh := r]> (by_hash_ st)) in *.
  assert (m !! bh = Some r) as Hbh by apply lookup_insert_eq.
  rewrite gtb_spec in Hs by first [exact (Hwf _ _ Hbh) | exact (ci_work _ I _ _ Eb)].
  destruct (Z.ltb_spec (lval (b_chain_work best)) (lval (b_chain_work r))) as [Hgt|Hle].
  - destruct (bool_decide _ && _) eqn:Eo; [by rewrite Hs|]. destruct Hs as (index & -> & Hix). cbn [fst].
    destruct (branch_exists _ _ _ _ HL Hbh) as [l Hl].
    assert (index = l) as ->.
    { destruct Hix as [->|[Epv ->]]; [by apply rebuild_index|].
      apply (branch_unique cfg m bh); [|done]. apply (branch_step _ _ _ r); [done| |].
      - pose proof (proj1 (ci_linked _ I)). congruence.
      - rewrite Epv. apply (branch_mono _ (by_hash_ st)); [done|apply (ci_index _ I)]. }
    split; cbn [by_hash_ best_tip_ observed_checkpoint_ best_chain_]; try done.
    + exists r. split; [done|]. intros h r' [[<- <-]|[_ Hr']]%lookup_insert_Some; [lia|].
      specialize (Hmax _ _ Hr'). lia.
    + intros Hz. rewrite bool_decide_eq_true_2 in Eo by done. cbn [andb] in Eo.
      rewrite (descends_iff cfg _ _ l) in Eo by done. by bool_hyps.
  - rewrite Hs. cbn [fst]. split; cbn [by_hash_ best_tip_ observed_checkpoint_ best_chain_]; try done.
    + exists best. split; [by apply (lookup_weaken (by_hash_ st))|].
      intros h r' [[<- <-]|[_ Hr']]%lookup_insert_Some; [lia|]. by apply (Hmax h).
    + apply (branch_mono _ (by_hash_ st)); [done|apply (ci_index _ I)].
    + apply (ci_observed _ I).
Qed.

Lemma promote_cases st h :
  chain_inv st ->
  (fst (PromoteObservedCheckpoint cfg st h) = st)
  \/ (fst (PromoteObservedCheckpoint cfg st h) = mk (by_hash_ st) (best_tip_ st) h (best_chain_ st)
      /\ h ∈ best_chain_ st
      /\ (observed_checkpoint_ st <> ZeroHash -> DescendsFromLocked_ (by_hash_ st) h (observed_checkpoint_ st) = true)).
Proof.
  intros I. pose proof (ci_linked _ I) as HL. pose proof (ci_index _ I) as HB. unfold PromoteObservedCheckpoint.
  destruct (by_hash_ st !! h) as [cand|] eqn:Ec; [|by left]. rewrite !(on_best_iff cfg) by done.
  destruct (bool_decide (h ∈ _)) eqn:Eh; [cbn [negb]; bool_hyps|by left].
  destruct (bool_decide (_ = h)); [by left|]. case_bool_decide as Ez; [|right; by split_and!].
  destruct (by_hash_ st !! observed_checkpoint_ st) as [prior|] eqn:Ep; [|by left].
  rewrite bool_decide_eq_true_2 by (by apply (ci_observed _ I)). cbn [negb].
  destruct (Z.leb_spec (b_height cand) (b_height prior)) as [|Hlt]; [by left|].
  right. split_and!; [done|done|]. intros _.
  destruct (branch_member _ _ _ _ _ HL HB Eh) as (lh & Hbh & [k Hk]).
  rewrite (descends_iff cfg _ _ lh) by done. apply bool_decide_eq_true_2.
  pose proof (ci_observed _ I Ez) as Hin. rewrite (branch_lookup _ _ _ _ _ _ HL HB Ep) in Hin.
  rewrite Hk, lookup_app_l in Hin; [by apply list_elem_of_lookup_2 in Hin|].
  pose proof (branch_height _ _ _ _ _ HL Hbh Ec). pose proof (proj1 (proj2 (proj2 HL _ _ Ep))). lia.
Qed.

Lemma promote_inv st h : chain_inv st -> chain_inv (fst (PromoteObservedCheckpoint cfg st h)).
Proof.
  intros I. destruct (promote_cases st h I) as [->|(-> & Hin & _)]; [done|]. by destruct I; split.
Qed.

(** ** Runs *)

(** What consensus does to the chain between two resets. *)
Inductive op := Submit (raw : bytes) (veld_block_time : Z) | Promote (h : Hash256).

Definition apply_op (st : t) (o : op) : t :=
  match o with
  | Submit raw vt => fst (SubmitHeader cfg st raw vt)
  | Promote h => fst (PromoteObservedCheckpoint cfg st h)
  end.

Definition run (ops : list op) (st : t) : t := foldl apply_op st ops.

(** Headers are 80 bytes; the null hash, which stands for "no observation" and which no
    known header has, is not promoted. *)
Definition op_ok (o : op) : Prop := match o with Submit raw _ => is_header raw | Promote h => h <> ZeroHash end.

(** Heights are 32-bit, so a run is given room for every header it could add. *)
Definition room_for (ops : list op) (st : t) : Prop :=
  cp0 + Z.of_nat (base.size (by_hash_ st)) + size ops <= 2 ^ 32.

Lemma apply_size st o : (base.size (by_hash_ (apply_op st o)) <= S (base.size (by_hash_ st)))%nat.
Proof.
  assert (forall (m : gmap Hash256 BtcHeaderRecord) k r, (base.size (<[k := r]> m) <= S (base.size m))%nat) as Hi.
  { intros. rewrite map_size_insert. destruct (m !! k); cbn; lia. }
  assert (forall (m : gmap Hash256 BtcHeaderRecord) k, (base.size (delete k m) <= base.size m)%nat) as Hd.
  { intros. rewrite map_size_delete. destruct (m !! k); cbn; lia. }
  destruct o as [raw vt|h]; cbn [apply_op].
  - unfold SubmitHeader. repeat (case_match; try (cbn; lia)); cbn;
      try (etransitivity; [apply Hd|]); apply Hi.
  - unfold PromoteObservedCheckpoint. repeat (case_match; try (cbn; lia)); cbn; lia.
Qed.

Lemma run_inv ops st :
  config_ok cfg -> chain_inv st -> room_for ops st -> Forall op_ok ops -> chain_inv (run ops st).
Proof.
  intros HC. revert st. induction ops as [|o ops IH]; intros st I HR Hops; [done|].
  apply Forall_cons in Hops as [Ho Hops]. unfold room_for, size in HR. cbn [length] in HR.
  pose proof (apply_size st o). change (run (o :: ops) st) with (run ops (apply_op st o)). apply IH; [|unfold room_for, size; lia|done].
  destruct o as [raw vt|h]; cbn [apply_op]; [apply submit_inv; try done; unfold room; lia|by apply promote_inv].
Qed.

(** ** What runs guarantee *)

(** C20: after any sequence of header submissions and observation promotions, every stored
    header other than the checkpoint has the double hash it is filed under, a hash at most
    the target its bits encode and a target at most the network limit, the bits the
    difficulty rule requires after its parent, a time above the median of the past, a
    stored parent one height below, and its parent's work plus its own; and no stored
    header has more work than the selected tip. *)
Theorem header_chain_sound ops :
  config_ok cfg -> room_for ops (Init cfg) -> Forall op_ok ops ->
  let st := run ops (Init cfg) in
  (forall h r, by_hash_ st !! h = Some r -> h <> cph ->
     header_ok (by_hash_ st) h r
     /\ get_le h <= lval (fst (fst (CompactToTarget (b_bits r)))) <= lval (pow_limit_ cfg))
  /\ exists best, by_hash_ st !! best_tip_ st = Some best
     /\ forall h r, by_hash_ st !! h = Some r -> lval (b_chain_work r) <= lval (b_chain_work best).
Proof.
  intros HC HR Ho st. pose proof (run_inv ops _ HC (init_inv HC) HR Ho) as I.
  split; [|apply (ci_best _ I)]. intros h r Hr Hc. pose proof (ci_headers _ I _ _ Hr Hc) as Hok.
  split; [done|]. destruct Hok as (p & Hl & Hb & -> & _ & Er & _ & Hpow & _).
  pose proof HC as (_ & _ & Hlim & _).
  assert (fits 32 (b_bits r)) as Hf.
  { rewrite Er. destruct (new_record_fields (b_raw r) p) as (_ & _ & _ & _ & -> & _). apply rd_le32_fits; [done|lia]. }
  pose proof (CheckProofOfWork_spec _ _ _ Hf Hlim Hpow) as Hs.
  destruct (CompactToTarget (b_bits r)) as [[tg ng] ov]. cbn [fst]. lia.
Qed.

(** The constant-time index of the selected branch is exact in every reachable state:
    membership is descent from the tip by walking the ancestors, the index kept block by
    block is the one a full rebuild computes, and restoring a snapshot gives back the very
    state that was saved. *)
Lemma selected_index_exact ops :
  config_ok cfg -> room_for ops (Init cfg) -> Forall op_ok ops ->
  let st := run ops (Init cfg) in
  (forall h, OnBestChain cfg st h = DescendsFromLocked_ (by_hash_ st) (best_tip_ st) h)
  /\ best_chain_ st = RebuildBestChainIndex cfg (by_hash_ st) (best_tip_ st)
  /\ RestoreState cfg (SnapshotState st) = Some st.
Proof.
  intros HC HR Ho st. pose proof (run_inv ops _ HC (init_inv HC) HR Ho) as I. fold st in I.
  pose proof (ci_linked _ I) as HL. pose proof (ci_index _ I) as HB.
  pose proof (rebuild_index _ _ _ _ HC HL HB) as Hix. split_and!; [|done|].
  - intros h. by rewrite on_best_iff, (descends_iff cfg _ _ _ _ HL HB).
  - unfold RestoreState, SnapshotState. cbn [s_by_hash s_best_tip s_observed_checkpoint].
    rewrite Hix. replace (mk _ _ _ _) with st by (by destruct st). cbn [observed_checkpoint_].
    case_bool_decide as Ez; cbn [andb]; [|done]. pose proof (ci_observed _ I Ez) as Hin.
    destruct (branch_member _ _ _ _ _ HL HB Hin) as (lx & Hbx & _).
    destruct (branch_stored _ _ _ _ HL Hbx) as [r Hr].
    unfold Has. rewrite bool_decide_eq_true_2 by (by exists r).
    by rewrite on_best_iff, bool_decide_eq_true_2.
Qed.

(** C39: the ancestor walks, which the code bounds by the number of stored headers plus one,
    never stop for want of iterations: from every stored header the rebuild of the index
    walks down to the checkpoint and returns the path between them, and the descent test
    answers exactly whether a block is on that path; so does any bound of at least the
    number of stored headers. *)
Theorem bounded_walks_complete ops :
  config_ok cfg -> room_for ops (Init cfg) -> Forall op_ok ops ->
  let m := by_hash_ (run ops (Init cfg)) in
  forall h r, m !! h = Some r -> exists path, branch m h path /\ (length path <= base.size m)%nat
  /\ RebuildBestChainIndex cfg m h = path /\ (forall a, DescendsFromLocked_ m h a = bool_decide (a ∈ path)) /\
  forall bound, (base.size m <= bound)%nat ->
    rebuild_loop cfg m bound h (b_height r) [] = Some path
    /\ forall a ra, m !! a = Some ra ->
       descends_loop m bound h (b_height r) a (b_height ra) = bool_decide (a ∈ path).
Proof.
  intros HC HR Ho m h r Hr. pose proof (run_inv ops _ HC (init_inv HC) HR Ho) as I.
  pose proof (ci_linked _ I) as HL. fold m in HL. destruct (branch_exists _ _ _ _ HL Hr) as [l Hb].
  pose proof (branch_length _ _ _ _ HL Hb). exists l. split_and!; [done|done|by apply rebuild_index| |].
  { intros a. by apply (descends_iff cfg). }
  intros bound Hbd.
  split; [rewrite (rebuild_branch cfg m h l r) by (done || lia); by rewrite app_nil_r|].
  intros a ra Ha. apply descends_branch with cfg; (done || lia).
Qed.

(** *** The observed checkpoint *)

(** [x] is the observed checkpoint or below it on its branch. *)
Definition covered (st : t) (x : Hash256) : Prop :=
  observed_checkpoint_ st <> ZeroHash /\ DescendsFromLocked_ (by_hash_ st) (observed_checkpoint_ st) x = true.

Lemma covered_branch st x :
  chain_inv st -> covered st x ->
  exists lo, branch (by_hash_ st) (observed_checkpoint_ st) lo /\ lo `prefix_of` best_chain_ st /\ x ∈ lo.
Proof.
  intros I [Hz Hd]. pose proof (ci_linked _ I) as HL.
  destruct (branch_member _ _ _ _ _ HL (ci_index _ I) (ci_observed _ I Hz)) as (lo & Hb & Hp).
  rewrite (descends_iff cfg _ _ lo) in Hd by done. bool_hyps. eauto.
Qed.

Lemma covered_on_best st x : chain_inv st -> covered st x -> OnBestChain cfg st x = true.
Proof.
  intros I Hc. destruct (covered_branch st x I Hc) as (lo & _ & [k Hk] & Hx).
  rewrite on_best_iff by (apply I). apply bool_decide_eq_true_2. rewrite Hk. set_solver.
Qed.

Lemma apply_extends st o : chain_inv st -> by_hash_ st ⊆ by_hash_ (apply_op st o).
Proof.
  intros I. destruct o as [raw vt|h]; cbn [apply_op].
  - destruct (submit_cases st raw vt I) as [[-> _]|[->|(parent & Ha & best & Eb & Hs)]]; [done|done|].
    destruct Ha as (Hn & _). pose proof (insert_subseteq (by_hash_ st) (BtcHeaderHash raw) (new_record raw parent) Hn).
    destruct (U256.gtb _ _); [|by rewrite Hs]. destruct (bool_decide _ && _); [by rewrite Hs|].
    by destruct Hs as (index & -> & _).
  - by destruct (promote_cases st h I) as [->|(-> & _ & _)].
Qed.

(** The observation moves only to a descendant of the previous one. *)
Lemma apply_observed st o :
  chain_inv st -> observed_checkpoint_ st <> ZeroHash ->
  observed_checkpoint_ (apply_op st o) = observed_checkpoint_ st
  \/ DescendsFromLocked_ (by_hash_ (apply_op st o)) (observed_checkpoint_ (apply_op st o)) (observed_checkpoint_ st) = true.
Proof.
  intros I Hz. destruct o as [raw vt|h]; cbn [apply_op].
  - left. destruct (submit_cases st raw vt I) as [[-> _]|[->|(parent & Ha & best & Eb & Hs)]]; [done|done|].
    destruct (U256.gtb _ _); [|by rewrite Hs]. destruct (bool_decide _ && _); [by rewrite Hs|].
    by destruct Hs as (index & -> & _).
  - destruct (promote_cases st h I) as [->|(-> & _ & Hd)]; [by left|right]. by apply Hd.
Qed.

Lemma covered_step st o x :
  chain_inv st -> chain_inv (apply_op st o) -> observed_checkpoint_ (apply_op st o) <> ZeroHash ->
  covered st x -> covered (apply_op st o) x.
Proof.
  intros I I' Hz' Hc. pose proof (ci_linked _ I') as HL'. pose proof (apply_extends st o I) as Hs.
  destruct (covered_branch st x I Hc) as (lo & Hb & _ & Hx). apply (branch_mono _ _ _ _ _ Hs) in Hb.
  split; [done|]. destruct (apply_observed st o I (proj1 Hc)) as [->|Hd].
  - rewrite (descends_iff cfg _ _ lo) by done. by apply bool_decide_eq_true_2.
  - destruct (branch_member _ _ _ _ _ HL' (ci_index _ I') (ci_observed _ I' Hz')) as (l & Hl & _).
    rewrite (descends_iff cfg _ _ l) in Hd |- * by done. bool_hyps.
    destruct (branch_member _ _ _ _ _ HL' Hl Hd) as (lo' & Hb' & [k Hk]).
    rewrite (branch_unique _ _ _ _ _ Hb' Hb) in Hk. apply bool_decide_eq_true_2. rewrite Hk. set_solver.
Qed.

Lemma observed_stays st o :
  chain_inv st -> op_ok o -> observed_checkpoint_ st <> ZeroHash -> observed_checkpoint_ (apply_op st o) <> ZeroHash.
Proof.
  intros I Ho Hz. destruct o as [raw vt|h]; cbn [apply_op].
  - destruct (submit_cases st raw vt I) as [[-> _]|[->|(parent & Ha & best & Eb & Hs)]]; [done|done|].
    destruct (U256.gtb _ _); [|by rewrite Hs]. destruct (bool_decide _ && _); [by rewrite Hs|].
    by destruct Hs as (index & -> & _).
  - by destruct (promote_cases st h I) as [->|(-> & _ & _)].
Qed.

Lemma covered_run ops st x :
  config_ok cfg -> chain_inv st -> room_for ops st -> Forall op_ok ops -> covered st x -> covered (run ops st) x.
Proof.
  intros HC. revert st. induction ops as [|o ops IH]; intros st I HR Hops Hc; [done|].
  apply Forall_cons in Hops as [Ho Hops]. pose proof (apply_size st o).
  assert (chain_inv (apply_op st o)) as I'.
  { apply (run_inv [o] st HC I); [|by repeat constructor]. unfold room_for, size in *. cbn [length] in *. lia. }
  change (run (o :: ops) st) with (run ops (apply_op st o)). apply IH; [done| |done|].
  - unfold room_for, size in *. cbn [length] in *. lia.
  - apply covered_step; try done. by apply observed_stays; [..|apply Hc].
Qed.

(** The states a run reaches and their rooms compose. *)
Lemma run_app ops ops' st : run (ops ++ ops') st = run ops' (run ops st).
Proof. apply foldl_app. Qed.

Lemma room_app ops ops' st : room_for (ops ++ ops') st -> room_for ops st /\ room_for ops' (run ops st).
Proof.
  unfold room_for, size. rewrite length_app. intros HR. split; [lia|].
  assert (base.size (by_hash_ (run ops st)) <= base.size (by_hash_ st) + length ops)%nat; [|lia]. clear HR.
  revert st. induction ops as [|o ops IH]; intros st; [cbn; lia|].
  change (run (o :: ops) st) with (run ops (apply_op st o)). pose proof (apply_size st o).
  specialize (IH (apply_op st o)). cbn [length]. lia.
Qed.

Lemma promoted_covered st x :
  chain_inv st -> x <> ZeroHash -> snd (PromoteObservedCheckpoint cfg st x) = true ->
  covered (fst (PromoteObservedCheckpoint cfg st x)) x.
Proof.
  intros I Hx. pose proof (ci_linked _ I) as HL. unfold PromoteObservedCheckpoint.
  destruct (by_hash_ st !! x) as [cand|] eqn:Ec; [|done].
  destruct (branch_exists _ _ _ _ HL Ec) as [lx Hlx].
  assert (DescendsFromLocked_ (by_hash_ st) x x = true) as Hself.
  { rewrite (descends_iff cfg _ _ lx) by done. apply bool_decide_eq_true_2.
    destruct (branch_last _ _ _ _ Hlx) as [l' ->]. set_solver. }
  destruct (OnBestChain cfg st x); [cbn [negb]|done]. unfold covered.
  case_bool_decide as Eo; [cbn; by rewrite Eo|]. case_bool_decide as Ez; [|done].
  destruct (by_hash_ st !! observed_checkpoint_ st) as [prior|]; [|done].
  destruct (OnBestChain cfg st (observed_checkpoint_ st)); [cbn [negb]|done].
  by destruct (b_height cand <=? b_height prior).
Qed.

(** C19: an observed block is irreversible.  Once [PromoteObservedCheckpoint] accepts a
    block, no later sequence of headers, whatever work their branch shows, and no later
    promotion takes that block, or a block below it on its branch, off the selected chain;
    and the same holds for every block already accepted as final for external value. *)
Theorem observation_irreversible ops ops' x :
  config_ok cfg -> room_for (ops ++ ops') (Init cfg) -> Forall op_ok (ops ++ ops') ->
  let st := run ops (Init cfg) in
  (x <> ZeroHash -> snd (PromoteObservedCheckpoint cfg st x) = true ->
   OnBestChain cfg (run ops' (fst (PromoteObservedCheckpoint cfg st x))) x = true)
  /\ (forall k, observed_checkpoint_ st <> ZeroHash -> IsFinalForExternalValue cfg st x k = true ->
      OnBestChain cfg (run ops' st) x = true).
Proof.
  intros HC HR Ho st. apply Forall_app in Ho as [Ho Ho']. destruct (room_app _ _ _ HR) as [HR1 HR2].
  pose proof (run_inv ops _ HC (init_inv HC) HR1 Ho) as I. fold st in I, HR2.
  assert (forall st', chain_inv st' -> room_for ops' st' -> covered st' x -> OnBestChain cfg (run ops' st') x = true) as Hgo.
  { intros st' I' HR' Hc. apply covered_on_best; [by apply run_inv|by apply covered_run]. }
  split.
  - intros Hx Hp. apply Hgo; [by apply promote_inv| |by apply promoted_covered].
    unfold room_for. by destruct (promote_cases st x I) as [->|(-> & _ & _)].
  - intros k Hz Hf. apply Hgo; [done|done|]. pose proof (ci_linked _ I) as HL. pose proof (ci_index _ I) as HB.
    unfold IsFinalForExternalValue in Hf. rewrite !(on_best_iff cfg st) in Hf by done.
    destruct (by_hash_ st !! x) as [r|] eqn:Er; [|done].
    destruct (by_hash_ st !! best_tip_ st) as [best|]; [|done].
    destruct (bool_decide (x ∈ _)) eqn:Hin; [|done]. cbn [negb orb] in Hf. bool_hyps.
    destruct (_ >? _); [done|]. cbn [EXTERNAL_VALUE_OBSERVATION_REQUIRED negb] in Hf.
    destruct (by_hash_ st !! observed_checkpoint_ st) as [ob|] eqn:Eo; [|done].
    destruct (bool_decide (observed_checkpoint_ st ∈ _)); [|done]. cbn [negb] in Hf.
    split; [done|]. destruct (branch_member _ _ _ _ _ HL HB (ci_observed _ I Hz)) as (lo & Hlo & [kk Hk]).
    rewrite (descends_iff cfg _ _ lo) by done. apply bool_decide_eq_true_2.
    rewrite (branch_lookup _ _ _ _ _ _ HL HB Er), Hk, lookup_app_l in Hin; [by apply list_elem_of_lookup_2 in Hin|].
    pose proof (branch_height _ _ _ _ _ HL Hlo Eo). pose proof (proj1 (proj2 (proj2 HL _ _ Er))). lia.
Qed.
End Safety.

(** ** Merkle proofs *)

(** Two proofs at one position that fold to one root are the same proof, or show two
    64-byte strings with one double hash.  The position is a 64-bit mask, so a branch has
    at most 64 siblings. *)
Lemma merkle_fold_binding branch branch' dirs h h' :
  length branch = length branch' -> Forall is_hash branch -> Forall is_hash branch' -> is_hash h -> is_hash h' ->
  merkle_fold h branch dirs = merkle_fold h' branch' dirs ->
  (h = h' /\ branch = branch') \/ exists a b, a <> b /\ length a = 64%nat /\ length b = 64%nat /\ Hash256d a = Hash256d b.
Proof.
  revert branch' dirs h h'. induction branch as [|s branch IH]; intros [|s' branch'] dirs h h' Hl Hb Hb' Hh Hh' E;
    try discriminate Hl; [by left|].
  apply Forall_cons in Hb as [[Hs _] Hb], Hb' as [[Hs' _] Hb'].
  cbn [merkle_fold] in E. apply IH in E; [|by injection Hl|done|done|apply Hash256d_hash..].
  destruct E as [[E ->]|E]; [|by right]. destruct Hh as [Hh _], Hh' as [Hh' _].
  set (a := if Z.testbit dirs 0 then s ++ h else h ++ s) in *.
  set (a' := if Z.testbit dirs 0 then s' ++ h' else h' ++ s') in *.
  destruct (decide (a = a')) as [Ea|Ea].
  - left. unfold a, a' in Ea. destruct (Z.testbit dirs 0); apply app_inj_1 in Ea as [-> ->]; (done || congruence).
  - right. exists a, a'. unfold a, a' in *. destruct (Z.testbit dirs 0); rewrite !length_app; split_and!; (done || lia).
Qed.

Lemma merkle_proof_binding st bh txid txid' branch branch' dirs :
  (length branch <= 64)%nat -> length branch = length branch' ->
  Forall is_hash (txid :: branch) -> Forall is_hash (txid' :: branch') ->
  VerifyMerkle st bh txid branch dirs = true -> VerifyMerkle st bh txid' branch' dirs = true ->
  (txid = txid' /\ branch = branch')
  \/ exists a b, a <> b /\ length a = 64%nat /\ length b = 64%nat /\ Hash256d a = Hash256d b.
Proof.
  intros _ Hl [Hh Hb]%Forall_cons [Hh' Hb']%Forall_cons. unfold VerifyMerkle.
  destruct (by_hash_ st !! bh) as [r|]; [|done]. unfold bytes_eqb. intros E E'. bool_hyps.
  apply (merkle_fold_binding _ _ dirs); try done. congruence.
Qed.

(** ** A sample chain

    A checkpoint with the easiest target, one header above it, and a competing header. *)
Definition easy_limit : list Z := [0; 0; 0; 0; 0; 0; 0; 0x7fffff00].
Definition sample_config : Config :=
  mkConfig easy_limit 2016 1209600 true
    (mkBtcCheckpoint 100 (replicate 32 7) 0x207fffff 1000 (U256.FromU64 5) (replicate 10 900)).
Definition sample_raw (time nonce : Z) : bytes :=
  put_le 4 1 ++ replicate 32 7 ++ replicate 32 3 ++ put_le 4 time ++ put_le 4 0x207fffff ++ put_le 4 nonce.
Definition sample_hash : Hash256 :=
  [255; 181; 15; 255; 212; 44; 114; 8; 24; 106; 200; 124; 171; 102; 201; 30; 196; 143; 107; 145; 96; 59; 82; 219;
   102; 117; 113; 164; 53; 246; 109; 30].
Definition first_op : op := Submit (sample_raw 2000 0) 3000.
Definition rival_op : op := Submit (sample_raw 2001 1) 3000.

Lemma sample_config_ok : config_ok sample_config.
Proof. apply (bool_decide_unpack _). vm_compute. exact I. Qed.

Lemma sample_ops_ok : op_ok first_op /\ op_ok rival_op.
Proof. apply (bool_decide_unpack _). vm_compute. exact I. Qed.

(** The header is stored as a one-block extension of the checkpoint. *)
Lemma sample_run :
  run sample_config [first_op] (Init sample_config)
  = mk (<[sample_hash := new_record (sample_raw 2000 0) (cp_record sample_config)]> {[replicate 32 7 := cp_record sample_config]})
      sample_hash ZeroHash [replicate 32 7; sample_hash].
Proof. vm_cast_no_check (eq_refl (run sample_config [first_op] (Init sample_config))). Qed.

Lemma sample_room : room_for sample_config [first_op; rival_op] (Init sample_config).
Proof. apply Z.leb_le. vm_compute. reflexivity. Qed.

Lemma sample_ops : Forall op_ok [first_op; rival_op].
Proof. apply Forall_cons. split; [apply sample_ops_ok|]. apply Forall_cons. split; [apply sample_ops_ok|constructor]. Qed.

Lemma sample_stored :
  by_hash_ (run sample_config [first_op] (Init sample_config)) !! sample_hash
  = Some (new_record (sample_raw 2000 0) (cp_record sample_config)).
Proof. rewrite sample_run. apply lookup_insert_eq. Qed.

Lemma sample_ok1 : room_for sample_config [first_op] (Init sample_config) /\ Forall op_ok [first_op].
Proof.
  split; [exact (proj1 (room_app sample_config [first_op] [rival_op] _ sample_room))|].
  apply Forall_cons. split; [apply sample_ops_ok|constructor].
Qed.

Lemma header_chain_sound_witness :
  get_le sample_hash <= lval (fst (fst (CompactToTarget
    (b_bits (new_record (sample_raw 2000 0) (cp_record sample_config)))))) <= lval easy_limit.
Proof.
  pose proof (header_chain_sound sample_config [first_op] sample_config_ok (proj1 sample_ok1) (proj2 sample_ok1)) as [H _].
  refine (proj2 (H _ _ sample_stored _)). apply (bool_decide_unpack _). vm_compute. exact I.
Defined.

Lemma selected_index_exact_witness :
  OnBestChain sample_config (run sample_config [first_op] (Init sample_config)) sample_hash
  = DescendsFromLocked_ (by_hash_ (run sample_config [first_op] (Init sample_config)))
      (best_tip_ (run sample_config [first_op] (Init sample_config))) sample_hash.
Proof.
  exact (proj1 (selected_index_exact sample_config [first_op] sample_config_ok (proj1 sample_ok1) (proj2 sample_ok1)) sample_hash).
Defined.

Lemma bounded_walks_complete_witness :
  exists path, rebuild_loop sample_config (by_hash_ (run sample_config [first_op] (Init sample_config))) 2 sample_hash
    (b_height (new_record (sample_raw 2000 0) (cp_record sample_config))) [] = Some path
  /\ RebuildBestChainIndex sample_config (by_hash_ (run sample_config [first_op] (Init sample_config))) sample_hash = path.
Proof.
  pose proof (bounded_walks_complete sample_config [first_op] sample_config_ok (proj1 sample_ok1) (proj2 sample_ok1)
    _ _ sample_stored) as (path & _ & _ & Hi & _ & H). exists path. split; [|exact Hi]. apply H. rewrite sample_run. cbn [by_hash_].
  rewrite map_size_insert, map_size_singleton. case_match; cbn; lia.
Defined.

(** The header above the checkpoint is promoted, and a competing branch is submitted. *)
Lemma observation_irreversible_witness :
  snd (PromoteObservedCheckpoint sample_config (run sample_config [first_op] (Init sample_config)) sample_hash) = true
  /\ OnBestChain sample_config (run sample_config [rival_op]
       (fst (PromoteObservedCheckpoint sample_config (run sample_config [first_op] (Init sample_config)) sample_hash)))
       sample_hash = true.
Proof.
  assert (snd (PromoteObservedCheckpoint sample_config (run sample_config [first_op] (Init sample_config)) sample_hash) = true) as H.
  { rewrite sample_run. vm_compute. reflexivity. }
  split; [exact H|].
  pose proof (observation_irreversible sample_config [first_op] [rival_op] sample_hash sample_config_ok sample_room sample_ops) as [Hp _].
  apply Hp; [|exact H]. apply (bool_decide_unpack _). vm_compute. exact I.
Defined.
