(* ===== verification/Staking.v ===== *)
(** * The staking ledger ([consensus/staking.h])

    Lockup tiers, stake tranches bound to the output that backs them, and the block
    transition: a block is refused when it spends the backing of a live tranche other
    than through its owner's UNLOCK, or carries a staking marker the rules reject.

    [ProcessStakeOp] returns [None] for the [false] that refuses the block.  C++
    additions without an overflow guard are written with their wrap-around.  The
    floating-point multiplier (display only) is left out; the integer one is kept. *)
From S2P Require Import Prelude Bytes Sha256 Profile Transaction Block Address OpAuthorization.
From S2P Require Import Marker StateDigest Validators BondYield.

(** ** Records and tiers *)

Record StakeRecord := mkStake {
  s_address : bytes; s_amount_units : Z; s_locked_at_height : Z; s_unlock_height : Z;
  s_active : bool; s_lockup_tier : Z; s_backing_txid : Hash256; s_backing_vout : Z }.

#[global] Instance StakeRecord_eq_dec : EqDecision StakeRecord.
Proof. solve_decision. Defined.

Record UnstakeRecord := mkUnstake { u_address : bytes; u_amount_units : Z; u_block_height : Z }.

#[global] Instance UnstakeRecord_eq_dec : EqDecision UnstakeRecord.
Proof. solve_decision. Defined.

(** The lockup lengths, in blocks. *)
Definition LOCKUP_TIERS : list Z :=
  [7 * BLOCKS_PER_DAY; 14 * BLOCKS_PER_DAY; 30 * BLOCKS_PER_DAY; 90 * BLOCKS_PER_DAY].

Definition LockupTierMultiplierPpm (tier : Z) : Z :=
  if tier =? 1 then 1000000 else if tier =? 2 then 1100000
  else if tier =? 3 then 1250000 else if tier =? 4 then 1500000 else 1000000.

Module StakingLedger.

Record t := mk {
  staking_activation_units_ : Z;
  min_stake_override_ : Z;
  total_supply_units_ : Z;
  stakes_ : gmap bytes (list StakeRecord);
  unstake_history_ : list UnstakeRecord;
  total_stake_ : Z;
  pending_distribution_height_ : Z }.

Definition Empty : t := mk STAKING_UNLOCK_SUPPLY 0 0 ∅ [] 0 0.

(** The three fields a stake transition changes. *)
Definition with_stakes (L : t) (s : gmap bytes (list StakeRecord)) (u : list UnstakeRecord) (total : Z) : t :=
  mk (staking_activation_units_ L) (min_stake_override_ L) (total_supply_units_ L) s u total
    (pending_distribution_height_ L).
Definition with_pending (L : t) (h : Z) : t :=
  mk (staking_activation_units_ L) (min_stake_override_ L) (total_supply_units_ L) (stakes_ L)
    (unstake_history_ L) (total_stake_ L) h.
Definition SetStakingActivationUnits (L : t) (units : Z) : t :=
  mk units (min_stake_override_ L) (total_supply_units_ L) (stakes_ L) (unstake_history_ L)
    (total_stake_ L) (pending_distribution_height_ L).
Definition SetMinStakeUnits (L : t) (units : Z) : t :=
  mk (staking_activation_units_ L) units (total_supply_units_ L) (stakes_ L) (unstake_history_ L)
    (total_stake_ L) (pending_distribution_height_ L).
Definition SetTotalSupply (L : t) (units : Z) : t :=
  mk (staking_activation_units_ L) (min_stake_override_ L) units (stakes_ L) (unstake_history_ L)
    (total_stake_ L) (pending_distribution_height_ L).
Definition ClearPendingDistribution (L : t) : t := with_pending L 0.
Definition Reset (L : t) : t := with_pending (with_stakes L ∅ [] 0) 0.

Definition STAKE_PREFIX : bytes := b:"VELD_STAKE|".

(** ** Markers *)

Definition BuildLockOp (address : bytes) (amount_units current_height tier : Z) : bytes :=
  let tier := if (tier <? 1) || (tier >? 4) then 1 else tier in
  STAKE_PREFIX ++ b:"LOCK|" ++ address ++ b:"|" ++ to_string amount_units ++ b:"|" ++ b:"T" ++ to_string tier.

Definition BuildUnlockOp (address : bytes) (amount_units : Z) : bytes :=
  STAKE_PREFIX ++ b:"UNLOCK|" ++ address ++ b:"|" ++ to_string amount_units.

(** The ledger's OP_RETURN decoder: minimal pushes, no trailing bytes. *)
Definition ParseOpReturn (script : bytes) : bytes :=
  if (size script <? 2) || negb (at_ script 0 =? 0x6A) then []
  else
    let payload (offset : nat) (len : Z) :=
      if negb (Z.of_nat offset + len =? size script) then []
      else take (Z.to_nat len) (drop offset script) in
    let push := at_ script 1 in
    if push <=? 75 then payload 2%nat push
    else if push =? 0x4C then
      if 2 >=? size script then []
      else let len := at_ script 2 in if len <=? 75 then [] else payload 3%nat len
    else if push =? 0x4D then
      if 2 + 2 >? size script then []
      else let len := Z.lor (at_ script 2) (Z.shiftl (at_ script 3) 8) in
           if len <=? 0xFF then [] else payload 4%nat len
    else [].

(** ** Reads *)

Definition OutpointKey (txid : Hash256) (vout : Z) : bytes := HashToHex txid ++ b:":" ++ to_string vout.

Definition RecordEconomicallyBacked (record : StakeRecord) : bool :=
  if negb (s_active record) then false
  else if STAKE_OUTPOINT_BACKING_ACTIVATION_HEIGHT =? 0 then true
  else negb (s_backing_vout record =? UINT32_MAX).

(** The sum loop of the readers: every tranche that passes [f], with 64-bit wrap-around. *)
Definition sum_if (f : StakeRecord -> bool) (recs : list StakeRecord) : Z :=
  foldl (fun total r => if f r then u64 (total + s_amount_units r) else total) 0 recs.

Definition GetStakeRecords (L : t) (address : bytes) : list StakeRecord :=
  match stakes_ L !! address with Some recs => recs | None => [] end.

Definition GetStake (L : t) (address : bytes) : Z :=
  match stakes_ L !! address with Some recs => sum_if RecordEconomicallyBacked recs | None => 0 end.

Definition GetAllActiveStakes (L : t) : gmap bytes Z :=
  omap (fun recs => let total := sum_if RecordEconomicallyBacked recs in
                    if total >? 0 then Some total else None) (stakes_ L).

Definition GetMatureStake (L : t) (address : bytes) (current_height : Z) : Z :=
  match stakes_ L !! address with
  | Some recs => sum_if (fun r => RecordEconomicallyBacked r && (s_unlock_height r <=? current_height)) recs
  | None => 0
  end.

Definition earliest_if (f : StakeRecord -> bool) (recs : list StakeRecord) : Z :=
  foldl (fun earliest r => if f r then Z.min earliest (s_unlock_height r) else earliest) UINT64_MAX recs.

Definition GetNextUnlockHeight (L : t) (address : bytes) (current_height : Z) : Z :=
  match stakes_ L !! address with
  | Some recs => earliest_if (fun r => RecordEconomicallyBacked r && (s_unlock_height r >? current_height)) recs
  | None => UINT64_MAX
  end.

Definition GetEarliestUnlockHeight (L : t) (address : bytes) : Z :=
  match stakes_ L !! address with
  | Some recs => earliest_if RecordEconomicallyBacked recs
  | None => UINT64_MAX
  end.

Definition GetLatestStakeHeight (L : t) (address : bytes) : Z :=
  match stakes_ L !! address with
  | Some recs => foldl (fun latest r => if s_locked_at_height r >? latest then s_locked_at_height r else latest)
                   0 recs
  | None => 0
  end.

(** Every live tranche, in the map's iteration order. *)
Definition backed_records (m : gmap bytes (list StakeRecord)) : list StakeRecord :=
  List.filter RecordEconomicallyBacked (concat (map snd (map_to_list m))).

Definition record_key (r : StakeRecord) : bytes := OutpointKey (s_backing_txid r) (s_backing_vout r).

Definition GetActiveBackingOutpoints (L : t) : gset bytes :=
  list_to_set (map record_key (backed_records (stakes_ L))).

(** [GetTotalStake], saturating; the activation height of this profile is not zero. *)
Fixpoint saturating_total (recs : list StakeRecord) (total : Z) : Z :=
  match recs with
  | [] => total
  | r :: recs' => if total >? UINT64_MAX - s_amount_units r then UINT64_MAX
                  else saturating_total recs' (total + s_amount_units r)
  end.
Definition GetTotalStake (L : t) : Z :=
  if STAKE_OUTPOINT_BACKING_ACTIVATION_HEIGHT =? 0 then total_stake_ L
  else saturating_total (backed_records (stakes_ L)) 0.

Definition IsStakingActive (L : t) (total_supply_units : Z) : bool :=
  staking_activation_units_ L <=? total_supply_units.
Definition IsStakingUnlocked (L : t) : bool := STAKING_UNLOCK_SUPPLY <=? total_supply_units_ L.
Definition GetEffectiveMinStake (L : t) (inclusion_height : Z) : Z :=
  if min_stake_override_ L >? 0 then min_stake_override_ L else MinimumStakeAtHeight inclusion_height.
Definition HasPendingDistribution (L : t) : bool := pending_distribution_height_ L >? 0.
Definition GetUnstakeHistory (L : t) (address : bytes) : list UnstakeRecord :=
  List.filter (fun r => bytes_eqb (u_address r) address) (unstake_history_ L).

(** The staker summaries, in the map's iteration order. *)
Definition GetAllStakers (L : t) : list (bytes * Z * Z) :=
  omap (fun '(addr, recs) =>
          let total := sum_if RecordEconomicallyBacked recs in
          let earliest := earliest_if RecordEconomicallyBacked recs in
          if total >? 0 then Some (addr, total, earliest) else None) (map_to_list (stakes_ L)).

(** ** The weighted snapshot the vault distribution pays by *)

Definition tranche_weight (r : StakeRecord) : Z :=
  u64 (s_amount_units r * LockupTierMultiplierPpm (s_lockup_tier r) / 1000000).

Fixpoint weigh (recs : list StakeRecord) (weighted_units : Z) : Z :=
  match recs with
  | [] => weighted_units
  | r :: recs' =>
      if negb (RecordEconomicallyBacked r) then weigh recs' weighted_units
      else
        let add := tranche_weight r in
        if UINT64_MAX - weighted_units <? add then UINT64_MAX
        else weigh recs' (weighted_units + add)
  end.

(** The [std::map], as its key-ordered list. *)
Definition GetWeightedStakeSnapshot (L : t) : list (bytes * Z) :=
  omap (fun addr =>
          match stakes_ L !! addr with
          | None => None
          | Some recs => let weighted_units := weigh recs 0 in
                         if weighted_units >? 0 then Some (addr, weighted_units) else None
          end)
    (sort_hashes (map fst (map_to_list (stakes_ L)))).

(** ** Unlock plans *)

Record UnlockPlan := mkPlan {
  consumed : list StakeRecord; requested_units : Z; backing_input_units : Z; residual_units : Z;
  plan_valid : bool }.

Definition EmptyPlan : UnlockPlan := mkPlan [] 0 0 0 false.

(** The loop of [PlanUnlockLocked]; [None] is its [return UnlockPlan{}]. *)
Fixpoint plan_loop (height : Z) (recs : list StakeRecord) (plan : UnlockPlan) (remaining : Z)
  : option (UnlockPlan * Z) :=
  match recs with
  | [] => Some (plan, remaining)
  | r :: recs' =>
      if negb (RecordEconomicallyBacked r) || (s_unlock_height r >? height)
      then plan_loop height recs' plan remaining
      else if backing_input_units plan >? UINT64_MAX - s_amount_units r then None
      else
        let consumed' := consumed plan ++ [r] in
        let input' := backing_input_units plan + s_amount_units r in
        if remaining <=? s_amount_units r
        then Some (mkPlan consumed' (requested_units plan) input' (s_amount_units r - remaining) false, 0)
        else plan_loop height recs' (mkPlan consumed' (requested_units plan) input' (residual_units plan) false)
               (remaining - s_amount_units r)
  end.

Definition PlanUnlock (L : t) (address : bytes) (requested height : Z) : UnlockPlan :=
  let plan := mkPlan [] requested 0 0 false in
  if requested =? 0 then plan
  else match stakes_ L !! address with
       | None => plan
       | Some recs =>
           match plan_loop height recs plan requested with
           | None => EmptyPlan
           | Some (plan, remaining) =>
               mkPlan (consumed plan) (requested_units plan) (backing_input_units plan) (residual_units plan)
                 (remaining =? 0)
           end
       end.

(** ** Slash lockup *)

Definition extend_lockup (min_unlock_height : Z) (r : StakeRecord) : StakeRecord :=
  if negb (RecordEconomicallyBacked r) then r
  else if s_unlock_height r <? min_unlock_height
  then mkStake (s_address r) (s_amount_units r) (s_locked_at_height r) min_unlock_height (s_active r)
         (s_lockup_tier r) (s_backing_txid r) (s_backing_vout r)
  else r.

Definition ApplySlashBondLockup (L : t) (address : bytes) (min_unlock_height : Z) : t :=
  match stakes_ L !! address with
  | None => L
  | Some recs => with_stakes L (<[address := map (extend_lockup min_unlock_height) recs]> (stakes_ L))
                   (unstake_history_ L) (total_stake_ L)
  end.

Section Blocks.
Context (crypto_sign_verify : bytes -> bytes -> bytes -> bool).

Definition TxInputMatchesAddress (tx : Transaction) (address : bytes) : bool :=
  TxVerifiedSignedBy crypto_sign_verify tx address.

(** ** Spends of backing outputs *)

(** The staking operations a transaction carries; [None] when one does not parse. *)
Fixpoint stake_ops (outs : list TxOutput) : option (list CanonicalStakeOp) :=
  match outs with
  | [] => Some []
  | out :: outs' =>
      let data := ParseOpReturn (script_pubkey out) in
      if negb (starts_with STAKE_PREFIX data) then stake_ops outs'
      else match ParseCanonicalStakeOp data with
           | None => None
           | Some op => match stake_ops outs' with Some ops => Some (op :: ops) | None => None end
           end
  end.

(** Output zero pays exactly [units] to [owner_script]. *)
Definition pays_owner (tx : Transaction) (units : Z) (owner_script : bytes) : bool :=
  match outputs tx with
  | [] => false
  | o :: _ => (value o =? units) && bytes_eqb (script_pubkey o) owner_script
  end.

Definition spent_backing (L : t) (tx : Transaction) : gset bytes :=
  let active := GetActiveBackingOutpoints L in
  list_to_set (List.filter (fun key => bool_decide (key ∈ active))
    (map (fun i => OutpointKey (prev_tx_hash i) (prev_out_index i)) (inputs tx))).

Definition ValidateBackingSpendLocked (L : t) (tx : Transaction) (height : Z) : bool :=
  match stake_ops (outputs tx) with
  | None => false
  | Some ops =>
      if (1 <? length ops)%nat then false
      else
        let spent := spent_backing L tx in
        match ops with
        | [] => bool_decide (spent = ∅)
        | op :: _ =>
            let owner_script := AddressToScript (op_address op) in
            if (size owner_script =? 0) || negb (TxInputMatchesAddress tx (op_address op)) then false
            else match op_action op with
            | LOCK => bool_decide (spent = ∅) && pays_owner tx (op_amount op) owner_script
            | UNLOCK =>
                let plan := PlanUnlock L (op_address op) (op_amount op) height in
                if negb (plan_valid plan) || (length (consumed plan) =? 0)%nat
                   || negb (base.size spent =? length (consumed plan))%nat then false
                else if negb (forallb (fun r => bool_decide (record_key r ∈ spent)) (consumed plan)) then false
                else if residual_units plan >? 0 then pays_owner tx (residual_units plan) owner_script
                else true
            end
        end
  end.

(** ** Operations *)

(** The current and the mature stake of UNLOCK; [None] on overflow. *)
Fixpoint stake_totals (height : Z) (recs : list StakeRecord) (current mature : Z) : option (Z * Z) :=
  match recs with
  | [] => Some (current, mature)
  | r :: recs' =>
      if negb (RecordEconomicallyBacked r) then stake_totals height recs' current mature
      else if current >? UINT64_MAX - s_amount_units r then None
      else
        let current := current + s_amount_units r in
        if s_unlock_height r <=? height then
          if mature >? UINT64_MAX - s_amount_units r then None
          else stake_totals height recs' current (mature + s_amount_units r)
        else stake_totals height recs' current mature
  end.

(** The consuming loop of UNLOCK, over the tranches, the history and the total. *)
Fixpoint unlock_loop (address : bytes) (height : Z) (txid : Hash256) (recs : list StakeRecord)
    (remaining : Z) (history : list UnstakeRecord) (total : Z)
  : list StakeRecord * list UnstakeRecord * Z :=
  match recs with
  | [] => ([], history, total)
  | r :: recs' =>
      if negb (RecordEconomicallyBacked r) || (s_unlock_height r >? height) then
        let '(recs'', history, total) := unlock_loop address height txid recs' remaining history total in
        (r :: recs'', history, total)
      else if remaining =? 0 then (r :: recs', history, total)
      else if s_amount_units r <=? remaining then
        let total := if s_amount_units r <=? total then total - s_amount_units r else 0 in
        let r' := mkStake (s_address r) (s_amount_units r) (s_locked_at_height r) (s_unlock_height r) false
                    (s_lockup_tier r) (s_backing_txid r) (s_backing_vout r) in
        let '(recs'', history, total) :=
          unlock_loop address height txid recs' (remaining - s_amount_units r)
            (history ++ [mkUnstake address (s_amount_units r) height]) total in
        (r' :: recs'', history, total)
      else
        let total := if remaining <=? total then total - remaining else 0 in
        let backing := StakeOutpointBackingActive height in
        let r' := mkStake (s_address r) (s_amount_units r - remaining) (s_locked_at_height r)
                    (s_unlock_height r) (s_active r) (s_lockup_tier r)
                    (if backing then txid else s_backing_txid r) (if backing then 0 else s_backing_vout r) in
        let '(recs'', history, total) :=
          unlock_loop address height txid recs' 0 (history ++ [mkUnstake address remaining height]) total in
        (r' :: recs'', history, total)
  end.

Definition UNSTAKE_HISTORY_CAP : nat := 43200.

(** [while (size() > CAP) pop_front()] *)
Definition cap_history (h : list UnstakeRecord) : list UnstakeRecord :=
  drop (length h - UNSTAKE_HISTORY_CAP) h.

Definition ProcessLock (L : t) (op : CanonicalStakeOp) (height : Z) (tx : Transaction) (invalid : option t)
  : option t :=
  let address := op_address op in
  let amount := op_amount op in
  if negb (TxInputMatchesAddress tx address) then invalid
  else if total_supply_units_ L <? staking_activation_units_ L then invalid
  else
    let current_stake := GetStake L address in
    if (current_stake >? MAX_STAKE_UNITS) || (amount >? MAX_STAKE_UNITS - current_stake) then invalid
    else
      let tier_blocks := nth (Z.to_nat (op_tier op - 1)) LOCKUP_TIERS 0 in
      let unlock_height := u64 (height + tier_blocks) in
      if unlock_height >? u64 (height + 10 * BLOCKS_PER_YEAR) then invalid
      else if (current_stake =? 0) && (MAX_VAULT_PAYOUT_STAKERS <=? Z.of_nat (base.size (stakes_ L))) then None
      else
        let backing := StakeOutpointBackingActive height in
        let rec := mkStake address amount height unlock_height true (op_tier op)
                     (if backing then GetTxID tx else ZeroHash) (if backing then 0 else UINT32_MAX) in
        if total_stake_ L >? UINT64_MAX - amount then invalid
        else Some (with_stakes L (<[address := GetStakeRecords L address ++ [rec]]> (stakes_ L))
                     (unstake_history_ L) (total_stake_ L + amount)).

Definition ProcessUnlock (L : t) (op : CanonicalStakeOp) (height : Z) (tx : Transaction) (invalid : option t)
  : option t :=
  let address := op_address op in
  let amount := op_amount op in
  if negb (TxInputMatchesAddress tx address) then invalid
  else match stakes_ L !! address with
  | None => invalid
  | Some recs =>
      match stake_totals height recs 0 0 with
      | None => invalid
      | Some (current_stake, mature_stake) =>
          if negb (StakeUnlockPreservesMinimum current_stake mature_stake amount (GetEffectiveMinStake L height))
          then invalid
          else if StakeOutpointBackingActive height && negb (plan_valid (PlanUnlock L address amount height))
          then None
          else
            let '(recs', history, total) :=
              unlock_loop address height (GetTxID tx) recs amount (unstake_history_ L) (total_stake_ L) in
            let kept := List.filter s_active recs' in
            let stakes := if (length kept =? 0)%nat then delete address (stakes_ L)
                          else <[address := kept]> (stakes_ L) in
            Some (with_stakes L stakes (cap_history history) total)
      end
  end.

(** [ProcessStakeOp]; [invalid()] ignores the marker before outpoint backing and refuses
    the block after it. *)
Definition ProcessStakeOp (L : t) (data : bytes) (height : Z) (tx : Transaction) : option t :=
  let fail_closed := StakeOutpointBackingActive height in
  let invalid := if fail_closed then None else Some L in
  match ParseCanonicalStakeOp data with
  | None => invalid
  | Some op =>
      let amount := op_amount op in
      if (amount =? 0) || (amount >? MAX_STAKE_UNITS) then invalid
      else
        let effective_min_stake := GetEffectiveMinStake L height in
        match op_action op with
        | LOCK => if amount <? effective_min_stake then invalid else ProcessLock L op height tx invalid
        | UNLOCK => ProcessUnlock L op height tx invalid
        end
  end.

(** ** Blocks *)

(** The copy of the three mutable fields taken at the first staking marker. *)
Definition Snapshot : Type := option (gmap bytes (list StakeRecord) * list UnstakeRecord * Z).

Definition take_snapshot (L : t) (snap : Snapshot) : Snapshot :=
  match snap with Some _ => snap | None => Some (stakes_ L, unstake_history_ L, total_stake_ L) end.

Definition roll_back (L : t) (snap : Snapshot) : t :=
  match snap with Some (s, u, total) => with_stakes L s u total | None => L end.

(** The markers of one transaction; the flag is [false] when the block is refused. *)
Fixpoint process_outs (height : Z) (tx : Transaction) (outs : list TxOutput) (L : t) (snap : Snapshot)
  : t * Snapshot * bool :=
  match outs with
  | [] => (L, snap, true)
  | out :: outs' =>
      let data := ParseOpReturn (script_pubkey out) in
      if (size data =? 0) || negb (starts_with STAKE_PREFIX data) then process_outs height tx outs' L snap
      else
        let snap := take_snapshot L snap in
        match ProcessStakeOp L data height tx with
        | None => (roll_back L snap, snap, false)
        | Some L' => process_outs height tx outs' L' snap
        end
  end.

Fixpoint process_txs (height : Z) (txs : list Transaction) (L : t) (snap : Snapshot) : t * bool :=
  match txs with
  | [] => (L, true)
  | tx :: txs' =>
      if StakeOutpointBackingActive height && negb (ValidateBackingSpendLocked L tx height)
      then (roll_back L snap, false)
      else
        let '(L', snap', ok) := process_outs height tx (outputs tx) L snap in
        if ok then process_txs height txs' L' snap' else (L', false)
  end.

Definition ProcessBlock (L : t) (block : Block) : t * bool :=
  let h := Block.height block in
  match process_txs h (transactions block) L None with
  | (L', false) => (L', false)
  | (L', true) =>
      (if (h >? 0) && (h mod VAULT_DISTRIBUTION_INTERVAL =? 0) then with_pending L' h else L', true)
  end.

Definition ValidateBlock (L : t) (block : Block) : bool := snd (ProcessBlock L block).

End Blocks.

(** ** Digest and snapshots *)

Definition put_record (r : StakeRecord) : bytes :=
  put_len_prefixed (s_address r) ++ put_u64_le (s_amount_units r) ++ put_u64_le (s_locked_at_height r)
  ++ put_u64_le (s_unlock_height r) ++ put_u8 (if s_active r then 1 else 0) ++ put_u8 (s_lockup_tier r)
  ++ put_bytes (s_backing_txid r) ++ put_u32_le (s_backing_vout r).

Definition put_address (m : gmap bytes (list StakeRecord)) (a : bytes) : bytes :=
  let recs := match m !! a with Some l => l | None => [] end in
  put_len_prefixed a ++ put_u32_le (u32 (size recs)) ++ concat (map put_record recs).

Definition put_unstake (r : UnstakeRecord) : bytes :=
  put_len_prefixed (u_address r) ++ put_u64_le (u_amount_units r) ++ put_u64_le (u_block_height r).

Definition digest_body (L : t) : bytes :=
  let addrs := sort_hashes (map fst (map_to_list (stakes_ L))) in
  put_u32_le 4 ++ put_u64_le (staking_activation_units_ L) ++ put_u64_le (min_stake_override_ L)
  ++ put_u32_le (u32 (size addrs)) ++ concat (map (put_address (stakes_ L)) addrs)
  ++ put_u64_le (total_stake_ L) ++ put_u64_le (pending_distribution_height_ L)
  ++ put_u32_le (u32 (size (unstake_history_ L))) ++ concat (map put_unstake (unstake_history_ L))
  ++ put_u64_le (total_supply_units_ L).

Definition STAKING_TAG : bytes := b:"VELD_D_STAKING_v3|".
Definition StakingDigest (L : t) : Hash256 := sha256_domain STAKING_TAG (digest_body L).

Record StateSnapshot := mkStateSnapshot {
  snap_stakes : gmap bytes (list StakeRecord); snap_total_stake : Z; snap_pending : Z;
  snap_unstake_history : list UnstakeRecord; snap_total_supply : Z }.

Definition SnapshotState (L : t) : StateSnapshot :=
  mkStateSnapshot (stakes_ L) (total_stake_ L) (pending_distribution_height_ L) (unstake_history_ L)
    (total_supply_units_ L).

Definition RestoreState (L : t) (s : StateSnapshot) : t :=
  mk (staking_activation_units_ L) (min_stake_override_ L) (snap_total_supply s) (snap_stakes s)
    (snap_unstake_history s) (snap_total_stake s) (snap_pending s).

End StakingLedger.
