(* ===== verification/StakingRules.v ===== *)
(** * Staking ledger: invariant and operation lemmas

    The well-formedness of a ledger under outpoint backing, the exact value of its
    readers, what LOCK and UNLOCK do to the tranches of an address, and that every
    transition keeps the ledger well formed. *)
From S2P Require Import Prelude Bytes Sha256 Profile Transaction Block Address OpAuthorization.
From S2P Require Import Marker StateDigest Validators BondYield Staking.
Import StakingLedger.

(** ** Sums *)

Definition stake_sum (recs : list StakeRecord) : Z := foldr (fun r a => s_amount_units r + a) 0 recs.
Definition ledger_sum (m : gmap bytes (list StakeRecord)) : Z :=
  map_fold (fun _ recs a => stake_sum recs + a) 0 m.

Lemma stake_sum_cons r l : stake_sum (r :: l) = s_amount_units r + stake_sum l.
Proof. done. Qed.

Lemma stake_sum_app a b : stake_sum (a ++ b) = stake_sum a + stake_sum b.
Proof. induction a as [|r a IH]; [done|]. cbn [app]. rewrite !stake_sum_cons, IH. lia. Qed.

Lemma stake_sum_perm a b : Permutation a b -> stake_sum a = stake_sum b.
Proof. induction 1; rewrite ?stake_sum_cons in *; lia. Qed.

Lemma ledger_sum_insert_new m a recs :
  m !! a = None -> ledger_sum (<[a := recs]> m) = stake_sum recs + ledger_sum m.
Proof. intros H. unfold ledger_sum. rewrite map_fold_insert_L; [done| |done]. intros. lia. Qed.

Lemma ledger_sum_delete m a recs :
  m !! a = Some recs -> ledger_sum m = stake_sum recs + ledger_sum (delete a m).
Proof.
  intros H. rewrite <- (insert_delete_id m a recs H) at 1. by rewrite ledger_sum_insert_new by apply lookup_delete_eq.
Qed.

Lemma ledger_sum_insert m a recs recs' :
  m !! a = Some recs' -> ledger_sum (<[a := recs]> m) = ledger_sum m - stake_sum recs' + stake_sum recs.
Proof.
  intros H. rewrite <- insert_delete_eq, ledger_sum_insert_new by apply lookup_delete_eq.
  rewrite (ledger_sum_delete m a recs' H). lia.
Qed.

(** ** Well-formed ledgers *)

(** A tranche of [a]: live, bound to output zero of some transaction. *)
Record tranche_ok (a : bytes) (r : StakeRecord) : Prop := {
  tok_address : s_address r = a;
  tok_active : s_active r = true;
  tok_amount : 0 < s_amount_units r;
  tok_tier : 1 <= s_lockup_tier r <= 4;
  tok_vout : s_backing_vout r = 0;
  tok_txid : is_hash (s_backing_txid r) }.

Definition all_records (m : gmap bytes (list StakeRecord)) : list StakeRecord :=
  concat (map snd (map_to_list m)).

Record ledger_inv (L : t) : Prop := {
  inv_tranches : forall a recs, stakes_ L !! a = Some recs -> recs <> [] /\ Forall (tranche_ok a) recs;
  inv_cap : forall a recs, stakes_ L !! a = Some recs -> stake_sum recs <= MAX_STAKE_UNITS;
  inv_total : total_stake_ L = ledger_sum (stakes_ L);
  inv_size : Z.of_nat (base.size (stakes_ L)) <= MAX_VAULT_PAYOUT_STAKERS;
  inv_keys : NoDup (map s_backing_txid (all_records (stakes_ L))) }.

Lemma Empty_inv : ledger_inv Empty.
Proof.
  split; cbn [Empty stakes_ total_stake_].
  - intros a recs. by rewrite lookup_empty.
  - intros a recs. by rewrite lookup_empty.
  - done.
  - rewrite map_size_empty. done.
  - unfold all_records. rewrite map_to_list_empty. constructor.
Qed.

Lemma tranche_backed a r : tranche_ok a r -> RecordEconomicallyBacked r = true.
Proof. intros [_ Ha _ _ Hv _]. unfold RecordEconomicallyBacked. by rewrite Ha, Hv. Qed.

Lemma stake_sum_nonneg a recs : Forall (tranche_ok a) recs -> 0 <= stake_sum recs.
Proof. induction 1 as [|r l Hr _ IH]; [done|]. rewrite stake_sum_cons. pose proof (tok_amount _ _ Hr). lia. Qed.

Lemma tranche_filter a f recs :
  Forall (tranche_ok a) recs ->
  List.filter (fun r => RecordEconomicallyBacked r && f r) recs = List.filter f recs.
Proof. induction 1 as [|r l Hr _ IH]; cbn; [done|]. by rewrite (tranche_backed _ _ Hr), IH. Qed.

(** ** Exact readers *)

Lemma sum_if_exact a f recs :
  Forall (tranche_ok a) recs -> stake_sum recs < 2 ^ 64 ->
  sum_if f recs = stake_sum (List.filter f recs).
Proof.
  unfold sum_if. intros Hf Hs.
  cut (forall x, 0 <= x -> x + stake_sum recs < 2 ^ 64 ->
    foldl (fun total r => if f r then u64 (total + s_amount_units r) else total) x recs
    = x + stake_sum (List.filter f recs)).
  { intros H. rewrite H; lia. }
  clear Hs. induction Hf as [|r l Hr Hf IH]; intros x Hx Hs; cbn; [lia|].
  pose proof (tok_amount _ _ Hr). pose proof (stake_sum_nonneg _ _ Hf).
  rewrite stake_sum_cons in Hs. destruct (f r); [|apply IH; lia].
  rewrite wrap_id by (unfold fits; lia). rewrite IH by lia. rewrite stake_sum_cons. lia.
Qed.

Lemma filter_all {A} (f : A -> bool) l : Forall (fun x => f x = true) l -> List.filter f l = l.
Proof. induction 1 as [|x l Hx _ IH]; cbn; [done|]. by rewrite Hx, IH. Qed.

Lemma backed_all a recs : Forall (tranche_ok a) recs -> List.filter RecordEconomicallyBacked recs = recs.
Proof. intros H. apply filter_all. eapply Forall_impl; [exact H|]. intros r. apply tranche_backed. Qed.

Section Inv.
Context (L : t) (HL : ledger_inv L).

Lemma inv_sum_bound a recs : stakes_ L !! a = Some recs -> stake_sum recs < 2 ^ 64.
Proof. intros H. pose proof (inv_cap _ HL _ _ H) as Hc. unfold MAX_STAKE_UNITS, VELD_UNITS in Hc. lia. Qed.

Lemma GetStake_exact a : GetStake L a = stake_sum (GetStakeRecords L a).
Proof.
  unfold GetStake, GetStakeRecords. destruct (stakes_ L !! a) as [recs|] eqn:E; [|done].
  destruct (inv_tranches _ HL _ _ E) as [_ Hf].
  by rewrite (sum_if_exact _ _ _ Hf (inv_sum_bound _ _ E)), (backed_all _ _ Hf).
Qed.

Lemma GetStake_pos a : GetStake L a = 0 <-> stakes_ L !! a = None.
Proof.
  rewrite GetStake_exact. unfold GetStakeRecords. destruct (stakes_ L !! a) as [recs|] eqn:E; [|done].
  destruct (inv_tranches _ HL _ _ E) as [Hn Hf]. split; [|done]. intros H. exfalso.
  destruct Hf as [|r l Hr Hf]; [done|]. pose proof (tok_amount _ _ Hr). pose proof (stake_sum_nonneg _ _ Hf).
  rewrite stake_sum_cons in H. lia.
Qed.

Lemma records_bound a : stake_sum (GetStakeRecords L a) <= MAX_STAKE_UNITS.
Proof.
  unfold GetStakeRecords. destruct (stakes_ L !! a) as [recs|] eqn:E; [by apply (inv_cap _ HL a)|].
  cbn. unfold MAX_STAKE_UNITS, VELD_UNITS. lia.
Qed.

Lemma records_ok a : Forall (tranche_ok a) (GetStakeRecords L a).
Proof.
  unfold GetStakeRecords. destruct (stakes_ L !! a) as [recs|] eqn:E; [|constructor].
  by apply (inv_tranches _ HL).
Qed.

End Inv.

(** The largest total is far from the 64-bit limit. *)
Lemma ledger_sum_bound m :
  (forall a recs, m !! a = Some recs -> 0 <= stake_sum recs <= MAX_STAKE_UNITS) ->
  0 <= ledger_sum m <= Z.of_nat (base.size m) * MAX_STAKE_UNITS.
Proof.
  induction m as [|a recs m Hm IH] using map_ind; intros H.
  - unfold ledger_sum. rewrite map_fold_empty, map_size_empty. lia.
  - rewrite ledger_sum_insert_new, map_size_insert_None by done.
    pose proof (H a recs (lookup_insert_eq _ _ _)).
    assert (forall a' recs', m !! a' = Some recs' -> 0 <= stake_sum recs' <= MAX_STAKE_UNITS) as H'.
    { intros a' recs' E. apply (H a'). rewrite lookup_insert_ne; [done|]. intros ->. congruence. }
    specialize (IH H'). lia.
Qed.

Lemma inv_total_bound L : ledger_inv L -> 0 <= total_stake_ L <= MAX_VAULT_PAYOUT_STAKERS * MAX_STAKE_UNITS.
Proof.
  intros HL. rewrite (inv_total _ HL). pose proof (inv_size _ HL) as Hs.
  pose proof (ledger_sum_bound (stakes_ L)) as Hb. destruct Hb as [H0 H1].
  { intros a recs E. split; [|by apply (inv_cap _ HL a)].
    apply (stake_sum_nonneg a), (inv_tranches _ HL _ _ E). }
  split; [done|]. etransitivity; [exact H1|]. apply Z.mul_le_mono_nonneg_r; [done|exact Hs].
Qed.

(** ** What an UNLOCK of [n] units takes *)

(** The tranches consumed, those left alone, and the shrunk tranche, if any, that the
    residual is rebound to. *)
Fixpoint taken (h : Z) (recs : list StakeRecord) (n : Z) : list StakeRecord :=
  match recs with
  | [] => []
  | r :: l => if n <=? 0 then [] else if s_unlock_height r >? h then taken h l n
              else r :: taken h l (n - s_amount_units r)
  end.

Fixpoint untouched (h : Z) (recs : list StakeRecord) (n : Z) : list StakeRecord :=
  match recs with
  | [] => []
  | r :: l => if n <=? 0 then r :: l else if s_unlock_height r >? h then r :: untouched h l n
              else untouched h l (n - s_amount_units r)
  end.

Definition shrink (txid : Hash256) (r : StakeRecord) (n : Z) : StakeRecord :=
  mkStake (s_address r) (s_amount_units r - n) (s_locked_at_height r) (s_unlock_height r) (s_active r)
    (s_lockup_tier r) txid 0.

Fixpoint residual (h : Z) (txid : Hash256) (recs : list StakeRecord) (n : Z) : list StakeRecord :=
  match recs with
  | [] => []
  | r :: l => if n <=? 0 then [] else if s_unlock_height r >? h then residual h txid l n
              else if s_amount_units r <=? n then residual h txid l (n - s_amount_units r)
              else [shrink txid r n]
  end.

Definition mature (h : Z) (r : StakeRecord) : bool := s_unlock_height r <=? h.

Lemma taken_zero h recs n : n <= 0 -> taken h recs n = [].
Proof. intros H. destruct recs; [done|]. cbn [taken]. by destruct (Z.leb_spec n 0); [|lia]. Qed.
Lemma untouched_zero h recs n : n <= 0 -> untouched h recs n = recs.
Proof. intros H. destruct recs; [done|]. cbn [untouched]. by destruct (Z.leb_spec n 0); [|lia]. Qed.
Lemma residual_zero h txid recs n : n <= 0 -> residual h txid recs n = [].
Proof. intros H. destruct recs; [done|]. cbn [residual]. by destruct (Z.leb_spec n 0); [|lia]. Qed.

Lemma taken_untouched h recs n : Permutation recs (taken h recs n ++ untouched h recs n).
Proof.
  revert n. induction recs as [|r l IH]; intros n; [done|]. cbn [taken untouched].
  destruct (n <=? 0); [done|]. destruct (s_unlock_height r >? h).
  - rewrite <- Permutation_middle. by constructor.
  - cbn [app]. by constructor.
Qed.

Lemma taken_mature h recs n : Forall (fun r => s_unlock_height r <= h) (taken h recs n).
Proof.
  revert n. induction recs as [|r l IH]; intros n; cbn [taken]; [constructor|].
  destruct (n <=? 0); [constructor|]. destruct (Z.gtb_spec (s_unlock_height r) h); [done|]. constructor; [lia|done].
Qed.

Section Loops.
Context (a : bytes) (h : Z) (txid : Hash256) (Hh : 1 <= h) (Htx : is_hash txid).

Lemma backing_on : StakeOutpointBackingActive h = true.
Proof.
  unfold StakeOutpointBackingActive, STAKE_OUTPOINT_BACKING_ACTIVATION_HEIGHT.
  destruct (Z.leb_spec 1 h); [done|lia].
Qed.

Lemma residual_ok recs n : Forall (tranche_ok a) recs -> Forall (tranche_ok a) (residual h txid recs n).
Proof.
  intros Hf. revert n. induction Hf as [|r l Hr _ IH]; intros n; cbn [residual]; [constructor|].
  destruct (n <=? 0); [constructor|]. destruct (_ >? _); [done|]. destruct (Z.leb_spec (s_amount_units r) n); [done|].
  constructor; [|constructor]. destruct Hr. split; cbn; try done. lia.
Qed.

Lemma residual_sum recs n :
  Forall (tranche_ok a) recs -> 0 <= n ->
  stake_sum (residual h txid recs n) = Z.max 0 (stake_sum (taken h recs n) - n).
Proof.
  intros Hf. revert n. induction Hf as [|r l Hr Hf IH]; intros n Hn; cbn [residual taken]; [cbn; lia|].
  pose proof (tok_amount _ _ Hr). destruct (Z.leb_spec n 0); [cbn; lia|].
  destruct (s_unlock_height r >? h); [by apply IH|]. rewrite stake_sum_cons.
  destruct (Z.leb_spec (s_amount_units r) n); [rewrite IH by lia; lia|].
  rewrite taken_zero by lia. cbn. lia.
Qed.

Lemma residual_txid recs n : Forall (fun r => s_backing_txid r = txid) (residual h txid recs n)
  /\ (length (residual h txid recs n) <= 1)%nat.
Proof.
  revert n. induction recs as [|r l IH]; intros n; cbn [residual]; [split; [constructor|cbn; lia]|].
  destruct (n <=? 0); [split; [constructor|cbn; lia]|]. destruct (_ >? _); [done|]. destruct (_ <=? _); [done|].
  split; [by repeat constructor|cbn; lia].
Qed.

Lemma taken_short recs n :
  Forall (tranche_ok a) recs -> stake_sum (taken h recs n) < n -> taken h recs n = List.filter (mature h) recs.
Proof.
  intros Hf. revert n. induction Hf as [|r l Hr Hf IH]; intros n Hn; cbn [taken List.filter]; [done|].
  pose proof (tok_amount _ _ Hr). cbn [taken] in Hn. unfold mature at 1. destruct (Z.leb_spec n 0); [cbn in Hn; lia|].
  destruct (Z.gtb_spec (s_unlock_height r) h), (Z.leb_spec (s_unlock_height r) h); try lia; [by apply IH|].
  rewrite stake_sum_cons in Hn. f_equal. apply IH. lia.
Qed.

Lemma taken_bound recs n : Forall (tranche_ok a) recs -> stake_sum (taken h recs n) <= stake_sum (List.filter (mature h) recs).
Proof.
  intros Hf. revert n. induction Hf as [|r l Hr Hf IH]; intros n; cbn [taken List.filter]; [done|].
  pose proof (tok_amount _ _ Hr). unfold mature at 1.
  assert (0 <= stake_sum (List.filter (mature h) l)).
  { apply (stake_sum_nonneg a). apply Forall_forall. intros x Hx. apply list_elem_of_In, filter_In in Hx as [Hx _].
    eapply Forall_forall; [exact Hf|]. by apply list_elem_of_In. }
  destruct (Z.leb_spec (s_unlock_height r) h), (Z.gtb_spec (s_unlock_height r) h), (Z.leb_spec n 0); try lia;
    rewrite ?stake_sum_cons; try (cbn; lia); specialize (IH (n - s_amount_units r)) as IH1; specialize (IH n); lia.
Qed.

(** ** The loops *)

Lemma plan_loop_spec recs c req inp res v n :
  Forall (tranche_ok a) recs -> 0 < n -> 0 <= inp -> inp + stake_sum recs < 2 ^ 64 ->
  plan_loop h recs (mkPlan c req inp res v) n
  = Some (let T := taken h recs n in
          mkPlan (c ++ T) req (inp + stake_sum T) (if n <=? stake_sum T then stake_sum T - n else res)
            (if (length T =? 0)%nat then v else false),
          Z.max 0 (n - stake_sum (taken h recs n))).
Proof.
  intros Hf. revert c inp n v. induction Hf as [|r l Hr Hf IH]; intros c inp n v Hn Hi Hs; cbv zeta.
  - cbn [plan_loop taken length Nat.eqb]. cbn [stake_sum foldr]. rewrite app_nil_r, Z.add_0_r.
    destruct (Z.leb_spec n 0); [lia|]. do 2 f_equal. lia.
  - cbn [plan_loop taken]. pose proof (tok_amount _ _ Hr). pose proof (stake_sum_nonneg _ _ Hf).
    rewrite stake_sum_cons in Hs. rewrite (tranche_backed _ _ Hr). cbn [negb orb].
    destruct (Z.leb_spec n 0); [lia|]. destruct (s_unlock_height r >? h); [apply IH; lia|].
    cbn [backing_input_units consumed requested_units residual_units].
    destruct (Z.gtb_spec inp (UINT64_MAX - s_amount_units r)) as [Ho|_]; [unfold UINT64_MAX in Ho; lia|].
    rewrite stake_sum_cons. destruct (Z.leb_spec n (s_amount_units r)) as [Hle|Hgt].
    + rewrite taken_zero by lia. cbn [length Nat.eqb stake_sum foldr]. rewrite !Z.add_0_r.
      destruct (Z.leb_spec n (s_amount_units r)); [|lia]. do 2 f_equal. lia.
    + rewrite IH by lia. cbv zeta. set (T := taken h l (n - s_amount_units r)). rewrite <- app_assoc.
      cbn [app length Nat.eqb]. do 2 f_equal; [|lia].
      replace (n - s_amount_units r <=? stake_sum T) with (n <=? s_amount_units r + stake_sum T)
        by (destruct (Z.leb_spec n (s_amount_units r + stake_sum T)), (Z.leb_spec (n - s_amount_units r) (stake_sum T)); lia).
      f_equal; [lia| |by destruct (length T =? 0)%nat].
      destruct (n <=? s_amount_units r + stake_sum T); lia.
Qed.

Lemma stake_totals_spec recs c m :
  Forall (tranche_ok a) recs -> 0 <= m <= c -> c + stake_sum recs < 2 ^ 64 ->
  stake_totals h recs c m = Some (c + stake_sum recs, m + stake_sum (List.filter (mature h) recs)).
Proof.
  intros Hf. revert c m. induction Hf as [|r l Hr Hf IH]; intros c m Hm Hs; cbn [stake_totals List.filter];
    [cbn; by rewrite !Z.add_0_r|].
  pose proof (tok_amount _ _ Hr). pose proof (stake_sum_nonneg _ _ Hf). rewrite stake_sum_cons in *.
  rewrite (tranche_backed _ _ Hr). cbn [negb].
  destruct (Z.gtb_spec c (UINT64_MAX - s_amount_units r)) as [Ho|_]; [unfold UINT64_MAX in Ho; lia|].
  unfold mature at 1. destruct (s_unlock_height r <=? h).
  - destruct (Z.gtb_spec m (UINT64_MAX - s_amount_units r)) as [Ho|_]; [unfold UINT64_MAX in Ho; lia|].
    rewrite IH, stake_sum_cons by lia. do 2 f_equal; lia.
  - rewrite IH by lia. do 2 f_equal; lia.
Qed.

Lemma unlock_loop_spec recs n hist total recs' hist' total' :
  Forall (tranche_ok a) recs -> 0 <= n -> stake_sum recs <= total ->
  unlock_loop a h txid recs n hist total = (recs', hist', total') ->
  Permutation (List.filter s_active recs') (untouched h recs n ++ residual h txid recs n)
  /\ total' = total - Z.min n (stake_sum (taken h recs n)).
Proof.
  intros Hf. revert n hist total recs' hist' total'.
  induction Hf as [|r l Hr Hf IH]; intros n hist total recs' hist' total' Hn Ht E; cbn [unlock_loop] in E.
  { injection E as <- <- <-. cbn. split; [done|lia]. }
  pose proof (tok_amount _ _ Hr). pose proof (tok_active _ _ Hr) as Hact. pose proof (stake_sum_nonneg _ _ Hf).
  rewrite stake_sum_cons in Ht. rewrite (tranche_backed _ _ Hr) in E. cbn [negb orb] in E.
  cbn [untouched residual taken].
  destruct (s_unlock_height r >? h) eqn:Eu.
  - destruct (unlock_loop a h txid l n hist total) as [[recs'' hist''] total''] eqn:El.
    injection E as <- <- <-. apply IH in El as [Hp Htot]; [|lia..]. cbn [List.filter]. rewrite Hact.
    destruct (Z.leb_spec n 0).
    + replace n with 0 in * by lia. rewrite untouched_zero, residual_zero, app_nil_r in Hp by lia.
      rewrite app_nil_r. rewrite taken_zero in Htot by lia. cbn in *. split; [by constructor|lia].
    + cbn [app]. split; [by constructor|lia].
  - destruct (Z.eqb_spec n 0) as [->|Hn0].
    + injection E as <- <- <-. cbn. rewrite Hact, app_nil_r. split; [|lia].
      constructor. rewrite filter_all; [done|]. eapply Forall_impl; [exact Hf|]. intros x. apply tok_active.
    + destruct (Z.leb_spec n 0); [lia|]. rewrite stake_sum_cons.
      destruct (Z.leb_spec (s_amount_units r) n) as [Hle|Hgt].
      * destruct (Z.leb_spec (s_amount_units r) total) as [_|]; [|lia].
        destruct (unlock_loop a h txid l _ _ _) as [[recs'' hist''] total''] eqn:El.
        injection E as <- <- <-. apply IH in El as [Hp Htot]; [|lia..]. cbn [List.filter s_active].
        split; [exact Hp|lia].
      * destruct (Z.leb_spec n total) as [_|]; [|lia]. rewrite backing_on in E.
        destruct (unlock_loop a h txid l 0 _ _) as [[recs'' hist''] total''] eqn:El.
        injection E as <- <- <-. apply IH in El as [Hp Htot]; [|lia..].
        rewrite untouched_zero, residual_zero, app_nil_r in Hp by lia. rewrite taken_zero in Htot by lia.
        rewrite untouched_zero, taken_zero by lia. unfold shrink. cbn [List.filter s_active]. rewrite Hact.
        split; [|cbn in *; lia]. etransitivity; [apply Permutation_skip, Hp|]. apply Permutation_cons_append.
Qed.
End Loops.

(** ** Replacing the tranches of one address *)

Lemma all_records_insert_new m a l :
  m !! a = None -> Permutation (all_records (<[a := l]> m)) (l ++ all_records m).
Proof. intros H. unfold all_records. by rewrite (map_to_list_insert m a l H). Qed.

Lemma all_records_delete m a l :
  m !! a = Some l -> Permutation (all_records m) (l ++ all_records (delete a m)).
Proof.
  intros H. rewrite <- (insert_delete_id m a l H) at 1. apply all_records_insert_new, lookup_delete_eq.
Qed.

Lemma all_records_insert m a l :
  Permutation (all_records (<[a := l]> m)) (l ++ all_records (delete a m)).
Proof. rewrite <- insert_delete_eq. apply all_records_insert_new, lookup_delete_eq. Qed.

Lemma all_records_split L a :
  Permutation (all_records (stakes_ L)) (GetStakeRecords L a ++ all_records (delete a (stakes_ L))).
Proof.
  unfold GetStakeRecords. destruct (stakes_ L !! a) as [l|] eqn:E; [by apply all_records_delete|].
  by rewrite delete_id.
Qed.

Lemma ledger_sum_split L a :
  ledger_sum (stakes_ L) = stake_sum (GetStakeRecords L a) + ledger_sum (delete a (stakes_ L)).
Proof.
  unfold GetStakeRecords. destruct (stakes_ L !! a) as [l|] eqn:E; [by apply ledger_sum_delete|].
  rewrite delete_id by done. cbn. lia.
Qed.

(** The map after the tranches of [a] have become [l]. *)
Definition replace_tranches (m : gmap bytes (list StakeRecord)) (a : bytes) (l : list StakeRecord) :=
  if (length l =? 0)%nat then delete a m else <[a := l]> m.

Lemma replace_records m a l :
  Permutation (all_records (replace_tranches m a l)) (l ++ all_records (delete a m)).
Proof. unfold replace_tranches. destruct l; cbn [length Nat.eqb]; [done|apply all_records_insert]. Qed.

Lemma replace_sum m a l : ledger_sum (replace_tranches m a l) = stake_sum l + ledger_sum (delete a m).
Proof.
  unfold replace_tranches. destruct l; cbn [length Nat.eqb]; [cbn; lia|].
  rewrite <- insert_delete_eq. apply ledger_sum_insert_new, lookup_delete_eq.
Qed.

Lemma replace_lookup m a l b :
  replace_tranches m a l !! b
  = if decide (b = a) then (if (length l =? 0)%nat then None else Some l) else m !! b.
Proof.
  unfold replace_tranches. destruct (decide (b = a)) as [->|Hn].
  - destruct (length l =? 0)%nat; [apply lookup_delete_eq|apply lookup_insert_eq].
  - destruct (length l =? 0)%nat; [by rewrite lookup_delete_ne|by rewrite lookup_insert_ne].
Qed.

Lemma replace_size m a l :
  (base.size (replace_tranches m a l)
   <= base.size m + (if decide (m !! a = None) then (if (length l =? 0)%nat then 0 else 1) else 0))%nat.
Proof.
  unfold replace_tranches. destruct (length l =? 0)%nat.
  - destruct (m !! a) as [x|] eqn:E.
    + rewrite map_size_delete, E. cbn. destruct (decide _); lia.
    + rewrite delete_id by done. destruct (decide _); lia.
  - destruct (m !! a) as [x|] eqn:E.
    + rewrite map_size_insert, E. cbn. destruct (decide _); lia.
    + rewrite map_size_insert, E. cbn. destruct (decide _); [lia|done].
Qed.

Lemma GetStakeRecords_replace L a l s u total b :
  s = replace_tranches (stakes_ L) a l ->
  GetStakeRecords (with_stakes L s u total) b = if decide (b = a) then l else GetStakeRecords L b.
Proof.
  intros ->. unfold GetStakeRecords. cbn [stakes_ with_stakes]. rewrite replace_lookup.
  destruct (decide (b = a)); [|done]. by destruct l.
Qed.

Lemma replace_inv L a l u total :
  ledger_inv L -> Forall (tranche_ok a) l -> stake_sum l <= MAX_STAKE_UNITS ->
  total = total_stake_ L - stake_sum (GetStakeRecords L a) + stake_sum l ->
  (stakes_ L !! a = None -> Z.of_nat (base.size (stakes_ L)) < MAX_VAULT_PAYOUT_STAKERS) ->
  NoDup (map s_backing_txid (l ++ all_records (delete a (stakes_ L)))) ->
  ledger_inv (with_stakes L (replace_tranches (stakes_ L) a l) u total).
Proof.
  intros HL Hl Hc Ht Hs Hk. split; cbn [with_stakes stakes_ total_stake_].
  - intros b recs. rewrite replace_lookup. destruct (decide (b = a)) as [->|_]; [|apply (inv_tranches _ HL)].
    destruct l; [done|]. cbn. intros [= <-]. done.
  - intros b recs. rewrite replace_lookup. destruct (decide (b = a)) as [->|_]; [|apply (inv_cap _ HL)].
    destruct l; [done|]. cbn [length Nat.eqb]. by intros [= <-].
  - rewrite Ht, (inv_total _ HL), replace_sum, (ledger_sum_split L a). lia.
  - pose proof (replace_size (stakes_ L) a l) as Hr. pose proof (inv_size _ HL).
    destruct (decide (stakes_ L !! a = None)) as [E|]; [|lia]. specialize (Hs E). destruct (length l =? 0)%nat; lia.
  - by rewrite (Permutation_map s_backing_txid (replace_records (stakes_ L) a l)).
Qed.

(** ** The operations *)

Definition fresh_txid (txid : Hash256) (m : gmap bytes (list StakeRecord)) : Prop :=
  Forall (fun r => s_backing_txid r <> txid) (all_records m).

Lemma fresh_split txid m a l :
  fresh_txid txid m -> m !! a = Some l ->
  Forall (fun r => s_backing_txid r <> txid) l /\ fresh_txid txid (delete a m).
Proof.
  unfold fresh_txid. intros H E. apply Forall_app. eapply Permutation_Forall; [|exact H]. by apply all_records_delete.
Qed.

Lemma fresh_delete txid m a : fresh_txid txid m -> fresh_txid txid (delete a m).
Proof.
  intros H. destruct (m !! a) as [l|] eqn:E; [by apply (fresh_split txid m a l)|]. by rewrite delete_id.
Qed.

Lemma fresh_not_in txid l : Forall (fun r => s_backing_txid r <> txid) l -> txid ∉ map s_backing_txid l.
Proof.
  rewrite Forall_forall. intros H Hin. apply list_elem_of_fmap in Hin as (r & E & Hr). by apply (H r).
Qed.

Lemma GetTxID_hash tx : is_hash (GetTxID tx).
Proof. apply Hash256d_hash. Qed.

Definition new_tranche (op : CanonicalStakeOp) (h : Z) (tx : Transaction) : StakeRecord :=
  mkStake (op_address op) (op_amount op) h (u64 (h + nth (Z.to_nat (op_tier op - 1)) LOCKUP_TIERS 0)) true
    (op_tier op) (GetTxID tx) 0.

Section Operations.
Context (verify : bytes -> bytes -> bytes -> bool).

Record lock_effect (L : t) (op : CanonicalStakeOp) (h : Z) (tx : Transaction) (L' : t) : Prop := {
  le_signed : TxInputMatchesAddress verify tx (op_address op) = true;
  le_active : staking_activation_units_ L <= total_supply_units_ L;
  le_amount : 0 < op_amount op /\ GetEffectiveMinStake L h <= op_amount op;
  le_cap : stake_sum (GetStakeRecords L (op_address op)) + op_amount op <= MAX_STAKE_UNITS;
  le_room : stakes_ L !! op_address op = None -> Z.of_nat (base.size (stakes_ L)) < MAX_VAULT_PAYOUT_STAKERS;
  le_result : L' = with_stakes L
    (replace_tranches (stakes_ L) (op_address op) (GetStakeRecords L (op_address op) ++ [new_tranche op h tx]))
    (unstake_history_ L) (total_stake_ L + op_amount op) }.

Record unlock_effect (L : t) (op : CanonicalStakeOp) (h : Z) (tx : Transaction) (L' : t) : Prop := {
  ue_signed : TxInputMatchesAddress verify tx (op_address op) = true;
  ue_amount : 0 < op_amount op;
  ue_covered : op_amount op <= stake_sum (taken h (GetStakeRecords L (op_address op)) (op_amount op));
  ue_minimum : let rest := stake_sum (GetStakeRecords L (op_address op)) - op_amount op in
               rest = 0 \/ GetEffectiveMinStake L h <= rest;
  ue_result : exists kept hist,
    Permutation kept (untouched h (GetStakeRecords L (op_address op)) (op_amount op)
                      ++ residual h (GetTxID tx) (GetStakeRecords L (op_address op)) (op_amount op))
    /\ (length hist <= UNSTAKE_HISTORY_CAP)%nat
    /\ L' = with_stakes L (replace_tranches (stakes_ L) (op_address op) kept) hist (total_stake_ L - op_amount op) }.

Context (L : t) (HL : ledger_inv L) (h : Z) (tx : Transaction) (Hh : 1 <= h).

Lemma GetStakeRecords_cons_lookup a r l : GetStakeRecords L a = r :: l -> stakes_ L !! a = Some (r :: l).
Proof. unfold GetStakeRecords. destruct (stakes_ L !! a); [congruence|done]. Qed.

Lemma ProcessLock_effect op L' :
  0 < op_amount op -> GetEffectiveMinStake L h <= op_amount op ->
  ProcessLock verify L op h tx None = Some L' -> lock_effect L op h tx L'.
Proof.
  intros Ha Hmin. unfold ProcessLock. rewrite (backing_on h Hh). intros E.
  destruct (TxInputMatchesAddress verify tx (op_address op)) eqn:Es; [|done]. cbn [negb] in E.
  destruct (Z.ltb_spec (total_supply_units_ L) (staking_activation_units_ L)); [done|].
  rewrite (GetStake_exact L HL) in E.
  destruct (_ || _) eqn:Ec in E; [done|]. destruct (u64 _ >? _) eqn:Eu in E; [done|].
  destruct (_ && _) eqn:Er in E; [done|]. destruct (_ >? _) eqn:Et in E; [done|].
  injection E as <-. apply orb_false_iff in Ec as [_ Ec].
  destruct (Z.gtb_spec (op_amount op) (MAX_STAKE_UNITS - stake_sum (GetStakeRecords L (op_address op)))); [done|].
  split; [done|done|done|lia| |].
  - intros E. rewrite <- (GetStake_exact L HL), (proj2 (GetStake_pos L HL _) E) in Er. cbn [Z.eqb andb] in Er.
    destruct (Z.leb_spec MAX_VAULT_PAYOUT_STAKERS (Z.of_nat (base.size (stakes_ L)))); [done|lia].
  - unfold replace_tranches. rewrite length_app, Nat.add_comm. reflexivity.
Qed.

Lemma PlanUnlock_spec a n :
  0 < n -> stakes_ L !! a <> None ->
  let T := taken h (GetStakeRecords L a) n in
  PlanUnlock L a n h = mkPlan T n (stake_sum T) (if n <=? stake_sum T then stake_sum T - n else 0)
                         (n <=? stake_sum T).
Proof.
  intros Hn Hs T. unfold PlanUnlock, GetStakeRecords in *. destruct (Z.eqb_spec n 0); [lia|].
  destruct (stakes_ L !! a) as [recs|] eqn:E; [|done]. destruct (inv_tranches _ HL _ _ E) as [_ Hf].
  pose proof (inv_sum_bound L HL _ _ E).
  rewrite (plan_loop_spec a) by (done || lia). cbv zeta. fold T.
  cbn [consumed requested_units backing_input_units residual_units app]. rewrite Z.add_0_l.
  f_equal. destruct (Z.leb_spec n (stake_sum T)), (Z.eqb_spec (Z.max 0 (n - stake_sum T)) 0); lia.
Qed.

Lemma cap_history_length l : (length (cap_history l) <= UNSTAKE_HISTORY_CAP)%nat.
Proof. unfold cap_history. rewrite length_drop. lia. Qed.

Lemma unlock_minimum cur mat n mn :
  n <= mat -> StakeUnlockPreservesMinimum cur mat n mn = true -> cur - n = 0 \/ mn <= cur - n.
Proof.
  unfold StakeUnlockPreservesMinimum. intros Hn. destruct (mat >? cur); [done|].
  replace (if n <? mat then n else mat) with n by (destruct (Z.ltb_spec n mat); lia).
  rewrite orb_true_iff, Z.eqb_eq, Z.geb_le. lia.
Qed.

Lemma ProcessUnlock_effect op L' :
  0 < op_amount op -> ProcessUnlock verify L op h tx None = Some L' -> unlock_effect L op h tx L'.
Proof.
  intros Ha. unfold ProcessUnlock. set (a := op_address op). set (n := op_amount op) in *. intros E.
  destruct (TxInputMatchesAddress verify tx a) eqn:Es; [|done]. cbn [negb] in E.
  pose proof (PlanUnlock_spec a n Ha) as HP. pose proof (records_ok L HL a) as Hf.
  assert (HR : forall recs, stakes_ L !! a = Some recs -> GetStakeRecords L a = recs)
    by (unfold GetStakeRecords; intros ? ->; done).
  assert (Htot : stake_sum (GetStakeRecords L a) <= total_stake_ L).
  { rewrite (inv_total _ HL), (ledger_sum_split L a).
    pose proof (ledger_sum_bound (delete a (stakes_ L))) as [H0 _]; [|lia].
    intros b recs Hb. apply lookup_delete_Some in Hb as [_ Hb]. split; [|by apply (inv_cap _ HL b)].
    apply (stake_sum_nonneg b), (inv_tranches _ HL _ _ Hb). }
  destruct (stakes_ L !! a) as [recs|] eqn:El; [|done].
  rewrite (HR recs eq_refl) in *. pose proof (inv_sum_bound L HL _ _ El).
  rewrite (stake_totals_spec a h) in E by (done || lia). rewrite !Z.add_0_l in E.
  destruct (StakeUnlockPreservesMinimum _ _ _ _) eqn:Em in E; [|done]. cbn [negb] in E.
  rewrite (backing_on h Hh), HP in E by done. cbn [andb plan_valid] in E.
  destruct (Z.leb_spec n (stake_sum (taken h recs n))) as [Hcov|]; [|done]. cbn [negb] in E.
  destruct (unlock_loop a h (GetTxID tx) recs n (unstake_history_ L) (total_stake_ L)) as [[recs' hist] total] eqn:Eu.
  injection E as <-. apply (unlock_loop_spec a h (GetTxID tx) Hh) in Eu as [Hp Ht]; [|done|lia|done].
  pose proof (taken_bound a h recs n Hf).
  split; fold a n; rewrite ?(HR recs eq_refl); [done|done|done| |].
  - cbv zeta. eapply unlock_minimum; [|exact Em]. lia.
  - exists (List.filter s_active recs'), (cap_history hist). split; [exact Hp|]. split; [apply cap_history_length|].
    unfold replace_tranches. f_equal. lia.
Qed.

Lemma new_tranche_ok op :
  0 < op_amount op -> 1 <= op_tier op <= 4 -> tranche_ok (op_address op) (new_tranche op h tx).
Proof. intros Ha Ht. split; cbn; try done. apply GetTxID_hash. Qed.

Lemma lock_inv op L' :
  1 <= op_tier op <= 4 -> fresh_txid (GetTxID tx) (stakes_ L) -> lock_effect L op h tx L' -> ledger_inv L'.
Proof.
  intros Ht Hfr [_ _ [Ha _] Hc Hr ->]. set (a := op_address op) in *.
  pose proof (new_tranche_ok op Ha Ht) as Hn. apply replace_inv; try done.
  - apply Forall_app. split; [apply (records_ok L HL)|]. by constructor.
  - rewrite stake_sum_app. cbn. lia.
  - rewrite stake_sum_app. cbn. lia.
  - rewrite <- app_assoc. cbn [app].
    rewrite (Permutation_map s_backing_txid (l' := new_tranche op h tx :: all_records (stakes_ L))).
    + cbn [map]. constructor; [|apply (inv_keys _ HL)]. by apply fresh_not_in.
    + rewrite <- Permutation_middle. constructor. symmetry. apply all_records_split.
Qed.

Lemma NoDup_residual (l : list Hash256) (R : list StakeRecord) txid :
  NoDup l -> txid ∉ l -> Forall (fun r => s_backing_txid r = txid) R -> (length R <= 1)%nat ->
  NoDup (l ++ map s_backing_txid R).
Proof.
  intros Hl Hn HR Hlen. destruct R as [|r [|]]; cbn in *; [by rewrite app_nil_r| |lia].
  apply Forall_cons in HR as [-> _]. apply NoDup_app. split; [done|]. split.
  - intros x Hx. rewrite list_elem_of_singleton. by intros ->.
  - apply NoDup_singleton.
Qed.

Lemma unlock_inv op L' :
  fresh_txid (GetTxID tx) (stakes_ L) -> unlock_effect L op h tx L' -> ledger_inv L'.
Proof.
  intros Hfr [_ Ha Hcov _ (kept & hist & Hp & _ & ->)]. set (a := op_address op) in *. set (n := op_amount op) in *.
  set (recs := GetStakeRecords L a) in *. pose proof (records_ok L HL a) as Hf. fold recs in Hf.
  pose proof (taken_untouched h recs n) as Hrecs.
  assert (Hsum : stake_sum kept = stake_sum recs - n).
  { rewrite (stake_sum_perm _ _ Hp), stake_sum_app, (residual_sum a h) by (done || lia).
    rewrite (stake_sum_perm _ _ Hrecs) at 1. rewrite stake_sum_app. lia. }
  assert (Hsub : Forall (tranche_ok a) (untouched h recs n)).
  { rewrite Hrecs in Hf. by apply Forall_app in Hf as [_ ?]. }
  apply replace_inv; try done.
  - rewrite Hp. apply Forall_app. split; [done|]. by apply residual_ok; [apply GetTxID_hash|].
  - pose proof (records_bound L HL a). fold recs in H. lia.
  - fold recs. lia.
  - intros E. exfalso. unfold recs, GetStakeRecords in Hcov. rewrite E in Hcov. cbn in Hcov. lia.
  - pose proof (all_records_split L a) as Hall. fold recs in Hall.
    pose proof (inv_keys _ HL) as Hk. rewrite (Permutation_map s_backing_txid Hall) in Hk.
    unfold fresh_txid in Hfr. rewrite Hall in Hfr.
    rewrite Hrecs, <- app_assoc in Hk, Hfr. rewrite map_app in Hk. apply NoDup_app in Hk as (_ & _ & Hk).
    apply Forall_app in Hfr as [_ Hfr].
    destruct (residual_txid h (GetTxID tx) recs n) as [HR Hlen].
    rewrite (Permutation_map s_backing_txid
      (l' := (untouched h recs n ++ all_records (delete a (stakes_ L))) ++ residual h (GetTxID tx) recs n)).
    + rewrite map_app. eapply NoDup_residual; [exact Hk|by apply fresh_not_in|done|done].
    + rewrite Hp, <- !app_assoc. apply Permutation_app_head, Permutation_app_comm.
Qed.
End Operations.
