(* ===== verification/StakingSafety.v ===== *)
(** * Staking ledger: blocks

    What an accepted block does, transaction by transaction; that a refused block
    changes nothing; and the safety of the whole ledger over any history. *)
From Stdlib Require Import Sorting.Sorted.
From S2P Require Import Prelude Bytes Sha256 Profile Transaction Block Address OpAuthorization.
From S2P Require Import Marker StateDigest FinalityQc FinalitySnapshot Validators BondYield Staking StakingRules.
Import StakingLedger.

(** ** Refusal *)

Lemma ParseCanonicalStakeOp_wf data op : ParseCanonicalStakeOp data = Some op -> wf_stake_op op.
Proof.
  unfold ParseCanonicalStakeOp. destruct (starts_with lock_prefix data).
  - intros H. by apply parse_stake_fields_lock in H as (_ & ? & _).
  - destruct (starts_with unlock_prefix data); [|done]. intros H. by apply parse_stake_fields_unlock in H as (_ & ? & _).
Qed.

Section Blocks.
Context (verify : bytes -> bytes -> bytes -> bool).

(** A marker changes nothing but the tranches, the history and the total. *)
Lemma ProcessStakeOp_frame L data h tx L' :
  ProcessStakeOp verify L data h tx = Some L' -> exists s u n, L' = with_stakes L s u n.
Proof.
  assert (Hid : exists s u n, L = with_stakes L s u n).
  { exists (stakes_ L), (unstake_history_ L), (total_stake_ L). by destruct L. }
  assert (Hinv : forall L', (if StakeOutpointBackingActive h then None else Some L) = Some L' ->
    exists s u n, L' = with_stakes L s u n).
  { intros L1. destruct (StakeOutpointBackingActive h); [done|]. by intros [= <-]. }
  unfold ProcessStakeOp. set (inv := if StakeOutpointBackingActive h then None else Some L) in *. clearbody inv.
  assert (Hstep : forall (c : bool) (k : option t), (k = Some L' -> exists s u n, L' = with_stakes L s u n) ->
    (if c then inv else k) = Some L' -> exists s u n, L' = with_stakes L s u n).
  { intros [] k Hk; [apply Hinv|exact Hk]. }
  destruct (ParseCanonicalStakeOp data) as [op|]; [|apply Hinv]. apply Hstep. destruct (op_action op).
  - apply Hstep. unfold ProcessLock. do 4 (apply Hstep). destruct (_ && _); [done|].
    apply Hstep. intros [= <-]. by do 3 eexists.
  - unfold ProcessUnlock. apply Hstep. destruct (_ !! _); [|apply Hinv].
    destruct (stake_totals _ _ _ _) as [[cur mat]|]; [|apply Hinv]. apply Hstep.
    destruct (_ && _); [done|]. destruct (unlock_loop _ _ _ _ _ _ _) as [[recs' hist] total].
    intros [= <-]. by do 3 eexists.
Qed.

Lemma roll_back_frame L s u n snap : roll_back (with_stakes L s u n) (Some snap) = roll_back L (Some snap).
Proof. by destruct snap as [[? ?] ?]. Qed.

Lemma roll_back_take L snap : roll_back L (take_snapshot L snap) = roll_back L snap.
Proof. destruct snap as [[[s u] n]|]; [done|]. by destruct L. Qed.

Lemma take_snapshot_some L snap : exists s, take_snapshot L snap = Some s.
Proof. destruct snap as [s|]; cbn; by eexists. Qed.

Lemma process_outs_roll_back h tx outs L snap L' snap' ok L0 :
  roll_back L snap = L0 -> process_outs verify h tx outs L snap = (L', snap', ok) ->
  if ok then roll_back L' snap' = L0 else L' = L0.
Proof.
  revert L snap. induction outs as [|o outs IH]; intros L snap H0 E; cbn [process_outs] in E.
  { by injection E as <- <- <-. }
  destruct (_ || _) in E; [by apply (IH L snap)|].
  destruct (ProcessStakeOp verify L _ h tx) as [L1|] eqn:Ep.
  - apply (IH L1 (take_snapshot L snap)); [|done].
    apply ProcessStakeOp_frame in Ep as (s & u & n & ->).
    rewrite <- H0, <- (roll_back_take L snap). destruct (take_snapshot_some L snap) as [x ->]. apply roll_back_frame.
  - injection E as <- <- <-. by rewrite roll_back_take.
Qed.

Lemma process_txs_refused h txs L snap L' L0 :
  roll_back L snap = L0 -> process_txs verify h txs L snap = (L', false) -> L' = L0.
Proof.
  revert L snap. induction txs as [|tx txs IH]; intros L snap H0 E; cbn [process_txs] in E; [done|].
  destruct (_ && _) in E; [by injection E as <-|].
  destruct (process_outs verify h tx (outputs tx) L snap) as [[L1 snap1] ok] eqn:Ep.
  apply (process_outs_roll_back _ _ _ _ _ _ _ _ L0 H0) in Ep. destruct ok; [by apply (IH L1 snap1)|].
  injection E as <-. done.
Qed.

Lemma ProcessBlock_refused L b L' : ProcessBlock verify L b = (L', false) -> L' = L.
Proof.
  unfold ProcessBlock. destruct (process_txs _ _ _ _ _) as [L1 []] eqn:E; [done|]. intros [= <-].
  by apply (process_txs_refused _ _ L None _ L eq_refl) in E.
Qed.

(** ** One transaction *)

Definition signed_by (tx : Transaction) (op : CanonicalStakeOp) : Prop :=
  TxInputMatchesAddress verify tx (op_address op) = true.

Inductive tx_effect (h : Z) (tx : Transaction) (L : t) : t -> Prop :=
| te_none : stake_ops (outputs tx) = Some [] -> spent_backing L tx = ∅ -> tx_effect h tx L L
| te_lock op L' :
    stake_ops (outputs tx) = Some [op] -> op_action op = LOCK -> wf_stake_op op ->
    spent_backing L tx = ∅ -> pays_owner tx (op_amount op) (AddressToScript (op_address op)) = true ->
    lock_effect verify L op h tx L' -> tx_effect h tx L L'
| te_unlock op L' :
    stake_ops (outputs tx) = Some [op] -> op_action op = UNLOCK -> wf_stake_op op ->
    spent_backing L tx = list_to_set (map record_key (taken h (GetStakeRecords L (op_address op)) (op_amount op))) ->
    (let rest := stake_sum (taken h (GetStakeRecords L (op_address op)) (op_amount op)) - op_amount op in
     0 < rest -> pays_owner tx rest (AddressToScript (op_address op)) = true) ->
    unlock_effect verify L op h tx L' -> tx_effect h tx L L'.

Lemma process_outs_none h tx outs L snap :
  stake_ops outs = Some [] -> process_outs verify h tx outs L snap = (L, snap, true).
Proof.
  revert snap. induction outs as [|o outs IH]; intros snap E; [done|]. cbn [stake_ops process_outs] in *.
  destruct (starts_with STAKE_PREFIX _); cbn [negb] in *.
  - destruct (ParseCanonicalStakeOp _); [|done]. by destruct (stake_ops outs).
  - rewrite orb_true_r. by apply IH.
Qed.

Lemma stake_prefix_size data : starts_with STAKE_PREFIX data = true -> (size data =? 0) = false.
Proof. intros H. apply starts_with_inv in H. rewrite H. done. Qed.

Lemma process_outs_one h tx outs op L snap :
  stake_ops outs = Some [op] ->
  exists data, ParseCanonicalStakeOp data = Some op
  /\ forall L' snap', process_outs verify h tx outs L snap = (L', snap', true) ->
     ProcessStakeOp verify L data h tx = Some L'.
Proof.
  induction outs as [|o outs IH]; intros E; [done|]. cbn [stake_ops process_outs] in *.
  destruct (starts_with STAKE_PREFIX (ParseOpReturn (script_pubkey o))) eqn:Es; cbn [negb] in *.
  - destruct (ParseCanonicalStakeOp _) as [op'|] eqn:Ep; [|done].
    destruct (stake_ops outs) as [ops|] eqn:Eo; [|done]. injection E as -> ->.
    exists (ParseOpReturn (script_pubkey o)). split; [done|]. intros L' snap'.
    rewrite (stake_prefix_size _ Es). cbn [orb]. destruct (ProcessStakeOp _ _ _ _ _) as [L1|]; [|done].
    rewrite process_outs_none by done. by intros [= <- _].
  - rewrite orb_true_r. by apply IH.
Qed.

Lemma record_key_txid a b r s :
  tranche_ok a r -> tranche_ok b s -> record_key r = record_key s -> s_backing_txid r = s_backing_txid s.
Proof.
  intros [_ _ _ _ Hv [Hl Hb]] [_ _ _ _ Hv' [Hl' Hb']]. unfold record_key, OutpointKey, HashToHex. rewrite Hv, Hv'.
  intros E. apply app_inv_tail in E. by apply BytesToHex_inj in E.
Qed.

Lemma NoDup_record_keys a l :
  Forall (tranche_ok a) l -> NoDup (map s_backing_txid l) -> NoDup (map record_key l).
Proof.
  intros Hf. induction Hf as [|r l Hr Hf IH]; cbn [map]; [constructor|]. rewrite !NoDup_cons. intros [Hn Hd].
  split; [|by apply IH]. intros Hin. apply Hn. apply list_elem_of_fmap in Hin as (s & E & Hs).
  apply list_elem_of_fmap. exists s. split; [|done].
  eapply record_key_txid; [exact Hr| |exact E]. eapply Forall_forall; [exact Hf|exact Hs].
Qed.

Section Tx.
Context (L : t) (HL : ledger_inv L) (h : Z) (tx : Transaction) (Hh : 1 <= h).

Lemma taken_sub a n : Forall (tranche_ok a) (taken h (GetStakeRecords L a) n)
  /\ NoDup (map s_backing_txid (taken h (GetStakeRecords L a) n)).
Proof.
  pose proof (records_ok L HL a) as Hf. pose proof (taken_untouched h (GetStakeRecords L a) n) as Hp.
  pose proof (inv_keys _ HL) as Hk. rewrite (Permutation_map s_backing_txid (all_records_split L a)) in Hk.
  rewrite map_app, (Permutation_map s_backing_txid Hp), map_app in Hk. apply NoDup_app in Hk as (Hk & _).
  apply NoDup_app in Hk as (Hk & _). split; [|done]. rewrite Hp in Hf. by apply Forall_app in Hf as [? _].
Qed.

Lemma ValidateBackingSpend_effect snap L' snap' :
  ValidateBackingSpendLocked verify L tx h = true ->
  process_outs verify h tx (outputs tx) L snap = (L', snap', true) -> tx_effect h tx L L'.
Proof.
  unfold ValidateBackingSpendLocked. destruct (stake_ops (outputs tx)) as [ops|] eqn:Eo; [|done].
  intros HV HP. destruct ops as [|op [|op2 ops]]; cbn [length Nat.ltb Nat.leb] in HV.
  - rewrite process_outs_none in HP by done. injection HP as <- _. apply te_none; [done|]. by apply bool_decide_eq_true_1 in HV.
  - destruct (process_outs_one h tx _ op L snap Eo) as (data & Ep & Hrun). apply Hrun in HP. clear Hrun.
    pose proof (ParseCanonicalStakeOp_wf _ _ Ep) as Hw. unfold ProcessStakeOp in HP.
    rewrite Ep, (backing_on h Hh) in HP. destruct (_ || _) eqn:Eamt in HP; [done|].
    apply orb_false_iff in Eamt as [Ea _]. apply Z.eqb_neq in Ea.
    assert (Ha : 0 < op_amount op) by (destruct Hw as (_ & _ & [? _] & _); lia).
    destruct (_ || _) eqn:Esig in HV; [done|]. destruct (op_action op) eqn:Eact.
    + apply andb_true_iff in HV as [Hsp Hpay]. apply bool_decide_eq_true_1 in Hsp.
      destruct (Z.ltb_spec (op_amount op) (GetEffectiveMinStake L h)); [done|].
      eapply te_lock; [exact Eo|done..|]. by apply ProcessLock_effect.
    + pose proof (ProcessUnlock_effect verify L HL h tx Hh op L' Ha HP) as He.
      assert (Hin : stakes_ L !! op_address op <> None).
      { intros E. pose proof (ue_covered _ _ _ _ _ _ He) as Hc. unfold GetStakeRecords in Hc. rewrite E in Hc. cbn in Hc. lia. }
      rewrite (PlanUnlock_spec L HL h _ _ Ha Hin) in HV. cbn [plan_valid consumed residual_units] in HV.
      set (T := taken h (GetStakeRecords L (op_address op)) (op_amount op)) in *.
      destruct (taken_sub (op_address op) (op_amount op)) as [HT HN]. fold T in HT, HN.
      destruct (_ || _) eqn:Esz in HV; [done|]. apply orb_false_iff in Esz as [_ Esz].
      apply negb_false_iff, Nat.eqb_eq in Esz.
      destruct (forallb _ T) eqn:Eall; [|done]. cbn [negb] in HV. rewrite forallb_forall in Eall.
      apply (te_unlock h tx L op L' Eo Eact Hw); [| |exact He]; fold T.
      * symmetry. apply set_subseteq_size_eq.
        -- intros k Hk. apply elem_of_list_to_set, list_elem_of_fmap in Hk as (r & -> & Hr).
           apply list_elem_of_In, Eall in Hr. by apply bool_decide_eq_true_1 in Hr.
        -- rewrite size_list_to_set by (by apply (NoDup_record_keys (op_address op))). rewrite length_map. lia.
      * cbv zeta. intros Hrest. pose proof (ue_covered _ _ _ _ _ _ He) as Hc. fold T in Hc.
        destruct (Z.leb_spec (op_amount op) (stake_sum T)); [|lia].
        destruct (Z.gtb_spec (stake_sum T - op_amount op) 0); [done|lia].
  - done.
Qed.

Lemma tx_effect_inv L' : fresh_txid (GetTxID tx) (stakes_ L) -> tx_effect h tx L L' -> ledger_inv L'.
Proof.
  intros Hfr [_ _|op L1 _ Ea Hw _ _ He|op L1 _ _ _ _ _ He].
  - exact HL.
  - destruct Hw as (_ & _ & _ & Ht). rewrite Ea in Ht. exact (lock_inv verify L HL h tx op L1 Ht Hfr He).
  - exact (unlock_inv verify L HL h tx op L1 Hfr He).
Qed.

Lemma tx_effect_fresh txid L' :
  txid <> GetTxID tx -> fresh_txid txid (stakes_ L) -> tx_effect h tx L L' -> fresh_txid txid (stakes_ L').
Proof.
  intros Hne Hfr [_ _|op L1 _ _ _ _ _ He|op L1 _ _ _ _ _ He]; [done| |].
  - rewrite (le_result _ _ _ _ _ _ He). cbn [stakes_ with_stakes]. unfold fresh_txid. rewrite replace_records.
    unfold fresh_txid in Hfr. rewrite (all_records_split L (op_address op)) in Hfr. apply Forall_app in Hfr as [H1 H2].
    rewrite <- app_assoc. repeat (apply Forall_app; split); [done| |done]. constructor; [|constructor]. cbn. congruence.
  - destruct (ue_result _ _ _ _ _ _ He) as (kept & hist & Hp & _ & ->). cbn [stakes_ with_stakes].
    unfold fresh_txid in *. rewrite replace_records, Hp. rewrite (all_records_split L (op_address op)) in Hfr.
    set (recs := GetStakeRecords L (op_address op)) in *. set (n := op_amount op) in *.
    apply Forall_app in Hfr as [H1 H2]. rewrite (taken_untouched h recs n) in H1. apply Forall_app in H1 as [_ H1].
    repeat (apply Forall_app; split); [done| |done].
    eapply Forall_impl; [apply (residual_txid h (GetTxID tx) recs n)|]. intros r Hr. cbn in Hr. congruence.
Qed.
End Tx.

(** ** Blocks *)

Inductive txs_effect (h : Z) : list Transaction -> t -> t -> Prop :=
| tse_nil L : txs_effect h [] L L
| tse_cons tx txs L L1 L' : tx_effect h tx L L1 -> txs_effect h txs L1 L' -> txs_effect h (tx :: txs) L L'.

(** The transactions of the block are new to the ledger and to each other. *)
Definition fresh_txs (L : t) (txs : list Transaction) : Prop :=
  NoDup (map GetTxID txs) /\ Forall (fun tx => fresh_txid (GetTxID tx) (stakes_ L)) txs.

Lemma fresh_txs_step h tx txs L L1 :
  fresh_txs L (tx :: txs) -> tx_effect h tx L L1 -> fresh_txid (GetTxID tx) (stakes_ L) /\ fresh_txs L1 txs.
Proof.
  intros [Hd Hfr] HE. cbn [map] in Hd. apply NoDup_cons in Hd as [Hn Hd]. apply Forall_cons in Hfr as [Hf Hfr].
  split; [done|]. split; [done|]. rewrite Forall_forall in Hfr |- *. intros t' Hin.
  eapply tx_effect_fresh; [| |exact HE]; [|by apply Hfr].
  intros Eq. apply Hn. rewrite <- Eq. by apply list_elem_of_fmap_2.
Qed.

Lemma staking_txs_effect h txs L snap L' :
  1 <= h -> ledger_inv L -> fresh_txs L txs -> process_txs verify h txs L snap = (L', true) ->
  txs_effect h txs L L' /\ ledger_inv L'.
Proof.
  intros Hh. revert L snap. induction txs as [|tx txs IH]; intros L snap HL Hfr E; cbn [process_txs] in E.
  { injection E as <-. split; [constructor|done]. }
  rewrite (backing_on h Hh) in E. cbn [andb] in E.
  destruct (ValidateBackingSpendLocked verify L tx h) eqn:EV; [|done]. cbn [negb] in E.
  destruct (process_outs verify h tx (outputs tx) L snap) as [[L1 snap1] []] eqn:EP; [|done].
  apply (ValidateBackingSpend_effect L HL h tx Hh _ _ _ EV) in EP.
  destruct (fresh_txs_step h tx txs L L1 Hfr EP) as [Hf Hfr1].
  destruct (IH L1 snap1 (tx_effect_inv L HL h tx L1 Hf EP) Hfr1 E) as [H1 H2]. split; [by econstructor|done].
Qed.

Lemma with_pending_inv L x : ledger_inv L -> ledger_inv (with_pending L x).
Proof. by intros [? ? ? ? ?]. Qed.

Lemma ProcessBlock_effect L b L' :
  1 <= Block.height b -> ledger_inv L -> fresh_txs L (transactions b) -> ProcessBlock verify L b = (L', true) ->
  exists L1, txs_effect (Block.height b) (transactions b) L L1 /\ ledger_inv L1
  /\ (L' = L1 \/ L' = with_pending L1 (Block.height b)).
Proof.
  intros Hh HL Hfr. unfold ProcessBlock. destruct (process_txs _ _ _ _ _) as [L1 []] eqn:E; [|done]. intros [= <-].
  apply staking_txs_effect in E as [H1 H2]; [|done..]. exists L1. split; [done|]. split; [done|].
  destruct (_ && _); auto.
Qed.

(** ** Custody of one tranche *)

Definition spends (tx : Transaction) (key : bytes) : Prop :=
  Exists (fun i => OutpointKey (prev_tx_hash i) (prev_out_index i) = key) (inputs tx).

(** [tx] carries one staking marker, the UNLOCK of address [a], and [a] signed it. *)
Definition owner_unlock (tx : Transaction) (a : bytes) : Prop :=
  exists op, stake_ops (outputs tx) = Some [op] /\ op_action op = UNLOCK /\ op_address op = a /\ signed_by tx op.

Lemma in_all_records L a r : r ∈ GetStakeRecords L a -> r ∈ all_records (stakes_ L).
Proof. intros H. rewrite (all_records_split L a). apply elem_of_app. by left. Qed.

Lemma NoDup_map_inj {A B} (f : A -> B) l x y : NoDup (map f l) -> x ∈ l -> y ∈ l -> f x = f y -> x = y.
Proof.
  induction l as [|z l IH]; cbn [map]; [by intros _ ?%not_elem_of_nil|]. rewrite NoDup_cons, !elem_of_cons.
  intros [Hn Hd] [-> | Hx] [-> | Hy] E; [done| | |by apply IH].
  - exfalso. apply Hn. rewrite E. by apply list_elem_of_fmap_2.
  - exfalso. apply Hn. rewrite <- E. by apply list_elem_of_fmap_2.
Qed.

Lemma live_key_in L a r : ledger_inv L -> r ∈ GetStakeRecords L a -> record_key r ∈ GetActiveBackingOutpoints L.
Proof.
  intros HL Hr. unfold GetActiveBackingOutpoints, backed_records. apply elem_of_list_to_set, list_elem_of_fmap_2.
  apply list_elem_of_In, filter_In. split; [by apply list_elem_of_In, (in_all_records L a)|].
  eapply tranche_backed. eapply Forall_forall; [apply (records_ok L HL a)|exact Hr].
Qed.

Lemma spends_live L a r tx :
  ledger_inv L -> r ∈ GetStakeRecords L a -> spends tx (record_key r) <-> record_key r ∈ spent_backing L tx.
Proof.
  intros HL Hr. unfold spends, spent_backing. rewrite elem_of_list_to_set, list_elem_of_In, filter_In, in_map_iff.
  rewrite Exists_exists. setoid_rewrite list_elem_of_In. rewrite bool_decide_eq_true.
  pose proof (live_key_in L a r HL Hr).
  split; [intros (i & Hi & E); split; [|done]; by exists i|intros [(i & E & Hi) _]; by exists i].
Qed.

Section Custody.
Context (L : t) (HL : ledger_inv L) (h : Z) (tx : Transaction) (L' : t) (HE : tx_effect h tx L L').
Context (a : bytes) (r : StakeRecord) (Hr : r ∈ GetStakeRecords L a).

Lemma tx_effect_spent : spends tx (record_key r) -> s_unlock_height r <= h /\ owner_unlock tx a.
Proof.
  rewrite (spends_live L a r tx HL Hr). destruct HE as [_ Hs|op L1 _ _ _ Hs _ _|op L1 Eo Ea _ Hs _ He];
    rewrite Hs; [set_solver..|]. intros Hin.
  apply elem_of_list_to_set, list_elem_of_fmap in Hin as (s & Ek & Hin).
  pose proof (taken_sub L HL h (op_address op) (op_amount op)) as [HT _]. rewrite Forall_forall in HT.
  pose proof (records_ok L HL a) as Hf. rewrite Forall_forall in Hf.
  assert (Hs' : s ∈ GetStakeRecords L (op_address op)).
  { rewrite (taken_untouched h (GetStakeRecords L (op_address op)) (op_amount op)). apply elem_of_app. by left. }
  assert (r = s) as <-.
  { eapply (NoDup_map_inj s_backing_txid); [apply (inv_keys _ HL)|by apply (in_all_records L a)|
      by apply (in_all_records L (op_address op))|]. eapply record_key_txid; [by apply Hf|by apply HT|exact Ek]. }
  pose proof (taken_mature h (GetStakeRecords L (op_address op)) (op_amount op)) as Hm.
  rewrite Forall_forall in Hm. split; [by apply Hm|]. exists op. split; [done|]. split; [done|]. split.
  - rewrite <- (tok_address _ _ (HT _ Hin)). apply (tok_address _ _ (Hf _ Hr)).
  - apply (ue_signed _ _ _ _ _ _ He).
Qed.

Lemma tx_effect_keeps : ~ spends tx (record_key r) -> r ∈ GetStakeRecords L' a.
Proof.
  rewrite (spends_live L a r tx HL Hr). destruct HE as [_ _|op L1 _ _ _ _ _ He|op L1 _ _ _ Hs _ He]; [done| |].
  - intros _. rewrite (le_result _ _ _ _ _ _ He), (GetStakeRecords_replace L (op_address op) _ _ _ _ _ eq_refl).
    destruct (decide (a = op_address op)) as [<-|]; [|done]. apply elem_of_app. by left.
  - intros Hn. destruct (ue_result _ _ _ _ _ _ He) as (kept & hist & Hp & _ & ->).
    rewrite (GetStakeRecords_replace L (op_address op) _ _ _ _ _ eq_refl).
    destruct (decide (a = op_address op)) as [->|]; [|done]. rewrite Hp. apply elem_of_app. left.
    rewrite (taken_untouched h _ (op_amount op)) in Hr. apply elem_of_app in Hr as [Ht|]; [|done].
    exfalso. apply Hn. rewrite Hs. by apply elem_of_list_to_set, list_elem_of_fmap_2.
Qed.
End Custody.

Lemma txs_effect_custody h txs L L' a r :
  1 <= h -> ledger_inv L -> fresh_txs L txs -> txs_effect h txs L L' -> r ∈ GetStakeRecords L a ->
  (forall pre tx post, txs = pre ++ tx :: post -> Forall (fun t => ~ spends t (record_key r)) pre ->
     spends tx (record_key r) -> s_unlock_height r <= h /\ owner_unlock tx a)
  /\ (Forall (fun t => ~ spends t (record_key r)) txs -> r ∈ GetStakeRecords L' a).
Proof.
  intros Hh HL Hfr HE. revert HL Hfr. induction HE as [L|tx txs L L1 L' HE _ IH]; intros HL Hfr Hr.
  { split; [|done]. by intros [|? ?] ? ? ?. }
  destruct (fresh_txs_step h tx txs L L1 Hfr HE) as [Hf Hfr1].
  specialize (IH (tx_effect_inv L HL h tx L1 Hf HE) Hfr1). split.
  - intros [|t' pre] t0 post E Hpre Hsp; injection E as <- ->.
    + by apply (tx_effect_spent L HL h tx L1 HE a r).
    + apply Forall_cons in Hpre as [H1 Hpre]. apply IH with (pre := pre) (post := post); [|done..].
      by apply (tx_effect_keeps L HL h tx L1 HE).
  - intros Hall. apply Forall_cons in Hall as [H1 Hall]. apply IH; [|done].
    by apply (tx_effect_keeps L HL h tx L1 HE).
Qed.

(** ** Accounting *)

(** What a transaction adds to the stake of [a], by its staking marker. *)
Definition signed_amount (op : CanonicalStakeOp) : Z :=
  match op_action op with LOCK => op_amount op | UNLOCK => - op_amount op end.
Definition net_total (tx : Transaction) : Z :=
  match stake_ops (outputs tx) with Some [op] => signed_amount op | _ => 0 end.
Definition net_of (a : bytes) (tx : Transaction) : Z :=
  match stake_ops (outputs tx) with
  | Some [op] => if decide (op_address op = a) then signed_amount op else 0
  | _ => 0
  end.
Definition sumZ (l : list Z) : Z := foldr Z.add 0 l.

Lemma unlock_kept_sum L op h tx kept :
  ledger_inv L -> unlock_effect verify L op h tx kept ->
  stake_sum (GetStakeRecords kept (op_address op)) = stake_sum (GetStakeRecords L (op_address op)) - op_amount op.
Proof.
  intros HL He. destruct (ue_result _ _ _ _ _ _ He) as (k & hist & Hp & _ & ->).
  rewrite (GetStakeRecords_replace L (op_address op) _ _ _ _ _ eq_refl), decide_True by done.
  pose proof (ue_covered _ _ _ _ _ _ He). pose proof (ue_amount _ _ _ _ _ _ He).
  rewrite (stake_sum_perm _ _ Hp), stake_sum_app, (residual_sum (op_address op) h) by (try apply (records_ok L HL); lia).
  rewrite (stake_sum_perm _ _ (taken_untouched h (GetStakeRecords L (op_address op)) (op_amount op))), stake_sum_app. lia.
Qed.

Lemma tx_effect_net h tx L L' a :
  ledger_inv L -> tx_effect h tx L L' ->
  stake_sum (GetStakeRecords L' a) = stake_sum (GetStakeRecords L a) + net_of a tx
  /\ total_stake_ L' = total_stake_ L + net_total tx.
Proof.
  unfold net_of, net_total, signed_amount. intros HL [Eo _|op L1 Eo Ea _ _ _ He|op L1 Eo Ea _ _ _ He]; rewrite Eo.
  - lia.
  - rewrite Ea, (le_result _ _ _ _ _ _ He). split; [|done].
    rewrite (GetStakeRecords_replace L (op_address op) _ _ _ _ _ eq_refl).
    destruct (decide (a = op_address op)) as [->|Hn].
    + rewrite decide_True by done. rewrite stake_sum_app. cbn. lia.
    + rewrite decide_False by congruence. lia.
  - rewrite Ea. pose proof (unlock_kept_sum L op h tx L1 HL He) as Hk.
    destruct (ue_result _ _ _ _ _ _ He) as (kept & hist & _ & _ & ->). split; [|cbn; lia].
    destruct (decide (op_address op = a)) as [<-|Hn]; [lia|].
    rewrite (GetStakeRecords_replace L (op_address op) _ _ _ _ _ eq_refl), decide_False by congruence. lia.
Qed.

Lemma txs_effect_net h txs L L' a :
  ledger_inv L -> fresh_txs L txs -> txs_effect h txs L L' ->
  stake_sum (GetStakeRecords L' a) = stake_sum (GetStakeRecords L a) + sumZ (map (net_of a) txs)
  /\ total_stake_ L' = total_stake_ L + sumZ (map net_total txs).
Proof.
  intros HL Hfr HE. revert HL Hfr. induction HE as [L|tx txs L L1 L' HE _ IH]; intros HL Hfr; [cbn; lia|].
  destruct (fresh_txs_step h tx txs L L1 Hfr HE) as [Hf Hfr1]. destruct (tx_effect_net h tx L L1 a HL HE) as [H1 H2].
  destruct (IH (tx_effect_inv L HL h tx L1 Hf HE) Hfr1) as [H3 H4].
  unfold sumZ in *. cbn [map foldr]. lia.
Qed.

(** ** The retained minimum *)

(** The least effective minimum of a configuration, over all heights. *)
Definition stake_floor (L : t) : Z :=
  if min_stake_override_ L >? 0 then min_stake_override_ L else MIN_STAKE_UNITS / 2.

Definition floor_inv (L : t) : Prop :=
  forall a recs, stakes_ L !! a = Some recs -> stake_floor L <= stake_sum recs.

Lemma floor_le L h : stake_floor L <= GetEffectiveMinStake L h.
Proof.
  unfold stake_floor, GetEffectiveMinStake. destruct (_ >? _); [done|]. unfold MinimumStakeAtHeight.
  destruct (ProtocolUpgradeActive h); [done|]. vm_compute. discriminate.
Qed.

Lemma replace_floor L a l u n :
  floor_inv L -> (l <> [] -> stake_floor L <= stake_sum l) ->
  floor_inv (with_stakes L (replace_tranches (stakes_ L) a l) u n).
Proof.
  intros HF Hl b recs. cbn [stakes_ with_stakes]. rewrite replace_lookup.
  change (stake_floor (with_stakes L (replace_tranches (stakes_ L) a l) u n)) with (stake_floor L).
  destruct (decide (b = a)) as [->|_]; [|apply HF]. destruct l; [done|]. intros [= <-]. by apply Hl.
Qed.

Lemma tx_effect_floor h tx L L' : ledger_inv L -> floor_inv L -> tx_effect h tx L L' -> floor_inv L'.
Proof.
  intros HL HF [_ _|op L1 _ _ _ _ _ He|op L1 _ _ _ _ _ He]; [done| |].
  - rewrite (le_result _ _ _ _ _ _ He). apply replace_floor; [done|]. intros _.
    pose proof (floor_le L h). destruct (le_amount _ _ _ _ _ _ He). rewrite stake_sum_app.
    pose proof (stake_sum_nonneg _ _ (records_ok L HL (op_address op))).
    rewrite stake_sum_cons. cbn [new_tranche s_amount_units stake_sum foldr]. lia.
  - pose proof (unlock_kept_sum L op h tx L1 HL He) as Hk. pose proof (floor_le L h).
    pose proof (ue_minimum _ _ _ _ _ _ He) as Hm. cbv zeta in Hm.
    destruct (ue_result _ _ _ _ _ _ He) as (kept & hist & Hp & _ & ->).
    rewrite (GetStakeRecords_replace L (op_address op) _ _ _ _ _ eq_refl), decide_True in Hk by done.
    apply replace_floor; [done|]. intros Hne. destruct Hm as [Hz|Hm]; [|lia]. exfalso.
    assert (Hok : Forall (tranche_ok (op_address op)) kept).
    { pose proof (records_ok L HL (op_address op)) as Hf.
      rewrite (taken_untouched h _ (op_amount op)) in Hf. apply Forall_app in Hf as [_ Hu].
      rewrite Hp. apply Forall_app. split; [done|]. apply residual_ok; [apply GetTxID_hash|apply (records_ok L HL)]. }
    destruct Hok as [|r l Hr Hf]; [done|]. pose proof (tok_amount _ _ Hr). pose proof (stake_sum_nonneg _ _ Hf).
    rewrite stake_sum_cons in Hk. lia.
Qed.

Lemma txs_effect_floor h txs L L' :
  ledger_inv L -> fresh_txs L txs -> floor_inv L -> txs_effect h txs L L' -> floor_inv L'.
Proof.
  intros HL Hfr HF HE. revert HL Hfr HF. induction HE as [L|tx txs L L1 L' HE _ IH]; intros HL Hfr HF; [done|].
  destruct (fresh_txs_step h tx txs L L1 Hfr HE) as [Hf Hfr1].
  apply IH; [by apply (tx_effect_inv L HL h tx)|done|by apply (tx_effect_floor h tx L)].
Qed.

(** ** The slash lockup *)

Lemma extend_lockup_ok m a r : tranche_ok a r -> tranche_ok a (extend_lockup m r).
Proof.
  intros Hr. unfold extend_lockup. rewrite (tranche_backed _ _ Hr). cbn [negb]. destruct (_ <? _); [|done].
  by destruct Hr.
Qed.

Lemma extend_lockup_height m a r :
  tranche_ok a r -> s_unlock_height (extend_lockup m r) = Z.max (s_unlock_height r) m
  /\ record_key (extend_lockup m r) = record_key r.
Proof.
  intros Hr. unfold extend_lockup. rewrite (tranche_backed _ _ Hr). cbn [negb].
  destruct (Z.ltb_spec (s_unlock_height r) m); (split; [|done]); cbn; lia.
Qed.

Lemma extend_lockup_map m a l :
  Forall (tranche_ok a) l ->
  stake_sum (map (extend_lockup m) l) = stake_sum l
  /\ map s_backing_txid (map (extend_lockup m) l) = map s_backing_txid l.
Proof.
  induction 1 as [|r l Hr _ [IH1 IH2]]; [done|]. cbn [map]. rewrite !stake_sum_cons, IH1, IH2.
  unfold extend_lockup. rewrite (tranche_backed _ _ Hr). cbn [negb]. by destruct (_ <? _).
Qed.

Lemma slash_replace L a m :
  ledger_inv L -> is_Some (stakes_ L !! a) ->
  ApplySlashBondLockup L a m
  = with_stakes L (replace_tranches (stakes_ L) a (map (extend_lockup m) (GetStakeRecords L a)))
      (unstake_history_ L) (total_stake_ L).
Proof.
  intros HL [recs E]. unfold ApplySlashBondLockup, GetStakeRecords, replace_tranches. rewrite E.
  destruct (inv_tranches _ HL _ _ E) as [Hn _]. by destruct recs.
Qed.

Lemma slash_none L a m : stakes_ L !! a = None -> ApplySlashBondLockup L a m = L.
Proof. unfold ApplySlashBondLockup. by intros ->. Qed.

Lemma ApplySlashBondLockup_records L a m b :
  ledger_inv L ->
  GetStakeRecords (ApplySlashBondLockup L a m) b
  = if decide (b = a) then map (extend_lockup m) (GetStakeRecords L a) else GetStakeRecords L b.
Proof.
  intros HL. destruct (stakes_ L !! a) as [recs|] eqn:E.
  - rewrite (slash_replace L a m HL) by done. by rewrite (GetStakeRecords_replace L a _ _ _ _ _ eq_refl).
  - rewrite slash_none by done. destruct (decide (b = a)) as [->|]; [|done]. unfold GetStakeRecords. by rewrite E.
Qed.

Lemma ApplySlashBondLockup_inv L a m : ledger_inv L -> ledger_inv (ApplySlashBondLockup L a m).
Proof.
  intros HL. destruct (stakes_ L !! a) as [recs|] eqn:E; [|by rewrite slash_none].
  rewrite (slash_replace L a m HL) by done.
  destruct (extend_lockup_map m a (GetStakeRecords L a) (records_ok L HL a)) as [Hs Hk].
  apply replace_inv; [done| | | | |].
  - apply Forall_map. eapply Forall_impl; [apply (records_ok L HL a)|]. intros r. apply extend_lockup_ok.
  - rewrite Hs. apply (records_bound L HL).
  - rewrite Hs. lia.
  - congruence.
  - rewrite map_app, Hk, <- map_app, <- (Permutation_map s_backing_txid (all_records_split L a)). apply (inv_keys _ HL).
Qed.

Lemma ApplySlashBondLockup_floor L a m : ledger_inv L -> floor_inv L -> floor_inv (ApplySlashBondLockup L a m).
Proof.
  intros HL HF. destruct (stakes_ L !! a) as [recs|] eqn:E; [|by rewrite slash_none].
  rewrite (slash_replace L a m HL) by done.
  destruct (extend_lockup_map m a (GetStakeRecords L a) (records_ok L HL a)) as [Hs _].
  apply replace_floor; [done|]. intros _. rewrite Hs. unfold GetStakeRecords. rewrite E. by apply (HF a).
Qed.

(** ** Histories *)

(** A ledger with its node-set configuration and no stake. *)
Definition configured (activation override : Z) : t := SetMinStakeUnits (SetStakingActivationUnits Empty activation) override.

(** What happens to a ledger: blocks, accepted or refused, the lockup a slash imposes, the
    supply the node reports, and the distribution flag. *)
Inductive ledger_step : t -> t -> Prop :=
| ls_block L b L' ok :
    1 <= Block.height b -> fresh_txs L (transactions b) -> ProcessBlock verify L b = (L', ok) -> ledger_step L L'
| ls_slash L a m : ledger_step L (ApplySlashBondLockup L a m)
| ls_supply L units : ledger_step L (SetTotalSupply L units)
| ls_clear L : ledger_step L (ClearPendingDistribution L).

Lemma ledger_step_inv L L' : ledger_step L L' -> ledger_inv L -> floor_inv L -> ledger_inv L' /\ floor_inv L'.
Proof.
  intros [L0 b L1 ok Hh Hfr E|L0 a m|L0 u|L0] HL HF.
  - destruct ok; [|apply ProcessBlock_refused in E as ->; done].
    apply ProcessBlock_effect in E as (L2 & HE & HL2 & Hr); [|done..].
    pose proof (txs_effect_floor _ _ _ _ HL Hfr HF HE) as HF2.
    destruct Hr as [-> | ->]; [done|]. split; [by apply with_pending_inv|exact HF2].
  - split; [by apply ApplySlashBondLockup_inv|by apply ApplySlashBondLockup_floor].
  - split; [by destruct HL|exact HF].
  - split; [by destruct HL|exact HF].
Qed.

Lemma configured_inv act ovr : ledger_inv (configured act ovr) /\ floor_inv (configured act ovr).
Proof. split; [by destruct Empty_inv|]. intros a recs. cbn. by rewrite lookup_empty. Qed.

Lemma ledger_steps_inv L L' : rtc ledger_step L L' -> ledger_inv L -> floor_inv L -> ledger_inv L' /\ floor_inv L'.
Proof.
  induction 1 as [L|L L1 L' H1 _ IH]; [done|]. intros HL HF. destruct (ledger_step_inv _ _ H1 HL HF). by apply IH.
Qed.

Lemma staking_reachable_inv act ovr L : rtc ledger_step (configured act ovr) L -> ledger_inv L /\ floor_inv L.
Proof. intros H. destruct (configured_inv act ovr). by eapply ledger_steps_inv. Qed.

(** ** Exact totals *)

Lemma all_records_sum m : stake_sum (all_records m) = ledger_sum m.
Proof.
  induction m as [|a l m Hm IH] using map_ind; [unfold ledger_sum, all_records; by rewrite map_to_list_empty, map_fold_empty|].
  by rewrite ledger_sum_insert_new, (stake_sum_perm _ _ (all_records_insert_new m a l Hm)), stake_sum_app, IH.
Qed.

Lemma all_records_ok L : ledger_inv L -> Forall (fun r => exists a, tranche_ok a r) (all_records (stakes_ L)).
Proof.
  intros HL. unfold all_records. apply Forall_concat, Forall_map, Forall_forall. intros [a l] Hin. cbn.
  apply elem_of_map_to_list in Hin. eapply Forall_impl; [apply (inv_tranches _ HL _ _ Hin)|]. intros r Hr. by exists a.
Qed.

Lemma saturating_total_exact recs x :
  Forall (fun r => exists a, tranche_ok a r) recs -> 0 <= x -> x + stake_sum recs < 2 ^ 64 ->
  saturating_total recs x = x + stake_sum recs.
Proof.
  intros Hf. revert x. induction Hf as [|r l [a Hr] Hf IH]; intros x Hx Hs; [cbn; lia|].
  cbn [saturating_total]. rewrite stake_sum_cons in *. pose proof (tok_amount _ _ Hr).
  assert (0 <= stake_sum l).
  { clear -Hf. induction Hf as [|r l [a Hr] _ IH]; [done|]. rewrite stake_sum_cons. pose proof (tok_amount _ _ Hr). lia. }
  destruct (Z.gtb_spec x (UINT64_MAX - s_amount_units r)) as [Ho|_]; [unfold UINT64_MAX in Ho; lia|].
  rewrite IH by lia. lia.
Qed.

Lemma GetTotalStake_exact L : ledger_inv L -> GetTotalStake L = total_stake_ L.
Proof.
  intros HL. unfold GetTotalStake, backed_records. cbn [STAKE_OUTPOINT_BACKING_ACTIVATION_HEIGHT Z.eqb].
  fold (all_records (stakes_ L)). pose proof (all_records_ok L HL) as Hf. rewrite filter_all.
  - rewrite saturating_total_exact, all_records_sum, (inv_total _ HL); [done|done|done|].
    pose proof (inv_total_bound L HL) as Hb. rewrite all_records_sum, <- (inv_total _ HL).
    unfold MAX_VAULT_PAYOUT_STAKERS, MAX_TRANSACTION_OUTPUTS, VAULT_DISTRIBUTION_RESERVED_OUTPUTS, MAX_STAKE_UNITS,
      VELD_UNITS in Hb. lia.
  - eapply Forall_impl; [exact Hf|]. intros r [a Hr]. by eapply tranche_backed.
Qed.

(** ** The weighted snapshot *)

Definition weight_sum (recs : list StakeRecord) : Z :=
  sumZ (map (fun r => s_amount_units r * LockupTierMultiplierPpm (s_lockup_tier r) / 1000000) recs).

Lemma ppm_bounds t : 1000000 <= LockupTierMultiplierPpm t <= 1500000.
Proof. unfold LockupTierMultiplierPpm. repeat destruct (_ =? _); lia. Qed.

Lemma tranche_weight_bounds n t :
  0 < n -> n <= n * LockupTierMultiplierPpm t / 1000000 /\ 2 * (n * LockupTierMultiplierPpm t / 1000000) <= 3 * n.
Proof.
  intros Hn. pose proof (ppm_bounds t). set (p := LockupTierMultiplierPpm t) in *. split.
  - apply Z.div_le_lower_bound; nia.
  - pose proof (Z.mul_div_le (n * p) 1000000). nia.
Qed.

Lemma weight_sum_bounds a recs :
  Forall (tranche_ok a) recs -> stake_sum recs <= weight_sum recs /\ 2 * weight_sum recs <= 3 * stake_sum recs.
Proof.
  unfold weight_sum, sumZ. induction 1 as [|r l Hr _ IH]; [done|]. rewrite !stake_sum_cons. cbn [map foldr].
  pose proof (tranche_weight_bounds _ (s_lockup_tier r) (tok_amount _ _ Hr)). lia.
Qed.

Lemma weigh_exact a recs x :
  Forall (tranche_ok a) recs -> 0 <= x -> x + weight_sum recs < 2 ^ 64 -> weigh recs x = x + weight_sum recs.
Proof.
  intros Hf. revert x. induction Hf as [|r l Hr Hf IH]; intros x Hx Hs; [cbn; lia|]. cbn [weigh].
  rewrite (tranche_backed _ _ Hr). cbn [negb]. unfold tranche_weight. pose proof (tok_amount _ _ Hr).
  pose proof (tranche_weight_bounds _ (s_lockup_tier r) (tok_amount _ _ Hr)).
  pose proof (weight_sum_bounds a l Hf) as [Hw _]. pose proof (stake_sum_nonneg _ _ Hf).
  unfold weight_sum, sumZ in *. cbn [map foldr] in *.
  set (w := s_amount_units r * LockupTierMultiplierPpm (s_lockup_tier r) / 1000000) in *.
  rewrite wrap_id by (unfold fits; lia).
  destruct (Z.ltb_spec (UINT64_MAX - x) w) as [Ho|_]; [unfold UINT64_MAX in Ho; lia|]. rewrite IH by lia. lia.
Qed.

Lemma sorted_strict l : StronglySorted key_le l -> NoDup l -> StronglySorted (fun a b => lex_lt a b = true) l.
Proof.
  induction 1 as [|x l Hs IH Hf]; [constructor|]. rewrite NoDup_cons. intros [Hn Hd]. constructor; [by apply IH|].
  rewrite Forall_forall in Hf |- *. intros y Hy. specialize (Hf y Hy). unfold key_le in Hf.
  destruct (lex_lt x y) eqn:E; [done|]. exfalso. apply Hn. by rewrite (lex_lt_total x y E Hf).
Qed.

Lemma snapshot_keys L :
  ledger_inv L ->
  GetWeightedStakeSnapshot L
  = map (fun a => (a, weight_sum (GetStakeRecords L a))) (sort_hashes (map fst (map_to_list (stakes_ L)))).
Proof.
  intros HL. unfold GetWeightedStakeSnapshot.
  assert (Hin : Forall (fun a => stakes_ L !! a <> None) (sort_hashes (map fst (map_to_list (stakes_ L))))).
  { rewrite <- sort_hashes_perm. apply Forall_map, Forall_forall. intros [a l] H. cbn.
    apply elem_of_map_to_list in H. congruence. }
  induction Hin as [|a l Ha _ IH]; [done|]. cbn [omap list_omap map]. rewrite IH. clear IH.
  unfold GetStakeRecords. destruct (stakes_ L !! a) as [recs|] eqn:E; [|done].
  destruct (inv_tranches _ HL _ _ E) as [Hn Hf]. pose proof (inv_cap _ HL _ _ E) as Hc.
  pose proof (weight_sum_bounds a recs Hf) as [W1 W2]. unfold MAX_STAKE_UNITS, VELD_UNITS in Hc.
  rewrite (weigh_exact a) by (done || lia). rewrite Z.add_0_l.
  destruct (Z.gtb_spec (weight_sum recs) 0); [done|]. exfalso.
  destruct Hf as [|r l' Hr Hf]; [done|]. pose proof (tok_amount _ _ Hr). pose proof (stake_sum_nonneg _ _ Hf).
  rewrite stake_sum_cons in W1. lia.
Qed.
(** ** Acceptance *)

(** A block with one transaction that pays the owner at output zero and carries the
    marker [op] at output one. *)
Section Accept.
Context (L : t) (HL : ledger_inv L) (h : Z) (Hh : 1 <= h) (tx : Transaction) (hdr : BlockHeader).
Context (o0 o1 : TxOutput) (op : CanonicalStakeOp).
Context (Hout : outputs tx = [o0; o1]).
Context (H0 : starts_with STAKE_PREFIX (ParseOpReturn (script_pubkey o0)) = false).
Context (H1 : starts_with STAKE_PREFIX (ParseOpReturn (script_pubkey o1)) = true).
Context (Hop : ParseCanonicalStakeOp (ParseOpReturn (script_pubkey o1)) = Some op).
Context (Howner : AddressToScript (op_address op) = script_pubkey o0) (Hne : size (script_pubkey o0) <> 0).
Context (Hsig : TxInputMatchesAddress verify tx (op_address op) = true).
Context (Ha : 0 < op_amount op <= MAX_STAKE_UNITS).

Lemma accept_ops : stake_ops (outputs tx) = Some [op].
Proof. rewrite Hout. cbn [stake_ops]. rewrite H0, H1, Hop. reflexivity. Qed.

Lemma accept_block L' :
  ValidateBackingSpendLocked verify L tx h = true ->
  ProcessStakeOp verify L (ParseOpReturn (script_pubkey o1)) h tx = Some L' ->
  exists L2, ProcessBlock verify L (mkBlock hdr [tx] h) = (L2, true) /\ stakes_ L2 = stakes_ L'.
Proof.
  intros HV HP. unfold ProcessBlock. cbn [transactions Block.height process_txs].
  rewrite HV, andb_false_r, Hout. cbn [process_outs].
  rewrite H0, H1, orb_true_r, (stake_prefix_size _ H1). cbn [negb orb]. rewrite HP.
  eexists. split; [reflexivity|]. by destruct (_ && _).
Qed.

Lemma accept_lock :
  op_action op = LOCK -> spent_backing L tx = ∅ -> value o0 = op_amount op ->
  GetEffectiveMinStake L h <= op_amount op -> staking_activation_units_ L <= total_supply_units_ L ->
  stakes_ L !! op_address op = None -> Z.of_nat (base.size (stakes_ L)) < MAX_VAULT_PAYOUT_STAKERS ->
  u64 (h + nth (Z.to_nat (op_tier op - 1)) LOCKUP_TIERS 0) <= u64 (h + 10 * BLOCKS_PER_YEAR) ->
  exists L2, ProcessBlock verify L (mkBlock hdr [tx] h) = (L2, true)
    /\ stakes_ L2 = <[op_address op := [new_tranche op h tx]]> (stakes_ L).
Proof.
  intros Eact Hsp Hv Hmin Hsup Hfree Hroom Hu.
  destruct (accept_block (with_stakes L (<[op_address op := [new_tranche op h tx]]> (stakes_ L)) (unstake_history_ L)
    (total_stake_ L + op_amount op))) as (L2 & E & Es); [| |exists L2; split; [exact E|exact Es]].
  - unfold ValidateBackingSpendLocked, pays_owner. rewrite accept_ops, Hout, Howner, Hsig, Eact, Hsp, Hv. cbn [length Nat.ltb Nat.leb].
    destruct (Z.eqb_spec (size (script_pubkey o0)) 0); [done|]. cbn [orb negb].
    rewrite Z.eqb_refl. unfold bytes_eqb. by rewrite !bool_decide_true by done.
  - unfold ProcessStakeOp, ProcessLock. rewrite Hop, Eact, Hsig, (backing_on h Hh). cbn [negb].
    destruct (Z.eqb_spec (op_amount op) 0); [lia|].
    destruct (Z.gtb_spec (op_amount op) MAX_STAKE_UNITS); [lia|]. cbn [orb].
    destruct (Z.ltb_spec (op_amount op) (GetEffectiveMinStake L h)); [lia|].
    destruct (Z.ltb_spec (total_supply_units_ L) (staking_activation_units_ L)); [lia|].
    rewrite (proj2 (GetStake_pos L HL _) Hfree). rewrite Z.sub_0_r.
    destruct (Z.gtb_spec (op_amount op) MAX_STAKE_UNITS); [lia|].
    destruct (Z.gtb_spec (u64 (h + nth (Z.to_nat (op_tier op - 1)) LOCKUP_TIERS 0)) (u64 (h + 10 * BLOCKS_PER_YEAR))); [lia|].
    destruct (Z.leb_spec MAX_VAULT_PAYOUT_STAKERS (Z.of_nat (base.size (stakes_ L)))); [lia|]. cbn [orb andb Z.gtb Z.compare].
    pose proof (inv_total_bound L HL) as Hb.
    destruct (Z.gtb_spec (total_stake_ L) (UINT64_MAX - op_amount op)) as [Ho|_].
    { exfalso. unfold UINT64_MAX, MAX_VAULT_PAYOUT_STAKERS, MAX_TRANSACTION_OUTPUTS, VAULT_DISTRIBUTION_RESERVED_OUTPUTS,
        MAX_STAKE_UNITS, VELD_UNITS in *. lia. }
    cbn. unfold GetStakeRecords. rewrite Hfree. reflexivity.
Qed.

End Accept.
End Blocks.

(** ** Properties *)

(** C15: the staking ledger stays sound.  In every ledger reachable from a configured
    empty one by blocks (accepted or refused), slash lockups and supply updates: each
    address holds live tranches of its own, each backed by output zero of a distinct
    transaction; its stake is exactly their sum, at least the smallest minimum of the
    configuration and at most the per-address cap; the number of stakers never exceeds
    what one vault transaction can pay; and the tracked total, the recomputed total and
    the sum of all tranches agree, with no 64-bit overflow anywhere. *)
Theorem staking_ledger_sound verify activation override L :
  rtc (ledger_step verify) (configured activation override) L ->
  (forall a r, r ∈ GetStakeRecords L a ->
     s_address r = a /\ s_active r = true /\ 0 < s_amount_units r /\ 1 <= s_lockup_tier r <= 4 /\ s_backing_vout r = 0)
  /\ NoDup (map record_key (all_records (stakes_ L)))
  /\ (forall a, GetStake L a = stake_sum (GetStakeRecords L a) /\ GetStake L a <= MAX_STAKE_UNITS
                /\ (GetStake L a = 0 \/ stake_floor L <= GetStake L a))
  /\ Z.of_nat (base.size (stakes_ L)) <= MAX_VAULT_PAYOUT_STAKERS
  /\ GetTotalStake L = total_stake_ L
  /\ total_stake_ L = stake_sum (all_records (stakes_ L)) /\ fits 64 (total_stake_ L).
Proof.
  intros HR. destruct (staking_reachable_inv verify activation override L HR) as [HL HF]. split_and!.
  - intros a r Hr. pose proof (records_ok L HL a) as Hf. rewrite Forall_forall in Hf.
    destruct (Hf r Hr). done.
  - pose proof (all_records_ok L HL) as Hf. pose proof (inv_keys _ HL) as Hk.
    revert Hf Hk. generalize (all_records (stakes_ L)). clear. intros l.
    induction l as [|r l IH]; cbn [map]; [constructor|]. intros [[a Hr] Hf]%Forall_cons [Hn Hd]%NoDup_cons.
    apply NoDup_cons. split; [|by apply IH]. intros Hin. apply Hn.
    apply list_elem_of_fmap in Hin as (s & E & Hs). apply list_elem_of_fmap. exists s. split; [|done].
    rewrite Forall_forall in Hf. destruct (Hf s Hs) as [b Hb]. by apply (record_key_txid a b).
  - intros a. rewrite (GetStake_exact L HL). split; [done|]. split; [apply (records_bound L HL)|].
    unfold GetStakeRecords. destruct (stakes_ L !! a) as [recs|] eqn:E; [right; by apply (HF a)|by left].
  - apply (inv_size _ HL).
  - by apply GetTotalStake_exact.
  - by rewrite all_records_sum, (inv_total _ HL).
  - pose proof (inv_total_bound L HL) as Hb.
    unfold MAX_VAULT_PAYOUT_STAKERS, MAX_TRANSACTION_OUTPUTS, VAULT_DISTRIBUTION_RESERVED_OUTPUTS, MAX_STAKE_UNITS,
      VELD_UNITS in Hb. unfold fits. lia.
Qed.

(** C16: locked principal is in its owner's custody until it matures.  In an accepted
    block, the first transaction to spend the output that backs a tranche carries exactly
    one staking marker, an UNLOCK of the tranche's owner which the owner signed, at or
    after the tranche's unlock height; and a tranche whose output no transaction of the
    block spends is still in the ledger, unchanged, after it. *)
Theorem principal_custody verify activation override L b L' a r :
  rtc (ledger_step verify) (configured activation override) L ->
  1 <= Block.height b -> fresh_txs L (transactions b) ->
  ProcessBlock verify L b = (L', true) -> r ∈ GetStakeRecords L a ->
  (forall pre tx post, transactions b = pre ++ tx :: post ->
     Forall (fun t => ~ spends t (record_key r)) pre -> spends tx (record_key r) ->
     s_unlock_height r <= Block.height b /\ owner_unlock verify tx a)
  /\ (Forall (fun t => ~ spends t (record_key r)) (transactions b) -> r ∈ GetStakeRecords L' a).
Proof.
  intros HR Hh Hfr E Hr. destruct (staking_reachable_inv verify activation override L HR) as [HL _].
  apply ProcessBlock_effect in E as (L1 & HE & _ & Hres); [|done..].
  destruct (txs_effect_custody verify _ _ _ _ a r Hh HL Hfr HE Hr) as [H1 H2].
  split; [exact H1|]. intros Hno. destruct Hres as [-> | ->]; by apply H2.
Qed.

(** Stake accounting is exact.  An accepted block changes the stake of each address
    by precisely what the markers of its transactions lock and unlock for that address,
    changes the total by their sum, and leaves configuration and supply alone; the total
    never drops below zero and every partial withdrawal is paid for by the tranches it
    consumes. *)
Lemma stake_accounting verify activation override L b L' :
  rtc (ledger_step verify) (configured activation override) L ->
  1 <= Block.height b -> fresh_txs L (transactions b) -> ProcessBlock verify L b = (L', true) ->
  (forall a, GetStake L' a = GetStake L a + sumZ (map (net_of a) (transactions b)))
  /\ GetTotalStake L' = GetTotalStake L + sumZ (map net_total (transactions b))
  /\ 0 <= GetTotalStake L'.
Proof.
  intros HR Hh Hfr E. destruct (staking_reachable_inv verify activation override L HR) as [HL _].
  apply ProcessBlock_effect in E as (L1 & HE & HL1 & Hres); [|done..].
  assert (HL' : ledger_inv L') by (destruct Hres as [-> | ->]; [done|by apply with_pending_inv]).
  assert (Hsame : forall a, GetStakeRecords L' a = GetStakeRecords L1 a) by (destruct Hres as [-> | ->]; done).
  assert (Htot : total_stake_ L' = total_stake_ L1) by (destruct Hres as [-> | ->]; done).
  split; [|split].
  - intros a. rewrite (GetStake_exact L' HL'), (GetStake_exact L HL), Hsame.
    by apply (txs_effect_net verify _ _ _ _ a HL Hfr HE).
  - rewrite !GetTotalStake_exact, Htot by done. by apply (txs_effect_net verify _ _ _ _ [] HL Hfr HE).
  - rewrite GetTotalStake_exact by done. apply (inv_total_bound L' HL').
Qed.

(** A refused block leaves no trace.  Whatever the ledger and the block, when the
    transition answers [false] the ledger is the one it started from, so validation on a
    copy and application agree and a rejected block cannot move stake, history or the
    distribution flag. *)
Lemma staking_refusal_atomic verify L b L' :
  ProcessBlock verify L b = (L', false) -> L' = L /\ ValidateBlock verify L b = false.
Proof.
  intros E. split; [by apply (ProcessBlock_refused verify L b)|]. unfold ValidateBlock. by rewrite E.
Qed.

(** The vault is distributed by exact weights.  For every reachable ledger the
    weighted snapshot lists exactly the stakers, in strictly increasing address order,
    each with the sum over its tranches of amount times tier multiplier in integer parts
    per million, rounded down per tranche and never saturated; the weight lies between
    the stake and one and a half times the stake. *)
Lemma weighted_snapshot_exact verify activation override L :
  rtc (ledger_step verify) (configured activation override) L ->
  StronglySorted (fun a b => lex_lt a b = true) (map fst (GetWeightedStakeSnapshot L))
  /\ (forall a w, (a, w) ∈ GetWeightedStakeSnapshot L
        <-> GetStake L a <> 0 /\ w = weight_sum (GetStakeRecords L a))
  /\ (forall a w, (a, w) ∈ GetWeightedStakeSnapshot L -> GetStake L a <= w /\ 2 * w <= 3 * GetStake L a).
Proof.
  intros HR. destruct (staking_reachable_inv verify activation override L HR) as [HL _].
  assert (Hin : forall a w, (a, w) ∈ GetWeightedStakeSnapshot L
    <-> GetStake L a <> 0 /\ w = weight_sum (GetStakeRecords L a)).
  { intros a w. rewrite snapshot_keys by done. rewrite list_elem_of_fmap, (GetStake_pos L HL).
    setoid_rewrite <- sort_hashes_perm. setoid_rewrite list_elem_of_fmap. split.
    - intros (a' & [= -> ->] & ([a2 l] & Ea & Hl)). cbn in Ea. subst a2. apply elem_of_map_to_list in Hl.
      split; [congruence|done].
    - intros [Hn ->]. exists a. split; [done|]. destruct (stakes_ L !! a) as [l|] eqn:E; [|done].
      exists (a, l). split; [done|]. by apply elem_of_map_to_list. }
  split; [|split; [exact Hin|]].
  - rewrite snapshot_keys, map_map by done. cbn [fst]. rewrite map_id. apply sorted_strict; [apply sort_hashes_sorted|].
    rewrite <- sort_hashes_perm. apply NoDup_fst_map_to_list.
  - intros a w [_ ->]%Hin. rewrite (GetStake_exact L HL). by apply (weight_sum_bounds a), (records_ok L HL).
Qed.

(** ** A concrete run *)

(** One address locks 3000 coins. *)
Definition owner_script : bytes := AddressToScript auth_address.
Definition lock_marker : bytes := op_return_script (BuildLockOp auth_address (3000 * VELD_UNITS) 100 1).
Definition lock_op : CanonicalStakeOp := mkStakeOp LOCK auth_address (3000 * VELD_UNITS) 1.
Definition lock_tx : Transaction :=
  mkTx 1 [auth_input ZeroHash 0] [mkOutput (3000 * VELD_UNITS) owner_script; mkOutput 0 lock_marker] 0.
Definition lock_block : Block := mkBlock (mkHeader 1 ZeroHash ZeroHash 0 0 0) [lock_tx] 100.
Definition idle_block : Block := mkBlock (mkHeader 1 ZeroHash ZeroHash 0 0 0) [] 101.
Definition funded_ledger : t := SetTotalSupply (configured STAKING_UNLOCK_SUPPLY 0) STAKING_UNLOCK_SUPPLY.
Definition locked_tranche : StakeRecord := mkStake auth_address (3000 * VELD_UNITS) 100 3460 true 1 (GetTxID lock_tx) 0.

Lemma fresh_start tx : fresh_txs funded_ledger [tx].
Proof.
  split; [apply NoDup_singleton|]. constructor; [|constructor]. unfold fresh_txid, all_records.
  change (stakes_ funded_ledger) with (∅ : gmap bytes (list StakeRecord)). rewrite map_to_list_empty. constructor.
Qed.

Lemma funded_reachable csv : rtc (ledger_step csv) (configured STAKING_UNLOCK_SUPPLY 0) funded_ledger.
Proof. apply rtc_once, ls_supply. Qed.

Lemma funded_inv : ledger_inv funded_ledger.
Proof. eapply (staking_reachable_inv sample_verify STAKING_UNLOCK_SUPPLY 0), (funded_reachable sample_verify). Qed.

Lemma lock_run csv : accepts_sample csv -> exists L1, ProcessBlock csv funded_ledger lock_block = (L1, true)
  /\ stakes_ L1 = {[auth_address := [locked_tranche]]}.
Proof.
  intros Hcsv. destruct (accept_lock csv funded_ledger funded_inv 100 ltac:(lia) lock_tx (mkHeader 1 ZeroHash ZeroHash 0 0 0)
    (mkOutput (3000 * VELD_UNITS) owner_script) (mkOutput 0 lock_marker) lock_op) as (L1 & E & Es).
  - reflexivity.
  - vm_compute. reflexivity.
  - vm_compute. reflexivity.
  - vm_compute. reflexivity.
  - reflexivity.
  - vm_compute. discriminate.
  - apply (key_signs csv lock_tx ZeroHash 0); [exact Hcsv|apply is_hash_zero|done|reflexivity].
  - vm_compute. split; [reflexivity|discriminate].
  - reflexivity.
  - unfold spent_backing, GetActiveBackingOutpoints, backed_records.
    change (stakes_ funded_ledger) with (∅ : gmap bytes (list StakeRecord)). rewrite map_to_list_empty. reflexivity.
  - reflexivity.
  - vm_compute. discriminate.
  - vm_compute. discriminate.
  - reflexivity.
  - vm_compute. reflexivity.
  - vm_compute. discriminate.
  - exists L1. split; [exact E|]. rewrite Es. reflexivity.
Qed.

Lemma lock_step csv L1 : ProcessBlock csv funded_ledger lock_block = (L1, true) ->
  rtc (ledger_step csv) (configured STAKING_UNLOCK_SUPPLY 0) L1.
Proof.
  intros E. transitivity funded_ledger; [apply funded_reachable|]. apply rtc_once.
  apply (ls_block _ _ lock_block _ true); [by cbn|apply fresh_start|exact E].
Qed.

Lemma locked_records L1 : stakes_ L1 = {[auth_address := [locked_tranche]]} ->
  GetStakeRecords L1 auth_address = [locked_tranche] /\ GetStake L1 auth_address = 3000 * VELD_UNITS.
Proof.
  intros Es. unfold GetStakeRecords, GetStake. rewrite Es, lookup_singleton_eq. split; [reflexivity|].
  unfold sum_if, locked_tranche. generalize (GetTxID lock_tx). intros x. vm_compute. reflexivity.
Qed.

Lemma staking_ledger_sound_witness :
  exists L, GetStake L auth_address = 3000 * VELD_UNITS /\ GetTotalStake L = total_stake_ L.
Proof.
  destruct (lock_run sample_verify sample_verify_accepts) as (L1 & E1 & Es). exists L1. split; [apply (locked_records L1 Es)|].
  apply (staking_ledger_sound sample_verify STAKING_UNLOCK_SUPPLY 0 L1 (lock_step sample_verify L1 E1)).
Defined.

(** The tranche survives a block that does not spend its output. *)
Lemma principal_custody_witness :
  exists L L', ProcessBlock sample_verify L idle_block = (L', true) /\ locked_tranche ∈ GetStakeRecords L' auth_address.
Proof.
  destruct (lock_run sample_verify sample_verify_accepts) as (L1 & E1 & Es). exists L1, L1. split; [reflexivity|].
  refine (proj2 (principal_custody sample_verify STAKING_UNLOCK_SUPPLY 0 L1 idle_block L1 auth_address locked_tranche
    (lock_step sample_verify L1 E1) _ _ _ _) _).
  - cbn. lia.
  - split; constructor.
  - reflexivity.
  - rewrite (proj1 (locked_records L1 Es)). apply list_elem_of_singleton. reflexivity.
  - constructor.
Defined.

Lemma stake_accounting_witness :
  exists L1, ProcessBlock sample_verify funded_ledger lock_block = (L1, true)
    /\ GetStake L1 auth_address = GetStake funded_ledger auth_address + sumZ (map (net_of auth_address) [lock_tx]).
Proof.
  destruct (lock_run sample_verify sample_verify_accepts) as (L1 & E1 & Es). exists L1. split; [exact E1|].
  apply (stake_accounting sample_verify STAKING_UNLOCK_SUPPLY 0 funded_ledger lock_block L1 (funded_reachable sample_verify)
    ltac:(cbn; lia) (fresh_start lock_tx) E1).
Defined.

(** An UNLOCK at an address without stake is refused. *)
Lemma staking_refusal_atomic_witness :
  exists L', ProcessBlock sample_verify funded_ledger (mkBlock (mkHeader 1 ZeroHash ZeroHash 0 0 0)
    [mkTx 1 [] [mkOutput 0 (op_return_script (b:"VELD_STAKE|UNLOCK|V|5"))] 0] 100) = (L', false) /\ L' = funded_ledger.
Proof.
  eexists. split; [vm_compute; reflexivity|].
  refine (proj1 (staking_refusal_atomic sample_verify funded_ledger (mkBlock (mkHeader 1 ZeroHash ZeroHash 0 0 0)
    [mkTx 1 [] [mkOutput 0 (op_return_script (b:"VELD_STAKE|UNLOCK|V|5"))] 0] 100) _ _)). vm_compute. reflexivity.
Defined.

Lemma weighted_snapshot_exact_witness :
  exists L w, (auth_address, w) ∈ GetWeightedStakeSnapshot L /\ 2 * w <= 3 * GetStake L auth_address.
Proof.
  destruct (lock_run sample_verify sample_verify_accepts) as (L1 & E1 & Es).
  destruct (weighted_snapshot_exact sample_verify STAKING_UNLOCK_SUPPLY 0 L1 (lock_step sample_verify L1 E1)) as (_ & H & B).
  exists L1, (weight_sum (GetStakeRecords L1 auth_address)).
  assert (Hin : (auth_address, weight_sum (GetStakeRecords L1 auth_address)) ∈ GetWeightedStakeSnapshot L1).
  { apply H. split; [rewrite (proj2 (locked_records L1 Es)); discriminate|reflexivity]. }
  split; [exact Hin|]. apply (B _ _ Hin).
Defined.
