(* ===== verification/EndorsementWire.v ===== *)
(** * Endorsement markers ([consensus/endorsement_wire.h],
    [consensus/security_state_migration.h])

    The text a validator writes to endorse a block: the legacy form, and the form used
    from the state migration on, which names the endorsing address.  The parser is
    proved to accept exactly the texts the builders print. *)
From S2P Require Import Prelude Bytes Profile Transaction Address Marker FinalityState Validators.

Definition SECURITY_STATE_MIGRATION_HEIGHT : Z := PROTOCOL_UPGRADE_HEIGHT.

Definition SecurityStateMigrationActive (inclusion_height : Z) : bool :=
  negb (SECURITY_STATE_MIGRATION_HEIGHT =? 0) && (SECURITY_STATE_MIGRATION_HEIGHT <=? inclusion_height).

Definition NextInclusionHeight (tip : Z) : Z := if tip =? UINT64_MAX then UINT64_MAX else tip + 1.

Record EndorsementWire := mkWire {
  w_attributed : bool; w_height : Z; w_hash : bytes; w_address : bytes; w_signature : bytes }.

#[global] Instance EndorsementWire_eq_dec : EqDecision EndorsementWire.
Proof. solve_decision. Defined.

(** [EndorsementLowerHex(text, size)], the registry's [IsCanonicalLowerHex] on a view. *)
Definition EndorsementLowerHex (text : bytes) (n : Z) : bool := (size text =? n) && forallb is_lower_hex text.

Definition legacy_prefix : bytes := b:"VELD_VALIDATOR|ENDORSE|".
Definition current_prefix : bytes := b:"VELD_VALIDATOR|ENDORSE2|".

Definition HasEndorsementWirePrefix (data : bytes) : bool :=
  starts_with legacy_prefix data || starts_with current_prefix data.

(** The loop over the fields: exactly [count], the last without a separator. *)
Fixpoint wire_fields (count : nat) (data : bytes) : option (list bytes) :=
  match count with
  | O => Some []
  | S c =>
      match split_at PIPE data with
      | None => if (c =? 0)%nat then Some [data] else None
      | Some (f, data') =>
          if (c =? 0)%nat then None
          else match wire_fields c data' with Some fs => Some (f :: fs) | None => None end
      end
  end.

Definition ParseEndorsementWire (data : bytes) : option EndorsementWire :=
  let attributed := starts_with current_prefix data in
  if negb attributed && negb (starts_with legacy_prefix data) then None
  else
    let data := drop (length (if attributed then current_prefix else legacy_prefix)) data in
    match wire_fields (if attributed then 4 else 3) data with
    | None => None
    | Some fields =>
        let field i := nth i fields [] in
        let signature := field (if attributed then 3 else 2)%nat in
        match ParseCanonicalUint64Text (field 0%nat) with
        | None => None
        | Some h =>
            if negb (EndorsementLowerHex (field 1%nat) 64) || negb (EndorsementLowerHex signature 6618) then None
            else if attributed then
              let address := field 2%nat in
              if (size address =? 0) || (size address >? 64)
                 || negb (forallb (fun c => bool_decide (c ∈ B58)) address) then None
              else Some (mkWire true h (field 1%nat) address signature)
            else Some (mkWire false h (field 1%nat) [] signature)
        end
    end.

(** The two overloads of [BuildEndorseOp]. *)
Definition BuildLegacyEndorseOp (h : Z) (block_hash_hex sig_hex : bytes) : bytes :=
  legacy_prefix ++ to_string h ++ PIPE :: block_hash_hex ++ PIPE :: sig_hex.

Definition BuildEndorseOp (h : Z) (block_hash_hex sig_hex address : bytes) (inclusion_height : Z) : bytes :=
  if negb (SecurityStateMigrationActive inclusion_height) then BuildLegacyEndorseOp h block_hash_hex sig_hex
  else current_prefix ++ to_string h ++ PIPE :: block_hash_hex ++ PIPE :: address ++ PIPE :: sig_hex.

(** ** Lemmas *)

Definition wf_wire (w : EndorsementWire) : Prop :=
  fits 64 (w_height w) /\ EndorsementLowerHex (w_hash w) 64 = true
  /\ EndorsementLowerHex (w_signature w) 6618 = true
  /\ (if w_attributed w then 0 < size (w_address w) <= 64 /\ Forall (.∈ B58) (w_address w)
      else w_address w = []).

Definition wire_text (w : EndorsementWire) : bytes :=
  if w_attributed w
  then current_prefix ++ to_string (w_height w) ++ PIPE :: w_hash w ++ PIPE :: w_address w ++ PIPE :: w_signature w
  else BuildLegacyEndorseOp (w_height w) (w_hash w) (w_signature w).

Lemma lower_hex_no_pipe s n : EndorsementLowerHex s n = true -> PIPE ∉ s.
Proof.
  unfold EndorsementLowerHex. intros [_ H]%andb_true_iff Hin. rewrite forallb_forall in H.
  apply list_elem_of_In, H in Hin. discriminate Hin.
Qed.

Lemma b58_no_pipe s : Forall (.∈ B58) s -> PIPE ∉ s.
Proof.
  intros H Hin. rewrite Forall_forall in H. apply H in Hin. revert Hin.
  apply (bool_decide_unpack _). vm_compute. exact I.
Qed.

Lemma wire_fields_S c data :
  wire_fields (S c) data = match split_at PIPE data with
    | None => if (c =? 0)%nat then Some [data] else None
    | Some (f, data') => if (c =? 0)%nat then None
        else match wire_fields c data' with Some fs => Some (f :: fs) | None => None end
    end.
Proof. done. Qed.

(** The field loop splits at the separators and nowhere else. *)
Lemma wire_fields_iff n data fs :
  wire_fields (S n) data = Some fs
  <-> exists last init, fs = init ++ [last] /\ length init = n /\ PIPE ∉ last
      /\ Forall (fun f => PIPE ∉ f) init
      /\ data = foldr (fun f rest => f ++ [PIPE] ++ rest) last init.
Proof.
  revert data fs. induction n as [|n IH]; intros data fs; rewrite wire_fields_S.
  - destruct (split_at PIPE data) as [[a b]|] eqn:E; cbn [Nat.eqb].
    + split; [done|]. intros (last & init & _ & Hl & Hp & _ & ->). destruct init; [|done]. cbn in E.
      apply split_at_none in Hp. congruence.
    + apply split_at_none in E. split.
      * intros [= <-]. by exists data, [].
      * intros (last & init & -> & Hl & _ & _ & ->). by destruct init.
  - destruct (split_at PIPE data) as [[a b]|] eqn:E; cbn [Nat.eqb].
    + apply split_at_spec in E as [-> Ha]. split.
      * destruct (wire_fields (S n) b) as [fs'|] eqn:Ef; [|done]. intros [= <-].
        apply IH in Ef as (last & init & -> & Hl & H1 & H2 & ->).
        exists last, (a :: init). cbn [foldr app length]. rewrite Hl. split_and!; try done. by constructor.
      * intros (last & init & -> & Hl & H1 & H2 & Ed). destruct init as [|f init]; [done|].
        apply Forall_cons_1 in H2 as [Hf H2]. cbn [foldr] in Ed.
        assert (Es : Some (a, b) = Some (f, foldr (fun f rest => f ++ [PIPE] ++ rest) last init)).
        { rewrite <- (proj2 (split_at_spec PIPE (a ++ PIPE :: b) a b)) by done.
          rewrite Ed. apply split_at_spec. done. }
        injection Es as -> ->. injection Hl as Hl.
        rewrite (proj2 (IH _ (init ++ [last]))); [done|]. by exists last, init.
    + apply split_at_none in E. split; [done|]. intros (last & init & -> & Hl & H1 & H2 & ->).
      destruct init as [|f init]; [done|]. exfalso. apply E. cbn [foldr]. apply elem_of_app. right. left.
Qed.

Lemma drop_prefix (p s : bytes) : drop (length p) (p ++ s) = s.
Proof. apply drop_app_length. Qed.

Lemma legacy_not_current s : starts_with current_prefix (legacy_prefix ++ s) = false.
Proof.
  unfold starts_with, bytes_eqb. apply bool_decide_eq_false_2. intros E.
  apply (f_equal (fun l => nth 22 l 0)) in E. vm_compute in E. discriminate E.
Qed.

(** ** Round trip *)

Lemma parse_wire_text w : wf_wire w -> ParseEndorsementWire (wire_text w) = Some w.
Proof.
  destruct w as [at_ h hash addr sig]. intros (Hh & Hx & Hs & Ha).
  cbn [w_height w_hash w_signature w_attributed w_address] in *. unfold wire_text, BuildLegacyEndorseOp.
  cbn [w_height w_hash w_signature w_attributed w_address].
  assert (Hp : PIPE ∉ to_string h) by (apply digits_no_pipe; unfold fits in Hh; lia).
  pose proof (proj2 (ParseCanonicalUint64Text_iff _ h) (conj Hh eq_refl)) as Hn.
  unfold ParseEndorsementWire. destruct at_.
  - destruct Ha as [Hsz Hb]. rewrite starts_with_app. cbn [negb andb]. rewrite drop_prefix.
    rewrite (proj2 (wire_fields_iff 3 _ [to_string h; hash; addr; sig])).
    + cbn [nth]. rewrite Hn, Hx, Hs. cbn [negb orb].
      destruct (Z.eqb_spec (size addr) 0); [lia|]. destruct (Z.gtb_spec (size addr) 64); [lia|].
      cbn [orb]. replace (forallb _ addr) with true; [done|]. symmetry. apply forallb_forall.
      intros c Hc. apply bool_decide_eq_true_2. rewrite Forall_forall in Hb. by apply Hb, list_elem_of_In.
    + exists sig, [to_string h; hash; addr]. split_and!; [done|done|by eapply lower_hex_no_pipe| |].
      * repeat apply Forall_cons_2; [done|by eapply lower_hex_no_pipe|by apply b58_no_pipe|constructor].
      * done.
  - rewrite legacy_not_current, starts_with_app. cbn [negb andb]. rewrite drop_prefix.
    rewrite (proj2 (wire_fields_iff 2 _ [to_string h; hash; sig])).
    + cbn [nth]. by rewrite Hn, Hx, Hs, Ha.
    + exists sig, [to_string h; hash]. split_and!; [done|done|by eapply lower_hex_no_pipe| |done].
      repeat apply Forall_cons_2; [done|by eapply lower_hex_no_pipe|constructor].
Qed.

Lemma parse_wire_inv data w : ParseEndorsementWire data = Some w -> wf_wire w /\ data = wire_text w.
Proof.
  unfold ParseEndorsementWire. destruct (starts_with current_prefix data) eqn:Ec; cbn [negb andb].
  - apply starts_with_inv in Ec. set (rest := drop (length current_prefix) data) in *.
    destruct (wire_fields 4 rest) as [fs|] eqn:Ef; [|done].
    apply wire_fields_iff in Ef as (last & init & -> & Hl & Hp & Hi & Er).
    destruct init as [|f0 [|f1 [|f2 [|? ?]]]]; try done. cbn [nth app foldr] in *.
    destruct (ParseCanonicalUint64Text f0) as [h|] eqn:En; [|done].
    apply ParseCanonicalUint64Text_iff in En as [Hh ->].
    destruct (EndorsementLowerHex f1 64) eqn:E1; [|done]. destruct (EndorsementLowerHex last 6618) eqn:E2; [|done].
    cbn [negb orb]. destruct (Z.eqb_spec (size f2) 0); [done|]. destruct (Z.gtb_spec (size f2) 64); [done|].
    cbn [orb]. destruct (forallb _ f2) eqn:E3; [|done]. intros [= <-].
    split; [|by rewrite Ec, Er]. unfold wf_wire. cbn [w_height w_hash w_signature w_attributed w_address].
    split_and!; try done; [pose proof (size_nonneg f2); lia|]. apply Forall_forall. intros c Hc.
    rewrite forallb_forall in E3. by apply list_elem_of_In, E3, bool_decide_eq_true_1 in Hc.
  - destruct (starts_with legacy_prefix data) eqn:El; [|done]. cbn [negb]. apply starts_with_inv in El.
    set (rest := drop (length legacy_prefix) data) in *.
    destruct (wire_fields 3 rest) as [fs|] eqn:Ef; [|done].
    apply wire_fields_iff in Ef as (last & init & -> & Hl & Hp & Hi & Er).
    destruct init as [|f0 [|f1 [|? ?]]]; try done. cbn [nth app foldr] in *.
    destruct (ParseCanonicalUint64Text f0) as [h|] eqn:En; [|done].
    apply ParseCanonicalUint64Text_iff in En as [Hh ->].
    destruct (EndorsementLowerHex f1 64) eqn:E1; [|done]. destruct (EndorsementLowerHex last 6618) eqn:E2; [|done].
    intros [= <-]. split; [done|]. by rewrite El, Er.
Qed.

Lemma BuildEndorseOp_text h hash sig addr ih :
  BuildEndorseOp h hash sig addr ih
  = let a := SecurityStateMigrationActive ih in wire_text (mkWire a h hash (if a then addr else []) sig).
Proof. unfold BuildEndorseOp, wire_text. by destruct (SecurityStateMigrationActive ih). Qed.

(** The endorsement grammar is exact.  The parser accepts a marker exactly when
    it is the canonical text of a well-formed endorsement, so no two texts mean the
    same endorsement and no text means two; and what a builder prints for an inclusion
    height parses back, attributed exactly from the state migration on. *)
Lemma endorsement_wire_exact data w h hash sig addr ih :
  (ParseEndorsementWire data = Some w <-> wf_wire w /\ data = wire_text w)
  /\ (fits 64 h -> EndorsementLowerHex hash 64 = true -> EndorsementLowerHex sig 6618 = true ->
      0 < size addr <= 64 -> Forall (.∈ B58) addr ->
      exists w', ParseEndorsementWire (BuildEndorseOp h hash sig addr ih) = Some w'
        /\ w_attributed w' = SecurityStateMigrationActive ih
        /\ w_height w' = h /\ w_hash w' = hash /\ w_signature w' = sig).
Proof.
  split.
  - split; [apply parse_wire_inv|]. intros [Hw ->]. by apply parse_wire_text.
  - intros Hh Hx Hs Ha Hb. rewrite BuildEndorseOp_text. cbv zeta.
    eexists. split; [apply parse_wire_text|done]. unfold wf_wire. cbn [w_height w_hash w_signature w_attributed w_address].
    split_and!; try done. by destruct (SecurityStateMigrationActive ih).
Qed.

Lemma endorsement_wire_exact_witness :
  exists w', ParseEndorsementWire (BuildEndorseOp 5000 (replicate 64 97) (replicate 6618 48) (b:"VVzm6RG8W1t3U9") 5001) = Some w'
    /\ w_attributed w' = true.
Proof.
  destruct (endorsement_wire_exact [] (mkWire false 0 [] [] []) 5000 (replicate 64 97) (replicate 6618 48)
    (b:"VVzm6RG8W1t3U9") 5001) as [_ H].
  destruct H as (w' & H1 & H2 & _).
  - unfold fits. lia.
  - vm_compute. reflexivity.
  - vm_compute. reflexivity.
  - vm_compute. split; [reflexivity|discriminate].
  - apply (bool_decide_unpack _). vm_compute. exact I.
  - exists w'. split; [exact H1|exact H2].
Defined.
