(* ===== verification/ValidatorOps.v ===== *)
(** * Validator operations ([consensus/validators.h])

    The registry's block transition: the marker operations REGISTER, DEREGISTER, SLASH,
    SLASH_EQUIV and ENDORSE, the endorsement-pool tracking, the settlement of principals,
    the pruning passes, and [ProcessBlock], which stages a block that carries a funded
    registration and commits it only as a whole.

    A handler that returns without effect is [None].  The staking ledger is a type with
    its two callbacks; ML-DSA-65 is the verifier parameter of [OpAuthorization]. *)
From S2P Require Import Prelude Bytes Sha256 Ripemd160 Profile Transaction Block Address OpAuthorization.
From S2P Require Import Marker Coinbase StateDigest FinalityQc FinalitySnapshot FinalityState.
From S2P Require Import Validators BondYield EndorsementWire.

(** ** Field updates *)

Definition SetTotalStaked (r : ValidatorRegistry) (x : Z) : ValidatorRegistry :=
  mkRegistry x (min_validator_stake_override_ r) (validators_ r) (address_to_pubkey_ r)
    (endorsements_ r) (endorsement_keys_ r) (endorsement_pool_outpoints_ r)
    (last_canonical_endorsement_flush_height_ r) (last_op_height_ r) (bond_yield_escrow_ r)
    (slashed_evidence_ r) (slashed_evidence_keys_ r) (evidence_per_pubkey_ r) (slashed_pubkeys_ r)
    (finality_membership_ r) (finality_equivocations_ r) (security_upgrade_active_ r)
    (state_migration_active_ r).
Definition set_index (r : ValidatorRegistry) (x : gmap bytes bytes) : ValidatorRegistry :=
  mkRegistry (total_staked_units_ r) (min_validator_stake_override_ r) (validators_ r) x
    (endorsements_ r) (endorsement_keys_ r) (endorsement_pool_outpoints_ r)
    (last_canonical_endorsement_flush_height_ r) (last_op_height_ r) (bond_yield_escrow_ r)
    (slashed_evidence_ r) (slashed_evidence_keys_ r) (evidence_per_pubkey_ r) (slashed_pubkeys_ r)
    (finality_membership_ r) (finality_equivocations_ r) (security_upgrade_active_ r)
    (state_migration_active_ r).
Definition set_endorsements (r : ValidatorRegistry) (x : gmap Z (list EndorsementRecord)) : ValidatorRegistry :=
  mkRegistry (total_staked_units_ r) (min_validator_stake_override_ r) (validators_ r)
    (address_to_pubkey_ r) x (endorsement_keys_ r) (endorsement_pool_outpoints_ r)
    (last_canonical_endorsement_flush_height_ r) (last_op_height_ r) (bond_yield_escrow_ r)
    (slashed_evidence_ r) (slashed_evidence_keys_ r) (evidence_per_pubkey_ r) (slashed_pubkeys_ r)
    (finality_membership_ r) (finality_equivocations_ r) (security_upgrade_active_ r)
    (state_migration_active_ r).
Definition set_endorsement_keys (r : ValidatorRegistry) (x : gset bytes) : ValidatorRegistry :=
  mkRegistry (total_staked_units_ r) (min_validator_stake_override_ r) (validators_ r)
    (address_to_pubkey_ r) (endorsements_ r) x (endorsement_pool_outpoints_ r)
    (last_canonical_endorsement_flush_height_ r) (last_op_height_ r) (bond_yield_escrow_ r)
    (slashed_evidence_ r) (slashed_evidence_keys_ r) (evidence_per_pubkey_ r) (slashed_pubkeys_ r)
    (finality_membership_ r) (finality_equivocations_ r) (security_upgrade_active_ r)
    (state_migration_active_ r).
Definition set_pool_outpoints (r : ValidatorRegistry) (x : gset bytes) : ValidatorRegistry :=
  mkRegistry (total_staked_units_ r) (min_validator_stake_override_ r) (validators_ r)
    (address_to_pubkey_ r) (endorsements_ r) (endorsement_keys_ r) x
    (last_canonical_endorsement_flush_height_ r) (last_op_height_ r) (bond_yield_escrow_ r)
    (slashed_evidence_ r) (slashed_evidence_keys_ r) (evidence_per_pubkey_ r) (slashed_pubkeys_ r)
    (finality_membership_ r) (finality_equivocations_ r) (security_upgrade_active_ r)
    (state_migration_active_ r).
Definition set_flush_height (r : ValidatorRegistry) (x : Z) : ValidatorRegistry :=
  mkRegistry (total_staked_units_ r) (min_validator_stake_override_ r) (validators_ r)
    (address_to_pubkey_ r) (endorsements_ r) (endorsement_keys_ r) (endorsement_pool_outpoints_ r) x
    (last_op_height_ r) (bond_yield_escrow_ r) (slashed_evidence_ r) (slashed_evidence_keys_ r)
    (evidence_per_pubkey_ r) (slashed_pubkeys_ r) (finality_membership_ r)
    (finality_equivocations_ r) (security_upgrade_active_ r) (state_migration_active_ r).
Definition set_last_op (r : ValidatorRegistry) (x : gmap bytes Z) : ValidatorRegistry :=
  mkRegistry (total_staked_units_ r) (min_validator_stake_override_ r) (validators_ r)
    (address_to_pubkey_ r) (endorsements_ r) (endorsement_keys_ r) (endorsement_pool_outpoints_ r)
    (last_canonical_endorsement_flush_height_ r) x (bond_yield_escrow_ r) (slashed_evidence_ r)
    (slashed_evidence_keys_ r) (evidence_per_pubkey_ r) (slashed_pubkeys_ r) (finality_membership_ r)
    (finality_equivocations_ r) (security_upgrade_active_ r) (state_migration_active_ r).
Definition set_escrow (r : ValidatorRegistry) (x : gmap bytes (list BondYieldTranche)) : ValidatorRegistry :=
  mkRegistry (total_staked_units_ r) (min_validator_stake_override_ r) (validators_ r)
    (address_to_pubkey_ r) (endorsements_ r) (endorsement_keys_ r) (endorsement_pool_outpoints_ r)
    (last_canonical_endorsement_flush_height_ r) (last_op_height_ r) x (slashed_evidence_ r)
    (slashed_evidence_keys_ r) (evidence_per_pubkey_ r) (slashed_pubkeys_ r) (finality_membership_ r)
    (finality_equivocations_ r) (security_upgrade_active_ r) (state_migration_active_ r).
Definition set_evidence (r : ValidatorRegistry) (x : list SlashEvidence) : ValidatorRegistry :=
  mkRegistry (total_staked_units_ r) (min_validator_stake_override_ r) (validators_ r)
    (address_to_pubkey_ r) (endorsements_ r) (endorsement_keys_ r) (endorsement_pool_outpoints_ r)
    (last_canonical_endorsement_flush_height_ r) (last_op_height_ r) (bond_yield_escrow_ r) x
    (slashed_evidence_keys_ r) (evidence_per_pubkey_ r) (slashed_pubkeys_ r) (finality_membership_ r)
    (finality_equivocations_ r) (security_upgrade_active_ r) (state_migration_active_ r).
Definition set_evidence_keys (r : ValidatorRegistry) (x : gset bytes) : ValidatorRegistry :=
  mkRegistry (total_staked_units_ r) (min_validator_stake_override_ r) (validators_ r)
    (address_to_pubkey_ r) (endorsements_ r) (endorsement_keys_ r) (endorsement_pool_outpoints_ r)
    (last_canonical_endorsement_flush_height_ r) (last_op_height_ r) (bond_yield_escrow_ r)
    (slashed_evidence_ r) x (evidence_per_pubkey_ r) (slashed_pubkeys_ r) (finality_membership_ r)
    (finality_equivocations_ r) (security_upgrade_active_ r) (state_migration_active_ r).
Definition set_evidence_counts (r : ValidatorRegistry) (x : gmap bytes Z) : ValidatorRegistry :=
  mkRegistry (total_staked_units_ r) (min_validator_stake_override_ r) (validators_ r)
    (address_to_pubkey_ r) (endorsements_ r) (endorsement_keys_ r) (endorsement_pool_outpoints_ r)
    (last_canonical_endorsement_flush_height_ r) (last_op_height_ r) (bond_yield_escrow_ r)
    (slashed_evidence_ r) (slashed_evidence_keys_ r) x (slashed_pubkeys_ r) (finality_membership_ r)
    (finality_equivocations_ r) (security_upgrade_active_ r) (state_migration_active_ r).
Definition set_slashed_pubkeys (r : ValidatorRegistry) (x : gset bytes) : ValidatorRegistry :=
  mkRegistry (total_staked_units_ r) (min_validator_stake_override_ r) (validators_ r)
    (address_to_pubkey_ r) (endorsements_ r) (endorsement_keys_ r) (endorsement_pool_outpoints_ r)
    (last_canonical_endorsement_flush_height_ r) (last_op_height_ r) (bond_yield_escrow_ r)
    (slashed_evidence_ r) (slashed_evidence_keys_ r) (evidence_per_pubkey_ r) x
    (finality_membership_ r) (finality_equivocations_ r) (security_upgrade_active_ r)
    (state_migration_active_ r).
Definition set_equivocations (r : ValidatorRegistry) (x : gmap bytes FinalityEquivocationRecord) : ValidatorRegistry :=
  mkRegistry (total_staked_units_ r) (min_validator_stake_override_ r) (validators_ r)
    (address_to_pubkey_ r) (endorsements_ r) (endorsement_keys_ r) (endorsement_pool_outpoints_ r)
    (last_canonical_endorsement_flush_height_ r) (last_op_height_ r) (bond_yield_escrow_ r)
    (slashed_evidence_ r) (slashed_evidence_keys_ r) (evidence_per_pubkey_ r) (slashed_pubkeys_ r)
    (finality_membership_ r) x (security_upgrade_active_ r) (state_migration_active_ r).
Definition set_upgrade_active (r : ValidatorRegistry) (x : bool) : ValidatorRegistry :=
  mkRegistry (total_staked_units_ r) (min_validator_stake_override_ r) (validators_ r)
    (address_to_pubkey_ r) (endorsements_ r) (endorsement_keys_ r) (endorsement_pool_outpoints_ r)
    (last_canonical_endorsement_flush_height_ r) (last_op_height_ r) (bond_yield_escrow_ r)
    (slashed_evidence_ r) (slashed_evidence_keys_ r) (evidence_per_pubkey_ r) (slashed_pubkeys_ r)
    (finality_membership_ r) (finality_equivocations_ r) x (state_migration_active_ r).
Definition set_migration_active (r : ValidatorRegistry) (x : bool) : ValidatorRegistry :=
  mkRegistry (total_staked_units_ r) (min_validator_stake_override_ r) (validators_ r)
    (address_to_pubkey_ r) (endorsements_ r) (endorsement_keys_ r) (endorsement_pool_outpoints_ r)
    (last_canonical_endorsement_flush_height_ r) (last_op_height_ r) (bond_yield_escrow_ r)
    (slashed_evidence_ r) (slashed_evidence_keys_ r) (evidence_per_pubkey_ r) (slashed_pubkeys_ r)
    (finality_membership_ r) (finality_equivocations_ r) (security_upgrade_active_ r) x.
(** ** Constants and text *)

Definition VALIDATOR_SYSTEM_ALWAYS_ACTIVE : bool := false.
Definition BATCH1_HARDENING_HEIGHT : Z := 0.
Definition MAX_SLASHED_EVIDENCE : Z := 50000.
Definition MAX_EVIDENCE_PER_PUBKEY : Z := 10.
Definition MAX_ENDORSEMENT_VERIFICATIONS_PER_BLOCK : Z := 256.
Definition BTCVELD_FINALITY_WINDOW : Z := 7 * BLOCKS_PER_DAY.
Definition ENDORSEMENT_RETENTION_BLOCKS : Z :=
  if BTCVELD_FINALITY_WINDOW >? 10000 then BTCVELD_FINALITY_WINDOW else 10000.
Definition VAL_PREFIX : bytes := b:"VELD_VALIDATOR|".

Definition RegistrationFloorPermits (below_floor : bool) (action : bytes) (inclusion_height : Z) : bool :=
  ValidatorRegistrationForkActive inclusion_height || negb below_floor
  || (ConsensusSecurityUpgradeActive inclusion_height && negb (bytes_eqb action (b:"REGISTER"))).

Definition IsValidatorSystemActive (reg : ValidatorRegistry) (h : Z) : bool :=
  if VALIDATOR_SYSTEM_ALWAYS_ACTIVE || ValidatorRegistrationForkActive h then true
  else VALIDATOR_UNLOCK_STAKED <=? total_staked_units_ reg.

Definition GetEffectiveMinStake (reg : ValidatorRegistry) : Z :=
  if min_validator_stake_override_ reg >? 0 then min_validator_stake_override_ reg else MIN_VALIDATOR_STAKE.

(** [std::getline] with a delimiter: a final piece counts only if it is not empty. *)
Fixpoint getline_loop (delim : Z) (cur s : bytes) : list bytes :=
  match s with
  | [] => if size cur =? 0 then [] else [cur]
  | c :: s' => if c =? delim then cur :: getline_loop delim [] s' else getline_loop delim (cur ++ [c]) s'
  end.
Definition Split (s : bytes) (delim : Z) : list bytes := getline_loop delim [] s.

(** [std::count] *)
Definition count_char (c : Z) (s : bytes) : Z := size (List.filter (Z.eqb c) s).

Definition is_hex (c : Z) : bool := is_lower_hex c || ((65 <=? c) && (c <=? 70)).
Definition IsExactHex (s : bytes) (exact_size : Z) : bool := (size s =? exact_size) && forallb is_hex s.

Definition CanonicalHex (s : bytes) : bytes :=
  map (fun c => if (65 <=? c) && (c <=? 70) then c - 65 + 97 else c) s.

(** [HexToHash] of [core/hash.h]: missing or foreign digits read as zero. *)
Definition hc (c : Z) : Z := if nibble c <? 0 then 0 else nibble c.
Definition HexToHash (hex : bytes) : Hash256 :=
  map (fun i => if (i * 2 + 1 <? length hex)%nat
                then u8 (Z.lor (Z.shiftl (hc (at_ hex (i * 2))) 4) (hc (at_ hex (i * 2 + 1)))) else 0)
    (seq 0 32).

(** The registry's own OP_RETURN decoder: minimal pushes only, nothing after them. *)
Definition ParseOpReturn (script : bytes) : bytes :=
  if (size script <? 2) || negb (at_ script 0 =? 0x6A) then []
  else
    let payload (offset : nat) (len : Z) :=
      if (len >? size script - Z.of_nat offset) || negb (Z.of_nat offset + len =? size script) then []
      else take (Z.to_nat len) (drop offset script) in
    let push := at_ script 1 in
    if push <=? 75 then payload 2%nat push
    else if push =? 0x4C then
      if size script <=? 2 then []
      else let len := at_ script 2 in if len <=? 75 then [] else payload 3%nat len
    else if push =? 0x4D then
      if 2 + 2 >? size script then []
      else let len := Z.lor (at_ script 2) (Z.shiftl (at_ script 3) 8) in
           if len <=? 0xFF then [] else payload 4%nat len
    else [].

Definition EndorsementFieldCommitment (domain canonical_hex : bytes) : bytes :=
  HashToHex (sha256_domain domain canonical_hex).

(** ** Structural checks of a block *)

Definition action_of (data : bytes) : bytes :=
  let rest := drop (length VAL_PREFIX) data in
  match split_at PIPE rest with Some (action, _) => action | None => rest end.

Definition is_endorse_action (action : bytes) : bool :=
  bytes_eqb action (b:"ENDORSE") || bytes_eqb action (b:"ENDORSE2").

(** The loop over one transaction's outputs: the endorsement count after it. *)
Fixpoint multiplicity_outs (migrated : bool) (outs : list TxOutput) (registrations endorsements : Z)
  : option Z :=
  match outs with
  | [] => Some endorsements
  | o :: outs' =>
      let data := ParseOpReturn (script_pubkey o) in
      if negb (starts_with VAL_PREFIX data) then multiplicity_outs migrated outs' registrations endorsements
      else
        let action := action_of data in
        let registrations := if bytes_eqb action (b:"REGISTER") then registrations + 1 else registrations in
        if bytes_eqb action (b:"REGISTER") && (registrations >? 1) then None
        else
          let endorsing := migrated && is_endorse_action action in
          let endorsements := if endorsing then endorsements + 1 else endorsements in
          if endorsing && (endorsements >? MAX_ENDORSEMENT_VERIFICATIONS_PER_BLOCK) then None
          else multiplicity_outs migrated outs' registrations endorsements
  end.

Fixpoint multiplicity_txs (migrated : bool) (txs : list Transaction) (endorsements : Z) : bool :=
  match txs with
  | [] => true
  | tx :: txs' => match multiplicity_outs migrated (outputs tx) 0 endorsements with
                  | None => false
                  | Some e => multiplicity_txs migrated txs' e
                  end
  end.

Definition HasValidRegisterMultiplicity (block : Block) : bool :=
  multiplicity_txs (SecurityStateMigrationActive (Block.height block)) (transactions block) 0.

Definition register_prefix : bytes := VAL_PREFIX ++ b:"REGISTER|".

Definition tx_funded (vault : bytes) (tx : Transaction) : bool :=
  existsb (fun o => bytes_eqb (script_pubkey o) vault && (value o >? 0)) (outputs tx).

Definition HasFundedRegistration (block : Block) : bool :=
  let vault := AddressToScript STAKE_VAULT_ADDRESS in
  existsb (fun tx => existsb (fun o => starts_with register_prefix (ParseOpReturn (script_pubkey o))) (outputs tx)
                     && tx_funded vault tx) (transactions block).

(** ** Cooldowns *)

Definition TrimExpiredCooldownsLocked (reg : ValidatorRegistry) (current_height : Z) : ValidatorRegistry :=
  if current_height <? VALIDATOR_OP_COOLDOWN_BLOCKS then reg
  else
    let cutoff := current_height - VALIDATOR_OP_COOLDOWN_BLOCKS in
    set_last_op reg (filter (fun p => negb (snd p <? cutoff)) (last_op_height_ reg)).

Definition cooling (reg : ValidatorRegistry) (address : bytes) (h : Z) : bool :=
  match last_op_height_ reg !! address with
  | Some lh => h <? u64 (lh + VALIDATOR_OP_COOLDOWN_BLOCKS)
  | None => false
  end.

(** ** Record updates *)

Definition settle_at (r : ValidatorRecord) (h : Z) : ValidatorRecord :=
  mkValidator (v_pubkey_hex r) (v_address r) (v_registered_height r) (v_active r) (v_slashed r)
    (v_slashed_equivocation r) (v_slashed_at_height r) (v_bond_custodial r) (v_bond_units r)
    (v_deregistered_at_height r) (v_last_finality_vote_height r) h.

Definition deregister_record (r : ValidatorRecord) (h : Z) : ValidatorRecord :=
  mkValidator (v_pubkey_hex r) (v_address r) (v_registered_height r) false (v_slashed r)
    (v_slashed_equivocation r) (v_slashed_at_height r) (v_bond_custodial r) (v_bond_units r)
    (if v_bond_custodial r && negb (v_slashed r) && (v_deregistered_at_height r =? 0) then h
     else v_deregistered_at_height r)
    (v_last_finality_vote_height r) (v_principal_settled_at r).

Definition slash_record (equivocation : bool) (r : ValidatorRecord) (h : Z) : ValidatorRecord :=
  mkValidator (v_pubkey_hex r) (v_address r) (v_registered_height r) false true
    (equivocation || v_slashed_equivocation r)
    (if (v_slashed_at_height r =? 0) || (h <? v_slashed_at_height r) then h else v_slashed_at_height r)
    (v_bond_custodial r) (v_bond_units r) (v_deregistered_at_height r)
    (v_last_finality_vote_height r) (v_principal_settled_at r).

(** ** Signatures over claims *)

Notation "'require' b ';' k" := (if b then k else None)
  (at level 10, b at level 100, k at level 200, only parsing).
Notation "'let?' x ':=' o ';' k" := (match o with Some x => k | None => None end)
  (at level 10, x pattern, o at level 100, k at level 200, only parsing).

Definition ENDORSE_TAG : bytes := b:"VELD_ENDORSE" ++ [0; 0; 0; 0].

Definition BuildEndorseMessage (h : Z) (block_hash : Hash256) : Hash256 :=
  Hash256d ((if BATCH2_HARDENING_HEIGHT <=? h then ENDORSE_TAG ++ [0x4D] ++ GENESIS_HASH else [])
            ++ put_le 8 h ++ block_hash).

(** The static [genesis] of [VerifyFinalityVoteSignature]. *)
Definition genesis_bytes : Hash256 := HexToHash GENESIS_HASH.

(** The [hex_to_hash] lambda. *)
Definition hex_to_hash (h : bytes) : option Hash256 :=
  if negb (size h =? 64) then None
  else let b := HexToBytes h in if negb (size b =? 32) then None else Some b.

(** The [checkpoint] lambda of SLASH_EQUIV. *)
Definition checkpoint (h : Z) (hex : bytes) : option CheckpointRef :=
  let raw := HexToBytes hex in if negb (size raw =? 32) then None else Some (mkRef h raw).

(** The address whose key signs the first input, by its script signature alone. *)
Definition first_input_address (tx : Transaction) : bytes :=
  match inputs tx with
  | [] => []
  | inp :: _ => match ParseScriptSig (script_sig inp) with
                | Some (_, spk) => ScriptToAddress (p2pkh_script (Hash160Compute spk))
                | None => []
                end
  end.

Section Ops.
Context (crypto_sign_verify : bytes -> bytes -> bytes -> bool).

Definition VerifyEndorseSignature (pubkey_hex : bytes) (h : Z) (block_hash : Hash256) (sig_hex : bytes) : bool :=
  if negb (IsExactHex pubkey_hex 3904) || negb (IsExactHex sig_hex 6618) then false
  else
    let pubkey_bytes := HexToBytes pubkey_hex in
    let sig_bytes := HexToBytes sig_hex in
    if negb (size pubkey_bytes =? 1952) || negb (size sig_bytes =? 3309) then false
    else Verify crypto_sign_verify pubkey_bytes (BuildEndorseMessage h block_hash) sig_bytes.

Definition VerifyFinalityVoteSignature (pubkey_hex : bytes) (epoch : Z) (set_root_hex : bytes)
    (phase round src_h : Z) (src_hash_hex : bytes) (tgt_h : Z) (tgt_hash_hex sig_hex : bytes) : bool :=
  if negb (IsExactHex pubkey_hex 3904) || negb (IsExactHex sig_hex 6618) then false
  else match hex_to_hash set_root_hex, hex_to_hash src_hash_hex, hex_to_hash tgt_hash_hex with
  | Some set_root, Some src_hash, Some tgt_hash =>
      let src := mkRef src_h src_hash in
      let tgt := mkRef tgt_h tgt_hash in
      if (negb (phase =? PREVOTE) && negb (phase =? PRECOMMIT)) || (round >? UINT32_MAX)
         || negb (IsScheduledCheckpoint tgt_h) || negb (EpochOf tgt_h =? epoch)
         || negb (CheckpointRound tgt_h =? round) || negb (SourceRefWellFormed src tgt) then false
      else
        let msg := VotePreimage NETWORK_ID genesis_bytes epoch set_root phase round src tgt in
        let pubkey_bytes := HexToBytes pubkey_hex in
        let sig_bytes := HexToBytes sig_hex in
        if negb (size pubkey_bytes =? 1952) || negb (size sig_bytes =? 3309) then false
        else Verify crypto_sign_verify pubkey_bytes msg sig_bytes
  | _, _, _ => false
  end.

Context {T : Type} (staking_get_stake : T -> bytes -> Z) (staking_apply_slash_lockup : T -> bytes -> Z -> T).

(** ** REGISTER *)

(** What the transaction pays to the bond vault; [None] on overflow. *)
Fixpoint vault_payment (vault : bytes) (outs : list TxOutput) (to_vault : Z) : option Z :=
  match outs with
  | [] => Some to_vault
  | o :: outs' =>
      if bytes_eqb (script_pubkey o) vault then
        if to_vault >? UINT64_MAX - value o then None else vault_payment vault outs' (to_vault + value o)
      else vault_payment vault outs' to_vault
  end.

(** The bond regime: custodial or not, and the units held. *)
Definition registration_bond (reg : ValidatorRegistry) (st : T) (tx : Transaction) (address : bytes) (h : Z)
  : option (bool * Z) :=
  let effective_min := GetEffectiveMinStake reg in
  if STAKE_VAULT_ACTIVATION_HEIGHT <=? h then
    let sv_script := AddressToScript STAKE_VAULT_ADDRESS in
    require negb (size sv_script =? 0);
    let? to_vault := vault_payment sv_script (outputs tx) 0;
    require negb (to_vault <? effective_min);
    Some (true, to_vault)
  else
    require negb (staking_get_stake st address <? effective_min);
    Some (false, 0).

Definition is_active_key (reg : ValidatorRegistry) (pk : bytes) : bool :=
  match validators_ reg !! pk with Some r => v_active r | None => false end.

Definition prior_bond_pending (reg : ValidatorRegistry) (pk : bytes) (h : Z) : bool :=
  match validators_ reg !! pk with Some r => DeregisteredBondPendingAtLocked r h | None => false end.

Definition has_tranches (reg : ValidatorRegistry) (pk : bytes) : bool :=
  match bond_yield_escrow_ reg !! pk with Some ts => negb (size ts =? 0) | None => false end.

Definition address_in_use (reg : ValidatorRegistry) (address : bytes) : bool :=
  existsb (fun p => v_active (snd p) && bytes_eqb (v_address (snd p)) address) (map_to_list (validators_ reg)).

(** The two index entries a registration writes. *)
Definition index_registration (index : gmap bytes bytes) (pubkey_hex address : bytes) : gmap bytes bytes :=
  let index := <[address := pubkey_hex]> index in
  let pubkey_bytes := HexToBytes pubkey_hex in
  if size pubkey_bytes =? 1952 then
    let derived := PubkeyToAddress pubkey_bytes in
    if bool_decide (derived <> address) then <[derived := pubkey_hex]> index else index
  else index.

Definition OpRegister (reg : ValidatorRegistry) (st : T) (h : Z) (tx : Transaction) (pubkey_hex : bytes)
  : option (ValidatorRegistry * T) :=
  require IsCanonicalLowerHex pubkey_hex 3904;
  require bool_decide (pubkey_hex ∉ slashed_pubkeys_ reg);
  let pubkey_bytes := HexToBytes pubkey_hex in
  require size pubkey_bytes =? 1952;
  let address := PubkeyToAddress pubkey_bytes in
  require negb (size address =? 0);
  require TxVerifiedSignedBy crypto_sign_verify tx address;
  require negb (cooling reg address h);
  let? (custodial, bond_units) := registration_bond reg st tx address h;
  require negb (is_active_key reg pubkey_hex);
  require negb (prior_bond_pending reg pubkey_hex h);
  require negb (has_tranches reg pubkey_hex);
  require negb (address_in_use reg address);
  let rec := mkValidator pubkey_hex address h true false false 0 custodial bond_units 0 0 0 in
  let reg := set_validators reg (<[pubkey_hex := rec]> (validators_ reg)) in
  let reg := set_last_op reg (<[address := h]> (last_op_height_ reg)) in
  let reg := set_index reg (index_registration (address_to_pubkey_ reg) pubkey_hex address) in
  Some (TrimExpiredCooldownsLocked reg h, st).

(** ** DEREGISTER *)

Definition OpDeregister (reg : ValidatorRegistry) (st : T) (h : Z) (tx : Transaction) (pubkey_hex : bytes)
  : option (ValidatorRegistry * T) :=
  require IsCanonicalLowerHex pubkey_hex 3904;
  let? rec := validators_ reg !! pubkey_hex;
  require v_active rec;
  require TxVerifiedSignedBy crypto_sign_verify tx (v_address rec);
  require negb (cooling reg (v_address rec) h);
  let reg := set_validators reg (<[pubkey_hex := deregister_record rec h]> (validators_ reg)) in
  let reg := set_last_op reg (<[v_address rec := h]> (last_op_height_ reg)) in
  Some (TrimExpiredCooldownsLocked reg h, st).

(** ** Slashing *)

(** The penalty both slashing operations apply from [VALIDATOR_SLASHING_HEIGHT] on. *)
Definition penalise (equivocation : bool) (reg : ValidatorRegistry) (st : T) (pubkey_hex : bytes)
    (rec : ValidatorRecord) (h : Z) : ValidatorRegistry * T :=
  if VALIDATOR_SLASHING_HEIGHT <=? h then
    let reg := set_validators reg (<[pubkey_hex := slash_record equivocation rec h]> (validators_ reg)) in
    let reg := set_slashed_pubkeys reg ({[pubkey_hex]} ∪ slashed_pubkeys_ reg) in
    let reg := set_last_op reg (<[v_address rec := h]> (last_op_height_ reg)) in
    (reg, staking_apply_slash_lockup st (v_address rec) (u64 (h + SLASH_BOND_LOCKUP_BLOCKS)))
  else (reg, st).

Definition OpSlashEquiv (reg : ValidatorRegistry) (st : T) (h : Z) (tx : Transaction) (data : bytes)
    (parts : list bytes) : option (ValidatorRegistry * T) :=
  let part i := nth i parts [] in
  let pubkey_hex := part 1%nat in
  let? epoch := ParseCanonicalUint64Text (part 2%nat);
  let set_root_hex := part 3%nat in
  let? phase := ParseCanonicalUint64Text (part 4%nat);
  require (phase =? 1) || (phase =? 2);
  let? round := ParseCanonicalUint64Text (part 5%nat);
  require negb (round >? UINT32_MAX);
  let? srcA_h := ParseCanonicalUint64Text (part 6%nat);
  let srcA_hash := part 7%nat in
  let? tgtA_h := ParseCanonicalUint64Text (part 8%nat);
  let tgtA_hash := part 9%nat in
  let sigA_hex := part 10%nat in
  let? srcB_h := ParseCanonicalUint64Text (part 11%nat);
  let srcB_hash := part 12%nat in
  let? tgtB_h := ParseCanonicalUint64Text (part 13%nat);
  let tgtB_hash := part 14%nat in
  let sigB_hex := part 15%nat in
  require bytes_eqb (part 16%nat) (b:"v1");
  require negb ((tgtA_h =? tgtB_h) && bytes_eqb tgtA_hash tgtB_hash);
  require negb (bytes_eqb sigA_hex sigB_hex);
  require IsCanonicalLowerHex pubkey_hex 3904 && IsCanonicalLowerHex set_root_hex 64
          && IsCanonicalLowerHex srcA_hash 64 && IsCanonicalLowerHex tgtA_hash 64
          && IsCanonicalLowerHex srcB_hash 64 && IsCanonicalLowerHex tgtB_hash 64
          && IsCanonicalLowerHex sigA_hex 6618 && IsCanonicalLowerHex sigB_hex 6618;
  require IsScheduledCheckpoint tgtA_h && IsScheduledCheckpoint tgtB_h
          && (EpochOf tgtA_h =? epoch) && (EpochOf tgtB_h =? epoch)
          && (CheckpointRound tgtA_h =? round) && (CheckpointRound tgtB_h =? round);
  let? src_a := checkpoint srcA_h srcA_hash;
  let? src_b := checkpoint srcB_h srcB_hash;
  let? tgt_a := checkpoint tgtA_h tgtA_hash;
  let? tgt_b := checkpoint tgtB_h tgtB_hash;
  require SourceRefWellFormed src_a tgt_a && SourceRefWellFormed src_b tgt_b
          && negb (tgtA_h >? h) && negb (tgtB_h >? h);
  require tgtA_h =? tgtB_h;
  require negb ((h >? tgtA_h) && (h - tgtA_h >? FINALITY_EQUIV_EVIDENCE_WINDOW));
  let set_root_bytes := HexToBytes set_root_hex in
  require size set_root_bytes =? 32;
  let? membership := map_find epoch (finality_membership_ reg);
  require bool_decide (m_root membership = set_root_bytes);
  require binary_search (m_members membership) (PubkeyCommit pubkey_hex);
  let? rec := validators_ reg !! pubkey_hex;
  require negb (v_slashed_equivocation rec);
  require negb (tgtA_h <? v_registered_height rec);
  require negb (ConsensusSecurityUpgradeActive h && negb (PrincipalEvidenceOpenLocked reg rec h));
  require negb (negb (ConsensusSecurityUpgradeActive h) && (v_deregistered_at_height rec >? 0)
                && negb (v_slashed rec)
                && (DeregReturnBoundary (v_deregistered_at_height rec) (v_last_finality_vote_height rec) <=? h));
  require VerifyFinalityVoteSignature pubkey_hex epoch set_root_hex phase round srcA_h srcA_hash tgtA_h
            tgtA_hash sigA_hex;
  require VerifyFinalityVoteSignature pubkey_hex epoch set_root_hex phase round srcB_h srcB_hash tgtB_h
            tgtB_hash sigB_hex;
  let slasher_address := first_input_address tx in
  require negb ((size slasher_address =? 0) || bytes_eqb slasher_address (v_address rec));
  let dedup_key := equivocation_key pubkey_hex epoch round in
  require bool_decide (dedup_key ∉ slashed_evidence_keys_ reg);
  require bool_decide (finality_equivocations_ reg !! pubkey_hex = None);
  let equiv := mkEquivocation epoch (u8 phase) (u32 round) tgt_a tgt_b h slasher_address
                 (sha256_domain (b:"VELD_FINALITY_EQUIV_EVIDENCE_v1|") data) in
  let reg := set_evidence_keys reg ({[dedup_key]} ∪ slashed_evidence_keys_ reg) in
  let reg := set_equivocations reg (<[pubkey_hex := equiv]> (finality_equivocations_ reg)) in
  Some (penalise true reg st pubkey_hex rec h).

(** The evidence count of a key. *)
Definition evidence_count (reg : ValidatorRegistry) (pk : bytes) : Z :=
  match evidence_per_pubkey_ reg !! pk with Some n => n | None => 0 end.

Definition slash_key (pubkey_hex : bytes) (sig_height : Z) : bytes :=
  pubkey_hex ++ b:":" ++ to_string sig_height.

Definition OpSlash (reg : ValidatorRegistry) (st : T) (h : Z) (tx : Transaction) (parts : list bytes)
  : option (ValidatorRegistry * T) :=
  let part i := nth i parts [] in
  let pubkey_hex := part 1%nat in
  let? sig_height := ParseCanonicalUint64Text (part 2%nat);
  let hash_a_hex := part 3%nat in
  let sig_a_hex := part 4%nat in
  let hash_b_hex := part 5%nat in
  let sig_b_hex := part 6%nat in
  require negb (negb (bytes_eqb (part 7%nat) (b:"v1")) && negb (size (part 7%nat) =? 0));
  require negb (sig_height >? h);
  require negb ((h >? sig_height) && (h - sig_height >? SLASH_EVIDENCE_WINDOW));
  require IsCanonicalLowerHex pubkey_hex 3904 && IsCanonicalLowerHex hash_a_hex 64
          && IsCanonicalLowerHex hash_b_hex 64;
  require negb (bytes_eqb hash_a_hex hash_b_hex);
  require negb ((size sig_a_hex =? 0) || (size sig_b_hex =? 0));
  require negb (bytes_eqb sig_a_hex sig_b_hex);
  require IsCanonicalLowerHex sig_a_hex 6618 && IsCanonicalLowerHex sig_b_hex 6618;
  let? rec := validators_ reg !! pubkey_hex;
  require CanAcceptSlashEvidenceLocked reg pubkey_hex sig_height h;
  require size (HexToBytes pubkey_hex) =? 1952;
  let hash_a := HexToBytes hash_a_hex in
  let hash_b := HexToBytes hash_b_hex in
  require (size hash_a =? 32) && (size hash_b =? 32);
  require VerifyEndorseSignature pubkey_hex sig_height hash_a sig_a_hex;
  require VerifyEndorseSignature pubkey_hex sig_height hash_b sig_b_hex;
  let dedup_key := slash_key pubkey_hex sig_height in
  require bool_decide (dedup_key ∉ slashed_evidence_keys_ reg);
  require negb (MAX_SLASHED_EVIDENCE <=? size (slashed_evidence_ reg));
  let hardened := BATCH2_HARDENING_HEIGHT <=? h in
  require negb (hardened && (MAX_EVIDENCE_PER_PUBKEY <=? evidence_count reg pubkey_hex));
  let slasher := first_input_address tx in
  let slasher := if (BATCH1_HARDENING_HEIGHT <=? h) && negb (size slasher =? 0)
                    && bytes_eqb slasher (v_address rec) then [] else slasher in
  let ev := mkEvidence pubkey_hex (v_address rec) sig_height hash_a_hex hash_b_hex sig_a_hex sig_b_hex
              slasher h in
  let counts := if hardened then <[pubkey_hex := evidence_count reg pubkey_hex + 1]> (evidence_per_pubkey_ reg)
                else evidence_per_pubkey_ reg in
  let reg := set_evidence_keys reg ({[dedup_key]} ∪ slashed_evidence_keys_ reg) in
  let reg := set_evidence_counts reg counts in
  let reg := set_evidence reg (slashed_evidence_ reg ++ [ev]) in
  Some (penalise false reg st pubkey_hex rec h).

(** ** ENDORSE *)

(** Which active validator the marker speaks for: the address it names, or, before the
    migration, the signer of the first input, or the key its signature verifies under. *)
Definition endorser (reg : ValidatorRegistry) (tx : Transaction) (wire : EndorsementWire) (block_hash : Hash256)
  : option (bytes * bytes) :=
  if w_attributed wire then
    let? pk := address_to_pubkey_ reg !! w_address wire;
    let? rec := validators_ reg !! pk;
    require v_active rec && bytes_eqb (v_address rec) (w_address wire);
    Some (pk, w_address wire)
  else
    let by_input :=
      let? inp := head (inputs tx);
      let? (_, pk_bytes) := ParseScriptSig (script_sig inp);
      let? pk := address_to_pubkey_ reg !! PubkeyToAddress pk_bytes;
      let? rec := validators_ reg !! pk;
      require v_active rec;
      Some (pk, v_address rec) in
    if match by_input with Some (pk, _) => negb (size pk =? 0) | None => false end then by_input
    else
      let? (pk, rec) := List.find (fun p => v_active (snd p)
                          && VerifyEndorseSignature (fst p) (w_height wire) block_hash (w_signature wire))
                       (map_to_list (validators_ reg));
      Some (pk, v_address rec).

Definition custodial_bond (reg : ValidatorRegistry) (pk : bytes) : Z :=
  match validators_ reg !! pk with
  | Some r => if v_active r && v_bond_custodial r && negb (v_slashed r) then v_bond_units r else 0
  | None => 0
  end.

Definition endorsement_key (h : Z) (address : bytes) : bytes := to_string h ++ b:":" ++ address.

Definition OpEndorse (reg : ValidatorRegistry) (st : T) (h : Z) (tx : Transaction) (data : bytes)
  : option (ValidatorRegistry * T) :=
  let? wire := ParseEndorsementWire data;
  require eqb (w_attributed wire) (SecurityStateMigrationActive h);
  let height := w_height wire in
  let block_hash := HexToHash (w_hash wire) in
  require negb (height >? h);
  require negb ((h >? height) && (h - height >? ENDORSEMENT_RETENTION_BLOCKS));
  let? (pk, address) := endorser reg tx wire block_hash;
  require negb (size pk =? 0);
  let effective_min := GetEffectiveMinStake reg in
  require negb ((staking_get_stake st address <? effective_min)
                && (custodial_bond reg pk <? effective_min));
  require VerifyEndorseSignature pk height block_hash (w_signature wire);
  let dedup_key := endorsement_key height address in
  require bool_decide (dedup_key ∉ endorsement_keys_ reg);
  let erec := mkEndorsement (EndorsementFieldCommitment (b:"VELD_ENDORSE_PUBKEY_v1|") (CanonicalHex pk)) address
                (EndorsementFieldCommitment (b:"VELD_ENDORSE_SIG_v1|") (w_signature wire)) (w_hash wire)
                height false in
  let recs := match endorsements_ reg !! height with Some l => l | None => [] end in
  let reg := set_endorsement_keys reg ({[dedup_key]} ∪ endorsement_keys_ reg) in
  Some (set_endorsements reg (<[height := recs ++ [erec]]> (endorsements_ reg)), st).

(** ** Dispatch *)

(** [ProcessOp]: the registry and ledger after the marker, and the [registered] flag. *)
Definition ProcessOp (reg : ValidatorRegistry) (st : T) (h : Z) (tx : Transaction) (data : bytes)
  : ValidatorRegistry * T * bool :=
  let below_registration_floor :=
    negb VALIDATOR_SYSTEM_ALWAYS_ACTIVE && (total_staked_units_ reg <? VALIDATOR_UNLOCK_STAKED) in
  let rest := drop (length VAL_PREFIX) data in
  let parts := Split rest PIPE in
  let action := nth 0 parts [] in
  let outcome :=
    require negb (length parts =? 0)%nat;
    require RegistrationFloorPermits below_registration_floor action h;
    if bytes_eqb action (b:"REGISTER") && (length parts =? 2)%nat && (count_char PIPE rest =? 1) then
      let? (reg', st') := OpRegister reg st h tx (nth 1 parts []); Some (reg', st', true)
    else
      let? (reg', st') :=
        if bytes_eqb action (b:"DEREGISTER") && (length parts =? 2)%nat && (count_char PIPE rest =? 1) then
          OpDeregister reg st h tx (nth 1 parts [])
        else if bytes_eqb action (b:"SLASH_EQUIV") && (length parts =? 17)%nat then
          OpSlashEquiv reg st h tx data parts
        else if bytes_eqb action (b:"SLASH") && (length parts =? 8)%nat then OpSlash reg st h tx parts
        else if is_endorse_action action then OpEndorse reg st h tx data
        else None;
      Some (reg', st', false) in
  match outcome with Some r => r | None => (reg, st, false) end.

(** The markers of one transaction; the flag is [false] when the block is refused
    because a funded registration was not accepted. *)
Fixpoint process_outs (require_bond_record : bool) (h : Z) (tx : Transaction) (outs : list TxOutput)
    (reg : ValidatorRegistry) (st : T) : ValidatorRegistry * T * bool :=
  match outs with
  | [] => (reg, st, true)
  | o :: outs' =>
      let data := ParseOpReturn (script_pubkey o) in
      if size data =? 0 then process_outs require_bond_record h tx outs' reg st
      else if negb (starts_with VAL_PREFIX data) then process_outs require_bond_record h tx outs' reg st
      else
        let '(reg', st', registered) := ProcessOp reg st h tx data in
        if require_bond_record && starts_with register_prefix data
           && tx_funded (AddressToScript STAKE_VAULT_ADDRESS) tx && negb registered
        then (reg', st', false)
        else process_outs require_bond_record h tx outs' reg' st'
  end.

Fixpoint process_txs (require_bond_record : bool) (h : Z) (txs : list Transaction)
    (reg : ValidatorRegistry) (st : T) : ValidatorRegistry * T * bool :=
  match txs with
  | [] => (reg, st, true)
  | tx :: txs' =>
      let '(reg', st', ok) := process_outs require_bond_record h tx (outputs tx) reg st in
      if negb ok then (reg', st', false) else process_txs require_bond_record h txs' reg' st'
  end.

End Ops.

(** ** Settlement of principals *)

Definition settle_record (reg : ValidatorRegistry) (h : Z) (rec : ValidatorRecord) : ValidatorRecord :=
  if negb (v_principal_settled_at rec =? 0) then rec
  else
    let legacy := LegacyPrincipalBoundary rec in
    if negb (legacy =? 0) && (legacy <? CONSENSUS_SECURITY_UPGRADE_HEIGHT) then settle_at rec legacy
    else
      let due := PrincipalSettlementBoundaryLocked reg rec h in
      if negb (due =? 0) && (due =? h) then settle_at rec h else rec.

Definition SettlePrincipals (reg : ValidatorRegistry) (h : Z) : ValidatorRegistry :=
  if ConsensusSecurityUpgradeActive h then
    set_upgrade_active (set_validators reg (settle_record reg h <$> validators_ reg)) true
  else reg.

(** ** Endorsement retention and the endorsement pool *)

Definition record_keys (m : gmap Z (list EndorsementRecord)) : gset bytes :=
  list_to_set (concat (map (fun p => map (fun r => endorsement_key (fst p) (en_address r)) (snd p)) (map_to_list m))).

Definition PruneEndorsementsLocked (reg : ValidatorRegistry) (current_height : Z) : ValidatorRegistry :=
  let min_keep := if current_height >? ENDORSEMENT_RETENTION_BLOCKS
                  then current_height - ENDORSEMENT_RETENTION_BLOCKS else 0 in
  let erased := existsb (fun p => fst p <? min_keep) (map_to_list (endorsements_ reg)) in
  let kept := filter (fun p => negb (fst p <? min_keep)) (endorsements_ reg) in
  let reg := set_endorsements reg kept in
  if negb erased then reg else set_endorsement_keys reg (record_keys kept).

Definition mark_paid (r : EndorsementRecord) : EndorsementRecord :=
  mkEndorsement (en_pubkey_hex r) (en_address r) (en_sig_hex r) (en_block_hash_hex r) (en_block_height r) true.

Definition MarkRewardsPaidLocked (reg : ValidatorRegistry) (paid_through_height : Z) : ValidatorRegistry :=
  PruneEndorsementsLocked
    (set_endorsements reg
       (map_imap (fun h recs => Some (if h <=? paid_through_height then map mark_paid recs else recs))
          (endorsements_ reg)))
    paid_through_height.

Definition EndorsementPoolOutpointKey (txid : Hash256) (vout : Z) : bytes :=
  HashToHex txid ++ b:":" ++ to_string vout.

Definition input_key (i : TxInput) : bytes := EndorsementPoolOutpointKey (prev_tx_hash i) (prev_out_index i).

(** The loop over the candidate's inputs: what it consumes, if it spends pool outputs
    only and each once. *)
Fixpoint consume_loop (pool : gset bytes) (ins : list TxInput) (consumed : gset bytes) : option (gset bytes) :=
  match ins with
  | [] => Some consumed
  | i :: ins' =>
      let key := input_key i in
      if bool_decide (key ∉ pool) || bool_decide (key ∈ consumed) then None
      else consume_loop pool ins' ({[key]} ∪ consumed)
  end.

Definition canonical_flush (pool : gset bytes) (block : Block) : bool :=
  if (Block.height block >? 0) && (Block.height block mod VAULT_DISTRIBUTION_INTERVAL =? 0)
     && negb (bool_decide (pool = ∅)) then
    match List.filter (fun tx => existsb (fun i => bool_decide (input_key i ∈ pool)) (inputs tx))
            (transactions block) with
    | [candidate] =>
        if size (inputs candidate) =? 0 then false
        else match consume_loop pool (inputs candidate) ∅ with
             | Some consumed => (base.size consumed =? base.size pool)%nat
             | None => false
             end
    | _ => false
    end
  else false.

(** One transaction's effect on the tracked pool outputs. *)
Definition advance_pool (pool_script : bytes) (pool : gset bytes) (tx : Transaction) : gset bytes :=
  let pool := foldl (fun s i => s ∖ {[input_key i]}) pool (inputs tx) in
  if size pool_script =? 0 then pool
  else if negb (existsb (fun o => bytes_eqb (script_pubkey o) pool_script) (outputs tx)) then pool
  else
    let txid := GetTxID tx in
    foldl (fun s p => if bool_decide (script_pubkey (snd p) <> pool_script) then s
                      else if fst p >? UINT32_MAX then s
                      else {[EndorsementPoolOutpointKey txid (fst p)]} ∪ s)
      pool (imap (fun k o => (Z.of_nat k, o)) (outputs tx)).

Definition ProcessEndorsementPoolStateLocked (reg : ValidatorRegistry) (block : Block) : ValidatorRegistry :=
  let reg := if canonical_flush (endorsement_pool_outpoints_ reg) block
             then set_flush_height (MarkRewardsPaidLocked reg (Block.height block)) (Block.height block)
             else reg in
  let pool_script := AddressToScript ENDORSEMENT_POOL_ADDRESS in
  set_pool_outpoints reg (foldl (advance_pool pool_script) (endorsement_pool_outpoints_ reg) (transactions block)).

(** ** Retirement of inactive records *)

Definition should_evict (reg : ValidatorRegistry) (current_height : Z) (pk : bytes) (rec : ValidatorRecord) : bool :=
  let evict_below := if current_height >? 10000 then current_height - 10000 else 0 in
  let custodial_window := BOND_YIELD_VEST_BLOCKS + 2 * BOND_SETTLEMENT_INTERVAL in
  let evict_below_custodial := if current_height >? custodial_window then current_height - custodial_window else 0 in
  let evict :=
    if negb (v_active rec) then
      if BATCH1_HARDENING_HEIGHT <=? current_height then
        let terminal_h := Z.max (v_deregistered_at_height rec) (v_slashed_at_height rec) in
        let threshold := if v_bond_custodial rec then evict_below_custodial else evict_below in
        (terminal_h >? 0) && (terminal_h <? threshold)
      else v_registered_height rec <? evict_below
    else false in
  let evict := if has_tranches reg pk then false else evict in
  if ConsensusSecurityUpgradeActive current_height && v_bond_custodial rec && (v_bond_units rec >? 0)
     && negb (PrincipalAlreadyPaidLocked rec current_height) then false
  else evict.

(** Erasing one record, with its cooldown and index entries. *)
Definition evict_record (reg : ValidatorRegistry) (pk : bytes) (rec : ValidatorRecord) : ValidatorRegistry :=
  let reg := set_last_op reg (delete (v_address rec) (last_op_height_ reg)) in
  let index := delete (v_address rec) (address_to_pubkey_ reg) in
  let pubkey_bytes := HexToBytes (v_pubkey_hex rec) in
  let index := if size pubkey_bytes =? 1952 then
                 let derived := PubkeyToAddress pubkey_bytes in
                 if bool_decide (derived <> v_address rec) then delete derived index else index
               else index in
  let reg := set_index reg index in
  set_validators reg (delete pk (validators_ reg)).

Definition PruneInactiveValidatorsLocked (reg : ValidatorRegistry) (current_height : Z) : ValidatorRegistry :=
  let reg := foldl (fun r p => if should_evict r current_height (fst p) (snd p)
                               then evict_record r (fst p) (snd p) else r)
               reg (map_to_list (validators_ reg)) in
  let op_evict_below := if current_height >? VALIDATOR_OP_COOLDOWN_BLOCKS
                        then current_height - VALIDATOR_OP_COOLDOWN_BLOCKS else 0 in
  set_last_op reg (filter (fun p => negb (snd p <? op_evict_below)) (last_op_height_ reg)).

(** ** The block transition *)

Section Blocks.
Context (crypto_sign_verify : bytes -> bytes -> bytes -> bool).

Section Impl.
Context {T : Type} (staking_get_stake : T -> bytes -> Z) (staking_apply_slash_lockup : T -> bytes -> Z -> T).

Definition ProcessBlockImpl (require_bond_record : bool) (reg : ValidatorRegistry) (st : T) (block : Block)
  : ValidatorRegistry * T * bool :=
  let h := Block.height block in
  if negb (HasValidRegisterMultiplicity block) then (reg, st, false)
  else
    let reg := set_migration_active reg (SecurityStateMigrationActive h) in
    let boundary := is_bond_yield_boundary h in
    let plan := if boundary then BondYieldBoundary (AddressToScript BOND_YIELD_ESCROW) reg block
                else Some (mkPlan 0 0 [] ∅, []) in
    match plan with
    | None => (reg, st, false)
    | Some (plan, allocs) =>
        let reg := if boundary then set_escrow reg (RetireBondYieldTranchesLocked plan (bond_yield_escrow_ reg))
                   else reg in
        let reg := SettlePrincipals reg h in
        let reg := ProcessEndorsementPoolStateLocked reg block in
        let reg := if boundary then set_escrow reg (AccrueBondYield h allocs (bond_yield_escrow_ reg)) else reg in
        let '(reg, st, ok) := process_txs crypto_sign_verify staking_get_stake staking_apply_slash_lockup
                                require_bond_record h (transactions block) reg st in
        if negb ok then (reg, st, false)
        else (PruneInactiveValidatorsLocked (PruneEndorsementsLocked reg h) h, st, true)
    end.

End Impl.

Context {T : Type} (staking_get_stake : T -> bytes -> Z) (staking_apply_slash_lockup : T -> bytes -> Z -> T).

(** A block with a funded registration runs on a copy, with the lockups deferred; the
    copy is committed only when the whole block is accepted. *)
Definition ProcessBlock (reg : ValidatorRegistry) (st : T) (block : Block) : ValidatorRegistry * T * bool :=
  if negb (ValidatorRegistrationForkActive (Block.height block)) || negb (HasFundedRegistration block) then
    ProcessBlockImpl staking_get_stake staking_apply_slash_lockup false reg st block
  else
    let '(staged, (_, slash_lockups), ok) :=
      ProcessBlockImpl (fun s a => staking_get_stake (fst s) a)
        (fun s a h => (fst s, snd s ++ [(a, h)])) true reg (st, []) block in
    if negb ok then (reg, st, false)
    else (staged, foldl (fun s p => staking_apply_slash_lockup s (fst p) (snd p)) st slash_lockups, true).

End Blocks.
