(* ===== verification/ValidatorRules.v ===== *)
(** * Validator operations: the rules of the registry

    What one marker operation can do to the registry, as inductive step rules; the
    invariant of the registry over every reachable state; permanence of slashing;
    custody of bonds across a block; atomicity of refused blocks; and soundness of
    equivocation evidence. *)
From S2P Require Import Prelude Bytes Profile Transaction Block Address OpAuthorization Marker Coinbase.
From S2P Require Import StateDigest FinalityQc FinalitySnapshot FinalityVotes FinalityState.
From S2P Require Import Validators BondYield EndorsementWire ValidatorOps.

(** ** Effects *)

(** On the records and the set of barred keys. *)
Inductive val_effect (h : Z) (vs : gmap bytes ValidatorRecord) (sl : gset bytes)
  : gmap bytes ValidatorRecord -> gset bytes -> Prop :=
| ve_same : val_effect h vs sl vs sl
| ve_register pk units :
    IsCanonicalLowerHex pk 3904 = true -> pk ∉ sl ->
    (forall r, vs !! pk = Some r -> v_active r = false /\ DeregisteredBondPendingAtLocked r h = false) ->
    (forall pk' r, vs !! pk' = Some r -> v_active r = true ->
       v_address r <> PubkeyToAddress (HexToBytes pk)) ->
    val_effect h vs sl
      (<[pk := mkValidator pk (PubkeyToAddress (HexToBytes pk)) h true false false 0 true units 0 0 0]> vs) sl
| ve_deregister pk r :
    vs !! pk = Some r -> v_active r = true ->
    val_effect h vs sl (<[pk := deregister_record r h]> vs) sl
| ve_slash equivocation pk r :
    vs !! pk = Some r ->
    val_effect h vs sl (<[pk := slash_record equivocation r h]> vs) ({[pk]} ∪ sl).

(** On the endorsements and their keys. *)
Inductive end_effect (m : gmap Z (list EndorsementRecord)) (ks : gset bytes)
  : gmap Z (list EndorsementRecord) -> gset bytes -> Prop :=
| ee_same : end_effect m ks m ks
| ee_add k recs e :
    endorsement_key k (en_address e) ∉ ks -> default [] (m !! k) = recs -> en_block_height e = k ->
    end_effect m ks (<[k := recs ++ [e]]> m) ({[endorsement_key k (en_address e)]} ∪ ks).

(** On the slashing evidence and its per-key counts. *)
Inductive evid_effect (l : list SlashEvidence) (c : gmap bytes Z)
  : list SlashEvidence -> gmap bytes Z -> Prop :=
| ve_none : evid_effect l c l c
| ve_add e :
    size l < MAX_SLASHED_EVIDENCE -> default 0 (c !! ev_pubkey_hex e) < MAX_EVIDENCE_PER_PUBKEY ->
    evid_effect l c (l ++ [e]) (<[ev_pubkey_hex e := default 0 (c !! ev_pubkey_hex e) + 1]> c).

Record op_effect (h : Z) (reg reg' : ValidatorRegistry) : Prop := {
  oe_val : val_effect h (validators_ reg) (slashed_pubkeys_ reg) (validators_ reg') (slashed_pubkeys_ reg');
  oe_end : end_effect (endorsements_ reg) (endorsement_keys_ reg) (endorsements_ reg') (endorsement_keys_ reg');
  oe_evid : evid_effect (slashed_evidence_ reg) (evidence_per_pubkey_ reg)
              (slashed_evidence_ reg') (evidence_per_pubkey_ reg');
  oe_escrow : bond_yield_escrow_ reg' = bond_yield_escrow_ reg;
  oe_membership : finality_membership_ reg' = finality_membership_ reg }.

Lemma op_effect_refl h reg : op_effect h reg reg.
Proof. split; constructor. Qed.

(** Trimming cooldowns touches nothing the rules speak of. *)
Lemma trim_validators reg h : validators_ (TrimExpiredCooldownsLocked reg h) = validators_ reg.
Proof. unfold TrimExpiredCooldownsLocked. by destruct (_ <? _). Qed.

Lemma op_effect_trim h reg reg' k : op_effect h reg reg' -> op_effect h reg (TrimExpiredCooldownsLocked reg' k).
Proof. intros []. unfold TrimExpiredCooldownsLocked. by destruct (_ <? _); constructor. Qed.

Lemma default_match {A} (d : A) (o : option A) : match o with Some x => x | None => d end = default d o.
Proof. by destruct o. Qed.

(** One guard at the head of a handler; [pass E] names what it tested. *)
Tactic Notation "pass" "in" hyp(H) "as" ident(E) :=
  match type of H with
  | (if ?b then _ else None) = Some _ => destruct b eqn:E; [|discriminate H]
  | (match ?o with Some _ => _ | None => None end) = Some _ => destruct o eqn:E; [|discriminate H]
  end.
Ltac pass_any H := let E := fresh "E" in pass in H as E.
Ltac pass_all H := repeat pass_any H.

Lemma lower_hex_nibble c : is_lower_hex c = true -> 0 <= nibble c < 16 /\ nth (Z.to_nat (nibble c)) HEX 0 = c.
Proof.
  unfold is_lower_hex, nibble. intros H.
  destruct ((48 <=? c) && (c <=? 57)) eqn:E1; [|destruct ((97 <=? c) && (c <=? 102)) eqn:E2; [|done]].
  - split; [lia|]. assert (Hc : c ∈ [48; 49; 50; 51; 52; 53; 54; 55; 56; 57]) by (set_unfold; lia).
    set_unfold. by repeat destruct Hc as [->|Hc]; [..|].
  - split; [lia|]. assert (Hc : c ∈ [97; 98; 99; 100; 101; 102]) by (set_unfold; lia).
    set_unfold. by repeat destruct Hc as [->|Hc]; [..|].
Qed.

Lemma hex_byte i j : 0 <= i < 16 -> 0 <= j < 16 ->
  BytesToHex [u8 (Z.lor (Z.shiftl i 4) j)] = [nth (Z.to_nat i) HEX 0; nth (Z.to_nat j) HEX 0].
Proof.
  intros Hi Hj.
  assert (H : forallb (fun p => bytes_eqb (BytesToHex [u8 (Z.lor (Z.shiftl (fst p) 4) (snd p))])
      [nth (Z.to_nat (fst p)) HEX 0; nth (Z.to_nat (snd p)) HEX 0])
      (list_prod (seqZ 0 16) (seqZ 0 16)) = true) by (vm_compute; reflexivity).
  rewrite forallb_forall in H. specialize (H (i, j)). cbn [fst snd] in H.
  assert (Hin : In (i, j) (list_prod (seqZ 0 16) (seqZ 0 16)))
    by (apply in_prod; apply list_elem_of_In, elem_of_seqZ; lia).
  apply H in Hin. unfold bytes_eqb in Hin. by apply bool_decide_eq_true_1 in Hin.
Qed.

Lemma hex_pairs_lower n s : length s = (2 * n)%nat -> forallb is_lower_hex s = true ->
  exists l, hex_pairs s = Some l /\ BytesToHex l = s.
Proof.
  revert s. induction n as [|n IH]; intros s Hl H.
  { destruct s; [|cbn in Hl; lia]. by exists []. }
  destruct s as [|a [|b s]]; [cbn in Hl; lia|cbn in Hl; lia|]. cbn [forallb] in H.
  apply andb_true_iff in H as [Ha H]. apply andb_true_iff in H as [Hb H].
  apply lower_hex_nibble in Ha as [Ra Na], Hb as [Rb Nb].
  destruct (IH s) as (l & El & Er); [cbn in Hl; lia|done|].
  exists (u8 (Z.lor (Z.shiftl (nibble a) 4) (nibble b)) :: l). cbn [hex_pairs].
  replace (nibble a <? 0) with false by lia. replace (nibble b <? 0) with false by lia. cbn [orb].
  rewrite El. split; [done|]. pose proof (hex_byte _ _ Ra Rb) as Hx. rewrite Na, Nb in Hx.
  set (x := u8 _) in *. change (BytesToHex (x :: l)) with (BytesToHex [x] ++ BytesToHex l). by rewrite Hx, Er.
Qed.

(** Lower-case hexadecimal text is the printed form of what it decodes to. *)
Lemma lower_hex_roundtrip s n :
  IsCanonicalLowerHex s (2 * n) = true -> BytesToHex (HexToBytes s) = s.
Proof.
  unfold IsCanonicalLowerHex. intros [Hn%Z.eqb_eq H]%andb_true_iff. unfold HexToBytes.
  rewrite Hn, Z.mul_comm, Z.mod_mul by lia. cbn [Z.eqb negb]. unfold size in Hn.
  destruct (hex_pairs_lower (Z.to_nat n) s) as (l & -> & Er); [lia|done|done].
Qed.

Lemma lower_hex_inj s t n :
  IsCanonicalLowerHex s (2 * n) = true -> IsCanonicalLowerHex t (2 * n) = true ->
  HexToBytes s = HexToBytes t -> s = t.
Proof.
  intros Hs Ht E. by rewrite <- (lower_hex_roundtrip s n Hs), <- (lower_hex_roundtrip t n Ht), E.
Qed.

Lemma checkpoint_inv h hex c : checkpoint h hex = Some c -> c = mkRef h (HexToBytes hex).
Proof. unfold checkpoint. destruct (negb _); [done|]. by intros [= <-]. Qed.

Section Effects.
Context (csv : bytes -> bytes -> bytes -> bool).
Context {T : Type} (get_stake : T -> bytes -> Z) (slash_lockup : T -> bytes -> Z -> T).

Lemma OpRegister_effect reg st h tx pk reg' st' : 0 <= h ->
  OpRegister csv get_stake reg st h tx pk = Some (reg', st') -> op_effect h reg reg' /\ st' = st.
Proof.
  intros Hh. unfold OpRegister, registration_bond. cbv zeta.
  destruct (IsCanonicalLowerHex pk 3904) eqn:E1; [|done].
  case_bool_decide as E2; [|done]. destruct (size (HexToBytes pk) =? 1952); [|done].
  destruct (size (PubkeyToAddress _) =? 0); [done|]. cbn [negb].
  destruct (TxVerifiedSignedBy csv tx _); [|done]. destruct (cooling reg _ h); [done|]. cbn [negb].
  unfold STAKE_VAULT_ACTIVATION_HEIGHT, VALIDATOR_SLASHING_HEIGHT. destruct (Z.leb_spec 0 h); [|lia].
  destruct (size (AddressToScript _) =? 0); [done|]. cbn [negb].
  destruct (vault_payment _ _ _) as [u|]; [|done]. destruct (u <? _); [done|]. cbn [negb].
  destruct (is_active_key reg pk) eqn:E3; [done|]. cbn [negb].
  destruct (prior_bond_pending reg pk h) eqn:E4; [done|]. cbn [negb].
  destruct (has_tranches reg pk); [done|]. cbn [negb].
  destruct (address_in_use reg _) eqn:E5; [done|]. cbn [negb]. intros [= <- <-]. split; [|done].
  apply op_effect_trim. split; [|constructor..].
  cbn [validators_ slashed_pubkeys_ set_validators set_last_op set_index].
  apply ve_register; [done..| |].
  - intros r Hr. unfold is_active_key, prior_bond_pending in E3, E4. rewrite Hr in E3, E4. done.
  - intros pk' r Hr Ha Hn. enough (address_in_use reg (PubkeyToAddress (HexToBytes pk)) = true) by congruence.
    apply existsb_exists. exists (pk', r). split; [by apply list_elem_of_In, elem_of_map_to_list|].
    cbn [snd]. rewrite Ha. by apply bool_decide_eq_true_2.
Qed.

Lemma OpDeregister_effect reg st h tx pk reg' st' :
  OpDeregister csv reg st h tx pk = Some (reg', st') -> op_effect h reg reg' /\ st' = (st : T).
Proof.
  unfold OpDeregister. cbv zeta. destruct (IsCanonicalLowerHex pk 3904); [|done].
  destruct (validators_ reg !! pk) as [r|] eqn:Er; [|done]. destruct (v_active r) eqn:Ea; [|done].
  destruct (TxVerifiedSignedBy csv tx _); [|done]. destruct (cooling reg _ h); [done|]. cbn [negb].
  intros [= <- <-]. split; [|done]. apply op_effect_trim. split; [by constructor|constructor..].
Qed.

(** The penalty, on a registry whose records are still those of [reg]. *)
Lemma penalise_effect e reg st pk r h : 0 <= h ->
  validators_ (fst (penalise slash_lockup e reg st pk r h)) = <[pk := slash_record e r h]> (validators_ reg)
  /\ slashed_pubkeys_ (fst (penalise slash_lockup e reg st pk r h)) = {[pk]} ∪ slashed_pubkeys_ reg
  /\ endorsements_ (fst (penalise slash_lockup e reg st pk r h)) = endorsements_ reg
  /\ endorsement_keys_ (fst (penalise slash_lockup e reg st pk r h)) = endorsement_keys_ reg
  /\ slashed_evidence_ (fst (penalise slash_lockup e reg st pk r h)) = slashed_evidence_ reg
  /\ evidence_per_pubkey_ (fst (penalise slash_lockup e reg st pk r h)) = evidence_per_pubkey_ reg
  /\ bond_yield_escrow_ (fst (penalise slash_lockup e reg st pk r h)) = bond_yield_escrow_ reg
  /\ finality_membership_ (fst (penalise slash_lockup e reg st pk r h)) = finality_membership_ reg.
Proof.
  intros Hh. unfold penalise, VALIDATOR_SLASHING_HEIGHT. by destruct (Z.leb_spec 0 h); [|lia].
Qed.
Lemma OpSlash_effect reg st h tx parts reg' st' : 0 <= h ->
  OpSlash csv slash_lockup reg st h tx parts = Some (reg', st') -> op_effect h reg reg'.
Proof.
  intros Hh H. unfold OpSlash in H. cbv zeta in H.
  change (BATCH2_HARDENING_HEIGHT <=? h) with (0 <=? h) in H.
  destruct (Z.leb_spec 0 h) as [_|]; [|lia]. cbn [andb] in H.
  pass in H as E1. do 8 pass_any H. pass in H as Er. do 6 pass_any H. pass in H as Hs. pass in H as Hc.
  apply negb_true_iff, Z.leb_gt in Hs, Hc. revert H. rename v into r.
  set (ev := mkEvidence _ _ _ _ _ _ _ _ _). set (reg0 := set_evidence _ _). intros [= Eo].
  apply (f_equal fst) in Eo. cbn [fst] in Eo. subst reg'.
  destruct (penalise_effect false reg0 st (nth 1 parts []) r h Hh) as (P1 & P2 & P3 & P4 & P5 & P6 & P7 & P8).
  split; rewrite ?P1, ?P2, ?P3, ?P4, ?P5, ?P6, ?P7, ?P8; [by apply ve_slash|constructor| |done..].
  cbn [slashed_evidence_ evidence_per_pubkey_ reg0 set_evidence set_evidence_counts set_evidence_keys].
  unfold evidence_count in *. rewrite default_match in *. by apply (ve_add _ _ ev).
Qed.

Lemma OpEndorse_effect reg st h tx data reg' st' :
  OpEndorse csv get_stake reg st h tx data = Some (reg', st') -> op_effect h reg reg' /\ st' = st.
Proof.
  intros H. unfold OpEndorse in H. cbv zeta in H. pass in H as Ew. rename e into w. do 3 pass_any H.
  pass in H as Ep. destruct p as [pk address]. do 3 pass_any H. pass in H as Hk.
  apply bool_decide_eq_true_1 in Hk. revert H.
  set (e := mkEndorsement _ _ _ _ _ _). intros [= <- <-]. split; [|done]. split; [constructor| |constructor..].
  cbn [endorsements_ endorsement_keys_ set_endorsements set_endorsement_keys].
  apply (ee_add _ _ (w_height w) _ e); [exact Hk|by rewrite default_match|done].
Qed.

(** What an accepted SLASH_EQUIV marker established. *)
Record equiv_facts (reg : ValidatorRegistry) (st : T) (h : Z) (tx : Transaction) (parts : list bytes)
    (out : ValidatorRegistry * T) (epoch phase round : Z) (set_root : Hash256)
    (src_a src_b tgt_a tgt_b : CheckpointRef) (r : ValidatorRecord) : Prop := {
  ef_record : validators_ reg !! nth 1 parts [] = Some r;
  ef_phase : phase = PREVOTE \/ phase = PRECOMMIT;
  ef_scheduled : IsScheduledCheckpoint (height tgt_a) = true;
  ef_epoch : EpochOf (height tgt_a) = epoch;
  ef_round : CheckpointRound (height tgt_a) = round;
  ef_same_height : height tgt_a = height tgt_b;
  ef_conflict : hash tgt_a <> hash tgt_b;
  ef_sources : SourceRefWellFormed src_a tgt_a = true /\ SourceRefWellFormed src_b tgt_b = true;
  ef_verify_a : VerifyFinalityVoteSignature csv (nth 1 parts []) epoch (nth 3 parts []) phase round
    (height src_a) (nth 7 parts []) (height tgt_a) (nth 9 parts []) (nth 10 parts []) = true;
  ef_verify_b : VerifyFinalityVoteSignature csv (nth 1 parts []) epoch (nth 3 parts []) phase round
    (height src_b) (nth 12 parts []) (height tgt_b) (nth 14 parts []) (nth 15 parts []) = true;
  ef_bytes : set_root = HexToBytes (nth 3 parts []) /\ hash src_a = HexToBytes (nth 7 parts [])
    /\ hash tgt_a = HexToBytes (nth 9 parts []) /\ hash src_b = HexToBytes (nth 12 parts [])
    /\ hash tgt_b = HexToBytes (nth 14 parts []);
  ef_precheck : CanAcceptFinalityEquivocationEvidence reg (nth 1 parts []) epoch set_root phase round
    (height tgt_a) h = true;
  ef_reporter : first_input_address tx <> [] /\ first_input_address tx <> v_address r;
  ef_out : exists keys eqs, out = penalise slash_lockup true
    (set_equivocations (set_evidence_keys reg keys) eqs) st (nth 1 parts []) r h }.

Lemma OpSlashEquiv_facts reg st h tx data parts out :
  OpSlashEquiv csv slash_lockup reg st h tx data parts = Some out ->
  exists epoch phase round set_root src_a src_b tgt_a tgt_b r,
    equiv_facts reg st h tx parts out epoch phase round set_root src_a src_b tgt_a tgt_b r.
Proof.
  intros H. unfold OpSlashEquiv in H. cbv zeta in H.
  pass in H as E1. rename z into epoch. pass in H as E2. rename z into phase. pass in H as E3.
  pass in H as E4. rename z into round. pass in H as E5. pass in H as E6. rename z into srcA_h.
  pass in H as E7. rename z into tgtA_h. pass in H as E8. rename z into srcB_h. pass in H as E9. rename z into tgtB_h.
  pass in H as E10. pass in H as E11. pass in H as E12. pass in H as E13. pass in H as E14.
  pass in H as E15. rename c into src_a. pass in H as E16. rename c into src_b.
  pass in H as E17. rename c into tgt_a. pass in H as E18. rename c into tgt_b.
  pass in H as E19. pass in H as E20. pass in H as E21. pass in H as E22. pass in H as E23. rename f into mem.
  pass in H as E24. pass in H as E25. pass in H as E26. rename v into r. pass in H as E27. pass in H as E28.
  pass in H as E29. pass in H as E30. pass in H as E31. pass in H as E32. pass in H as E33. pass in H as E34.
  pass in H as E35. injection H as <-.
  apply checkpoint_inv in E15 as ->, E16 as ->, E17 as ->, E18 as ->. cbn [height hash].
  apply Z.eqb_eq in E20 as <-. bool_hyps. unfold bytes_eqb in *. cbn [andb] in E11.
  apply bool_decide_eq_false_1 in E11.
  exists epoch, phase, round, (HexToBytes (nth 3 parts [])), (mkRef srcA_h (HexToBytes (nth 7 parts []))),
    (mkRef srcB_h (HexToBytes (nth 12 parts []))), (mkRef tgtA_h (HexToBytes (nth 9 parts []))),
    (mkRef tgtA_h (HexToBytes (nth 14 parts []))), r.
  assert (Hne : HexToBytes (nth 9 parts []) <> HexToBytes (nth 14 parts []))
    by (intros N; by apply E11, (lower_hex_inj _ _ 32)).
  split; cbn [height hash]; try done; try lia.
  - apply orb_true_iff in E3 as [E3%Z.eqb_eq|E3%Z.eqb_eq]; auto.
  - unfold CanAcceptFinalityEquivocationEvidence. rewrite H, H3, H1, H7, H9, E21. cbn [negb orb].
    replace (negb (phase =? PREVOTE) && negb (phase =? PRECOMMIT)) with false by (unfold PREVOTE, PRECOMMIT; lia).
    rewrite E23, E26, E25, E27, E28. rewrite (bool_decide_false (m_root mem <> _)) by (intros N; by apply N).
    cbn [negb orb]. rewrite !bool_decide_true by done.
    destruct (ConsensusSecurityUpgradeActive h); cbn [negb andb] in E29, E30; [by rewrite E29|by rewrite E30].
  - apply bool_decide_eq_false_1 in H18. split; [|done]. intros N. rewrite N in H17. discriminate H17.
  - eexists _, _. reflexivity.
Qed.

Lemma OpSlashEquiv_effect reg st h tx data parts reg' st' : 0 <= h ->
  OpSlashEquiv csv slash_lockup reg st h tx data parts = Some (reg', st') -> op_effect h reg reg'.
Proof.
  intros Hh H. apply OpSlashEquiv_facts in H as (e & p & ro & sr & sa & sb & ta & tb & r & F).
  destruct (ef_out _ _ _ _ _ _ _ _ _ _ _ _ _ _ _ F) as (keys & eqs & E).
  pose proof (ef_record _ _ _ _ _ _ _ _ _ _ _ _ _ _ _ F) as Hr. clear F.
  set (reg0 := set_equivocations _ _) in E. apply (f_equal fst) in E. cbn [fst] in E. subst reg'.
  destruct (penalise_effect true reg0 st (nth 1 parts []) r h Hh) as (P1 & P2 & P3 & P4 & P5 & P6 & P7 & P8).
  split; rewrite ?P1, ?P2, ?P3, ?P4, ?P5, ?P6, ?P7, ?P8; [by apply ve_slash|constructor|constructor|done..].
Qed.

Lemma ProcessOp_effect reg st h tx data reg' st' ok : 0 <= h ->
  ProcessOp csv get_stake slash_lockup reg st h tx data = (reg', st', ok) -> op_effect h reg reg'.
Proof.
  intros Hh. unfold ProcessOp. cbv zeta.
  set (parts := Split _ _). set (rest := drop _ data).
  match goal with |- (match ?o with Some r => r | None => _ end) = _ -> _ => destruct o as [[[reg1 st1] ok1]|] eqn:E end;
    [|intros [= <- _ _]; apply op_effect_refl].
  intros [= -> -> ->]. pass_any E. pass_any E.
  destruct (bytes_eqb _ _ && _ && _).
  - destruct (OpRegister _ _ _ _ _ _ _) as [[r1 s1]|] eqn:Eo; [|done]. injection E as -> -> _.
    by apply OpRegister_effect in Eo as [? _].
  - match type of E with (match ?o with Some _ => _ | None => None end) = _ => destruct o as [[r1 s1]|] eqn:Eo end; [|done].
    injection E as -> -> _. revert Eo. repeat (match goal with |- (if ?b then _ else _) = _ -> _ => destruct b end).
    + intros H. by apply OpDeregister_effect in H as [? _].
    + by apply OpSlashEquiv_effect.
    + by apply OpSlash_effect.
    + intros H. by apply OpEndorse_effect in H as [? _].
    + done.
Qed.

Lemma process_outs_effect rb h tx outs reg st reg' st' ok : 0 <= h ->
  process_outs csv get_stake slash_lockup rb h tx outs reg st = (reg', st', ok) -> rtc (op_effect h) reg reg'.
Proof.
  intros Hh. revert reg st. induction outs as [|o outs IH]; intros reg st; cbn [process_outs].
  { intros [= <- _ _]. apply rtc_refl. }
  destruct (size _ =? 0); [apply IH|]. destruct (negb _); [apply IH|].
  destruct (ProcessOp _ _ _ _ _ _ _ _) as [[reg1 st1] reg_ok] eqn:E. apply ProcessOp_effect in E; [|done].
  destruct (_ && negb reg_ok).
  - intros [= <- _ _]. by apply rtc_once.
  - intros H. eapply rtc_l; [exact E|]. by eapply IH.
Qed.

Lemma process_txs_effect rb h txs reg st reg' st' ok : 0 <= h ->
  process_txs csv get_stake slash_lockup rb h txs reg st = (reg', st', ok) -> rtc (op_effect h) reg reg'.
Proof.
  intros Hh. revert reg st. induction txs as [|tx txs IH]; intros reg st; cbn [process_txs].
  { intros [= <- _ _]. apply rtc_refl. }
  destruct (process_outs _ _ _ _ _ _ _ _ _) as [[reg1 st1] k] eqn:E. apply process_outs_effect in E; [|done].
  destruct k; cbn [negb].
  - intros H. transitivity reg1; [exact E|]. by eapply IH.
  - by intros [= <- _ _].
Qed.

End Effects.

(** ** The invariant *)

Definition rec_ok (sl : gset bytes) (pk : bytes) (r : ValidatorRecord) : Prop :=
  v_pubkey_hex r = pk /\ IsCanonicalLowerHex pk 3904 = true
  /\ v_address r = PubkeyToAddress (HexToBytes pk) /\ v_bond_custodial r = true
  /\ (0 <= v_slashed_at_height r /\ 0 <= v_deregistered_at_height r)
  /\ (v_slashed r = false -> v_slashed_at_height r = 0)
  /\ (v_slashed r = true <-> pk ∈ sl)
  /\ (v_active r = true ->
      v_slashed r = false /\ v_deregistered_at_height r = 0 /\ v_principal_settled_at r = 0)
  /\ (v_active r = false ->
      if v_slashed r then 0 < v_slashed_at_height r else 0 < v_deregistered_at_height r).

Definition unique_addresses (vs : gmap bytes ValidatorRecord) : Prop :=
  forall pk pk' r r', vs !! pk = Some r -> vs !! pk' = Some r' ->
    v_active r = true -> v_active r' = true -> v_address r = v_address r' -> pk = pk'.

Definition val_inv (vs : gmap bytes ValidatorRecord) (sl : gset bytes) : Prop :=
  map_Forall (rec_ok sl) vs /\ unique_addresses vs.

Definition end_inv (m : gmap Z (list EndorsementRecord)) (ks : gset bytes) : Prop :=
  forall k l, m !! k = Some l -> NoDup (map en_address l)
    /\ Forall (fun e => en_block_height e = k /\ endorsement_key k (en_address e) ∈ ks) l.

Definition evidence_against (pk : bytes) (l : list SlashEvidence) : Z :=
  size (List.filter (fun e => bytes_eqb (ev_pubkey_hex e) pk) l).

Definition evid_inv (l : list SlashEvidence) (c : gmap bytes Z) : Prop :=
  size l <= MAX_SLASHED_EVIDENCE
  /\ forall pk, default 0 (c !! pk) = evidence_against pk l /\ evidence_against pk l <= MAX_EVIDENCE_PER_PUBKEY.

Record registry_inv (reg : ValidatorRegistry) : Prop := {
  ri_val : val_inv (validators_ reg) (slashed_pubkeys_ reg);
  ri_end : end_inv (endorsements_ reg) (endorsement_keys_ reg);
  ri_evid : evid_inv (slashed_evidence_ reg) (evidence_per_pubkey_ reg) }.

(** Replacing one record by a version of it that is active only if it was. *)
Lemma val_inv_update vs sl sl' pk r r' :
  val_inv vs sl -> vs !! pk = Some r -> rec_ok sl' pk r' ->
  (v_active r' = true -> v_active r = true) -> v_address r' = v_address r ->
  (forall k, k <> pk -> k ∈ sl' <-> k ∈ sl) -> val_inv (<[pk := r']> vs) sl'.
Proof.
  intros [Ho Hu] Hr Hr' Ha Had Hsl. split.
  - intros k x Hk. destruct (decide (pk = k)) as [<-|Hn].
    + rewrite lookup_insert_eq in Hk. by injection Hk as <-.
    + rewrite lookup_insert_ne in Hk by done. destruct (Ho k x Hk) as (H1 & H2 & H3 & H4 & H0 & Hz & H5 & H6).
      unfold rec_ok. rewrite Hsl by done. done.
  - intros k k' x x' Hk Hk' A A' E. rewrite lookup_insert in Hk, Hk'.
    destruct (decide (pk = k)) as [<-|Hn], (decide (pk = k')) as [<-|Hn']; [done|..].
    + injection Hk as <-. apply (Hu pk k' r x'); auto. congruence.
    + injection Hk' as <-. apply (Hu k pk x r); auto. congruence.
    + by apply (Hu k k' x x').
Qed.

Lemma val_inv_effect h vs sl vs' sl' :
  0 < h -> val_inv vs sl -> val_effect h vs sl vs' sl' -> val_inv vs' sl'.
Proof.
  intros Hh [Ho Hu] He. destruct He as [|pk u Hx Hs Hp Ha|pk r Hr Ha|e pk r Hr]; [done|..].
  - split.
    + apply map_Forall_insert_2; [|done]. unfold rec_ok. cbn. split_and!; try done.
    + intros k k' x x' Hk Hk' A A' E. rewrite lookup_insert in Hk, Hk'.
    destruct (decide (pk = k)) as [<-|Hn], (decide (pk = k')) as [<-|Hn']; [done|..].
      * injection Hk as <-. exfalso. by apply (Ha k' x').
      * injection Hk' as <-. exfalso. by apply (Ha k x).
      * by apply (Hu k k' x x').
  - destruct (Ho pk r Hr) as (H1 & H2 & H3 & H4 & H0 & Hz & H5 & H6 & H7). destruct (H6 Ha) as (Hs & Hd & Hp).
    apply (val_inv_update vs sl sl pk r); [done|done| |done|done|intros; reflexivity].
    assert (Ed : v_deregistered_at_height (deregister_record r h) = h) by (cbn; by rewrite H4, Hs, Hd).
    unfold rec_ok. rewrite Ed. split_and!; try done; try (cbn; lia).
    intros _. change (v_slashed (deregister_record r h)) with (v_slashed r). by rewrite Hs.
  - destruct (Ho pk r Hr) as (H1 & H2 & H3 & H4 & H0 & Hz & H5 & H6 & H7).
    apply (val_inv_update vs sl ({[pk]} ∪ sl) pk r); [done|done| |done|done|].
    2:{ intros k Hk. rewrite elem_of_union, elem_of_singleton. tauto. }
    assert (Hat : 0 < v_slashed_at_height (slash_record e r h)).
    { cbn. destruct (Z.eqb_spec (v_slashed_at_height r) 0); cbn [orb]; [done|].
      destruct (Z.ltb_spec h (v_slashed_at_height r)); lia. }
    destruct H0 as [_ H0]. unfold rec_ok. split_and!; try done; [lia|].
    split; [intros _; apply elem_of_union_l; by apply elem_of_singleton|done].
Qed.

Lemma end_inv_effect m ks m' ks' : end_inv m ks -> end_effect m ks m' ks' -> end_inv m' ks'.
Proof.
  intros H He. destruct He as [|k recs e Hk <- Eh]; [done|].
  intros k' l Hl. destruct (decide (k = k')) as [<-|Hn].
  - rewrite lookup_insert_eq in Hl. injection Hl as <-.
    assert (Hd : NoDup (map en_address (default [] (m !! k)))
      /\ Forall (fun e => en_block_height e = k /\ endorsement_key k (en_address e) ∈ ks) (default [] (m !! k))).
    { destruct (m !! k) as [l|] eqn:El; [by apply H|]. split; constructor. }
    destruct Hd as [Hn Hf]. rewrite map_app. split.
    + apply NoDup_app. split; [done|]. split; [|apply NoDup_singleton].
      intros a Hin. cbn [map]. rewrite list_elem_of_singleton. intros ->.
      apply list_elem_of_fmap in Hin as (x & E & Hx). rewrite Forall_forall in Hf.
      apply Hf in Hx as [_ Hx]. rewrite E in Hk. by apply Hk.
    + apply Forall_app. split; [|apply Forall_singleton; split; [done|by apply elem_of_union_l, elem_of_singleton]].
      apply (Forall_impl _ _ _ Hf). intros x [Hx Hy]. split; [done|by apply elem_of_union_r].
  - rewrite lookup_insert_ne in Hl by done. destruct (H k' l Hl) as [H1 H2]. split; [done|].
    apply (Forall_impl _ _ _ H2). intros x [Hx Hy]. split; [done|by apply elem_of_union_r].
Qed.

Lemma evid_inv_effect l c l' c' : evid_inv l c -> evid_effect l c l' c' -> evid_inv l' c'.
Proof.
  intros [Hs Hc] He. destruct He as [|e Hl He]; [done|]. split.
  - unfold size in *. rewrite length_app. cbn [length]. lia.
  - intros pk. unfold evidence_against, size. rewrite List.filter_app, length_app. cbn [List.filter].
    destruct (Hc pk) as [H1 H2]. unfold evidence_against, size in H1, H2. unfold bytes_eqb at 2 4.
    case_bool_decide as E.
    + subst pk. rewrite lookup_insert_eq. rewrite H1 in He |- *. cbn [length default from_option]. unfold id. lia.
    + rewrite lookup_insert_ne by done. rewrite H1. cbn [length]. lia.
Qed.

Lemma registry_inv_effects h reg reg' :
  0 < h -> rtc (op_effect h) reg reg' -> registry_inv reg -> registry_inv reg'.
Proof.
  intros Hh. induction 1 as [|a b c Hab _ IH]; [done|]. intros [H1 H2 H3]. apply IH. destruct Hab. split.
  - by eapply val_inv_effect.
  - by eapply end_inv_effect.
  - by eapply evid_inv_effect.
Qed.

(** ** The other passes over the registry *)

Lemma val_inv_subset vs vs' sl : vs' ⊆ vs -> val_inv vs sl -> val_inv vs' sl.
Proof.
  intros Hs [Ho Hu]. split.
  - intros k r Hk. apply Ho. by apply (lookup_weaken vs' vs).
  - intros k k' r r' Hk Hk'. apply Hu; by apply (lookup_weaken vs' vs).
Qed.

(** A pass that maps every record, keeping activity and address. *)
Lemma val_inv_fmap vs sl (f : ValidatorRecord -> ValidatorRecord) :
  (forall pk r, rec_ok sl pk r -> rec_ok sl pk (f r)) ->
  (forall r, v_active (f r) = v_active r) -> (forall r, v_address (f r) = v_address r) ->
  val_inv vs sl -> val_inv (f <$> vs) sl.
Proof.
  intros Hf Ha Hd [Ho Hu]. split.
  - intros k r Hk. rewrite lookup_fmap in Hk. destruct (vs !! k) as [x|] eqn:E; [|done].
    injection Hk as <-. by apply Hf, Ho.
  - intros k k' r r' Hk Hk'. rewrite lookup_fmap in Hk, Hk'.
    destruct (vs !! k) as [x|] eqn:E; [|done]. destruct (vs !! k') as [x'|] eqn:E'; [|done].
    injection Hk as <-. injection Hk' as <-. rewrite !Ha, !Hd. by apply Hu.
Qed.

Lemma legacy_active sl pk r : rec_ok sl pk r -> v_active r = true -> LegacyPrincipalBoundary r = 0.
Proof.
  intros (_ & _ & _ & H4 & _ & _ & _ & H6 & _) Ha. destruct (H6 Ha) as (Hs & Hd & _).
  unfold LegacyPrincipalBoundary. rewrite H4, Hs, Hd. cbn. by destruct (v_bond_units r =? 0).
Qed.

Lemma settle_record_ok reg h sl pk r : rec_ok sl pk r -> rec_ok sl pk (settle_record reg h r).
Proof.
  intros Hr. assert (Hset : forall x, v_active r = false -> rec_ok sl pk (settle_at r x)).
  { intros x Ha. destruct Hr as (H1 & H2 & H3 & H4 & [H0 Hd] & Hz & H5 & H6 & H7).
    unfold rec_ok, settle_at. cbn. split_and!; try done. congruence. }
  unfold settle_record. destruct (v_principal_settled_at r =? 0); [|done]. cbn [negb].
  destruct (v_active r) eqn:Ha.
  - pose proof (legacy_active sl pk r Hr Ha) as Hl. rewrite Hl. cbn [Z.eqb negb andb].
    unfold PrincipalSettlementBoundaryLocked. rewrite Hl. cbn [Z.eqb negb andb orb].
    by destruct (ConsensusSecurityUpgradeActive h).
  - destruct (_ && _); [by apply Hset|]. destruct (_ && _); [by apply Hset|done].
Qed.

Lemma settle_record_active reg h r : v_active (settle_record reg h r) = v_active r.
Proof. unfold settle_record. by repeat match goal with |- context [if ?b then _ else _] => destruct b end. Qed.
Lemma settle_record_address reg h r : v_address (settle_record reg h r) = v_address r.
Proof. unfold settle_record. by repeat match goal with |- context [if ?b then _ else _] => destruct b end. Qed.

Lemma SettlePrincipals_inv reg h : registry_inv reg -> registry_inv (SettlePrincipals reg h).
Proof.
  intros [H1 H2 H3]. unfold SettlePrincipals. destruct (ConsensusSecurityUpgradeActive h); [|done].
  split; [|done|done]. apply val_inv_fmap; auto using settle_record_ok, settle_record_active, settle_record_address.
Qed.

Lemma end_inv_weaken m ks ks' : end_inv m ks -> ks ⊆ ks' -> end_inv m ks'.
Proof.
  intros H Hs k l Hl. destruct (H k l Hl) as [H1 H2]. split; [done|].
  apply (Forall_impl _ _ _ H2). intros x [Hx Hy]. split; [done|by apply Hs].
Qed.

Lemma record_keys_elem m k l e : m !! k = Some l -> e ∈ l -> endorsement_key k (en_address e) ∈ record_keys m.
Proof.
  intros Hm He. unfold record_keys. apply elem_of_list_to_set, list_elem_of_In, in_concat.
  exists (map (fun r => endorsement_key k (en_address r)) l). split.
  - apply in_map_iff. exists (k, l). split; [done|]. by apply list_elem_of_In, elem_of_map_to_list.
  - apply in_map_iff. exists e. split; [done|]. by apply list_elem_of_In.
Qed.

Lemma PruneEndorsements_end reg h :
  end_inv (endorsements_ reg) (endorsement_keys_ reg) ->
  let reg' := PruneEndorsementsLocked reg h in end_inv (endorsements_ reg') (endorsement_keys_ reg').
Proof.
  intros H. unfold PruneEndorsementsLocked. set (mk := if _ >? _ then _ else _).
  assert (Hf : forall k l, filter (fun p : Z * list EndorsementRecord => negb (p.1 <? mk)) (endorsements_ reg) !! k = Some l
      -> endorsements_ reg !! k = Some l) by (intros k l Hk; by apply map_lookup_filter_Some in Hk as [Hk _]).
  destruct (negb _); cbn [endorsements_ endorsement_keys_ set_endorsements set_endorsement_keys].
  - intros k l Hl. by apply H, Hf.
  - intros k l Hl. destruct (H k l (Hf k l Hl)) as [H1 H2]. split; [done|].
    apply Forall_forall. intros e He. rewrite Forall_forall in H2. split; [by apply H2|].
    by apply (record_keys_elem _ k l).
Qed.

Lemma PruneEndorsements_frame reg h :
  let reg' := PruneEndorsementsLocked reg h in
  validators_ reg' = validators_ reg /\ slashed_pubkeys_ reg' = slashed_pubkeys_ reg
  /\ slashed_evidence_ reg' = slashed_evidence_ reg /\ evidence_per_pubkey_ reg' = evidence_per_pubkey_ reg.
Proof. cbv zeta. unfold PruneEndorsementsLocked. by destruct (negb _). Qed.

Lemma MarkRewardsPaid_end reg h :
  end_inv (endorsements_ reg) (endorsement_keys_ reg) ->
  let reg' := MarkRewardsPaidLocked reg h in end_inv (endorsements_ reg') (endorsement_keys_ reg').
Proof.
  intros H. unfold MarkRewardsPaidLocked. apply PruneEndorsements_end.
  cbn [endorsements_ endorsement_keys_ set_endorsements]. intros k l Hl. rewrite map_lookup_imap in Hl.
  destruct (endorsements_ reg !! k) as [l0|] eqn:E; [|done]. cbn in Hl. injection Hl as <-.
  destruct (H k l0 E) as [H1 H2]. destruct (k <=? h); [|done]. split.
  - by rewrite map_map.
  - apply Forall_map. apply (Forall_impl _ _ _ H2). by intros e [? ?].
Qed.

Lemma pool_state_inv reg block :
  registry_inv reg -> registry_inv (ProcessEndorsementPoolStateLocked reg block).
Proof.
  intros [H1 H2 H3]. unfold ProcessEndorsementPoolStateLocked. destruct (canonical_flush _ _); [|done].
  destruct (PruneEndorsements_frame (set_endorsements reg
    (map_imap (fun h recs => Some (if h <=? Block.height block then map mark_paid recs else recs)) (endorsements_ reg)))
    (Block.height block)) as (F1 & F2 & F3 & F4).
  split; cbn [validators_ slashed_pubkeys_ endorsements_ endorsement_keys_ slashed_evidence_ evidence_per_pubkey_
    set_flush_height set_pool_outpoints].
  - unfold MarkRewardsPaidLocked. rewrite F1, F2. done.
  - by apply MarkRewardsPaid_end.
  - unfold MarkRewardsPaidLocked. rewrite F3, F4. done.
Qed.

(** Retiring records only removes them, and only records that may go. *)
Lemma prune_fold h l reg reg' :
  reg' = foldl (fun r p => if should_evict r h (fst p) (snd p) then evict_record r (fst p) (snd p) else r) reg l ->
  validators_ reg' ⊆ validators_ reg
  /\ (forall pk r, validators_ reg !! pk = Some r ->
       (forall x, (pk, x) ∈ l -> should_evict reg h pk x = false) -> validators_ reg' !! pk = Some r)
  /\ bond_yield_escrow_ reg' = bond_yield_escrow_ reg /\ slashed_pubkeys_ reg' = slashed_pubkeys_ reg
  /\ endorsements_ reg' = endorsements_ reg /\ endorsement_keys_ reg' = endorsement_keys_ reg
  /\ slashed_evidence_ reg' = slashed_evidence_ reg /\ evidence_per_pubkey_ reg' = evidence_per_pubkey_ reg.
Proof.
  intros ->. revert reg. induction l as [|[k x] l IH]; intros reg; cbn [foldl fst snd]; [done|].
  assert (Hes : forall r0 pk y, bond_yield_escrow_ r0 = bond_yield_escrow_ reg -> should_evict r0 h pk y = should_evict reg h pk y)
    by (intros r0 pk y Hb; unfold should_evict, has_tranches; by rewrite Hb).
  set (reg1 := if should_evict reg h k x then evict_record reg k x else reg).
  assert (H1 : validators_ reg1 ⊆ validators_ reg /\ bond_yield_escrow_ reg1 = bond_yield_escrow_ reg
    /\ slashed_pubkeys_ reg1 = slashed_pubkeys_ reg /\ endorsements_ reg1 = endorsements_ reg
    /\ endorsement_keys_ reg1 = endorsement_keys_ reg /\ slashed_evidence_ reg1 = slashed_evidence_ reg
    /\ evidence_per_pubkey_ reg1 = evidence_per_pubkey_ reg).
  { unfold reg1. destruct (should_evict reg h k x); [|done]. split; [apply delete_subseteq|done]. }
  destruct H1 as (S1 & B1 & R1). destruct (IH reg1) as (S2 & K2 & B2 & R2).
  split; [by transitivity (validators_ reg1)|]. split; [|rewrite B2, B1; destruct R1 as (-> & -> & -> & -> & ->) in R2; done].
  intros pk r Hr Hl. apply K2.
  - unfold reg1. destruct (should_evict reg h k x) eqn:E; [|done]. cbn [validators_ evict_record set_validators].
    rewrite lookup_delete_ne; [done|]. intros ->. rewrite Hl in E; [done|]. left.
  - intros y Hy. rewrite Hes by done. apply Hl. by right.
Qed.

Lemma prune_inactive reg h :
  let reg' := PruneInactiveValidatorsLocked reg h in
  validators_ reg' ⊆ validators_ reg
  /\ (forall pk r, validators_ reg !! pk = Some r -> should_evict reg h pk r = false ->
       validators_ reg' !! pk = Some r)
  /\ slashed_pubkeys_ reg' = slashed_pubkeys_ reg
  /\ endorsements_ reg' = endorsements_ reg /\ endorsement_keys_ reg' = endorsement_keys_ reg
  /\ slashed_evidence_ reg' = slashed_evidence_ reg /\ evidence_per_pubkey_ reg' = evidence_per_pubkey_ reg.
Proof.
  cbv zeta. unfold PruneInactiveValidatorsLocked.
  destruct (prune_fold h (map_to_list (validators_ reg)) reg _ eq_refl) as (H1 & H2 & _ & H4).
  split; [done|]. split; [|done]. intros pk r Hr He. apply H2; [done|].
  intros x Hx. apply elem_of_map_to_list in Hx. rewrite Hr in Hx. by injection Hx as <-.
Qed.

(** ** One block *)

(** The registry after the settlements and before the markers. *)
Definition before_markers (reg : ValidatorRegistry) (block : Block) (plan : BondYieldBoundaryPlan)
    (allocs : list (bytes * Z)) : ValidatorRegistry :=
  let h := Block.height block in
  let boundary := is_bond_yield_boundary h in
  let reg := set_migration_active reg (SecurityStateMigrationActive h) in
  let reg := if boundary then set_escrow reg (RetireBondYieldTranchesLocked plan (bond_yield_escrow_ reg)) else reg in
  let reg := ProcessEndorsementPoolStateLocked (SettlePrincipals reg h) block in
  if boundary then set_escrow reg (AccrueBondYield h allocs (bond_yield_escrow_ reg)) else reg.

Section BlockRules.
Context (csv : bytes -> bytes -> bytes -> bool).

Lemma ProcessBlockImpl_inv {T} (get : T -> bytes -> Z) (lock : T -> bytes -> Z -> T) rb reg st block reg' st' :
  0 <= Block.height block ->
  ProcessBlockImpl csv get lock rb reg st block = (reg', st', true) ->
  exists plan allocs reg1, rtc (op_effect (Block.height block)) (before_markers reg block plan allocs) reg1
    /\ reg' = PruneInactiveValidatorsLocked (PruneEndorsementsLocked reg1 (Block.height block)) (Block.height block).
Proof.
  intros Hh. unfold ProcessBlockImpl. destruct (negb (HasValidRegisterMultiplicity block)); [done|].
  match goal with |- context [match ?p with Some _ => _ | None => _ end] => destruct p as [[plan allocs]|] eqn:Ep end; [|done].
  destruct (process_txs _ _ _ _ _ _ _ _) as [[reg1 st1] ok] eqn:E. apply process_txs_effect in E; [|done].
  destruct ok; [|done]. intros [= <- <-]. by exists plan, allocs, reg1.
Qed.

Lemma ProcessBlockImpl_false {T} (get : T -> bytes -> Z) (lock : T -> bytes -> Z -> T) reg st block reg' st' :
  ProcessBlockImpl csv get lock false reg st block = (reg', st', false) ->
  st' = st /\ (reg' = reg \/ reg' = set_migration_active reg (SecurityStateMigrationActive (Block.height block))).
Proof.
  assert (Hout : forall h tx outs r s r' s' ok,
    process_outs csv get lock false h tx outs r s = (r', s', ok) -> ok = true).
  { intros h tx outs. induction outs as [|o outs IH]; intros r s r' s' ok; cbn [process_outs]; [by intros [=]|].
    destruct (size _ =? 0); [apply IH|]. destruct (negb _); [apply IH|].
    destruct (ProcessOp _ _ _ _ _ _ _ _) as [[r1 s1] k]. cbn [andb]. apply IH. }
  assert (Htx : forall h txs r s r' s' ok, process_txs csv get lock false h txs r s = (r', s', ok) -> ok = true).
  { intros h txs. induction txs as [|tx txs IH]; intros r s r' s' ok; cbn [process_txs]; [by intros [=]|].
    destruct (process_outs _ _ _ _ _ _ _ _ _) as [[r1 s1] k] eqn:E. apply Hout in E as ->. apply IH. }
  unfold ProcessBlockImpl. destruct (negb (HasValidRegisterMultiplicity block)).
  { intros [= <- <-]. auto. }
  match goal with |- context [match ?p with Some _ => _ | None => _ end] => destruct p as [[plan allocs]|] eqn:Ep end.
  - destruct (process_txs _ _ _ _ _ _ _ _) as [[reg1 st1] ok] eqn:E. apply Htx in E as ->. discriminate.
  - intros [= <- <-]. auto.
Qed.

Lemma ProcessBlock_inv {T} (get : T -> bytes -> Z) (lock : T -> bytes -> Z -> T) reg st block reg' st' :
  0 <= Block.height block ->
  ProcessBlock csv get lock reg st block = (reg', st', true) ->
  exists plan allocs reg1, rtc (op_effect (Block.height block)) (before_markers reg block plan allocs) reg1
    /\ reg' = PruneInactiveValidatorsLocked (PruneEndorsementsLocked reg1 (Block.height block)) (Block.height block).
Proof.
  intros Hh. unfold ProcessBlock. destruct (_ || _); [by apply ProcessBlockImpl_inv|].
  destruct (ProcessBlockImpl _ _ _ _ _ _ _) as [[staged [s l]] ok] eqn:E.
  destruct ok; [|done]. intros [= <- <-]. by apply ProcessBlockImpl_inv in E.
Qed.

End BlockRules.

Lemma before_markers_inv reg block plan allocs :
  registry_inv reg -> registry_inv (before_markers reg block plan allocs).
Proof.
  intros H. unfold before_markers. cbv zeta.
  set (reg0 := if is_bond_yield_boundary _ then _ else set_migration_active _ _).
  assert (H0 : registry_inv reg0) by (unfold reg0; destruct (is_bond_yield_boundary _), H; by split).
  set (reg1 := ProcessEndorsementPoolStateLocked _ _).
  assert (H1 : registry_inv reg1) by (by apply pool_state_inv, SettlePrincipals_inv).
  destruct (is_bond_yield_boundary _), H1; by split.
Qed.

Lemma after_markers_inv reg h :
  registry_inv reg -> registry_inv (PruneInactiveValidatorsLocked (PruneEndorsementsLocked reg h) h).
Proof.
  intros [H1 H2 H3]. destruct (prune_inactive (PruneEndorsementsLocked reg h) h) as (S & _ & P1 & P2 & P3 & P4 & P5).
  destruct (PruneEndorsements_frame reg h) as (F1 & F2 & F3 & F4). split.
  - rewrite P1, F2. apply (val_inv_subset _ _ _ S). by rewrite F1.
  - rewrite P2, P3. by apply PruneEndorsements_end.
  - rewrite P4, P5, F3, F4. done.
Qed.

(** ** Reachable registries *)

Section Reachable.
Context (csv : bytes -> bytes -> bytes -> bool).
Context {T : Type} (get_stake : T -> bytes -> Z) (slash_lockup : T -> bytes -> Z -> T).

(** The transitions of the node: an accepted block, an accepted certificate, a frozen
    epoch set, the refreshed stake total, and any step of the staking ledger. *)
Inductive registry_step : ValidatorRegistry * T -> ValidatorRegistry * T -> Prop :=
| rs_block reg st block reg' st' :
    0 < Block.height block -> ProcessBlock csv get_stake slash_lockup reg st block = (reg', st', true) ->
    registry_step (reg, st) (reg', st')
| rs_certificate reg st qc snapshot carrier reg' :
    RecordFinalityQc reg qc snapshot carrier = Some reg' -> registry_step (reg, st) (reg', st)
| rs_snapshot reg st snapshot reg' :
    RecordFinalitySnapshot reg snapshot = (reg', true) -> registry_step (reg, st) (reg', st)
| rs_total reg st units : registry_step (reg, st) (SetTotalStaked reg units, st)
| rs_staking reg st st' : registry_step (reg, st) (reg, st').

Lemma record_qc_loop_inv bitmap i es carrier vs vs' sl :
  val_inv vs sl -> record_qc_loop bitmap i es carrier vs = Some vs' -> val_inv vs' sl.
Proof.
  revert i vs. induction es as [|e es IH]; intros i vs H; cbn [record_qc_loop]; [by intros [= <-]|].
  destruct (negb _); [by apply IH|]. destruct (vs !! _) as [r|] eqn:Er; [|done].
  destruct (bool_decide _); [done|]. apply IH. pose proof (proj1 H _ _ Er) as Hr.
  apply (val_inv_update vs sl sl _ r); [done|done|exact Hr|done|done|intros; reflexivity].
Qed.

Lemma step_inv a b : registry_step a b -> registry_inv (fst a) -> registry_inv (fst b).
Proof.
  intros H Hi. destruct H as [reg st block reg' st' Hh H|reg st qc s c reg' H|reg st s reg' H|reg st u|reg st st'];
    cbn [fst] in *.
  - apply ProcessBlock_inv in H as (plan & allocs & reg1 & Hr & ->); [|lia].
    apply after_markers_inv. apply (registry_inv_effects _ _ _ Hh Hr). by apply before_markers_inv.
  - unfold RecordFinalityQc in H. destruct (_ || _); [done|].
    destruct (record_qc_loop _ _ _ _ _) as [vs|] eqn:E; [|done]. injection H as <-.
    destruct Hi. split; [|done|done]. by apply (record_qc_loop_inv _ _ _ _ _ _ _ ri_val0 E).
  - unfold RecordFinalitySnapshot in H. destruct (negb _); [done|].
    destruct (map_find _ _); [injection H as <- _; done|]. 
    match type of H with (if ?b then _ else _) = _ => destruct b end; [done|].
    injection H as <-. destruct Hi. by split.
  - destruct Hi. by split.
  - done.
Qed.

Lemma steps_inv a b : rtc registry_step a b -> registry_inv (fst a) -> registry_inv (fst b).
Proof. induction 1 as [|x y z Hxy _ IH]; [done|]. intros H. by apply IH, (step_inv x). Qed.

End Reachable.

Lemma EmptyRegistry_inv : registry_inv EmptyRegistry.
Proof.
  split.
  - change (validators_ EmptyRegistry) with (∅ : gmap bytes ValidatorRecord).
    split; [intros k r H; by rewrite lookup_empty in H|intros k k' r r' H; by rewrite lookup_empty in H].
  - change (endorsements_ EmptyRegistry) with (∅ : gmap Z (list EndorsementRecord)).
    intros k l H. by rewrite lookup_empty in H.
  - split; [done|]. intros pk. change (evidence_per_pubkey_ EmptyRegistry) with (∅ : gmap bytes Z).
    by rewrite lookup_empty.
Qed.
