(* ===== verification/ValidatorSafety.v ===== *)
(** * Validator registry: properties

    The claims about the registry's block transition, over the step rules of
    [ValidatorRules]: the invariant of every reachable registry, permanence of
    slashing, custody of bonds, atomicity of refused blocks, and soundness of
    equivocation evidence. *)
From S2P Require Import Prelude Bytes Profile Transaction Block Address OpAuthorization Marker Coinbase.
From S2P Require Import StateDigest FinalityQc FinalitySnapshot FinalityVotes FinalityState.
From S2P Require Import Validators BondYield EndorsementWire ValidatorOps ValidatorRules.

(** ** Barred keys *)

Lemma effects_barred h reg reg' pk :
  rtc (op_effect h) reg reg' -> pk ∈ slashed_pubkeys_ reg -> pk ∈ slashed_pubkeys_ reg'.
Proof.
  induction 1 as [|a b c Hab _ IH]; [done|]. intros H. apply IH. destruct (oe_val _ _ _ Hab); try done.
  by apply elem_of_union_r.
Qed.

Lemma before_markers_barred reg block plan allocs :
  slashed_pubkeys_ (before_markers reg block plan allocs) = slashed_pubkeys_ reg.
Proof.
  unfold before_markers, ProcessEndorsementPoolStateLocked, SettlePrincipals, MarkRewardsPaidLocked,
    PruneEndorsementsLocked. cbv zeta.
  destruct (is_bond_yield_boundary _), (ConsensusSecurityUpgradeActive _), (canonical_flush _ _); cbn; try done;
    by destruct (negb _).
Qed.

Section Barred.
Context (csv : bytes -> bytes -> bytes -> bool).
Context {T : Type} (get_stake : T -> bytes -> Z) (slash_lockup : T -> bytes -> Z -> T).

Lemma step_barred a b pk :
  registry_step csv get_stake slash_lockup a b -> pk ∈ slashed_pubkeys_ (fst a) -> pk ∈ slashed_pubkeys_ (fst b).
Proof.
  intros H Hp. destruct H as [reg st block reg' st' Hh H|reg st qc s c reg' H|reg st s reg' H|reg st u|reg st st'];
    cbn [fst] in *; try done.
  - apply ProcessBlock_inv in H as (plan & allocs & reg1 & Hr & ->); [|lia].
    destruct (prune_inactive (PruneEndorsementsLocked reg1 (Block.height block)) (Block.height block)) as (_ & _ & -> & _).
    destruct (PruneEndorsements_frame reg1 (Block.height block)) as (_ & -> & _).
    apply (effects_barred _ _ _ _ Hr). by rewrite before_markers_barred.
  - unfold RecordFinalityQc in H. destruct (_ || _); [done|].
    destruct (record_qc_loop _ _ _ _ _); [|done]. by injection H as <-.
  - unfold RecordFinalitySnapshot in H. destruct (negb _); [done|].
    destruct (map_find _ _); [injection H as <- _; done|].
    match type of H with (if ?b then _ else _) = _ => destruct b end; [done|]. by injection H as <-.
Qed.

End Barred.

Lemma barred_inactive reg pk : registry_inv reg -> pk ∈ slashed_pubkeys_ reg -> is_active_key reg pk = false.
Proof.
  intros [[Ho _] _ _] Hp. unfold is_active_key. destruct (validators_ reg !! pk) as [r|] eqn:E; [|done].
  destruct (Ho pk r E) as (_ & _ & _ & _ & _ & _ & H5 & H6 & _). destruct (v_active r); [|done].
  destruct (H6 eq_refl) as [Hs _]. apply H5 in Hp. congruence.
Qed.

(** ** Custody of a bond *)

Definition same_bond (r r' : ValidatorRecord) : Prop :=
  v_address r' = v_address r /\ v_registered_height r' = v_registered_height r
  /\ v_bond_units r' = v_bond_units r /\ v_bond_custodial r' = v_bond_custodial r.

(** Within the block at height [h]: not paid before it. *)
Definition open_bond (h : Z) (r : ValidatorRecord) : Prop :=
  0 < v_bond_units r
  /\ (v_principal_settled_at r = h
      \/ v_principal_settled_at r = 0 /\ PrincipalAlreadyPaidLocked r h = false).

Lemma boundary_late x : CONSENSUS_SECURITY_UPGRADE_HEIGHT <= x ->
  (saturate64 x <? CONSENSUS_SECURITY_UPGRADE_HEIGHT) = false.
Proof.
  intros H. unfold saturate64. destruct (x >? UINT64_MAX); apply Z.ltb_ge; [vm_compute; discriminate|done].
Qed.

Lemma ceil_div_le x n : 0 < n -> x <= (x + n - 1) / n * n.
Proof.
  intros Hn. pose proof (Z.div_mod (x + n - 1) n ltac:(lia)). pose proof (Z.mod_pos_bound (x + n - 1) n ltac:(lia)). lia.
Qed.

Lemma next_div_lt x n : 0 < n -> x < (x / n + 1) * n.
Proof. intros Hn. pose proof (Z.div_mod x n ltac:(lia)). pose proof (Z.mod_pos_bound x n ltac:(lia)). lia. Qed.

Lemma dereg_late h v : CONSENSUS_SECURITY_UPGRADE_HEIGHT <= h ->
  (DeregReturnBoundary h v <? CONSENSUS_SECURITY_UPGRADE_HEIGHT) = false.
Proof.
  intros Hh. unfold DeregReturnBoundary. apply boundary_late. set (e := if negb _ then _ else _).
  assert (h <= e).
  { unfold e, DeregEvidenceCooldown, STAKE_VAULT_ACTIVATION_HEIGHT, VALIDATOR_SLASHING_HEIGHT.
    unfold CONSENSUS_SECURITY_UPGRADE_HEIGHT in Hh. destruct (Z.leb_spec 0 h); [|lia].
    assert (0 <= Z.max VALIDATOR_OP_COOLDOWN_BLOCKS FINALITY_CLEAN_EXIT_WINDOW) by (vm_compute; discriminate).
    destruct (negb _); [|lia]. destruct (Z.gtb_spec (v + FINALITY_EQUIV_EVIDENCE_WINDOW)
      (h + Z.max VALIDATOR_OP_COOLDOWN_BLOCKS FINALITY_CLEAN_EXIT_WINDOW)); lia. }
  pose proof (next_div_lt e BOND_SETTLEMENT_INTERVAL eq_refl). lia.
Qed.

Lemma slash_late h : CONSENSUS_SECURITY_UPGRADE_HEIGHT <= h ->
  (SlashSettlementBoundary h <? CONSENSUS_SECURITY_UPGRADE_HEIGHT) = false.
Proof.
  intros Hh. unfold SlashSettlementBoundary. apply boundary_late.
  pose proof (ceil_div_le (h + VALIDATOR_OP_COOLDOWN_BLOCKS) BOND_SETTLEMENT_INTERVAL eq_refl).
  unfold VALIDATOR_OP_COOLDOWN_BLOCKS in *. lia.
Qed.

Lemma paid_unsettled r h : v_principal_settled_at r = 0 ->
  PrincipalAlreadyPaidLocked r h
  = ConsensusSecurityUpgradeActive h && negb (LegacyPrincipalBoundary r =? 0)
    && (LegacyPrincipalBoundary r <? CONSENSUS_SECURITY_UPGRADE_HEIGHT).
Proof. intros H. unfold PrincipalAlreadyPaidLocked. by rewrite H. Qed.

Lemma open_late h r : 0 < v_bond_units r -> v_principal_settled_at r = 0 ->
  (LegacyPrincipalBoundary r = 0 \/ (LegacyPrincipalBoundary r <? CONSENSUS_SECURITY_UPGRADE_HEIGHT) = false) ->
  open_bond h r.
Proof.
  intros Hu Hs Hl. split; [done|]. right. split; [done|]. rewrite paid_unsettled by done.
  destruct Hl as [-> | ->]; [|apply andb_false_r]. cbn. by rewrite andb_false_r.
Qed.

Lemma upgrade_active h : CONSENSUS_SECURITY_UPGRADE_HEIGHT <= h -> ConsensusSecurityUpgradeActive h = true.
Proof.
  intros H. unfold ConsensusSecurityUpgradeActive. apply andb_true_iff. split; [done|]. by apply Z.leb_le.
Qed.

(** One marker keeps an open bond in place. *)
Lemma bond_effect h vs sl vs' sl' pk r :
  CONSENSUS_SECURITY_UPGRADE_HEIGHT <= h -> val_inv vs sl -> val_effect h vs sl vs' sl' ->
  vs !! pk = Some r -> open_bond h r ->
  exists r', vs' !! pk = Some r' /\ same_bond r r' /\ open_bond h r'
    /\ v_principal_settled_at r' = v_principal_settled_at r.
Proof.
  intros Hh [Ho _] He Hr [Hu Hp]. pose proof (Ho pk r Hr) as (K1 & K2 & K3 & K4 & K0 & Kz & K5 & K6 & K7).
  assert (Hkeep : forall k x, k <> pk -> exists r', <[k := x]> vs !! pk = Some r' /\ same_bond r r'
      /\ open_bond h r' /\ v_principal_settled_at r' = v_principal_settled_at r).
  { intros k x Hn. exists r. by rewrite lookup_insert_ne. }
  assert (Hh0 : 0 < h) by (unfold CONSENSUS_SECURITY_UPGRADE_HEIGHT in Hh; lia).
  destruct He as [|k u Hx Hs Hprior Ha|k x Hx Ha|e k x Hx]; [by exists r|..];
    (destruct (decide (k = pk)) as [->|Hn]; [|by apply Hkeep]).
  - exfalso. destruct (Hprior r Hr) as [Hact Hpend].
    assert (Hns : v_slashed r = false) by (destruct (v_slashed r); [exfalso; by apply Hs, K5|done]).
    specialize (K7 Hact). rewrite Hns in K7. unfold DeregisteredBondPendingAtLocked in Hpend.
    rewrite upgrade_active, K4, Hns in Hpend by done. cbn [negb orb] in Hpend.
    destruct (Z.eqb_spec (v_bond_units r) 0); [lia|]. destruct (Z.eqb_spec (v_deregistered_at_height r) 0); [lia|].
    cbn [orb] in Hpend. destruct Hp as [Hp|[Hp Hq]].
    + rewrite Hp in Hpend. destruct (Z.eqb_spec h 0); [lia|]. cbn [negb] in Hpend. rewrite Z.leb_refl in Hpend. done.
    + rewrite Hp, Hq in Hpend. done.
  - rewrite Hr in Hx. injection Hx as <-. destruct (K6 Ha) as (Hs & Hd & Hset).
    exists (deregister_record r h). rewrite lookup_insert_eq. split_and!; try done.
    apply open_late; [done|done|]. right. unfold LegacyPrincipalBoundary, deregister_record. cbn.
    rewrite K4, Hs, Hd. cbn. destruct (Z.eqb_spec (v_bond_units r) 0); [lia|].
    destruct (Z.eqb_spec h 0); [lia|]. by apply dereg_late.
  - rewrite Hr in Hx. injection Hx as <-. exists (slash_record e r h). rewrite lookup_insert_eq.
    split_and!; try done. destruct Hp as [Hp|[Hp Hq]]; [by split; [|left]|].
    apply open_late; [done|done|]. right. unfold LegacyPrincipalBoundary, slash_record. cbn.
    rewrite K4. cbn. destruct (Z.eqb_spec (v_bond_units r) 0) as [|_]; [lia|].
    destruct (Z.eqb_spec (v_slashed_at_height r) 0) as [Hz|Hz]; cbn [orb].
    { destruct (Z.eqb_spec h 0); [lia|]. by apply slash_late. }
    destruct (Z.ltb_spec h (v_slashed_at_height r)).
    { destruct (Z.eqb_spec h 0); [lia|]. by apply slash_late. }
    destruct (Z.eqb_spec (v_slashed_at_height r) 0); [lia|]. cbn [negb].
    assert (Hs : v_slashed r = true) by (destruct (v_slashed r); [done|]; by rewrite Kz in Hz).
    rewrite paid_unsettled, upgrade_active in Hq by done. unfold LegacyPrincipalBoundary in Hq.
    rewrite K4, Hs in Hq. cbn [negb orb andb] in Hq. destruct (Z.eqb_spec (v_bond_units r) 0); [lia|].
    destruct (Z.eqb_spec (v_slashed_at_height r) 0); [lia|]. cbn [negb andb] in Hq.
    apply andb_false_iff in Hq as [Hq|Hq]; [|done]. apply negb_false_iff, Z.eqb_eq in Hq.
    pose proof (ceil_div_le (v_slashed_at_height r + VALIDATOR_OP_COOLDOWN_BLOCKS) BOND_SETTLEMENT_INTERVAL eq_refl).
    unfold SlashSettlementBoundary, saturate64, VALIDATOR_OP_COOLDOWN_BLOCKS in *.
    destruct (_ >? UINT64_MAX) in Hq; [discriminate Hq|lia].
Qed.

Lemma bond_effects h reg reg' pk r :
  CONSENSUS_SECURITY_UPGRADE_HEIGHT <= h -> rtc (op_effect h) reg reg' -> registry_inv reg ->
  validators_ reg !! pk = Some r -> open_bond h r ->
  exists r', validators_ reg' !! pk = Some r' /\ same_bond r r' /\ open_bond h r'
    /\ v_principal_settled_at r' = v_principal_settled_at r.
Proof.
  intros Hh H. revert r. induction H as [a|a b c Hab Hbc IH]; intros r Hi Hr Ho; [by exists r|].
  assert (Hh0 : 0 < h) by (unfold CONSENSUS_SECURITY_UPGRADE_HEIGHT in Hh; lia).
  destruct (bond_effect _ _ _ _ _ pk r Hh (ri_val _ Hi) (oe_val _ _ _ Hab) Hr Ho) as (r1 & L1 & S1 & O1 & P1).
  destruct (IH r1) as (r2 & L2 & S2 & O2 & P2); [|done|done|].
  - by apply (registry_inv_effects h a b Hh0 (rtc_once _ _ Hab)).
  - exists r2. split_and!; [done| |done|congruence].
    destruct S1 as (? & ? & ? & ?), S2 as (? & ? & ? & ?). split_and!; congruence.
Qed.

Lemma pool_state_validators reg block :
  validators_ (ProcessEndorsementPoolStateLocked reg block) = validators_ reg.
Proof.
  unfold ProcessEndorsementPoolStateLocked. destruct (canonical_flush _ _); [|done].
  cbn [validators_ set_pool_outpoints set_flush_height]. unfold MarkRewardsPaidLocked.
  by destruct (PruneEndorsements_frame (set_endorsements reg
    (map_imap (fun h recs => Some (if h <=? Block.height block then map mark_paid recs else recs)) (endorsements_ reg)))
    (Block.height block)) as (-> & _).
Qed.

Lemma before_markers_validators reg block plan allocs :
  ConsensusSecurityUpgradeActive (Block.height block) = true ->
  validators_ (before_markers reg block plan allocs) = settle_record reg (Block.height block) <$> validators_ reg.
Proof.
  intros Hu. unfold before_markers. cbv zeta.
  set (reg0 := if is_bond_yield_boundary _ then _ else set_migration_active _ _).
  assert (H0 : validators_ reg0 = validators_ reg /\ finality_membership_ reg0 = finality_membership_ reg)
    by (unfold reg0; by destruct (is_bond_yield_boundary _)).
  assert (Hs : validators_ (ProcessEndorsementPoolStateLocked (SettlePrincipals reg0 (Block.height block)) block)
               = settle_record reg (Block.height block) <$> validators_ reg).
  { rewrite pool_state_validators. unfold SettlePrincipals. rewrite Hu.
    cbn [validators_ set_upgrade_active set_validators]. destruct H0 as [-> Hm]. apply map_fmap_ext. intros k r _.
    unfold settle_record, PrincipalSettlementBoundaryLocked, evidence_end. by rewrite Hm. }
  by destruct (is_bond_yield_boundary _).
Qed.

Lemma settlement_due reg h pk r :
  ConsensusSecurityUpgradeActive h = true -> v_bond_custodial r = true -> 0 < v_bond_units r ->
  0 <= v_slashed_at_height r -> 0 <= v_deregistered_at_height r ->
  match settlement_of reg h (pk, r) with
  | Some s => PrincipalSettlementBoundaryLocked reg r h = h /\ bs_bond_units s = v_bond_units r
  | None => PrincipalSettlementBoundaryLocked reg r h <> h \/ h = 0
  end.
Proof.
  intros Hu Hc Hb Hs Hd. unfold settlement_of. rewrite Hc, Hu. destruct (Z.eqb_spec (v_bond_units r) 0); [lia|].
  cbn [negb orb andb]. destruct (Z.eqb_spec (PrincipalSettlementBoundaryLocked reg r h) h) as [E|]; cbn [negb]; [|by left].
  destruct (Z.eq_dec h 0) as [|Hh]; [destruct (_ && _); [done|destruct (_ && _); [done|by right]]|].
  assert (Hl : LegacyPrincipalBoundary r <> 0).
  { intros N. unfold PrincipalSettlementBoundaryLocked in E. rewrite Hu, N in E. cbn in E. congruence. }
  unfold LegacyPrincipalBoundary in Hl. rewrite Hc in Hl. destruct (Z.eqb_spec (v_bond_units r) 0); [lia|].
  cbn [negb orb] in Hl. destruct (v_slashed r); cbn [negb andb] in *.
  - destruct (Z.eqb_spec (v_slashed_at_height r) 0); [done|]. destruct (Z.ltb_spec 0 (v_slashed_at_height r)); [done|lia].
  - destruct (Z.eqb_spec (v_deregistered_at_height r) 0); [done|].
    destruct (Z.ltb_spec 0 (v_deregistered_at_height r)); [done|lia].
Qed.

Lemma settle_unpaid reg h r :
  ConsensusSecurityUpgradeActive h = true -> PrincipalAlreadyPaidLocked r h = false -> 0 < h ->
  v_principal_settled_at r = 0
  /\ settle_record reg h r = if PrincipalSettlementBoundaryLocked reg r h =? h then settle_at r h else r.
Proof.
  intros Hu Hp Hh. assert (Hs : v_principal_settled_at r = 0).
  { unfold PrincipalAlreadyPaidLocked in Hp. destruct (Z.eqb_spec (v_principal_settled_at r) 0); [done|discriminate Hp]. }
  split; [done|]. unfold settle_record. rewrite Hs. cbn [Z.eqb negb].
  rewrite paid_unsettled, Hu in Hp by done. cbn [andb] in Hp. rewrite Hp.
  destruct (Z.eqb_spec (PrincipalSettlementBoundaryLocked reg r h) h) as [E|]; [|by rewrite andb_false_r].
  rewrite E. by destruct (Z.eqb_spec h 0); [lia|].
Qed.

(** An unpaid bond is not evicted. *)
Lemma unpaid_retained reg h pk r :
  ConsensusSecurityUpgradeActive h = true -> v_bond_custodial r = true -> 0 < v_bond_units r ->
  PrincipalAlreadyPaidLocked r h = false -> should_evict reg h pk r = false.
Proof.
  intros Hu Hc Hb Hp. unfold should_evict. rewrite Hu, Hc, Hp. cbn [andb negb].
  by destruct (Z.gtb_spec (v_bond_units r) 0); [|lia].
Qed.

(** ** Properties *)

(** C14: the registry is coherent in every reachable state.  Starting from an empty
    registry, through any accepted blocks, certificates, epoch sets and staking
    changes: each record sits under its own canonical key and carries that key's
    address and a custodial bond; at most one active validator has an address; a key
    is slashed exactly when it is barred; an inactive record carries the height of the
    event that retired it; no validator endorses a height twice; and the evidence store
    stays within its total and per-key limits, with exact counts. *)
Theorem registry_coherent csv {T} (get_stake : T -> bytes -> Z) (slash_lockup : T -> bytes -> Z -> T) st0 reg st :
  rtc (registry_step csv get_stake slash_lockup) (EmptyRegistry, st0) (reg, st) -> registry_inv reg.
Proof. intros H. apply (steps_inv _ _ _ _ _ H). apply EmptyRegistry_inv. Qed.

(** Slashing is permanent.  Once a key is barred it stays barred through every
    later transition, and it is never an active validator again, whatever it tries to
    register. *)
Lemma slashing_permanent csv {T} (get_stake : T -> bytes -> Z) (slash_lockup : T -> bytes -> Z -> T) a b pk :
  registry_inv (fst a) -> rtc (registry_step csv get_stake slash_lockup) a b ->
  pk ∈ slashed_pubkeys_ (fst a) -> pk ∈ slashed_pubkeys_ (fst b) /\ is_active_key (fst b) pk = false.
Proof.
  intros Hi H Hp.
  assert (Hb : pk ∈ slashed_pubkeys_ (fst b)).
  { clear Hi. induction H as [|x y z Hxy _ IH]; [done|]. by apply IH, (step_barred _ _ _ _ _ _ Hxy). }
  split; [done|]. apply barred_inactive; [|done]. by apply (steps_inv _ _ _ _ _ H).
Qed.

(** C18: a bond leaves custody only by being paid.  In every accepted block from the
    security upgrade on (height 2880), a bond that was not yet paid either is not due, and then its
    record survives the block with the same address, term and amount and is still
    unpaid; or it is due, and then the block's mandatory settlement pays exactly its
    amount and the record, if kept, is marked paid at this height.  No marker of the
    block, no re-registration and no pruning pass can drop it. *)
Theorem bond_custody csv {T} (get_stake : T -> bytes -> Z) (slash_lockup : T -> bytes -> Z -> T)
    reg st block reg' st' pk r :
  registry_inv reg -> CONSENSUS_SECURITY_UPGRADE_HEIGHT <= Block.height block ->
  ProcessBlock csv get_stake slash_lockup reg st block = (reg', st', true) ->
  validators_ reg !! pk = Some r -> 0 < v_bond_units r ->
  PrincipalAlreadyPaidLocked r (Block.height block) = false ->
  match settlement_of reg (Block.height block) (pk, r) with
  | None => exists r', validators_ reg' !! pk = Some r' /\ same_bond r r'
      /\ PrincipalAlreadyPaidLocked r' (Block.height block) = false
  | Some s => bs_bond_units s = v_bond_units r
      /\ forall r', validators_ reg' !! pk = Some r' ->
           same_bond r r' /\ v_principal_settled_at r' = Block.height block
  end.
Proof.
  intros Hi Hh H Hr Hb Hp. set (h := Block.height block) in *.
  assert (Hh0 : 0 < h) by (unfold CONSENSUS_SECURITY_UPGRADE_HEIGHT in Hh; lia).
  pose proof (upgrade_active h Hh) as Hu.
  destruct (proj1 (ri_val _ Hi) pk r Hr) as (_ & _ & _ & K4 & [K0 Hd] & _).
  apply ProcessBlock_inv in H as (plan & allocs & reg1 & He & ->); [|fold h; lia]. fold h in He.
  destruct (settle_unpaid reg h r Hu Hp Hh0) as [Hset Hrec].
  assert (Hr0 : validators_ (before_markers reg block plan allocs) !! pk = Some (settle_record reg h r))
    by (rewrite before_markers_validators by done; fold h; by rewrite lookup_fmap, Hr).
  assert (Ho : open_bond h (settle_record reg h r)).
  { rewrite Hrec. destruct (_ =? h); [by split; [|left]|by split; [|right]]. }
  destruct (bond_effects h _ _ pk _ Hh He (before_markers_inv _ _ _ _ Hi) Hr0 Ho) as (r1 & L1 & S1 & O1 & P1).
  destruct (prune_inactive (PruneEndorsementsLocked reg1 h) h) as (Hsub & Hkeep & _).
  destruct (PruneEndorsements_frame reg1 h) as (F1 & _).
  pose proof (settlement_due reg h pk r Hu K4 Hb K0 Hd) as Hdue.
  destruct (settlement_of reg h (pk, r)) as [s|].
  - destruct Hdue as [Hdue Hs]. rewrite Hdue, Z.eqb_refl in Hrec. rewrite Hrec in S1, P1. split; [done|].
    intros r' Hr'. apply (lookup_weaken _ _ _ _ Hr') in Hsub. rewrite F1, L1 in Hsub. injection Hsub as <-.
    split; [exact S1|exact P1].
  - destruct Hdue as [Hdue|]; [|lia]. apply Z.eqb_neq in Hdue. rewrite Hdue in Hrec. rewrite Hrec in S1, P1.
    exists r1. destruct O1 as [Hb1 [O1|[_ O1]]]; [rewrite P1, Hset in O1; lia|].
    split_and!; [|done|done]. apply Hkeep; [by rewrite F1|]. apply unpaid_retained; try done.
    destruct S1 as (_ & _ & _ & ->). done.
Qed.

(** A refused block changes nothing but the migration flag.  When the registry
    refuses a block, the staking ledger is untouched and the registry is what it was,
    except that the flag recording the migration height may already hold the refused
    block's value; a refusal on the staged path, where a funded registration was not
    accepted, leaves even that. *)
Lemma refused_block_atomic csv {T} (get_stake : T -> bytes -> Z) (slash_lockup : T -> bytes -> Z -> T)
    reg st block reg' st' :
  ProcessBlock csv get_stake slash_lockup reg st block = (reg', st', false) ->
  st' = st
  /\ (reg' = reg \/ reg' = set_migration_active reg (SecurityStateMigrationActive (Block.height block)))
  /\ (ValidatorRegistrationForkActive (Block.height block) = true -> HasFundedRegistration block = true -> reg' = reg).
Proof.
  unfold ProcessBlock. destruct (negb _ || negb _) eqn:E.
  - intros H. apply ProcessBlockImpl_false in H as [-> H]. split; [done|]. split; [done|].
    intros Hf Hr. rewrite Hf, Hr in E. done.
  - destruct (ProcessBlockImpl _ _ _ _ _ _ _) as [[staged [s l]] ok]. destruct ok; [done|].
    intros [= <- <-]. auto.
Qed.

Lemma hex_to_hash_inv h x : hex_to_hash h = Some x -> x = HexToBytes h.
Proof. unfold hex_to_hash. destruct (negb _); [done|]. destruct (negb _); [done|]. by intros [= <-]. Qed.

(** What [VerifyFinalityVoteSignature] checked. *)
Lemma vote_signature_inv csv pk epoch root phase round src_h src tgt_h tgt sig :
  VerifyFinalityVoteSignature csv pk epoch root phase round src_h src tgt_h tgt sig = true ->
  Verify csv (HexToBytes pk)
    (VotePreimage NETWORK_ID genesis_bytes epoch (HexToBytes root) phase round
       (mkRef src_h (HexToBytes src)) (mkRef tgt_h (HexToBytes tgt))) (HexToBytes sig) = true
  /\ size (HexToBytes sig) = SIG_MAX_BYTES.
Proof.
  unfold VerifyFinalityVoteSignature. destruct (negb _ || negb _); [done|].
  destruct (hex_to_hash root) as [a|] eqn:E1; [|done]. destruct (hex_to_hash src) as [b|] eqn:E2; [|done].
  destruct (hex_to_hash tgt) as [c|] eqn:E3; [|done]. apply hex_to_hash_inv in E1 as ->, E2 as ->, E3 as ->.
  match goal with |- (if ?b then _ else _) = _ -> _ => destruct b; [done|] end. cbv zeta.
  destruct (negb (size (HexToBytes pk) =? 1952)); [done|]. cbn [orb].
  destruct (Z.eqb_spec (size (HexToBytes sig)) 3309) as [Hs|]; [|done]. by intros H.
Qed.

(** The vote a half of the evidence stands for. *)
Definition evidence_vote (pk : bytes) (epoch : Z) (set_root : Hash256) (phase round : Z)
    (src tgt : CheckpointRef) (sig : bytes) : SignedVote :=
  mkVote epoch set_root phase round src tgt pk sig.

Definition vote_verifies (csv : bytes -> bytes -> bytes -> bool) (v : SignedVote) : Prop :=
  VoteClaimWellFormed v (sv_epoch_id v) (sv_set_root v) = true
  /\ Verify csv (HexToBytes (sv_pubkey_hex v))
       (VotePreimage NETWORK_ID genesis_bytes (sv_epoch_id v) (sv_set_root v) (sv_phase v) (sv_round v)
          (sv_source v) (sv_target v)) (sv_signature v) = true.

(** C31: only a proven equivocator loses its whole bond.  When a SLASH_EQUIV marker
    takes effect, there are two well-formed finality votes by the slashed key, for the
    same epoch, phase and round and different targets, whose signatures verify over the
    very preimages the finality protocol signs; the registry's own admission test
    accepts the evidence; the reporter is a real address other than the offender's; and
    the record ends inactive, slashed and in the zero-return class, its key barred. *)
Theorem equivocation_slash_sound csv {T} (slash_lockup : T -> bytes -> Z -> T) reg st h tx data parts reg' st' :
  0 <= h -> OpSlashEquiv csv slash_lockup reg st h tx data parts = Some (reg', st') ->
  exists a b r r', let pk := nth 1 parts [] in
    sv_pubkey_hex a = pk /\ IsEquivocation a b = true /\ vote_verifies csv a /\ vote_verifies csv b
    /\ CanAcceptFinalityEquivocationEvidence reg pk (sv_epoch_id a) (sv_set_root a) (sv_phase a) (sv_round a)
         (height (sv_target a)) h = true
    /\ validators_ reg !! pk = Some r
    /\ first_input_address tx <> [] /\ first_input_address tx <> v_address r
    /\ validators_ reg' !! pk = Some r' /\ v_active r' = false /\ v_slashed r' = true
    /\ v_slashed_equivocation r' = true /\ same_bond r r' /\ pk ∈ slashed_pubkeys_ reg'.
Proof.
  intros Hh H. apply OpSlashEquiv_facts in H as (e & p & ro & sr & sa & sb & ta & tb & r & F).
  destruct F as [F1 F2 F3 F4 F5 F6 F7 [F8 F8'] F9 F10 (B1 & B2 & B3 & B4 & B5) F12 [F13 F14] (keys & eqs & E)].
  set (pk := nth 1 parts []) in *.
  apply vote_signature_inv in F9 as [V1 S1], F10 as [V2 S2].
  rewrite <- B1, <- B2, <- B3 in V1. rewrite <- B1, <- B4, <- B5 in V2.
  assert (Hmk : forall c : CheckpointRef, mkRef (height c) (hash c) = c) by (by intros []).
  rewrite !Hmk in V1, V2.
  assert (Hw : forall src tgt sig, SourceRefWellFormed src tgt = true -> height tgt = height ta ->
    size sig = SIG_MAX_BYTES -> VoteClaimWellFormed (evidence_vote pk e sr p ro src tgt sig) e sr = true).
  { intros src tgt sig W1 W2 W3. unfold VoteClaimWellFormed, evidence_vote.
    cbn [sv_epoch_id sv_set_root sv_phase sv_round sv_source sv_target sv_signature].
    rewrite Z.eqb_refl, bool_decide_true, W1, W2, W3, F3, F4, F5, !Z.eqb_refl by done. cbn [andb].
    by destruct F2 as [-> | ->]. }
  set (reg0 := set_equivocations _ _) in E. apply (f_equal fst) in E. cbn [fst] in E. subst reg'.
  destruct (penalise_effect slash_lockup true reg0 st pk r h Hh) as (P1 & P2 & _).
  exists (evidence_vote pk e sr p ro sa ta (HexToBytes (nth 10 parts []))),
    (evidence_vote pk e sr p ro sb tb (HexToBytes (nth 15 parts []))), r, (slash_record true r h).
  cbv zeta. rewrite P1, P2, lookup_insert_eq.
  split; [done|]. split.
  { unfold IsEquivocation, evidence_vote. cbn [sv_pubkey_hex sv_epoch_id sv_phase sv_round sv_target].
    rewrite (bool_decide_false (pk <> pk)) by (intros N; by apply N). rewrite !Z.eqb_refl. cbn [negb].
    apply bool_decide_eq_true_2. congruence. }
  split; [by split; [apply Hw|]|]. split; [by split; [apply Hw|]|].
  split_and!; try done. apply elem_of_union_l. by apply elem_of_singleton.
Qed.

(** ** A concrete run *)

(** A key registers with a signed, fully funded transaction. *)
Definition op_key_hex : bytes := BytesToHex auth_key.
Definition register_tx : Transaction :=
  mkTx 1 [mkInput ZeroHash 0 (script_sig_of (wrap_sig SCHEME_ID_MLDSA65 auth_sig) auth_key) 0]
    [mkOutput 0 (op_return_script (register_prefix ++ op_key_hex));
     mkOutput MIN_VALIDATOR_STAKE (AddressToScript STAKE_VAULT_ADDRESS)] 0.
Definition block_of (txs : list Transaction) (h : Z) : Block := mkBlock (mkHeader 1 ZeroHash ZeroHash 0 0 0) txs h.
Definition no_stake : unit -> bytes -> Z := fun _ _ => 0.
Definition no_lockup : unit -> bytes -> Z -> unit := fun _ _ _ => tt.

#[local] Instance ValidatorRecord_eq : EqDecision ValidatorRecord.
Proof. solve_decision. Defined.

(** The record of the sample key, with no evidence against it yet. *)
Definition unpunished (reg : ValidatorRegistry) (pk : bytes) (r : ValidatorRecord) : bool :=
  match validators_ reg !! pk with
  | Some r' => bool_decide (r' = r)
  | None => false
  end
  && bool_decide (slashed_evidence_keys_ reg = ∅) && bool_decide (slashed_pubkeys_ reg = ∅)
  && (length (slashed_evidence_ reg) =? 0)%nat && bool_decide (evidence_per_pubkey_ reg !! pk = None).

Definition registered_record : ValidatorRecord :=
  mkValidator op_key_hex auth_address 9501 true false false 0 true MIN_VALIDATOR_STAKE 0 0 0.

Lemma register_run {T} (get : T -> bytes -> Z) (lockup : T -> bytes -> Z -> T) (st : T) :
  exists reg st', ProcessBlock key_verify get lockup EmptyRegistry st (block_of [register_tx] 9501) = (reg, st', true)
  /\ is_active_key reg op_key_hex = true /\ unpunished reg op_key_hex registered_record = true.
Proof.
  assert (H : (let '(r, _, ok) := ProcessBlock key_verify get lockup EmptyRegistry st (block_of [register_tx] 9501) in
    ok && is_active_key r op_key_hex && unpunished r op_key_hex registered_record) = true) by (vm_compute; reflexivity).
  destruct (ProcessBlock _ _ _ _ _ _) as [[reg st'] ok]. exists reg, st'.
  apply andb_true_iff in H as [[-> H1]%andb_true_iff H2]. split_and!; [reflexivity|exact H1|exact H2].
Qed.

Lemma registry_coherent_witness : exists reg, is_active_key reg op_key_hex = true /\ registry_inv reg.
Proof.
  destruct (register_run no_stake no_lockup tt) as (reg & u & E & Ha & _). exists reg. split; [exact Ha|].
  apply (registry_coherent key_verify no_stake no_lockup tt reg u). apply rtc_once.
  by apply (rs_block _ _ _ _ _ (block_of [register_tx] 9501)).
Defined.

(** The same registration by a barred key, before the registration fork. *)
Definition barred_registry : ValidatorRegistry :=
  set_slashed_pubkeys (SetTotalStaked EmptyRegistry VALIDATOR_UNLOCK_STAKED) {[op_key_hex]}.

Lemma barred_run :
  snd (ProcessBlock sample_verify no_stake no_lockup barred_registry tt (block_of [register_tx] 5001)) = true.
Proof. vm_compute. reflexivity. Qed.

Lemma barred_registry_inv : registry_inv barred_registry.
Proof.
  destruct EmptyRegistry_inv as [_ H2 H3]. split; [|exact H2|exact H3].
  change (validators_ barred_registry) with (∅ : gmap bytes ValidatorRecord).
  split; [intros k r H; by rewrite lookup_empty in H|intros k k' r r' H; by rewrite lookup_empty in H].
Qed.

Lemma slashing_permanent_witness :
  is_active_key (fst (fst (ProcessBlock sample_verify no_stake no_lockup barred_registry tt
    (block_of [register_tx] 5001)))) op_key_hex = false.
Proof.
  pose proof barred_run as H.
  destruct (ProcessBlock sample_verify no_stake no_lockup barred_registry tt (block_of [register_tx] 5001))
    as [[reg u] ok] eqn:E. cbn [snd] in H.
  apply (slashing_permanent sample_verify no_stake no_lockup (barred_registry, tt) (reg, u) op_key_hex).
  - exact barred_registry_inv.
  - apply rtc_once. apply (rs_block _ _ _ _ _ (block_of [register_tx] 5001)); [reflexivity|]. rewrite E, H. reflexivity.
  - change (op_key_hex ∈ ({[op_key_hex]} : gset bytes)). by apply elem_of_singleton.
Defined.

(** A bonded validator and an empty block. *)
Definition bonded_record : ValidatorRecord :=
  mkValidator op_key_hex (PubkeyToAddress auth_key) 3000 true false false 0 true MIN_VALIDATOR_STAKE 0 0 0.
Definition bonded_registry : ValidatorRegistry := set_validators EmptyRegistry {[ op_key_hex := bonded_record ]}.

Lemma op_key_bytes : HexToBytes op_key_hex = auth_key.
Proof. apply HexToBytes_BytesToHex. apply (bool_decide_unpack _). vm_compute. exact I. Qed.

Lemma bonded_registry_inv : registry_inv bonded_registry.
Proof.
  destruct EmptyRegistry_inv as [_ H2 H3]. split; [|exact H2|exact H3].
  change (validators_ bonded_registry) with ({[ op_key_hex := bonded_record ]} : gmap bytes ValidatorRecord).
  split.
  - apply map_Forall_singleton. unfold rec_ok. rewrite op_key_bytes. split_and!; done.
  - intros k k' r r' Hk Hk' _ _ _. apply lookup_singleton_Some in Hk as [<- _], Hk' as [<- _]. done.
Qed.

Lemma empty_run :
  snd (ProcessBlock sample_verify no_stake no_lockup bonded_registry tt (block_of [] 5001)) = true.
Proof. vm_compute. reflexivity. Qed.

Lemma bond_custody_witness :
  exists r', validators_ (fst (fst (ProcessBlock sample_verify no_stake no_lockup bonded_registry tt
      (block_of [] 5001)))) !! op_key_hex = Some r' /\ same_bond bonded_record r'.
Proof.
  pose proof empty_run as H.
  destruct (ProcessBlock sample_verify no_stake no_lockup bonded_registry tt (block_of [] 5001))
    as [[reg u] ok] eqn:E. cbn [snd] in H. subst ok.
  assert (Hl : validators_ bonded_registry !! op_key_hex = Some bonded_record) by apply lookup_singleton_eq.
  pose proof (bond_custody sample_verify no_stake no_lockup bonded_registry tt (block_of [] 5001) reg u op_key_hex
    bonded_record bonded_registry_inv ltac:(vm_compute; discriminate) E Hl eq_refl eq_refl) as Hc.
  change (settlement_of bonded_registry (Block.height (block_of [] 5001)) (op_key_hex, bonded_record)) with (@None BondSettlement) in Hc.
  cbv match in Hc. destruct Hc as (r' & H1 & H2 & _). exists r'. split; [exact H1|exact H2].
Defined.

(** A boundary block that pays the yield escrow while no bond is eligible is refused,
    yet the migration flag already holds its value. *)
Definition escrow_tx : Transaction := mkTx 1 [] [mkOutput 5 (AddressToScript BOND_YIELD_ESCROW)] 0.

Lemma refused_run :
  ProcessBlock sample_verify no_stake no_lockup EmptyRegistry tt (block_of [escrow_tx] 3840)
  = (set_migration_active EmptyRegistry true, tt, false).
Proof. vm_compute. reflexivity. Qed.

Lemma refused_block_atomic_witness :
  exists reg', ProcessBlock sample_verify no_stake no_lockup EmptyRegistry tt (block_of [escrow_tx] 3840) = (reg', tt, false)
    /\ (reg' = EmptyRegistry \/ reg' = set_migration_active EmptyRegistry true).
Proof.
  exists (set_migration_active EmptyRegistry true). split; [exact refused_run|].
  destruct (refused_block_atomic sample_verify no_stake no_lockup EmptyRegistry tt (block_of [escrow_tx] 3840)
    (set_migration_active EmptyRegistry true) tt refused_run) as (_ & H & _).
  exact H.
Defined.

(** Refusal is therefore not fully atomic. *)
Lemma refused_block_sets_flag :
  exists block reg', ProcessBlock sample_verify no_stake no_lockup EmptyRegistry tt block = (reg', tt, false)
    /\ state_migration_active_ EmptyRegistry = false /\ state_migration_active_ reg' = true.
Proof. exists (block_of [escrow_tx] 3840), (set_migration_active EmptyRegistry true). split; [exact refused_run|done]. Qed.

(** Two conflicting prevotes of the second epoch, reported ten blocks later. *)
Definition offender_hex : bytes := op_key_hex.
Definition offender_record : ValidatorRecord :=
  mkValidator offender_hex (b:"V") 100 true false false 0 true MIN_VALIDATOR_STAKE 0 0 0.
Definition equiv_root : Hash256 := replicate 32 3.
Definition equiv_registry : ValidatorRegistry :=
  set_membership (set_validators EmptyRegistry
      {[ offender_hex := offender_record ]})
    [(1, mkMembership equiv_root [PubkeyCommit offender_hex])].
Definition reporter_tx : Transaction :=
  mkTx 1 [mkInput ZeroHash 0 (script_sig_of (wrap_sig SCHEME_ID_MLDSA65 auth_sig) (replicate 1952 8)) 0] [] 0.
Definition equiv_parts : list bytes :=
  [b:"SLASH_EQUIV"; offender_hex; b:"1"; BytesToHex equiv_root; b:"1"; b:"1";
   b:"0"; replicate 64 48; b:"500"; replicate 64 97; replicate 6618 49;
   b:"0"; replicate 64 48; b:"500"; replicate 64 98; replicate 6618 50; b:"v1"].

(** The handler is opened guard by guard. *)
Ltac known_guard o v :=
  match goal with |- is_Some (match o with Some _ => _ | None => None end) =>
    replace o with v by (vm_compute; reflexivity) end.
Ltac open_guard tac :=
  match goal with |- is_Some (if ?b then _ else None) =>
    let H := fresh in assert (H : b = true) by tac; rewrite H; clear H end.

Lemma binary_search_one c : binary_search [c] c = true.
Proof. unfold binary_search. cbn. rewrite lex_lt_irrefl. cbn. by rewrite lex_lt_irrefl. Qed.

Lemma equiv_lookup : validators_ equiv_registry !! offender_hex = Some offender_record.
Proof.
  change (validators_ equiv_registry) with ({[ offender_hex := offender_record ]} : gmap bytes ValidatorRecord).
  generalize offender_record. intros r. generalize offender_hex. intros h. apply lookup_singleton_eq.
Qed.

Lemma equiv_run :
  is_Some (OpSlashEquiv accept_all no_lockup equiv_registry tt 510 reporter_tx [] equiv_parts).
Proof.
  unfold OpSlashEquiv, equiv_parts. cbv zeta. cbn [nth].
  repeat first
    [ known_guard (ParseCanonicalUint64Text (b:"1")) (Some 1)
    | known_guard (ParseCanonicalUint64Text (b:"0")) (Some 0)
    | known_guard (ParseCanonicalUint64Text (b:"500")) (Some 500)
    | known_guard (checkpoint 0 (replicate 64 48)) (Some (mkRef 0 ZeroHash))
    | known_guard (checkpoint 500 (replicate 64 97)) (Some (mkRef 500 (replicate 32 170)))
    | known_guard (checkpoint 500 (replicate 64 98)) (Some (mkRef 500 (replicate 32 187)))
    | open_guard ltac:(vm_compute; reflexivity) ].
  change (map_find 1 (finality_membership_ equiv_registry))
    with (Some (mkMembership equiv_root [PubkeyCommit offender_hex])). cbv match.
  open_guard ltac:(vm_compute; reflexivity). cbn [m_members]. rewrite binary_search_one.
  rewrite equiv_lookup. cbv match.
  do 2 open_guard ltac:(reflexivity). change (ConsensusSecurityUpgradeActive 510) with false. cbn [andb negb].
  open_guard ltac:(reflexivity). do 2 open_guard ltac:(vm_compute; reflexivity).
  open_guard ltac:(vm_compute; reflexivity).
  open_guard ltac:(reflexivity). open_guard ltac:(reflexivity). by eexists.
Qed.

Lemma equivocation_slash_sound_witness :
  exists a b, sv_pubkey_hex a = offender_hex /\ IsEquivocation a b = true /\ vote_verifies accept_all a.
Proof.
  destruct equiv_run as [[reg' st'] E].
  destruct (equivocation_slash_sound accept_all no_lockup equiv_registry tt 510 reporter_tx [] equiv_parts reg' st'
    ltac:(lia) E) as (a & b & r & r' & H1 & H2 & H3 & _).
  exists a, b. split; [exact H1|]. split; [exact H2|exact H3].
Defined.
