(* ===== verification/ValidatorStaking.v ===== *)
(** * The registry and the staking ledger together

    The registry reaches the ledger through two callbacks: it reads an address's stake
    and, when it slashes a key, extends the lockup of that key's stake.  The interface
    [StakingBackend] states what the registry relies on; the ledger of [Staking] meets
    it, and the composition freezes the stake of a slashed validator. *)
From S2P Require Import Prelude Bytes Sha256 Ripemd160 Profile Transaction Block Address OpAuthorization.
From S2P Require Import Marker Coinbase StateDigest FinalityQc FinalitySnapshot FinalityState.
From S2P Require Import Validators BondYield EndorsementWire Staking StakingRules StakingSafety.
From S2P Require Import ValidatorOps ValidatorRules ValidatorSafety.

(** ** The interface *)

(** A ledger as the registry sees it: a stake reader, a lockup, a well-formedness, and
    [frozen s a m]: nothing of address [a] can leave before height [m]. *)
Class StakingBackend (T : Type) := {
  sb_get : T -> bytes -> Z;
  sb_lock : T -> bytes -> Z -> T;
  sb_wf : T -> Prop;
  sb_frozen : T -> bytes -> Z -> Prop;
  sb_lock_wf s a m : sb_wf s -> sb_wf (sb_lock s a m);
  sb_lock_get s a m b : sb_wf s -> sb_get (sb_lock s a m) b = sb_get s b;
  sb_lock_frozen s a m : sb_wf s -> sb_frozen (sb_lock s a m) a m;
  sb_lock_keeps s a m b n : sb_wf s -> sb_frozen s b n -> sb_frozen (sb_lock s a m) b n }.

(** The height until which a slash at height [h] locks stake. *)
Definition slash_until (h : Z) : Z := u64 (h + SLASH_BOND_LOCKUP_BLOCKS).
Definition key_address (pk : bytes) : bytes := PubkeyToAddress (HexToBytes pk).

(** ** The calls a block makes *)

Section Calls.
Context (csv : bytes -> bytes -> bytes -> bool) {T : Type} (get : T -> bytes -> Z) (lock : T -> bytes -> Z -> T).

Definition apply_calls (s : T) (calls : list (bytes * Z)) : T :=
  foldl (fun s p => lock s (fst p) (snd p)) s calls.

(** The ledger moved by lockups alone, one for each newly barred key. *)
Definition called (h : Z) (reg : ValidatorRegistry) (s : T) (reg' : ValidatorRegistry) (s' : T) : Prop :=
  exists calls, s' = apply_calls s calls
  /\ (forall pk, pk ∈ slashed_pubkeys_ reg' -> pk ∉ slashed_pubkeys_ reg -> (key_address pk, slash_until h) ∈ calls).

Lemma called_same h reg s reg' : slashed_pubkeys_ reg' ⊆ slashed_pubkeys_ reg -> called h reg s reg' s.
Proof. intros H. exists []. split; [done|]. intros pk H1 H2. by apply H in H1. Qed.

Lemma called_trans h r1 s1 r2 s2 r3 s3 : called h r1 s1 r2 s2 -> called h r2 s2 r3 s3 -> called h r1 s1 r3 s3.
Proof.
  intros (c1 & -> & H1) (c2 & -> & H2). exists (c1 ++ c2). split; [unfold apply_calls; by rewrite foldl_app|].
  intros pk Hin Hn. apply elem_of_app. destruct (decide (pk ∈ slashed_pubkeys_ r2)); [left; by apply H1|right; by apply H2].
Qed.

Lemma penalise_called e reg0 reg s pk r h :
  0 <= h -> registry_inv reg -> validators_ reg !! pk = Some r -> slashed_pubkeys_ reg0 = slashed_pubkeys_ reg ->
  called h reg s (fst (penalise lock e reg0 s pk r h)) (snd (penalise lock e reg0 s pk r h)).
Proof.
  intros Hh [[Hv _] _ _] Hr Hs. exists [(v_address r, slash_until h)].
  unfold penalise, VALIDATOR_SLASHING_HEIGHT. destruct (Z.leb_spec 0 h); [|lia]. cbn [fst snd]. split; [done|].
  cbn [slashed_pubkeys_ set_last_op set_slashed_pubkeys set_validators]. rewrite Hs. intros k Hk Hn.
  apply elem_of_union in Hk as [Hk|]; [|done]. apply elem_of_singleton in Hk as ->.
  apply Hv in Hr as (_ & _ & -> & _). by apply list_elem_of_singleton.
Qed.

Lemma trim_slashed reg h : slashed_pubkeys_ (TrimExpiredCooldownsLocked reg h) = slashed_pubkeys_ reg.
Proof. unfold TrimExpiredCooldownsLocked. by destruct (_ <? _). Qed.

Lemma OpRegister_slashed reg st h tx pk reg' st' :
  OpRegister csv get reg st h tx pk = Some (reg', st') -> st' = st /\ slashed_pubkeys_ reg' = slashed_pubkeys_ reg.
Proof.
  intros H. unfold OpRegister in H. cbv zeta in H. do 6 pass_any H. pass in H as Eb. destruct p as [c u].
  do 4 pass_any H. injection H as <- <-. by rewrite trim_slashed.
Qed.

Lemma OpDeregister_slashed reg (st : T) h tx pk reg' st' :
  OpDeregister csv reg st h tx pk = Some (reg', st') -> st' = st /\ slashed_pubkeys_ reg' = slashed_pubkeys_ reg.
Proof. intros H. unfold OpDeregister in H. pass_all H. injection H as <- <-. by rewrite trim_slashed. Qed.

Lemma OpEndorse_slashed reg st h tx data reg' st' :
  OpEndorse csv get reg st h tx data = Some (reg', st') -> st' = st /\ slashed_pubkeys_ reg' = slashed_pubkeys_ reg.
Proof.
  intros H. unfold OpEndorse in H. cbv zeta in H. do 4 pass_any H. pass in H as Ep. destruct p as [pk address].
  pass_all H. by injection H as <- <-.
Qed.

Lemma OpSlash_called reg st h tx parts reg' st' :
  0 <= h -> registry_inv reg -> OpSlash csv lock reg st h tx parts = Some (reg', st') -> called h reg st reg' st'.
Proof.
  intros Hh HI H. unfold OpSlash in H. cbv zeta in H. do 9 pass_any H. pass in H as Er. rename v into r. pass_all H.
  injection H as H. match type of H with penalise _ _ ?r0 _ _ _ _ = _ => set (reg0 := r0) in H end.
  pose proof (penalise_called false reg0 reg st (nth 1 parts []) r h Hh HI Er eq_refl) as HC. rewrite H in HC. exact HC.
Qed.

Lemma OpSlashEquiv_called reg st h tx data parts reg' st' :
  0 <= h -> registry_inv reg -> OpSlashEquiv csv lock reg st h tx data parts = Some (reg', st') -> called h reg st reg' st'.
Proof.
  intros Hh HI H. apply OpSlashEquiv_facts in H as (e & p & ro & sr & sa & sb & ta & tb & r & F).
  destruct (ef_out _ _ _ _ _ _ _ _ _ _ _ _ _ _ _ _ _ F) as (keys & eqs & E).
  pose proof (ef_record _ _ _ _ _ _ _ _ _ _ _ _ _ _ _ _ _ F) as Hr.
  set (reg0 := set_equivocations _ _) in E.
  pose proof (penalise_called true reg0 reg st (nth 1 parts []) r h Hh HI Hr eq_refl) as HC. rewrite <- E in HC. exact HC.
Qed.

Lemma ProcessOp_called reg st h tx data reg' st' ok :
  0 <= h -> registry_inv reg -> ProcessOp csv get lock reg st h tx data = (reg', st', ok) -> called h reg st reg' st'.
Proof.
  intros Hh HI. unfold ProcessOp. cbv zeta. set (parts := Split _ _). set (rest := drop _ data).
  match goal with |- (match ?o with Some r => r | None => _ end) = _ -> _ => destruct o as [[[reg1 st1] ok1]|] eqn:E end;
    [|intros [= <- <- _]; by apply called_same].
  intros [= -> -> ->]. pass_any E. pass_any E.
  assert (Hsame : st' = st /\ slashed_pubkeys_ reg' = slashed_pubkeys_ reg -> called h reg st reg' st')
    by (intros [-> Hs]; apply called_same; by rewrite Hs).
  destruct (bytes_eqb _ _ && _ && _).
  - destruct (OpRegister _ _ _ _ _ _ _) as [[r1 s1]|] eqn:Eo; [|done]. injection E as -> -> _.
    by apply Hsame, (OpRegister_slashed _ _ _ _ _ _ _ Eo).
  - match type of E with (match ?o with Some _ => _ | None => None end) = _ => destruct o as [[r1 s1]|] eqn:Eo end; [|done].
    injection E as -> -> _. revert Eo. repeat (match goal with |- (if ?b then _ else _) = _ -> _ => destruct b end).
    + intros H. by apply Hsame, (OpDeregister_slashed _ _ _ _ _ _ _ H).
    + by apply OpSlashEquiv_called.
    + by apply OpSlash_called.
    + intros H. by apply Hsame, (OpEndorse_slashed _ _ _ _ _ _ _ H).
    + done.
Qed.

Lemma process_outs_called rb h tx outs reg st reg' st' ok :
  0 < h -> registry_inv reg -> process_outs csv get lock rb h tx outs reg st = (reg', st', ok) -> called h reg st reg' st'.
Proof.
  intros Hh. revert reg st. induction outs as [|o outs IH]; intros reg st HI; cbn [process_outs].
  { intros [= <- <- _]. by apply called_same. }
  destruct (size _ =? 0); [by apply IH|]. destruct (negb _); [by apply IH|].
  destruct (ProcessOp _ _ _ _ _ _ _ _) as [[reg1 st1] reg_ok] eqn:E.
  pose proof (ProcessOp_called _ _ _ _ _ _ _ _ (Z.lt_le_incl _ _ Hh) HI E) as HC.
  apply ProcessOp_effect in E; [|lia]. destruct (_ && negb reg_ok); [by intros [= <- <- _]|].
  intros H. eapply called_trans; [exact HC|]. eapply IH; [|exact H].
  eapply registry_inv_effects; [exact Hh|by apply rtc_once|exact HI].
Qed.

Lemma process_txs_called rb h txs reg st reg' st' ok :
  0 < h -> registry_inv reg -> process_txs csv get lock rb h txs reg st = (reg', st', ok) -> called h reg st reg' st'.
Proof.
  intros Hh. revert reg st. induction txs as [|tx txs IH]; intros reg st HI; cbn [process_txs].
  { intros [= <- <- _]. by apply called_same. }
  destruct (process_outs _ _ _ _ _ _ _ _ _) as [[reg1 st1] k] eqn:E.
  pose proof (process_outs_called _ _ _ _ _ _ _ _ _ Hh HI E) as HC. apply process_outs_effect in E; [|lia].
  destruct k; cbn [negb]; [|by intros [= <- <- _]].
  intros H. eapply called_trans; [exact HC|]. eapply IH; [|exact H]. by eapply registry_inv_effects.
Qed.

Lemma pool_slashed reg block :
  slashed_pubkeys_ (ProcessEndorsementPoolStateLocked reg block) = slashed_pubkeys_ reg.
Proof.
  unfold ProcessEndorsementPoolStateLocked. cbn [slashed_pubkeys_ set_pool_outpoints].
  destruct (canonical_flush _ _); [|done]. cbn [slashed_pubkeys_ set_flush_height]. unfold MarkRewardsPaidLocked.
  by rewrite (proj1 (proj2 (PruneEndorsements_frame _ _))).
Qed.

Lemma settle_slashed reg h : slashed_pubkeys_ (SettlePrincipals reg h) = slashed_pubkeys_ reg.
Proof. unfold SettlePrincipals. by destruct (ConsensusSecurityUpgradeActive h). Qed.

Lemma before_markers_slashed reg block plan allocs :
  slashed_pubkeys_ (before_markers reg block plan allocs) = slashed_pubkeys_ reg.
Proof.
  unfold before_markers. cbv zeta. destruct (is_bond_yield_boundary _);
    cbn [slashed_pubkeys_ set_escrow]; by rewrite pool_slashed, settle_slashed.
Qed.

Lemma after_markers_slashed reg h :
  slashed_pubkeys_ (PruneInactiveValidatorsLocked (PruneEndorsementsLocked reg h) h) = slashed_pubkeys_ reg.
Proof.
  destruct (prune_inactive (PruneEndorsementsLocked reg h) h) as (_ & _ & -> & _).
  by destruct (PruneEndorsements_frame reg h) as (_ & -> & _).
Qed.

Lemma ProcessBlockImpl_called rb reg st block reg' st' :
  0 < Block.height block -> registry_inv reg ->
  ProcessBlockImpl csv get lock rb reg st block = (reg', st', true) -> called (Block.height block) reg st reg' st'.
Proof.
  intros Hh HI. unfold ProcessBlockImpl. destruct (negb (HasValidRegisterMultiplicity block)); [done|].
  match goal with |- context [match ?p with Some _ => _ | None => _ end] => destruct p as [[plan allocs]|] eqn:Ep end; [|done].
  destruct (process_txs _ _ _ _ _ _ _ _) as [[reg1 st1] ok] eqn:E.
  apply process_txs_called in E as (calls & -> & HC); [|done|exact (before_markers_inv reg block plan allocs HI)].
  destruct ok; [|done]. intros [= <- <-]. exists calls. split; [done|]. rewrite after_markers_slashed.
  intros pk Hin Hn. apply HC; [done|]. pose proof (before_markers_slashed reg block plan allocs) as Hb.
  unfold before_markers in Hb. cbv zeta in Hb. by rewrite Hb.
Qed.
End Calls.

(** ** The composition *)

Section Composition.
Context (csv : bytes -> bytes -> bytes -> bool) {T : Type} `{StakingBackend T}.

Lemma apply_calls_wf s calls : sb_wf s -> sb_wf (apply_calls sb_lock s calls).
Proof. revert s. induction calls as [|c l IH]; intros s Hs; [done|]. by apply IH, sb_lock_wf. Qed.

Lemma apply_calls_get s calls a : sb_wf s -> sb_get (apply_calls sb_lock s calls) a = sb_get s a.
Proof.
  revert s. induction calls as [|c l IH]; intros s Hs; [done|].
  change (apply_calls sb_lock s (c :: l)) with (apply_calls sb_lock (sb_lock s (fst c) (snd c)) l).
  rewrite IH by (by apply sb_lock_wf). by apply sb_lock_get.
Qed.

Lemma apply_calls_keeps s calls a m : sb_wf s -> sb_frozen s a m -> sb_frozen (apply_calls sb_lock s calls) a m.
Proof.
  revert s. induction calls as [|c l IH]; intros s Hs Hf; [done|]. apply IH; [by apply sb_lock_wf|by apply sb_lock_keeps].
Qed.

Lemma apply_calls_frozen s calls a m :
  sb_wf s -> (a, m) ∈ calls -> sb_frozen (apply_calls sb_lock s calls) a m.
Proof.
  revert s. induction calls as [|c l IH]; intros s Hs Hin; [by apply not_elem_of_nil in Hin|].
  apply elem_of_cons in Hin as [<-|Hin].
  - apply (apply_calls_keeps (sb_lock s a m)); [by apply sb_lock_wf|by apply sb_lock_frozen].
  - apply (IH (sb_lock s (fst c) (snd c))); [by apply sb_lock_wf|done].
Qed.

(** The deferred lockups of a staged block are the same calls, applied at the end. *)
Lemma deferred_calls (st : T) l calls :
  apply_calls (fun s a h => (fst s, snd s ++ [(a, h)])) (st, l) calls = (st, l ++ calls).
Proof.
  revert l. induction calls as [|[a m] c IH]; intros l; [by rewrite app_nil_r|].
  change (apply_calls (fun s a h => (fst s, snd s ++ [(a, h)])) (st, l) ((a, m) :: c))
    with (apply_calls (fun s a h => (fst s, snd s ++ [(a, h)])) (st, l ++ [(a, m)]) c).
  by rewrite IH, <- app_assoc.
Qed.

Lemma ProcessBlock_called reg (st : T) block reg' st' :
  0 < Block.height block -> registry_inv reg ->
  ProcessBlock csv sb_get sb_lock reg st block = (reg', st', true) -> called sb_lock (Block.height block) reg st reg' st'.
Proof.
  intros Hh HI. unfold ProcessBlock. destruct (_ || _); [by apply ProcessBlockImpl_called|].
  destruct (ProcessBlockImpl _ _ _ _ _ _ _) as [[staged [s l]] ok] eqn:E. destruct ok; [|done]. intros [= <- <-].
  apply ProcessBlockImpl_called in E as (calls & Ec & HC); [|done..].
  rewrite deferred_calls in Ec. injection Ec as _ ->. by exists calls.
Qed.

Lemma ProcessBlock_freezes reg (st : T) block reg' st' :
  0 < Block.height block -> registry_inv reg -> sb_wf st ->
  ProcessBlock csv sb_get sb_lock reg st block = (reg', st', true) ->
  sb_wf st' /\ (forall a, sb_get st' a = sb_get st a)
  /\ (forall pk, pk ∈ slashed_pubkeys_ reg' -> pk ∉ slashed_pubkeys_ reg ->
       sb_frozen st' (key_address pk) (slash_until (Block.height block))).
Proof.
  intros Hh HI Hs E. apply ProcessBlock_called in E as (calls & -> & HC); [|done..].
  split; [by apply apply_calls_wf|]. split; [intros a; by apply apply_calls_get|].
  intros pk H1 H2. apply apply_calls_frozen; [done|]. by apply HC.
Qed.
End Composition.

(** ** The ledger is such a backend *)

Import StakingLedger.

Definition ledger_frozen (L : t) (a : bytes) (m : Z) : Prop :=
  Forall (fun r => m <= s_unlock_height r) (GetStakeRecords L a).

Definition ledger_wf (L : t) : Prop := ledger_inv L /\ floor_inv L.

#[global] Program Instance ledger_backend : StakingBackend t := {|
  sb_get := GetStake; sb_lock := ApplySlashBondLockup; sb_wf := ledger_wf; sb_frozen := ledger_frozen |}.
Next Obligation.
  intros L a m [HL HF]. split; [by apply ApplySlashBondLockup_inv|by apply ApplySlashBondLockup_floor].
Qed.
Next Obligation.
  intros L a m b [HL _]. cbn. rewrite (GetStake_exact _ (ApplySlashBondLockup_inv L a m HL)), (GetStake_exact L HL).
  rewrite ApplySlashBondLockup_records by done. destruct (decide (b = a)) as [->|]; [|done].
  by apply (extend_lockup_map m a), (records_ok L HL).
Qed.
Next Obligation.
  intros L a m [HL _]. unfold ledger_frozen. cbn. rewrite ApplySlashBondLockup_records, decide_True by done.
  apply Forall_map. eapply Forall_impl; [apply (records_ok L HL a)|]. intros r Hr. cbn.
  destruct (extend_lockup_height m a r Hr) as [-> _]. lia.
Qed.
Next Obligation.
  intros L a m b n [HL _]. unfold ledger_frozen. cbn. rewrite ApplySlashBondLockup_records by done.
  destruct (decide (b = a)) as [->|]; [|done]. intros Hf. apply Forall_map. rewrite Forall_forall in Hf |- *.
  intros r Hr. pose proof (records_ok L HL a) as Hok. rewrite Forall_forall in Hok. cbn.
  destruct (extend_lockup_height m a r (Hok r Hr)) as [-> _]. specialize (Hf r Hr). lia.
Qed.

(** ** Frozen tranches stay *)

(** The ledger's own steps, with blocks below height [m] only. *)
Definition step_before (verify : bytes -> bytes -> bytes -> bool) (m : Z) (L L' : t) : Prop :=
  (exists b ok, 1 <= Block.height b < m /\ fresh_txs L (transactions b) /\ StakingLedger.ProcessBlock verify L b = (L', ok))
  \/ (exists a n, L' = ApplySlashBondLockup L a n).

(** The tranche behind the output [key], with its amount, still locked until [m]. *)
Definition holds (L : t) (a key : bytes) (units m : Z) : Prop :=
  exists r, r ∈ GetStakeRecords L a /\ record_key r = key /\ s_amount_units r = units /\ m <= s_unlock_height r.

Lemma step_before_step verify m L L' : step_before verify m L L' -> ledger_step verify L L'.
Proof.
  intros [(b & ok & [Hh _] & Hf & E)|(a & n & ->)]; [by eapply ls_block|apply ls_slash].
Qed.

Lemma step_before_holds verify m L L' a key units :
  ledger_inv L -> step_before verify m L L' -> holds L a key units m -> holds L' a key units m.
Proof.
  intros HL [(b & ok & [Hh Hm] & Hf & E)|(a' & n & ->)] (r & Hr & Hk & Hu & Hl).
  - destruct ok; [|apply ProcessBlock_refused in E as ->; by exists r].
    apply ProcessBlock_effect in E as (L1 & HE & _ & Hres); [|done..].
    destruct (txs_effect_custody verify _ _ _ _ a r Hh HL Hf HE Hr) as [H1 H2].
    assert (Hno : forall pre, (exists post, transactions b = pre ++ post) ->
      Forall (fun t => ~ spends t (record_key r)) pre).
    { intros pre. induction pre as [|x pre IH] using rev_ind; [constructor|]. intros [post Ep].
      rewrite <- app_assoc in Ep. cbn in Ep. apply Forall_app. assert (Hp : Forall (fun t => ~ spends t (record_key r)) pre)
        by (apply IH; by exists (x :: post)).
      split; [done|]. constructor; [|constructor]. intros Hsp. destruct (H1 pre x post Ep Hp Hsp). lia. }
    exists r. split; [|done]. assert (Hin : r ∈ GetStakeRecords L1 a) by (apply H2, Hno; exists []; by rewrite app_nil_r).
    by destruct Hres as [-> | ->].
  - pose proof (records_ok L HL a) as Hok. rewrite Forall_forall in Hok. specialize (Hok r Hr).
    unfold holds. rewrite ApplySlashBondLockup_records by done. destruct (decide (a = a')) as [<-|]; [|by exists r].
    exists (extend_lockup n r). destruct (extend_lockup_height n a r Hok) as [Hh' Hk'].
    split; [by apply list_elem_of_fmap_2|]. rewrite Hk', Hh'. split; [done|]. split; [|lia].
    unfold extend_lockup. destruct (negb _); [done|]. by destruct (_ <? _).
Qed.

Lemma steps_before_holds verify m L L' a key units :
  rtc (step_before verify m) L L' -> ledger_wf L -> holds L a key units m -> holds L' a key units m.
Proof.
  induction 1 as [L|L L1 L' H1 _ IH]; [done|]. intros [HL HF] Hh. apply IH.
  - by apply (ledger_step_inv verify L L1 (step_before_step _ _ _ _ H1)).
  - by apply (step_before_holds verify m L).
Qed.

(** ** A slashed staker *)

(** The text of a marker from its fields, and that it is read back. *)
Fixpoint joined (delim : Z) (parts : list bytes) : bytes :=
  match parts with
  | [] => []
  | [p] => p
  | p :: parts' => p ++ delim :: joined delim parts'
  end.
Definition plain_part (delim : Z) (p : bytes) : bool := negb (size p =? 0) && forallb (fun c => negb (c =? delim)) p.

Lemma getline_part delim p cur s :
  forallb (fun c => negb (c =? delim)) p = true -> getline_loop delim cur (p ++ s) = getline_loop delim (cur ++ p) s.
Proof.
  revert cur. induction p as [|c p IH]; intros cur; cbn [forallb app getline_loop]; [by rewrite app_nil_r|].
  intros [Hc Hp]%andb_true_iff. apply negb_true_iff in Hc. rewrite Hc, IH by exact Hp. by rewrite <- app_assoc.
Qed.

Lemma Split_joined delim parts : forallb (plain_part delim) parts = true -> Split (joined delim parts) delim = parts.
Proof.
  unfold Split. induction parts as [|p parts IH]; [done|]. cbn [forallb]. intros [[Hn Hp]%andb_true_iff Hr]%andb_true_iff.
  apply negb_true_iff in Hn. destruct parts as [|q parts].
  - cbn [joined]. rewrite <- (app_nil_r p) at 1. rewrite getline_part by exact Hp. cbn [getline_loop app]. by rewrite Hn.
  - change (joined delim (p :: q :: parts)) with (p ++ delim :: joined delim (q :: parts)).
    rewrite getline_part by exact Hp. cbn [getline_loop app]. rewrite Z.eqb_refl. f_equal. by apply IH.
Qed.

(** Two endorsements of block 9501 by the sample key, reported in the next block. *)
Definition slash_parts : list bytes :=
  [b:"SLASH"; op_key_hex; b:"9501"; replicate 64 97; replicate 6618 49; replicate 64 98; replicate 6618 50; b:"v1"].
Definition slash_marker : bytes := VAL_PREFIX ++ joined PIPE slash_parts.
Definition slash_tx : Transaction :=
  mkTx 1 [mkInput ZeroHash 0 (script_sig_of (wrap_sig SCHEME_ID_MLDSA65 auth_sig) (replicate 1952 8)) 0]
    [mkOutput 0 (op_return_script slash_marker)] 0.
Definition slash_block : Block := block_of [slash_tx] 9502.

Lemma slash_marker_parts :
  ValidatorOps.ParseOpReturn (op_return_script slash_marker) = slash_marker
  /\ Split (drop (length VAL_PREFIX) slash_marker) PIPE = slash_parts.
Proof.
  split; [vm_compute; reflexivity|]. unfold slash_marker. rewrite drop_app_length. apply Split_joined. vm_compute. reflexivity.
Qed.

Section Slash.
Context {T : Type} (get : T -> bytes -> Z) (lockup : T -> bytes -> Z -> T).

(** The registry holds the sample record and no evidence. *)
Definition unpunished_at (reg : ValidatorRegistry) : Prop :=
  validators_ reg !! op_key_hex = Some registered_record /\ slashed_evidence_keys_ reg = ∅ /\ slashed_pubkeys_ reg = ∅
  /\ slashed_evidence_ reg = [] /\ evidence_per_pubkey_ reg !! op_key_hex = None.

Lemma unpunished_inv reg : unpunished reg op_key_hex registered_record = true -> unpunished_at reg.
Proof.
  unfold unpunished, unpunished_at. intros H. apply andb_true_iff in H as [[[[H1 H2]%andb_true_iff H3]%andb_true_iff H4]%andb_true_iff H5].
  destruct (validators_ reg !! op_key_hex) as [r|]; [|done]. apply bool_decide_eq_true_1 in H1 as ->.
  split_and!; [done|by apply bool_decide_eq_true_1 in H2|by apply bool_decide_eq_true_1 in H3| |by apply bool_decide_eq_true_1 in H5].
  destruct (slashed_evidence_ reg); done.
Qed.

(** The handler is opened guard by guard. *)
Ltac pass tac :=
  match goal with |- context [if ?b then _ else @None (ValidatorRegistry * T)] =>
    let H := fresh in assert (H : b = true) by tac; rewrite H; clear H; cbv match end.

Lemma OpSlash_run reg (st : T) tx :
  unpunished_at reg -> exists reg1, OpSlash key_verify lockup reg st 9502 tx slash_parts
    = Some (penalise lockup false reg1 st op_key_hex registered_record 9502).
Proof.
  intros (Hr & Hk & _ & He & Hc). unfold OpSlash, slash_parts. cbv zeta. cbn [nth].
  replace (ParseCanonicalUint64Text (b:"9501")) with (Some 9501) by (vm_compute; reflexivity). cbv match.
  do 8 pass ltac:(vm_compute; reflexivity). rewrite Hr. cbv match.
  pass ltac:(unfold CanAcceptSlashEvidenceLocked; rewrite Hr; vm_compute; reflexivity).
  do 4 pass ltac:(vm_compute; reflexivity).
  pass ltac:(rewrite Hk; apply bool_decide_eq_true_2, not_elem_of_empty).
  pass ltac:(rewrite He; vm_compute; reflexivity).
  pass ltac:(unfold evidence_count; rewrite Hc; vm_compute; reflexivity).
  by eexists.
Qed.

Lemma settle_registered reg : settle_record reg 9502 registered_record = registered_record.
Proof. reflexivity. Qed.

Lemma before_slash reg plan allocs : unpunished_at reg -> unpunished_at (before_markers reg slash_block plan allocs).
Proof.
  intros (Hr & Hk & Hp & He & Hc). unfold before_markers. cbv zeta.
  replace (is_bond_yield_boundary (Block.height slash_block)) with false by (vm_compute; reflexivity).
  unfold ProcessEndorsementPoolStateLocked.
  replace (canonical_flush _ slash_block) with false by (unfold canonical_flush; vm_compute; reflexivity).
  unfold SettlePrincipals. change (ConsensusSecurityUpgradeActive (Block.height slash_block)) with true. cbv match.
  unfold unpunished_at. cbn [validators_ slashed_evidence_keys_ slashed_pubkeys_ slashed_evidence_ evidence_per_pubkey_
    set_pool_outpoints set_upgrade_active set_validators set_migration_active].
  split_and!; [|assumption..]. rewrite lookup_fmap, Hr. cbv [fmap option_fmap option_map]. by rewrite settle_registered.
Qed.

Lemma floor_permits_slash b : RegistrationFloorPermits b (nth 0 slash_parts []) 9502 = true.
Proof. destruct b; vm_compute; reflexivity. Qed.

Lemma ProcessOp_slash reg (st : T) tx :
  unpunished_at reg -> exists reg', ProcessOp key_verify get lockup reg st 9502 tx slash_marker
    = (reg', lockup st auth_address (slash_until 9502), false) /\ op_key_hex ∈ slashed_pubkeys_ reg'.
Proof.
  intros Hu. destruct (OpSlash_run reg st tx Hu) as (reg1 & E). unfold ProcessOp. cbv zeta. rewrite (proj2 slash_marker_parts).
  rewrite floor_permits_slash.
  replace (bytes_eqb (nth 0 slash_parts []) b:"REGISTER") with false by (vm_compute; reflexivity).
  replace (bytes_eqb (nth 0 slash_parts []) b:"DEREGISTER") with false by (vm_compute; reflexivity).
  replace (bytes_eqb (nth 0 slash_parts []) b:"SLASH_EQUIV") with false by (vm_compute; reflexivity).
  replace (bytes_eqb (nth 0 slash_parts []) b:"SLASH") with true by (vm_compute; reflexivity).
  change (length slash_parts) with 8%nat. cbn [negb andb Nat.eqb]. rewrite E.
  unfold penalise. change (VALIDATOR_SLASHING_HEIGHT <=? 9502) with true. cbv match.
  eexists. split; [reflexivity|]. cbn [slashed_pubkeys_ set_last_op set_slashed_pubkeys]. apply elem_of_union_l, elem_of_singleton. reflexivity.
Qed.

Lemma slash_block_run reg (st : T) :
  unpunished_at reg -> exists reg', ValidatorOps.ProcessBlock key_verify get lockup reg st slash_block
    = (reg', lockup st auth_address (slash_until 9502), true) /\ op_key_hex ∈ slashed_pubkeys_ reg'.
Proof.
  intros Hu. unfold ValidatorOps.ProcessBlock.
  replace (HasFundedRegistration slash_block) with false by (vm_compute; reflexivity). rewrite orb_true_r.
  unfold ProcessBlockImpl. replace (HasValidRegisterMultiplicity slash_block) with true by (vm_compute; reflexivity). cbn [negb].
  pose proof (before_slash reg (BondYield.mkPlan 0 0 [] ∅) [] Hu) as Hb. unfold before_markers in Hb.
  replace (is_bond_yield_boundary (Block.height slash_block)) with false in * by (vm_compute; reflexivity). cbv zeta in Hb |- *. cbv match in Hb |- *.
  set (reg1 := ProcessEndorsementPoolStateLocked _ _) in *. clearbody reg1.
  change (transactions slash_block) with [slash_tx]. change (Block.height slash_block) with 9502.
  cbn [ValidatorOps.process_txs]. change (outputs slash_tx) with [mkOutput 0 (op_return_script slash_marker)]. cbn [ValidatorOps.process_outs script_pubkey].
  rewrite (proj1 slash_marker_parts).
  replace (size slash_marker =? 0) with false by (vm_compute; reflexivity).
  replace (starts_with VAL_PREFIX slash_marker) with true by (vm_compute; reflexivity). cbn [negb andb].
  destruct (ProcessOp_slash reg1 st slash_tx Hb) as (reg2 & E & Hin). rewrite E. cbv match. cbn [negb].
  eexists. split; [reflexivity|]. by rewrite after_markers_slashed.
Qed.
End Slash.

Lemma extend_lockup_frame m r : record_key (extend_lockup m r) = record_key r /\ s_amount_units (extend_lockup m r) = s_amount_units r.
Proof. unfold extend_lockup. destruct (negb _); [done|]. by destruct (_ <? _). Qed.

(** ** Properties *)

(** C17: slashing freezes the offender's stake.  Run the registry and the staking ledger
    together from their empty states.  A block the registry accepts leaves every stake
    as it is and the ledger sound; and for every key it newly bars, each tranche held by
    that key's address survives, with its amount and its backing output, through any
    later sequence of staking blocks below the lockup height and further slashes. *)
Theorem slashed_stake_frozen verify activation override L0 reg L block reg' L' :
  rtc (registry_step verify GetStake ApplySlashBondLockup) (EmptyRegistry, L0) (reg, L) ->
  rtc (ledger_step verify) (configured activation override) L ->
  0 < Block.height block ->
  ValidatorOps.ProcessBlock verify GetStake ApplySlashBondLockup reg L block = (reg', L', true) ->
  ledger_wf L' /\ (forall a, GetStake L' a = GetStake L a)
  /\ (forall pk r L'', pk ∈ slashed_pubkeys_ reg' -> pk ∉ slashed_pubkeys_ reg ->
       r ∈ GetStakeRecords L' (key_address pk) ->
       rtc (step_before verify (slash_until (Block.height block))) L' L'' ->
       holds L'' (key_address pk) (record_key r) (s_amount_units r) (slash_until (Block.height block))).
Proof.
  intros HR HL Hh E. apply steps_inv in HR; [|apply EmptyRegistry_inv].
  destruct (ProcessBlock_freezes (H := ledger_backend) verify reg L block reg' L' Hh HR (staking_reachable_inv _ _ _ _ HL) E) as (H1 & H2 & H3).
  split; [exact H1|]. split; [exact H2|]. intros pk r L'' Hin Hn Hr Hs.
  eapply steps_before_holds; [exact Hs|exact H1|]. exists r. split; [exact Hr|]. split; [done|]. split; [done|].
  specialize (H3 pk Hin Hn). unfold sb_frozen in H3. cbn in H3. unfold ledger_frozen in H3. rewrite Forall_forall in H3.
  by apply H3.
Qed.

(** The stake of the sample run, whose owner's key registers as a validator and is slashed:
    the tranche is there after the slash and after the next block of the ledger. *)
Lemma slashed_stake_frozen_witness :
  exists reg L reg' L' L'', ValidatorOps.ProcessBlock key_verify GetStake ApplySlashBondLockup reg L slash_block = (reg', L', true)
  /\ op_key_hex ∉ slashed_pubkeys_ reg /\ op_key_hex ∈ slashed_pubkeys_ reg'
  /\ GetStake L' auth_address = 3000 * VELD_UNITS
  /\ StakingLedger.ProcessBlock key_verify L' (block_of [] 9503) = (L'', true)
  /\ holds L'' auth_address (record_key locked_tranche) (3000 * VELD_UNITS) (slash_until 9502).
Proof.
  destruct (lock_run key_verify key_verify_accepts) as (L & EL & Es).
  destruct (register_run GetStake ApplySlashBondLockup L) as (reg & L1 & E1 & _ & Hu). apply unpunished_inv in Hu.
  destruct (slash_block_run GetStake ApplySlashBondLockup reg L Hu) as (reg' & E2 & Hin).
  set (L' := ApplySlashBondLockup L auth_address (slash_until 9502)) in *.
  assert (op_key_hex ∉ slashed_pubkeys_ reg) as Hn by (destruct Hu as (_ & _ & -> & _); apply not_elem_of_empty).
  assert (key_address op_key_hex = auth_address) as Ea by (unfold key_address; rewrite op_key_bytes; symmetry; exact auth_address_eq).
  destruct (slashed_stake_frozen key_verify STAKING_UNLOCK_SUPPLY 0 L reg L slash_block reg' L') as (_ & Hs & Hf).
  - eapply rtc_l; [apply (rs_block _ _ _ _ _ (block_of [register_tx] 9501)); [reflexivity|exact E1]|]. apply rtc_once, rs_staking.
  - exact (lock_step key_verify L EL).
  - reflexivity.
  - exact E2.
  - exists reg, L, reg', L', L'. split; [exact E2|]. split; [exact Hn|]. split; [exact Hin|].
    split; [rewrite Hs; apply (locked_records L Es)|]. split; [reflexivity|].
    specialize (Hf op_key_hex (extend_lockup (slash_until 9502) locked_tranche) L' Hin Hn). rewrite Ea in Hf.
    destruct (extend_lockup_frame (slash_until 9502) locked_tranche) as [Hk Hv]. rewrite Hk, Hv in Hf. apply Hf.
    + unfold L'. rewrite ApplySlashBondLockup_records by apply (staking_reachable_inv _ _ _ _ (lock_step key_verify L EL)).
      rewrite decide_True by reflexivity. rewrite (proj1 (locked_records L Es)). apply list_elem_of_singleton. reflexivity.
    + apply rtc_once. left. exists (block_of [] 9503), true. split; [vm_compute; split; [discriminate|reflexivity]|].
      split; [split; constructor|reflexivity].
Defined.
