(* ===== verification/FinalityCodec.v ===== *)
(** * The finality wire format ([consensus/finality_codec.h])

    The binary certificate carried on chain (QB2), its verification against the
    frozen set, the peer form of one vote, the fragmentation of a certificate over
    several marker outputs (QF1), and the parsers that find one logical certificate in
    a block or a transaction.  As in [FinalityVotes], ML-DSA verification is a
    parameter; the OP_RETURN decoder is a template parameter of the source and stays
    one here. *)
From S2P Require Import Prelude Bytes Sha256 Profile Transaction Block Marker StateDigest.
From S2P Require Import FinalityQc FinalitySnapshot FinalityVotes.

Definition FIN_PREFIX : bytes := b:"VELD_FINALITY|".
Definition FIN_QC_BINARY_PREFIX : bytes := b:"VELD_FINALITY|QB2|".
Definition FIN_QC_FRAGMENT_PREFIX : bytes := b:"VELD_FINALITY|QF1|".
Definition FIN_VOTE_BINARY_PREFIX : bytes := b:"FVT1".
Definition SIGNED_VOTE_WIRE_BYTES : Z := 4 + 8 + 32 + 1 + 4 + 8 + 32 + 8 + 32 + PUBKEY_BYTES + SIG_MAX_BYTES.
Definition FINALITY_FRAGMENT_DATA_BYTES : Z := 32000.
Definition MAX_FINALITY_QC_BYTES : Z := 7500000.
Definition MAX_FINALITY_CARRIER_FRAGMENTS : Z :=
  (MAX_FINALITY_QC_BYTES + FINALITY_FRAGMENT_DATA_BYTES - 1) / FINALITY_FRAGMENT_DATA_BYTES.
Definition FinalityQuorumCountFor (n : Z) : Z := (2 * n) / 3 + 1.
Definition FinalityQcWireSizeFor (n : Z) : Z :=
  size FIN_QC_BINARY_PREFIX + 8 + 1 + 4 + 8 + 32 + 8 + 32 + 2 + ((n + 7) / 8) + 2
  + FinalityQuorumCountFor n * SIG_MAX_BYTES.

(** The two static assertions. *)
Example fragment_limits_agree : MAX_FINALITY_CARRIER_FRAGMENTS = MAX_FINALITY_MARKER_OUTPUTS.
Proof. reflexivity. Qed.
Example carrier_ceiling_exact :
  FinalityQcWireSizeFor MAX_FINALITY_VALIDATOR_COUNT <= MAX_FINALITY_QC_BYTES
  < FinalityQcWireSizeFor (MAX_FINALITY_VALIDATOR_COUNT + 1).
Proof. vm_compute. split; [discriminate|reflexivity]. Qed.

(** ** The certificate *)

Record DecodedQc := mkDecoded { d_qc : QuorumCert; d_sigs : list bytes }.

Definition EncodeQc (qc : QuorumCert) (sigs : list bytes) : bytes :=
  if (size (qc_bitmap qc) =? 0) || (UINT16_MAX <? size (qc_bitmap qc)) || (size sigs =? 0)
     || (UINT16_MAX <? size sigs) then []
  else if negb (forallb (fun sig => size sig =? SIG_MAX_BYTES) sigs) then []
  else
    let out := FIN_QC_BINARY_PREFIX ++ put_le 8 (qc_epoch_id qc) ++ [qc_phase qc]
      ++ put_le 4 (qc_round qc) ++ put_le 8 (height (qc_source qc)) ++ hash (qc_source qc)
      ++ put_le 8 (height (qc_target qc)) ++ hash (qc_target qc)
      ++ put_le 2 (u16 (size (qc_bitmap qc))) ++ qc_bitmap qc
      ++ put_le 2 (u16 (size sigs)) ++ concat sigs in
    if MAX_FINALITY_QC_BYTES <? size out then [] else out.

(** The fields after the prefix; [set_root] and [weight] are not transmitted. *)
Definition read_qc : reader DecodedQc :=
  read epoch <- read_le 8;
  read phase <- read_le 1;
  guard (phase =? 1) || (phase =? 2);
  read round <- read_le 4;
  read src_h <- read_le 8;
  read src <- read_bytes 32;
  read tgt_h <- read_le 8;
  read tgt <- read_bytes 32;
  read bitmap_len <- read_le 2;
  guard negb (bitmap_len =? 0);
  read bitmap <- read_bytes (Z.to_nat bitmap_len);
  read sig_count <- read_le 2;
  guard negb (sig_count =? 0);
  read sigs <- read_list (Z.to_nat sig_count) (read_bytes (Z.to_nat SIG_MAX_BYTES));
  rret (mkDecoded (mkQc epoch ZeroHash phase round (mkRef src_h src) (mkRef tgt_h tgt) bitmap 0) sigs).

Definition DecodeQc (data : bytes) : option DecodedQc :=
  if (MAX_FINALITY_QC_BYTES <? size data) || negb (starts_with FIN_QC_BINARY_PREFIX data) then None
  else match read_qc (drop (length FIN_QC_BINARY_PREFIX) data) with
  | Some (d, []) =>
      let qc := d_qc d in
      if negb (SourceRefWellFormed (qc_source qc) (qc_target qc))
         || negb (IsScheduledCheckpoint (height (qc_target qc)))
         || negb (EpochOf (height (qc_target qc)) =? qc_epoch_id qc)
         || negb (qc_round qc =? CheckpointRound (height (qc_target qc))) then None
      else Some d
  | _ => None
  end.

(** ** One vote between peers *)

Definition EncodeSignedVoteWire (v : SignedVote) : bytes :=
  match HexToPublicKey (sv_pubkey_hex v) with
  | None => []
  | Some pk =>
      if negb (size (sv_signature v) =? SIG_MAX_BYTES) then []
      else FIN_VOTE_BINARY_PREFIX ++ put_u64_le (sv_epoch_id v) ++ put_bytes (sv_set_root v)
        ++ put_u8 (sv_phase v) ++ put_u32_le (sv_round v) ++ put_u64_le (height (sv_source v))
        ++ put_bytes (hash (sv_source v)) ++ put_u64_le (height (sv_target v))
        ++ put_bytes (hash (sv_target v)) ++ put_bytes pk ++ put_bytes (sv_signature v)
  end.

Definition read_vote : reader SignedVote :=
  read epoch <- read_le 8;
  read set_root <- read_bytes 32;
  read phase <- read_le 1;
  guard (phase =? 1) || (phase =? 2);
  read round <- read_le 4;
  read src_h <- read_le 8;
  read src <- read_bytes 32;
  read tgt_h <- read_le 8;
  read tgt <- read_bytes 32;
  read pk <- read_bytes (Z.to_nat PUBKEY_BYTES);
  read sig <- read_bytes (Z.to_nat SIG_MAX_BYTES);
  rret (mkVote epoch set_root phase round (mkRef src_h src) (mkRef tgt_h tgt) (BytesToHex pk) sig).

Definition DecodeSignedVoteWire (data : bytes) : option SignedVote :=
  if negb (size data =? SIGNED_VOTE_WIRE_BYTES) || negb (starts_with FIN_VOTE_BINARY_PREFIX data)
  then None
  else match read_vote (drop (length FIN_VOTE_BINARY_PREFIX) data) with
  | Some (v, []) =>
      if negb (SourceRefWellFormed (sv_source v) (sv_target v))
         || negb (IsScheduledCheckpoint (height (sv_target v)))
         || negb (EpochOf (height (sv_target v)) =? sv_epoch_id v) then None
      else Some v
  | _ => None
  end.

(** ** Fragments *)

Definition FinalityWireId (wire : bytes) : Hash256 := sha256_domain b:"VELD_FINALITY_FRAGMENT_v1|" wire.

Definition MAX_DIRECT_PAYLOAD : Z := 32764.

(** Fragment [i] of [count]. *)
Definition fragment (wire : bytes) (id : Hash256) (count i : Z) : bytes :=
  FIN_QC_FRAGMENT_PREFIX ++ id ++ put_le 4 (u32 (size wire)) ++ put_le 2 (u16 i) ++ put_le 2 (u16 count)
  ++ take (Z.to_nat FINALITY_FRAGMENT_DATA_BYTES)
       (drop (Z.to_nat (i * FINALITY_FRAGMENT_DATA_BYTES)) wire).

(** The loop from fragment [i]; [None] is the early return. *)
Fixpoint fragments_from (n : nat) (wire : bytes) (id : Hash256) (count i : Z) : option (list bytes) :=
  match n with
  | O => Some []
  | S n' =>
      let f := fragment wire id count i in
      if MAX_DIRECT_PAYLOAD <? size f then None
      else match fragments_from n' wire id count (i + 1) with
           | Some fs => Some (f :: fs) | None => None end
  end.

Definition EncodeFinalityCarrierPayloads (wire : bytes) : list bytes :=
  if (size wire =? 0) || (MAX_FINALITY_QC_BYTES <? size wire)
     || match DecodeQc wire with None => true | Some _ => false end then []
  else if size wire <=? MAX_DIRECT_PAYLOAD then [wire]
  else
    let count := (size wire + FINALITY_FRAGMENT_DATA_BYTES - 1) / FINALITY_FRAGMENT_DATA_BYTES in
    if (count =? 0) || (MAX_FINALITY_CARRIER_FRAGMENTS <? count) || (UINT16_MAX <? count) then []
    else match fragments_from (Z.to_nat count) wire (FinalityWireId wire) count 0 with
         | Some fs => fs | None => [] end.

Record QcFragment := mkFragment {
  f_id : Hash256; f_total_bytes : Z; f_index : Z; f_count : Z; f_bytes : bytes }.

Definition read_fragment : reader QcFragment :=
  read id <- read_bytes 32;
  read total <- read_le 4;
  read index <- read_le 2;
  read count <- read_le 2;
  rret (mkFragment id total index count []).

Definition DecodeQcFragment (payload : bytes) : option QcFragment :=
  if negb (starts_with FIN_QC_FRAGMENT_PREFIX payload) then None
  else match read_fragment (drop (length FIN_QC_FRAGMENT_PREFIX) payload) with
  | None => None
  | Some (f, rest) =>
      if (f_total_bytes f =? 0) || (MAX_FINALITY_QC_BYTES <? f_total_bytes f) || (f_count f <? 2)
         || (MAX_FINALITY_CARRIER_FRAGMENTS <? f_count f) || (f_count f <=? f_index f) then None
      else if negb (f_count f =? (f_total_bytes f + FINALITY_FRAGMENT_DATA_BYTES - 1)
                                 / FINALITY_FRAGMENT_DATA_BYTES) then None
      else
        let expected := if f_index f + 1 =? f_count f
          then f_total_bytes f - f_index f * FINALITY_FRAGMENT_DATA_BYTES
          else FINALITY_FRAGMENT_DATA_BYTES in
        if negb (size rest =? expected) then None
        else Some (mkFragment (f_id f) (f_total_bytes f) (f_index f) (f_count f) rest)
  end.

(** ** Finding the certificate in a block *)

(** The node's OP_RETURN decoder ([wallet/wallet.h]): an unknown push leaves a zero
    length. *)
Definition ParseOpReturn (script : bytes) : bytes :=
  match script with
  | op :: push :: rest =>
      if negb (op =? 0x6A) then []
      else
        let '(len, data) :=
          if push <=? 75 then (push, rest)
          else if (push =? 0x4C) && (size script >? 2)
          then match rest with l :: data => (l, data) | [] => (0, []) end
          else if (push =? 0x4D) && (size script >? 3)
          then match rest with lo :: hi :: data => (Z.lor lo (Z.shiftl hi 8), data) | _ => (0, []) end
          else (0, push :: rest) in
        if size data <? len then [] else take (Z.to_nat len) data
  | _ => []
  end.

Inductive FinParseResult := NONE | INVALID | VALID (decoded : DecodedQc).

(** What the scan has collected. *)
Record Carried := mkCarried { direct : option bytes; fragments : list QcFragment }.

Section Parse.
Context (parse_op_return : bytes -> bytes).

(** One finality output; [None] is the INVALID return. *)
Definition scan_output (c : Carried) (o : TxOutput) : option Carried :=
  let payload := parse_op_return (script_pubkey o) in
  if negb (starts_with FIN_PREFIX payload) then Some c
  else if negb (value o =? 0) || (32768 <? size (script_pubkey o))
          || negb (IsCanonicalMarkerOpReturn (script_pubkey o) payload) then None
  else if starts_with FIN_QC_BINARY_PREFIX payload then
    match direct c, fragments c with
    | None, [] => Some (mkCarried (Some payload) [])
    | _, _ => None
    end
  else match DecodeQcFragment payload, direct c with
       | Some f, None =>
           if MAX_FINALITY_CARRIER_FRAGMENTS <=? size (fragments c) then None
           else Some (mkCarried None (fragments c ++ [f]))
       | _, _ => None
       end.

Fixpoint scan_outputs (c : Carried) (outs : list TxOutput) : option Carried :=
  match outs with
  | [] => Some c
  | o :: outs' => match scan_output c o with Some c' => scan_outputs c' outs' | None => None end
  end.

Fixpoint scan_txs (c : Carried) (txs : list Transaction) : option Carried :=
  match txs with
  | [] => Some c
  | tx :: txs' => match scan_outputs c (outputs tx) with Some c' => scan_txs c' txs' | None => None end
  end.

(** The reassembly loop against the first fragment. *)
Fixpoint reassemble (first : QcFragment) (i : Z) (fs : list QcFragment) : option bytes :=
  match fs with
  | [] => Some []
  | f :: fs' =>
      if bool_decide (f_id f <> f_id first) || negb (f_total_bytes f =? f_total_bytes first)
         || negb (f_count f =? f_count first) || negb (f_index f =? i) then None
      else match reassemble first (i + 1) fs' with Some w => Some (f_bytes f ++ w) | None => None end
  end.

Definition decoded_result (wire : bytes) : FinParseResult :=
  match DecodeQc wire with Some d => VALID d | None => INVALID end.

Definition ParseFinalityBlock (block : Block) : FinParseResult :=
  match scan_txs (mkCarried None []) (transactions block) with
  | None => INVALID
  | Some c =>
      match direct c, fragments c with
      | Some wire, _ => decoded_result wire
      | None, [] => NONE
      | None, (first :: _) as fs =>
          if negb (size fs =? f_count first) then INVALID
          else match reassemble first 0 fs with
               | None => INVALID
               | Some wire =>
                   if negb (size wire =? f_total_bytes first)
                      || bool_decide (FinalityWireId wire <> f_id first) then INVALID
                   else decoded_result wire
               end
      end
  end.

(** The single-transaction parser: [markers] counts, [r] is the result so far. *)
Fixpoint parse_op_loop (outs : list TxOutput) (markers : Z) (r : FinParseResult) : FinParseResult :=
  match outs with
  | [] => r
  | o :: outs' =>
      let data := parse_op_return (script_pubkey o) in
      if negb (starts_with FIN_PREFIX data) then parse_op_loop outs' markers r
      else if (1 <? markers + 1) || negb (value o =? 0) || (32768 <? size (script_pubkey o))
              || negb (IsCanonicalMarkerOpReturn (script_pubkey o) data) then INVALID
      else match DecodeQc data with
           | None => INVALID
           | Some d => parse_op_loop outs' (markers + 1) (VALID d)
           end
  end.

Definition ParseFinalityOp (tx : Transaction) : FinParseResult := parse_op_loop (outputs tx) 0 NONE.

End Parse.

(** ** Verification against the frozen set *)

Section Verify.
Context (Verify : bytes -> bytes -> bytes -> bool).

(** The loop over the members from position [i]; every set bit consumes one signature. *)
Fixpoint verify_members (msg : bytes) (bitmap : bytes) (i : nat) (es : list SnapshotEntry)
    (sigs : list bytes) : bool :=
  match es with
  | [] => bool_decide (sigs = [])
  | e :: es' =>
      if negb (bit_set bitmap i) then verify_members msg bitmap (S i) es' sigs
      else match sigs with
           | [] => false
           | sig :: sigs' =>
               if negb (size sig =? SIG_MAX_BYTES) then false
               else match HexToPublicKey (pubkey_hex e) with
                    | None => false
                    | Some pk => if negb (Verify pk msg sig) then false
                                 else verify_members msg bitmap (S i) es' sigs'
                    end
           end
  end.

(** [None] is [return false]; otherwise the certificate with its set root and weight. *)
Definition VerifyDecodedQc (d : DecodedQc) (s : EpochSnapshot) (network_id : Z) (genesis_hash : Hash256)
  : option DecodedQc :=
  let qc := d_qc d in
  if negb (SnapshotWellFormed s) then None
  else if negb (qc_epoch_id qc =? epoch_id s) then None
  else if negb (EpochOf (height (qc_target qc)) =? qc_epoch_id qc) then None
  else if negb (qc_round qc =? CheckpointRound (height (qc_target qc))) then None
  else if negb (size (qc_bitmap qc) =? (size (entries s) + 7) / 8) then None
  else if negb (IsScheduledCheckpoint (height (qc_target qc))) then None
  else if negb (SourceRefWellFormed (qc_source qc) (qc_target qc)) then None
  else if stray_bits (qc_bitmap qc) (length (entries s)) then None
  else
    let msg := VotePreimage network_id genesis_hash (qc_epoch_id qc) (root s) (qc_phase qc)
                 (qc_round qc) (qc_source qc) (qc_target qc) in
    if negb (verify_members msg (qc_bitmap qc) 0 (entries s) (d_sigs d)) then None
    else
      let w := BitmapWeight s (qc_bitmap qc) in
      if negb (IsSupermajority w (total_weight s)) then None
      else Some (mkDecoded (mkQc (qc_epoch_id qc) (root s) (qc_phase qc) (qc_round qc) (qc_source qc)
                              (qc_target qc) (qc_bitmap qc) w) (d_sigs d)).

End Verify.

(** ** Lemmas: certificates on the wire *)

(** What the wire can carry: full-width fields, one to 65535 bitmap bytes and
    signatures, a well-formed claim, and at most the carrier budget. *)
Definition wire_ok (qc : QuorumCert) (sigs : list bytes) : Prop :=
  fits 64 (qc_epoch_id qc) /\ (qc_phase qc = PREVOTE \/ qc_phase qc = PRECOMMIT)
  /\ fits 32 (qc_round qc) /\ wf_ref (qc_source qc) /\ wf_ref (qc_target qc)
  /\ 1 <= size (qc_bitmap qc) <= UINT16_MAX /\ 1 <= size sigs <= UINT16_MAX
  /\ Forall (fun sig => size sig = SIG_MAX_BYTES) sigs
  /\ SourceRefWellFormed (qc_source qc) (qc_target qc) = true
  /\ IsScheduledCheckpoint (height (qc_target qc)) = true
  /\ EpochOf (height (qc_target qc)) = qc_epoch_id qc
  /\ qc_round qc = CheckpointRound (height (qc_target qc))
  /\ size FIN_QC_BINARY_PREFIX + 97 + size (qc_bitmap qc) + size sigs * SIG_MAX_BYTES
     <= MAX_FINALITY_QC_BYTES.

(** What the wire carries of a certificate. *)
Definition transmitted (qc : QuorumCert) : QuorumCert :=
  mkQc (qc_epoch_id qc) ZeroHash (qc_phase qc) (qc_round qc) (qc_source qc) (qc_target qc)
    (qc_bitmap qc) 0.

Definition qc_wire_body (qc : QuorumCert) (sigs : list bytes) : bytes :=
  put_le 8 (qc_epoch_id qc) ++ put_le 1 (qc_phase qc)
  ++ put_le 4 (qc_round qc) ++ put_le 8 (height (qc_source qc)) ++ hash (qc_source qc)
  ++ put_le 8 (height (qc_target qc)) ++ hash (qc_target qc)
  ++ put_le 2 (size (qc_bitmap qc)) ++ qc_bitmap qc
  ++ put_le 2 (size sigs) ++ concat sigs.

Lemma size_concat_const (xs : list bytes) k : Forall (fun x => size x = k) xs -> size (concat xs) = size xs * k.
Proof.
  induction 1 as [|x xs Hx Hxs IH]; [done|]. cbn [concat]. rewrite size_app, IH, Hx.
  unfold size. cbn [length]. lia.
Qed.

Lemma read_qc_body qc sigs :
  wire_ok qc sigs -> read_qc (qc_wire_body qc sigs) = Some (mkDecoded (transmitted qc) sigs, []).
Proof.
  intros (He & Hp & Hr & [Hsh [Hsl _]] & [Hth [Htl _]] & Hb & Hs & Hf & _).
  unfold UINT16_MAX in *. unfold read_qc, qc_wire_body, rbind.
  rewrite read_le_app by done. rewrite read_le_app by (destruct Hp as [->| ->]; vm_compute; (split; [discriminate|reflexivity])).
  replace ((qc_phase qc =? 1) || (qc_phase qc =? 2)) with true
    by (destruct Hp as [->| ->]; reflexivity).
  rewrite read_le_app by done. rewrite read_le_app by done. rewrite read_bytes_app by done.
  rewrite read_le_app by done. rewrite read_bytes_app by done.
  rewrite read_le_app by (unfold fits; cbn; lia).
  destruct (Z.eqb_spec (size (qc_bitmap qc)) 0); [lia|]. cbn [negb].
  rewrite read_bytes_app by (unfold size; by rewrite Nat2Z.id).
  rewrite read_le_app by (unfold fits; cbn; lia).
  destruct (Z.eqb_spec (size sigs) 0); [lia|]. cbn [negb].
  unfold size at 1. rewrite Nat2Z.id, <- (app_nil_r (concat sigs)), read_chunks_app.
  - unfold rret, transmitted. by destruct (qc_source qc), (qc_target qc).
  - eapply Forall_impl; [exact Hf|]. intros x Hx. cbv beta in Hx. unfold size in Hx.
    by rewrite <- Hx, Nat2Z.id.
Qed.

Lemma EncodeQc_eq qc sigs :
  wire_ok qc sigs -> EncodeQc qc sigs = FIN_QC_BINARY_PREFIX ++ qc_wire_body qc sigs
    /\ size (EncodeQc qc sigs) <= MAX_FINALITY_QC_BYTES.
Proof.
  intros (He & Hp & Hr & [Hsh [Hsl _]] & [Hth [Htl _]] & Hb & Hs & Hf & _ & _ & _ & _ & Hmax).
  unfold EncodeQc. unfold UINT16_MAX in *.
  destruct (Z.eqb_spec (size (qc_bitmap qc)) 0); [lia|].
  destruct (Z.eqb_spec (size sigs) 0); [lia|].
  destruct (Z.ltb_spec (2 ^ 16 - 1) (size (qc_bitmap qc))); [lia|].
  destruct (Z.ltb_spec (2 ^ 16 - 1) (size sigs)); [lia|]. cbn [orb].
  replace (forallb (fun sig => size sig =? SIG_MAX_BYTES) sigs) with true
    by (symmetry; apply forallb_forall; intros x Hx; apply Z.eqb_eq; rewrite Forall_forall in Hf;
        by apply Hf, list_elem_of_In).
  cbn [negb]. rewrite !wrap_id by (unfold fits; lia).
  replace [qc_phase qc] with (put_le 1 (qc_phase qc)) by (destruct Hp as [->| ->]; reflexivity).
  fold (qc_wire_body qc sigs). cbn zeta.
  assert (Hsz : size (FIN_QC_BINARY_PREFIX ++ qc_wire_body qc sigs) <= MAX_FINALITY_QC_BYTES).
  { unfold qc_wire_body. rewrite !size_app, !size_put_le, (size_concat_const sigs SIG_MAX_BYTES Hf).
    assert (H1 : size (hash (qc_source qc)) = 32) by (unfold size; rewrite Hsl; done).
    assert (H2 : size (hash (qc_target qc)) = 32) by (unfold size; rewrite Htl; done). lia. }
  destruct (Z.ltb_spec MAX_FINALITY_QC_BYTES (size (FIN_QC_BINARY_PREFIX ++ qc_wire_body qc sigs))); [lia|].
  done.
Qed.

Lemma read_qc_inv data d rest :
  is_bytes data -> read_qc data = Some (d, rest) ->
  let qc := d_qc d in
  data = qc_wire_body qc (d_sigs d) ++ rest /\ transmitted qc = qc
  /\ fits 64 (qc_epoch_id qc) /\ (qc_phase qc = PREVOTE \/ qc_phase qc = PRECOMMIT)
  /\ fits 32 (qc_round qc) /\ wf_ref (qc_source qc) /\ wf_ref (qc_target qc)
  /\ 1 <= size (qc_bitmap qc) <= UINT16_MAX /\ 1 <= size (d_sigs d) <= UINT16_MAX
  /\ Forall (fun sig => size sig = SIG_MAX_BYTES) (d_sigs d).
Proof.
  intros Hd H. unfold read_qc, rbind, rret in H. inv_reader H. injection H as <- <-.
  cbn [d_qc d_sigs qc_epoch_id qc_phase qc_round qc_source qc_target qc_bitmap].
  bool_hyps. rewrite Z.eqb_neq in *. unfold fits, UINT16_MAX in *.
  repeat match goal with H : length ?l = Z.to_nat ?z, H' : 0 <= ?z < _ |- _ =>
    let E := fresh "L" in assert (E : size l = z) by (unfold size; lia); clear H end.
  split; [|split; [done|split; [done|split; [|split; [done|split; [|split; [|split; [|split]]]]]]]].
  - unfold qc_wire_body. cbn [qc_epoch_id qc_phase qc_round qc_source qc_target qc_bitmap height hash].
    rewrite <- !app_assoc. congruence.
  - unfold PREVOTE, PRECOMMIT. rewrite orb_true_iff, !Z.eqb_eq in *. done.
  - done.
  - done.
  - lia.
  - lia.
  - eapply Forall_impl; [eassumption|]. intros x Hx. cbv beta in Hx. unfold size. rewrite Hx. reflexivity.
Qed.

Lemma DecodeQc_iff data d :
  is_bytes data ->
  DecodeQc data = Some d <->
  wire_ok (d_qc d) (d_sigs d) /\ transmitted (d_qc d) = d_qc d
  /\ data = FIN_QC_BINARY_PREFIX ++ qc_wire_body (d_qc d) (d_sigs d).
Proof.
  intros Hd. unfold DecodeQc. split.
  - destruct (Z.ltb_spec MAX_FINALITY_QC_BYTES (size data)) as [|Hmax]; [done|].
    destruct (starts_with FIN_QC_BINARY_PREFIX data) eqn:Ep; [|done]. cbn [orb negb].
    apply starts_with_inv in Ep. set (body := drop (length FIN_QC_BINARY_PREFIX) data) in *.
    assert (Hb : is_bytes body) by (by apply is_bytes_drop). clearbody body. subst data.
    destruct (read_qc body) as [[d' [|b rest]]|] eqn:Er; [|done|done].
    intros H. destruct (_ || _) eqn:Ec in H; [done|]. injection H as ->. bool_hyps. rewrite Z.eqb_eq in *.
    apply read_qc_inv in Er as (-> & Ht & W1 & W2 & W3 & W4 & W5 & W6 & W7 & W8); [|done].
    rewrite app_nil_r in *. split; [|done]. unfold wire_ok.
    repeat (split; [done|]).
    unfold qc_wire_body in Hmax. destruct W4 as [_ [Hs _]]. destruct W5 as [_ [Ht' _]].
    rewrite !size_app, !size_put_le, (size_concat_const _ SIG_MAX_BYTES W8) in Hmax.
    assert (S1 : size (hash (qc_source (d_qc d))) = 32) by (unfold size; rewrite Hs; done).
    assert (S2 : size (hash (qc_target (d_qc d))) = 32) by (unfold size; rewrite Ht'; done). lia.
  - intros (Hw & Ht & ->). pose proof (EncodeQc_eq _ _ Hw) as [E Hsz]. rewrite E in Hsz.
    destruct (Z.ltb_spec MAX_FINALITY_QC_BYTES
      (size (FIN_QC_BINARY_PREFIX ++ qc_wire_body (d_qc d) (d_sigs d)))); [lia|].
    rewrite starts_with_app, drop_app_length, read_qc_body by done. cbn [orb negb].
    destruct Hw as (_ & _ & _ & _ & _ & _ & _ & _ & W1 & W2 & W3 & W4 & _).
    cbn [d_qc]. rewrite Ht, W1, W2, W3, <- W4, !Z.eqb_refl. by destruct d.
Qed.

(** The certificate wire format is a bijection.  A certificate the wire can carry
    decodes from its encoding to exactly its transmitted fields and signatures, and
    every byte string the decoder accepts is the encoding of what it returns: no
    second spelling, no trailing bytes, no malformed claim. *)
Lemma qc_wire_roundtrip :
  (forall qc sigs, wire_ok qc sigs -> is_bytes (EncodeQc qc sigs) ->
     DecodeQc (EncodeQc qc sigs) = Some (mkDecoded (transmitted qc) sigs))
  /\ (forall data d, is_bytes data -> DecodeQc data = Some d ->
     wire_ok (d_qc d) (d_sigs d) /\ EncodeQc (d_qc d) (d_sigs d) = data).
Proof.
  split.
  - intros qc sigs Hw Hb. apply DecodeQc_iff; [done|]. cbn [d_qc d_sigs].
    split; [exact Hw|]. split; [done|]. by apply EncodeQc_eq in Hw as [-> _].
  - intros data d Hb H. apply DecodeQc_iff in H as (Hw & _ & ->); [|done]. split; [done|].
    by apply EncodeQc_eq in Hw as [-> _].
Qed.

(** The claims of the demo certificate. *)
Definition wire_sample : QuorumCert :=
  mkQc 3 ZeroHash PRECOMMIT (CheckpointRound 1440) NullRef (mkRef 1440 (replicate 32 9)) [31] 0.
Definition wire_sigs : list bytes := replicate 5 (replicate (Z.to_nat SIG_MAX_BYTES) 7).

Lemma qc_wire_roundtrip_witness :
  DecodeQc (EncodeQc wire_sample wire_sigs) = Some (mkDecoded wire_sample wire_sigs).
Proof.
  apply (proj1 qc_wire_roundtrip wire_sample wire_sigs).
  - unfold wire_ok. repeat split; try (vm_compute; congruence); try reflexivity.
    + right. reflexivity.
    + apply (bool_decide_unpack _). vm_compute. exact I.
    + apply (bool_decide_unpack _). vm_compute. exact I.
    + apply Forall_replicate. vm_compute. reflexivity.
  - apply (bool_decide_unpack _). vm_compute. exact I.
Defined.

(** ** Verification is exact *)

(** The members the bitmap names, in snapshot order from position [i]. *)
Fixpoint selected (bitmap : bytes) (i : nat) (es : list SnapshotEntry) : list SnapshotEntry :=
  match es with
  | [] => []
  | e :: es' => if bit_set bitmap i then e :: selected bitmap (S i) es' else selected bitmap (S i) es'
  end.

(** A full-length signature over [msg] that verifies under the member's key. *)
Definition signed_by (Verify : bytes -> bytes -> bytes -> bool) (msg : bytes) (e : SnapshotEntry)
    (sig : bytes) : Prop :=
  size sig = SIG_MAX_BYTES
  /\ exists pk, HexToPublicKey (pubkey_hex e) = Some pk /\ Verify pk msg sig = true.

Lemma verify_members_iff Verify msg bitmap i es sigs :
  verify_members Verify msg bitmap i es sigs = true
  <-> Forall2 (signed_by Verify msg) (selected bitmap i es) sigs.
Proof.
  revert i sigs. induction es as [|e es IH]; intros i sigs; cbn [verify_members selected].
  { rewrite bool_decide_eq_true. split; [intros ->; constructor|]. by inversion 1. }
  destruct (bit_set bitmap i); cbn [negb]; [|apply IH].
  destruct sigs as [|sig sigs]; [split; [done|by inversion 1]|].
  rewrite Forall2_cons, <- IH. unfold signed_by.
  destruct (Z.eqb_spec (size sig) SIG_MAX_BYTES); cbn [negb]; [|split; [done|tauto]].
  destruct (HexToPublicKey (pubkey_hex e)) as [pk|].
  2:{ split; [done|]. by intros ((_ & pk & C & _) & _). }
  destruct (Verify pk msg sig) eqn:Ev; cbn [negb].
  - split; [|tauto]. intros H. split; [|done]. split; [done|]. by exists pk.
  - split; [done|]. intros ((_ & pk' & [= <-] & C) & _). congruence.
Qed.

(** The certificate with the set root and weight the verifier fills in. *)
Definition completed (qc : QuorumCert) (s : EpochSnapshot) : QuorumCert :=
  mkQc (qc_epoch_id qc) (root s) (qc_phase qc) (qc_round qc) (qc_source qc) (qc_target qc)
    (qc_bitmap qc) (BitmapWeight s (qc_bitmap qc)).

Definition qc_message (qc : QuorumCert) (s : EpochSnapshot) (net : Z) (gen : Hash256) : bytes :=
  VotePreimage net gen (qc_epoch_id qc) (root s) (qc_phase qc) (qc_round qc) (qc_source qc)
    (qc_target qc).

Lemma stray_bits_false bitmap n :
  stray_bits bitmap n = false -> forall i, bit_set bitmap i = true -> (i < n)%nat.
Proof.
  intros H i Hi. destruct (decide (i < n)%nat) as [|Hge]; [done|]. exfalso.
  unfold stray_bits in H. apply not_true_iff_false in H. apply H, existsb_exists.
  exists i. split; [|done]. apply in_seq. unfold bit_set in Hi.
  destruct (bitmap !! (i / 8)%nat) eqn:E; [|done]. apply lookup_lt_Some in E.
  pose proof (Nat.div_mod_eq i 8). pose proof (Nat.mod_upper_bound i 8). lia.
Qed.

Lemma VerifyDecodedQc_iff Verify d s net gen d' :
  qc_phase (d_qc d) = PREVOTE \/ qc_phase (d_qc d) = PRECOMMIT ->
  VerifyDecodedQc Verify d s net gen = Some d' <->
  d' = mkDecoded (completed (d_qc d) s) (d_sigs d)
  /\ QcWellFormed (completed (d_qc d) s) s = true
  /\ Forall2 (signed_by Verify (qc_message (d_qc d) s net gen))
       (selected (qc_bitmap (d_qc d)) 0 (entries s)) (d_sigs d).
Proof.
  intros Hp. unfold VerifyDecodedQc. fold (qc_message (d_qc d) s net gen). rewrite <- verify_members_iff.
  split.
  - intros H. repeat match type of H with
      (if ?b then None else _) = _ => destruct b eqn:?; [done|] end.
    bool_hyps. rewrite Z.eqb_eq in *. injection H as <-. split; [done|]. split; [|done].
    apply QcWellFormed_intro; try done. intros i Hi. by eapply stray_bits_false.
  - intros (-> & Hw & Hv). apply QcWellFormed_inv in Hw.
    cbn [completed qc_epoch_id qc_set_root qc_phase qc_round qc_source qc_target qc_bitmap qc_weight] in Hw.
    destruct Hw as (W1 & W2 & _ & _ & W3 & W4 & W5 & W6 & W7 & W8 & _ & W9).
    rewrite W1, W2, Z.eqb_refl. cbn [negb]. rewrite <- W2, W4, Z.eqb_refl, <- W5, Z.eqb_refl, W7, Z.eqb_refl,
      W3, W6, W8, Hv, W9. reflexivity.
Qed.

(** On-chain verification is exact.  The verifier accepts a decoded certificate
    precisely when the certificate completed with the set's root and recomputed weight
    is well formed and each member named by the bitmap, in order, has one full-length
    signature that verifies over the vote preimage, with none left over; what it
    returns is that completed certificate. *)
Lemma verify_decoded_exact Verify d s net gen :
  qc_phase (d_qc d) = PREVOTE \/ qc_phase (d_qc d) = PRECOMMIT ->
  forall d', VerifyDecodedQc Verify d s net gen = Some d' <->
  d' = mkDecoded (completed (d_qc d) s) (d_sigs d)
  /\ QcWellFormed (completed (d_qc d) s) s = true
  /\ Forall2 (signed_by Verify (qc_message (d_qc d) s net gen))
       (selected (qc_bitmap (d_qc d)) 0 (entries s)) (d_sigs d).
Proof. intros Hp d'. by apply VerifyDecodedQc_iff. Qed.

Definition single_decoded : DecodedQc :=
  mkDecoded (mkQc 2 ZeroHash PRECOMMIT (CheckpointRound 960) NullRef (mkRef 960 ZeroHash) [1] 0)
    [replicate (Z.to_nat SIG_MAX_BYTES) 0].

Lemma single_completed_ok : QcWellFormed (completed (d_qc single_decoded) (single_set 2)) (single_set 2) = true.
Proof.
  apply QcWellFormed_intro;
    [apply single_set_ok|reflexivity|reflexivity|right; reflexivity|reflexivity|reflexivity|reflexivity
    |reflexivity|reflexivity| |reflexivity|reflexivity].
  - intros i Hi. change (length (entries (single_set 2))) with 1%nat.
    destruct (decide (i < 1)%nat) as [|Hge]; [done|exfalso]. cbn [completed single_decoded d_qc qc_bitmap] in Hi.
    destruct (decide (i < 8)%nat) as [Hlt|Hge8].
    + do 8 (destruct i as [|i]; [first [lia|vm_compute in Hi; discriminate Hi]|]). lia.
    + unfold bit_set in Hi. rewrite lookup_ge_None_2 in Hi; [discriminate Hi|].
      cbn [length]. assert (8 / 8 <= i / 8)%nat by (apply Nat.Div0.div_le_mono; lia).
      change (8 / 8)%nat with 1%nat in *. done.
Qed.

Lemma verify_decoded_exact_witness :
  VerifyDecodedQc accept_all single_decoded (single_set 2) NETWORK_ID ZeroHash
  = Some (mkDecoded (completed (d_qc single_decoded) (single_set 2)) (d_sigs single_decoded)).
Proof.
  apply (verify_decoded_exact accept_all single_decoded (single_set 2) NETWORK_ID ZeroHash).
  - right. reflexivity.
  - split; [reflexivity|]. split; [apply single_completed_ok|].
    destruct sample_key_hex as [pk Hpk].
    constructor; [|constructor]. split; [vm_compute; reflexivity|]. exists pk. split; [exact Hpk|reflexivity].
Defined.

(** ** One logical certificate per block *)

Lemma ParseOpReturn_marker script : ParseOpReturn script = MarkerOpReturnPayload script.
Proof.
  destruct script as [|op [|push rest]]; [done..|]. unfold ParseOpReturn, MarkerOpReturnPayload.
  destruct (negb (op =? 0x6A)); [done|]. destruct (push <=? 75); [done|].
  set (s := op :: push :: rest). clearbody s.
  destruct ((push =? 0x4C) && (size s >? 2)); [destruct rest; [by cbn|done]|].
  destruct ((push =? 0x4D) && (size s >? 3)); [destruct rest as [|lo [|hi data]]; by cbn|].
  by destruct (size (push :: rest) <? 0).
Qed.

(** The marker output that carries a payload. *)
Definition carrier_output (payload : bytes) : TxOutput := mkOutput 0 (op_return_script payload).

Definition is_finality_output (o : TxOutput) : bool :=
  starts_with FIN_PREFIX (ParseOpReturn (script_pubkey o)).

(** The finality outputs of a block, in transaction and output order. *)
Definition finality_outputs (block : Block) : list TxOutput :=
  List.filter is_finality_output (concat (map outputs (transactions block))).

Lemma scan_outputs_app parse c a b :
  scan_outputs parse c (a ++ b)
  = match scan_outputs parse c a with Some c' => scan_outputs parse c' b | None => None end.
Proof.
  revert c. induction a as [|o a IH]; intros c; [done|]. cbn [scan_outputs app].
  by destruct (scan_output parse c o).
Qed.

Lemma scan_txs_flat parse c txs : scan_txs parse c txs = scan_outputs parse c (concat (map outputs txs)).
Proof.
  revert c. induction txs as [|tx txs IH]; intros c; [done|]. cbn [scan_txs map concat].
  rewrite scan_outputs_app. by destruct (scan_outputs parse c (outputs tx)).
Qed.

Lemma scan_outputs_filter c outs :
  scan_outputs ParseOpReturn c outs = scan_outputs ParseOpReturn c (List.filter is_finality_output outs).
Proof.
  revert c. induction outs as [|o outs IH]; intros c; [done|]. cbn [scan_outputs List.filter].
  destruct (is_finality_output o) eqn:E; cbn [scan_outputs].
  - destruct (scan_output ParseOpReturn c o); [apply IH|done].
  - unfold scan_output. unfold is_finality_output in E. rewrite E. cbn [negb]. apply IH.
Qed.

Lemma carrier_output_ok p :
  size p <= MAX_DIRECT_PAYLOAD ->
  ParseOpReturn (script_pubkey (carrier_output p)) = p
  /\ (32768 <? size (script_pubkey (carrier_output p))) = false
  /\ IsCanonicalMarkerOpReturn (script_pubkey (carrier_output p)) p = true.
Proof.
  unfold MAX_DIRECT_PAYLOAD. intros Hp. cbn [carrier_output script_pubkey].
  rewrite ParseOpReturn_marker, MarkerOpReturnPayload_script by lia. split; [done|]. split.
  - apply Z.ltb_ge. unfold op_return_script, size in *. cbn [length]. rewrite length_app.
    destruct (_ <=? 75); [cbn [length]; lia|]. destruct (_ <=? 0xFF); cbn [length]; lia.
  - apply IsCanonicalMarkerOpReturn_iff. split; [lia|done].
Qed.

Lemma starts_with_shorter a b s : starts_with (a ++ b) s = true -> starts_with a s = true.
Proof.
  intros H. apply starts_with_inv in H. rewrite H, <- app_assoc. apply starts_with_app.
Qed.

Lemma scan_direct wire :
  size wire <= MAX_DIRECT_PAYLOAD -> starts_with FIN_QC_BINARY_PREFIX wire = true ->
  scan_outputs ParseOpReturn (mkCarried None []) [carrier_output wire] = Some (mkCarried (Some wire) []).
Proof.
  intros Hs Hp. destruct (carrier_output_ok wire Hs) as (E1 & E2 & E3).
  cbn [scan_outputs]. unfold scan_output. rewrite E1, E2, E3, Hp.
  change FIN_QC_BINARY_PREFIX with (FIN_PREFIX ++ b:"QB2|") in Hp.
  apply starts_with_shorter in Hp. rewrite Hp. reflexivity.
Qed.

(** *** Fragmented carriers *)

Section Fragments.
Context (wire : bytes) (id : Hash256) (count : Z).
Context (Hid : length id = 32%nat) (Hmax : size wire <= MAX_FINALITY_QC_BYTES).
Context (Hbig : MAX_DIRECT_PAYLOAD < size wire).
Context (Hcount : count = (size wire + FINALITY_FRAGMENT_DATA_BYTES - 1) / FINALITY_FRAGMENT_DATA_BYTES).

Definition chunk (i : Z) : bytes :=
  take (Z.to_nat FINALITY_FRAGMENT_DATA_BYTES) (drop (Z.to_nat (i * FINALITY_FRAGMENT_DATA_BYTES)) wire).

Definition decoded_fragment (i : Z) : QcFragment := mkFragment id (size wire) i count (chunk i).

Lemma count_bounds :
  2 <= count <= MAX_FINALITY_CARRIER_FRAGMENTS
  /\ (count - 1) * FINALITY_FRAGMENT_DATA_BYTES < size wire <= count * FINALITY_FRAGMENT_DATA_BYTES.
Proof.
  rewrite Hcount. change MAX_FINALITY_CARRIER_FRAGMENTS with 235.
  unfold FINALITY_FRAGMENT_DATA_BYTES, MAX_FINALITY_QC_BYTES, MAX_DIRECT_PAYLOAD in *.
  pose proof (Z.div_mod (size wire + 32000 - 1) 32000). pose proof (Z.mod_pos_bound (size wire + 32000 - 1) 32000).
  lia.
Qed.

Lemma size_chunk i :
  0 <= i < count ->
  size (chunk i) = if i + 1 =? count then size wire - i * FINALITY_FRAGMENT_DATA_BYTES
                   else FINALITY_FRAGMENT_DATA_BYTES.
Proof.
  intros Hi. pose proof count_bounds as [_ Hb].
  unfold chunk, size in *. rewrite length_take, length_drop.
  unfold FINALITY_FRAGMENT_DATA_BYTES in *. destruct (Z.eqb_spec (i + 1) count); nia.
Qed.

Lemma size_fragment i : 0 <= i < count -> size (fragment wire id count i) <= MAX_DIRECT_PAYLOAD.
Proof.
  intros Hi. unfold fragment. rewrite !size_app, !size_put_le. fold (chunk i).
  assert (size id = 32) by (unfold size; rewrite Hid; done).
  assert (size (chunk i) <= 32000).
  { unfold chunk, size. rewrite length_take. unfold FINALITY_FRAGMENT_DATA_BYTES. lia. }
  change (size FIN_QC_FRAGMENT_PREFIX) with 18. unfold MAX_DIRECT_PAYLOAD. lia.
Qed.

Lemma DecodeQcFragment_fragment i :
  0 <= i < count -> DecodeQcFragment (fragment wire id count i) = Some (decoded_fragment i).
Proof.
  intros Hi. pose proof count_bounds as [Hc Hb]. pose proof (size_chunk i Hi) as Hs.
  change MAX_FINALITY_CARRIER_FRAGMENTS with 235 in *. unfold MAX_FINALITY_QC_BYTES, MAX_DIRECT_PAYLOAD in *.
  unfold DecodeQcFragment, fragment. rewrite starts_with_app, drop_app_length. cbn [negb].
  unfold read_fragment, rbind. rewrite !wrap_id by (unfold fits; lia).
  rewrite read_bytes_app by done. rewrite read_le_app by (unfold fits; cbn; lia).
  rewrite read_le_app by (unfold fits; cbn; lia). rewrite read_le_app by (unfold fits; cbn; lia).
  unfold rret. cbn [f_total_bytes f_count f_index f_id]. fold (chunk i). rewrite Hs.
  unfold MAX_FINALITY_QC_BYTES. destruct (Z.eqb_spec (size wire) 0); [lia|]. destruct (Z.ltb_spec 7500000 (size wire)); [lia|].
  destruct (Z.ltb_spec count 2); [lia|]. change MAX_FINALITY_CARRIER_FRAGMENTS with 235.
  destruct (Z.ltb_spec 235 count); [lia|]. destruct (Z.leb_spec count i); [lia|]. cbn [orb].
  rewrite <- Hcount, Z.eqb_refl. cbn [negb]. rewrite Z.eqb_refl. reflexivity.
Qed.

Definition indices (i : Z) (n : nat) : list Z := map (fun j => i + Z.of_nat j) (seq 0 n).

Lemma indices_S i n : indices i (S n) = i :: indices (i + 1) n.
Proof using.
  clear Hid Hmax Hbig Hcount.
  unfold indices. cbn [seq map]. rewrite Z.add_0_r. f_equal. rewrite <- seq_shift, map_map.
  apply map_ext. intros j. lia.
Qed.

Lemma fragments_from_eq n i :
  0 <= i -> i + Z.of_nat n <= count ->
  fragments_from n wire id count i = Some (map (fragment wire id count) (indices i n)).
Proof.
  revert i. induction n as [|n IH]; intros i Hi Hn; [done|]. cbn [fragments_from].
  rewrite indices_S. cbn [map]. rewrite IH by lia.
  destruct (Z.ltb_spec MAX_DIRECT_PAYLOAD (size (fragment wire id count i))) as [H|]; [|done].
  pose proof (size_fragment i). lia.
Qed.

Lemma fragment_prefix i :
  starts_with FIN_PREFIX (fragment wire id count i) = true
  /\ starts_with FIN_QC_BINARY_PREFIX (fragment wire id count i) = false.
Proof using.
  clear Hid Hmax Hbig Hcount.
  unfold fragment. split.
  - change FIN_QC_FRAGMENT_PREFIX with (FIN_PREFIX ++ b:"QF1|"). rewrite <- app_assoc.
    apply starts_with_app.
  - unfold starts_with. rewrite take_app_le by (vm_compute; lia). vm_compute. reflexivity.
Qed.

Lemma scan_fragments n i fs :
  0 <= i -> i + Z.of_nat n <= count -> size fs = i ->
  scan_outputs ParseOpReturn (mkCarried None fs)
    (map carrier_output (map (fragment wire id count) (indices i n)))
  = Some (mkCarried None (fs ++ map decoded_fragment (indices i n))).
Proof.
  revert i fs. induction n as [|n IH]; intros i fs Hi Hn Hf.
  { cbn. by rewrite app_nil_r. }
  pose proof count_bounds as [Hc _].
  rewrite indices_S. cbn [map scan_outputs]. unfold scan_output.
  destruct (carrier_output_ok (fragment wire id count i)) as (E1 & E2 & E3); [apply size_fragment; lia|].
  destruct (fragment_prefix i) as [P1 P2]. rewrite E1, E2, E3, P1, P2. cbn [negb value carrier_output orb Z.eqb].
  rewrite DecodeQcFragment_fragment by lia. cbn [direct fragments].
  destruct (Z.leb_spec MAX_FINALITY_CARRIER_FRAGMENTS (size fs)); [lia|].
  rewrite IH; [|lia|lia|rewrite size_app; unfold size in *; cbn [length]; lia].
  by rewrite <- app_assoc.
Qed.

Lemma reassemble_chunks first n i :
  f_id first = id -> f_total_bytes first = size wire -> f_count first = count ->
  reassemble first i (map decoded_fragment (indices i n)) = Some (concat (map chunk (indices i n))).
Proof using.
  clear Hid Hmax Hbig Hcount.
  intros H1 H2 H3. revert i. induction n as [|n IH]; intros i; [done|].
  rewrite indices_S. cbn [map reassemble concat decoded_fragment f_id f_total_bytes f_count f_index f_bytes].
  rewrite H1, H2, H3, !Z.eqb_refl, bool_decide_false by (intros C; by destruct C). cbn [orb negb].
  by rewrite IH.
Qed.

Lemma concat_chunks n i :
  0 <= i -> concat (map chunk (indices i n))
  = take (Z.to_nat (Z.of_nat n * FINALITY_FRAGMENT_DATA_BYTES))
      (drop (Z.to_nat (i * FINALITY_FRAGMENT_DATA_BYTES)) wire).
Proof using.
  clear Hid Hmax Hbig Hcount.
  revert i. unfold chunk, FINALITY_FRAGMENT_DATA_BYTES.
  induction n as [|n IH]; intros i Hi; [done|].
  rewrite indices_S. cbn [map concat]. rewrite IH by lia.
  replace (Z.to_nat ((i + 1) * 32000)) with (Z.to_nat (i * 32000) + Z.to_nat 32000)%nat by lia.
  rewrite <- drop_drop. set (l := drop (Z.to_nat (i * 32000)) wire).
  replace (Z.to_nat (Z.of_nat (S n) * 32000))
    with (Z.to_nat 32000 + Z.to_nat (Z.of_nat n * 32000))%nat by lia.
  by rewrite take_take_drop.
Qed.

End Fragments.

(** What the parser does with the outputs it collected. *)
Definition carried_result (c : Carried) : FinParseResult :=
  match direct c, fragments c with
  | Some wire, _ => decoded_result wire
  | None, [] => NONE
  | None, (first :: _) as fs =>
      if negb (size fs =? f_count first) then INVALID
      else match reassemble first 0 fs with
           | None => INVALID
           | Some wire =>
               if negb (size wire =? f_total_bytes first)
                  || bool_decide (FinalityWireId wire <> f_id first) then INVALID
               else decoded_result wire
           end
  end.

(** The complete, ordered fragments of a wire give back the wire. *)
Lemma carried_fragments wire count :
  length (FinalityWireId wire) = 32%nat -> size wire <= MAX_FINALITY_QC_BYTES ->
  MAX_DIRECT_PAYLOAD < size wire ->
  count = (size wire + FINALITY_FRAGMENT_DATA_BYTES - 1) / FINALITY_FRAGMENT_DATA_BYTES ->
  carried_result (mkCarried None
    (map (decoded_fragment wire (FinalityWireId wire) count) (indices 0 (Z.to_nat count))))
  = decoded_result wire.
Proof.
  intros Hid Hmax Hgt Hcount. set (id := FinalityWireId wire) in *.
  destruct (count_bounds wire id count Hid Hmax Hgt Hcount) as [Hc Hcw].
  unfold carried_result. cbn [direct fragments]. set (fs := map _ _).
  assert (Hlen : size fs = count)
    by (unfold fs, size, indices; rewrite !length_map, length_seq; lia).
  assert (Hre : reassemble (decoded_fragment wire id count 0) 0 fs = Some wire).
  { unfold fs. rewrite (reassemble_chunks wire id count) by done. rewrite concat_chunks by lia.
    rewrite take_ge by (rewrite length_drop; unfold size in *; lia). done. }
  destruct fs as [|first fs'] eqn:Efs; [unfold size in Hlen; cbn in Hlen; lia|].
  assert (first = decoded_fragment wire id count 0) as ->.
  { destruct (Z.to_nat count) as [|m] eqn:Em; [lia|]. unfold fs in Efs. rewrite indices_S in Efs.
    by injection Efs as <- _. }
  rewrite Hlen, Hre. cbn [decoded_fragment f_count f_total_bytes f_id]. rewrite !Z.eqb_refl. cbn [negb orb].
  rewrite bool_decide_false by (intros C; by destruct C). done.
Qed.

Lemma scan_carrier wire d :
  is_bytes wire -> DecodeQc wire = Some d ->
  exists c, scan_outputs ParseOpReturn (mkCarried None [])
              (map carrier_output (EncodeFinalityCarrierPayloads wire)) = Some c
    /\ carried_result c = VALID d.
Proof.
  intros Hb Hd. pose proof Hd as Hw. apply DecodeQc_iff in Hw as (Hok & _ & Hwire); [|done].
  pose proof (EncodeQc_eq _ _ Hok) as [E Hmax]. rewrite E, <- Hwire in Hmax.
  assert (Hpre : starts_with FIN_QC_BINARY_PREFIX wire = true) by (rewrite Hwire; apply starts_with_app).
  assert (Hne : size wire <> 0) by (rewrite Hwire, size_app; change (size FIN_QC_BINARY_PREFIX) with 18;
    pose proof (size_nonneg (qc_wire_body (d_qc d) (d_sigs d))); lia).
  assert (Hid : length (FinalityWireId wire) = 32%nat) by apply sha256_hash.
  assert (Hres : decoded_result wire = VALID d) by (unfold decoded_result; by rewrite Hd).
  unfold EncodeFinalityCarrierPayloads. rewrite Hd.
  destruct (Z.eqb_spec (size wire) 0); [done|].
  destruct (Z.ltb_spec MAX_FINALITY_QC_BYTES (size wire)); [lia|]. cbn [orb].
  destruct (Z.leb_spec (size wire) MAX_DIRECT_PAYLOAD) as [Hle|Hgt].
  { cbn [map]. rewrite scan_direct by done. by eexists. }
  set (count := (size wire + FINALITY_FRAGMENT_DATA_BYTES - 1) / FINALITY_FRAGMENT_DATA_BYTES).
  destruct (count_bounds wire (FinalityWireId wire) count Hid Hmax Hgt eq_refl) as [Hc _].
  pose proof (carried_fragments wire count Hid Hmax Hgt eq_refl) as Hcr.
  change MAX_FINALITY_CARRIER_FRAGMENTS with 235 in *. unfold UINT16_MAX.
  destruct (Z.eqb_spec count 0); [lia|]. destruct (Z.ltb_spec 235 count); [lia|].
  destruct (Z.ltb_spec (2 ^ 16 - 1) count); [lia|]. cbn [orb].
  rewrite fragments_from_eq by (done || lia).
  rewrite (scan_fragments wire (FinalityWireId wire) count Hid Hmax Hgt eq_refl) by (done || lia).
  eexists. split; [reflexivity|]. cbn [app]. congruence.
Qed.

(** The marker outputs of a carrier are all finality outputs. *)
Lemma carrier_outputs_finality wire d :
  is_bytes wire -> DecodeQc wire = Some d ->
  List.filter is_finality_output (map carrier_output (EncodeFinalityCarrierPayloads wire))
  = map carrier_output (EncodeFinalityCarrierPayloads wire).
Proof.
  intros Hb Hd.
  assert (H : Forall (fun p => size p <= MAX_DIRECT_PAYLOAD /\ starts_with FIN_PREFIX p = true)
                (EncodeFinalityCarrierPayloads wire)).
  { pose proof Hd as Hw. apply DecodeQc_iff in Hw as (_ & _ & Hwire); [|done].
    unfold EncodeFinalityCarrierPayloads. rewrite Hd. destruct (size wire =? 0); [constructor|].
    destruct (Z.ltb_spec MAX_FINALITY_QC_BYTES (size wire)) as [|Hmax]; [constructor|]. cbn [orb].
    destruct (Z.leb_spec (size wire) MAX_DIRECT_PAYLOAD) as [Hle|Hgt].
    { apply Forall_singleton. split; [done|]. rewrite Hwire.
      change FIN_QC_BINARY_PREFIX with (FIN_PREFIX ++ b:"QB2|"). rewrite <- app_assoc. apply starts_with_app. }
    set (count := (size wire + FINALITY_FRAGMENT_DATA_BYTES - 1) / FINALITY_FRAGMENT_DATA_BYTES).
    assert (Hid : length (FinalityWireId wire) = 32%nat) by apply sha256_hash.
    destruct (count_bounds wire (FinalityWireId wire) count Hid Hmax Hgt eq_refl) as [Hc _].
    destruct (_ || _); [constructor|]. rewrite fragments_from_eq by (done || lia).
    apply Forall_map, Forall_forall. intros i Hi. unfold indices in Hi.
    apply list_elem_of_fmap in Hi as (j & -> & Hj). apply elem_of_seq in Hj.
    split; [apply size_fragment; done || lia|apply fragment_prefix]. }
  induction H as [|p ps [Hs Hp] Hps IH]; [done|]. cbn [map List.filter].
  unfold is_finality_output at 1. destruct (carrier_output_ok p Hs) as (-> & _). rewrite Hp. by rewrite IH.
Qed.

(** A certificate survives its carrier.  Whatever transactions surround them, a
    block whose finality outputs are the marker outputs of a certificate's carrier
    payloads, one direct marker or the ordered fragments, parses to exactly that
    certificate. *)
Lemma carrier_roundtrip wire d block :
  is_bytes wire -> DecodeQc wire = Some d ->
  finality_outputs block = map carrier_output (EncodeFinalityCarrierPayloads wire) ->
  ParseFinalityBlock ParseOpReturn block = VALID d.
Proof.
  intros Hb Hd Ho. destruct (scan_carrier wire d Hb Hd) as (c & Hs & Hc).
  unfold ParseFinalityBlock. rewrite scan_txs_flat, scan_outputs_filter. fold (finality_outputs block).
  rewrite Ho, Hs. exact Hc.
Qed.

(** A certificate of eleven signatures needs two fragments. *)
Definition big_wire : bytes :=
  EncodeQc (mkQc 3 ZeroHash PRECOMMIT (CheckpointRound 1440) NullRef (mkRef 1440 (replicate 32 9)) [255; 7] 0)
    (replicate 11 (replicate (Z.to_nat SIG_MAX_BYTES) 7)).

(** A block with [outs] among unrelated outputs. *)
Definition carrier_block (outs : list TxOutput) : Block :=
  mkBlock (mkHeader 1 ZeroHash ZeroHash 0 0 0)
    [mkTx 1 [] [mkOutput 5 [0x51]] 0; mkTx 1 [] (mkOutput 7 [0x6A; 0] :: outs) 0] 1441.

Lemma carrier_block_outputs outs :
  finality_outputs (carrier_block outs) = List.filter is_finality_output outs.
Proof.
  unfold finality_outputs, carrier_block. cbn [transactions map outputs concat].
  rewrite app_nil_r. reflexivity.
Qed.

Lemma big_wire_facts : is_bytes big_wire /\ MAX_DIRECT_PAYLOAD < size big_wire.
Proof. apply (bool_decide_unpack _). vm_compute. exact I. Qed.

Lemma big_wire_decodes : exists d, DecodeQc big_wire = Some d.
Proof. eexists. vm_compute. reflexivity. Qed.

Lemma carrier_roundtrip_witness :
  MAX_DIRECT_PAYLOAD < size big_wire
  /\ exists d, DecodeQc big_wire = Some d
     /\ ParseFinalityBlock ParseOpReturn
          (carrier_block (map carrier_output (EncodeFinalityCarrierPayloads big_wire))) = VALID d.
Proof.
  split; [apply big_wire_facts|]. destruct big_wire_decodes as [d E].
  exists d. split; [exact E|].
  apply (carrier_roundtrip big_wire d _ (proj1 big_wire_facts) E).
  rewrite carrier_block_outputs. apply (carrier_outputs_finality big_wire d (proj1 big_wire_facts) E).
Defined.
