(* ===== verification/BtcTx.v ===== *)
(** * Bitcoin transactions ([core/btc_deposit_verify.h])

    The bounds-checked readers of Bitcoin transactions that the peg relies on.  A reader
    consumes the buffer from the left; the code's offset is the part already consumed. *)
From S2P Require Import Prelude Bytes Sha256.

Record BtcTxOut := mkBtcOut { bo_value : Z; spk : bytes }.
Record BtcPrevout := mkPrevout { po_txid : Hash256; po_vout : Z }.

#[global] Instance BtcTxOut_eq_dec : EqDecision BtcTxOut.
Proof. solve_decision. Defined.
#[global] Instance BtcPrevout_eq_dec : EqDecision BtcPrevout.
Proof. solve_decision. Defined.

(** ** Compact sizes *)

Definition ReadVarint : reader Z :=
  read c <- read_le 1;
  if c <? 0xfd then rret c
  else read_le (if c =? 0xfd then 2%nat else if c =? 0xfe then 4%nat else 8%nat).

Definition ReadCanonicalVarint : reader Z := fun d =>
  match d with
  | [] => None
  | prefix :: _ =>
      match ReadVarint d with
      | None => None
      | Some (v, rest) =>
          if ((prefix =? 0xfd) && (v <? 0xfd)) || ((prefix =? 0xfe) && (v <=? 0xffff))
             || ((prefix =? 0xff) && (v <=? 0xffffffff)) then None
          else Some (v, rest)
      end
  end.

(** Bytes prefixed with their length; a length beyond the buffer fails. *)
Definition read_sized (len : reader Z) : reader bytes :=
  read n <- len; fun d => if size d <? n then None else read_bytes (Z.to_nat n) d.

(** ** Legacy serialization *)

Definition read_input (len : reader Z) : reader BtcPrevout :=
  read txid <- read_bytes 32;
  read vout <- read_le 4;
  read script <- read_sized len;
  read sequence <- read_bytes 4;
  rret (mkPrevout txid vout).

Definition read_output (len : reader Z) : reader BtcTxOut :=
  read v <- read_le 8;
  read script <- read_sized len;
  rret (mkBtcOut v script).

(** [vin == 0 || vin > max] *)
Definition read_count (len : reader Z) (max : Z) : reader Z :=
  read n <- len; guard negb ((n =? 0) || (max <? n)); rret n.

Definition ParseBtcTxOutputs (p : bytes) : option (list BtcTxOut) :=
  if size p <? 10 then None
  else match (read v <- read_bytes 4;
              read vin <- read_count ReadVarint 100000;
              read ins <- read_list (Z.to_nat vin) (read_input ReadVarint);
              read vout <- read_count ReadVarint 100000;
              read_list (Z.to_nat vout) (read_output ReadVarint)) p with
       | Some (outs, rest) => if size rest =? 4 then Some outs else None
       | None => None
       end.

(** The outpoint that input [vin_index] spends. *)
Definition ParseBtcTxInputPrevout (p : bytes) (vin_index : Z) : option BtcPrevout :=
  if size p <? 5 then None
  else match (read v <- read_bytes 4;
              read vin <- read_count ReadVarint 100000;
              guard (vin_index <? vin);
              read before <- read_list (Z.to_nat vin_index) (read_input ReadVarint);
              read txid <- read_bytes 32;
              read vout <- read_le 4;
              rret (mkPrevout txid vout)) p with
       | Some (o, _) => Some o
       | None => None
       end.

(** ** Witness serialization *)

Record WitnessAwareBtcTx := mkWitTx {
  wt_txid : Hash256; has_witness : bool; prevouts : list BtcPrevout; btc_outputs : list BtcTxOut }.

(** One input's stack: its number of items. *)
Definition read_stack : reader Z :=
  read n <- ReadCanonicalVarint;
  guard (n <=? 100000);
  read items <- read_list (Z.to_nat n) (read_sized ReadCanonicalVarint);
  rret n.

(** The inputs and outputs between the version and the witnesses. *)
Definition read_body (max_inputs max_outputs : Z) : reader (list BtcPrevout * list BtcTxOut) :=
  read vin <- read_count ReadCanonicalVarint max_inputs;
  read ins <- read_list (Z.to_nat vin) (read_input ReadCanonicalVarint);
  read vout <- read_count ReadCanonicalVarint max_outputs;
  read outs <- read_list (Z.to_nat vout) (read_output ReadCanonicalVarint);
  rret (ins, outs).

Definition MAX_BTC_ITEMS : Z := 100000.

Definition ParseWitnessAwareBtcTx (p : bytes) (max_inputs max_outputs : Z) : option WitnessAwareBtcTx :=
  if (size p <? 10) || (max_inputs =? 0) || (max_outputs =? 0) then None
  else
    let marked := nth 4 p 0 =? 0 in
    if marked && negb (nth 5 p 0 =? 1) then None
    else
      let body := drop (if marked then 6 else 4) p in
      match read_body max_inputs max_outputs body with
      | None => None
      | Some ((ins, outs), after) =>
          match (if marked then
                   match read_list (length ins) read_stack after with
                   | Some (stacks, tail) => if existsb (fun n => negb (n =? 0)) stacks then Some tail else None
                   | None => None
                   end
                 else Some after) with
          | None => None
          | Some tail =>
              if negb (size tail =? 4) then None
              else
                let txid := if marked then Hash256d (take 4 p ++ take (length body - length after) body ++ tail)
                            else Hash256d p in
                Some (mkWitTx txid marked ins outs)
          end
      end.

(** ** Null data *)

(** The data an OP_RETURN output pushes, or nothing. *)
Definition ExtractOpReturn (s : bytes) : bytes :=
  if (size s <? 2) || negb (nth 0 s 0 =? 0x6a) then []
  else
    let c := nth 1 s 0 in
    let push i dlen := if size s <? i + dlen then [] else take (Z.to_nat dlen) (drop (Z.to_nat i) s) in
    if c <? 0x4c then push 2 c
    else if c =? 0x4c then (if size s <? 3 then [] else push 3 (nth 2 s 0))
    else if c =? 0x4d then (if size s <? 4 then [] else push 4 (Z.lor (nth 2 s 0) (Z.shiftl (nth 3 s 0) 8)))
    else [].

(** ** Outpoint names *)

(** The transaction id in display order. *)
Definition BtcDisplayTxid (internal_txid : Hash256) : bytes := BytesToHex (rev internal_txid).

Definition BtcDepositOutpointId (internal_txid : Hash256) (vout : Z) : bytes :=
  BtcDisplayTxid internal_txid ++ b:":" ++ to_string vout.

(** ** Readers depend on what they consume *)

Definition local {A} (r : reader A) : Prop :=
  forall d a rest, r d = Some (a, rest) -> exists c, d = c ++ rest /\ forall rest', r (c ++ rest') = Some (a, rest').

Lemma local_ret {A} (a : A) : local (rret a).
Proof. intros d x rest [= <- <-]. by exists []. Qed.

Lemma local_fail {A} : local (@rfail A).
Proof. intros d x rest. done. Qed.

Lemma local_bind {A B} (r : reader A) (k : A -> reader B) : local r -> (forall a, local (k a)) -> local (rbind r k).
Proof.
  intros Hr Hk d b rest. unfold rbind. destruct (r d) as [[a d1]|] eqn:E; [|done]. intros Ek.
  apply Hr in E as (c1 & -> & E1). apply Hk in Ek as (c2 & -> & E2).
  exists (c1 ++ c2). split; [by rewrite app_assoc|]. intros rest'. by rewrite <- app_assoc, E1.
Qed.

Lemma local_guard {A} (b : bool) (r : reader A) : local r -> local (if b then r else rfail).
Proof. destruct b; [done|]. intros _. apply local_fail. Qed.

Lemma local_read_bytes n : local (read_bytes n).
Proof.
  intros d l rest E. apply read_bytes_inv in E as [-> Hl]. exists l. split; [done|]. intros rest'. by apply read_bytes_app.
Qed.

Create HintDb reader.
#[local] Hint Resolve local_ret local_fail local_bind local_guard local_read_bytes : reader.

Lemma local_read_le n : local (read_le n).
Proof. unfold read_le. auto with reader. Qed.
#[local] Hint Resolve local_read_le : reader.

Lemma local_read_list {A} n (r : reader A) : local r -> local (read_list n r).
Proof. intros Hr. induction n as [|n IH]; cbn [read_list]; auto 6 with reader. Qed.
#[local] Hint Resolve local_read_list : reader.

Lemma local_varint : local ReadVarint.
Proof. unfold ReadVarint. apply local_bind; [auto with reader|]. intros c. destruct (c <? 0xfd); auto with reader. Qed.
#[local] Hint Resolve local_varint : reader.

(** A compact size takes at least one byte. *)
Lemma varint_nonempty rest : ReadVarint [] = Some rest -> False.
Proof. done. Qed.

Lemma local_canonical_varint : local ReadCanonicalVarint.
Proof.
  intros d v rest. unfold ReadCanonicalVarint. destruct d as [|prefix d]; [done|].
  destruct (ReadVarint (prefix :: d)) as [[v' rest']|] eqn:E; [|done].
  destruct (_ || _ || _) eqn:Ec; [done|]. intros [= <- <-].
  apply local_varint in E as (c & Ed & E). destruct c as [|b c].
  - specialize (E []). cbn [app] in E. by apply varint_nonempty in E.
  - injection Ed as -> ->. exists (b :: c). split; [done|]. intros rest''. cbn [app]. specialize (E rest''). cbn [app] in E.
    by rewrite E, Ec.
Qed.
#[local] Hint Resolve local_canonical_varint : reader.

Lemma local_read_sized len : local len -> local (read_sized len).
Proof.
  intros Hl. unfold read_sized. apply local_bind; [done|]. intros n d l rest.
  destruct (Z.ltb_spec (size d) n) as [|Hn]; [done|]. intros E. apply read_bytes_inv in E as [-> E].
  exists l. split; [done|]. intros rest'. unfold size in *. rewrite !length_app in *.
  destruct (Z.ltb_spec (Z.of_nat (length l + length rest')) n); [lia|]. by apply read_bytes_app.
Qed.
#[local] Hint Resolve local_read_sized : reader.

Lemma local_read_body mi mo : local (read_body mi mo).
Proof. unfold read_body, read_count, read_input, read_output. auto 30 with reader. Qed.

(** The limits only refuse. *)
Lemma read_body_limits mi mo mi' mo' d x x' :
  read_body mi mo d = Some x -> read_body mi' mo' d = Some x' -> x = x'.
Proof.
  unfold read_body, read_count, rbind, rret.
  destruct (ReadCanonicalVarint d) as [[vin d1]|]; [|done].
  destruct (negb ((vin =? 0) || (mi <? vin))), (negb ((vin =? 0) || (mi' <? vin))); try done.
  destruct (read_list _ _ d1) as [[ins d2]|]; [|done].
  destruct (ReadCanonicalVarint d2) as [[vout d3]|]; [|done].
  destruct (negb ((vout =? 0) || (mo <? vout))), (negb ((vout =? 0) || (mo' <? vout))); try done.
  destruct (read_list _ _ d3) as [[outs d4]|]; [|done]. congruence.
Qed.

(** ** The transaction id *)

(** The bytes whose hash is the transaction id: version, inputs and outputs, lock time. *)
Definition txid_preimage (p : bytes) (max_inputs max_outputs : Z) : bytes :=
  if nth 4 p 0 =? 0 then
    match read_body max_inputs max_outputs (drop 6 p) with
    | Some (_, after) => take 4 p ++ take (length (drop 6 p) - length after) (drop 6 p) ++ drop (length p - 4) p
    | None => []
    end
  else p.

(** An accepted transaction is its version, the inputs and outputs it reports, and its lock
    time; the witness does not enter the id. *)
Lemma parse_inv p mi mo t :
  ParseWitnessAwareBtcTx p mi mo = Some t ->
  wt_txid t = Hash256d (txid_preimage p mi mo)
  /\ exists version body lock,
    txid_preimage p mi mo = version ++ body ++ lock /\ length version = 4%nat /\ length lock = 4%nat
    /\ (forall rest, read_body mi mo (body ++ rest) = Some ((prevouts t, btc_outputs t), rest)).
Proof.
  unfold ParseWitnessAwareBtcTx, txid_preimage. destruct (_ || _ || _) eqn:E0; [done|].
  apply orb_false_iff in E0 as [E0 _]. apply orb_false_iff in E0 as [E0 _]. apply Z.ltb_ge in E0. unfold size in E0.
  destruct (nth 4 p 0 =? 0); cbn [andb]; [destruct (negb (nth 5 p 0 =? 1)); [done|]|].
  - destruct (read_body mi mo (drop 6 p)) as [[[ins outs] after]|] eqn:Eb; [|done].
    apply local_read_body in Eb as (body & Ed & Hloc).
    destruct (read_list _ _ after) as [[st tail]|] eqn:Er; [|done]. destruct (existsb _ _); [|done].
    destruct (Z.eqb_spec (size tail) 4) as [El|]; cbn [negb]; [|done]. intros [= <-]. cbn [wt_txid prevouts btc_outputs].
    unfold size in El. apply local_read_list in Er; [|unfold read_stack; auto 10 with reader]. destruct Er as (c & -> & _).
    assert (Hp : p = (take 6 p ++ body ++ c) ++ tail) by (rewrite <- !app_assoc, <- Ed; symmetry; apply take_drop).
    assert (Ht : drop (length p - 4) p = tail).
    { revert Hp. generalize (take 6 p ++ body ++ c). intros l ->. rewrite length_app. apply drop_app_length'. lia. }
    assert (Hb : take (length (drop 6 p) - length (c ++ tail)) (drop 6 p) = body).
    { rewrite Ed, length_app. replace (length body + length (c ++ tail) - length (c ++ tail))%nat with (length body) by lia.
      apply take_app_length. }
    rewrite Ht, Hb. split; [done|]. exists (take 4 p), body, tail. rewrite length_take. split_and!; [done|lia|lia|done].
  - destruct (read_body mi mo (drop 4 p)) as [[[ins outs] after]|] eqn:Eb; [|done].
    apply local_read_body in Eb as (body & Ed & Hloc).
    destruct (Z.eqb_spec (size after) 4) as [El|]; cbn [negb]; [|done]. intros [= <-]. cbn [wt_txid prevouts btc_outputs].
    unfold size in El. split; [done|]. exists (take 4 p), body, after. rewrite length_take.
    split_and!; [by rewrite <- Ed, take_drop|lia|lia|done].
Qed.

(** Two serializations with one transaction id spend the same outputs and create the same
    outputs, unless SHA-256 collides on their stripped forms: a witness may be replaced,
    the transfer may not. *)
Lemma txid_binds p q mi mo mi' mo' t u :
  ParseWitnessAwareBtcTx p mi mo = Some t -> ParseWitnessAwareBtcTx q mi' mo' = Some u ->
  (Hash256d (txid_preimage p mi mo) = Hash256d (txid_preimage q mi' mo') ->
   txid_preimage p mi mo = txid_preimage q mi' mo') ->
  wt_txid t = wt_txid u -> prevouts t = prevouts u /\ btc_outputs t = btc_outputs u.
Proof.
  intros [Ht (v & body & lock & Ep & Hv & Hl & Hb)]%parse_inv [Hu (v' & body' & lock' & Ep' & Hv' & Hl' & Hb')]%parse_inv Hc E.
  assert (Ee : v ++ body ++ lock = v' ++ body' ++ lock') by (rewrite <- Ep, <- Ep'; apply Hc; congruence).
  apply app_inj_1 in Ee as [<- Ee]; [|lia]. apply app_inj_2 in Ee as [<- <-]; [|lia].
  specialize (Hb []). specialize (Hb' []). pose proof (read_body_limits _ _ _ _ _ _ _ Hb Hb'). split; congruence.
Qed.

(** ** Widths *)

Lemma varint_ok d v rest : is_bytes d -> ReadVarint d = Some (v, rest) -> 0 <= v /\ is_bytes rest.
Proof.
  intros Hd. unfold ReadVarint, rbind, rret. destruct (read_le 1 d) as [[c d1]|] eqn:E; [|done].
  apply read_le_inv in E as (_ & Hc & Hd1); [|done]. unfold fits in Hc. destruct (c <? 0xfd); [intros [= <- <-]; split; [lia|done]|].
  intros E. apply read_le_inv in E as (_ & Hv & Hr); [|done]. unfold fits in Hv. split; [lia|done].
Qed.

Lemma canonical_varint_ok d v rest : is_bytes d -> ReadCanonicalVarint d = Some (v, rest) -> 0 <= v /\ is_bytes rest.
Proof.
  intros Hd. unfold ReadCanonicalVarint. destruct d as [|b d]; [done|].
  destruct (ReadVarint (b :: d)) as [[v' rest']|] eqn:E; [|done]. destruct (_ || _); [done|]. intros [= <- <-].
  by eapply varint_ok.
Qed.

Lemma read_sized_ok d l rest :
  is_bytes d -> read_sized ReadCanonicalVarint d = Some (l, rest) -> is_bytes l /\ is_bytes rest.
Proof.
  intros Hd. unfold read_sized, rbind. destruct (ReadCanonicalVarint d) as [[n d1]|] eqn:E; [|done].
  apply canonical_varint_ok in E as [_ Hd1]; [|done]. destruct (_ <? _); [done|]. intros E.
  by apply read_bytes_split in E as (_ & _ & ? & ?).
Qed.

Definition prevout_sized (o : BtcPrevout) : Prop := is_hash (po_txid o) /\ fits 32 (po_vout o).
Definition output_sized (o : BtcTxOut) : Prop := fits 64 (bo_value o) /\ is_bytes (spk o).

Lemma btc_input_ok d i rest :
  is_bytes d -> read_input ReadCanonicalVarint d = Some (i, rest) -> prevout_sized i /\ is_bytes rest.
Proof.
  unfold read_input, rbind, rret. intros Hd H. inv_reader H.
  destruct (read_sized _ _) as [[sc d2]|] eqn:E; [|done]. apply read_sized_ok in E as [_ Hd2]; [|done]. inv_reader H.
  injection H as <- <-. by split; [split; [split|]|].
Qed.

Lemma btc_output_ok d o rest :
  is_bytes d -> read_output ReadCanonicalVarint d = Some (o, rest) -> output_sized o /\ is_bytes rest.
Proof.
  unfold read_output, rbind, rret. intros Hd H. inv_reader H.
  destruct (read_sized _ _) as [[sc d2]|] eqn:E; [|done]. apply read_sized_ok in E as [Hl Hd2]; [|done].
  injection H as <- <-. by split; [split|].
Qed.

Lemma parse_sized p mi mo t :
  is_bytes p -> ParseWitnessAwareBtcTx p mi mo = Some t ->
  Forall prevout_sized (prevouts t) /\ Forall output_sized (btc_outputs t).
Proof.
  intros Hp [_ (v & body & lock & Epre & _ & _ & Hb)]%parse_inv. specialize (Hb []). rewrite app_nil_r in Hb.
  assert (is_bytes (txid_preimage p mi mo)) as Hpre.
  { unfold txid_preimage. destruct (nth 4 p 0 =? 0); [|done]. destruct (read_body mi mo (drop 6 p)) as [[? after]|]; [|constructor].
    apply is_bytes_app; split; [|apply is_bytes_app; split]; auto with veld. }
  rewrite Epre in Hpre. apply is_bytes_app in Hpre as [_ [Hbody _]%is_bytes_app]. revert Hb. unfold read_body, read_count, rbind, rret.
  destruct (ReadCanonicalVarint body) as [[vin d1]|] eqn:E1; [|done]. apply canonical_varint_ok in E1 as [_ Hd1]; [|done].
  destruct (negb _); [|done]. destruct (read_list _ _ d1) as [[ins d2]|] eqn:E2; [|done].
  apply (read_list_inv _ prevout_sized) in E2 as (_ & Hins & Hd2); [|apply btc_input_ok|done].
  destruct (ReadCanonicalVarint d2) as [[vout d3]|] eqn:E3; [|done]. apply canonical_varint_ok in E3 as [_ Hd3]; [|done].
  destruct (negb _); [|done]. destruct (read_list _ _ d3) as [[outs d4]|] eqn:E4; [|done].
  apply (read_list_inv _ output_sized) in E4 as (_ & Houts & _); [|apply btc_output_ok|done]. intros [= <- <- _]. done.
Qed.
