(* ===== verification/SignerBond.v ===== *)
(** * Redemption requests and signer bonds ([consensus/btcveld_signer_bond.h])

    The covenant keeps a request for every accepted redemption until Bitcoin shows its
    payout or its deadline passes, the collateral of signers, and the transactions that were
    already used as payouts or as evidence.  After the state migration closed requests leave
    for the archive.  [None] is an exception: the node restores its snapshot of every module.
    Maps are iterated in the order of their keys. *)
From S2P Require Import Prelude Bytes Sha256 StateDigest MintNullifier RedeemArchive Profile EndorsementWire BtcTx.

Inductive ReqStatus := REQUESTED | LOCKED_IN | ASSIGNED | SIGNED | BROADCAST | FULFILLED | DEFAULTED.
#[global] Instance ReqStatus_eq_dec : EqDecision ReqStatus.
Proof. solve_decision. Defined.
Definition req_byte (s : ReqStatus) : Z :=
  match s with
  | REQUESTED => 0 | LOCKED_IN => 1 | ASSIGNED => 2 | SIGNED => 3 | BROADCAST => 4 | FULFILLED => 5 | DEFAULTED => 6
  end.

Record RedeemRequest := mkRequest {
  rq_request_id : Hash256; rq_amount_sats : Z; dest_spk : bytes; request_height : Z; deadline_height : Z;
  rq_status : ReqStatus; fulfilled_txid : Hash256; veld_recipient : bytes; rq_request_commitment : Hash256;
  btc_observed_height : Z }.
#[global] Instance RedeemRequest_eq_dec : EqDecision RedeemRequest.
Proof. solve_decision. Defined.

Definition is_open (r : RedeemRequest) : bool :=
  match rq_status r with LOCKED_IN | ASSIGNED | SIGNED | BROADCAST => true | _ => false end.

(** The loop: a second match ends it with nothing. *)
Fixpoint find_open (requests : list RedeemRequest) (commitment : Hash256) (found : option RedeemRequest)
  : option RedeemRequest :=
  match requests with
  | [] => found
  | r :: requests' =>
      if negb (is_open r) || negb (bytes_eqb (rq_request_commitment r) commitment) then find_open requests' commitment found
      else match found with Some _ => None | None => find_open requests' commitment (Some r) end
  end.
Definition FindOpenByCommitmentCopy (requests : list RedeemRequest) (commitment : Hash256) : option RedeemRequest :=
  if HashIsZero commitment then None else find_open requests commitment None.

Record SignerBond := mkSigner { veld_addr : bytes; bonded_sats : Z; locked_sats : Z; sb_active : bool }.
Definition NoSigner : SignerBond := mkSigner [] 0 0 false.
Definition free (s : SignerBond) : Z := if locked_sats s <? bonded_sats s then bonded_sats s - locked_sats s else 0.

Inductive SlashReason := NO_SLASH | NON_PAYMENT | FRAUDULENT_SPEND | WRONG_PAYOUT | UNBACKED_MINT.
Record SlashVerdict := mkVerdict {
  slash : bool; sv_reason : SlashReason; slash_sats : Z; compensate_sats : Z; compensate_to : bytes }.
Definition NoVerdict : SlashVerdict := mkVerdict false NO_SLASH 0 0 [].

(** [archive_] is the database behind the archive, when one is installed. *)
Record Covenant := mkCovenant {
  signers_ : gmap bytes SignerBond; requests_ : gmap bytes RedeemRequest; consumed_payouts_ : gset bytes;
  consumed_fraud_spends_ : gset bytes; reserve_backed_requests_ : gset bytes; insurance_fund_sats_ : Z;
  archive_ : option (gmap bytes bytes); archive_root_ : RedeemArchive.Root; state_migration_active_ : bool }.

(** [Reset]: the database stays. *)
Definition NoCovenant (archive : option (gmap bytes bytes)) : Covenant :=
  mkCovenant ∅ ∅ ∅ ∅ ∅ 0 archive RedeemArchive.NoRoot false.
Definition Reset (c : Covenant) : Covenant := NoCovenant (archive_ c).

(** Assignments. *)
Definition with_signers (c : Covenant) (s : gmap bytes SignerBond) : Covenant :=
  mkCovenant s (requests_ c) (consumed_payouts_ c) (consumed_fraud_spends_ c) (reserve_backed_requests_ c)
    (insurance_fund_sats_ c) (archive_ c) (archive_root_ c) (state_migration_active_ c).
Definition with_requests (c : Covenant) (r : gmap bytes RedeemRequest) (backed : gset bytes) : Covenant :=
  mkCovenant (signers_ c) r (consumed_payouts_ c) (consumed_fraud_spends_ c) backed
    (insurance_fund_sats_ c) (archive_ c) (archive_root_ c) (state_migration_active_ c).
Definition with_consumed (c : Covenant) (payouts frauds : gset bytes) : Covenant :=
  mkCovenant (signers_ c) (requests_ c) payouts frauds (reserve_backed_requests_ c)
    (insurance_fund_sats_ c) (archive_ c) (archive_root_ c) (state_migration_active_ c).
Definition with_insurance (c : Covenant) (v : Z) : Covenant :=
  mkCovenant (signers_ c) (requests_ c) (consumed_payouts_ c) (consumed_fraud_spends_ c) (reserve_backed_requests_ c)
    v (archive_ c) (archive_root_ c) (state_migration_active_ c).
Definition with_archive (c : Covenant) (a : gmap bytes bytes * RedeemArchive.Root) : Covenant :=
  mkCovenant (signers_ c) (requests_ c) (consumed_payouts_ c) (consumed_fraud_spends_ c) (reserve_backed_requests_ c)
    (insurance_fund_sats_ c) (Some (a.1)) (a.2) (state_migration_active_ c).
Definition with_migration (c : Covenant) : Covenant :=
  mkCovenant (signers_ c) (requests_ c) (consumed_payouts_ c) (consumed_fraud_spends_ c) (reserve_backed_requests_ c)
    (insurance_fund_sats_ c) (archive_ c) (archive_root_ c) true.
Definition with_status (r : RedeemRequest) (s : ReqStatus) (txid : Hash256) : RedeemRequest :=
  mkRequest (rq_request_id r) (rq_amount_sats r) (dest_spk r) (request_height r) (deadline_height r) s txid
    (veld_recipient r) (rq_request_commitment r) (btc_observed_height r).

(** Keys in the order of [std::map] and [std::set]. *)
Fixpoint insert_sorted (k : bytes) (l : list bytes) : list bytes :=
  match l with [] => [k] | x :: l' => if lex_lt k x then k :: l else x :: insert_sorted k l' end.
Definition sorted (l : list bytes) : list bytes := foldr insert_sorted [] l.
Definition map_keys {A} (m : gmap bytes A) : list bytes := sorted (map fst (map_to_list m)).

Definition Closed_ (r : RedeemRequest) : bool :=
  bool_decide (rq_status r = FULFILLED) || bool_decide (rq_status r = DEFAULTED).

Definition RequestCommitment (r : RedeemRequest) : Hash256 :=
  sha256_domain b:"VELD_BTCVELD_REDEEM_REQUEST_v2"
    (put_bytes (rq_request_id r) ++ put_u64_le (rq_amount_sats r) ++ put_len_prefixed (dest_spk r)
     ++ put_u64_le (request_height r) ++ put_u64_le (deadline_height r) ++ put_u64_le (btc_observed_height r)
     ++ put_len_prefixed (veld_recipient r)).

Definition EncodeRequest_ (r : RedeemRequest) : bytes :=
  put_bytes (rq_request_id r) ++ put_u64_le (rq_amount_sats r) ++ put_len_prefixed (dest_spk r)
  ++ put_u64_le (request_height r) ++ put_u64_le (deadline_height r) ++ put_u8 (req_byte (rq_status r))
  ++ put_bytes (fulfilled_txid r) ++ put_len_prefixed (veld_recipient r) ++ put_bytes (rq_request_commitment r)
  ++ put_u64_le (btc_observed_height r).

Definition status_of_byte (n : Z) : option ReqStatus :=
  nth_error [REQUESTED; LOCKED_IN; ASSIGNED; SIGNED; BROADCAST; FULFILLED; DEFAULTED] (Z.to_nat n).

(** A status byte above the last enumerator has no value here; the code would keep it and the
    only reader refuses what is not closed. *)
Definition read_request : reader RedeemRequest :=
  (read id <- read_bytes 32; read amount <- read_le 8; read dlen <- read_le 4; read dest <- read_bytes (Z.to_nat dlen);
   read rh <- read_le 8; read dh <- read_le 8; read st <- read_le 1; read txid <- read_bytes 32;
   read vlen <- read_le 4; read recipient <- read_bytes (Z.to_nat vlen); read com <- read_bytes 32; read obs <- read_le 8;
   match status_of_byte st with
   | Some s => rret (mkRequest id amount dest rh dh s txid recipient com obs)
   | None => rfail
   end)%reader.

Definition DecodeRequest_ (body : bytes) : option RedeemRequest :=
  match read_request body with
  | Some (r, []) => if bytes_eqb (EncodeRequest_ r) body then Some r else None
  | _ => None
  end.

Definition PctOf (x bps : Z) : Z := Z.min (x * bps / 10000) UINT64_MAX.

Definition SameRequest_ (a b : RedeemRequest) : bool := bool_decide (a = b).

(** ** Bonds *)

Definition TotalActiveBond (c : Covenant) : Z :=
  Z.min (map_fold (fun _ s n => if sb_active s then n + bonded_sats s else n) 0 (signers_ c)) UINT64_MAX.

Definition ActiveCount (c : Covenant) : Z := map_fold (fun _ s n => if sb_active s then n + 1 else n) 0 (signers_ c).

Definition CustodyWithinBond (c : Covenant) (custody_sats : Z) : bool := custody_sats <=? TotalActiveBond c.

Definition Register (c : Covenant) (addr : bytes) (bond_sats : Z) : Covenant * bool :=
  if state_migration_active_ c || (size addr =? 0) || (bond_sats =? 0) then (c, false)
  else let s := default NoSigner (signers_ c !! addr) in
       if UINT64_MAX - bond_sats <? bonded_sats s then (c, false)
       else (with_signers c (<[addr := mkSigner addr (bonded_sats s + bond_sats) (locked_sats s) (sb_active s)]> (signers_ c)), true).

Definition Activate (c : Covenant) (addr : bytes) : Covenant * bool :=
  if state_migration_active_ c then (c, false)
  else match signers_ c !! addr with
       | None => (c, false)
       | Some s => if bonded_sats s =? 0 then (c, false)
                   else (with_signers c (<[addr := mkSigner (veld_addr s) (bonded_sats s) (locked_sats s) true]> (signers_ c)), true)
       end.

(** The loop of [BuildLockPlan_]: what each signer locks, and what remains. *)
Fixpoint lock_plan (signers : gmap bytes SignerBond) (order : list bytes) (remaining : Z) : list (bytes * Z) * Z :=
  match order with
  | [] => ([], remaining)
  | a :: order' =>
      let s := default NoSigner (signers !! a) in
      let amount := Z.min remaining (free s) in
      if negb (sb_active s) || (remaining =? 0) || (amount =? 0) then lock_plan signers order' remaining
      else let '(plan, rest) := lock_plan signers order' (remaining - amount) in ((a, amount) :: plan, rest)
  end.
Definition BuildLockPlan_ (c : Covenant) (amount_sats : Z) : option (list (bytes * Z)) :=
  if amount_sats =? 0 then None
  else let '(plan, rest) := lock_plan (signers_ c) (map_keys (signers_ c)) amount_sats in
       if rest =? 0 then Some plan else None.

Definition add_lock (signers : gmap bytes SignerBond) (a : bytes) (delta : Z) : gmap bytes SignerBond :=
  alter (fun s => mkSigner (veld_addr s) (bonded_sats s) (u64 (locked_sats s + delta)) (sb_active s)) a signers.
Definition ApplyLockPlan_ (c : Covenant) (plan : list (bytes * Z)) : Covenant :=
  with_signers c (foldl (fun m p => add_lock m (p.1) (p.2)) (signers_ c) plan).

Definition total_locked (m : gmap bytes SignerBond) : Z := map_fold (fun _ s n => n + locked_sats s) 0 m.
Fixpoint release_loop (signers : gmap bytes SignerBond) (order : list bytes) (rem : Z) : gmap bytes SignerBond :=
  match order with
  | [] => signers
  | a :: order' =>
      if rem =? 0 then signers
      else let amount := Z.min rem (locked_sats (default NoSigner (signers !! a))) in
           release_loop (add_lock signers a (- amount)) order' (rem - amount)
  end.
Definition ReleaseLock (c : Covenant) (amount_sats : Z) : option Covenant :=
  if total_locked (signers_ c) <? amount_sats then None
  else Some (with_signers c (release_loop (signers_ c) (map_keys (signers_ c)) amount_sats)).

Definition ReleaseRequestLock_ (c : Covenant) (id : Hash256) (amount_sats : Z) : option Covenant :=
  if bool_decide (id ∈ reserve_backed_requests_ c) then Some (with_requests c (requests_ c) (reserve_backed_requests_ c ∖ {[id]}))
  else ReleaseLock c amount_sats.

(** ** The archive *)

Section Archive.
Context (write_ : list (bytes * bytes) -> bool).

Definition archive_get (c : Covenant) (key : Hash256) : option (option bytes) :=
  RedeemArchive.Get (default ∅ (archive_ c)) (archive_root_ c) key.

(** [archive_.Insert(root, key, value)] on a root that is published later. *)
Definition archive_insert (a : gmap bytes bytes * RedeemArchive.Root) (kv : Hash256 * bytes)
  : option (gmap bytes bytes * RedeemArchive.Root) :=
  match RedeemArchive.Insert write_ (a.1) (a.2) (kv.1) (kv.2) with
  | Some (st, root, _) => Some (st, root)
  | None => None
  end.
Fixpoint archive_all (a : gmap bytes bytes * RedeemArchive.Root) (rows : list (Hash256 * bytes))
  : option (gmap bytes bytes * RedeemArchive.Root) :=
  match rows with
  | [] => Some a
  | kv :: rows' => match archive_insert a kv with Some a' => archive_all a' rows' | None => None end
  end.

Definition signer_row (c : Covenant) (addr : bytes) : Hash256 * bytes :=
  let s := default NoSigner (signers_ c !! addr) in
  (RedeemArchive.Key 4 addr, put_len_prefixed (veld_addr s) ++ put_u64_le (bonded_sats s) ++ put_u64_le (locked_sats s)
                             ++ put_u8 (if sb_active s then 1 else 0)).
Definition consumed_rows (kind : Z) (ids : gset bytes) : list (Hash256 * bytes) :=
  map (fun id => (RedeemArchive.Key kind id, [])) (sorted (elements ids)).
Definition closed_rows (c : Covenant) : list (Hash256 * bytes) :=
  map (fun kr => (RedeemArchive.Key 1 (kr.1), EncodeRequest_ (kr.2)))
    (omap (fun id => match requests_ c !! id with
                     | Some r => if Closed_ r then Some (id, r) else None
                     | None => None
                     end) (map_keys (requests_ c))).

(** Closed requests, used transactions and signers without a lock leave the state. *)
Definition closed_at (c : Covenant) (id : Hash256) : bool :=
  match requests_ c !! id with Some r => Closed_ r | None => false end.
Definition drop_closed (c : Covenant) : Covenant :=
  with_requests c (filter (fun kr => Closed_ (kr.2) = false) (requests_ c))
    (filter (fun id => closed_at c id = false) (reserve_backed_requests_ c)).
Definition drop_unlocked (c : Covenant) : Covenant :=
  with_signers c (filter (fun ks => locked_sats (ks.2) <> 0) (signers_ c)).
Definition deactivate (c : Covenant) : Covenant :=
  with_signers c ((fun s => mkSigner (veld_addr s) (bonded_sats s) (locked_sats s) false) <$> signers_ c).

(** [archive_.Insert(archive_root_, ...)] for each row; without a database the first throws. *)
Definition archive_rows (c : Covenant) (rows : list (Hash256 * bytes)) : option Covenant :=
  match archive_ c, rows with
  | _, [] => Some c
  | None, _ => None
  | Some st, _ => match archive_all (st, archive_root_ c) rows with Some a => Some (with_archive c a) | None => None end
  end.

Definition BeginBlock (c : Covenant) (height : Z) : option Covenant :=
  if negb (SecurityStateMigrationActive height) then if state_migration_active_ c then None else Some c
  else match archive_ c with
       | None => None
       | Some _ =>
           if state_migration_active_ c then Some c
           else
             let rows := map (signer_row c) (map_keys (signers_ c))
                         ++ [(RedeemArchive.Key 5 b:"legacy-insurance", put_u64_le (insurance_fund_sats_ c))]
                         ++ consumed_rows 2 (consumed_payouts_ c) ++ consumed_rows 3 (consumed_fraud_spends_ c)
                         ++ closed_rows c in
             match archive_rows c rows with
             | None => None
             | Some c' => Some (drop_closed (drop_unlocked (deactivate (with_consumed (with_insurance
                                  (with_migration c') 0) ∅ ∅))))
             end
       end.

Definition FinishBlock (c : Covenant) : option Covenant :=
  if negb (state_migration_active_ c) then Some c
  else match archive_rows c (closed_rows c ++ consumed_rows 2 (consumed_payouts_ c)
                             ++ consumed_rows 3 (consumed_fraud_spends_ c)) with
       | None => None
       | Some c' => Some (drop_unlocked (with_consumed (drop_closed c') ∅ ∅))
       end.
End Archive.

(** ** Requests *)

Definition archived (c : Covenant) (key : Hash256) : option bool :=
  if state_migration_active_ c then match archive_get c key with Some v => Some (bool_decide (is_Some v)) | None => None end
  else Some false.

Definition request_admissible (r : RedeemRequest) : bool :=
  negb (HashIsZero (rq_request_id r) || (rq_amount_sats r =? 0) || (size (dest_spk r) =? 0)
        || (size (veld_recipient r) =? 0) || (deadline_height r <=? request_height r)
        || negb (bool_decide (rq_status r = LOCKED_IN)) || negb (HashIsZero (fulfilled_txid r))).
Definition with_commitment_of (r : RedeemRequest) : RedeemRequest :=
  mkRequest (rq_request_id r) (rq_amount_sats r) (dest_spk r) (request_height r) (deadline_height r) (rq_status r)
    (fulfilled_txid r) (veld_recipient r) (RequestCommitment r) (btc_observed_height r).

Definition AddRequest (c : Covenant) (r : RedeemRequest) (reserve_backed_without_bond : bool) : option Covenant :=
  if negb (request_admissible r) then None
  else if negb (HashIsZero (rq_request_commitment r)) && negb (bytes_eqb (rq_request_commitment r) (RequestCommitment r)) then None
  else
    let canonical := with_commitment_of r in
    let id := rq_request_id r in
    match requests_ c !! id with
    | Some existing =>
        if SameRequest_ existing canonical
           && Bool.eqb (bool_decide (id ∈ reserve_backed_requests_ c)) reserve_backed_without_bond then Some c
        else None
    | None =>
        match archived c (RedeemArchive.Key 1 id) with
        | Some false =>
            if reserve_backed_without_bond then
              if bool_decide (id ∈ reserve_backed_requests_ c) then None
              else Some (with_requests c (<[id := canonical]> (requests_ c)) (reserve_backed_requests_ c ∪ {[id]}))
            else match BuildLockPlan_ c (rq_amount_sats r) with
                 | None => None
                 | Some plan => let c' := ApplyLockPlan_ c plan in
                                Some (with_requests c' (<[id := canonical]> (requests_ c')) (reserve_backed_requests_ c'))
                 end
        | _ => None
        end
    end.

Definition due (height : Z) (r : RedeemRequest) : bool :=
  negb (bool_decide (rq_status r = REQUESTED)) && negb (Closed_ r) && (deadline_height r <? height).
Definition DueForDefault (c : Covenant) (current_height : Z) : list Hash256 :=
  List.filter (fun id => match requests_ c !! id with Some r => due current_height r | None => false end) (map_keys (requests_ c)).

Definition put_request (c : Covenant) (id : Hash256) (r : RedeemRequest) : Covenant :=
  with_requests c (<[id := r]> (requests_ c)) (reserve_backed_requests_ c).

Definition SetStatus (c : Covenant) (id : Hash256) (st : ReqStatus) : option Covenant :=
  match requests_ c !! id with
  | None => Some c
  | Some r =>
      if bool_decide (rq_status r = st) then Some c
      else if Closed_ r then Some c
      else if bool_decide (st = FULFILLED) then None
      else match (if bool_decide (st = DEFAULTED) then ReleaseRequestLock_ c id (rq_amount_sats r) else Some c) with
           | None => None
           | Some c' => Some (put_request c' id (with_status r st (fulfilled_txid r)))
           end
  end.

Definition GetCopy (c : Covenant) (id : Hash256) : option (option RedeemRequest) :=
  match requests_ c !! id with
  | Some r => Some (Some r)
  | None =>
      if negb (state_migration_active_ c) then Some None
      else match archive_get c (RedeemArchive.Key 1 id) with
           | None => None
           | Some None => Some None
           | Some (Some wire) =>
               match DecodeRequest_ wire with
               | None => None
               | Some r => if negb (bytes_eqb (rq_request_id r) id) || negb (Closed_ r) then None else Some (Some r)
               end
           end
  end.

Definition IsConsumedPayout (c : Covenant) (txid : Hash256) : option bool :=
  if bool_decide (txid ∈ consumed_payouts_ c) then Some true else archived c (RedeemArchive.Key 2 txid).
Definition IsConsumedFraudSpend (c : Covenant) (txid : Hash256) : option bool :=
  if bool_decide (txid ∈ consumed_fraud_spends_ c) then Some true else archived c (RedeemArchive.Key 3 txid).

Definition MarkFulfilled (c : Covenant) (id payout_txid : Hash256) (paid_sats : Z) (paid_spk : bytes) : option (Covenant * bool) :=
  match requests_ c !! id with
  | None => Some (c, false)
  | Some r =>
      if Closed_ r then Some (c, false)
      else if negb (paid_sats =? rq_amount_sats r) || negb (bytes_eqb paid_spk (dest_spk r)) then Some (c, false)
      else match ReleaseRequestLock_ c id (rq_amount_sats r) with
           | None => None
           | Some c' => Some (put_request c' id (with_status r FULFILLED payout_txid), true)
           end
  end.

(** Neither a payout nor evidence of fraud yet. *)
Definition unused (c : Covenant) (txid : Hash256) : option bool :=
  if HashIsZero txid then Some false
  else match IsConsumedPayout c txid with
       | Some false => match IsConsumedFraudSpend c txid with Some b => Some (negb b) | None => None end
       | Some true => Some false
       | None => None
       end.

Definition MarkAuthorizedReservePayout (c : Covenant) (id payout_txid : Hash256) (paid_sats : Z) (paid_spk : bytes)
  : option (Covenant * bool) :=
  match unused c payout_txid with
  | None => None
  | Some false => Some (c, false)
  | Some true =>
      match MarkFulfilled c id payout_txid paid_sats paid_spk with
      | Some (c', true) => Some (with_consumed c' (consumed_payouts_ c' ∪ {[payout_txid]}) (consumed_fraud_spends_ c'),
                                 negb (bool_decide (payout_txid ∈ consumed_payouts_ c')))
      | other => other
      end
  end.

Definition ConsumeFraudSpend (c : Covenant) (spend_txid : Hash256) : option (Covenant * bool) :=
  match unused c spend_txid with
  | None => None
  | Some false => Some (c, false)
  | Some true => Some (with_consumed c (consumed_payouts_ c) (consumed_fraud_spends_ c ∪ {[spend_txid]}),
                       negb (bool_decide (spend_txid ∈ consumed_fraud_spends_ c)))
  end.

(** ** Verdicts *)

Definition EvalNonPayment (c : Covenant) (id : Hash256) (current_height penalty_bps : Z) : SlashVerdict :=
  match requests_ c !! id with
  | None => NoVerdict
  | Some r =>
      if negb (due current_height r) then NoVerdict
      else let penalty := PctOf (rq_amount_sats r) penalty_bps in
           mkVerdict true NON_PAYMENT
             (if UINT64_MAX - penalty <? rq_amount_sats r then UINT64_MAX else rq_amount_sats r + penalty)
             (rq_amount_sats r) (veld_recipient r)
  end.

(** Each active signer loses its share; the largest bond covers what rounding left. *)
Fixpoint slash_shares (signers : gmap bytes SignerBond) (keys : list bytes) (want total taken : Z)
  : gmap bytes SignerBond * Z :=
  match keys with
  | [] => (signers, taken)
  | a :: keys' =>
      let s := default NoSigner (signers !! a) in
      let share := Z.min (want * bonded_sats s / total) (bonded_sats s) in
      slash_shares (<[a := mkSigner (veld_addr s) (bonded_sats s - share) (locked_sats s) (sb_active s)]> signers)
        keys' want total (u64 (taken + share))
  end.
Fixpoint biggest (signers : gmap bytes SignerBond) (keys : list bytes) (big : bytes) : bytes :=
  match keys with
  | [] => big
  | a :: keys' => biggest signers keys'
                    (if bonded_sats (default NoSigner (signers !! big)) <? bonded_sats (default NoSigner (signers !! a))
                     then a else big)
  end.
Definition active_keys (c : Covenant) : list bytes :=
  List.filter (fun a => sb_active (default NoSigner (signers_ c !! a))) (map_keys (signers_ c)).

Definition ApplySlash (c : Covenant) (v : SlashVerdict) : Covenant :=
  if negb (slash v) || (slash_sats v =? 0) then c
  else
    let total := TotalActiveBond c in
    if total =? 0 then c
    else
      let want := Z.min (slash_sats v) total in
      let keys := active_keys c in
      let '(signers, taken) := slash_shares (signers_ c) keys want total 0 in
      let '(signers', taken') :=
        match keys with
        | k0 :: _ =>
            if taken <? want then
              let big := biggest signers keys k0 in
              let s := default NoSigner (signers !! big) in
              let d := Z.min (want - taken) (bonded_sats s) in
              (<[big := mkSigner (veld_addr s) (bonded_sats s - d) (locked_sats s) (sb_active s)]> signers, u64 (taken + d))
            else (signers, taken)
        | [] => (signers, taken)
        end in
      let to_insurance := if compensate_sats v <? taken' then taken' - compensate_sats v else 0 in
      with_insurance (with_signers c signers') (u64 (insurance_fund_sats_ c + to_insurance)).

(** ** Digest *)

Definition REDEEM_BOND_TAG : bytes := b:"VELD_D_REDEEM_BOND_v1|".
Definition put_signer (addr : bytes) (s : SignerBond) : bytes :=
  put_len_prefixed addr ++ put_len_prefixed (veld_addr s) ++ put_u64_le (bonded_sats s) ++ put_u64_le (locked_sats s)
  ++ put_u8 (if sb_active s then 1 else 0).
Definition put_count (n : nat) : bytes := put_u32_le (u32 (Z.of_nat n)).
Definition put_ids (ids : gset bytes) : bytes :=
  let l := sorted (elements ids) in put_count (length l) ++ concat (map put_bytes l).

Definition Digest (c : Covenant) : Hash256 :=
  let signers := map_keys (signers_ c) in
  let requests := map_keys (requests_ c) in
  sha256_domain REDEEM_BOND_TAG
    (put_u32_le (if state_migration_active_ c then 4 else 3)
     ++ put_count (length signers)
     ++ concat (map (fun a => match signers_ c !! a with Some s => put_signer a s | None => [] end) signers)
     ++ put_count (length requests)
     ++ concat (map (fun id => match requests_ c !! id with Some r => put_bytes id ++ EncodeRequest_ r | None => [] end) requests)
     ++ put_ids (consumed_payouts_ c) ++ put_ids (consumed_fraud_spends_ c) ++ put_ids (reserve_backed_requests_ c)
     ++ put_u64_le (insurance_fund_sats_ c)
     ++ (if state_migration_active_ c then
           put_bytes (RedeemArchive.root_hash (archive_root_ c)) ++ put_u64_le (RedeemArchive.root_count (archive_root_ c))
         else [])).
