(* ===== verification/Reserve.v ===== *)
(** * The rolling Bitcoin reserve ([consensus/btcveld_reserve_transition.h])

    One Bitcoin output backs btcVELD.  The state follows it from transition to transition
    and keeps the account: its value is the circulating supply, plus the principal of open
    redemptions, plus surplus.

    A [Result] is what the verifier of a Bitcoin proof reports ([ReserveProof]); applying
    one, opening and resolving redemptions, freezing, and marking a block as processed are
    modelled here. *)
From S2P Require Import Prelude Bytes Sha256 StateDigest MintNullifier Profile.

Definition NO_VOUT : Z := UINT32_MAX.
Definition BTCVELD_SPV_MAX_CUSTODY_SATS : Z := 1000000000.
Definition DEPLOYMENT_PROFILE_ID : bytes := b:"veld-public-mainnet-v2".

Inductive Status := EMPTY | ACTIVE | FROZEN.
Inductive Operation := OPEN | DEPOSIT | ROLLOVER | PAYOUT | CLOSE | FREEZE.

#[global] Instance Status_eq_dec : EqDecision Status.
Proof. solve_decision. Defined.
#[global] Instance Operation_eq_dec : EqDecision Operation.
Proof. solve_decision. Defined.

Definition status_byte (s : Status) : Z := match s with EMPTY => 0 | ACTIVE => 1 | FROZEN => 2 end.
Definition operation_byte (o : Operation) : Z :=
  match o with OPEN => 1 | DEPOSIT => 2 | ROLLOVER => 3 | PAYOUT => 4 | CLOSE => 5 | FREEZE => 6 end.

Definition NetworkBinding : Hash256 :=
  sha256_domain b:"VELD/BTCVELD/RESERVE_NETWORK/v1"
    (put_len_prefixed GENESIS_HASH ++ put_len_prefixed DEPLOYMENT_PROFILE_ID
     ++ put_len_prefixed b:"btcveld-reserve-outpoint-v1").

Definition EmptyTransitionCommitment : Hash256 :=
  sha256_domain b:"VELD/BTCVELD/RESERVE_TRANSITIONS/v1/EMPTY" NetworkBinding.

Record State := mkState {
  status : Status; reserve_txid : Hash256; reserve_vout : Z; reserve_value_sats : Z;
  reserve_bitcoin_block : Hash256; transition_count : Z; transition_commitment : Hash256;
  surplus_sats : Z; open_redemption_principal : Z; processed_veld_height : Z;
  processed_veld_block_hash : Hash256 }.

Definition InitialState : State :=
  mkState EMPTY ZeroHash NO_VOUT 0 ZeroHash 0 EmptyTransitionCommitment 0 0 0 ZeroHash.

Definition HasOutpoint (s : State) : bool :=
  bool_decide (status s <> EMPTY) && negb (HashIsZero (reserve_txid s)) && negb (reserve_vout s =? NO_VOUT)
  && negb (reserve_value_sats s =? 0).

Definition Canonical (s : State) : bool :=
  if HashIsZero (transition_commitment s) then false
  else if bool_decide (status s = EMPTY) then
    HashIsZero (reserve_txid s) && (reserve_vout s =? NO_VOUT) && (reserve_value_sats s =? 0)
    && HashIsZero (reserve_bitcoin_block s) && (surplus_sats s =? 0) && (open_redemption_principal s =? 0)
  else HasOutpoint s && negb (HashIsZero (reserve_bitcoin_block s)).

Definition AccountingHolds (s : State) (circulating_supply : Z) : bool :=
  if negb (Canonical s) then false
  else if circulating_supply >? UINT64_MAX - open_redemption_principal s then false
  else
    let liabilities := circulating_supply + open_redemption_principal s in
    if liabilities >? UINT64_MAX - surplus_sats s then false
    else reserve_value_sats s =? liabilities + surplus_sats s.

Definition EncodeState (s : State) : bytes :=
  put_u8 (status_byte (status s)) ++ put_bytes (reserve_txid s) ++ put_u32_le (reserve_vout s)
  ++ put_u64_le (reserve_value_sats s) ++ put_bytes (reserve_bitcoin_block s)
  ++ put_u64_le (transition_count s) ++ put_bytes (transition_commitment s) ++ put_u64_le (surplus_sats s)
  ++ put_u64_le (open_redemption_principal s) ++ put_u64_le (processed_veld_height s)
  ++ put_bytes (processed_veld_block_hash s).

Definition ReserveDigest (s : State) : Hash256 :=
  sha256_domain b:"VELD_D_BTCVELD_RESERVE_v1|" (put_u32_le 1 ++ put_bytes NetworkBinding ++ put_bytes (EncodeState s)).

(** ** Transitions *)

Record Claim := mkClaim {
  operation : Operation; network_binding : Hash256; prior_commitment : Hash256; prior_reserve_txid : Hash256;
  prior_reserve_vout : Z; prior_reserve_value : Z; prior_transition_count : Z; new_reserve_txid : Hash256;
  new_reserve_vout : Z; new_reserve_value : Z; bitcoin_txid : Hash256; bitcoin_block : Hash256;
  merkle_directions : Z; merkle_branch : list Hash256; exact_commitment : Hash256; mint_amount : Z;
  bitcoin_tx : bytes; direct_parents : list bytes; nullifier_proof : Proof; has_nullifier_proof : bool }.

(** The transitions that consume a deposit. *)
Definition consumes_deposit (op : Operation) : bool := bool_decide (op = OPEN) || bool_decide (op = DEPOSIT).

(** A result whose [ok] is set. *)
Record Result := mkResult {
  claim : Claim; recipient : bytes; pending_outpoint : bytes; pending_value : Z; payout_request_id : Hash256;
  payout_principal_sats : Z; payout_destination_spk : bytes; terminal : bool }.

Definition TransitionCommitment (c : Claim) : Hash256 :=
  sha256_domain b:"VELD/BTCVELD/RESERVE_TRANSITION/v1"
    (put_bytes (network_binding c) ++ put_bytes (prior_commitment c) ++ put_bytes (prior_reserve_txid c)
     ++ put_u32_le (prior_reserve_vout c) ++ put_u64_le (prior_reserve_value c)
     ++ put_u64_le (prior_transition_count c) ++ put_bytes (new_reserve_txid c) ++ put_u32_le (new_reserve_vout c)
     ++ put_u64_le (new_reserve_value c) ++ put_bytes (bitcoin_txid c) ++ put_bytes (bitcoin_block c)
     ++ put_u8 (operation_byte (operation c)) ++ put_bytes (exact_commitment c) ++ put_u64_le (mint_amount c)).

Definition MatchesPrior (s : State) (c : Claim) : bool :=
  bytes_eqb (network_binding c) NetworkBinding && bytes_eqb (prior_commitment c) (transition_commitment s)
  && bytes_eqb (prior_reserve_txid c) (reserve_txid s) && (prior_reserve_vout c =? reserve_vout s)
  && (prior_reserve_value c =? reserve_value_sats s) && (prior_transition_count c =? transition_count s).

Definition SetProcessed (s : State) (height : Z) (block_hash : Hash256) : option State :=
  if negb (Canonical s) || HashIsZero block_hash || (height <? processed_veld_height s) then None
  else if (height =? processed_veld_height s) && negb (HashIsZero (processed_veld_block_hash s))
          && negb (bytes_eqb (processed_veld_block_hash s) block_hash) then None
  else Some (mkState (status s) (reserve_txid s) (reserve_vout s) (reserve_value_sats s) (reserve_bitcoin_block s)
               (transition_count s) (transition_commitment s) (surplus_sats s) (open_redemption_principal s)
               height block_hash).

(** The reserve output, its block, the surplus and the open principal change together. *)
Definition with_reserve (s : State) (st : Status) (txid : Hash256) (vout value : Z) (block : Hash256)
    (surplus open_principal : Z) : State :=
  mkState st txid vout value block (transition_count s) (transition_commitment s) surplus open_principal
    (processed_veld_height s) (processed_veld_block_hash s).

(** The [switch] of [ApplyAuthorized]: the next state before the counter and the
    commitment advance. *)
Definition authorized_next (s : State) (v : Result) (before after : Z) : option State :=
  let c := claim v in
  let follow surplus open_principal :=
    with_reserve s (status s) (new_reserve_txid c) (new_reserve_vout c) (new_reserve_value c) (bitcoin_block c)
      surplus open_principal in
  match operation c with
  | OPEN =>
      if bool_decide (status s <> EMPTY) || (after <? before) || negb (after - before =? mint_amount c) then None
      else Some (with_reserve s ACTIVE (new_reserve_txid c) (new_reserve_vout c) (new_reserve_value c)
                   (bitcoin_block c) (u64 (new_reserve_value c - mint_amount c)) (open_redemption_principal s))
  | DEPOSIT =>
      if bool_decide (status s <> ACTIVE) || (after <? before) || negb (after - before =? mint_amount c)
         || (new_reserve_value c <=? reserve_value_sats s) then None
      else
        let increase := new_reserve_value c - reserve_value_sats s in
        if (mint_amount c >? increase) || (surplus_sats s >? UINT64_MAX - (increase - mint_amount c)) then None
        else Some (follow (surplus_sats s + (increase - mint_amount c)) (open_redemption_principal s))
  | ROLLOVER =>
      if bool_decide (status s <> ACTIVE) || negb (after =? before) then None
      else Some (follow (surplus_sats s) (open_redemption_principal s))
  | PAYOUT =>
      if bool_decide (status s <> ACTIVE) || negb (after =? before) || (new_reserve_value c >? reserve_value_sats s)
         || (open_redemption_principal s <? reserve_value_sats s - new_reserve_value c)
         || negb (payout_principal_sats v =? reserve_value_sats s - new_reserve_value c) then None
      else
        let principal := reserve_value_sats s - new_reserve_value c in
        let open_principal := open_redemption_principal s - principal in
        if terminal v then
          if negb (after =? 0) || negb (open_principal =? 0) || negb (surplus_sats s =? 0) then None
          else Some (with_reserve s EMPTY ZeroHash NO_VOUT (new_reserve_value c) ZeroHash (surplus_sats s) open_principal)
        else Some (follow (surplus_sats s) open_principal)
  | CLOSE =>
      if bool_decide (status s <> ACTIVE) || negb (before =? 0) || negb (after =? 0)
         || negb (open_redemption_principal s =? 0) || negb (reserve_value_sats s =? surplus_sats s) then None
      else Some (with_reserve s EMPTY ZeroHash NO_VOUT 0 ZeroHash 0 (open_redemption_principal s))
  | FREEZE => None
  end.

(** [++transition_count] and the new commitment. *)
Definition advance (s : State) (c : Claim) : State :=
  mkState (status s) (reserve_txid s) (reserve_vout s) (reserve_value_sats s) (reserve_bitcoin_block s)
    (transition_count s + 1) (TransitionCommitment c) (surplus_sats s) (open_redemption_principal s)
    (processed_veld_height s) (processed_veld_block_hash s).

Definition ApplyAuthorized (s : State) (v : Result) (before after : Z) : option State :=
  if bool_decide (operation (claim v) = FREEZE) || negb (AccountingHolds s before)
     || negb (MatchesPrior s (claim v)) || (transition_count s =? UINT64_MAX) then None
  else match authorized_next s v before after with
       | None => None
       | Some n => let next := advance n (claim v) in
                   if negb (AccountingHolds next after) then None else Some next
       end.

Definition with_open_principal (s : State) (p : Z) : State :=
  with_reserve s (status s) (reserve_txid s) (reserve_vout s) (reserve_value_sats s) (reserve_bitcoin_block s)
    (surplus_sats s) p.

Definition OpenRedemption (s : State) (amount after_burn : Z) : option State :=
  if bool_decide (status s <> ACTIVE) || (amount =? 0) || (open_redemption_principal s >? UINT64_MAX - amount) then None
  else let next := with_open_principal s (open_redemption_principal s + amount) in
       if negb (AccountingHolds next after_burn) then None else Some next.

Definition ResolveDefaultOrCompensation (s : State) (amount after : Z) : option State :=
  if (amount =? 0) || (open_redemption_principal s <? amount) then None
  else let next := with_open_principal s (open_redemption_principal s - amount) in
       if negb (AccountingHolds next after) then None else Some next.

Definition freeze_claim (s : State) (spend_txid block : Hash256) : Claim :=
  mkClaim FREEZE NetworkBinding (transition_commitment s) (reserve_txid s) (reserve_vout s) (reserve_value_sats s)
    (transition_count s) (reserve_txid s) (reserve_vout s) (reserve_value_sats s) spend_txid block 0 [] ZeroHash 0
    [] [] EmptyProof false.

Definition ApplyFreeze (s : State) (unauthorized_spend_txid bitcoin_block : Hash256) : option State :=
  if negb (Canonical s) || bool_decide (status s <> ACTIVE) || HashIsZero unauthorized_spend_txid
     || HashIsZero bitcoin_block || (transition_count s =? UINT64_MAX) then None
  else Some (advance (with_reserve s FROZEN (reserve_txid s) (reserve_vout s) (reserve_value_sats s)
                        (reserve_bitcoin_block s) (surplus_sats s) (open_redemption_principal s))
               (freeze_claim s unauthorized_spend_txid bitcoin_block)).

(** ** The account *)

(** The equation [AccountingHolds] tests, with its 64-bit sums exact. *)
Lemma AccountingHolds_iff s supply :
  AccountingHolds s supply = true <->
  Canonical s = true /\ reserve_value_sats s = supply + open_redemption_principal s + surplus_sats s
  /\ supply + open_redemption_principal s <= UINT64_MAX
  /\ reserve_value_sats s <= UINT64_MAX.
Proof.
  unfold AccountingHolds. destruct (Canonical s); cbn [negb]; [|naive_solver].
  rewrite !Z.gtb_ltb.
  destruct (Z.ltb_spec (UINT64_MAX - open_redemption_principal s) supply); [split; [done|lia]|].
  destruct (Z.ltb_spec (UINT64_MAX - surplus_sats s) (supply + open_redemption_principal s)); [split; [done|lia]|].
  rewrite Z.eqb_eq. split; [|lia]. intros E. split_and!; (done || lia).
Qed.
