(* ===== verification/ReserveProof.v ===== *)
(** * Proofs of reserve transitions ([consensus/btcveld_reserve_transition.h])

    The wire form of a proof and of the state, the authorization marker a reserve spend
    carries on Bitcoin, the classifier of Bitcoin spends that every path shares, and the
    verifier of a proof against the Bitcoin header chain.  A function that fails returns
    [None]; the diagnostic texts are not modelled. *)
From S2P Require Import Prelude Limbs Bytes Sha256 StateDigest MintNullifier Profile Transaction Address.
From S2P Require Import BtcHeaderChain BtcTx Reserve.

Definition MAX_MSPV_STRIPPED_TX_BYTES : Z := 12000.
Definition MAX_MSPV_PARENT_TX_BYTES : Z := 12000.
Definition MAX_MSPV_PARENT_TOTAL_BYTES : Z := 10000.
Definition MAX_DIRECT_INPUTS : Z := 8.
Definition MAX_STANDARD_NULL_DATA_SCRIPT_BYTES : Z := 83.
Definition OPEN_AUTH_RECIPIENT_BYTES : Z := 34.
Definition OPEN_AUTH_PAYLOAD_BYTES : Z := 4 + 1 + 32 + OPEN_AUTH_RECIPIENT_BYTES + 8.
Definition STANDARD_AUTH_PAYLOAD_BYTES : Z := 4 + 1 + 32 + 32 + 8.
Definition MAX_RESERVE_PROOF_BYTES : Z :=
  4 + 1 + 7 * 32 + 4 + 8 + 8 + 4 + 8 + 4 + 1 + 32 * 32 + 8 + 4 + MAX_MSPV_STRIPPED_TX_BYTES + 2
  + MAX_DIRECT_INPUTS * 4 + MAX_MSPV_PARENT_TOTAL_BYTES + 4 + Z.of_nat MAX_PROOF_BYTES.

Definition PROOF_MAGIC : bytes := b:"RTP1".
Definition AUTH_MAGIC : bytes := b:"RVS1".

(** ** Wire forms *)

Definition read_hash : reader Hash256 := read_bytes 32.

Definition status_of (raw : Z) : option Status :=
  if raw =? 0 then Some EMPTY else if raw =? 1 then Some ACTIVE else if raw =? 2 then Some FROZEN else None.

(** [ValidOperation] and the cast. *)
Definition operation_of (raw : Z) : option Operation :=
  if raw =? 1 then Some OPEN else if raw =? 2 then Some DEPOSIT else if raw =? 3 then Some ROLLOVER
  else if raw =? 4 then Some PAYOUT else if raw =? 5 then Some CLOSE else if raw =? 6 then Some FREEZE else None.

Definition of_option {A} (o : option A) : reader A := fun d => match o with Some a => Some (a, d) | None => None end.

Definition read_state : reader State :=
  read raw <- read_le 1;
  read st <- of_option (status_of raw);
  read txid <- read_hash;
  read vout <- read_le 4;
  read value <- read_le 8;
  read block <- read_hash;
  read count <- read_le 8;
  read commitment <- read_hash;
  read surplus <- read_le 8;
  read principal <- read_le 8;
  read height <- read_le 8;
  read veld_block <- read_hash;
  rret (mkState st txid vout value block count commitment surplus principal height veld_block).

Definition DecodeState (payload : bytes) : option State :=
  match read_state payload with
  | Some (s, []) => if negb (Canonical s) || negb (bytes_eqb (EncodeState s) payload) then None else Some s
  | _ => None
  end.

(** The Merkle branch: unused direction bits must be zero. *)
Definition read_branch : reader (Z * list Hash256) :=
  read directions <- read_le 4;
  read branch_size <- read_le 1;
  guard negb ((32 <? branch_size) || ((branch_size <? 32) && negb (Z.shiftr directions branch_size =? 0)));
  read branch <- read_list (Z.to_nat branch_size) read_hash;
  rret (directions, branch).

(** [parent_total > MAX - parent_size], with the difference in 64 bits. *)
Definition parent_refused (parent_total parent_size : Z) : bool :=
  (parent_size <? 10) || (MAX_MSPV_PARENT_TX_BYTES <? parent_size)
  || (u64 (MAX_MSPV_PARENT_TOTAL_BYTES - parent_size) <? parent_total).

Fixpoint read_parents (n : nat) (parent_total : Z) : reader (list bytes) :=
  match n with
  | O => rret []
  | S n' =>
      read parent_size <- read_le 4;
      guard negb (parent_refused parent_total parent_size);
      read parent <- read_bytes (Z.to_nat parent_size);
      read parents <- read_parents n' (parent_total + parent_size);
      rret (parent :: parents)
  end.

Definition read_nullifier : reader (Proof * bool) :=
  read nullifier_size <- read_le 4;
  fun d =>
    if size d <? nullifier_size then None
    else if nullifier_size =? 0 then Some ((EmptyProof, false), d)
    else if (nullifier_size <? Z.of_nat MIN_PROOF_BYTES) || (Z.of_nat MAX_PROOF_BYTES <? nullifier_size) then None
    else match read_bytes (Z.to_nat nullifier_size) d with
         | None => None
         | Some (raw, rest) => match MintNullifier.DecodeProof raw with
                               | Some p => Some ((p, true), rest)
                               | None => None
                               end
         end.

Definition read_claim : reader Claim :=
  read raw <- read_le 1;
  read op <- of_option (operation_of raw);
  read binding <- read_hash;
  read prior <- read_hash;
  read prior_txid <- read_hash;
  read prior_vout <- read_le 4;
  read prior_value <- read_le 8;
  read prior_count <- read_le 8;
  read new_txid <- read_hash;
  read new_vout <- read_le 4;
  read new_value <- read_le 8;
  read txid <- read_hash;
  read block <- read_hash;
  read branch <- read_branch;
  read exact <- read_hash;
  read mint <- read_le 8;
  read tx_size <- read_le 4;
  guard negb ((tx_size <=? 64) || (MAX_MSPV_STRIPPED_TX_BYTES <? tx_size));
  read tx <- read_bytes (Z.to_nat tx_size);
  read parent_count <- read_le 2;
  guard negb ((parent_count =? 0) || (MAX_DIRECT_INPUTS <? parent_count));
  read parents <- read_parents (Z.to_nat parent_count) 0;
  read nullifier <- read_nullifier;
  rret (mkClaim op binding prior prior_txid prior_vout prior_value prior_count new_txid new_vout new_value txid block
          (fst branch) (snd branch) exact mint tx parents (fst nullifier) (snd nullifier)).

Definition DecodeProof (payload : bytes) : option Claim :=
  if (MAX_RESERVE_PROOF_BYTES <? size payload) || (size payload <? 300) || negb (bytes_eqb (take 4 payload) PROOF_MAGIC)
  then None
  else match read_claim (drop 4 payload) with
       | Some (c, []) => Some c
       | _ => None
       end.

(** The loop over the parents in [EncodeProof]: whether all pass. *)
Fixpoint parents_pass (parent_total : Z) (parents : list bytes) : bool :=
  match parents with
  | [] => true
  | p :: parents' => if parent_refused parent_total (size p) then false else parents_pass (parent_total + size p) parents'
  end.

Definition put_sized (b : bytes) : bytes := put_le 4 (size b) ++ b.

Definition encode_nullifier (c : Claim) : option bytes :=
  if has_nullifier_proof c then
    let nullifier := MintNullifier.EncodeProof (nullifier_proof c) in
    if (size nullifier <? Z.of_nat MIN_PROOF_BYTES) || (Z.of_nat MAX_PROOF_BYTES <? size nullifier) then None
    else match MintNullifier.DecodeProof nullifier with Some _ => Some nullifier | None => None end
  else Some [].

Definition encode_claim (c : Claim) (nullifier : bytes) : bytes :=
  PROOF_MAGIC ++ put_le 1 (operation_byte (operation c)) ++ network_binding c ++ prior_commitment c
  ++ prior_reserve_txid c ++ put_le 4 (prior_reserve_vout c) ++ put_le 8 (prior_reserve_value c)
  ++ put_le 8 (prior_transition_count c) ++ new_reserve_txid c ++ put_le 4 (new_reserve_vout c)
  ++ put_le 8 (new_reserve_value c) ++ bitcoin_txid c ++ bitcoin_block c ++ put_le 4 (merkle_directions c)
  ++ put_le 1 (size (merkle_branch c)) ++ concat (merkle_branch c) ++ exact_commitment c ++ put_le 8 (mint_amount c)
  ++ put_sized (bitcoin_tx c) ++ put_le 2 (size (direct_parents c)) ++ concat (map put_sized (direct_parents c))
  ++ put_sized nullifier.

(** The proof bytes; empty when the claim has none. *)
Definition EncodeProof (c : Claim) : bytes :=
  let branch := size (merkle_branch c) in
  if (32 <? branch) || (UINT32_MAX <? merkle_directions c)
     || ((branch <? 32) && negb (Z.shiftr (merkle_directions c) branch =? 0))
     || (size (bitcoin_tx c) <=? 64) || (MAX_MSPV_STRIPPED_TX_BYTES <? size (bitcoin_tx c))
     || (size (direct_parents c) =? 0) || (MAX_DIRECT_INPUTS <? size (direct_parents c)) then []
  else if negb (parents_pass 0 (direct_parents c)) then []
  else match encode_nullifier c with
       | None => []
       | Some nullifier =>
           let out := encode_claim c nullifier in
           if MAX_RESERVE_PROOF_BYTES <? size out then []
           else match DecodeProof out with Some _ => out | None => [] end
       end.

(** ** The authorization marker *)

Record AuthMarker := mkAuthMarker {
  au_operation : Operation; au_prior_commitment : Hash256; au_exact_commitment : Hash256; au_mint_amount : Z;
  open_recipient : bytes }.

Definition NoMarker : AuthMarker := mkAuthMarker OPEN ZeroHash ZeroHash 0 [].

Definition slice (i n : nat) (b : bytes) : bytes := take n (drop i b).

Definition ParseAuthMarker (output : BtcTxOut) : option AuthMarker :=
  let b := ExtractOpReturn (spk output) in
  if (negb (size b =? OPEN_AUTH_PAYLOAD_BYTES) && negb (size b =? STANDARD_AUTH_PAYLOAD_BYTES))
     || negb (size (spk output) =? size b + 3) || negb (nth 0 (spk output) 0 =? 0x6a)
     || negb (nth 1 (spk output) 0 =? 0x4c) || negb (nth 2 (spk output) 0 =? u8 (size b))
     || (MAX_STANDARD_NULL_DATA_SCRIPT_BYTES <? size (spk output)) || negb (bytes_eqb (slice 0 4 b) AUTH_MAGIC) then None
  else match operation_of (nth 4 b 0) with
       | None | Some FREEZE => None
       | Some OPEN =>
           if negb (size b =? OPEN_AUTH_PAYLOAD_BYTES) then None
           else
             let r := slice 37 34 b in
             if negb (IsCanonicalTokenCreditAddress r) || negb (size r =? OPEN_AUTH_RECIPIENT_BYTES) then None
             else Some (mkAuthMarker OPEN (slice 5 32 b) ZeroHash (get_le (slice 71 8 b)) r)
       | Some op =>
           if negb (size b =? STANDARD_AUTH_PAYLOAD_BYTES) then None
           else Some (mkAuthMarker op (slice 5 32 b) (slice 37 32 b) (get_le (slice 69 8 b)) [])
       end.

Definition null_data_script (payload : bytes) : bytes :=
  let script := [0x6a; 0x4c; u8 (size payload)] ++ payload in
  if MAX_STANDARD_NULL_DATA_SCRIPT_BYTES <? size script then [] else script.

Definition AuthScript (op : Operation) (prior exact : Hash256) (mint : Z) : bytes :=
  if bool_decide (op = OPEN) || bool_decide (op = FREEZE) then []
  else null_data_script (AUTH_MAGIC ++ [operation_byte op] ++ prior ++ exact ++ put_le 8 mint).

Definition OpenAuthScript (prior : Hash256) (recipient : bytes) (mint : Z) : bytes :=
  if negb (size recipient =? OPEN_AUTH_RECIPIENT_BYTES) || negb (IsCanonicalTokenCreditAddress recipient) then []
  else
    let payload := AUTH_MAGIC ++ [operation_byte OPEN] ++ prior ++ recipient ++ put_le 8 mint in
    if negb (size payload =? OPEN_AUTH_PAYLOAD_BYTES) then [] else null_data_script payload.

(** ** Commitments *)

Definition RECIPIENT_TAG : bytes := b:"btcVELD:".

(** The number of recipient outputs, and the recipient of the last. *)
Fixpoint recipients (outputs : list BtcTxOut) (matches : Z) (r : bytes) : Z * bytes :=
  match outputs with
  | [] => (matches, r)
  | o :: outputs' =>
      let data := ExtractOpReturn (spk o) in
      if (size data <=? size RECIPIENT_TAG) || negb (bytes_eqb (take 8 data) RECIPIENT_TAG) then recipients outputs' matches r
      else recipients outputs' (matches + 1) (drop 8 data)
  end.

Definition ExtractRecipient (outputs : list BtcTxOut) : bool * bytes :=
  let '(matches, r) := recipients outputs 0 [] in (matches =? 1, r).

Definition OpenDepositCommitment (vout value : Z) (r : bytes) : Hash256 :=
  sha256_domain b:"VELD/BTCVELD/PENDING_DEPOSIT/v1/OPEN" (put_u32_le vout ++ put_u64_le value ++ put_len_prefixed r).

Definition PendingDepositCommitment (txid : Hash256) (vout value : Z) (r : bytes) : Hash256 :=
  sha256_domain b:"VELD/BTCVELD/PENDING_DEPOSIT/v1"
    (put_bytes txid ++ put_u32_le vout ++ put_u64_le value ++ put_len_prefixed r).

(** ** Bitcoin facts *)

Definition ParseTx (tx : bytes) : option WitnessAwareBtcTx := ParseWitnessAwareBtcTx tx 100000 100000.
Definition ParseReserveTx (tx : bytes) : option WitnessAwareBtcTx := ParseWitnessAwareBtcTx tx MAX_DIRECT_INPUTS 100000.

Record InputFacts := mkFacts { f_prevouts : list BtcPrevout; spent_outputs : list BtcTxOut; input_total : Z }.

(** Each input with its parent: the outputs spent and the running total. *)
Fixpoint read_spent (prevs : list BtcPrevout) (parents : list bytes) (total : Z) : option (list BtcTxOut * Z) :=
  match prevs, parents with
  | prev :: prevs', raw :: parents' =>
      if HashIsZero (po_txid prev) && (po_vout prev =? UINT32_MAX) then None
      else match ParseTx raw with
           | None => None
           | Some parent =>
               if negb (bytes_eqb (wt_txid parent) (po_txid prev)) then None
               else match btc_outputs parent !! Z.to_nat (po_vout prev) with
                    | None => None
                    | Some spent =>
                        if UINT64_MAX - bo_value spent <? total then None
                        else match read_spent prevs' parents' (total + bo_value spent) with
                             | Some (outs, sum) => Some (spent :: outs, sum)
                             | None => None
                             end
                    end
           end
  | _, _ => Some ([], total)
  end.

Definition ReadInputFacts (tx : bytes) (parents : list bytes) : option InputFacts :=
  match ParseReserveTx tx with
  | None => None
  | Some spend =>
      let prevs := prevouts spend in
      if negb (length prevs =? length parents)%nat || (size prevs =? 0) || (MAX_DIRECT_INPUTS <? size prevs) then None
      else match read_spent prevs parents 0 with
           | Some (outs, total) => Some (mkFacts prevs outs total)
           | None => None
           end
  end.

Fixpoint sum_outputs (outputs : list BtcTxOut) (total : Z) : option Z :=
  match outputs with
  | [] => Some total
  | o :: outputs' => if UINT64_MAX - bo_value o <? total then None else sum_outputs outputs' (total + bo_value o)
  end.
Definition SumOutputs (outputs : list BtcTxOut) : option Z := sum_outputs outputs 0.

(** The counters over the outputs: markers, null data, custody outputs. *)
Record OutputScan := mkScan {
  auth_count : Z; null_data_count : Z; auth : AuthMarker; custody_count : Z; custody_vout : Z; custody_value : Z }.

Section Spend.
Context (custody_spk : bytes) (valid_recipient : bytes -> bool).

Fixpoint scan_outputs (i : Z) (outputs : list BtcTxOut) (s : OutputScan) : OutputScan :=
  match outputs with
  | [] => s
  | o :: outputs' =>
      let null := if negb (size (spk o) =? 0) && (nth 0 (spk o) 0 =? 0x6a) then null_data_count s + 1 else null_data_count s in
      let '(ac, au) := match ParseAuthMarker o with
                       | Some m => (auth_count s + 1, m)
                       | None => (auth_count s, auth s)
                       end in
      scan_outputs (i + 1) outputs'
        (if bytes_eqb (spk o) custody_spk then mkScan ac null au (custody_count s + 1) (u32 i) (bo_value o)
         else mkScan ac null au (custody_count s) (custody_vout s) (custody_value s))
  end.
Definition scan (outputs : list BtcTxOut) : OutputScan := scan_outputs 0 outputs (mkScan 0 0 NoMarker 0 NO_VOUT 0).

(** The inputs that spend the reserve, the other custody inputs, and the index of the last
    reserve input; [None] when a reserve input does not spend what the state records. *)
Fixpoint scan_inputs (s : State) (live : bool) (i : nat) (prevs : list BtcPrevout) (spent : list BtcTxOut)
    (current other : Z) (index : option nat) : option (Z * Z * option nat) :=
  match prevs, spent with
  | prev :: prevs', out :: spent' =>
      if live && bytes_eqb (po_txid prev) (reserve_txid s) && (po_vout prev =? reserve_vout s) then
        if negb (bytes_eqb (spk out) custody_spk) || negb (bo_value out =? reserve_value_sats s) then None
        else scan_inputs s live (S i) prevs' spent' (current + 1) other (Some i)
      else if bytes_eqb (spk out) custody_spk then scan_inputs s live (S i) prevs' spent' current (other + 1) index
      else scan_inputs s live (S i) prevs' spent' current other index
  | _, _ => Some (current, other, index)
  end.

(** ** The classifier *)

Record PayoutContext := mkPayout {
  present : bool; request_id : Hash256; request_commitment : Hash256; principal_sats : Z; destination_spk : bytes }.
Definition NoPayout : PayoutContext := mkPayout false ZeroHash ZeroHash 0 [].

Inductive SpendDisposition := NOT_CURRENT_RESERVE | AUTHORIZED_TRANSITION | UNAUTHORIZED_SPEND.

#[global] Instance SpendDisposition_eq_dec : EqDecision SpendDisposition.
Proof. solve_decision. Defined.

Record SpendClassification := mkClass {
  disposition : SpendDisposition; sc_operation : Operation; sc_bitcoin_txid : Hash256; sc_new_reserve_txid : Hash256;
  sc_new_reserve_vout : Z; sc_new_reserve_value : Z; sc_exact_commitment : Hash256; sc_mint_amount : Z;
  sc_recipient : bytes; sc_pending_outpoint : bytes; sc_payout : PayoutContext }.

Definition NoClass : SpendClassification :=
  mkClass UNAUTHORIZED_SPEND FREEZE ZeroHash ZeroHash NO_VOUT 0 ZeroHash 0 [] [] NoPayout.

Definition with_disposition (o : SpendClassification) (d : SpendDisposition) : SpendClassification :=
  mkClass d (sc_operation o) (sc_bitcoin_txid o) (sc_new_reserve_txid o) (sc_new_reserve_vout o)
    (sc_new_reserve_value o) (sc_exact_commitment o) (sc_mint_amount o) (sc_recipient o) (sc_pending_outpoint o) (sc_payout o).
Definition with_exact (o : SpendClassification) (h : Hash256) : SpendClassification :=
  mkClass (disposition o) (sc_operation o) (sc_bitcoin_txid o) (sc_new_reserve_txid o) (sc_new_reserve_vout o)
    (sc_new_reserve_value o) h (sc_mint_amount o) (sc_recipient o) (sc_pending_outpoint o) (sc_payout o).
Definition with_recipient (o : SpendClassification) (r : bytes) : SpendClassification :=
  mkClass (disposition o) (sc_operation o) (sc_bitcoin_txid o) (sc_new_reserve_txid o) (sc_new_reserve_vout o)
    (sc_new_reserve_value o) (sc_exact_commitment o) (sc_mint_amount o) r (sc_pending_outpoint o) (sc_payout o).
Definition with_pending (o : SpendClassification) (p : bytes) : SpendClassification :=
  mkClass (disposition o) (sc_operation o) (sc_bitcoin_txid o) (sc_new_reserve_txid o) (sc_new_reserve_vout o)
    (sc_new_reserve_value o) (sc_exact_commitment o) (sc_mint_amount o) (sc_recipient o) p (sc_payout o).
Definition with_payout (o : SpendClassification) (p : PayoutContext) : SpendClassification :=
  mkClass (disposition o) (sc_operation o) (sc_bitcoin_txid o) (sc_new_reserve_txid o) (sc_new_reserve_vout o)
    (sc_new_reserve_value o) (sc_exact_commitment o) (sc_mint_amount o) (sc_recipient o) (sc_pending_outpoint o) p.
(** The successor is the transaction's custody output. *)
Definition with_successor (o : SpendClassification) (s : OutputScan) : SpendClassification :=
  mkClass (disposition o) (sc_operation o) (sc_bitcoin_txid o) (sc_bitcoin_txid o) (custody_vout s)
    (custody_value s) (sc_exact_commitment o) (sc_mint_amount o) (sc_recipient o) (sc_pending_outpoint o) (sc_payout o).

(** How many outputs of a transaction pay the custody script. *)
Definition custody_outputs (outputs : list BtcTxOut) : Z :=
  foldl (fun n o => if bytes_eqb (spk o) custody_spk then n + 1 else n) 0 outputs.

(** An output a deposit may have: the successor or its zero-value marker. *)
Definition deposit_output (o : BtcTxOut) : bool :=
  bytes_eqb (spk o) custody_spk
  || ((bo_value o =? 0) && match ParseAuthMarker o with Some _ => true | None => false end).

(** What is paid to a script: the number of outputs and the value of the last. *)
Definition paid_to (dest : bytes) (outputs : list BtcTxOut) : Z * Z :=
  foldl (fun a o => if (bo_value o >? 0) && bytes_eqb (spk o) dest then (a.1 + 1, bo_value o) else a) (0, 0) outputs.

(** The branch for an empty reserve: only an opening is authorized. *)
Definition classify_open (o : SpendClassification) (sc : OutputScan) (current other : Z) : SpendClassification :=
  let o := with_recipient o (open_recipient (auth sc)) in
  if bool_decide (au_operation (auth sc) <> OPEN) || negb (current =? 0) || negb (other =? 0)
     || negb (custody_count sc =? 1) || (custody_value sc =? 0) || (BTCVELD_SPV_MAX_CUSTODY_SATS <? custody_value sc)
     || (custody_value sc <? au_mint_amount (auth sc)) || (size (sc_recipient o) =? 0)
     || negb (valid_recipient (sc_recipient o)) || negb (size (sc_recipient o) =? OPEN_AUTH_RECIPIENT_BYTES) then o
  else
    let o := with_exact o (OpenDepositCommitment (custody_vout sc) (custody_value sc) (sc_recipient o)) in
    let o := with_pending (with_successor o sc) (BtcDepositOutpointId (sc_bitcoin_txid o) (custody_vout sc)) in
    with_disposition o AUTHORIZED_TRANSITION.

Definition classify_deposit (s : State) (o : SpendClassification) (sc : OutputScan) (f : InputFacts)
    (parents : list bytes) (outputs : list BtcTxOut) (other : Z) (index : nat) : SpendClassification * bool :=
  if negb (size (f_prevouts f) =? 2) || negb (other =? 1) || negb (custody_count sc =? 1)
     || (custody_value sc <=? reserve_value_sats s) || (BTCVELD_SPV_MAX_CUSTODY_SATS <? custody_value sc) then (o, false)
  else
    let pending := if (index =? 0)%nat then 1%nat else 0%nat in
    match ParseTx (nth pending parents []) with
    | None => (o, false)
    | Some parent =>
        let '(found, r) := ExtractRecipient (btc_outputs parent) in
        let o := with_recipient o r in
        if negb found || negb (valid_recipient r) then (o, false)
        else match f_prevouts f !! pending, spent_outputs f !! pending with
             | Some prev, Some spent =>
                 let increase := custody_value sc - reserve_value_sats s in
                 if negb (custody_outputs (btc_outputs parent) =? 1) || (bo_value spent <? increase)
                    || (increase <? au_mint_amount (auth sc))
                    || negb (bytes_eqb (au_exact_commitment (auth sc))
                               (PendingDepositCommitment (po_txid prev) (po_vout prev) (bo_value spent) r)) then (o, false)
                 else if negb (forallb deposit_output outputs) then (o, false)
                 else (with_pending (with_successor o sc) (BtcDepositOutpointId (po_txid prev) (po_vout prev)), true)
             | _, _ => (o, false)
             end
    end.

Definition classify_rollover (s : State) (o : SpendClassification) (sc : OutputScan) (other : Z) : SpendClassification * bool :=
  if negb (other =? 0) || negb (custody_count sc =? 1) || negb (custody_value sc =? reserve_value_sats s)
     || negb (au_mint_amount (auth sc) =? 0) || negb (HashIsZero (au_exact_commitment (auth sc))) then (o, false)
  else (with_successor o sc, true).

Definition classify_payout (lookup : Hash256 -> option PayoutContext) (s : State) (o : SpendClassification)
    (sc : OutputScan) (f : InputFacts) (outputs : list BtcTxOut) (other : Z) : SpendClassification * bool :=
  match lookup (au_exact_commitment (auth sc)) with
  | None => (o, false)
  | Some p =>
      let o := with_payout o p in
      if negb (present p) || (principal_sats p =? 0) || (size (destination_spk p) =? 0) || negb (other =? 0)
         || (size (f_prevouts f) <? 2) || negb (au_mint_amount (auth sc) =? 0)
         || (open_redemption_principal s <? principal_sats p) || (reserve_value_sats s <? principal_sats p) then (o, false)
      else
        let '(count, paid) := paid_to (destination_spk p) outputs in
        let successor := reserve_value_sats s - principal_sats p in
        if negb (count =? 1) || negb (paid =? principal_sats p)
           || ((successor =? 0) && negb (custody_count sc =? 0))
           || (negb (successor =? 0) && (negb (custody_count sc =? 1) || negb (custody_value sc =? successor))) then (o, false)
        else (if negb (successor =? 0) then with_successor o sc else o, true)
  end.

Definition classify_close (s : State) (circulating_supply : Z) (o : SpendClassification) (sc : OutputScan) (other : Z)
  : SpendClassification * bool :=
  if negb (other =? 0) || negb (custody_count sc =? 0) || negb (au_mint_amount (auth sc) =? 0)
     || negb (HashIsZero (au_exact_commitment (auth sc))) || negb (circulating_supply =? 0)
     || negb (open_redemption_principal s =? 0) || negb (reserve_value_sats s =? surplus_sats s) then (o, false)
  else (o, true).

Definition ClassifyBitcoinReserveSpend (s : State) (circulating_supply : Z) (tx : bytes) (parents : list bytes)
    (lookup : Hash256 -> option PayoutContext) : SpendClassification :=
  if negb (Canonical s) || (size custody_spk =? 0) || negb (AccountingHolds s circulating_supply) then NoClass
  else match ParseReserveTx tx, ReadInputFacts tx parents with
  | Some parsed, Some f =>
      let outputs := btc_outputs parsed in
      match SumOutputs outputs with
      | None => NoClass
      | Some output_total =>
          if input_total f <? output_total then NoClass
          else
            let o := mkClass UNAUTHORIZED_SPEND FREEZE (wt_txid parsed) ZeroHash NO_VOUT 0 ZeroHash 0 [] [] NoPayout in
            let sc := scan outputs in
            match scan_inputs s (bool_decide (status s <> EMPTY)) 0 (f_prevouts f) (spent_outputs f) 0 0 None with
            | None => o
            | Some (current, other, index) =>
                if bool_decide (status s = FROZEN) then with_disposition o NOT_CURRENT_RESERVE
                else
                  let o := if bool_decide (status s = EMPTY) then with_disposition o NOT_CURRENT_RESERVE else o in
                  if bool_decide (status s = ACTIVE) && (current =? 0) then with_disposition o NOT_CURRENT_RESERVE
                  else if negb (auth_count sc =? 1) || negb (null_data_count sc =? 1)
                          || negb (bytes_eqb (au_prior_commitment (auth sc)) (transition_commitment s)) then o
                  else
                    let o := mkClass (disposition o) (au_operation (auth sc)) (sc_bitcoin_txid o) (sc_new_reserve_txid o)
                               (sc_new_reserve_vout o) (sc_new_reserve_value o) (sc_exact_commitment o)
                               (au_mint_amount (auth sc)) (sc_recipient o) (sc_pending_outpoint o) (sc_payout o) in
                    if bool_decide (status s = EMPTY) then classify_open o sc current other
                    else match index with
                         | None => o
                         | Some i =>
                             if negb (current =? 1) || bool_decide (au_operation (auth sc) = OPEN)
                                || bool_decide (au_operation (auth sc) = FREEZE) then o
                             else
                               let o := with_exact o (au_exact_commitment (auth sc)) in
                               let '(o, ok) := match au_operation (auth sc) with
                                               | DEPOSIT => classify_deposit s o sc f parents outputs other i
                                               | ROLLOVER => classify_rollover s o sc other
                                               | PAYOUT => classify_payout lookup s o sc f outputs other
                                               | CLOSE => classify_close s circulating_supply o sc other
                                               | _ => (o, false)
                                               end in
                               if ok then with_disposition o AUTHORIZED_TRANSITION else o
                         end
            end
      end
  | _, _ => NoClass
  end.

(** ** The verifier *)

(** The statuses in which an operation may be proven. *)
Definition operation_allowed (s : State) (op : Operation) : bool :=
  negb ((bool_decide (status s = EMPTY) && bool_decide (op <> OPEN))
        || (bool_decide (status s = ACTIVE) && bool_decide (op = OPEN)) || bool_decide (status s = FROZEN)).

(** The lookup [Verify] gives the classifier: the one context it was called with. *)
Definition lookup_of (payout : PayoutContext) (commitment : Hash256) : option PayoutContext :=
  if negb (present payout) || negb (bytes_eqb (request_commitment payout) commitment) then None else Some payout.

Definition claim_matches (c : Claim) (k : SpendClassification) : bool :=
  bool_decide (disposition k = AUTHORIZED_TRANSITION) && bool_decide (sc_operation k = operation c)
  && bytes_eqb (sc_bitcoin_txid k) (bitcoin_txid c) && bytes_eqb (sc_new_reserve_txid k) (new_reserve_txid c)
  && (sc_new_reserve_vout k =? new_reserve_vout c) && (sc_new_reserve_value k =? new_reserve_value c)
  && bytes_eqb (sc_exact_commitment k) (exact_commitment c) && (sc_mint_amount k =? mint_amount c).

(** The marker must repeat the claim. *)
Definition marker_matches (c : Claim) (k : SpendClassification) (sc : OutputScan) : bool :=
  (auth_count sc =? 1) && (null_data_count sc =? 1) && bool_decide (au_operation (auth sc) = operation c)
  && bytes_eqb (au_prior_commitment (auth sc)) (prior_commitment c)
  && (if bool_decide (operation c = OPEN) then bytes_eqb (open_recipient (auth sc)) (sc_recipient k)
      else bytes_eqb (au_exact_commitment (auth sc)) (exact_commitment c))
  && (au_mint_amount (auth sc) =? mint_amount c).

(** The successor must be the transaction's only custody output, or absent. *)
Definition successor_matches (c : Claim) (txid : Hash256) (sc : OutputScan) : bool :=
  let expected := bool_decide (operation c <> CLOSE)
                  && negb (bool_decide (operation c = PAYOUT) && (new_reserve_vout c =? NO_VOUT)) in
  if expected then
    (custody_count sc =? 1) && bytes_eqb (new_reserve_txid c) txid && (new_reserve_vout c =? custody_vout sc)
    && (new_reserve_value c =? custody_value sc) && negb (new_reserve_vout c =? NO_VOUT) && negb (new_reserve_value c =? 0)
  else (custody_count sc =? 0) && HashIsZero (new_reserve_txid c) && (new_reserve_vout c =? NO_VOUT)
       && (new_reserve_value c =? 0).

(** A result with no payout. *)
Definition deposit_result (c : Claim) (r outpoint : bytes) (value : Z) : Result :=
  mkResult c r outpoint value ZeroHash 0 [] false.

Definition verify_open (c : Claim) (k : SpendClassification) (txid : Hash256) (current other : Z) : option Result :=
  let r := sc_recipient k in
  if negb (current =? 0) || negb (other =? 0) || negb (prior_reserve_vout c =? NO_VOUT)
     || negb (HashIsZero (prior_reserve_txid c)) || negb (prior_reserve_value c =? 0)
     || (BTCVELD_SPV_MAX_CUSTODY_SATS <? new_reserve_value c) || (new_reserve_value c <? mint_amount c)
     || negb (has_nullifier_proof c) || (size r =? 0) || negb (valid_recipient r)
     || negb (bytes_eqb (exact_commitment c) (OpenDepositCommitment (new_reserve_vout c) (new_reserve_value c) r)) then None
  else Some (deposit_result c r (BtcDepositOutpointId txid (new_reserve_vout c)) (new_reserve_value c)).

Definition verify_deposit (s : State) (c : Claim) (f : InputFacts) (outputs : list BtcTxOut) (other : Z) (index : nat)
  : option Result :=
  if negb (size (f_prevouts f) =? 2) || negb (other =? 1) || (new_reserve_value c <=? reserve_value_sats s)
     || (BTCVELD_SPV_MAX_CUSTODY_SATS <? new_reserve_value c) || negb (has_nullifier_proof c) then None
  else
    let pending := if (index =? 0)%nat then 1%nat else 0%nat in
    match ParseTx (nth pending (direct_parents c) []) with
    | None => None
    | Some parent =>
        let '(found, r) := ExtractRecipient (btc_outputs parent) in
        if negb found || negb (valid_recipient r) then None
        else match f_prevouts f !! pending, spent_outputs f !! pending with
             | Some prev, Some spent =>
                 let increase := new_reserve_value c - reserve_value_sats s in
                 if negb (custody_outputs (btc_outputs parent) =? 1) || (bo_value spent <? increase)
                    || (increase <? mint_amount c)
                    || negb (bytes_eqb (exact_commitment c)
                               (PendingDepositCommitment (po_txid prev) (po_vout prev) (bo_value spent) r)) then None
                 else if negb (forallb deposit_output outputs) then None
                 else Some (deposit_result c r (BtcDepositOutpointId (po_txid prev) (po_vout prev)) (bo_value spent))
             | _, _ => None
             end
    end.

Definition verify_rollover (s : State) (c : Claim) (other : Z) : option Result :=
  if negb (other =? 0) || negb (new_reserve_value c =? reserve_value_sats s) || negb (mint_amount c =? 0)
     || negb (HashIsZero (exact_commitment c)) || has_nullifier_proof c then None
  else Some (deposit_result c [] [] 0).

Definition verify_payout (s : State) (c : Claim) (f : InputFacts) (outputs : list BtcTxOut) (other : Z)
    (payout : PayoutContext) : option Result :=
  if negb (present payout) || (principal_sats payout =? 0) || (size (destination_spk payout) =? 0) || negb (other =? 0)
     || (size (f_prevouts f) <? 2) || negb (mint_amount c =? 0) || has_nullifier_proof c
     || negb (bytes_eqb (exact_commitment c) (request_commitment payout))
     || (reserve_value_sats s <? principal_sats payout) then None
  else
    let '(count, paid) := paid_to (destination_spk payout) outputs in
    let expected_successor := reserve_value_sats s - principal_sats payout in
    let term := expected_successor =? 0 in
    if negb (count =? 1) || negb (paid =? principal_sats payout) || negb (new_reserve_value c =? expected_successor)
       || negb (Bool.eqb term (new_reserve_vout c =? NO_VOUT)) then None
    else Some (mkResult c [] [] 0 (request_id payout) (principal_sats payout) (destination_spk payout) term).

Definition verify_close (c : Claim) (other : Z) : option Result :=
  if negb (other =? 0) || negb (mint_amount c =? 0) || negb (HashIsZero (exact_commitment c)) || has_nullifier_proof c
  then None
  else Some (mkResult c [] [] 0 ZeroHash 0 [] true).

(** The facts [Verify] reads again after the classifier. *)
Definition verify_facts (s : State) (c : Claim) (k : SpendClassification) (parsed : WitnessAwareBtcTx)
    (payout : PayoutContext) : option Result :=
  let outputs := btc_outputs parsed in
  match ReadInputFacts (bitcoin_tx c) (direct_parents c), SumOutputs outputs with
  | Some f, Some output_total =>
      if input_total f <? output_total then None
      else
        let sc := scan outputs in
        if bool_decide (operation c = FREEZE) then None
        else if negb (marker_matches c k sc) then None
        else match scan_inputs s (bool_decide (status s = ACTIVE)) 0 (f_prevouts f) (spent_outputs f) 0 0 None with
             | None => None
             | Some (current, other, index) =>
                 if negb (successor_matches c (wt_txid parsed) sc) then None
                 else if bool_decide (operation c = OPEN) then verify_open c k (wt_txid parsed) current other
                 else match index with
                      | None => None
                      | Some i =>
                          if negb (current =? 1) then None
                          else match operation c with
                               | DEPOSIT => verify_deposit s c f outputs other i
                               | ROLLOVER => verify_rollover s c other
                               | PAYOUT => verify_payout s c f outputs other payout
                               | CLOSE => verify_close c other
                               | _ => Some (deposit_result c [] [] 0)
                               end
                      end
             end
  | _, _ => None
  end.

Definition Verify (cfg : BtcHeaderChain.Config) (headers : BtcHeaderChain.t) (s : State)
    (circulating_supply : Z) (payload : bytes) (finality_depth : Z) (payout : PayoutContext) : option Result :=
  match DecodeProof payload with
  | None => None
  | Some c =>
      if negb (Canonical s) || (size custody_spk =? 0) || negb (MatchesPrior s c) then None
      else if negb (operation_allowed s (operation c)) then None
      else match ParseReserveTx (bitcoin_tx c) with
           | None => None
           | Some parsed =>
               if negb (bytes_eqb (bitcoin_txid c) (wt_txid parsed))
                  || negb (BtcHeaderChain.VerifyMerkle headers (bitcoin_block c) (wt_txid parsed) (merkle_branch c)
                             (merkle_directions c))
                  || negb (BtcHeaderChain.IsFinalForExternalValue cfg headers (bitcoin_block c) finality_depth) then None
               else
                 let k := ClassifyBitcoinReserveSpend s circulating_supply (bitcoin_tx c) (direct_parents c) (lookup_of payout) in
                 if negb (claim_matches c k) then None else verify_facts s c k parsed payout
           end
  end.

End Spend.
