(* ===== verification/ReserveProofRules.v ===== *)
(** * Rules of reserve proofs

    What the scans of inputs and outputs find, what an authorized classification and an
    accepted proof say about the Bitcoin transaction, and the wire forms. *)
From S2P Require Import Prelude Limbs Bytes Sha256 StateDigest MintNullifier Profile Transaction Address.
From S2P Require Import BtcHeaderChain BtcTx Reserve ReserveProof.

#[local] Opaque sha256 sha256_domain NetworkBinding.

(** ** Scans *)

Ltac scan_step IH :=
  match goal with |- context [scan_outputs _ ?n ?l ?x] => pose proof (IH n x) as H; set (r := scan_outputs _ n l x) in * end.

Section Scans.
Context (custody_spk : bytes).

(** The custody output found is in the list, and it is the only one when one is counted. *)
Lemma scan_custody i outs s :
  let r := scan_outputs custody_spk i outs s in
  (custody_count r = custody_count s /\ custody_vout r = custody_vout s /\ custody_value r = custody_value s
   /\ Forall (fun o => spk o <> custody_spk) outs)
  \/ (custody_count s < custody_count r /\ exists j o, outs !! j = Some o /\ spk o = custody_spk
      /\ custody_vout r = u32 (i + Z.of_nat j) /\ custody_value r = bo_value o
      /\ (custody_count r = custody_count s + 1 ->
          forall j' o', outs !! j' = Some o' -> spk o' = custody_spk -> j' = j)).
Proof.
  cbv zeta. revert i s. induction outs as [|o outs IH]; intros i s; [left; auto|]. cbn [scan_outputs].
  destruct (ParseAuthMarker o) as [m|]; cbn [fst snd].
  all: scan_step IH.
  all: destruct (bytes_eqb (spk o) custody_spk) eqn:E; cbn [custody_count custody_vout custody_value] in H;
       [apply bytes_eqb_eq in E|apply bytes_eqb_false in E].
  all: destruct H as [(Hc & Hv & Hw & Hn)|(Hc & j & o' & Hj & Ho & Hv & Hw & Hu)].
  all: try (left; split_and!; [done..|by constructor]).
  all: right; split; [lia|].
  all: try (exists 0%nat, o; replace (i + Z.of_nat 0) with i by lia; split_and!; [done..|];
            intros _ [|j'] o'' Hj' Ho''; [done|]; cbn [lookup list_lookup] in Hj';
            rewrite Forall_lookup in Hn; by destruct (Hn _ _ Hj')).
  all: exists (S j), o'; rewrite Hv; split_and!; [done|done|f_equal; lia|done|].
  1,3: intros; lia.
  all: intros H1 [|j'] o'' Hj' Ho''; [cbn in Hj'; injection Hj' as <-; done|]; f_equal; by eapply Hu.
Qed.

(** The marker found is one of the outputs'. *)
Lemma scan_auth i outs s :
  let r := scan_outputs custody_spk i outs s in
  (auth_count r = auth_count s /\ auth r = auth s)
  \/ (auth_count s < auth_count r /\ exists j o, outs !! j = Some o /\ ParseAuthMarker o = Some (auth r)).
Proof.
  cbv zeta. revert i s. induction outs as [|o outs IH]; intros i s; [left; auto|]. cbn [scan_outputs].
  destruct (ParseAuthMarker o) as [m|] eqn:Em; cbn [fst snd].
  all: scan_step IH.
  all: destruct (bytes_eqb (spk o) custody_spk); cbn [auth_count auth] in H.
  all: destruct H as [(Hc & Ha)|(Hc & j & o' & Hj & Ho)].
  all: try (left; done).
  all: right; split; [lia|].
  all: try (exists (S j), o'; done).
  all: exists 0%nat, o; split; [done|congruence].
Qed.

(** One custody output: its index, its value, and no other. *)
Lemma scan_one outs :
  custody_count (scan custody_spk outs) = 1 ->
  exists j o, outs !! j = Some o /\ spk o = custody_spk /\ custody_vout (scan custody_spk outs) = u32 (Z.of_nat j)
  /\ custody_value (scan custody_spk outs) = bo_value o
  /\ forall j' o', outs !! j' = Some o' -> spk o' = custody_spk -> j' = j.
Proof.
  unfold scan. intros H1. pose proof (scan_custody 0 outs (mkScan 0 0 NoMarker 0 NO_VOUT 0)) as H. cbv zeta in H.
  set (r := scan_outputs _ _ _ _) in *. cbn [custody_count] in H.
  destruct H as [(Hc & _)|(_ & j & o & Hj & Ho & Hv & Hw & Hu)]; [lia|].
  exists j, o. split_and!; [done..|by apply Hu].
Qed.

Lemma scan_none outs : custody_count (scan custody_spk outs) = 0 -> Forall (fun o => spk o <> custody_spk) outs.
Proof.
  unfold scan. intros H1. pose proof (scan_custody 0 outs (mkScan 0 0 NoMarker 0 NO_VOUT 0)) as H. cbv zeta in H.
  set (r := scan_outputs _ _ _ _) in *. cbn [custody_count] in H. destruct H as [(_ & _ & _ & Hn)|(Hc & _)]; [done|lia].
Qed.

Lemma scan_marker outs :
  auth_count (scan custody_spk outs) = 1 -> exists o, o ∈ outs /\ ParseAuthMarker o = Some (auth (scan custody_spk outs)).
Proof.
  unfold scan. intros H1. pose proof (scan_auth 0 outs (mkScan 0 0 NoMarker 0 NO_VOUT 0)) as H. cbv zeta in H.
  set (r := scan_outputs _ _ _ _) in *. cbn [auth_count] in H. destruct H as [(Hc & _)|(_ & j & o & Hj & Ho)]; [lia|].
  exists o. split; [by eapply list_elem_of_lookup_2|done].
Qed.

(** The reserve input found spends the recorded output. *)
Lemma scan_inputs_current s live i prevs spent cur oth idx c o k :
  scan_inputs custody_spk s live i prevs spent cur oth idx = Some (c, o, Some k) ->
  idx = Some k \/ exists j p out, (k = i + j)%nat /\ prevs !! j = Some p /\ spent !! j = Some out
    /\ po_txid p = reserve_txid s /\ po_vout p = reserve_vout s /\ spk out = custody_spk
    /\ bo_value out = reserve_value_sats s.
Proof.
  revert i spent cur oth idx. induction prevs as [|p prevs IH]; intros i spent cur oth idx; cbn [scan_inputs].
  { intros [= _ _ ->]. by left. }
  destruct spent as [|out spent]; [intros [= _ _ ->]; by left|].
  destruct (live && bytes_eqb (po_txid p) (reserve_txid s) && (po_vout p =? reserve_vout s)) eqn:El.
  - apply andb_true_iff in El as [El Ev%Z.eqb_eq]. apply andb_true_iff in El as [_ Et%bytes_eqb_eq].
    destruct (bytes_eqb (spk out) custody_spk) eqn:Es; cbn [negb orb]; [|done].
    destruct (Z.eqb_spec (bo_value out) (reserve_value_sats s)) as [Ew|]; cbn [negb]; [|done].
    intros [[= <-]|(j & p' & o' & -> & H)]%IH; right.
    + exists 0%nat, p, out. apply bytes_eqb_eq in Es. split_and!; [lia|done..].
    + exists (S j), p', o'. split; [lia|done].
  - destruct (bytes_eqb (spk out) custody_spk); intros [->|(j & p' & o' & -> & H)]%IH; [by left| |by left|];
      right; exists (S j), p', o'; (split; [lia|done]).
Qed.
End Scans.

Ltac prop_hyps :=
  bool_hyps;
  repeat match goal with
  | H : (_ =? _) = true |- _ => apply Z.eqb_eq in H
  | H : (_ =? _) = false |- _ => apply Z.eqb_neq in H
  | H : (_ <? _) = true |- _ => apply Z.ltb_lt in H
  | H : (_ <? _) = false |- _ => apply Z.ltb_ge in H
  | H : (_ <=? _) = true |- _ => apply Z.leb_le in H
  | H : (_ <=? _) = false |- _ => apply Z.leb_gt in H
  | H : bytes_eqb _ _ = true |- _ => apply bytes_eqb_eq in H
  end.

(** The test at the head of a definition that returns. *)
Ltac head_guard H :=
  match type of H with
  | (if ?b then _ else _) = _ => destruct b eqn:?; try discriminate H
  | match ?o with Some _ => _ | None => _ end = _ => destruct o eqn:?; try discriminate H
  end.

(** ** Authorized spends *)

Section Classified.
Context (custody_spk : bytes) (valid_recipient : bytes -> bool).

(** What each operation asks of the transaction, by the scan of its outputs. *)
Definition open_shape (k : SpendClassification) (sc : OutputScan) (current other : Z) : Prop :=
  current = 0 /\ other = 0 /\ custody_count sc = 1 /\ custody_value sc <> 0
  /\ custody_value sc <= BTCVELD_SPV_MAX_CUSTODY_SATS /\ au_mint_amount (auth sc) <= custody_value sc
  /\ sc_recipient k = open_recipient (auth sc) /\ size (sc_recipient k) = OPEN_AUTH_RECIPIENT_BYTES
  /\ valid_recipient (sc_recipient k) = true
  /\ sc_exact_commitment k = OpenDepositCommitment (custody_vout sc) (custody_value sc) (sc_recipient k)
  /\ sc_new_reserve_txid k = sc_bitcoin_txid k /\ sc_new_reserve_vout k = custody_vout sc
  /\ sc_new_reserve_value k = custody_value sc
  /\ sc_pending_outpoint k = BtcDepositOutpointId (sc_bitcoin_txid k) (custody_vout sc).

Definition deposit_shape (s : State) (k : SpendClassification) (sc : OutputScan) (f : InputFacts)
    (parents : list bytes) (outputs : list BtcTxOut) (other : Z) (index : nat) : Prop :=
  size (f_prevouts f) = 2 /\ other = 1 /\ custody_count sc = 1 /\ reserve_value_sats s < custody_value sc
  /\ custody_value sc <= BTCVELD_SPV_MAX_CUSTODY_SATS
  /\ (exists parent prev spent, let pending := if (index =? 0)%nat then 1%nat else 0%nat in
        ParseTx (nth pending parents []) = Some parent
        /\ ExtractRecipient (btc_outputs parent) = (true, sc_recipient k) /\ valid_recipient (sc_recipient k) = true
        /\ f_prevouts f !! pending = Some prev /\ spent_outputs f !! pending = Some spent
        /\ custody_outputs custody_spk (btc_outputs parent) = 1
        /\ custody_value sc - reserve_value_sats s <= bo_value spent
        /\ au_mint_amount (auth sc) <= custody_value sc - reserve_value_sats s
        /\ au_exact_commitment (auth sc)
           = PendingDepositCommitment (po_txid prev) (po_vout prev) (bo_value spent) (sc_recipient k)
        /\ sc_pending_outpoint k = BtcDepositOutpointId (po_txid prev) (po_vout prev))
  /\ forallb (deposit_output custody_spk) outputs = true
  /\ sc_new_reserve_txid k = sc_bitcoin_txid k /\ sc_new_reserve_vout k = custody_vout sc
  /\ sc_new_reserve_value k = custody_value sc.

Definition rollover_shape (s : State) (k : SpendClassification) (sc : OutputScan) (other : Z) : Prop :=
  other = 0 /\ custody_count sc = 1 /\ custody_value sc = reserve_value_sats s /\ au_mint_amount (auth sc) = 0
  /\ HashIsZero (au_exact_commitment (auth sc)) = true /\ sc_recipient k = [] /\ sc_pending_outpoint k = []
  /\ sc_new_reserve_txid k = sc_bitcoin_txid k /\ sc_new_reserve_vout k = custody_vout sc
  /\ sc_new_reserve_value k = custody_value sc.

Definition payout_shape (lookup : Hash256 -> option PayoutContext) (s : State) (k : SpendClassification)
    (sc : OutputScan) (f : InputFacts) (outputs : list BtcTxOut) (other : Z) : Prop :=
  exists p, lookup (au_exact_commitment (auth sc)) = Some p /\ sc_payout k = p /\ present p = true
  /\ principal_sats p <> 0 /\ size (destination_spk p) <> 0 /\ other = 0 /\ 2 <= size (f_prevouts f)
  /\ au_mint_amount (auth sc) = 0 /\ principal_sats p <= open_redemption_principal s
  /\ principal_sats p <= reserve_value_sats s /\ paid_to (destination_spk p) outputs = (1, principal_sats p)
  /\ sc_recipient k = [] /\ sc_pending_outpoint k = []
  /\ ((reserve_value_sats s = principal_sats p /\ custody_count sc = 0 /\ sc_new_reserve_txid k = ZeroHash
       /\ sc_new_reserve_vout k = NO_VOUT /\ sc_new_reserve_value k = 0)
      \/ (reserve_value_sats s <> principal_sats p /\ custody_count sc = 1
          /\ custody_value sc = reserve_value_sats s - principal_sats p
          /\ sc_new_reserve_txid k = sc_bitcoin_txid k /\ sc_new_reserve_vout k = custody_vout sc
          /\ sc_new_reserve_value k = custody_value sc)).

Definition close_shape (s : State) (circulating_supply : Z) (k : SpendClassification) (sc : OutputScan) (other : Z) : Prop :=
  other = 0 /\ custody_count sc = 0 /\ au_mint_amount (auth sc) = 0 /\ HashIsZero (au_exact_commitment (auth sc)) = true
  /\ circulating_supply = 0 /\ open_redemption_principal s = 0 /\ reserve_value_sats s = surplus_sats s
  /\ sc_recipient k = [] /\ sc_pending_outpoint k = [] /\ sc_new_reserve_txid k = ZeroHash
  /\ sc_new_reserve_vout k = NO_VOUT /\ sc_new_reserve_value k = 0.

(** The facts behind an authorization. *)
Record authorized (s : State) (circulating_supply : Z) (tx : bytes) (parents : list bytes)
    (lookup : Hash256 -> option PayoutContext) (k : SpendClassification) (parsed : WitnessAwareBtcTx) (f : InputFacts)
    (total current other : Z) (index : option nat) : Prop := {
  az_tx : ParseReserveTx tx = Some parsed;
  az_facts : ReadInputFacts tx parents = Some f;
  az_total : SumOutputs (btc_outputs parsed) = Some total;
  az_conserved : total <= input_total f;
  az_account : AccountingHolds s circulating_supply = true;
  az_inputs : scan_inputs custody_spk s (bool_decide (status s <> EMPTY)) 0 (f_prevouts f) (spent_outputs f) 0 0 None
              = Some (current, other, index);
  az_auth : auth_count (scan custody_spk (btc_outputs parsed)) = 1;
  az_null : null_data_count (scan custody_spk (btc_outputs parsed)) = 1;
  az_prior : au_prior_commitment (auth (scan custody_spk (btc_outputs parsed))) = transition_commitment s;
  az_operation : sc_operation k = au_operation (auth (scan custody_spk (btc_outputs parsed)));
  az_mint : sc_mint_amount k = au_mint_amount (auth (scan custody_spk (btc_outputs parsed)));
  az_txid : sc_bitcoin_txid k = wt_txid parsed;
  az_shape :
    let sc := scan custody_spk (btc_outputs parsed) in
    (status s = EMPTY /\ au_operation (auth sc) = OPEN /\ open_shape k sc current other)
    \/ (status s = ACTIVE /\ current = 1 /\ sc_exact_commitment k = au_exact_commitment (auth sc)
        /\ exists i, index = Some i /\
           match au_operation (auth sc) with
           | DEPOSIT => deposit_shape s k sc f parents (btc_outputs parsed) other i
           | ROLLOVER => rollover_shape s k sc other
           | PAYOUT => payout_shape lookup s k sc f (btc_outputs parsed) other
           | CLOSE => close_shape s circulating_supply k sc other
           | _ => False
           end) }.

Lemma classify_open_inv o sc current other :
  disposition o <> AUTHORIZED_TRANSITION ->
  disposition (classify_open valid_recipient o sc current other) = AUTHORIZED_TRANSITION ->
  let k := classify_open valid_recipient o sc current other in
  au_operation (auth sc) = OPEN /\ open_shape k sc current other /\ sc_operation k = sc_operation o
  /\ sc_mint_amount k = sc_mint_amount o /\ sc_bitcoin_txid k = sc_bitcoin_txid o.
Proof.
  intros Hd. unfold classify_open. cbv zeta.
  match goal with |- context [if ?b then _ else _] => destruct b eqn:E; [intros H; by destruct Hd|] end.
  intros _. unfold open_shape. cbn in *. prop_hyps.
  destruct (decide (au_operation (auth sc) = OPEN)); [|done]. split_and!; (done || lia).
Qed.

Lemma classify_deposit_inv s o sc f parents outputs other i k :
  classify_deposit custody_spk valid_recipient s o sc f parents outputs other i = (k, true) ->
  deposit_shape s k sc f parents outputs other i /\ sc_operation k = sc_operation o
  /\ sc_mint_amount k = sc_mint_amount o /\ sc_bitcoin_txid k = sc_bitcoin_txid o
  /\ sc_exact_commitment k = sc_exact_commitment o.
Proof.
  unfold classify_deposit, deposit_shape. cbv zeta. intros H. head_guard H.
  set (pending := if (i =? 0)%nat then 1%nat else 0%nat) in *. head_guard H.
  destruct (ExtractRecipient _) as [found r] eqn:Er. head_guard H. head_guard H. head_guard H. head_guard H. head_guard H.
  injection H as <-. cbn in *. prop_hyps. subst found.
  split_and!; try done; try lia. eexists _, _, _. split_and!; (eassumption || done || lia).
Qed.

Lemma classify_rollover_inv s o sc other k :
  classify_rollover s o sc other = (k, true) -> sc_recipient o = [] -> sc_pending_outpoint o = [] ->
  rollover_shape s k sc other /\ sc_operation k = sc_operation o
  /\ sc_mint_amount k = sc_mint_amount o /\ sc_bitcoin_txid k = sc_bitcoin_txid o
  /\ sc_exact_commitment k = sc_exact_commitment o.
Proof.
  unfold classify_rollover, rollover_shape. intros H ? ?. head_guard H. injection H as <-. cbn in *. prop_hyps.
  split_and!; (done || lia).
Qed.

Lemma classify_payout_inv lookup s o sc f outputs other k :
  classify_payout lookup s o sc f outputs other = (k, true) -> sc_recipient o = [] -> sc_pending_outpoint o = [] ->
  sc_new_reserve_txid o = ZeroHash -> sc_new_reserve_vout o = NO_VOUT -> sc_new_reserve_value o = 0 ->
  payout_shape lookup s k sc f outputs other /\ sc_operation k = sc_operation o
  /\ sc_mint_amount k = sc_mint_amount o /\ sc_bitcoin_txid k = sc_bitcoin_txid o
  /\ sc_exact_commitment k = sc_exact_commitment o.
Proof.
  unfold classify_payout, payout_shape. cbv zeta. intros H ? ? ? ? ?. head_guard H. head_guard H.
  destruct (paid_to _ _) as [count paid] eqn:Ep. head_guard H.
  injection H as <-. prop_hyps. subst count paid.
  destruct (Z.eqb_spec (reserve_value_sats s - principal_sats p) 0) as [Es|Es]; cbn in *; prop_hyps.
  - split_and!; try done. exists p. split_and!; try (done || lia). left. split_and!; (done || lia).
  - split_and!; try done. exists p. split_and!; try (done || lia). right. split_and!; (done || lia).
Qed.

Lemma classify_close_inv s supply o sc other k :
  classify_close s supply o sc other = (k, true) -> sc_recipient o = [] -> sc_pending_outpoint o = [] ->
  sc_new_reserve_txid o = ZeroHash -> sc_new_reserve_vout o = NO_VOUT -> sc_new_reserve_value o = 0 ->
  close_shape s supply k sc other /\ sc_operation k = sc_operation o
  /\ sc_mint_amount k = sc_mint_amount o /\ sc_bitcoin_txid k = sc_bitcoin_txid o
  /\ sc_exact_commitment k = sc_exact_commitment o.
Proof.
  unfold classify_close, close_shape. intros H ? ? ? ? ?. head_guard H. injection H as <-. prop_hyps.
  split_and!; (done || lia).
Qed.

Lemma refusals_keep_disposition lookup s supply o sc f parents outputs other i :
  disposition (classify_deposit custody_spk valid_recipient s o sc f parents outputs other i).1 = disposition o
  /\ disposition (classify_rollover s o sc other).1 = disposition o
  /\ disposition (classify_payout lookup s o sc f outputs other).1 = disposition o
  /\ disposition (classify_close s supply o sc other).1 = disposition o.
Proof.
  unfold classify_deposit, classify_rollover, classify_payout, classify_close. cbv zeta. split_and!.
  - destruct (_ || _ || _ || _ || _); [done|]. destruct (ParseTx _); [|done]. destruct (ExtractRecipient _) as [found r].
    destruct (_ || _); [done|]. destruct (_ !! _); [|done]. destruct (_ !! _); [|done]. destruct (_ || _ || _ || _); [done|].
    by destruct (negb _).
  - by destruct (_ || _ || _ || _ || _).
  - destruct (lookup _); [|done]. destruct (_ || _ || _ || _ || _ || _ || _ || _); [done|]. destruct (paid_to _ _).
    destruct (_ || _ || _ || _); [done|]. by destruct (negb _).
  - by destruct (_ || _ || _ || _ || _ || _ || _).
Qed.

(** An authorization rests on these facts. *)
Lemma classify_authorized s supply tx parents lookup :
  let k := ClassifyBitcoinReserveSpend custody_spk valid_recipient s supply tx parents lookup in
  disposition k = AUTHORIZED_TRANSITION ->
  exists parsed f total current other index, authorized s supply tx parents lookup k parsed f total current other index.
Proof.
  cbv zeta. unfold ClassifyBitcoinReserveSpend. destruct (_ || _ || _) eqn:E0; [done|]. prop_hyps.
  destruct (ParseReserveTx tx) as [parsed|] eqn:Ep; [|done]. destruct (ReadInputFacts tx parents) as [f|] eqn:Ef; [|done].
  destruct (SumOutputs _) as [total|] eqn:Et; [|done]. cbv zeta. destruct (Z.ltb_spec (input_total f) total); [done|].
  destruct (scan_inputs _ _ _ _ _ _ _ _ _) as [[[current other] index]|] eqn:Ei; [|done].
  destruct (bool_decide (status s = FROZEN)) eqn:Efr; [done|]. prop_hyps.
  set (o0 := mkClass UNAUTHORIZED_SPEND _ _ _ _ _ _ _ _ _ _).
  set (o1 := if bool_decide (status s = EMPTY) then with_disposition o0 NOT_CURRENT_RESERVE else o0).
  destruct (bool_decide (status s = ACTIVE) && (current =? 0)); [done|].
  assert (disposition o1 <> AUTHORIZED_TRANSITION) as Ho1
    by (intros Hx; unfold o1 in Hx; destruct (bool_decide (status s = EMPTY)); discriminate Hx).
  destruct (negb (auth_count _ =? 1) || _ || _) eqn:Ea; [by intros ?|]. prop_hyps.
  assert (sc_bitcoin_txid o1 = wt_txid parsed /\ sc_recipient o1 = [] /\ sc_pending_outpoint o1 = []
          /\ sc_new_reserve_txid o1 = ZeroHash /\ sc_new_reserve_vout o1 = NO_VOUT /\ sc_new_reserve_value o1 = 0) as Hf
    by (unfold o1; destruct (bool_decide (status s = EMPTY)); split_and!; reflexivity).
  destruct Hf as (Htx & Hr & Hp & Hn1 & Hn2 & Hn3). clearbody o1.
  set (o2 := mkClass (disposition o1) _ _ _ _ _ _ _ _ _ _).
  destruct (bool_decide (status s = EMPTY)) eqn:Ees; prop_hyps.
  { intros Hd. destruct (classify_open_inv o2 _ current other Ho1 Hd) as (Hop & Hsh & K1 & K2 & K3).
    exists parsed, f, total, current, other, index. split; first [exact K1|exact K2|exact (eq_trans K3 Htx)|left; done|assumption]. }
  destruct index as [i|]; [|by intros ?]. assert (status s = ACTIVE) as Hact by (destruct (status s); done).
  destruct (negb (current =? 1) || _ || _) eqn:Ec; [by intros ?|]. prop_hyps. set (o3 := with_exact o2 _).
  pose proof (refusals_keep_disposition lookup s supply o3 (scan custody_spk (btc_outputs parsed)) f parents
                (btc_outputs parsed) other i) as Hk.
  match goal with |- disposition (let '(o, ok) := ?m in _) = _ -> _ => destruct m as [k ok] eqn:Em end.
  assert (disposition k = disposition o3) as Hko.
  { destruct Hk as (K1 & K2 & K3 & K4). destruct (au_operation _); first [by injection Em as <- <-|by rewrite Em in *]. }
  destruct ok; [|intros Hd; rewrite Hd in Hko; by destruct Ho1].
  intros _. exists parsed, f, total, current, other, (Some i).
  assert ((match au_operation (auth (scan custody_spk (btc_outputs parsed))) with
           | DEPOSIT => deposit_shape s k (scan custody_spk (btc_outputs parsed)) f parents (btc_outputs parsed) other i
           | ROLLOVER => rollover_shape s k (scan custody_spk (btc_outputs parsed)) other
           | PAYOUT => payout_shape lookup s k (scan custody_spk (btc_outputs parsed)) f (btc_outputs parsed) other
           | CLOSE => close_shape s supply k (scan custody_spk (btc_outputs parsed)) other
           | _ => False
           end) /\ sc_operation k = sc_operation o3 /\ sc_mint_amount k = sc_mint_amount o3
          /\ sc_bitcoin_txid k = sc_bitcoin_txid o3 /\ sc_exact_commitment k = sc_exact_commitment o3) as (Hsh & J1 & J2 & J3 & J4).
  { destruct (au_operation _); try done.
    - by apply classify_deposit_inv in Em.
    - by apply classify_rollover_inv in Em.
    - by apply classify_payout_inv in Em.
    - by apply classify_close_inv in Em. }
  split; first [exact J1|exact J2|exact (eq_trans J3 Htx)|assumption|idtac].
  right. split; [assumption|]. split; [assumption|]. split; [exact J4|]. exists i. split; [reflexivity|exact Hsh].
Qed.

Lemma read_list_length {A} (r : reader A) n d xs rest : read_list n r d = Some (xs, rest) -> length xs = n.
Proof.
  revert d xs rest. induction n as [|n IH]; intros d xs rest; cbn [read_list]; unfold rbind, rret; [by intros [= <- _]|].
  destruct (r d) as [[a d1]|]; [|done]. destruct (read_list n r d1) as [[l d2]|] eqn:E; [|done]. intros [= <- _].
  cbn [length]. f_equal. by eapply IH.
Qed.

Lemma outputs_bound tx parsed : ParseReserveTx tx = Some parsed -> Z.of_nat (length (btc_outputs parsed)) <= 100000.
Proof.
  intros [_ (v & body & lock & _ & _ & _ & Hb)]%parse_inv. specialize (Hb []). revert Hb.
  unfold read_body, read_count, rbind, rret.
  destruct (ReadCanonicalVarint _) as [[vin d1]|]; [|done]. destruct (negb _); [|done].
  destruct (read_list _ _ d1) as [[ins d2]|]; [|done]. destruct (ReadCanonicalVarint d2) as [[vout d3]|]; [|done].
  destruct (negb ((vout =? 0) || (100000 <? vout))) eqn:Ev; [|done].
  destruct (read_list _ _ d3) as [[outs d4]|] eqn:E; [|done]. intros [= _ <- _].
  apply read_list_length in E. prop_hyps. lia.
Qed.

(** The successor's index is a real one. *)
Lemma successor_index tx parsed :
  ParseReserveTx tx = Some parsed -> custody_count (scan custody_spk (btc_outputs parsed)) = 1 ->
  exists j o, btc_outputs parsed !! j = Some o /\ spk o = custody_spk
  /\ custody_vout (scan custody_spk (btc_outputs parsed)) = Z.of_nat j /\ Z.of_nat j <> NO_VOUT
  /\ custody_value (scan custody_spk (btc_outputs parsed)) = bo_value o
  /\ forall j' o', btc_outputs parsed !! j' = Some o' -> spk o' = custody_spk -> j' = j.
Proof.
  intros Hp (j & o & Hj & Ho & Hv & Hw & Hu)%scan_one. pose proof (lookup_lt_Some _ _ _ Hj). pose proof (outputs_bound _ _ Hp).
  exists j, o. assert (u32 (Z.of_nat j) = Z.of_nat j) as <-; [|split_and!; try done].
  - unfold u32. apply Z.mod_small. lia.
  - unfold u32, NO_VOUT, UINT32_MAX. rewrite Z.mod_small by lia. lia.
Qed.

Lemma claim_matches_inv c k :
  claim_matches c k = true ->
  disposition k = AUTHORIZED_TRANSITION /\ sc_operation k = operation c /\ sc_bitcoin_txid k = bitcoin_txid c
  /\ sc_new_reserve_txid k = new_reserve_txid c /\ sc_new_reserve_vout k = new_reserve_vout c
  /\ sc_new_reserve_value k = new_reserve_value c /\ sc_exact_commitment k = exact_commitment c
  /\ sc_mint_amount k = mint_amount c.
Proof. unfold claim_matches. intros H. prop_hyps. done. Qed.

Lemma MatchesPrior_inv s c :
  MatchesPrior s c = true ->
  network_binding c = NetworkBinding /\ prior_commitment c = transition_commitment s /\ prior_reserve_txid c = reserve_txid s
  /\ prior_reserve_vout c = reserve_vout s /\ prior_reserve_value c = reserve_value_sats s
  /\ prior_transition_count c = transition_count s.
Proof. unfold MatchesPrior. intros H. prop_hyps. split_and!; assumption. Qed.

Lemma live_value s : Canonical s = true -> status s <> EMPTY -> reserve_value_sats s <> 0.
Proof.
  unfold Canonical, HasOutpoint. destruct (HashIsZero (transition_commitment s)); [done|].
  intros H Hs. rewrite (bool_decide_eq_false_2 (status s = EMPTY)) in H by done. prop_hyps. done.
Qed.

(** An empty reserve has no outpoint. *)
Lemma empty_outpoint s :
  Canonical s = true -> status s = EMPTY ->
  HashIsZero (reserve_txid s) = true /\ reserve_vout s = NO_VOUT /\ reserve_value_sats s = 0.
Proof.
  unfold Canonical. destruct (HashIsZero (transition_commitment s)); [done|].
  intros H Hs. rewrite (bool_decide_eq_true_2 (status s = EMPTY)) in H by done. prop_hyps. done.
Qed.

Ltac guards :=
  repeat match goal with
  | |- context [bool_decide ?P] => first [rewrite (bool_decide_eq_true_2 P) by (done || congruence)
                                         |rewrite (bool_decide_eq_false_2 P) by (done || congruence)]
  | |- context [bytes_eqb ?a ?b] => replace (bytes_eqb a b) with true by (symmetry; apply bytes_eqb_eq; congruence)
  | |- context [(?a =? ?b)] => first [rewrite (proj2 (Z.eqb_eq a b)) by (done || congruence || lia)
                                     |rewrite (proj2 (Z.eqb_neq a b)) by (done || congruence || lia)]
  | |- context [(?a <? ?b)] => rewrite (proj2 (Z.ltb_ge a b)) by lia
  | |- context [(?a <=? ?b)] => rewrite (proj2 (Z.leb_gt a b)) by lia
  end; cbn [negb andb orb].

(** What [Verify] computes from the transaction agrees with the classifier. *)
Definition agrees (c : Claim) (k : SpendClassification) (payout : PayoutContext) (r : Result) : Prop :=
  claim r = c /\ recipient r = sc_recipient k /\ pending_outpoint r = sc_pending_outpoint k
  /\ terminal r = (new_reserve_vout c =? NO_VOUT)
  /\ (operation c = PAYOUT -> payout_request_id r = request_id payout /\ payout_principal_sats r = principal_sats payout
      /\ payout_destination_spk r = destination_spk payout).

Section Facts.
Context (s : State) (supply : Z) (c : Claim) (k : SpendClassification) (payout : PayoutContext).
Context (parsed : WitnessAwareBtcTx) (f : InputFacts) (total current other : Z) (index : option nat).
Context (A : authorized s supply (bitcoin_tx c) (direct_parents c) (lookup_of payout) k parsed f total current other index).
Context (HC : Canonical s = true) (HP : MatchesPrior s c = true) (HM : claim_matches c k = true).
Context (HT : bitcoin_txid c = wt_txid parsed) (HV : 0 <= reserve_value_sats s).
Notation sc := (scan custody_spk (btc_outputs parsed)).

Lemma facts_operation : operation c = au_operation (auth sc) /\ operation c <> FREEZE.
Proof.
  destruct (claim_matches_inv _ _ HM) as (_ & E & _). pose proof (az_operation _ _ _ _ _ _ _ _ _ _ _ _ A) as E'.
  split; [congruence|]. destruct (az_shape _ _ _ _ _ _ _ _ _ _ _ _ A) as [(_ & Ho & _)|(_ & _ & _ & i & _ & H)].
  - congruence.
  - intros Ef. rewrite <- E', E, Ef in H. done.
Qed.

Lemma facts_marker : marker_matches c k sc = true.
Proof.
  destruct (claim_matches_inv _ _ HM) as (_ & Eo & _ & _ & _ & _ & Ee & Em).
  destruct (MatchesPrior_inv _ _ HP) as (_ & Ep & _). destruct facts_operation as [Ho _].
  pose proof (az_prior _ _ _ _ _ _ _ _ _ _ _ _ A). pose proof (az_mint _ _ _ _ _ _ _ _ _ _ _ _ A).
  unfold marker_matches. rewrite (az_auth _ _ _ _ _ _ _ _ _ _ _ _ A), (az_null _ _ _ _ _ _ _ _ _ _ _ _ A). cbn [andb].
  rewrite !(bool_decide_eq_true_2 (_ = operation c)) by congruence. guards.
  destruct (az_shape _ _ _ _ _ _ _ _ _ _ _ _ A) as [(_ & Hop & Hs)|(_ & _ & Hx & i & _ & Hs)].
  - destruct Hs as (_ & _ & _ & _ & _ & _ & Hr & _). guards. done.
  - rewrite (bool_decide_eq_false_2 (operation c = OPEN)); [guards; done|]. intros E. rewrite <- Ho, E in Hs. done.
Qed.

(** The successor claimed is the custody output, or there is none. *)
Lemma facts_successor :
  successor_matches c (wt_txid parsed) sc = true
  /\ (custody_count sc = 1 /\ new_reserve_vout c <> NO_VOUT \/ custody_count sc = 0 /\ new_reserve_vout c = NO_VOUT).
Proof.
  destruct (claim_matches_inv _ _ HM) as (_ & Eo & Et & En & Ev & Ew & _). destruct facts_operation as [Ho _].
  pose proof (az_tx _ _ _ _ _ _ _ _ _ _ _ _ A) as Hp. pose proof (az_txid _ _ _ _ _ _ _ _ _ _ _ _ A) as Hx.
  assert (custody_count sc = 1 -> sc_new_reserve_txid k = sc_bitcoin_txid k -> sc_new_reserve_vout k = custody_vout sc ->
          sc_new_reserve_value k = custody_value sc -> custody_value sc <> 0 -> operation c <> CLOSE ->
          successor_matches c (wt_txid parsed) sc = true /\ new_reserve_vout c <> NO_VOUT) as Hone.
  { intros H1 H2 H3 H4 H5 H6. destruct (successor_index _ _ Hp H1) as (j & o & _ & _ & Hv & Hn & _).
    unfold successor_matches. assert (new_reserve_vout c <> NO_VOUT) by congruence. split; [|done].
    rewrite (bool_decide_eq_true_2 (operation c <> CLOSE)), (proj2 (Z.eqb_neq (new_reserve_vout c) NO_VOUT)), andb_false_r by done.
    cbn [negb andb]. guards. done. }
  assert (custody_count sc = 0 -> sc_new_reserve_txid k = ZeroHash -> sc_new_reserve_vout k = NO_VOUT ->
          sc_new_reserve_value k = 0 -> operation c = CLOSE \/ operation c = PAYOUT ->
          successor_matches c (wt_txid parsed) sc = true /\ new_reserve_vout c = NO_VOUT) as Hzero.
  { intros H1 H2 H3 H4 H5. assert (new_reserve_vout c = NO_VOUT) as Hn by congruence. split; [|done].
    unfold successor_matches. rewrite Hn, Z.eqb_refl, H1, <- En, H2, <- Ew, H4.
    destruct H5 as [-> | ->]; reflexivity. }
  destruct (az_shape _ _ _ _ _ _ _ _ _ _ _ _ A) as [(_ & Hop & Hs)|(Hst & _ & _ & i & _ & Hs)].
  - destruct Hs as (_ & _ & H1 & H2 & _ & _ & _ & _ & _ & _ & H3 & H4 & H5 & _).
    destruct Hone; try done; [congruence|]. split; [done|by left].
  - rewrite <- Ho in Hs. destruct (operation c) eqn:Eop; try done.
    + destruct Hs as (_ & _ & H1 & H2 & _ & _ & _ & H3 & H4 & H5). destruct Hone; try done; [lia|]. split; [done|by left].
    + destruct Hs as (_ & H1 & H2 & _ & _ & _ & _ & H3 & H4 & H5). destruct Hone; try done; [|split; [done|by left]].
      rewrite H2. apply live_value; [done|congruence].
    + destruct Hs as (p & _ & _ & _ & _ & _ & _ & _ & _ & _ & _ & _ & _ & _ & [(_ & H1 & H2 & H3 & H4)|(H0 & H1 & H2 & H3 & H4 & H5)]).
      * destruct Hzero; try done; [by right|]. split; [done|by right].
      * destruct Hone; try done; [lia|]. split; [done|by left].
    + destruct Hs as (_ & H1 & _ & _ & _ & _ & _ & _ & _ & H2 & H3 & H4). destruct Hzero; try done; [by left|].
      split; [done|by right].
Qed.


Lemma facts_live : bool_decide (status s = ACTIVE) = bool_decide (status s <> EMPTY).
Proof.
  destruct (az_shape _ _ _ _ _ _ _ _ _ _ _ _ A) as [(E & _)|(E & _)]; rewrite E; reflexivity.
Qed.

Lemma facts_open :
  status s = EMPTY -> operation c = OPEN -> open_shape k sc current other -> has_nullifier_proof c = true ->
  exists r, verify_open valid_recipient c k (wt_txid parsed) current other = Some r /\ agrees c k payout r.
Proof.
  intros Hst Hop (-> & -> & H1 & H2 & H3 & H4 & H5 & H6 & H7 & H8 & H9 & H10 & H11 & H12) Hn.
  destruct (claim_matches_inv _ _ HM) as (_ & _ & Et & _ & Ev & Ew & Ee & Em).
  destruct (MatchesPrior_inv _ _ HP) as (_ & _ & P1 & P2 & P3 & _). destruct (empty_outpoint _ HC Hst) as (Z1 & Z2 & Z3).
  pose proof (az_mint _ _ _ _ _ _ _ _ _ _ _ _ A). unfold OPEN_AUTH_RECIPIENT_BYTES in H6.
  destruct (successor_index _ _ (az_tx _ _ _ _ _ _ _ _ _ _ _ _ A) H1) as (j & o & _ & _ & Hv & Hnv & _).
  unfold verify_open. rewrite P1, Z1, P2, Z2, P3, Z3, Hn, H7. cbn [negb orb Z.eqb].
  rewrite Z.eqb_refl. guards. eexists. split; [reflexivity|].
  unfold agrees, deposit_result. cbn. split_and!; [done|done| | |congruence].
  - rewrite H12. f_equal; congruence.
  - symmetry. apply Z.eqb_neq. congruence.
Qed.

Lemma facts_deposit i :
  operation c = DEPOSIT -> deposit_shape s k sc f (direct_parents c) (btc_outputs parsed) other i ->
  sc_exact_commitment k = au_exact_commitment (auth sc) -> has_nullifier_proof c = true ->
  exists r, verify_deposit custody_spk valid_recipient s c f (btc_outputs parsed) other i = Some r /\ agrees c k payout r.
Proof.
  intros Hop (H1 & H2 & H3 & H4 & H5 & (parent & prev & spent & Hd) & H6 & H7 & H8 & H9) Hx Hn. cbv zeta in Hd.
  destruct (claim_matches_inv _ _ HM) as (_ & _ & Et & _ & Ev & Ew & Ee & Em).
  pose proof (az_mint _ _ _ _ _ _ _ _ _ _ _ _ A).
  destruct (successor_index _ _ (az_tx _ _ _ _ _ _ _ _ _ _ _ _ A) H3) as (j & o & _ & _ & Hv & Hnv & _).
  unfold verify_deposit. cbv zeta. rewrite H1, H2, Hn. guards.
  set (pending := if (i =? 0)%nat then 1%nat else 0%nat) in *.
  destruct Hd as (-> & -> & D3 & -> & -> & D6 & D7 & D8 & D9 & D10). rewrite D3, D6, H6. cbn [negb orb Z.eqb]. guards.
  eexists. split; [reflexivity|]. unfold agrees, deposit_result. cbn. split_and!; [done..| |congruence].
  symmetry. apply Z.eqb_neq. congruence.
Qed.

Lemma facts_rollover :
  operation c = ROLLOVER -> rollover_shape s k sc other ->
  sc_exact_commitment k = au_exact_commitment (auth sc) -> has_nullifier_proof c = false ->
  exists r, verify_rollover s c other = Some r /\ agrees c k payout r.
Proof.
  intros Hop (H1 & H2 & H3 & H4 & H5 & H6 & H7 & H8 & H9 & H10) Hx Hn.
  destruct (claim_matches_inv _ _ HM) as (_ & _ & Et & _ & Ev & Ew & Ee & Em).
  pose proof (az_mint _ _ _ _ _ _ _ _ _ _ _ _ A).
  destruct (successor_index _ _ (az_tx _ _ _ _ _ _ _ _ _ _ _ _ A) H2) as (j & o & _ & _ & Hv & Hnv & _).
  unfold verify_rollover. rewrite Hn, <- Ee, Hx, H5. guards. eexists. split; [reflexivity|].
  unfold agrees, deposit_result. cbn. split_and!; [done..| |congruence]. symmetry. apply Z.eqb_neq. congruence.
Qed.

Lemma facts_payout :
  operation c = PAYOUT -> payout_shape (lookup_of payout) s k sc f (btc_outputs parsed) other ->
  sc_exact_commitment k = au_exact_commitment (auth sc) -> has_nullifier_proof c = false ->
  exists r, verify_payout s c f (btc_outputs parsed) other payout = Some r /\ agrees c k payout r.
Proof.
  intros Hop (p & Hl & _ & H1 & H2 & H3 & H4 & H5 & H6 & H7 & H8 & H9 & H10 & H11 & Hs) Hx Hn.
  destruct (claim_matches_inv _ _ HM) as (_ & _ & Et & _ & Ev & Ew & Ee & Em).
  pose proof (az_mint _ _ _ _ _ _ _ _ _ _ _ _ A).
  unfold lookup_of in Hl. head_guard Hl. injection Hl as <-. prop_hyps.
  unfold verify_payout. rewrite Hn, H1, H9. cbn [negb orb]. guards.
  destruct Hs as [(S1 & S2 & S3 & S4 & S5)|(S1 & S2 & S3 & S4 & S5 & S6)].
  - rewrite S1, Z.sub_diag. guards. eexists. split; [reflexivity|]. unfold agrees. cbn. rewrite <- Ev, S4.
    split_and!; done.
  - destruct (successor_index _ _ (az_tx _ _ _ _ _ _ _ _ _ _ _ _ A) S2) as (j & o & _ & _ & Hv & Hnv & _).
    rewrite (proj2 (Z.eqb_neq (new_reserve_vout c) NO_VOUT)) by congruence. guards.
    cbn [Bool.eqb negb].
    eexists. split; [reflexivity|]. unfold agrees. cbn.
    rewrite (proj2 (Z.eqb_neq (new_reserve_vout c) NO_VOUT)) by congruence. split_and!; done.
Qed.

Lemma facts_close :
  operation c = CLOSE -> close_shape s supply k sc other ->
  sc_exact_commitment k = au_exact_commitment (auth sc) -> has_nullifier_proof c = false ->
  exists r, verify_close c other = Some r /\ agrees c k payout r.
Proof.
  intros Hop (H1 & H2 & H3 & H4 & H5 & H6 & H7 & H8 & H9 & H10 & H11 & H12) Hx Hn.
  destruct (claim_matches_inv _ _ HM) as (_ & _ & Et & _ & Ev & Ew & Ee & Em).
  pose proof (az_mint _ _ _ _ _ _ _ _ _ _ _ _ A).
  unfold verify_close. rewrite Hn, <- Ee, Hx, H4. guards. eexists. split; [reflexivity|].
  unfold agrees. cbn. split_and!; [done..| |congruence]. rewrite <- Ev, H11. done.
Qed.

(** The second reading of the transaction finds what the classifier found. *)
Lemma facts_verify :
  has_nullifier_proof c = consumes_deposit (operation c) ->
  exists r, verify_facts custody_spk valid_recipient s c k parsed payout = Some r /\ agrees c k payout r.
Proof.
  intros Hn. destruct facts_operation as [Ho Hf]. destruct facts_successor as [Hsm _].
  unfold verify_facts. rewrite (az_facts _ _ _ _ _ _ _ _ _ _ _ _ A), (az_total _ _ _ _ _ _ _ _ _ _ _ _ A).
  rewrite (proj2 (Z.ltb_ge _ _) (az_conserved _ _ _ _ _ _ _ _ _ _ _ _ A)), (bool_decide_eq_false_2 (operation c = FREEZE)), facts_marker,
    facts_live, (az_inputs _ _ _ _ _ _ _ _ _ _ _ _ A), Hsm by done. cbn [negb].
  destruct (az_shape _ _ _ _ _ _ _ _ _ _ _ _ A) as [(Hst & Hop & Hs)|(Hst & Hcur & Hx & i & Hi & Hs)].
  - rewrite (bool_decide_eq_true_2 (operation c = OPEN)) by congruence. apply facts_open; [done|congruence|done|].
    rewrite Hn, Ho, Hop. reflexivity.
  - rewrite <- Ho in Hs. rewrite Hcur, Hi. destruct (operation c) eqn:Eop; try done.
    + by apply facts_deposit.
    + by apply facts_rollover.
    + by apply facts_payout.
    + by apply facts_close.
Qed.

End Facts.

(** A second reading that succeeds asked for a nullifier proof exactly when a deposit is used. *)
Lemma verify_nullifier s c k parsed payout r :
  verify_facts custody_spk valid_recipient s c k parsed payout = Some r -> has_nullifier_proof c = consumes_deposit (operation c).
Proof.
  unfold verify_facts. destruct (ReadInputFacts _ _) as [f|]; [|done]. destruct (SumOutputs _) as [total|]; [|done].
  destruct (input_total f <? total); [done|]. destruct (bool_decide (operation c = FREEZE)) eqn:Ef; [done|].
  destruct (negb (marker_matches _ _ _)); [done|]. destruct (scan_inputs _ _ _ _ _ _ _ _ _) as [[[cur oth] idx]|]; [|done].
  destruct (negb (successor_matches _ _ _)); [done|]. destruct (bool_decide (operation c = OPEN)) eqn:Eo; prop_hyps.
  - unfold verify_open. intros H. head_guard H. prop_hyps. rewrite Eo. done.
  - destruct idx as [i|]; [|done]. destruct (negb (cur =? 1)); [done|].
    unfold consumes_deposit. rewrite (bool_decide_eq_false_2 (operation c = OPEN)) by done. cbn [orb].
    destruct (operation c) eqn:Eop; try done; intros H.
    + unfold verify_deposit in H. head_guard H. prop_hyps. done.
    + unfold verify_rollover in H. head_guard H. prop_hyps. done.
    + unfold verify_payout in H. head_guard H. prop_hyps. done.
    + unfold verify_close in H. head_guard H. prop_hyps. done.
Qed.

(** ** The verifier in one pass *)

Section Verifier.
Context (cfg : BtcHeaderChain.Config) (headers : BtcHeaderChain.t) (s : State) (supply depth : Z) (payout : PayoutContext).

Definition classified (c : Claim) : SpendClassification :=
  ClassifyBitcoinReserveSpend custody_spk valid_recipient s supply (bitcoin_tx c) (direct_parents c) (lookup_of payout).

(** The transaction is in a block that is final for external value. *)
Definition settled_on_bitcoin (c : Claim) : bool :=
  match ParseReserveTx (bitcoin_tx c) with
  | Some parsed => bytes_eqb (bitcoin_txid c) (wt_txid parsed)
                   && BtcHeaderChain.VerifyMerkle headers (bitcoin_block c) (wt_txid parsed) (merkle_branch c) (merkle_directions c)
                   && BtcHeaderChain.IsFinalForExternalValue cfg headers (bitcoin_block c) depth
  | None => false
  end.

(** A claim is admissible when the classifier authorizes what it says. *)
Definition admissible (c : Claim) : bool :=
  Canonical s && negb (size custody_spk =? 0) && MatchesPrior s c && operation_allowed s (operation c)
  && settled_on_bitcoin c && claim_matches c (classified c)
  && Bool.eqb (has_nullifier_proof c) (consumes_deposit (operation c)).

Lemma verify_admissible c :
  0 <= reserve_value_sats s -> admissible c = true ->
  exists parsed r, ParseReserveTx (bitcoin_tx c) = Some parsed
  /\ verify_facts custody_spk valid_recipient s c (classified c) parsed payout = Some r /\ agrees c (classified c) payout r.
Proof.
  unfold admissible, settled_on_bitcoin. intros HV H. destruct (ParseReserveTx (bitcoin_tx c)) as [parsed|] eqn:Ep;
    [|rewrite andb_false_r in H; done]. prop_hyps. exists parsed.
  match goal with Hm : claim_matches c _ = true |- _ => rename Hm into HM end.
  destruct (claim_matches_inv _ _ HM) as [Hd _].
  destruct (classify_authorized _ _ _ _ _ Hd) as (parsed' & f & total & cur & oth & idx & A). fold (classified c) in A.
  assert (parsed' = parsed) as -> by (pose proof (az_tx _ _ _ _ _ _ _ _ _ _ _ _ A); congruence).
  destruct (facts_verify s supply c (classified c) payout parsed f total cur oth idx A) as (r & Hr & Ha); try done.
  - by apply eqb_prop.
  - exists r. done.
Qed.

Lemma Verify_inv payload r :
  Verify custody_spk valid_recipient cfg headers s supply payload depth payout = Some r ->
  exists c, DecodeProof payload = Some c /\ admissible c = true
  /\ exists parsed, ParseReserveTx (bitcoin_tx c) = Some parsed
     /\ verify_facts custody_spk valid_recipient s c (classified c) parsed payout = Some r.
Proof.
  unfold Verify. destruct (DecodeProof payload) as [c|]; [|done]. intros H. do 3 head_guard H.
  destruct (negb _ || negb _ || negb _) eqn:Em in H; [done|]. head_guard H. exists c. split; [done|].
  pose proof (verify_nullifier _ _ _ _ _ _ H) as Hn. unfold admissible, settled_on_bitcoin.
  match goal with Hp : ParseReserveTx _ = Some ?w |- _ => rewrite Hp; split; [|exists w; done] end.
  prop_hyps. unfold classified. repeat match goal with He : _ = true |- _ => rewrite He; clear He end.
  match goal with He : bitcoin_txid c = _ |- _ => rewrite He, bytes_eqb_refl end.
  rewrite Hn, eqb_reflx. cbn [andb]. rewrite (proj2 (Z.eqb_neq _ _)) by done. done.
Qed.

Lemma Verify_exact payload :
  0 <= reserve_value_sats s ->
  match Verify custody_spk valid_recipient cfg headers s supply payload depth payout with
  | Some r => DecodeProof payload = Some (claim r) /\ admissible (claim r) = true
              /\ agrees (claim r) (classified (claim r)) payout r
  | None => forall c, DecodeProof payload = Some c -> admissible c = false
  end.
Proof.
  intros HV. destruct (Verify _ _ _ _ _ _ _ _ _) as [r|] eqn:E.
  - destruct (Verify_inv _ _ E) as (c & Hd & Ha & parsed & Hp & Hf).
    destruct (verify_admissible c HV Ha) as (parsed' & r' & Hp' & Hf' & Hag).
    assert (r' = r) as -> by congruence. assert (claim r = c) as -> by apply Hag. done.
  - intros c Hd. destruct (admissible c) eqn:Ha; [|done]. exfalso.
    destruct (verify_admissible c HV Ha) as (parsed & r & Hp & Hf & _).
    revert E. unfold Verify. rewrite Hd. unfold admissible, settled_on_bitcoin in Ha. rewrite Hp in Ha. prop_hyps.
    rewrite Hp. repeat match goal with He : _ = true |- _ => rewrite He; clear He end.
    match goal with He : bitcoin_txid c = _ |- _ => rewrite He, bytes_eqb_refl end. cbn [negb orb].
    rewrite (proj2 (Z.eqb_neq _ _)) by done. fold (classified c).
    match goal with He : claim_matches _ _ = true |- _ => rewrite He | _ => idtac end. by rewrite Hf.
Qed.
End Verifier.

End Classified.
