(* ===== verification/ReserveWire.v ===== *)
(** * Wire forms of the reserve

    The readers of proofs and states undo the writers, and accept nothing else. *)
From S2P Require Import Prelude Limbs Bytes Sha256 StateDigest MintNullifier NullifierRules NullifierSafety Profile.
From S2P Require Import Transaction Address BtcHeaderChain BtcTx Reserve ReserveProof.

#[local] Opaque sha256 sha256_domain NetworkBinding MAX_PROOF_BYTES MIN_PROOF_BYTES.

(** The widths of a claim's fields. *)
Record claim_sized (c : Claim) : Prop := {
  cz_binding : is_hash (network_binding c); cz_prior : is_hash (prior_commitment c);
  cz_prior_txid : is_hash (prior_reserve_txid c); cz_prior_vout : fits 32 (prior_reserve_vout c);
  cz_prior_value : fits 64 (prior_reserve_value c); cz_prior_count : fits 64 (prior_transition_count c);
  cz_new_txid : is_hash (new_reserve_txid c); cz_new_vout : fits 32 (new_reserve_vout c);
  cz_new_value : fits 64 (new_reserve_value c); cz_txid : is_hash (bitcoin_txid c); cz_block : is_hash (bitcoin_block c);
  cz_directions : fits 32 (merkle_directions c); cz_branch : Forall is_hash (merkle_branch c);
  cz_exact : is_hash (exact_commitment c); cz_mint : fits 64 (mint_amount c); cz_tx : is_bytes (bitcoin_tx c);
  cz_parents : Forall is_bytes (direct_parents c);
  cz_nullifier : if has_nullifier_proof c then wf_proof (nullifier_proof c) /\ IsCanonicalProof (nullifier_proof c) = true
                 else nullifier_proof c = EmptyProof }.

Lemma operation_of_byte op : operation_of (operation_byte op) = Some op.
Proof. by destruct op. Qed.

Lemma operation_of_inv raw op : operation_of raw = Some op -> raw = operation_byte op.
Proof.
  unfold operation_of. repeat (match goal with |- (if ?b then _ else _) = _ -> _ => destruct b eqn:? end;
    [intros [= <-]; by apply Z.eqb_eq|]). done.
Qed.

Lemma status_of_byte s : status_of (status_byte s) = Some s.
Proof. by destruct s. Qed.

Lemma status_of_inv raw s : status_of raw = Some s -> raw = status_byte s.
Proof.
  unfold status_of. repeat (match goal with |- (if ?b then _ else _) = _ -> _ => destruct b eqn:? end;
    [intros [= <-]; by apply Z.eqb_eq|]). done.
Qed.

Lemma status_le s : put_u8 (status_byte s) = put_le 1 (status_byte s).
Proof. by destruct s. Qed.

Lemma byte_fits n op : (1 <= n)%nat -> fits (8 * Z.of_nat n) (operation_byte op).
Proof. intros Hn. apply (fits_mono 8); [lia|]. by destruct op. Qed.

(** ** The parts of a proof *)

Lemma read_parents_inv n total d ps rest :
  is_bytes d -> read_parents n total d = Some (ps, rest) ->
  d = concat (map put_sized ps) ++ rest /\ length ps = n /\ Forall is_bytes ps /\ is_bytes rest
  /\ parents_pass total ps = true.
Proof.
  revert total d ps rest. induction n as [|n IH]; intros total d ps rest Hd; cbn [read_parents].
  { intros [= <- <-]. split_and!; try done; constructor. }
  unfold rbind, rret, rfail. intros H. inv_reader H.
  match type of H with context [if negb (parent_refused ?t ?z) then _ else _] => destruct (parent_refused t z) eqn:Er; [done|] end.
  cbn [negb] in H. inv_reader H. destruct (read_parents n _ _) as [[ps' r']|] eqn:Ep; [|done]. injection H as <- <-.
  apply IH in Ep as (-> & <- & Hf & Hr & Hpass); [|done].
  match goal with Hs : length ?b = Z.to_nat ?z, Hz : fits _ ?z |- _ =>
    assert (size b = z) as Hsz by (unfold size; rewrite Hs; apply Z2Nat.id; unfold fits in Hz; lia);
    assert (put_sized b = put_le 4 z ++ b) as Hps by (unfold put_sized; by rewrite Hsz) end.
  cbn [map concat length parents_pass]. rewrite Hsz, Er, Hpass, Hps, <- !app_assoc. split_and!; [done|done|by constructor|done|done].
Qed.

Lemma read_parents_app total ps rest :
  parents_pass total ps = true ->
  read_parents (length ps) total (concat (map put_sized ps) ++ rest) = Some (ps, rest).
Proof.
  revert total. induction ps as [|p ps IH]; intros total; [done|]. cbn [parents_pass length read_parents map concat].
  destruct (parent_refused total (size p)) eqn:Er; [done|]. intros Hp. unfold rbind, rret.
  assert (fits 32 (size p)) by (unfold parent_refused, MAX_MSPV_PARENT_TX_BYTES in Er; unfold fits; lia).
  unfold put_sized at 1. rewrite <- !app_assoc, read_le_app, Er by done. cbn [negb]. rewrite to_nat_size, read_bytes_app, IH by done. done.
Qed.

Lemma read_branch_inv d dirs branch rest :
  is_bytes d -> read_branch d = Some ((dirs, branch), rest) ->
  d = put_le 4 dirs ++ put_le 1 (size branch) ++ concat branch ++ rest /\ fits 32 dirs /\ Forall is_hash branch
  /\ is_bytes rest /\ size branch <= 32 /\ (size branch < 32 -> Z.shiftr dirs (size branch) = 0).
Proof.
  unfold read_branch, read_hash, rbind, rret. intros Hd H. inv_reader H. injection H as <- <- <-.
  match goal with Hs : length ?b = Z.to_nat ?z, Hz : fits _ ?z |- _ =>
    assert (size b = z) as <- by (unfold size; rewrite Hs; apply Z2Nat.id; unfold fits in Hz; lia) end.
  match goal with Hr : is_bytes (concat _ ++ _) |- _ => apply is_bytes_app in Hr as [Hb Hr] end.
  split_and!; [done|done| |done|lia|lia].
  match goal with Hf : Forall (fun x => length x = 32%nat) ?l |- Forall is_hash ?l => clear - Hf Hb; revert Hb; induction Hf as [|x l Hx Hf IH] end;
    [constructor|]. cbn [concat]. intros [? ?]%is_bytes_app. constructor; [by split|by apply IH].
Qed.

Lemma read_branch_app dirs branch rest :
  fits 32 dirs -> Forall is_hash branch -> size branch <= 32 -> (size branch < 32 -> Z.shiftr dirs (size branch) = 0) ->
  read_branch (put_le 4 dirs ++ put_le 1 (size branch) ++ concat branch ++ rest) = Some ((dirs, branch), rest).
Proof.
  intros Hd Hb Hs Hz. unfold read_branch, read_hash, rbind, rret. rewrite read_le_app by done.
  pose proof (size_nonneg branch). rewrite read_le_app by (unfold fits; lia).
  assert (negb ((32 <? size branch) || ((size branch <? 32) && negb (Z.shiftr dirs (size branch) =? 0))) = true) as ->.
  { destruct (Z.ltb_spec 32 (size branch)); [lia|]. destruct (Z.ltb_spec (size branch) 32); [|done]. by rewrite Hz. }
  rewrite to_nat_size, read_chunks_app; [done|]. eapply Forall_impl; [exact Hb|]. by intros x [? _].
Qed.

Lemma read_nullifier_inv d p has rest :
  is_bytes d -> read_nullifier d = Some ((p, has), rest) ->
  exists raw, d = put_sized raw ++ rest /\ is_bytes rest
  /\ if has then wf_proof p /\ IsCanonicalProof p = true /\ raw = MintNullifier.EncodeProof p
                 /\ Z.of_nat MIN_PROOF_BYTES <= size raw <= Z.of_nat MAX_PROOF_BYTES
     else p = EmptyProof /\ raw = [].
Proof.
  unfold read_nullifier, rbind, rret. intros Hd H. destruct (read_le 4 d) as [[n d1]|] eqn:E; [|done].
  apply read_le_inv in E as (-> & Hn & Hd1); [|done]. destruct (Z.ltb_spec (size d1) n); [done|].
  destruct (Z.eqb_spec n 0) as [-> |].
  { injection H as <- <- <-. by exists []. }
  destruct (_ || _) eqn:El; [done|]. inv_reader H. destruct (MintNullifier.DecodeProof _) as [q|] eqn:Eq; [|done].
  injection H as <- <- <-. apply null_encode_decode in Eq as (Hw & Hc & He); [|done]. eexists. split_and!; [|done|done|done|done| |].
  - unfold put_sized. rewrite <- app_assoc. f_equal. f_equal. unfold size. unfold fits in Hn. lia.
  - unfold size. lia.
  - unfold size. lia.
Qed.

Lemma read_nullifier_app c nullifier rest :
  claim_sized c -> encode_nullifier c = Some nullifier ->
  read_nullifier (put_sized nullifier ++ rest) = Some ((nullifier_proof c, has_nullifier_proof c), rest).
Proof.
  intros Hs. pose proof (cz_nullifier _ Hs) as Hn. unfold encode_nullifier, read_nullifier, put_sized, rbind.
  destruct (has_nullifier_proof c).
  - destruct Hn as [Hw Hc]. rewrite null_decode_encode by done. set (raw := MintNullifier.EncodeProof _).
    destruct (_ || _) eqn:El; [done|]. intros [= <-].
    Transparent MAX_PROOF_BYTES MIN_PROOF_BYTES.
    assert (fits 32 (size raw)) as Hf by (pose proof (size_nonneg raw); unfold fits; assert (Z.of_nat MAX_PROOF_BYTES = 8224) by done; lia).
    assert (0 < Z.of_nat MIN_PROOF_BYTES) as Hm by done. Opaque MAX_PROOF_BYTES MIN_PROOF_BYTES.
    rewrite <- app_assoc, read_le_app by done. rewrite size_app.
    destruct (Z.ltb_spec (size raw + size rest) (size raw)); [pose proof (size_nonneg rest); lia|].
    destruct (Z.eqb_spec (size raw) 0); [lia|]. rewrite El, to_nat_size, read_bytes_app by done.
    unfold raw. by rewrite null_decode_encode.
  - intros [= <-]. rewrite Hn, <- app_assoc, read_le_app by done. cbn [app].
    change (size (@nil Z)) with 0. destruct (Z.ltb_spec (size rest) 0); [pose proof (size_nonneg rest); lia|]. done.
Qed.

(** ** Claims *)

(** The bounds [EncodeProof] checks, which the reader checks as well. *)
Definition claim_bounds (c : Claim) : Prop :=
  size (merkle_branch c) <= 32 /\ (size (merkle_branch c) < 32 -> Z.shiftr (merkle_directions c) (size (merkle_branch c)) = 0)
  /\ 64 < size (bitcoin_tx c) <= MAX_MSPV_STRIPPED_TX_BYTES
  /\ 0 < size (direct_parents c) <= MAX_DIRECT_INPUTS /\ parents_pass 0 (direct_parents c) = true.

Ltac claim_cbn :=
  cbn [operation network_binding prior_commitment prior_reserve_txid prior_reserve_vout prior_reserve_value
       prior_transition_count new_reserve_txid new_reserve_vout new_reserve_value bitcoin_txid bitcoin_block
       merkle_directions merkle_branch exact_commitment mint_amount bitcoin_tx direct_parents nullifier_proof
       has_nullifier_proof fst snd].

Ltac whole_chunk :=
  match goal with Hs : length ?b = Z.to_nat ?z, Hz : fits _ ?z |- _ =>
    assert (size b = z) as <- by (unfold size; rewrite Hs; apply Z2Nat.id; unfold fits in Hz; lia); clear Hs end.

Lemma read_claim_inv d c rest :
  is_bytes d -> read_claim d = Some (c, rest) ->
  exists nullifier, PROOF_MAGIC ++ d = encode_claim c nullifier ++ rest /\ encode_nullifier c = Some nullifier
  /\ claim_sized c /\ claim_bounds c.
Proof.
  unfold read_claim, read_hash, rbind, of_option, rret. intros Hd H. inv_reader H.
  destruct (operation_of _) as [op|] eqn:Eop; [|done]. apply operation_of_inv in Eop as ->. inv_reader H.
  destruct (read_branch _) as [[[dirs branch] d1]|] eqn:Eb; [|done].
  apply read_branch_inv in Eb as (-> & Hdirs & Hbranch & Hd1 & Hb1 & Hb2); [|done]. inv_reader H.
  destruct (read_parents _ _ _) as [[parents d2]|] eqn:Ep; [|done].
  apply read_parents_inv in Ep as (-> & Hlen & Hpar & Hd2 & Hpass); [|done].
  destruct (read_nullifier _) as [[[p has] d3]|] eqn:En; [|done].
  apply read_nullifier_inv in En as (raw & -> & Hd3 & Hraw); [|done]. injection H as <- <-.
  do 2 whole_chunk. exists raw. split_and!.
  - unfold encode_claim, put_sized. claim_cbn. rewrite <- !app_assoc. reflexivity.
  - unfold encode_nullifier. claim_cbn. destruct has; [|by destruct Hraw as [_ ->]].
    destruct Hraw as (Hw & Hc & -> & Hlo & Hhi). rewrite (proj2 (Z.ltb_ge _ _)), (proj2 (Z.ltb_ge _ _)) by lia. cbn [orb].
    by rewrite null_decode_encode.
  - split; claim_cbn; try done; try (split; done). destruct has; [|by destruct Hraw]. by destruct Hraw as (? & ? & _).
  - pose proof (size_nonneg parents). unfold claim_bounds. claim_cbn. split_and!; (done || lia).
Qed.

Lemma read_claim_app c nullifier :
  claim_sized c -> claim_bounds c -> encode_nullifier c = Some nullifier ->
  read_claim (drop 4 (encode_claim c nullifier)) = Some (c, []).
Proof.
  intros Hs (B1 & B2 & B3 & B4 & B5) Hn.
  pose proof (cz_binding _ Hs) as [? _]. pose proof (cz_prior _ Hs) as [? _]. pose proof (cz_prior_txid _ Hs) as [? _].
  pose proof (cz_new_txid _ Hs) as [? _]. pose proof (cz_txid _ Hs) as [? _]. pose proof (cz_block _ Hs) as [? _].
  pose proof (cz_exact _ Hs) as [? _]. pose proof (cz_prior_vout _ Hs). pose proof (cz_prior_value _ Hs).
  pose proof (cz_prior_count _ Hs). pose proof (cz_new_vout _ Hs). pose proof (cz_new_value _ Hs). pose proof (cz_mint _ Hs).
  assert (fits 32 (size (bitcoin_tx c))) by (unfold fits, MAX_MSPV_STRIPPED_TX_BYTES in *; lia).
  assert (fits 16 (size (direct_parents c))) by (unfold fits, MAX_DIRECT_INPUTS in *; lia).
  unfold encode_claim. rewrite drop_app_length' by done. unfold read_claim, read_hash, rbind, of_option.
  rewrite read_le_app by (by apply byte_fits). rewrite operation_of_byte.
  repeat first [rewrite read_bytes_app by done|rewrite read_le_app by done].
  rewrite read_branch_app by (done || apply Hs).
  repeat first [rewrite read_bytes_app by done|rewrite read_le_app by done].
  unfold put_sized at 1. rewrite <- !app_assoc, read_le_app by done.
  assert (negb ((size (bitcoin_tx c) <=? 64) || (MAX_MSPV_STRIPPED_TX_BYTES <? size (bitcoin_tx c))) = true) as -> by lia.
  rewrite to_nat_size, read_bytes_app, read_le_app by done.
  assert (negb ((size (direct_parents c) =? 0) || (MAX_DIRECT_INPUTS <? size (direct_parents c))) = true) as -> by lia.
  rewrite to_nat_size, read_parents_app by done.
  pose proof (read_nullifier_app c nullifier [] Hs Hn) as Hr. rewrite app_nil_r in Hr. rewrite Hr. by destruct c.
Qed.

(** The reader accepts exactly the encodings. *)
Lemma proof_decode_encode c : claim_sized c -> EncodeProof c <> [] -> DecodeProof (EncodeProof c) = Some c.
Proof.
  intros Hs. unfold EncodeProof. cbv zeta. destruct (_ || _ || _ || _ || _ || _ || _) eqn:Eb; [done|].
  destruct (parents_pass 0 (direct_parents c)) eqn:Ep; cbn [negb]; [|done].
  destruct (encode_nullifier c) as [nullifier|] eqn:En; [|done]. destruct (Z.ltb_spec MAX_RESERVE_PROOF_BYTES (size (encode_claim c nullifier))); [done|].
  destruct (DecodeProof (encode_claim c nullifier)) as [c'|] eqn:Ed; [|done]. intros _. rewrite Ed. revert Ed. unfold DecodeProof.
  match goal with |- (if ?b then _ else _) = _ -> _ => destruct b; [done|] end. rewrite read_claim_app; [by intros [= ->]|done| |done].
  pose proof (size_nonneg (direct_parents c)). unfold claim_bounds. split_and!; try lia; done.
Qed.

Lemma proof_encode_decode payload c :
  is_bytes payload -> DecodeProof payload = Some c -> claim_sized c /\ claim_bounds c /\ EncodeProof c = payload.
Proof.
  intros Hp Hd. pose proof Hd as Hd'. revert Hd. unfold DecodeProof. destruct (_ || _ || _) eqn:E; [done|].
  destruct (read_claim _) as [[c' [|]]|] eqn:Er; try done. intros [= ->].
  apply read_claim_inv in Er as (nullifier & Heq & Hn & Hs & Hb); [|by apply is_bytes_drop].
  rewrite app_nil_r in Heq.
  assert (payload = encode_claim c nullifier) as Epay.
  { rewrite <- Heq, <- (take_drop 4 payload) at 1. f_equal. apply bytes_eqb_eq. bool_hyps. done. }
  split; [done|]. split; [done|]. destruct Hb as (B1 & B2 & B3 & B4 & B5). unfold EncodeProof. cbv zeta.
  pose proof (cz_directions _ Hs) as Hdir. rewrite B5, Hn, <- Epay, Hd'. cbn [negb].
  assert (size payload <= MAX_RESERVE_PROOF_BYTES) by lia.
  rewrite (proj2 (Z.ltb_ge MAX_RESERVE_PROOF_BYTES (size payload))) by done.
  match goal with |- (if ?b then _ else _) = _ => assert (b = false) as -> end; [|done].
  assert ((size (merkle_branch c) <? 32) && negb (Z.shiftr (merkle_directions c) (size (merkle_branch c)) =? 0) = false) as ->.
  { destruct (Z.ltb_spec (size (merkle_branch c)) 32); [|done]. by rewrite B2. }
  unfold fits, UINT32_MAX in *. lia.
Qed.

(** ** The state *)

Record state_sized (s : State) : Prop := {
  sz_txid : is_hash (reserve_txid s); sz_vout : fits 32 (reserve_vout s); sz_value : fits 64 (reserve_value_sats s);
  sz_block : is_hash (reserve_bitcoin_block s); sz_count : fits 64 (transition_count s);
  sz_commitment : is_hash (transition_commitment s); sz_surplus : fits 64 (surplus_sats s);
  sz_principal : fits 64 (open_redemption_principal s); sz_height : fits 64 (processed_veld_height s);
  sz_veld_block : is_hash (processed_veld_block_hash s) }.

Lemma read_state_app s rest : state_sized s -> read_state (EncodeState s ++ rest) = Some (s, rest).
Proof.
  intros [[? _] ? ? [? _] ? [? _] ? ? ? [? _]]. unfold EncodeState. rewrite status_le. unfold put_u32_le, put_u64_le, put_bytes, read_state, read_hash, rbind, of_option, rret.
  rewrite <- !app_assoc. rewrite read_le_app by (by destruct (status s)). rewrite status_of_byte.
  repeat first [rewrite read_bytes_app by done|rewrite read_le_app by done]. by destruct s.
Qed.

Lemma read_state_inv d s rest :
  is_bytes d -> read_state d = Some (s, rest) -> state_sized s /\ d = EncodeState s ++ rest.
Proof.
  unfold read_state, read_hash, rbind, of_option, rret. intros Hd H. inv_reader H.
  destruct (status_of _) as [st|] eqn:Est; [|done]. apply status_of_inv in Est as ->. inv_reader H. injection H as <- <-.
  split; [split; cbn [reserve_txid reserve_vout reserve_value_sats reserve_bitcoin_block transition_count transition_commitment
    surplus_sats open_redemption_principal processed_veld_height processed_veld_block_hash]; try done; split; done|].
  unfold EncodeState. rewrite status_le. unfold put_u32_le, put_u64_le, put_bytes.
  cbn [status reserve_txid reserve_vout reserve_value_sats reserve_bitcoin_block transition_count transition_commitment
    surplus_sats open_redemption_principal processed_veld_height processed_veld_block_hash]. rewrite <- !app_assoc. reflexivity.
Qed.

Lemma state_decode_encode s : state_sized s -> Canonical s = true -> DecodeState (EncodeState s) = Some s.
Proof.
  intros Hs Hc. unfold DecodeState. pose proof (read_state_app s [] Hs) as H. rewrite app_nil_r in H.
  by rewrite H, Hc, bytes_eqb_refl.
Qed.

Lemma state_encode_decode d s :
  is_bytes d -> DecodeState d = Some s -> state_sized s /\ Canonical s = true /\ EncodeState s = d.
Proof.
  intros Hd. unfold DecodeState. destruct (read_state d) as [[s' [|]]|] eqn:E; try done. destruct (_ || _) eqn:Eb; [done|].
  intros [= ->]. apply read_state_inv in E as [Hs ->]; [|done]. rewrite app_nil_r. bool_hyps. done.
Qed.
