(* ===== verification/ReserveSafety.v ===== *)
(** * Safety of the reserve

    What the ledger may conclude from a proof the verifier accepts: the Bitcoin transaction
    it stands for, the coins behind every mint, the recipient the depositor chose, and the
    exact payment of a redemption. *)
From S2P Require Import Prelude Limbs Bytes Sha256 StateDigest MintNullifier Profile Transaction Address.
From S2P Require Import OpAuthorization BtcHeaderChain BtcTx Reserve ReserveProof ReserveProofRules ReserveWire.

#[local] Opaque sha256 sha256_domain NetworkBinding.

(** ** Values *)

Definition values (outs : list BtcTxOut) : Z := foldr (fun o n => bo_value o + n) 0 outs.

Lemma sum_outputs_values outs total sum : sum_outputs outs total = Some sum -> sum = total + values outs.
Proof.
  revert total. induction outs as [|o outs IH]; intros total; cbn [sum_outputs values foldr]; [intros [= <-]; lia|].
  destruct (_ <? _); [done|]. intros H%IH. fold (values outs). lia.
Qed.

(** Each input's parent is the transaction it names, and the output spent is that parent's. *)
Lemma read_spent_spec prevs parents total outs sum :
  length prevs = length parents -> read_spent prevs parents total = Some (outs, sum) ->
  length outs = length prevs /\ sum = total + values outs
  /\ forall j prev, prevs !! j = Some prev ->
     exists parent out, ParseTx (nth j parents []) = Some parent /\ wt_txid parent = po_txid prev
     /\ btc_outputs parent !! Z.to_nat (po_vout prev) = Some out /\ outs !! j = Some out.
Proof.
  revert parents total outs sum. induction prevs as [|prev prevs IH]; intros [|raw parents] total outs sum Hl; try done.
  { intros [= <- <-]. split_and!; [done|cbn; lia|done]. }
  injection Hl as Hl. cbn [read_spent]. destruct (HashIsZero _ && _); [done|].
  destruct (ParseTx raw) as [parent|] eqn:Ep; [|done]. destruct (bytes_eqb (wt_txid parent) (po_txid prev)) eqn:Et; cbn [negb]; [|done].
  destruct (btc_outputs parent !! _) as [spent|] eqn:Es; [|done]. destruct (_ <? _); [done|].
  destruct (read_spent prevs parents _) as [[outs' sum']|] eqn:Er; [|done]. intros [= <- <-].
  destruct (IH _ _ _ _ Hl Er) as (IH1 & IH2 & IH3). split_and!; [cbn; lia|cbn [values foldr]; fold (values outs'); lia|].
  intros [|j] prev'; cbn [nth]; [|apply IH3]. intros [= <-]. exists parent, spent. apply bytes_eqb_eq in Et. done.
Qed.

Lemma ReadInputFacts_spec tx parents parsed f :
  ParseReserveTx tx = Some parsed -> ReadInputFacts tx parents = Some f ->
  f_prevouts f = prevouts parsed /\ length (spent_outputs f) = length (prevouts parsed)
  /\ length parents = length (prevouts parsed) /\ input_total f = values (spent_outputs f)
  /\ forall j prev, prevouts parsed !! j = Some prev ->
     exists parent out, ParseTx (nth j parents []) = Some parent /\ wt_txid parent = po_txid prev
     /\ btc_outputs parent !! Z.to_nat (po_vout prev) = Some out /\ spent_outputs f !! j = Some out.
Proof.
  intros Hp. unfold ReadInputFacts. rewrite Hp. destruct (_ || _ || _) eqn:E; [done|].
  destruct (read_spent _ _ _) as [[outs total]|] eqn:Er; [|done]. intros [= <-]. cbn [f_prevouts spent_outputs input_total].
  bool_hyps. match goal with H : (_ =? _)%nat = true |- _ => apply Nat.eqb_eq in H end.
  apply read_spent_spec in Er as (K1 & K2 & K3); [|done]. split_and!; (done || lia).
Qed.

Lemma nth_lookup_of_lt {A} (l : list A) i d : (i < length l)%nat -> l !! i = Some (nth i l d).
Proof. intros [x Hx]%lookup_lt_is_Some. rewrite Hx. f_equal. symmetry. by apply nth_lookup_Some. Qed.

(** In a transaction with two inputs, one of them the reserve and one more custody output,
    the other input spends custody. *)
Lemma pending_pays_custody custody s live prevs spent i :
  length prevs = 2%nat -> length spent = 2%nat ->
  scan_inputs custody s live 0 prevs spent 0 0 None = Some (1, 1, Some i) ->
  exists out, spent !! (if (i =? 0)%nat then 1%nat else 0%nat) = Some out /\ spk out = custody.
Proof.
  destruct prevs as [|p0 [|p1 [|]]]; try done. destruct spent as [|o0 [|o1 [|]]]; try done. intros _ _. cbn [scan_inputs].
  set (c0 := live && bytes_eqb (po_txid p0) (reserve_txid s) && (po_vout p0 =? reserve_vout s)).
  set (c1 := live && bytes_eqb (po_txid p1) (reserve_txid s) && (po_vout p1 =? reserve_vout s)).
  destruct (bytes_eqb (spk o0) custody) eqn:E0, (bytes_eqb (spk o1) custody) eqn:E1, c0, c1; cbn [negb orb];
    try (destruct (bo_value o0 =? reserve_value_sats s)); try (destruct (bo_value o1 =? reserve_value_sats s)); cbn [negb orb];
    intros H; try discriminate H; injection H as Hi; subst i; cbn [Nat.eqb];
    apply bytes_eqb_eq in E0; apply bytes_eqb_eq in E1; (exists o0; done) || (exists o1; done).
Qed.

(** ** What is paid to a script *)

Definition paid (x : bytes) (outs : list BtcTxOut) : Z := values (filter (fun o => spk o = x) outs).

Lemma values_app a b : values (a ++ b) = values a + values b.
Proof. induction a as [|o a IH]; [done|]. cbn [app values foldr]. fold (values a) (values (a ++ b)). lia. Qed.

Lemma paid_to_cons x o outs : paid x (o :: outs) = (if decide (spk o = x) then bo_value o else 0) + paid x outs.
Proof. unfold paid. rewrite filter_cons. destruct (decide _); cbn [values foldr]; [done|lia]. Qed.

Lemma paid_none x outs : Forall (fun o => spk o <> x) outs -> paid x outs = 0.
Proof. induction 1 as [|o outs Ho _ IH]; [done|]. by rewrite paid_to_cons, decide_False, IH. Qed.

Lemma paid_nonneg x outs : Forall output_sized outs -> 0 <= paid x outs.
Proof.
  induction 1 as [|o outs [Ho _] _ IH]; [done|]. rewrite paid_to_cons. unfold fits in Ho. destruct (decide _); lia.
Qed.

(** A single output of a script carries all that is paid to it. *)
Lemma paid_unique x outs j o :
  outs !! j = Some o -> spk o = x -> (forall j' o', outs !! j' = Some o' -> spk o' = x -> j' = j) -> paid x outs = bo_value o.
Proof.
  revert j. induction outs as [|o' outs IH]; intros j Hj Hx Hu; [done|]. rewrite paid_to_cons. destruct j as [|j].
  - injection Hj as <-. rewrite decide_True by done. rewrite paid_none; [lia|]. apply Forall_lookup. intros i o'' Hi E.
    by specialize (Hu (S i) o'' Hi E).
  - rewrite decide_False by (intros E; by specialize (Hu 0%nat o' eq_refl E)).
    rewrite (IH j); [lia|done|done|]. intros j' o'' Hj' E. specialize (Hu (S j') o'' Hj' E). lia.
Qed.

Lemma paid_to_fold dest outs n v n' v' :
  Forall output_sized outs ->
  foldl (fun a o => if (bo_value o >? 0) && bytes_eqb (spk o) dest then (a.1 + 1, bo_value o) else a) (n, v) outs = (n', v') ->
  n <= n' /\ (n' = n -> v' = v /\ paid dest outs = 0) /\ (n' = n + 1 -> paid dest outs = v').
Proof.
  intros Hs. revert n v. induction Hs as [|o outs [Ho _] Hs IH]; intros n v; cbn [foldl].
  { intros [= -> ->]. split_and!; [lia|done|lia]. }
  rewrite paid_to_cons. unfold fits in Ho. destruct (bytes_eqb (spk o) dest) eqn:E.
  - apply bytes_eqb_eq in E. rewrite decide_True by done. destruct (Z.gtb_spec (bo_value o) 0); cbn [andb].
    + intros H'. apply IH in H' as (H1 & H2 & _). cbn [fst] in *. split_and!; [lia|lia|]. intros Hn. destruct H2 as [-> ->]; lia.
    + intros H'. apply IH in H' as (H1 & H2 & H3). split_and!; [lia|intros Hn; destruct (H2 Hn); split; [done|lia]|].
      intros Hn. specialize (H3 Hn). lia.
  - rewrite andb_false_r. apply bytes_eqb_false in E. rewrite decide_False by done. intros H'. apply IH in H' as (H1 & H2 & H3).
    split_and!; [lia|intros Hn; destruct (H2 Hn); split; [done|lia]|]. intros Hn. specialize (H3 Hn). lia.
Qed.

Lemma paid_to_one dest outs v : Forall output_sized outs -> paid_to dest outs = (1, v) -> paid dest outs = v.
Proof. intros Hs H. by apply (paid_to_fold dest outs 0 0 1 v Hs H). Qed.

(** When no other input spends custody, the reserve inputs are all of custody. *)
Lemma scan_inputs_paid custody s live i prevs spent cur oth idx c o k :
  length spent = length prevs ->
  scan_inputs custody s live i prevs spent cur oth idx = Some (c, o, k) ->
  oth <= o /\ (o = oth -> paid custody spent = (c - cur) * reserve_value_sats s).
Proof.
  revert i spent cur oth idx. induction prevs as [|p prevs IH]; intros i [|out spent] cur oth idx Hl; try done; cbn [scan_inputs].
  { intros [= <- <- _]. split; [lia|]. intros _. rewrite Z.sub_diag. done. }
  injection Hl as Hl. rewrite paid_to_cons. destruct (_ && _ && _).
  - destruct (bytes_eqb (spk out) custody) eqn:E; cbn [negb orb]; [|done]. apply bytes_eqb_eq in E.
    destruct (Z.eqb_spec (bo_value out) (reserve_value_sats s)); cbn [negb]; [|done].
    intros [H1 H2]%IH; [|done]. rewrite decide_True by done. split; [lia|]. intros Ho. rewrite H2 by done. lia.
  - destruct (bytes_eqb (spk out) custody) eqn:E.
    + intros [H1 H2]%IH; [|done]. split; lia.
    + intros [H1 H2]%IH; [|done]. apply bytes_eqb_false in E. rewrite decide_False by done. split; [lia|]. intros Ho. by rewrite H2.
Qed.

(** ** The recipient is the depositor's choice *)

Definition null_output (o : BtcTxOut) : bool := negb (size (spk o) =? 0) && (nth 0 (spk o) 0 =? 0x6a).
Definition tagged_output (o : BtcTxOut) : bool :=
  let data := ExtractOpReturn (spk o) in negb ((size data <=? size RECIPIENT_TAG) || negb (bytes_eqb (take 8 data) RECIPIENT_TAG)).

Lemma op_return_null o : ExtractOpReturn (spk o) <> [] -> null_output o = true.
Proof.
  unfold ExtractOpReturn, null_output. destruct (Z.ltb_spec (size (spk o)) 2); [done|].
  destruct (Z.eqb_spec (nth 0 (spk o) 0) 0x6a); cbn [negb orb]; [|done]. intros _. by rewrite (proj2 (Z.eqb_neq _ _)) by lia.
Qed.

Lemma tagged_null o : tagged_output o = true -> null_output o = true.
Proof.
  unfold tagged_output. intros H. apply op_return_null. intros E. rewrite E in H. done.
Qed.

Lemma marker_null o m : ParseAuthMarker o = Some m -> null_output o = true /\ tagged_output o = false.
Proof.
  unfold ParseAuthMarker. cbv zeta. intros H. head_guard H. prop_hyps.
  set (data := ExtractOpReturn (spk o)) in *.
  assert (slice 0 4 data = AUTH_MAGIC) as Hm by assumption. split.
  - apply op_return_null. fold data. intros E. by rewrite E in Hm.
  - unfold tagged_output. fold data. destruct (bytes_eqb (take 8 data) RECIPIENT_TAG) eqn:Et; [|by rewrite orb_true_r].
    apply bytes_eqb_eq in Et. exfalso. unfold slice in Hm. rewrite drop_0 in Hm.
    assert (take 4 (take 8 data) = take 4 data) as E4 by (rewrite take_take; done). rewrite Et, Hm in E4. discriminate E4.
Qed.

(** Tagged recipients and markers are null-data outputs, and no output is both. *)
Lemma recipients_bound custody i outs s m rc :
  m <= fst (recipients outs m rc)
  /\ fst (recipients outs m rc) - m + (auth_count (scan_outputs custody i outs s) - auth_count s)
     <= null_data_count (scan_outputs custody i outs s) - null_data_count s.
Proof.
  revert i s m rc. induction outs as [|o outs IH]; intros i s m rc; cbn [recipients scan_outputs fst]; [lia|].
  fold (null_output o). pose proof (tagged_null o) as Ht. unfold tagged_output in Ht. cbv zeta in Ht.
  pose proof (marker_null o) as Hm. unfold tagged_output in Hm. cbv zeta in Hm.
  destruct (_ || _) eqn:E in |- *; rewrite E in Ht, Hm; cbn [negb] in Ht, Hm;
    (destruct (ParseAuthMarker o) as [mk|] eqn:Em; [destruct (Hm mk eq_refl) as [Hn Htf]|]); try discriminate Htf;
    try (rewrite Hn); try (rewrite (Ht eq_refl)); try (destruct (null_output o));
    destruct (bytes_eqb (spk o) custody);
    match goal with |- context [recipients outs ?m' ?r'] =>
      match goal with |- context [scan_outputs custody (i + 1) outs ?x] => pose proof (IH (i + 1) x m' r') as [I1 I2] end end;
    cbn [auth_count null_data_count] in I2; lia.
Qed.

(** A transaction that opens the reserve names no other recipient. *)
Lemma opening_not_tagged custody outs :
  auth_count (scan custody outs) = 1 -> null_data_count (scan custody outs) = 1 -> (ExtractRecipient outs).1 = false.
Proof.
  unfold scan, ExtractRecipient. intros Ha Hn.
  pose proof (recipients_bound custody 0 outs (mkScan 0 0 NoMarker 0 NO_VOUT 0) 0 []) as [H1 H2]. cbn [auth_count null_data_count] in H2.
  destruct (recipients outs 0 []) as [m rc]. cbn [fst] in *. apply Z.eqb_neq. lia.
Qed.

(** The recipient a deposit's transaction names: the tagged one, or the opening marker's. *)
Definition committed_recipient (custody_spk : bytes) (outs : list BtcTxOut) : bytes :=
  if (ExtractRecipient outs).1 then (ExtractRecipient outs).2 else open_recipient (auth (scan custody_spk outs)).

(** ** What an accepted proof shows *)

Section Accepted.
Context (custody_spk : bytes) (valid_recipient : bytes -> bool).
Context (cfg : BtcHeaderChain.Config) (headers : BtcHeaderChain.t) (s : State) (supply depth : Z) (payout : PayoutContext).
Context (payload : bytes) (r : Result).
Context (Hpay : is_bytes payload).
Context (Hver : Verify custody_spk valid_recipient cfg headers s supply payload depth payout = Some r).

Lemma accepted_sized : claim_sized (claim r) /\ claim_bounds (claim r) /\ 0 <= reserve_value_sats s.
Proof.
  destruct (Verify_inv _ _ _ _ _ _ _ _ _ _ Hver) as (c & Hd & Ha & parsed & Hp & Hf).
  destruct (proof_encode_decode _ _ Hpay Hd) as (Hs & Hb & _).
  assert (0 <= reserve_value_sats s) as HV.
  { unfold admissible in Ha. bool_hyps. match goal with H : MatchesPrior s c = true |- _ => apply MatchesPrior_inv in H as (_ & _ & _ & _ & H & _) end.
    pose proof (cz_prior_value _ Hs) as Hf'. unfold fits in Hf'. lia. }
  destruct (verify_admissible custody_spk valid_recipient cfg headers s supply depth payout c HV Ha) as (parsed' & r' & Hp' & Hf' & Hag).
  assert (r' = r) as -> by congruence. destruct Hag as [-> _]. done.
Qed.

(** The classifier's facts behind the proof. *)
Lemma accepted_facts :
  let c := claim r in
  let k := classified custody_spk valid_recipient s supply payout c in
  DecodeProof payload = Some c /\ admissible custody_spk valid_recipient cfg headers s supply depth payout c = true
  /\ agrees c k payout r
  /\ exists parsed f total cur oth idx,
     authorized custody_spk valid_recipient s supply (bitcoin_tx c) (direct_parents c) (lookup_of payout) k parsed f total cur oth idx
     /\ bitcoin_txid c = wt_txid parsed /\ settled_on_bitcoin cfg headers depth c = true.
Proof.
  cbv zeta. destruct accepted_sized as (_ & _ & HV).
  pose proof (Verify_exact custody_spk valid_recipient cfg headers s supply depth payout payload HV) as H.
  rewrite Hver in H. destruct H as (Hd & Ha & Hag). split_and!; [done..|].
  unfold admissible in Ha. bool_hyps.
  match goal with H : claim_matches _ _ = true |- _ => destruct (claim_matches_inv _ _ H) as [Hdi _] end.
  destruct (classify_authorized _ _ _ _ _ _ _ Hdi) as (parsed & f & total & cur & oth & idx & A).
  exists parsed, f, total, cur, oth, idx. split; [exact A|].
  match goal with H : settled_on_bitcoin _ _ _ _ = true |- _ => split; [|exact H]; unfold settled_on_bitcoin in H end.
  rewrite (az_tx _ _ _ _ _ _ _ _ _ _ _ _ _ _ A) in *. bool_hyps. by apply bytes_eqb_eq.
Qed.

(** The new reserve is a custody output of the proven transaction, and the deposit behind a
    mint is a custody output of a transaction in which the depositor named the recipient. *)
Definition deposit_behind (c : Claim) (parsed : WitnessAwareBtcTx) (value : Z) : Prop :=
  exists parent i o,
    btc_outputs parent !! i = Some o /\ spk o = custody_spk /\ bo_value o = value
    /\ pending_outpoint r = BtcDepositOutpointId (wt_txid parent) (Z.of_nat i)
    /\ recipient r = committed_recipient custody_spk (btc_outputs parent) /\ valid_recipient (recipient r) = true
    /\ ((status s = EMPTY /\ parent = parsed)
        \/ (status s = ACTIVE /\ (exists raw, raw ∈ direct_parents c /\ ParseTx raw = Some parent)
            /\ mkPrevout (wt_txid parent) (Z.of_nat i) ∈ prevouts parsed
            /\ mkPrevout (reserve_txid s) (reserve_vout s) ∈ prevouts parsed)).

Lemma accepted_deposit :
  consumes_deposit (operation (claim r)) = true ->
  exists parsed j out value,
    ParseReserveTx (bitcoin_tx (claim r)) = Some parsed /\ settled_on_bitcoin cfg headers depth (claim r) = true
    /\ btc_outputs parsed !! j = Some out /\ spk out = custody_spk
    /\ new_reserve_txid (claim r) = wt_txid parsed /\ new_reserve_vout (claim r) = Z.of_nat j
    /\ new_reserve_value (claim r) = bo_value out /\ bo_value out <= BTCVELD_SPV_MAX_CUSTODY_SATS
    /\ 0 <= mint_amount (claim r) <= bo_value out - reserve_value_sats s /\ bo_value out - reserve_value_sats s <= value
    /\ deposit_behind (claim r) parsed value.
Proof.
  intros Hc. destruct accepted_facts as (_ & Ha & Hag & parsed & f & total & cur & oth & idx & A & Htx & Hset).
  destruct accepted_sized as (Hs & _ & HV). pose proof (cz_mint _ Hs) as Hmf. unfold fits in Hmf.
  unfold admissible in Ha. bool_hyps.
  match goal with H : claim_matches _ _ = true |- _ => destruct (claim_matches_inv _ _ H) as (_ & Eo & Et & En & Ev & Ew & Ee & Em) end.
  destruct Hag as (_ & Hr & Hpo & _). pose proof (az_tx _ _ _ _ _ _ _ _ _ _ _ _ _ _ A) as Hp.
  pose proof (az_operation _ _ _ _ _ _ _ _ _ _ _ _ _ _ A) as Eop. pose proof (az_mint _ _ _ _ _ _ _ _ _ _ _ _ _ _ A) as Emi.
  pose proof (az_txid _ _ _ _ _ _ _ _ _ _ _ _ _ _ A) as Etx. set (c := claim r) in *.
  set (k := classified _ _ _ _ _ _) in *. set (sc := scan custody_spk (btc_outputs parsed)) in *.
  destruct (az_shape _ _ _ _ _ _ _ _ _ _ _ _ _ _ A) as [(Hst & Hop & Hsh)|(Hst & Hcur & Hx & i & Hi & Hsh)].
  - fold sc in Hsh. destruct Hsh as (_ & _ & S1 & S2 & S3 & S4 & S5 & S6 & S7 & S8 & S9 & S10 & S11 & S12).
    destruct (successor_index _ _ _ Hp S1) as (j & o & Hj & Ho & Hv & _ & Hw & _). fold sc in Hv, Hw.
    destruct (empty_outpoint s) as (_ & _ & Hz); [done|done|].
    exists parsed, j, o, (bo_value o). rewrite Hz in *. split_and!; try done; try congruence; try lia.
    exists parsed, j, o. rewrite Hr, Hpo. split_and!; try done.
    + rewrite S12. f_equal; congruence.
    + unfold committed_recipient. rewrite (opening_not_tagged custody_spk); [done|..];
        [exact (az_auth _ _ _ _ _ _ _ _ _ _ _ _ _ _ A)|exact (az_null _ _ _ _ _ _ _ _ _ _ _ _ _ _ A)].
    + by left.
  - fold sc in Hsh. assert (au_operation (auth sc) = DEPOSIT) as Hdep.
    { unfold consumes_deposit in Hc. assert (operation c = au_operation (auth sc)) as E by congruence. rewrite E in Hc.
      destruct (au_operation (auth sc)); try done. }
    rewrite Hdep in Hsh. destruct Hsh as (S1 & S2 & S3 & S4 & S5 & (parent & prev & spent & Hd) & _ & S7 & S8 & S9). cbv zeta in Hd.
    destruct (successor_index _ _ _ Hp S3) as (j & o & Hj & Ho & Hv & _ & Hw & _). fold sc in Hv, Hw.
    destruct (ReadInputFacts_spec _ _ _ _ Hp (az_facts _ _ _ _ _ _ _ _ _ _ _ _ _ _ A)) as (F1 & F2 & F3 & F4 & F5).
    pose proof (az_inputs _ _ _ _ _ _ _ _ _ _ _ _ _ _ A) as Hin. rewrite Hcur, S2, Hi in Hin.
    assert (length (f_prevouts f) = 2%nat) as Hl2 by (unfold size in S1; lia).
    destruct (pending_pays_custody _ _ _ _ _ _ Hl2 ltac:(rewrite F2, <- F1; exact Hl2) Hin) as (out & Hout & Hspk).
    set (pending := if (i =? 0)%nat then 1%nat else 0%nat) in *.
    destruct Hd as (D1 & D2 & D3 & D4 & D5 & _ & D7 & D8 & _ & D10). rewrite Hout in D5. injection D5 as ->.
    rewrite F1 in D4. destruct (F5 _ _ D4) as (parent' & out' & G1 & G2 & G3 & G4).
    assert (parent' = parent) as -> by congruence. assert (out' = spent) as -> by congruence.
    exists parsed, j, o, (bo_value spent). split_and!; try done; try congruence; try lia.
    destruct (scan_inputs_current _ _ _ _ _ _ _ _ _ _ _ _ Hin) as [Hbad|(q & p & o2 & _ & Q1 & _ & Q2 & Q3 & _)]; [done|].
    assert (0 <= po_vout prev) as Hpv.
    { destruct (parse_sized _ _ _ _ (cz_tx _ Hs) Hp) as [Hps _]. rewrite Forall_lookup in Hps. destruct (Hps _ _ D4) as [_ Hv4].
      unfold fits in Hv4. lia. }
    exists parent, (Z.to_nat (po_vout prev)), spent. rewrite Hr, Hpo. split_and!; try done.
    + rewrite D10. f_equal; [congruence|lia].
    + unfold committed_recipient. by rewrite D2.
    + right. split_and!; [done| | |].
      * exists (nth pending (direct_parents c) []). split; [|done]. apply list_elem_of_lookup_2 with pending.
        apply nth_lookup_of_lt. rewrite F3, <- F1. apply lookup_lt_Some in Hout. rewrite F2, <- F1 in Hout. exact Hout.
      * apply list_elem_of_lookup_2 with pending. rewrite D4. f_equal. destruct prev as [pt pv]. cbn in *. f_equal; [congruence|lia].
      * apply list_elem_of_lookup_2 with q. rewrite F1 in Q1. rewrite Q1. f_equal. destruct p as [pt pv]. cbn in *. congruence.
Qed.

(** A payout takes from the reserve the principal and nothing else. *)
Lemma accepted_payout :
  operation (claim r) = PAYOUT ->
  exists parsed f,
    ParseReserveTx (bitcoin_tx (claim r)) = Some parsed /\ settled_on_bitcoin cfg headers depth (claim r) = true
    /\ ReadInputFacts (bitcoin_tx (claim r)) (direct_parents (claim r)) = Some f
    /\ request_commitment payout = exact_commitment (claim r) /\ 0 < principal_sats payout <= open_redemption_principal s
    /\ paid (destination_spk payout) (btc_outputs parsed) = principal_sats payout
    /\ paid custody_spk (spent_outputs f) = reserve_value_sats s
    /\ paid custody_spk (btc_outputs parsed) = reserve_value_sats s - principal_sats payout
    /\ new_reserve_value (claim r) = reserve_value_sats s - principal_sats payout
    /\ values (btc_outputs parsed) <= values (spent_outputs f).
Proof.
  intros Hc. destruct accepted_facts as (_ & Ha & Hag & parsed & f & total & cur & oth & idx & A & Htx & Hset).
  destruct accepted_sized as (Hs & _ & HV). unfold admissible in Ha. bool_hyps.
  match goal with H : claim_matches _ _ = true |- _ => destruct (claim_matches_inv _ _ H) as (_ & Eo & Et & En & Ev & Ew & Ee & Em) end.
  pose proof (az_tx _ _ _ _ _ _ _ _ _ _ _ _ _ _ A) as Hp. pose proof (az_facts _ _ _ _ _ _ _ _ _ _ _ _ _ _ A) as Hfa.
  pose proof (az_operation _ _ _ _ _ _ _ _ _ _ _ _ _ _ A) as Eop. pose proof (az_inputs _ _ _ _ _ _ _ _ _ _ _ _ _ _ A) as Hin.
  pose proof (az_conserved _ _ _ _ _ _ _ _ _ _ _ _ _ _ A) as Hcons.
  pose proof (sum_outputs_values _ _ _ (az_total _ _ _ _ _ _ _ _ _ _ _ _ _ _ A)) as Htot.
  destruct (ReadInputFacts_spec _ _ _ _ Hp Hfa) as (F1 & F2 & _ & F4 & _).
  set (c := claim r) in *. set (k := classified _ _ _ _ _ _) in *. set (sc := scan custody_spk (btc_outputs parsed)) in *.
  destruct (parse_sized _ _ _ _ (cz_tx _ Hs) Hp) as [_ Hsz].
  destruct (az_shape _ _ _ _ _ _ _ _ _ _ _ _ _ _ A) as [(_ & Hop & _)|(Hst & Hcur & Hx & i & Hi & Hsh)].
  { fold sc in Hop. congruence. }
  fold sc in Hsh, Hx. assert (au_operation (auth sc) = PAYOUT) as Hpo by congruence. rewrite Hpo in Hsh.
  destruct Hsh as (p & Hl & _ & P1 & P2 & P3 & P4 & P5 & P6 & P7 & P8 & P9 & _ & _ & P10).
  unfold lookup_of in Hl. head_guard Hl. injection Hl as <-. prop_hyps.
  assert (length (spent_outputs f) = length (f_prevouts f)) as Hlen by (rewrite F1; exact F2).
  destruct (scan_inputs_paid _ _ _ _ _ _ _ _ _ _ _ _ Hlen Hin) as [_ Hpaid].
  assert (new_reserve_value c = reserve_value_sats s - principal_sats payout
          /\ paid custody_spk (btc_outputs parsed) = reserve_value_sats s - principal_sats payout) as [Hnv Hcp].
  { destruct P10 as [(S1 & S2 & _ & _ & S5)|(S1 & S2 & S3 & _ & _ & S6)].
    - split; [lia|]. rewrite paid_none; [lia|]. by apply scan_none.
    - split; [lia|]. destruct (scan_one _ _ S2) as (j & o & Hj & Ho & _ & Hw & Hu). fold sc in Hw. rewrite (paid_unique _ _ j o) by done. lia. }
  exists parsed, f. rewrite (Hpaid P4).
  pose proof (paid_to_one _ _ _ Hsz P9). pose proof (paid_nonneg (destination_spk payout) _ Hsz).
  split_and!; try done; try congruence; lia.
Qed.

(** What is minted goes to an address that the ledger may credit. *)
Lemma accepted_credit :
  0 <= mint_amount (claim r) /\ (mint_amount (claim r) = 0 \/ valid_recipient (recipient r) = true).
Proof.
  destruct (consumes_deposit (operation (claim r))) eqn:Hc.
  { destruct (accepted_deposit Hc) as (parsed & j & out & value & _ & _ & _ & _ & _ & _ & _ & _ & [Hm _] & _ & Hd).
    split; [exact Hm|]. right. destruct Hd as (parent & i & o & _ & _ & _ & _ & _ & Hv & _). exact Hv. }
  destruct accepted_facts as (_ & Ha & _ & parsed & f & total & cur & oth & idx & A & _).
  unfold admissible in Ha. bool_hyps.
  match goal with H : claim_matches _ _ = true |- _ => destruct (claim_matches_inv _ _ H) as (_ & Eo & _ & _ & _ & _ & _ & Em) end.
  pose proof (az_operation _ _ _ _ _ _ _ _ _ _ _ _ _ _ A) as Eop. pose proof (az_mint _ _ _ _ _ _ _ _ _ _ _ _ _ _ A) as Emi.
  set (sc := scan custody_spk (btc_outputs parsed)) in *.
  assert (operation (claim r) = au_operation (auth sc)) as Eau by congruence.
  assert (mint_amount (claim r) = au_mint_amount (auth sc)) as Emint by congruence. rewrite Eau in Hc. rewrite Emint.
  destruct (az_shape _ _ _ _ _ _ _ _ _ _ _ _ _ _ A) as [(_ & Hop & _)|(_ & _ & _ & i & _ & Hsh)]; [fold sc in Hop; by rewrite Hop in Hc|].
  fold sc in Hsh.
  destruct (au_operation (auth sc)); try done.
  - destruct Hsh as (_ & _ & _ & -> & _). split; [lia|by left].
  - destruct Hsh as (p & _ & _ & _ & _ & _ & _ & _ & -> & _). split; [lia|by left].
  - destruct Hsh as (_ & _ & -> & _). split; [lia|by left].
Qed.

End Accepted.

(** ** Deposits cannot be redirected *)

(** The serializations a claim's transaction ids stand for. *)
Definition claim_preimages (c : Claim) : list bytes :=
  txid_preimage (bitcoin_tx c) MAX_DIRECT_INPUTS 100000 :: map (fun raw => txid_preimage raw 100000 100000) (direct_parents c).

Lemma parse_txid_hash p mi mo t : ParseWitnessAwareBtcTx p mi mo = Some t -> is_hash (wt_txid t).
Proof. intros [-> _]%parse_inv. apply Hash256d_hash. Qed.

Lemma outpoint_id_inj t v t' v' :
  is_hash t -> is_hash t' -> BtcDepositOutpointId t v = BtcDepositOutpointId t' v' -> t = t'.
Proof.
  intros [Hl Hb] [Hl' Hb'] H. unfold BtcDepositOutpointId, BtcDisplayTxid in H.
  apply app_inj_1 in H as [H _]; [|rewrite !length_BytesToHex, !length_rev; lia].
  apply BytesToHex_inj in H; [|by apply Forall_rev..]. by rewrite <- (rev_involutive t), H, rev_involutive.
Qed.

(** The transaction that made the deposit of an accepted proof, with its serialization. *)
Lemma deposit_source custody valid s r c parsed value :
  ParseReserveTx (bitcoin_tx c) = Some parsed -> deposit_behind custody valid s r c parsed value ->
  exists raw mi mo parent i, txid_preimage raw mi mo ∈ claim_preimages c /\ ParseWitnessAwareBtcTx raw mi mo = Some parent
  /\ pending_outpoint r = BtcDepositOutpointId (wt_txid parent) i /\ recipient r = committed_recipient custody (btc_outputs parent).
Proof.
  intros Hp (parent & i & o & _ & _ & _ & Ho & Hr & _ & [(_ & ->)|(_ & (raw & Hraw & Hpr) & _)]).
  - exists (bitcoin_tx c), MAX_DIRECT_INPUTS, 100000, parsed, (Z.of_nat i). split_and!; [by left|done..].
  - exists raw, 100000, 100000, parent, (Z.of_nat i). split_and!; [|done..]. right.
    by apply (list_elem_of_fmap_2 (fun raw => txid_preimage raw 100000 100000)).
Qed.

(** ** Sample proofs *)

Definition sample_custody : bytes := [0; 20] ++ replicate 20 7.
Definition sample_out (v : Z) (script : bytes) : bytes := put_le 8 v ++ put_le 1 (size script) ++ script.
Definition sample_in (txid : Hash256) : bytes := txid ++ put_le 4 0 ++ [0] ++ put_le 4 UINT32_MAX.
Definition sample_body (ins outs : list bytes) : bytes := [size ins] ++ concat ins ++ [size outs] ++ concat outs.
Definition sample_tx (ins outs : list bytes) : bytes := put_le 4 2 ++ sample_body ins outs ++ put_le 4 0.
(** The same transaction with a one-byte witness for its single input. *)
Definition sample_witness_tx (ins outs : list bytes) : bytes :=
  put_le 4 2 ++ [0; 1] ++ sample_body ins outs ++ [1; 1; 42] ++ put_le 4 0.

(** A header chain of one block, whose only transaction is [txid]. *)
Definition sample_block : Hash256 := replicate 32 3.
Definition chain_over (txid : Hash256) : BtcHeaderChain.t :=
  BtcHeaderChain.mk {[sample_block := mkBtcHeader [] sample_block ZeroHash txid 0 0 0 []]} sample_block sample_block
    [sample_block].
Definition sample_cfg : BtcHeaderChain.Config :=
  BtcHeaderChain.mkConfig [] 2016 1209600 false (mkBtcCheckpoint 0 sample_block 0 0 [] []).

Definition sample_parent : bytes := sample_tx [sample_in (replicate 32 9)] [sample_out 200000 [0x51]].
Definition sample_parent_txid : Hash256 := Eval vm_compute in Hash256d sample_parent.
Definition sample_binding : Hash256 := Eval vm_compute in NetworkBinding.
Definition sample_prior : Hash256 := Eval vm_compute in EmptyTransitionCommitment.

(** An opening of 150,000 sats that mints 100,000, and the same with a witness. *)
Definition opening_outs : list bytes := Eval vm_compute in
  [sample_out 150000 sample_custody; sample_out 0 (OpenAuthScript sample_prior auth_address 100000)].
Definition opening_tx : bytes := Eval vm_compute in sample_tx [sample_in sample_parent_txid] opening_outs.
Definition opening_witness_tx : bytes := Eval vm_compute in sample_witness_tx [sample_in sample_parent_txid] opening_outs.
Definition opening_txid : Hash256 := Eval vm_compute in Hash256d opening_tx.
Definition opening_commitment : Hash256 := Eval vm_compute in OpenDepositCommitment 0 150000 auth_address.
Definition opening_claim (tx : bytes) : Claim :=
  mkClaim OPEN sample_binding sample_prior ZeroHash NO_VOUT 0 0 opening_txid 0 150000 opening_txid sample_block
    0 [] opening_commitment 100000 tx [sample_parent] EmptyProof true.
Definition opening_payload (tx : bytes) : bytes := encode_claim (opening_claim tx) (replicate 32 0).

(** A reserve of 300,000 sats with a redemption of 120,000 open, and its payout. *)
Definition reserve_parent : bytes := sample_tx [sample_in (replicate 32 8)] [sample_out 300000 sample_custody].
Definition reserve_parent_txid : Hash256 := Eval vm_compute in Hash256d reserve_parent.
Definition paying_state : State :=
  mkState ACTIVE reserve_parent_txid 0 300000 sample_block 1 (replicate 32 5) 0 120000 0 ZeroHash.
Definition payout_request : PayoutContext := mkPayout true (replicate 32 6) (replicate 32 4) 120000 [0x51].
Definition payout_tx : bytes := Eval vm_compute in
  sample_tx [sample_in reserve_parent_txid; sample_in sample_parent_txid]
    [sample_out 180000 sample_custody; sample_out 120000 [0x51];
     sample_out 0 (AuthScript PAYOUT (replicate 32 5) (replicate 32 4) 0)].
Definition payout_txid : Hash256 := Eval vm_compute in Hash256d payout_tx.
Definition payout_claim : Claim :=
  mkClaim PAYOUT sample_binding (replicate 32 5) reserve_parent_txid 0 300000 1 payout_txid 0 180000 payout_txid
    sample_block 0 [] (replicate 32 4) 0 payout_tx [reserve_parent; sample_parent] EmptyProof false.
Definition payout_payload : bytes := encode_claim payout_claim [].

#[local] Notation verify_opening tx :=
  (Verify sample_custody IsCanonicalTokenCreditAddress sample_cfg (chain_over opening_txid) InitialState 0
     (opening_payload tx) 0 NoPayout).
#[local] Notation verify_payout_sample :=
  (Verify sample_custody IsCanonicalTokenCreditAddress sample_cfg (chain_over payout_txid) paying_state 180000
     payout_payload 0 payout_request).

(** The operation a result carries out, and the outpoint and the serializations it uses. *)
Definition summary (o : option Result) : option (Operation * bytes * list bytes) :=
  match o with
  | Some r => Some (operation (claim r), pending_outpoint r, claim_preimages (claim r))
  | None => None
  end.

Lemma summary_inv o op p l :
  summary o = Some (op, p, l) ->
  exists r, o = Some r /\ operation (claim r) = op /\ pending_outpoint r = p /\ claim_preimages (claim r) = l.
Proof. destruct o as [r|]; [|discriminate]. intros [= <- <- <-]. exists r. split_and!; reflexivity. Qed.

Definition opening_outpoint : bytes := Eval vm_compute in BtcDepositOutpointId opening_txid 0.

Lemma opening_verifies :
  summary (verify_opening opening_tx) = Some (OPEN, opening_outpoint, [opening_tx; sample_parent]).
Proof. vm_compute. reflexivity. Qed.

Lemma opening_witness_verifies :
  summary (verify_opening opening_witness_tx) = Some (OPEN, opening_outpoint, [opening_tx; sample_parent]).
Proof. vm_compute. reflexivity. Qed.

Lemma payout_verifies : (summary verify_payout_sample ≫= fun x => Some x.1.1) = Some PAYOUT.
Proof. vm_compute. reflexivity. Qed.

Lemma sample_payloads : is_bytes (opening_payload opening_tx) /\ is_bytes (opening_payload opening_witness_tx) /\ is_bytes payout_payload.
Proof.
  split_and!; apply (bool_decide_unpack _); vm_compute; exact I.
Qed.

(** The two serializations in the sample proofs have different hashes. *)
Lemma sample_preimages a b :
  a ∈ [opening_tx; sample_parent] -> b ∈ [opening_tx; sample_parent] -> Hash256d a = Hash256d b -> a = b.
Proof.
  assert (bytes_eqb opening_txid sample_parent_txid = false) as Hne by (vm_compute; reflexivity).
  assert (Hash256d opening_tx = opening_txid) as H1 by (vm_compute; reflexivity).
  assert (Hash256d sample_parent = sample_parent_txid) as H2 by (vm_compute; reflexivity).
  apply bytes_eqb_false in Hne. rewrite !list_elem_of_In.
  intros [<-|[<-|[]]] [<-|[<-|[]]]; rewrite ?H1, ?H2; intros E; [reflexivity|exfalso|exfalso|reflexivity].
  - apply Hne. exact E.
  - apply Hne. symmetry. exact E.
Qed.

(** ** Claims *)

(** C35: the verifier is the classifier. [Verify] reads the transaction a second time after
    [ClassifyBitcoinReserveSpend] has authorized it; for every payload it accepts exactly
    the claims that a single pass accepts, whose fields are those of the classification, and
    its result carries what the classifier found. The path that freezes the reserve and the
    path that advances it can therefore never judge one Bitcoin spend differently. *)
Theorem verify_is_classification custody valid cfg headers s supply depth payout payload :
  0 <= reserve_value_sats s ->
  match Verify custody valid cfg headers s supply payload depth payout with
  | Some r => DecodeProof payload = Some (claim r)
              /\ admissible custody valid cfg headers s supply depth payout (claim r) = true
              /\ agrees (claim r) (classified custody valid s supply payout (claim r)) payout r
  | None => forall c, DecodeProof payload = Some c -> admissible custody valid cfg headers s supply depth payout c = false
  end.
Proof. apply Verify_exact. Qed.

Lemma verify_is_classification_witness :
  exists r, verify_opening opening_tx = Some r /\ operation (claim r) = OPEN
  /\ DecodeProof (opening_payload opening_tx) = Some (claim r)
  /\ disposition (classified sample_custody IsCanonicalTokenCreditAddress InitialState 0 NoPayout (claim r)) = AUTHORIZED_TRANSITION.
Proof.
  destruct (summary_inv _ _ _ _ opening_verifies) as (r & Hr & Hop & _). exists r. split; [exact Hr|]. split; [exact Hop|].
  assert (0 <= reserve_value_sats InitialState) as H0 by (cbn [reserve_value_sats InitialState]; lia).
  pose proof (verify_is_classification sample_custody IsCanonicalTokenCreditAddress sample_cfg (chain_over opening_txid)
    InitialState 0 0 NoPayout (opening_payload opening_tx) H0) as H.
  rewrite Hr in H. destruct H as (Hd & Ha & _). split; [exact Hd|].
  unfold admissible in Ha. bool_hyps.
  match goal with H : claim_matches _ _ = true |- _ => exact (proj1 (claim_matches_inv _ _ H)) end.
Defined.

(** C11: every mint is backed by Bitcoin. An accepted proof that opens the reserve or adds a
    deposit names a transaction in a Bitcoin block final for external value; the new reserve
    is that transaction's output to the custody script, within the cap; it exceeds the old
    reserve by at least the mint and by at most the value of a deposit paid to the custody
    script, in a transaction that names the recipient, and spent together with the old
    reserve. *)
Theorem mint_backed custody valid cfg headers s supply depth payout payload r :
  is_bytes payload -> Verify custody valid cfg headers s supply payload depth payout = Some r ->
  consumes_deposit (operation (claim r)) = true ->
  exists parsed j out value,
    ParseReserveTx (bitcoin_tx (claim r)) = Some parsed /\ settled_on_bitcoin cfg headers depth (claim r) = true
    /\ btc_outputs parsed !! j = Some out /\ spk out = custody
    /\ new_reserve_txid (claim r) = wt_txid parsed /\ new_reserve_vout (claim r) = Z.of_nat j
    /\ new_reserve_value (claim r) = bo_value out /\ bo_value out <= BTCVELD_SPV_MAX_CUSTODY_SATS
    /\ 0 <= mint_amount (claim r) <= bo_value out - reserve_value_sats s /\ bo_value out - reserve_value_sats s <= value
    /\ deposit_behind custody valid s r (claim r) parsed value.
Proof. apply accepted_deposit. Qed.

Lemma mint_backed_witness :
  exists r, verify_opening opening_tx = Some r /\ operation (claim r) = OPEN
  /\ exists parsed j out, ParseReserveTx (bitcoin_tx (claim r)) = Some parsed /\ btc_outputs parsed !! j = Some out
     /\ spk out = sample_custody /\ mint_amount (claim r) <= bo_value out.
Proof.
  destruct (summary_inv _ _ _ _ opening_verifies) as (r & Hr & Hop & _). exists r. split; [exact Hr|]. split; [exact Hop|].
  destruct (mint_backed sample_custody IsCanonicalTokenCreditAddress sample_cfg (chain_over opening_txid) InitialState 0 0
    NoPayout (opening_payload opening_tx) r) as (parsed & j & out & v & H1 & _ & H3 & H4 & _ & _ & _ & _ & H8 & _).
  - exact (proj1 sample_payloads).
  - exact Hr.
  - rewrite Hop. reflexivity.
  - exists parsed, j, out. cbn [reserve_value_sats InitialState] in H8. split_and!; [exact H1|exact H3|exact H4|lia].
Defined.

(** C22: a deposit cannot be redirected. Two accepted proofs that use one Bitcoin outpoint,
    whoever relays them, whatever the states they are checked against and whatever witnesses
    their transactions carry, credit the recipient its depositor named, unless SHA-256
    collides on the transactions they contain. *)
Theorem deposit_recipient_fixed custody valid cfg cfg' headers headers' s s' supply supply' depth depth' payout payout'
    payload payload' r r' :
  is_bytes payload -> Verify custody valid cfg headers s supply payload depth payout = Some r ->
  is_bytes payload' -> Verify custody valid cfg' headers' s' supply' payload' depth' payout' = Some r' ->
  consumes_deposit (operation (claim r)) = true -> consumes_deposit (operation (claim r')) = true ->
  (forall a b, a ∈ claim_preimages (claim r) -> b ∈ claim_preimages (claim r') -> Hash256d a = Hash256d b -> a = b) ->
  pending_outpoint r = pending_outpoint r' -> recipient r = recipient r'.
Proof.
  intros Hb Hv Hb' Hv' Hc Hc' Hcol Ho.
  destruct (accepted_deposit _ _ _ _ _ _ _ _ _ _ Hb Hv Hc) as (p & _ & _ & w & Hp & _ & _ & _ & _ & _ & _ & _ & _ & _ & Hd).
  destruct (accepted_deposit _ _ _ _ _ _ _ _ _ _ Hb' Hv' Hc') as (p' & _ & _ & w' & Hp' & _ & _ & _ & _ & _ & _ & _ & _ & _ & Hd').
  destruct (deposit_source _ _ _ _ _ _ _ Hp Hd) as (raw & mi & mo & parent & i & Hin & Hpar & Hid & Hr).
  destruct (deposit_source _ _ _ _ _ _ _ Hp' Hd') as (raw' & mi' & mo' & parent' & i' & Hin' & Hpar' & Hid' & Hr').
  assert (wt_txid parent = wt_txid parent') as Et.
  { apply (outpoint_id_inj _ i _ i'); [by eapply parse_txid_hash..|congruence]. }
  destruct (txid_binds _ _ _ _ _ _ _ _ Hpar Hpar' (Hcol _ _ Hin Hin') Et) as [_ E]. by rewrite Hr, Hr', E.
Qed.

Lemma deposit_recipient_fixed_witness :
  exists r r', verify_opening opening_tx = Some r /\ verify_opening opening_witness_tx = Some r'
  /\ pending_outpoint r = opening_outpoint /\ pending_outpoint r' = opening_outpoint /\ recipient r = recipient r'.
Proof.
  destruct (summary_inv _ _ _ _ opening_verifies) as (r & Hr & Hop & Hpo & Hpre).
  destruct (summary_inv _ _ _ _ opening_witness_verifies) as (r' & Hr' & Hop' & Hpo' & Hpre').
  exists r, r'. split_and!; [exact Hr|exact Hr'|exact Hpo|exact Hpo'|].
  apply (deposit_recipient_fixed sample_custody IsCanonicalTokenCreditAddress sample_cfg sample_cfg (chain_over opening_txid)
    (chain_over opening_txid) InitialState InitialState 0 0 0 0 NoPayout NoPayout (opening_payload opening_tx)
    (opening_payload opening_witness_tx) r r').
  - exact (proj1 sample_payloads).
  - exact Hr.
  - exact (proj1 (proj2 sample_payloads)).
  - exact Hr'.
  - rewrite Hop. reflexivity.
  - rewrite Hop'. reflexivity.
  - rewrite Hpre, Hpre'. exact sample_preimages.
  - rewrite Hpo, Hpo'. reflexivity.
Defined.

(** C23: a redemption is paid exactly. An accepted payout answers the request it commits to;
    its transaction pays the principal to the request's script, the new reserve is the old
    one less the principal, and when the script is not the custody script everything else
    the transaction pays comes from inputs that are not the reserve. A request may name the
    custody script; then the one custody output is both, and the reserve was twice the
    principal. *)
Theorem payout_exact custody valid cfg headers s supply depth payout payload r :
  is_bytes payload -> Verify custody valid cfg headers s supply payload depth payout = Some r ->
  operation (claim r) = PAYOUT ->
  exists parsed f,
    ParseReserveTx (bitcoin_tx (claim r)) = Some parsed /\ settled_on_bitcoin cfg headers depth (claim r) = true
    /\ ReadInputFacts (bitcoin_tx (claim r)) (direct_parents (claim r)) = Some f
    /\ request_commitment payout = exact_commitment (claim r) /\ 0 < principal_sats payout <= open_redemption_principal s
    /\ paid (destination_spk payout) (btc_outputs parsed) = principal_sats payout
    /\ paid custody (spent_outputs f) = reserve_value_sats s
    /\ paid custody (btc_outputs parsed) = reserve_value_sats s - principal_sats payout
    /\ new_reserve_value (claim r) = reserve_value_sats s - principal_sats payout
    /\ (destination_spk payout <> custody ->
        values (btc_outputs parsed) - paid custody (btc_outputs parsed) - paid (destination_spk payout) (btc_outputs parsed)
        <= values (spent_outputs f) - paid custody (spent_outputs f))
    /\ (destination_spk payout = custody -> reserve_value_sats s = 2 * principal_sats payout).
Proof.
  intros Hb Hv Hop. destruct (accepted_payout _ _ _ _ _ _ _ _ _ _ Hb Hv Hop) as (p & f & H1 & H2 & H3 & H4 & H5 & H6 & H7 & H8 & H9 & H10).
  exists p, f. split_and!; try done; try lia. intros E. rewrite E in *. lia.
Qed.

Lemma payout_exact_witness :
  exists r, verify_payout_sample = Some r /\ operation (claim r) = PAYOUT /\ new_reserve_value (claim r) = 180000
  /\ exists parsed, ParseReserveTx (bitcoin_tx (claim r)) = Some parsed /\ paid [0x51] (btc_outputs parsed) = 120000
     /\ paid sample_custody (btc_outputs parsed) = 180000.
Proof.
  destruct verify_payout_sample as [r|] eqn:Hr; [|pose proof payout_verifies as H; rewrite Hr in H; discriminate H].
  exists r. split; [reflexivity|]. assert (operation (claim r) = PAYOUT) as Hop.
  { pose proof payout_verifies as H. rewrite Hr in H. cbn in H. injection H as H. exact H. }
  split; [exact Hop|].
  destruct (payout_exact sample_custody IsCanonicalTokenCreditAddress sample_cfg (chain_over payout_txid) paying_state 180000 0
    payout_request payout_payload r) as (parsed & f & H1 & _ & _ & _ & _ & H6 & _ & H8 & H9 & _).
  - exact (proj2 (proj2 sample_payloads)).
  - exact Hr.
  - exact Hop.
  - cbn [reserve_value_sats paying_state principal_sats payout_request destination_spk] in *.
    split; [lia|]. exists parsed. split_and!; [exact H1|exact H6|lia].
Defined.

(** Proofs and states have one wire form. The reader gives back every claim from its
    encoding and every canonical state from its bytes; bytes that a reader accepts are the
    encoding of what it reads, with every field in its width. *)
Lemma reserve_wire_roundtrip :
  (forall c, claim_sized c -> EncodeProof c <> [] -> DecodeProof (EncodeProof c) = Some c)
  /\ (forall d c, is_bytes d -> DecodeProof d = Some c -> claim_sized c /\ claim_bounds c /\ EncodeProof c = d)
  /\ (forall s, state_sized s -> Canonical s = true -> DecodeState (EncodeState s) = Some s)
  /\ (forall d s, is_bytes d -> DecodeState d = Some s -> state_sized s /\ Canonical s = true /\ EncodeState s = d).
Proof.
  split; [exact proof_decode_encode|]. split; [exact proof_encode_decode|]. split; [exact state_decode_encode|exact state_encode_decode].
Qed.
