(* ===== verification/AmmMath.v ===== *)
(** * Pool arithmetic ([core/amm_pool.h])

    The pure integer functions of the VELD/btcVELD constant-product pool: conversions,
    the floor square root seeded by a floating-point guess, 192-bit products, the four-band
    fee classifier, swap outputs and the initial-seed quote.

    An [int64_t] is a [Z]; [i64] is the narrowing cast.  Operands of the 128-bit products
    are guarded to be positive [int64_t], so the casts to [uint64_t] and the products are
    exact and written plainly. *)
From S2P Require Import Prelude Bytes Profile.

Definition INT64_MAX : Z := 2 ^ 63 - 1.
Definition INT64_MIN : Z := - 2 ^ 63.

(** The conversion to a signed 64-bit integer. *)
Definition i64 (x : Z) : Z := let y := u64 x in if y <? 2 ^ 63 then y else y - 2 ^ 64.

(** ** Constants *)

Definition DUST_THRESHOLD_UNITS : Z := 1000.
Definition BTCVELD_TOKEN_ID : bytes := b:"btcVELD".
Definition BTCVELD_ACTIVATION_HEIGHT : Z := 0.
Definition BTCVELD_ISSUER_ADDRESS : bytes := b:"VUjD1JoewGkiGxRqJ52FkK1UiMotjsp9Tg".
Definition BTCVELD_AMM_LAUNCH_AUTHORITY_ADDRESS : bytes := BTCVELD_ISSUER_ADDRESS.
Definition BTCVELD_AMM_ACTIVATION_HEIGHT : Z := 1.
Definition BTCVELD_AMM_SWAP_GATE_ACTIVATION_HEIGHT : Z := 1.
Definition BTCVELD_AMM_SWAP_UNLOCK_HEIGHT : Z := 0.
Definition BTCVELD_AMM_MAX_POOL_BTCVELD_SATS : Z := 1000000000.
Definition BTCVELD_AMM_OPENING_VELD_UNITS_PER_BTCVELD_SAT : Z := 100000.
Definition BTCVELD_AMM_MARKET_SEED_ACTIVATION_HEIGHT : Z := 1.
Definition BTCVELD_AMM_FEE_BPS : Z := 100.
Definition BTCVELD_AMM_FEE_MIN_BPS : Z := 30.
Definition BTCVELD_AMM_BAND_EDGE_BPS : list Z := [500; 1000; 2000].
Definition BTCVELD_AMM_BAND_FEE_BPS : list Z := [30; 50; 75; 100].
Definition BTCVELD_AMM_FOURBAND_ACTIVATION_HEIGHT : Z := 1.
Definition BTCVELD_AMM_FLAT_FEE_BPS : Z := 30.
Definition BTCVELD_AMM_FLAT_FEE_ACTIVATION_HEIGHT : Z := 9500.
Definition AMM_SEED_LIVENESS_TX_FEE_UNITS : Z := 100000.
Definition MIN_ACCOUNT_SATS : Z := 1000.

(** [consensus/btcveld_amm_gate.h] *)
Definition BtcVeldAmmGateActive (height : Z) : bool :=
  negb (BTCVELD_AMM_SWAP_GATE_ACTIVATION_HEIGHT =? 0) && (BTCVELD_AMM_SWAP_GATE_ACTIVATION_HEIGHT <=? height).

Definition SwapAllowed (height : Z) : bool :=
  if negb (BtcVeldAmmGateActive height) then true else BTCVELD_AMM_SWAP_UNLOCK_HEIGHT <=? height.

Definition PoolReserveAllowed (height old_reserve new_reserve : Z) : bool :=
  if new_reserve <? 0 then false
  else if negb (BtcVeldAmmGateActive height) then true
  else if new_reserve <=? old_reserve then true
  else new_reserve <=? BTCVELD_AMM_MAX_POOL_BTCVELD_SATS.

(** [consensus/btcveld_peg_gate.h] *)
Record BtcVeldPegGateState := mkGate { unlocked : bool; mint_live : bool; amm_live : bool }.
Definition AmmAllowed (g : BtcVeldPegGateState) : bool := unlocked g && amm_live g.

Definition DeriveBtcVeldPegGate (launch_active finality_ever_active finality_live amm_continues : bool)
  : BtcVeldPegGateState :=
  if negb launch_active || negb finality_ever_active then mkGate false false false
  else let later_stall := negb finality_live in
       mkGate true (negb later_stall) (negb later_stall || amm_continues).

(** ** The floor square root

    [std::sqrt] takes a double: the 128-bit operand is rounded to the 64-bit significand of
    a long double, then to the 53-bit significand of a double, and the root is the double
    nearest to the exact root, ties to even; the cast back truncates. *)

Definition round_even (p n : Z) : Z :=
  let k := Z.log2 n + 1 - p in
  if k <=? 0 then n
  else
    let q := n / 2 ^ k in
    let r := n mod 2 ^ k in
    let half := 2 ^ (k - 1) in
    if r <? half then q * 2 ^ k
    else if half <? r then (q + 1) * 2 ^ k
    else if Z.even q then q * 2 ^ k else (q + 1) * 2 ^ k.

(** The integer part of the correctly rounded root of [d]: sixty extra bits and a sticky
    bit decide the rounding. *)
Definition sqrt_double (d : Z) : Z :=
  let r := Z.sqrt (d * 4 ^ 60) in
  let sticky := if r * r =? d * 4 ^ 60 then 0 else 1 in
  round_even 53 (2 * r + sticky) / 2 ^ 61.

Definition sqrt_guess (n : Z) : Z := sqrt_double (round_even 53 (round_even 64 n)).

(** [while (x > 0 && x * x > n) --x] *)
Fixpoint isqrt_down (fuel : nat) (n x : Z) : Z :=
  match fuel with
  | O => x
  | S fuel' => if (0 <? x) && (n <? x * x) then isqrt_down fuel' n (x - 1) else x
  end.

(** [while ((x + 1) * (x + 1) <= n) ++x] *)
Fixpoint isqrt_up (fuel : nat) (n x : Z) : Z :=
  match fuel with
  | O => x
  | S fuel' => if (x + 1) * (x + 1) <=? n then isqrt_up fuel' n (x + 1) else x
  end.

Definition ISQRT_FUEL : nat := Z.to_nat 16384.

Definition IsqrtU128 (n : Z) : Z :=
  if n =? 0 then 0
  else i64 (isqrt_up ISQRT_FUEL n (isqrt_down ISQRT_FUEL n (sqrt_guess n + 2))).

(** ** 192-bit products *)

Record U192 := mkU192 { lo : Z; mid : Z; hi : Z }.

Definition MulU128U64 (a b : Z) : U192 :=
  let alo := u64 a in
  let ahi := u64 (Z.shiftr a 64) in
  let p0 := alo * b in
  let p1 := ahi * b in
  let middle := Z.shiftr p0 64 + u64 p1 in
  mkU192 (u64 p0) (u64 middle) (u64 (u64 (Z.shiftr p1 64) + u64 (Z.shiftr middle 64))).

Definition CompareU192 (a b : U192) : Z :=
  if negb (hi a =? hi b) then if hi a <? hi b then -1 else 1
  else if negb (mid a =? mid b) then if mid a <? mid b then -1 else 1
  else if negb (lo a =? lo b) then if lo a <? lo b then -1 else 1
  else 0.

(** ** Fees *)

Definition FEE_DENOM : Z := 10000.
Definition MIN_LIQUIDITY : Z := 1000.
Definition AMM_SEED_LOCK_VELD_UNITS : Z := 5000000000.
Definition AMM_SEED_LOCK_BTCVELD_SATS : Z := 50000.
Definition LP_MIN_POSITION : Z := 1000.
Definition AMM_MAX_LP_IDENTITIES : Z := 65536.

Definition FlatFeeActive (height : Z) : bool :=
  negb (BTCVELD_AMM_FLAT_FEE_ACTIVATION_HEIGHT =? 0) && (BTCVELD_AMM_FLAT_FEE_ACTIVATION_HEIGHT <=? height).

Definition FourBandActive (height : Z) : bool :=
  negb (BTCVELD_AMM_FOURBAND_ACTIVATION_HEIGHT =? 0) && (BTCVELD_AMM_FOURBAND_ACTIVATION_HEIGHT <=? height).

Definition CheckedMulDivPositiveI64 (a b divisor : Z) : option Z :=
  if (a <=? 0) || (b <=? 0) || (divisor <=? 0) then None
  else let q := a * b / divisor in
       if (q =? 0) || (INT64_MAX <? q) then None else Some (i64 q).

Definition AnchorCrossDistance (veld btcveld anchor_veld anchor_btcveld : Z) : Z :=
  let lhs := veld * anchor_btcveld in
  let rhs := btcveld * anchor_veld in
  if rhs <=? lhs then lhs - rhs else rhs - lhs.

(** The binary search of [RatioBpsCapped]. *)
Fixpoint ratio_search (fuel : nat) (scaled : U192) (den lo_ hi_ : Z) : Z :=
  match fuel with
  | O => lo_
  | S fuel' =>
      if lo_ + 1 <? hi_ then
        let m := lo_ + (hi_ - lo_) / 2 in
        if 0 <=? CompareU192 scaled (MulU128U64 den m)
        then ratio_search fuel' scaled den m hi_ else ratio_search fuel' scaled den lo_ m
      else lo_
  end.

Definition RatioBpsCapped (num den : Z) : Z :=
  if (den =? 0) || (den <=? num) then FEE_DENOM
  else ratio_search 15 (MulU128U64 num FEE_DENOM) den 0 FEE_DENOM.

(** The fee of the band of [delta / den] and the band's number. *)
Definition BandFeeBps (delta den : Z) : Z * Z :=
  let fee i := nth i BTCVELD_AMM_BAND_FEE_BPS 0 in
  if den =? 0 then (fee 3%nat, 4)
  else
    let lhs := MulU128U64 delta FEE_DENOM in
    let within i := CompareU192 lhs (MulU128U64 den (nth i BTCVELD_AMM_BAND_EDGE_BPS 0)) <=? 0 in
    if within 0%nat then (fee 0%nat, 1)
    else if within 1%nat then (fee 1%nat, 2)
    else if within 2%nat then (fee 2%nat, 3)
    else (fee 3%nat, 4).

(** ** Outputs of a swap *)

Definition GrossSwapOut (rin rout amt_in : Z) : Z :=
  if (rin <=? 0) || (rout <=? 0) || (amt_in <=? 0) then -1
  else let gross := i64 (rout * amt_in / (rin + amt_in)) in
       if (gross <=? 0) || (rout <=? gross) then -1 else gross.

Definition SwapOut (rin rout amt_in fee_bps : Z) : Z :=
  if FEE_DENOM <=? fee_bps then -1
  else
    let gross := GrossSwapOut rin rout amt_in in
    if gross <? 0 then -1
    else let out := i64 (gross * (FEE_DENOM - fee_bps) / FEE_DENOM) in
         if (out <=? 0) || (rout <=? out) then -1 else out.

(** ** The initial seed *)

Definition CeilDivU128 (a b : Z) : Z := i64 ((a + b - 1) / b).

Definition LockedSeedUnits (g V B : Z) : Z :=
  let by_veld := CeilDivU128 (g * AMM_SEED_LOCK_VELD_UNITS) V in
  let by_btc := CeilDivU128 (g * AMM_SEED_LOCK_BTCVELD_SATS) B in
  let locked := MIN_LIQUIDITY in
  let locked := if locked <? by_veld then by_veld else locked in
  let locked := if locked <? by_btc then by_btc else locked in
  if g <? locked then g else locked.

Record SeedQuote := mkSeedQuote { gross_lp : Z; locked_lp_q : Z; lp_minted_q : Z }.

Definition IsCanonicalOpeningSeedRatio (veld_units btcveld_sats : Z) : bool :=
  if (veld_units <=? 0) || (btcveld_sats <=? 0)
     || (INT64_MAX / BTCVELD_AMM_OPENING_VELD_UNITS_PER_BTCVELD_SAT <? btcveld_sats) then false
  else veld_units =? btcveld_sats * BTCVELD_AMM_OPENING_VELD_UNITS_PER_BTCVELD_SAT.

Definition MarketSeedAnchorActive (height : Z) : bool :=
  negb (BTCVELD_AMM_MARKET_SEED_ACTIVATION_HEIGHT =? 0) && (BTCVELD_AMM_MARKET_SEED_ACTIVATION_HEIGHT <=? height).

Definition InitialSeedAuthorized (user : bytes) (height : Z) : bool :=
  negb (MarketSeedAnchorActive height) || bytes_eqb user BTCVELD_AMM_LAUNCH_AUTHORITY_ADDRESS.

(** [None] is a quote that is not valid. *)
Definition QuoteInitialSeedPolicy_ (veld_units btcveld_sats : Z) (market_anchor : bool) : option SeedQuote :=
  if (negb market_anchor && negb (IsCanonicalOpeningSeedRatio veld_units btcveld_sats))
     || (veld_units <? AMM_SEED_LOCK_VELD_UNITS) || (btcveld_sats <? AMM_SEED_LOCK_BTCVELD_SATS)
     || (BTCVELD_AMM_MAX_POOL_BTCVELD_SATS <? btcveld_sats) || (MAX_SUPPLY_UNITS <? veld_units) then None
  else
    let g := IsqrtU128 (veld_units * btcveld_sats) in
    if g <=? MIN_LIQUIDITY then None
    else
      let locked := LockedSeedUnits g veld_units btcveld_sats in
      let minted := g - locked in
      if negb (minted =? 0) && (minted <? LP_MIN_POSITION) then None else Some (mkSeedQuote g locked minted).

Definition QuoteInitialSeed (veld_units btcveld_sats : Z) : option SeedQuote :=
  QuoteInitialSeedPolicy_ veld_units btcveld_sats false.

(** ** Facts *)

Lemma i64_id x : INT64_MIN <= x <= INT64_MAX -> i64 x = x.
Proof.
  unfold i64, INT64_MIN, INT64_MAX, wrap. intros H. destruct (Z.leb_spec 0 x).
  - rewrite Z.mod_small by lia. destruct (Z.ltb_spec x (2 ^ 63)); lia.
  - replace (x mod 2 ^ 64) with (x + 2 ^ 64) by (apply Z.mod_unique with (-1); lia).
    destruct (Z.ltb_spec (x + 2 ^ 64) (2 ^ 63)); lia.
Qed.

(** *** Rounding *)

Lemma round_even_error p n :
  0 < p -> 0 < n -> 0 <= round_even p n /\ Z.abs (round_even p n - n) * 2 ^ p <= n.
Proof.
  intros Hp Hn. unfold round_even. pose proof (Z.log2_spec n Hn) as [Hlo _]. pose proof (Z.log2_nonneg n).
  destruct (Z.leb_spec (Z.log2 n + 1 - p) 0) as [|Hk]; [rewrite Z.sub_diag; lia|].
  set (k := Z.log2 n + 1 - p) in *. assert (0 < 2 ^ k) as Hpk by lia.
  assert (2 ^ k = 2 * 2 ^ (k - 1)) as Ek by (rewrite <- Z.pow_succ_r by lia; f_equal; lia).
  assert (2 ^ (k - 1) * 2 ^ p <= n) as Hb.
  { rewrite <- Z.pow_add_r by lia. replace (k - 1 + p) with (Z.log2 n) by (unfold k; lia). done. }
  pose proof (Z.div_mod n (2 ^ k) ltac:(lia)) as Hdm. pose proof (Z.mod_pos_bound n (2 ^ k) Hpk) as Hm.
  assert (0 <= n / 2 ^ k) by (apply Z.div_pos; lia).
  assert (forall y, Z.abs (y - n) <= 2 ^ (k - 1) -> Z.abs (y - n) * 2 ^ p <= n) as Hgo.
  { intros y Hy. transitivity (2 ^ (k - 1) * 2 ^ p); [apply Z.mul_le_mono_nonneg_r; lia|done]. }
  destruct (Z.ltb_spec (n mod 2 ^ k) (2 ^ (k - 1))); [|destruct (Z.ltb_spec (2 ^ (k - 1)) (n mod 2 ^ k));
    [|destruct (Z.even _)]]; (split; [apply Z.mul_nonneg_nonneg; lia|apply Hgo; lia]).
Qed.

(** *** The floor square root *)

Lemma isqrt_down_spec fuel n x :
  0 <= n -> 0 <= x <= Z.sqrt n + Z.of_nat fuel ->
  isqrt_down fuel n x = Z.min x (Z.sqrt n).
Proof.
  intros Hn. pose proof (Z.sqrt_spec n Hn) as Hs. cbv zeta in Hs. pose proof (Z.sqrt_nonneg n).
  revert x. induction fuel as [|fuel IH]; intros x Hx; cbn [isqrt_down]; [lia|].
  destruct (Z.ltb_spec 0 x), (Z.ltb_spec n (x * x)); cbn [andb].
  - assert (Z.sqrt n < x) by nia. rewrite IH by lia. lia.
  - assert (x <= Z.sqrt n) by nia. lia.
  - lia.
  - lia.
Qed.

Lemma isqrt_up_spec fuel n x :
  0 <= n -> 0 <= x <= Z.sqrt n -> Z.sqrt n <= x + Z.of_nat fuel -> isqrt_up fuel n x = Z.sqrt n.
Proof.
  intros Hn. pose proof (Z.sqrt_spec n Hn) as Hs. cbv zeta in Hs.
  revert x. induction fuel as [|fuel IH]; intros x Hx Hf; cbn [isqrt_up]; [lia|].
  destruct (Z.leb_spec ((x + 1) * (x + 1)) n).
  - assert (x + 1 <= Z.sqrt n) by nia. apply IH; lia.
  - assert (Z.sqrt n < x + 1) by nia. lia.
Qed.

(** The truncated double root of [d] is within 2^12 of the exact one. *)
Lemma sqrt_double_error d :
  0 < d <= 2 ^ 127 ->
  0 <= sqrt_double d /\ (sqrt_double d - 2 ^ 12) <= Z.sqrt d <= sqrt_double d + 2 ^ 12.
Proof.
  intros Hd. unfold sqrt_double. set (r := Z.sqrt (d * 4 ^ 60)).
  assert (0 <= r) by apply Z.sqrt_nonneg.
  pose proof (Z.sqrt_spec (d * 4 ^ 60) ltac:(lia)) as Hr. cbv zeta in Hr. fold r in Hr.
  pose proof (Z.sqrt_spec d ltac:(lia)) as Hs. cbv zeta in Hs. set (s := Z.sqrt d) in *.
  assert (0 <= s) by apply Z.sqrt_nonneg.
  assert (s * 2 ^ 60 <= r < (s + 1) * 2 ^ 60) as Hrs.
  { replace (4 ^ 60) with (2 ^ 60 * 2 ^ 60) in Hr by lia. split; nia. }
  assert (s < 2 ^ 64) by nia. assert (1 <= s) by nia.
  set (w := 2 * r + _). assert (2 * r <= w <= 2 * r + 1) as Hw by (unfold w; destruct (_ =? _); lia).
  destruct (round_even_error 53 w) as [Hv0 Hv]; [lia|lia|].
  set (v := round_even 53 w) in *.
  assert (Z.abs (v - w) <= 2 ^ 73) by lia.
  pose proof (Z.div_mod v (2 ^ 61) ltac:(lia)). pose proof (Z.mod_pos_bound v (2 ^ 61) ltac:(lia)). lia.
Qed.

Lemma sqrt_near n d s t :
  0 <= s -> 0 <= t -> s < 2 ^ 64 -> t < 2 ^ 65 -> Z.abs (d - n) * 2 ^ 52 <= n ->
  s * s <= n < (s + 1) * (s + 1) -> t * t <= d < (t + 1) * (t + 1) -> Z.abs (t - s) <= 2 ^ 13.
Proof.
  intros Hs0 Ht0 Hs Ht Hd Hn Hdd.
  assert (n <= 2 ^ 64 * (s + 1)) by nia. assert (Z.abs (d - n) <= 2 ^ 12 * (s + 1)) by lia.
  destruct (Z.le_gt_cases t (s + 2 ^ 13)) as [|Hgt], (Z.le_gt_cases s (t + 2 ^ 13)) as [|Hgt']; [lia|exfalso..]; nia.
Qed.

Lemma IsqrtU128_spec n : 0 <= n < 2 ^ 126 -> IsqrtU128 n = Z.sqrt n.
Proof.
  intros Hn. unfold IsqrtU128. destruct (Z.eqb_spec n 0) as [->|Hz]; [done|].
  pose proof (Z.sqrt_spec n ltac:(lia)) as Hs. cbv zeta in Hs. pose proof (Z.sqrt_nonneg n).
  assert (Z.sqrt n < 2 ^ 63) by nia.
  destruct (round_even_error 64 n) as [Hd1 E1]; [lia|lia|]. set (d1 := round_even 64 n) in *.
  assert (0 < d1) by lia.
  destruct (round_even_error 53 d1) as [Hd2 E2]; [lia|lia|]. set (d := round_even 53 d1) in *.
  assert (Z.abs (d - n) * 2 ^ 52 <= n) as Hdn by lia. assert (0 < d <= 2 ^ 127) as Hd by lia.
  destruct (sqrt_double_error d Hd) as [Hg0 Hg].
  pose proof (Z.sqrt_spec d ltac:(lia)) as Hsd. cbv zeta in Hsd. pose proof (Z.sqrt_nonneg d).
  assert (Z.sqrt d < 2 ^ 65) by nia.
  pose proof (sqrt_near n d (Z.sqrt n) (Z.sqrt d) ltac:(lia) ltac:(lia) ltac:(lia) ltac:(lia) Hdn ltac:(lia) ltac:(lia)).
  assert (sqrt_guess n = sqrt_double d) as Eg by done. rewrite Eg.
  assert (Z.of_nat ISQRT_FUEL = 16384) as Ef by (unfold ISQRT_FUEL; lia).
  rewrite isqrt_down_spec by lia. rewrite isqrt_up_spec by lia.
  apply i64_id. unfold INT64_MIN, INT64_MAX. lia.
Qed.

(** *** 192-bit products are exact *)

Definition u192_val (u : U192) : Z := lo u + 2 ^ 64 * (mid u + 2 ^ 64 * hi u).
Definition u192_ok (u : U192) : Prop := fits 64 (lo u) /\ fits 64 (mid u) /\ fits 64 (hi u).

Lemma MulU128U64_spec a b :
  fits 128 a -> fits 64 b -> u192_ok (MulU128U64 a b) /\ u192_val (MulU128U64 a b) = a * b.
Proof.
  intros Ha Hb. unfold fits in *. unfold MulU128U64.
  assert (u64 (Z.shiftr a 64) = a / 2 ^ 64) as ->.
  { rewrite Z.shiftr_div_pow2 by lia. apply wrap_id. unfold fits. split; [apply Z.div_pos; lia|].
    apply Z.div_lt_upper_bound; lia. }
  unfold wrap. set (l := a mod 2 ^ 64). set (h := a / 2 ^ 64).
  assert (a = 2 ^ 64 * h + l /\ 0 <= l < 2 ^ 64 /\ 0 <= h < 2 ^ 64) as (Ea & Hl & Hh).
  { unfold l, h. pose proof (Z.div_mod a (2 ^ 64) ltac:(lia)). pose proof (Z.mod_pos_bound a (2 ^ 64) ltac:(lia)).
    split_and!; lia. }
  rewrite !Z.shiftr_div_pow2 by lia.
  pose proof (Z.div_mod (l * b) (2 ^ 64) ltac:(lia)) as D0. pose proof (Z.mod_pos_bound (l * b) (2 ^ 64) ltac:(lia)).
  pose proof (Z.div_mod (h * b) (2 ^ 64) ltac:(lia)) as D1. pose proof (Z.mod_pos_bound (h * b) (2 ^ 64) ltac:(lia)).
  set (q0 := l * b / 2 ^ 64) in *. set (r0 := (l * b) mod 2 ^ 64) in *.
  set (q1 := h * b / 2 ^ 64) in *. set (r1 := (h * b) mod 2 ^ 64) in *.
  pose proof (Z.div_mod (q0 + r1) (2 ^ 64) ltac:(lia)) as D2. pose proof (Z.mod_pos_bound (q0 + r1) (2 ^ 64) ltac:(lia)).
  set (q2 := (q0 + r1) / 2 ^ 64) in *. set (r2 := (q0 + r1) mod 2 ^ 64) in *.
  assert (0 <= q0 < 2 ^ 64) by nia. assert (0 <= q1 < 2 ^ 64) by nia. assert (0 <= q2 <= 1) by nia.
  assert (0 <= a * b < 2 ^ 192) by nia.
  assert (a * b = r0 + 2 ^ 64 * (r2 + 2 ^ 64 * (q1 + q2))) as Eab by nia.
  assert (q1 + q2 < 2 ^ 64) by nia.
  rewrite !(Z.mod_small q1), !(Z.mod_small q2), !(Z.mod_small (q1 + q2)) by lia.
  unfold u192_ok, u192_val, fits. cbn [lo mid hi]. split; [lia|by rewrite Eab].
Qed.

Lemma CompareU192_spec a b :
  u192_ok a -> u192_ok b ->
  CompareU192 a b = match u192_val a ?= u192_val b with Lt => -1 | Eq => 0 | Gt => 1 end.
Proof.
  unfold u192_ok, fits, u192_val, CompareU192. intros Ha Hb.
  destruct (Z.eqb_spec (hi a) (hi b)) as [Eh|Eh]; cbn [negb].
  - destruct (Z.eqb_spec (mid a) (mid b)) as [Em|Em]; cbn [negb].
    + destruct (Z.eqb_spec (lo a) (lo b)) as [El|El]; cbn [negb].
      * rewrite Eh, Em, El, Z.compare_refl. done.
      * destruct (Z.ltb_spec (lo a) (lo b)); case Z.compare_spec; lia.
    + destruct (Z.ltb_spec (mid a) (mid b)); case Z.compare_spec; lia.
  - destruct (Z.ltb_spec (hi a) (hi b)); case Z.compare_spec; lia.
Qed.

Lemma compare_products a b c d :
  fits 128 a -> fits 64 b -> fits 128 c -> fits 64 d ->
  (CompareU192 (MulU128U64 a b) (MulU128U64 c d) <=? 0) = (a * b <=? c * d)
  /\ (0 <=? CompareU192 (MulU128U64 a b) (MulU128U64 c d)) = (c * d <=? a * b).
Proof.
  intros. destruct (MulU128U64_spec a b) as [HA E1]; [done|done|].
  destruct (MulU128U64_spec c d) as [HC E3]; [done|done|].
  rewrite CompareU192_spec, E1, E3 by done.
  case Z.compare_spec; split; lia.
Qed.

(** *** Fees *)

(** Binary search finds the floor of ten thousand times the ratio. *)
Lemma ratio_search_spec fuel num den l h :
  fits 128 num -> fits 128 den -> 0 < den -> 0 <= l < h -> h <= FEE_DENOM ->
  l * den <= num * FEE_DENOM < h * den -> h - l <= 2 ^ Z.of_nat fuel ->
  ratio_search (S fuel) (MulU128U64 num FEE_DENOM) den l h = num * FEE_DENOM / den.
Proof.
  intros Hn Hd Hpos. revert l h. induction fuel as [|fuel IH]; intros l h Hl Hh Hr Hf.
  - cbn [ratio_search]. destruct (Z.ltb_spec (l + 1) h); [cbn in Hf; lia|].
    apply Z.div_unique with (num * FEE_DENOM - l * den); nia.
  - cbn [ratio_search] in *. destruct (Z.ltb_spec (l + 1) h) as [Hlt|].
    + pose proof (Z.div_mod (h - l) 2 ltac:(lia)). pose proof (Z.mod_pos_bound (h - l) 2 ltac:(lia)).
      set (m := l + (h - l) / 2) in *.
      rewrite Nat2Z.inj_succ, Z.pow_succ_r in Hf by lia.
      destruct (compare_products num FEE_DENOM den m) as [_ ->]; [done|unfold fits, FEE_DENOM in *; lia..|].
      destruct (Z.leb_spec (den * m) (num * FEE_DENOM)); apply IH; (lia || nia).
    + apply Z.div_unique with (num * FEE_DENOM - l * den); nia.
Qed.

Lemma RatioBpsCapped_spec num den :
  fits 128 num -> fits 128 den -> 0 < den -> RatioBpsCapped num den = Z.min FEE_DENOM (num * FEE_DENOM / den).
Proof.
  intros Hn Hd Hpos. unfold RatioBpsCapped. destruct (Z.eqb_spec den 0); [lia|]. cbn [orb].
  destruct (Z.leb_spec den num) as [Hle|Hlt].
  - rewrite Z.min_l; [done|]. apply Z.div_le_lower_bound; unfold FEE_DENOM; nia.
  - rewrite (ratio_search_spec 14) by (try done; unfold FEE_DENOM, fits in *; lia || nia).
    rewrite Z.min_r; [done|]. apply Z.div_le_upper_bound; unfold FEE_DENOM; nia.
Qed.

(** The band of an exact deviation: [delta / den] against 5, 10 and 20 percent. *)
Definition band_of (delta den : Z) : Z :=
  if delta * 10000 <=? den * 500 then 1 else if delta * 10000 <=? den * 1000 then 2
  else if delta * 10000 <=? den * 2000 then 3 else 4.
Definition band_fee (band : Z) : Z := nth (Z.to_nat (band - 1)) BTCVELD_AMM_BAND_FEE_BPS 0.

Lemma BandFeeBps_spec delta den :
  fits 128 delta -> fits 128 den -> 0 < den -> BandFeeBps delta den = (band_fee (band_of delta den), band_of delta den).
Proof.
  intros Hd Hn Hp. unfold BandFeeBps, band_of. destruct (Z.eqb_spec den 0); [lia|]. cbn [nth BTCVELD_AMM_BAND_EDGE_BPS].
  destruct (compare_products delta FEE_DENOM den 500) as [-> _]; [done|done|done|done|].
  destruct (compare_products delta FEE_DENOM den 1000) as [-> _]; [done|done|done|done|].
  destruct (compare_products delta FEE_DENOM den 2000) as [-> _]; [done|done|done|done|].
  unfold FEE_DENOM. by repeat destruct (_ <=? _).
Qed.

(** *** Swap outputs *)

Lemma GrossSwapOut_spec rin rout amt :
  0 < rin <= INT64_MAX -> 0 < rout <= INT64_MAX -> 0 < amt <= INT64_MAX ->
  0 <= rout * amt / (rin + amt) < rout
  /\ GrossSwapOut rin rout amt = (if rout * amt / (rin + amt) =? 0 then -1 else rout * amt / (rin + amt)).
Proof.
  unfold INT64_MAX. intros Hi Ho Ha. unfold GrossSwapOut.
  destruct (Z.leb_spec rin 0); [lia|]. destruct (Z.leb_spec rout 0); [lia|]. destruct (Z.leb_spec amt 0); [lia|]. cbn [orb].
  assert (0 <= rout * amt / (rin + amt) < rout) as Hq.
  { split; [apply Z.div_pos; nia|]. apply Z.div_lt_upper_bound; nia. }
  split; [done|]. rewrite i64_id by (unfold INT64_MIN, INT64_MAX; lia).
  destruct (Z.leb_spec (rout * amt / (rin + amt)) 0), (Z.eqb_spec (rout * amt / (rin + amt)) 0); try lia; [done|].
  destruct (Z.leb_spec rout (rout * amt / (rin + amt))); [lia|done].
Qed.

(** A swap output: the floor of the gross output less the fee; the product of the reserves
    does not decrease. *)
Lemma SwapOut_spec rin rout amt fee out :
  0 < rin <= INT64_MAX -> 0 < rout <= INT64_MAX -> 0 < amt <= INT64_MAX -> 0 <= fee ->
  SwapOut rin rout amt fee = out -> 0 <= out ->
  fee < FEE_DENOM /\ GrossSwapOut rin rout amt = rout * amt / (rin + amt)
  /\ out = rout * amt / (rin + amt) * (FEE_DENOM - fee) / FEE_DENOM
  /\ 0 < out <= rout * amt / (rin + amt) /\ out < rout
  /\ rin * rout <= (rin + amt) * (rout - out).
Proof.
  intros Hi Ho Ha Hf. unfold SwapOut. destruct (Z.leb_spec FEE_DENOM fee) as [|Hfee]; [intros <-; lia|].
  destruct (GrossSwapOut_spec rin rout amt Hi Ho Ha) as [Hq Eg]. set (q := rout * amt / (rin + amt)) in *.
  destruct (Z.eqb_spec q 0) as [Eq|Eq]; rewrite Eg; [cbn; intros <-; lia|].
  destruct (Z.ltb_spec q 0); [lia|]. unfold FEE_DENOM in *.
  assert (0 <= q * (10000 - fee) / 10000 <= q) as Hn.
  { split; [apply Z.div_pos; nia|]. apply Z.div_le_upper_bound; nia. }
  rewrite i64_id by (unfold INT64_MIN, INT64_MAX in *; lia).
  destruct (Z.leb_spec (q * (10000 - fee) / 10000) 0) as [|Hpos]; cbn [orb]; [intros <-; lia|].
  destruct (Z.leb_spec rout (q * (10000 - fee) / 10000)); [intros <-; lia|]. intros <- _.
  split_and!; try lia.
  assert (q * (rin + amt) <= rout * amt).
  { unfold q. rewrite Z.mul_comm. apply Z.mul_div_le. lia. }
  nia.
Qed.

(** *** The permanent lock *)

Lemma ceil_div_bounds a b : 0 < b -> b * ((a + b - 1) / b) < a + b /\ a <= b * ((a + b - 1) / b).
Proof.
  intros Hb. pose proof (Z.div_mod (a + b - 1) b ltac:(lia)). pose proof (Z.mod_pos_bound (a + b - 1) b Hb). lia.
Qed.

(** With both legs at or above their floors the lock is at least the minimum, at most the
    whole supply, and at least the floors' share of each leg. *)
Lemma LockedSeedUnits_spec g V B :
  MIN_LIQUIDITY < g <= INT64_MAX -> AMM_SEED_LOCK_VELD_UNITS <= V -> AMM_SEED_LOCK_BTCVELD_SATS <= B ->
  MIN_LIQUIDITY <= LockedSeedUnits g V B <= g
  /\ g * AMM_SEED_LOCK_VELD_UNITS <= LockedSeedUnits g V B * V
  /\ g * AMM_SEED_LOCK_BTCVELD_SATS <= LockedSeedUnits g V B * B.
Proof.
  unfold MIN_LIQUIDITY, INT64_MAX, AMM_SEED_LOCK_VELD_UNITS, AMM_SEED_LOCK_BTCVELD_SATS. intros Hg HV HB.
  assert (forall L X, 0 < L <= X -> exists c, CeilDivU128 (g * L) X = c /\ 0 <= c <= g /\ g * L <= c * X) as Hc.
  { intros L X HL. destruct (ceil_div_bounds (g * L) X ltac:(lia)) as [Hu Hl].
    exists ((g * L + X - 1) / X). unfold CeilDivU128.
    assert (0 <= (g * L + X - 1) / X <= g) by (split; [apply Z.div_pos; nia|nia]).
    split_and!; try lia. apply i64_id. unfold INT64_MIN, INT64_MAX. lia. }
  destruct (Hc 5000000000 V ltac:(lia)) as (c1 & E1 & H1 & H1').
  destruct (Hc 50000 B ltac:(lia)) as (c2 & E2 & H2 & H2').
  unfold LockedSeedUnits, MIN_LIQUIDITY, AMM_SEED_LOCK_VELD_UNITS, AMM_SEED_LOCK_BTCVELD_SATS. rewrite E1, E2.
  destruct (Z.ltb_spec 1000 c1); [destruct (Z.ltb_spec c1 c2)|destruct (Z.ltb_spec 1000 c2)];
    (match goal with |- context [g <? ?x] => destruct (Z.ltb_spec g x) end); split_and!; (lia || nia).
Qed.
