(* ===== verification/TokenLedger.v ===== *)
(** * The btcVELD token ledger ([core/onchain_tokens.h])

    Balances, supply, the redemption window and the reserve account, with the operations
    that move them in the public-mainnet profile, where every mint goes through a verified
    reserve transition: transfers, redemptions, pool moves, compensation and the credit of
    a verified transition.  The bounded history, the per-block feeds, the retired
    reservation records and the commitments that other consumers read are not part of the
    record; no operation here reads them. *)
From S2P Require Import Prelude Bytes Profile Transaction Block Address OpAuthorization AmmMath MapSum Reserve.

Definition MAX_TOKEN_ID_BYTES : Z := 32.
Definition BTCVELD_DECIMALS : Z := 8.
Definition BTCVELD_PEG_ASSET : bytes := b:"BTC".
Definition BTCVELD_REDEEM_GUARD_ACTIVATION_HEIGHT : Z := 1.
Definition BTCVELD_REDEEM_WINDOW_BLOCKS : Z := BLOCKS_PER_DAY.
Definition BTCVELD_REDEEM_WINDOW_PPM_OF_CAP : Z := 200000.
Definition BTCVELD_REDEEM_SPK_CHECK_ACTIVATION_HEIGHT : Z := 1.

(** [c_str()]: the text up to its first zero byte. *)
Fixpoint c_str (s : bytes) : bytes :=
  match s with [] => [] | c :: s' => if c =? 0 then [] else c :: c_str s' end.
Definition BtcVeldHex_ (h : bytes) : bytes := HexToBytes (c_str h).

(** [consensus/btcveld_redeem_spk.h] *)
Definition IsStandardBtcRedeemSpk (s : bytes) : bool :=
  let b i := nth i s 0 in
  if (size s =? 25) && (b 0%nat =? 0x76) && (b 1%nat =? 0xa9) && (b 2%nat =? 0x14) && (b 23%nat =? 0x88)
     && (b 24%nat =? 0xac) then true
  else if (size s =? 23) && (b 0%nat =? 0xa9) && (b 1%nat =? 0x14) && (b 22%nat =? 0x87) then true
  else if (4 <=? size s) && (size s <=? 42) then
    let v := b 0%nat in
    let ver_ok := (v =? 0) || ((0x51 <=? v) && (v <=? 0x60)) in
    let plen := b 1%nat in
    if ver_ok && (2 <=? plen) && (plen <=? 40) && (plen + 2 =? size s) then
      if v =? 0 then (plen =? 20) || (plen =? 32) else true
    else false
  else false.

(** [consensus/btcveld_redeem_guard.h] *)
Definition BtcVeldRedeemGuardActive (height : Z) : bool :=
  negb (BTCVELD_REDEEM_GUARD_ACTIVATION_HEIGHT =? 0) && (BTCVELD_REDEEM_GUARD_ACTIVATION_HEIGHT <=? height).
Definition WindowId (height : Z) : Z := height / BTCVELD_REDEEM_WINDOW_BLOCKS.
Definition WindowCeilingSats (custody_cap_sats : Z) : Z :=
  if custody_cap_sats <=? 0 then 0 else i64 (custody_cap_sats * BTCVELD_REDEEM_WINDOW_PPM_OF_CAP / 1000000).
Definition LaunchWindowCeilingSats : Z := WindowCeilingSats BTCVELD_SPV_MAX_CUSTODY_SATS.
Definition FitsWindow (redeemed_in_window amount ceiling : Z) : bool :=
  if (amount <=? 0) || (redeemed_in_window <? 0) || (ceiling <=? 0) then false
  else if ceiling <? redeemed_in_window then false
  else amount <=? ceiling - redeemed_in_window.

(** The peg gates of [consensus/btcveld_peg_gate.h] the token ledger reads. *)
Definition RedeemAllowed (g : BtcVeldPegGateState) : bool := unlocked g.
Definition MintAllowed (g : BtcVeldPegGateState) : bool := unlocked g && mint_live g.

Inductive TokenAction := MINT | TRANSFER | REDEEM | RESERVE | EXPOSE | CANCEL | FUND.

#[global] Instance TokenAction_eq_dec : EqDecision TokenAction.
Proof. solve_decision. Defined.

Record TokenOpData := mkTokenOp {
  action : TokenAction; token_id : bytes; op_from : bytes; op_to : bytes; op_amount : Z; op_memo : bytes }.

Record OnChainTokenInfo := mkTokenInfo {
  ti_id : bytes; ti_name : bytes; ti_issuer : bytes; ti_decimals : Z; ti_peg_asset : bytes }.

Module OnChainTokenLedger.

Record t := mk {
  tokens_ : gmap bytes OnChainTokenInfo;
  balances_ : gmap bytes Z;
  supply_ : gmap bytes Z;
  redeem_window_id_ : Z;
  redeemed_in_window_ : Z;
  reserve_state_ : State }.

(** [Reset] *)
Definition Empty : t := mk ∅ ∅ ∅ 0 0 InitialState.

Definition BalanceAdmissible (b : Z) : bool := (b =? 0) || (MIN_ACCOUNT_SATS <=? b).

Definition account_key (token address : bytes) : bytes := token ++ b:":" ++ address.

Definition GetBalance (L : t) (token address : bytes) : Z := default 0 (balances_ L !! account_key token address).
Definition GetSupply (L : t) (token : bytes) : Z := default 0 (supply_ L !! token).

Definition RegisterTokenLocked (L : t) (info : OnChainTokenInfo) : t :=
  mk (<[ti_id info := info]> (tokens_ L)) (balances_ L) (supply_ L) (redeem_window_id_ L) (redeemed_in_window_ L)
     (reserve_state_ L).

Definition btcveld_info : OnChainTokenInfo :=
  mkTokenInfo BTCVELD_TOKEN_ID b:"Wrapped Bitcoin" BTCVELD_ISSUER_ADDRESS BTCVELD_DECIMALS BTCVELD_PEG_ASSET.

Definition MaybeRegisterBtcVeld (L : t) (height : Z) : t :=
  if size BTCVELD_ISSUER_ADDRESS =? 0 then L
  else if height <? BTCVELD_ACTIVATION_HEIGHT then L
  else if bool_decide (is_Some (tokens_ L !! BTCVELD_TOKEN_ID)) then L
  else RegisterTokenLocked L btcveld_info.

(** Assignments of the ledger. *)
Definition with_balances (L : t) (b : gmap bytes Z) : t :=
  mk (tokens_ L) b (supply_ L) (redeem_window_id_ L) (redeemed_in_window_ L) (reserve_state_ L).
Definition with_money (L : t) (b s : gmap bytes Z) (r : State) : t :=
  mk (tokens_ L) b s (redeem_window_id_ L) (redeemed_in_window_ L) r.
Definition with_window (L : t) (id redeemed : Z) : t :=
  mk (tokens_ L) (balances_ L) (supply_ L) id redeemed (reserve_state_ L).

(** Debit and credit: a balance that reaches zero is erased. *)
Definition move_balances (b : gmap bytes Z) (fk tk : bytes) (amount : Z) : gmap bytes Z :=
  let from_balance := default 0 (b !! fk) in
  let to_balance := default 0 (b !! tk) in
  let remaining := from_balance - amount in
  <[tk := to_balance + amount]> (if remaining =? 0 then delete fk b else <[fk := remaining]> b).

(** ** Pool moves *)

Definition AmmMoveAllowedLocked_ (L : t) (token from to : bytes) (amount : Z) : bool :=
  if (amount <=? 0) || (size from =? 0) || (size to =? 0) || negb (bool_decide (is_Some (tokens_ L !! token))) then false
  else
    let fk := account_key token from in
    let tk := account_key token to in
    let from_balance := default 0 (balances_ L !! fk) in
    if from_balance <? amount then false
    else if bytes_eqb fk tk then true
    else
      let to_balance := default 0 (balances_ L !! tk) in
      if (to_balance <? 0) || (INT64_MAX - amount <? to_balance) then false
      else BalanceAdmissible (from_balance - amount) && BalanceAdmissible (to_balance + amount).

Definition CanAmmMove := AmmMoveAllowedLocked_.

Definition AmmMove (L : t) (token from to : bytes) (amount : Z) : option t :=
  if negb (AmmMoveAllowedLocked_ L token from to amount) then None
  else
    let fk := account_key token from in
    let tk := account_key token to in
    if bytes_eqb fk tk then Some L else Some (with_balances L (move_balances (balances_ L) fk tk amount)).

(** ** Token markers *)

Section Markers.
Context (crypto_sign_verify : bytes -> bytes -> bytes -> bool).

Definition TxSignerAuthorized (tx : Transaction) (address : bytes) : bool :=
  TxVerifiedSignedBy crypto_sign_verify tx address.

(** The transfer branch of the state transition. *)
Definition apply_transfer (L : t) (op : TokenOpData) : option t :=
  let fk := account_key (token_id op) (op_from op) in
  let tk := account_key (token_id op) (op_to op) in
  if bytes_eqb fk tk then Some L
  else
    let from_balance := default 0 (balances_ L !! fk) in
    let to_balance := default 0 (balances_ L !! tk) in
    if (from_balance <? op_amount op) || (to_balance <? 0) || (INT64_MAX - op_amount op <? to_balance) then None
    else if negb (BalanceAdmissible (from_balance - op_amount op)) then None
    else if negb (BalanceAdmissible (to_balance + op_amount op)) then None
    else Some (with_balances L (move_balances (balances_ L) fk tk (op_amount op))).

(** The redemption branch: the tokens are destroyed and their principal stays owed. *)
Definition apply_redeem (L : t) (op : TokenOpData) (height : Z) : option t :=
  let fk := account_key (token_id op) (op_from op) in
  match balances_ L !! fk, supply_ L !! token_id op with
  | Some balance, Some supply =>
      if (balance <? op_amount op) || (supply <? op_amount op) then None
      else
        let remaining := balance - op_amount op in
        if negb (BalanceAdmissible remaining) then None
        else match OpenRedemption (reserve_state_ L) (op_amount op) (supply - op_amount op) with
             | None => None
             | Some reserve =>
                 let L' := with_money L
                   (if remaining =? 0 then delete fk (balances_ L) else <[fk := remaining]> (balances_ L))
                   (<[token_id op := supply - op_amount op]> (supply_ L)) reserve in
                 if BtcVeldRedeemGuardActive height then
                   let wid := WindowId height in
                   let used := if wid =? redeem_window_id_ L then redeemed_in_window_ L else 0 in
                   Some (with_window L' wid (used + op_amount op))
                 else Some L'
             end
  | _, _ => None
  end.

(** [ApplyTokenOp] for btcVELD, the only token the ledger registers. *)
Definition ApplyTokenOp (L : t) (op : TokenOpData) (tx : Transaction) (height : Z) (gate : BtcVeldPegGateState)
  : option t :=
  if negb (bytes_eqb (token_id op) BTCVELD_TOKEN_ID) || negb (bool_decide (is_Some (tokens_ L !! token_id op))) then None
  else if op_amount op <=? 0 then None
  else match action op with
  | MINT | RESERVE | EXPOSE | CANCEL | FUND => None
  | TRANSFER =>
      if negb (IsCanonicalTokenCreditAddress (op_to op)) then None
      else if (size (op_from op) =? 0) || (size (op_to op) =? 0) then None
      else if negb (TxSignerAuthorized tx (op_from op)) then None
      else if default 0 (balances_ L !! account_key (token_id op) (op_from op)) <? op_amount op then None
      else apply_transfer L op
  | REDEEM =>
      if negb (RedeemAllowed gate) then None
      else if (size (op_from op) =? 0) || negb (size (op_to op) =? 0) || (size (op_memo op) =? 0) then None
      else if negb (TxSignerAuthorized tx (op_from op)) then None
      else
        let spk := BtcVeldHex_ (op_memo op) in
        if negb (BTCVELD_REDEEM_SPK_CHECK_ACTIVATION_HEIGHT =? 0)
           && (BTCVELD_REDEEM_SPK_CHECK_ACTIVATION_HEIGHT <=? height)
           && ((size spk =? 0) || negb (IsStandardBtcRedeemSpk spk)) then None
        else if BtcVeldRedeemGuardActive height
                && negb (FitsWindow (if WindowId height =? redeem_window_id_ L then redeemed_in_window_ L else 0)
                           (op_amount op) LaunchWindowCeilingSats) then None
        else if default 0 (balances_ L !! account_key (token_id op) (op_from op)) <? op_amount op then None
        else apply_redeem L op height
  end.

End Markers.

(** ** Credits *)

(** [CompensateMint]: a redemption that was slashed is restored to its holder. *)
Definition CompensateMint (L : t) (recipient : bytes) (amount : Z) : option t :=
  if negb (IsCanonicalTokenCreditAddress recipient) || (amount =? 0) then None
  else if negb (bool_decide (is_Some (tokens_ L !! BTCVELD_TOKEN_ID))) then None
  else if INT64_MAX <? amount then None
  else
    let sup := default 0 (supply_ L !! BTCVELD_TOKEN_ID) in
    if sup <? 0 then None
    else if INT64_MAX - amount <? sup then None
    else
      let key := account_key BTCVELD_TOKEN_ID recipient in
      let old_balance := default 0 (balances_ L !! key) in
      if (old_balance <? 0) || (INT64_MAX - amount <? old_balance) then None
      else if negb (BalanceAdmissible (old_balance + amount)) then None
      else match ResolveDefaultOrCompensation (reserve_state_ L) amount (sup + amount) with
           | None => None
           | Some reserve => Some (with_money L (<[key := old_balance + amount]> (balances_ L))
                                     (<[BTCVELD_TOKEN_ID := sup + amount]> (supply_ L)) reserve)
           end.

(** The monetary part of [MaybeApplyReserveTransitionLocked_], for a proof the verifier has
    accepted and whose deposit has not been used before. *)
Definition apply_verified (L : t) (v : Result) : option t :=
  let supply_before := default 0 (supply_ L !! BTCVELD_TOKEN_ID) in
  if supply_before <? 0 then None
  else
    let amount := mint_amount (claim v) in
    if (INT64_MAX <? amount) || (INT64_MAX - supply_before <? amount) then None
    else
      let supply_after := supply_before + amount in
      let key := account_key BTCVELD_TOKEN_ID (recipient v) in
      let balance_before := default 0 (balances_ L !! key) in
      if negb (amount =? 0) && ((balance_before <? 0) || (INT64_MAX - amount <? balance_before)
                                || negb (BalanceAdmissible (balance_before + amount))) then None
      else match ApplyAuthorized (reserve_state_ L) v supply_before supply_after with
           | None => None
           | Some reserve =>
               if amount =? 0 then Some (with_money L (balances_ L) (supply_ L) reserve)
               else Some (with_money L (<[key := balance_before + amount]> (balances_ L))
                            (<[BTCVELD_TOKEN_ID := supply_after]> (supply_ L)) reserve)
           end.

(** [FreezeBtcVeldReserve], for a block that has not used its reserve edge. *)
Definition FreezeBtcVeldReserve (L : t) (unauthorized_spend_txid bitcoin_block : Hash256) : option t :=
  let supply := default 0 (supply_ L !! BTCVELD_TOKEN_ID) in
  if supply <? 0 then None
  else match ApplyFreeze (reserve_state_ L) unauthorized_spend_txid bitcoin_block with
       | None => None
       | Some next => if negb (AccountingHolds next supply) then None
                      else Some (with_money L (balances_ L) (supply_ L) next)
       end.

End OnChainTokenLedger.
