(* ===== verification/TokenRules.v ===== *)
(** * Rules of the token ledger

    The account of btcVELD: the balances add up to the supply, every account is above the
    dust floor, redemptions stay within the window, and the reserve covers what circulates
    and what is owed.  Every operation keeps it, and only the owner's signature lowers a
    balance outside the pool. *)
From S2P Require Import Prelude Bytes Sha256 StateDigest Profile Transaction Block Address OpAuthorization.
From S2P Require Import AmmMath MapSum Reserve TokenLedger.
Import OnChainTokenLedger.

Lemma account_key_inj token a b : account_key token a = account_key token b -> a = b.
Proof. unfold account_key. intros H. apply app_inv_head in H. by apply app_inv_head in H. Qed.

(** ** The invariant *)

Definition balances_ok (b : gmap bytes Z) : Prop := forall k v, b !! k = Some v -> MIN_ACCOUNT_SATS <= v.

Record token_inv (L : t) : Prop := {
  ti_tokens : forall id, is_Some (tokens_ L !! id) -> id = BTCVELD_TOKEN_ID;
  ti_balances : balances_ok (balances_ L);
  ti_supply : GetSupply L BTCVELD_TOKEN_ID = map_total (balances_ L);
  ti_reserve : AccountingHolds (reserve_state_ L) (GetSupply L BTCVELD_TOKEN_ID) = true;
  ti_window : 0 <= redeemed_in_window_ L <= LaunchWindowCeilingSats }.

Lemma balances_total_nonneg b : balances_ok b -> 0 <= map_total b.
Proof. intros H. apply map_total_nonneg. intros k v E. specialize (H k v E). unfold MIN_ACCOUNT_SATS in H. lia. Qed.

Lemma InitialState_accounting : AccountingHolds InitialState 0 = true.
Proof. vm_compute. reflexivity. Qed.

Lemma EmptyTokens_inv : token_inv Empty.
Proof.
  split; cbn [tokens_ balances_ supply_ reserve_state_ redeemed_in_window_ Empty].
  - intros id []. done.
  - intros k v H. done.
  - done.
  - apply InitialState_accounting.
  - unfold LaunchWindowCeilingSats, WindowCeilingSats. rewrite i64_id; vm_compute; split; congruence.
Qed.

(** ** Moves *)

Lemma admissible_iff b : BalanceAdmissible b = true <-> b = 0 \/ MIN_ACCOUNT_SATS <= b.
Proof. unfold BalanceAdmissible. rewrite orb_true_iff, Z.eqb_eq, Z.leb_le. done. Qed.

(** What a move between two distinct accounts does. *)
Lemma move_balances_spec b fk tk amount :
  balances_ok b -> fk <> tk -> 0 < amount ->
  BalanceAdmissible (at_key b fk - amount) = true -> BalanceAdmissible (at_key b tk + amount) = true ->
  let b' := move_balances b fk tk amount in
  balances_ok b' /\ map_total b' = map_total b
  /\ at_key b' fk = at_key b fk - amount /\ at_key b' tk = at_key b tk + amount
  /\ forall k, k <> fk -> k <> tk -> at_key b' k = at_key b k.
Proof.
  intros Hb Hne Ha Hf%admissible_iff Ht%admissible_iff. unfold move_balances.
  change (default 0 (b !! fk)) with (at_key b fk). change (default 0 (b !! tk)) with (at_key b tk).
  set (m := if at_key b fk - amount =? 0 then _ else _).
  assert (balances_ok m /\ map_total m = map_total b - amount /\ at_key m fk = at_key b fk - amount
          /\ forall k, k <> fk -> at_key m k = at_key b k) as (Hm & Tm & Km & Om).
  { unfold m. destruct (Z.eqb_spec (at_key b fk - amount) 0) as [E|E].
    - split_and!; [intros k v [_ H]%lookup_delete_Some; eauto|rewrite map_total_delete; lia|rewrite at_key_delete; lia|].
      intros k Hk. by rewrite at_key_delete_ne.
    - split_and!; [|rewrite map_total_insert; lia|by rewrite at_key_insert|intros k Hk; by rewrite at_key_insert_ne].
      intros k v [[<- <-]|[_ H]]%lookup_insert_Some; [lia|eauto]. }
  assert (0 <= at_key b tk).
  { unfold at_key. destruct (b !! tk) as [v|] eqn:E; cbn; [|lia]. specialize (Hb _ _ E). unfold MIN_ACCOUNT_SATS in Hb. lia. }
  split_and!.
  - intros k v [[<- <-]|[_ H']]%lookup_insert_Some; [|eauto]. unfold MIN_ACCOUNT_SATS in *. lia.
  - rewrite map_total_insert, Om by done. lia.
  - rewrite at_key_insert_ne by done. done.
  - by rewrite at_key_insert.
  - intros k Hk1 Hk2. rewrite at_key_insert_ne by done. by apply Om.
Qed.

(** A pool move between distinct accounts of btcVELD. *)
Lemma AmmMove_spec L from to amount L' :
  token_inv L -> from <> to -> AmmMove L BTCVELD_TOKEN_ID from to amount = Some L' ->
  token_inv L' /\ 0 < amount /\ tokens_ L' = tokens_ L
  /\ GetBalance L' BTCVELD_TOKEN_ID from = GetBalance L BTCVELD_TOKEN_ID from - amount
  /\ GetBalance L' BTCVELD_TOKEN_ID to = GetBalance L BTCVELD_TOKEN_ID to + amount
  /\ (forall a, a <> from -> a <> to -> GetBalance L' BTCVELD_TOKEN_ID a = GetBalance L BTCVELD_TOKEN_ID a)
  /\ GetBalance L BTCVELD_TOKEN_ID to <= INT64_MAX - amount.
Proof.
  intros I Hne. unfold AmmMove, AmmMoveAllowedLocked_.
  destruct ((amount <=? 0) || _ || _ || _) eqn:E0; [done|]. bool_hyps.
  set (fk := account_key BTCVELD_TOKEN_ID from). set (tk := account_key BTCVELD_TOKEN_ID to).
  assert (fk <> tk) as Hk by (intros E; by apply account_key_inj in E).
  unfold bytes_eqb. rewrite (bool_decide_eq_false_2 (fk = tk)) by done.
  destruct (Z.ltb_spec (default 0 (balances_ L !! fk)) amount) as [|Hbal]; [done|].
  destruct (Z.ltb_spec (default 0 (balances_ L !! tk)) 0); [done|].
  destruct (Z.ltb_spec (INT64_MAX - amount) (default 0 (balances_ L !! tk))) as [|Hmax]; [done|]. cbn [orb].
  destruct (BalanceAdmissible _) eqn:Ef; [|done]. destruct (BalanceAdmissible (default 0 (balances_ L !! tk) + amount)) eqn:Et; [|done].
  cbn [andb negb]. intros [= <-].
  destruct (move_balances_spec (balances_ L) fk tk amount) as (Hb & Ht & Hf & Hto & Ho); try done; [apply I|lia|].
  destruct I as [IT IB IS IR IW].
  split; [split; cbn [tokens_ balances_ supply_ reserve_state_ redeemed_in_window_ with_balances]; try done; by rewrite Ht|].
  split; [lia|]. split; [done|]. split; [done|]. split; [done|]. split; [|done].
  intros a Ha1 Ha2. apply Ho; intros E; [apply Ha1|apply Ha2]; by apply account_key_inj in E.
Qed.

(** A registered token, a covered amount and admissible results suffice. *)
Lemma CanAmmMove_AmmMove L token from to amount :
  CanAmmMove L token from to amount = true -> exists L', AmmMove L token from to amount = Some L'.
Proof. unfold CanAmmMove, AmmMove. intros ->. cbn [negb]. destruct (bytes_eqb _ _); eauto. Qed.

(** ** Markers *)

Section Markers.
Context (verify : bytes -> bytes -> bytes -> bool).

Lemma apply_transfer_spec L op L' :
  token_inv L -> token_id op = BTCVELD_TOKEN_ID -> 0 < op_amount op -> apply_transfer L op = Some L' ->
  token_inv L'
  /\ (forall a, a <> op_from op -> a <> op_to op -> GetBalance L' BTCVELD_TOKEN_ID a = GetBalance L BTCVELD_TOKEN_ID a)
  /\ (op_from op <> op_to op ->
      GetBalance L' BTCVELD_TOKEN_ID (op_from op) = GetBalance L BTCVELD_TOKEN_ID (op_from op) - op_amount op
      /\ GetBalance L' BTCVELD_TOKEN_ID (op_to op) = GetBalance L BTCVELD_TOKEN_ID (op_to op) + op_amount op)
  /\ (op_from op = op_to op -> L' = L).
Proof.
  intros I Et Ha. unfold apply_transfer. rewrite Et.
  set (fk := account_key BTCVELD_TOKEN_ID (op_from op)). set (tk := account_key BTCVELD_TOKEN_ID (op_to op)).
  unfold bytes_eqb. case_bool_decide as Ek.
  { intros [= <-]. apply account_key_inj in Ek. split_and!; try done. }
  destruct (_ || _ || _) eqn:E0; [done|]. bool_hyps.
  destruct (BalanceAdmissible _) eqn:Ef; [cbn [negb]|done].
  destruct (BalanceAdmissible (_ + _)) eqn:Eto; [cbn [negb]|done]. intros [= <-].
  destruct (move_balances_spec (balances_ L) fk tk (op_amount op)) as (Hb & Ht & Hf & Hto & Ho); try done; [apply I|].
  destruct I as [IT IB IS IR IW].
  split; [split; cbn [tokens_ balances_ supply_ reserve_state_ redeemed_in_window_ with_balances]; try done; by rewrite Ht|].
  split_and!.
  - intros a Ha1 Ha2. apply Ho; intros E; [apply Ha1|apply Ha2]; by apply account_key_inj in E.
  - done.
  - intros Ee. destruct Ek. unfold fk, tk. by rewrite Ee.
Qed.

Lemma OpenRedemption_spec s amount after s' :
  OpenRedemption s amount after = Some s' -> AccountingHolds s' after = true.
Proof. unfold OpenRedemption. destruct (_ || _ || _); [done|]. destruct (AccountingHolds _ after) eqn:E; [|done]. by intros [= <-]. Qed.

Lemma apply_redeem_spec L op h L' :
  token_inv L -> token_id op = BTCVELD_TOKEN_ID -> 0 < op_amount op ->
  (BtcVeldRedeemGuardActive h = true ->
   FitsWindow (if WindowId h =? redeem_window_id_ L then redeemed_in_window_ L else 0) (op_amount op) LaunchWindowCeilingSats = true) ->
  apply_redeem L op h = Some L' ->
  token_inv L'
  /\ (forall a, a <> op_from op -> GetBalance L' BTCVELD_TOKEN_ID a = GetBalance L BTCVELD_TOKEN_ID a)
  /\ GetBalance L' BTCVELD_TOKEN_ID (op_from op) = GetBalance L BTCVELD_TOKEN_ID (op_from op) - op_amount op.
Proof.
  intros I Et Ha Hw. unfold apply_redeem. rewrite Et. set (fk := account_key BTCVELD_TOKEN_ID (op_from op)).
  destruct (balances_ L !! fk) as [bal|] eqn:Eb; [|done]. destruct (supply_ L !! BTCVELD_TOKEN_ID) as [sup|] eqn:Es; [|done].
  destruct (_ || _) eqn:E0; [done|]. bool_hyps. destruct (BalanceAdmissible _) eqn:Ef; [cbn [negb]|done].
  apply admissible_iff in Ef.
  destruct (OpenRedemption _ _ _) as [rs|] eqn:Er; [|done]. apply OpenRedemption_spec in Er.
  set (b' := if bal - op_amount op =? 0 then _ else _).
  assert (at_key (balances_ L) fk = bal) as Ebal by (unfold at_key; by rewrite Eb).
  assert (balances_ok b' /\ map_total b' = map_total (balances_ L) - op_amount op
          /\ at_key b' fk = bal - op_amount op
          /\ forall k, k <> fk -> at_key b' k = at_key (balances_ L) k) as (Hb & Ht & Hfk & Ho).
  { pose proof (ti_balances _ I) as HB. unfold b'. destruct (Z.eqb_spec (bal - op_amount op) 0) as [E|E].
    - split_and!; [intros k v [_ H']%lookup_delete_Some; eauto|rewrite map_total_delete; lia|rewrite at_key_delete; lia|].
      intros k Hk. by rewrite at_key_delete_ne.
    - split_and!; [|rewrite map_total_insert; lia|by rewrite at_key_insert|intros k Hk; by rewrite at_key_insert_ne].
      intros k v [[<- <-]|[_ H']]%lookup_insert_Some; [lia|eauto]. }
  assert (GetSupply L BTCVELD_TOKEN_ID = sup) as Esup by (unfold GetSupply; by rewrite Es).
  set (L1 := with_money L b' _ rs).
  assert (GetSupply L1 BTCVELD_TOKEN_ID = sup - op_amount op) as Es1 by (unfold GetSupply, L1; cbn; by rewrite lookup_insert_eq).
  assert (forall id u, 0 <= u <= LaunchWindowCeilingSats -> token_inv (with_window L1 id u)) as Hgo.
  { intros id u Hu. destruct I as [IT IB IS IR IW]. split; try done.
    - change (GetSupply L1 BTCVELD_TOKEN_ID = map_total b'). rewrite Es1, Ht, <- IS. lia.
    - change (AccountingHolds rs (GetSupply L1 BTCVELD_TOKEN_ID) = true). by rewrite Es1. }
  assert (forall a, a <> op_from op -> GetBalance L1 BTCVELD_TOKEN_ID a = GetBalance L BTCVELD_TOKEN_ID a) as Hoth.
  { intros a Hna. apply Ho. intros E. by apply account_key_inj in E. }
  assert (GetBalance L1 BTCVELD_TOKEN_ID (op_from op) = GetBalance L BTCVELD_TOKEN_ID (op_from op) - op_amount op) as Hown.
  { change (at_key b' fk = at_key (balances_ L) fk - op_amount op). lia. }
  destruct (BtcVeldRedeemGuardActive h) eqn:Eg; intros [= <-].
  - specialize (Hw eq_refl). unfold FitsWindow in Hw. destruct (_ || _ || _) eqn:E1 in Hw; [done|]. bool_hyps.
    destruct (LaunchWindowCeilingSats <? _) eqn:E2 in Hw; [done|].
    split; [apply Hgo; lia|]. split; [exact Hoth|exact Hown].
  - split; [|split; [exact Hoth|exact Hown]]. pose proof (Hgo (redeem_window_id_ L) (redeemed_in_window_ L) (ti_window _ I)) as H1. exact H1.
Qed.

(** A token marker keeps the invariant; a balance it lowers is that of an account whose key
    signed the transaction, and a balance it raises is that of an account a key can spend. *)
Lemma ApplyTokenOp_spec L op tx h gate L' :
  token_inv L -> ApplyTokenOp verify L op tx h gate = Some L' ->
  token_inv L'
  /\ (forall a, GetBalance L' BTCVELD_TOKEN_ID a < GetBalance L BTCVELD_TOKEN_ID a -> TxVerifiedSignedBy verify tx a = true)
  /\ (forall a, GetBalance L BTCVELD_TOKEN_ID a < GetBalance L' BTCVELD_TOKEN_ID a -> IsCanonicalTokenCreditAddress a = true).
Proof.
  intros I. unfold ApplyTokenOp. unfold bytes_eqb. case_bool_decide as Et; cbn [negb orb]; [|done].
  destruct (negb _); [done|]. destruct (Z.leb_spec (op_amount op) 0); [done|].
  destruct (action op); try done.
  - destruct (IsCanonicalTokenCreditAddress (op_to op)) eqn:Ec; [cbn [negb]|done]. destruct (_ || _); [done|].
    destruct (TxSignerAuthorized verify tx (op_from op)) eqn:Es; [cbn [negb]|done].
    destruct (_ <? _); [done|]. intros Hap.
    destruct (apply_transfer_spec L op L' I Et ltac:(lia) Hap) as (I' & Ho & Hto & Hsame). split; [done|].
    destruct (decide (op_from op = op_to op)) as [E|E]; [rewrite (Hsame E); split; intros; lia|].
    destruct (Hto E) as [Ef Eto]. split; intros a Hlt.
    + destruct (decide (a = op_from op)) as [->|Hn]; [done|]. destruct (decide (a = op_to op)) as [->|Hn']; [lia|].
      rewrite Ho in Hlt by done. lia.
    + destruct (decide (a = op_to op)) as [->|Hn]; [done|]. destruct (decide (a = op_from op)) as [->|Hn']; [lia|].
      rewrite Ho in Hlt by done. lia.
  - destruct (RedeemAllowed gate); [cbn [negb]|done]. destruct (_ || _ || _); [done|].
    destruct (TxSignerAuthorized verify tx (op_from op)) eqn:Es; [cbn [negb]|done].
    destruct (negb _ && _ && _); [done|]. destruct (BtcVeldRedeemGuardActive h && _) eqn:Ew; [done|].
    destruct (_ <? _); [done|]. intros Hap.
    destruct (apply_redeem_spec L op h L' I Et ltac:(lia)) as (I' & Ho & Hf); [|done|].
    { intros Hg. rewrite Hg in Ew. cbn [andb] in Ew. by apply negb_false_iff in Ew. }
    split; [done|]. split; intros a Hlt.
    + destruct (decide (a = op_from op)) as [->|Hn]; [exact Es|]. rewrite Ho in Hlt by done. lia.
    + destruct (decide (a = op_from op)) as [->|Hn]; [|rewrite Ho in Hlt by done]; exfalso; lia.
Qed.
End Markers.

(** ** Credits *)

Lemma credit_inv L key amount rs :
  token_inv L -> 0 < amount -> BalanceAdmissible (at_key (balances_ L) key + amount) = true ->
  AccountingHolds rs (GetSupply L BTCVELD_TOKEN_ID + amount) = true ->
  token_inv (with_money L (<[key := at_key (balances_ L) key + amount]> (balances_ L))
               (<[BTCVELD_TOKEN_ID := GetSupply L BTCVELD_TOKEN_ID + amount]> (supply_ L)) rs).
Proof.
  intros [IT IB IS IR IW] Ha Hadm%admissible_iff Hr.
  assert (0 <= at_key (balances_ L) key).
  { apply at_key_le_total. intros k v E. specialize (IB k v E). unfold MIN_ACCOUNT_SATS in IB. lia. }
  set (L' := with_money _ _ _ _).
  assert (GetSupply L' BTCVELD_TOKEN_ID = GetSupply L BTCVELD_TOKEN_ID + amount) as Es by (apply (at_key_insert (supply_ L))).
  split; try done.
  - unfold L', balances_ok. cbn [balances_ with_money]. intros k v [[<- <-]|[_ H']]%lookup_insert_Some; [lia|eauto].
  - rewrite Es. unfold L'. cbn [balances_ with_money]. rewrite map_total_insert. lia.
  - by rewrite Es.
Qed.

Lemma ResolveDefaultOrCompensation_spec s amount after s' :
  ResolveDefaultOrCompensation s amount after = Some s' -> AccountingHolds s' after = true.
Proof. unfold ResolveDefaultOrCompensation. destruct (_ || _); [done|]. destruct (AccountingHolds _ after) eqn:E; [|done]. by intros [= <-]. Qed.

Lemma ApplyAuthorized_spec s v before after s' :
  ApplyAuthorized s v before after = Some s' -> AccountingHolds s' after = true.
Proof.
  unfold ApplyAuthorized. destruct (_ || _ || _ || _); [done|]. destruct (authorized_next _ _ _ _); [|done].
  destruct (AccountingHolds _ after) eqn:E; [|done]. by intros [= <-].
Qed.

(** A credit raises one account by the amount and no other. *)
Lemma credit_balances L key amount s rs a :
  GetBalance (with_money L (<[key := at_key (balances_ L) key + amount]> (balances_ L)) s rs) BTCVELD_TOKEN_ID a
  = GetBalance L BTCVELD_TOKEN_ID a + (if decide (account_key BTCVELD_TOKEN_ID a = key) then amount else 0).
Proof.
  change (at_key (<[key := at_key (balances_ L) key + amount]> (balances_ L)) (account_key BTCVELD_TOKEN_ID a)
          = at_key (balances_ L) (account_key BTCVELD_TOKEN_ID a) + (if decide (account_key BTCVELD_TOKEN_ID a = key) then amount else 0)).
  destruct (decide _) as [->|Hn]; [by rewrite at_key_insert|]. rewrite at_key_insert_ne by done. lia.
Qed.

Lemma CompensateMint_spec L r amount L' :
  token_inv L -> 0 <= amount -> CompensateMint L r amount = Some L' ->
  token_inv L' /\ IsCanonicalTokenCreditAddress r = true
  /\ forall a, GetBalance L' BTCVELD_TOKEN_ID a = GetBalance L BTCVELD_TOKEN_ID a + (if decide (a = r) then amount else 0).
Proof.
  intros I Ha. unfold CompensateMint. destruct (IsCanonicalTokenCreditAddress r) eqn:Ec; cbn [negb orb]; [|done].
  destruct (Z.eqb_spec amount 0); [done|]. destruct (negb _); [done|]. destruct (_ <? _); [done|].
  change (default 0 (supply_ L !! BTCVELD_TOKEN_ID)) with (GetSupply L BTCVELD_TOKEN_ID).
  destruct (_ <? _); [done|]. destruct (_ <? _); [done|].
  change (default 0 (balances_ L !! account_key BTCVELD_TOKEN_ID r)) with (at_key (balances_ L) (account_key BTCVELD_TOKEN_ID r)).
  destruct (_ || _); [done|]. destruct (BalanceAdmissible _) eqn:Eb; [cbn [negb]|done].
  destruct (ResolveDefaultOrCompensation _ _ _) as [rs|] eqn:Er; [|done]. apply ResolveDefaultOrCompensation_spec in Er.
  intros [= <-]. split; [apply credit_inv; (done || lia)|]. split; [done|]. intros a. rewrite credit_balances.
  destruct (decide (a = r)) as [->|Hn]; [by rewrite decide_True|]. rewrite decide_False; [done|]. intros E. by apply account_key_inj in E.
Qed.

Lemma apply_verified_spec L v L' :
  token_inv L -> 0 <= mint_amount (claim v) -> apply_verified L v = Some L' ->
  token_inv L'
  /\ forall a, GetBalance L' BTCVELD_TOKEN_ID a
             = GetBalance L BTCVELD_TOKEN_ID a + (if decide (a = recipient v) then mint_amount (claim v) else 0).
Proof.
  intros I Ha. unfold apply_verified.
  change (default 0 (supply_ L !! BTCVELD_TOKEN_ID)) with (GetSupply L BTCVELD_TOKEN_ID).
  change (default 0 (balances_ L !! account_key BTCVELD_TOKEN_ID (recipient v)))
    with (at_key (balances_ L) (account_key BTCVELD_TOKEN_ID (recipient v))).
  destruct (_ <? _); [done|]. destruct (_ || _); [done|]. destruct (negb _ && _) eqn:Eg; [done|].
  destruct (ApplyAuthorized _ _ _ _) as [rs|] eqn:Er; [|done]. apply ApplyAuthorized_spec in Er.
  destruct (Z.eqb_spec (mint_amount (claim v)) 0) as [E0|E0]; intros [= <-].
  - rewrite E0 in *. rewrite Z.add_0_r in Er. split; [|intros a; destruct (decide _); apply eq_sym, Z.add_0_r].
    destruct I as [IT IB IS IR IW]. by split.
  - cbn [negb andb] in Eg. bool_hyps. split; [apply credit_inv; (done || lia)|]. intros a. rewrite credit_balances.
    destruct (decide (a = recipient v)) as [->|Hn]; [by rewrite decide_True|]. rewrite decide_False; [done|].
    intros E. by apply account_key_inj in E.
Qed.

Lemma Freeze_spec L txid block L' :
  token_inv L -> FreezeBtcVeldReserve L txid block = Some L' ->
  token_inv L' /\ forall a, GetBalance L' BTCVELD_TOKEN_ID a = GetBalance L BTCVELD_TOKEN_ID a.
Proof.
  intros I. unfold FreezeBtcVeldReserve. destruct (_ <? _); [done|]. destruct (ApplyFreeze _ _ _) as [n|]; [|done].
  destruct (AccountingHolds n _) eqn:E; [|done]. intros [= <-]. destruct I as [IT IB IS IR IW]. by split.
Qed.

Lemma MaybeRegister_spec L h :
  token_inv L -> token_inv (MaybeRegisterBtcVeld L h)
  /\ forall a, GetBalance (MaybeRegisterBtcVeld L h) BTCVELD_TOKEN_ID a = GetBalance L BTCVELD_TOKEN_ID a.
Proof.
  intros I. unfold MaybeRegisterBtcVeld. destruct (_ =? _); [done|]. destruct (_ <? _); [done|].
  destruct (bool_decide _); [done|]. destruct I as [IT IB IS IR IW]. split; [|done]. split; try done.
  cbn [tokens_ RegisterTokenLocked ti_id btcveld_info]. intros id [x [[<- _]|[_ H]]%lookup_insert_Some]; [done|]. apply IT. eauto.
Qed.

(** Marking a block as processed changes nothing the account reads. *)
Lemma SetProcessed_spec s h bh s' :
  SetProcessed s h bh = Some s' ->
  Canonical s = true /\ HashIsZero bh = false /\ processed_veld_height s <= h
  /\ s' = mkState (status s) (reserve_txid s) (reserve_vout s) (reserve_value_sats s) (reserve_bitcoin_block s)
            (transition_count s) (transition_commitment s) (surplus_sats s) (open_redemption_principal s) h bh.
Proof.
  unfold SetProcessed. destruct (_ || _ || _) eqn:E; [done|]. bool_hyps. destruct (_ && _ && _); [done|]. intros [= <-].
  split_and!; (done || lia).
Qed.

Lemma processed_accounting s h bh s' supply :
  SetProcessed s h bh = Some s' -> AccountingHolds s' supply = AccountingHolds s supply.
Proof. intros (_ & _ & _ & ->)%SetProcessed_spec. reflexivity. Qed.

Lemma SetProcessed_inv L h bh r :
  token_inv L -> SetProcessed (reserve_state_ L) h bh = Some r -> token_inv (with_money L (balances_ L) (supply_ L) r).
Proof.
  intros [IT IB IS IR IW] Hp. split; try done. cbn [reserve_state_ with_money]. by rewrite (processed_accounting _ _ _ _ _ Hp).
Qed.
