(* ===== verification/Amm.v ===== *)
(** * The VELD/btcVELD pool ([core/amm_pool.h])

    The state machine of the constant-product pool.  Its VELD is one native output that
    every operation spends and recreates, its btcVELD is an account of the token ledger, and
    liquidity positions are ledger entries.  [ApplySwap], [ApplyAdd] and [ApplyRemove] are
    the operations, [ValidateBlock] the pure guard and [ProcessBlock] the block transition.

    A refused operation is [None]: [ProcessBlock] restores the state it had on entry and
    [ValidateBlock] works on copies, so nothing a refused operation wrote survives. *)
From S2P Require Import Prelude Bytes Sha256 StateDigest Profile Transaction Block Address OpAuthorization.
From S2P Require Import Marker FinalitySnapshot Validators FinalityCodec AmmMath MapSum Reserve TokenLedger.

(** [wallet/wallet.h] *)
Definition BuildOpReturnScript (data : bytes) : bytes :=
  0x6A :: (if size data <=? 75 then [u8 (size data)]
           else if size data <=? 255 then [0x4C; u8 (size data)]
           else [0x4D; u8 (Z.land (size data) 0xFF); u8 (Z.land (Z.shiftr (size data) 8) 0xFF)]) ++ data.

(** ** Pool state *)

Record AmmPool := mkPool {
  reserve_veld : Z; reserve_btcveld : Z; lp_supply : Z; locked_lp : Z; fee_bps : Z;
  anchor_veld : Z; anchor_btcveld : Z; exists_ : bool;
  pool_txid : Hash256; pool_vout : Z; utxo_valid : bool; veld_script : bytes; btcveld_addr : bytes }.

Definition NoPool : AmmPool := mkPool 0 0 0 0 BTCVELD_AMM_FEE_BPS 0 0 false ZeroHash 0 false [] [].

Record AmmOp := mkAmmOp { am_action : bytes; am_user : bytes; am_amt : Z; am_extra : Z }.

Definition SWAP_V2B : bytes := b:"SWAP_V2B".
Definition SWAP_B2V : bytes := b:"SWAP_B2V".
Definition ADD : bytes := b:"ADD".
Definition REMOVE : bytes := b:"REMOVE".

Definition AmmSwapMinimumOutputSatisfied (veld_in : bool) (minimum_out actual_out : Z) : bool :=
  if actual_out <=? 0 then false
  else if veld_in then (0 <? minimum_out) && (minimum_out <=? actual_out) else minimum_out =? 0.

(** ** Markers *)

(** [ss << v] for a signed integer. *)
Definition signed_to_string (v : Z) : bytes := if v <? 0 then 45 :: to_string (- v) else to_string v.

Definition AMM_PREFIX : bytes := b:"VELD_AMM|".

Definition EncodeAmmOp (op : AmmOp) : bytes :=
  AMM_PREFIX ++ am_action op ++ b:"|" ++ am_user op ++ b:"|" ++ signed_to_string (am_amt op) ++ b:"|"
  ++ signed_to_string (am_extra op).

(** The digits of [ParseCanonicalAmmI64]. *)
Fixpoint amm_digits (limit value : Z) (s : bytes) : option Z :=
  match s with
  | [] => Some value
  | c :: s' =>
      if (c <? 48) || (57 <? c) then None
      else let digit := c - 48 in
           if (limit - digit) / 10 <? value then None else amm_digits limit (value * 10 + digit) s'
  end.

Definition ParseCanonicalAmmI64 (s : bytes) : option Z :=
  match s with
  | [] => None
  | c0 :: rest =>
      let negative := c0 =? 45 in
      let digits := if negative then rest else s in
      match digits with
      | [] => None
      | d :: more =>
          if (c0 =? 43) then None
          else if (d =? 48) && negb (size more =? 0) then None
          else if negative && (d =? 48) then None
          else
            let limit := if negative then INT64_MAX + 1 else INT64_MAX in
            match amm_digits limit 0 digits with
            | None => None
            | Some v => Some (if negative then - v else v)
            end
      end
  end.

(** The fields between the bars. *)
Fixpoint split_fields (fuel : nat) (s : bytes) : list bytes :=
  match fuel with
  | O => [s]
  | S fuel' => match split_at PIPE s with None => [s] | Some (f, rest) => f :: split_fields fuel' rest end
  end.

Inductive AmmOpParseResult := AMM_NONE | AMM_VALID (op : AmmOp) | AMM_INVALID.

(** One marker payload. *)
Definition parse_amm_payload (s : bytes) : option AmmOp :=
  let body := drop (length AMM_PREFIX) s in
  match split_fields (length body) body with
  | [f0; f1; f2; f3] =>
      if (size f0 =? 0) || (size f1 =? 0) then None
      else match ParseCanonicalAmmI64 f2, ParseCanonicalAmmI64 f3 with
           | Some amt, Some extra => Some (mkAmmOp f0 f1 amt extra)
           | _, _ => None
           end
  | _ => None
  end.

(** The scan of the outputs: the operation found so far and the number of OP_RETURN outputs. *)
Fixpoint scan_amm (outs : list TxOutput) (found : option AmmOp) (op_returns : Z) : AmmOpParseResult :=
  match outs with
  | [] => match found with
          | None => AMM_NONE
          | Some op => if negb (op_returns =? 1) then AMM_INVALID else AMM_VALID op
          end
  | o :: outs' =>
      let op_returns := match script_pubkey o with c :: _ => if c =? 0x6a then op_returns + 1 else op_returns
                                                 | [] => op_returns end in
      let s := ParseOpReturn (script_pubkey o) in
      if negb (starts_with AMM_PREFIX s) then scan_amm outs' found op_returns
      else match found with
           | Some _ => AMM_INVALID
           | None =>
               if negb (bytes_eqb (script_pubkey o) (BuildOpReturnScript s)) then AMM_INVALID
               else if negb (value o =? 0) then AMM_INVALID
               else match parse_amm_payload s with
                    | None => AMM_INVALID
                    | Some op => scan_amm outs' (Some op) op_returns
                    end
           end
  end.

Definition ParseAmmOpDetailed (tx : Transaction) : AmmOpParseResult := scan_amm (outputs tx) None 0.

(** ** The covenant *)

Definition POOL_TAG : bytes := b:"AMMPOOLv1:".
Definition PoolVeldScript (pool_id : bytes) : bytes := POOL_TAG ++ pool_id.
Definition IsAmmPoolScript (script : bytes) : bool :=
  (size POOL_TAG <? size script) && starts_with POOL_TAG script.

Definition MAX_AMM_FUNDING_INPUTS : Z := 24.
Definition MAX_AMM_TX_BYTES : Z := 128 * 1024.

Definition AmmTransactionEnvelopeWithinBounds (tx : Transaction) : bool :=
  if negb (version tx =? 1) || negb (locktime tx =? 0) || (size (inputs tx) =? 0)
     || (MAX_AMM_FUNDING_INPUTS + 1 <? size (inputs tx))
     || (MAX_AMM_TX_BYTES <? size (Transaction.Serialize tx)) then false
  else forallb (fun i => sequence i =? 0xFFFFFFFF) (inputs tx).

Definition pool_account (pool_id : bytes) : bytes := b:"AMM:" ++ pool_id.

Definition NewPool (pool_id : bytes) : AmmPool :=
  mkPool 0 0 0 0 BTCVELD_AMM_FEE_BPS 0 0 true ZeroHash 0 false (PoolVeldScript pool_id) (pool_account pool_id).

Definition PoolCreationAllowed (height : Z) (gate : BtcVeldPegGateState) : bool :=
  if negb (AmmAllowed gate) then false
  else if size BTCVELD_ISSUER_ADDRESS =? 0 then false
  else if height <? BTCVELD_ACTIVATION_HEIGHT then false
  else if negb (BTCVELD_AMM_ACTIVATION_HEIGHT =? 0) && (height <? BTCVELD_AMM_ACTIVATION_HEIGHT) then false
  else FourBandActive height.

(** ** Quotes *)

Inductive SwapRejectCode := NO_REJECT | FEE_MODEL_NOT_ACTIVE | INVALID_ANCHOR | INVALID_STATE | FEE_SCHEDULE_NO_FIXED_POINT.

Record SwapQuote := mkQuote {
  gross_out : Z; amount_out : Z; fee_out : Z; q_fee_bps : Z; rebalances_anchor : bool; band : Z;
  reject_code : SwapRejectCode; post_reserve_veld : Z; post_reserve_btcveld : Z;
  pre_deviation_num : Z; pre_deviation_den : Z; post_deviation_num : Z; post_deviation_den : Z;
  pre_deviation_bps : Z; post_deviation_bps : Z }.

Definition rejected (code : SwapRejectCode) (gross num den bps : Z) : SwapQuote :=
  mkQuote gross (-1) 0 0 false 0 code 0 0 num den 0 0 bps 0.

Definition reject (q : SwapQuote) : bool := match reject_code q with NO_REJECT => false | _ => true end.

(** A fee candidate evaluated on its own post-trade reserves; [None] is an output that is
    not feasible. *)
Record FeeEval := mkEval {
  e_out : Z; e_post_veld : Z; e_post_btc : Z; e_delta : Z; e_den : Z; e_rebalances : bool }.

Definition evaluate_fee (p : AmmPool) (veld_in : bool) (amt_in before charged_bps : Z) : option FeeEval :=
  let rin := if veld_in then reserve_veld p else reserve_btcveld p in
  let rout := if veld_in then reserve_btcveld p else reserve_veld p in
  let out := SwapOut rin rout amt_in charged_bps in
  if out <? 0 then None
  else
    let post_veld := if veld_in then reserve_veld p + amt_in else reserve_veld p - out in
    let post_btc := if veld_in then reserve_btcveld p - out else reserve_btcveld p + amt_in in
    if (post_veld <=? 0) || (post_btc <=? 0) then None
    else
      let delta := AnchorCrossDistance post_veld post_btc (anchor_veld p) (anchor_btcveld p) in
      Some (mkEval out post_veld post_btc delta (post_btc * anchor_veld p)
              (CompareU192 (MulU128U64 delta (reserve_btcveld p)) (MulU128U64 before post_btc) <=? 0)).

(** Whether a candidate charges the fee of its own band, and that band. *)
Definition candidate_ok (e : FeeEval) (cand : Z) : option Z :=
  if e_rebalances e then if cand =? BTCVELD_AMM_FEE_MIN_BPS then Some 1 else None
  else let '(fee, b) := BandFeeBps (e_delta e) (e_den e) in if fee =? cand then Some b else None.

(** The loop over the fee schedule: the number of valid candidates, whether one was
    feasible, and the last valid one with its fee and band. *)
Definition fee_loop (p : AmmPool) (veld_in : bool) (amt_in before : Z) : Z * bool * option (FeeEval * Z * Z) :=
  foldl (fun '(valid, feasible, chosen) cand =>
           match evaluate_fee p veld_in amt_in before cand with
           | None => (valid, feasible, chosen)
           | Some e => match candidate_ok e cand with
                       | Some b => (valid + 1, true, Some (e, cand, b))
                       | None => (valid, true, chosen)
                       end
           end) (0, false, None) BTCVELD_AMM_BAND_FEE_BPS.

Definition QuoteSwapLocked (p : AmmPool) (veld_in : bool) (amt_in height : Z) : SwapQuote :=
  if negb (FourBandActive height) then rejected FEE_MODEL_NOT_ACTIVE (-1) 0 0 0
  else if negb (exists_ p) || (reserve_veld p <=? 0) || (reserve_btcveld p <=? 0) || (amt_in <=? 0)
  then rejected INVALID_STATE (-1) 0 0 0
  else if (anchor_veld p <=? 0) || (anchor_btcveld p <=? 0) then rejected INVALID_ANCHOR (-1) 0 0 0
  else
    let rin := if veld_in then reserve_veld p else reserve_btcveld p in
    let rout := if veld_in then reserve_btcveld p else reserve_veld p in
    let gross := GrossSwapOut rin rout amt_in in
    if gross <? 0 then rejected INVALID_STATE gross 0 0 0
    else if INT64_MAX - rin <? amt_in then rejected INVALID_STATE (-1) 0 0 0
    else if FlatFeeActive height then
      let out := SwapOut rin rout amt_in BTCVELD_AMM_FLAT_FEE_BPS in
      if out <=? 0 then rejected INVALID_STATE gross 0 0 0
      else mkQuote gross out (gross - out) BTCVELD_AMM_FLAT_FEE_BPS false 0 NO_REJECT
             (if veld_in then reserve_veld p + amt_in else reserve_veld p - out)
             (if veld_in then reserve_btcveld p - out else reserve_btcveld p + amt_in) 0 0 0 0 0 0
    else
      let before := AnchorCrossDistance (reserve_veld p) (reserve_btcveld p) (anchor_veld p) (anchor_btcveld p) in
      let before_den := reserve_btcveld p * anchor_veld p in
      let pre_bps := RatioBpsCapped before before_den in
      match fee_loop p veld_in amt_in before with
      | (valid, feasible, chosen) =>
          match chosen, valid =? 1 with
          | Some (e, fee, b), true =>
              mkQuote gross (e_out e) (gross - e_out e) fee (e_rebalances e) b NO_REJECT (e_post_veld e) (e_post_btc e)
                before before_den (e_delta e) (e_den e) pre_bps (RatioBpsCapped (e_delta e) (e_den e))
          | _, _ => rejected (if feasible then FEE_SCHEDULE_NO_FIXED_POINT else INVALID_STATE) gross before before_den pre_bps
          end
      end.

(** ** The initial seed against the seeder's resources *)

Inductive SeedLivenessDirection := DIR_B2V | DIR_V2B.

Record SeedLivenessProbe := mkProbe { direction : SeedLivenessDirection; probe_amount : Z; probe_quote : SwapQuote }.

Definition opening_pool (veld_units btcveld_sats : Z) : AmmPool :=
  mkPool veld_units btcveld_sats 0 0 BTCVELD_AMM_FEE_BPS veld_units btcveld_sats true ZeroHash 0 false [] [].

Definition potentially_executable (initial_k : Z) (q : SwapQuote) (d : SeedLivenessDirection) : bool :=
  if reject q || (amount_out q <=? 0) || (post_reserve_veld q <=? 0) || (post_reserve_veld q <? DUST_THRESHOLD_UNITS)
     || (MAX_SUPPLY_UNITS <? post_reserve_veld q) || (post_reserve_btcveld q <? MIN_ACCOUNT_SATS)
     || (BTCVELD_AMM_MAX_POOL_BTCVELD_SATS <? post_reserve_btcveld q) then false
  else if post_reserve_veld q * post_reserve_btcveld q <? initial_k then false
  else match d with DIR_V2B => true | DIR_B2V => DUST_THRESHOLD_UNITS <=? amount_out q end.

(** The binary search for the smallest native input with a positive output. *)
Fixpoint v2b_search (fuel : nat) (veld_units btcveld_sats lo_ hi_ : Z) : Z :=
  match fuel with
  | O => lo_
  | S fuel' =>
      if lo_ <? hi_ then
        let m := lo_ + (hi_ - lo_) / 2 in
        if 0 <? SwapOut veld_units btcveld_sats (i64 m) BTCVELD_AMM_FEE_MIN_BPS
        then v2b_search fuel' veld_units btcveld_sats lo_ m
        else v2b_search fuel' veld_units btcveld_sats (m + 1) hi_
      else lo_
  end.

Definition ProbeInitialSeedLivenessWithResources (veld_units btcveld_sats height continuation_units
    remaining_btcveld_sats : Z) : option SeedLivenessProbe :=
  match QuoteInitialSeedPolicy_ veld_units btcveld_sats (MarketSeedAnchorActive height) with
  | None => None
  | Some _ =>
  if (veld_units <=? 0) || (MAX_SUPPLY_UNITS <? veld_units) || (btcveld_sats <=? 0)
     || (BTCVELD_AMM_MAX_POOL_BTCVELD_SATS <? btcveld_sats) || negb (FourBandActive height)
     || negb (SwapAllowed height) then None
  else
    let pool := opening_pool veld_units btcveld_sats in
    let initial_k := veld_units * btcveld_sats in
    let b2v := QuoteSwapLocked pool false 1 height in
    if (btcveld_sats <? BTCVELD_AMM_MAX_POOL_BTCVELD_SATS) && (AMM_SEED_LIVENESS_TX_FEE_UNITS <=? continuation_units)
       && (MIN_ACCOUNT_SATS + 1 <=? remaining_btcveld_sats) && potentially_executable initial_k b2v DIR_B2V
    then Some (mkProbe DIR_B2V 1 b2v)
    else if (remaining_btcveld_sats <? MIN_ACCOUNT_SATS) || (continuation_units <=? AMM_SEED_LIVENESS_TX_FEE_UNITS)
    then None
    else
      let max_input := continuation_units - AMM_SEED_LIVENESS_TX_FEE_UNITS in
      if SwapOut veld_units btcveld_sats (i64 max_input) BTCVELD_AMM_FEE_MIN_BPS <=? 0 then None
      else
        let amount := v2b_search 65 veld_units btcveld_sats 1 max_input in
        let q := QuoteSwapLocked pool true (i64 amount) height in
        if potentially_executable initial_k q DIR_V2B then Some (mkProbe DIR_V2B (i64 amount) q) else None
  end.

Definition ProbeInitialSeedLiveness (veld_units btcveld_sats height : Z) : option SeedLivenessProbe :=
  if (veld_units <=? 0) || (MAX_SUPPLY_UNITS <? veld_units) then None
  else
    let total_headroom := MAX_SUPPLY_UNITS - veld_units in
    if total_headroom <=? AMM_SEED_LIVENESS_TX_FEE_UNITS then None
    else ProbeInitialSeedLivenessWithResources veld_units btcveld_sats height
           (total_headroom - AMM_SEED_LIVENESS_TX_FEE_UNITS) (MIN_ACCOUNT_SATS + 1).

Definition QuoteInitialSeedAtHeight (veld_units btcveld_sats height : Z) : option SeedQuote :=
  match QuoteInitialSeedPolicy_ veld_units btcveld_sats (MarketSeedAnchorActive height) with
  | None => None
  | Some quote => match ProbeInitialSeedLiveness veld_units btcveld_sats height with
                  | None => None
                  | Some _ => Some quote
                  end
  end.

(** ** Operations *)

Module AmmLedger.
Import OnChainTokenLedger.

Record Ledger := mkLedger { pools_ : gmap bytes AmmPool; lp_ : gmap bytes Z }.

(** [Reset] *)
Definition EmptyLedger : Ledger := mkLedger ∅ ∅.

Definition lp_key (pool_id addr : bytes) : bytes := pool_id ++ b:":" ++ addr.

Definition GetLp (L : Ledger) (pool_id addr : bytes) : Z := default 0 (lp_ L !! lp_key pool_id addr).
Definition GetPool (L : Ledger) (pool_id : bytes) : AmmPool := default NoPool (pools_ L !! pool_id).

Definition IsCommittedPoolOutpoint (L : Ledger) (pool_id : bytes) (txid : Hash256) (vout : Z) : bool :=
  match pools_ L !! pool_id with
  | None => false
  | Some p => if negb (exists_ p) || negb (utxo_valid p) then false
              else bytes_eqb (pool_txid p) txid && (pool_vout p =? vout)
  end.

Definition first_output (tx : Transaction) : option TxOutput := head (outputs tx).

Definition ValidateAmmEnvelope (p : AmmPool) (op : AmmOp) (tx : Transaction) : bool :=
  if negb (AmmTransactionEnvelopeWithinBounds tx) || (size (outputs tx) =? 0) then false
  else
    let seed := bytes_eqb (am_action op) ADD && (negb (utxo_valid p) || (lp_supply p =? 0)) in
    let pool_inputs := if seed then 0 else 1 in
    if (size (inputs tx) <=? pool_inputs) || (MAX_AMM_FUNDING_INPUTS <? size (inputs tx) - pool_inputs) then false
    else match last (outputs tx), first_output tx with
    | Some marker, Some o0 =>
        if negb (value marker =? 0) || negb (bytes_eqb (script_pubkey marker) (BuildOpReturnScript (EncodeAmmOp op))) then false
        else if negb (bytes_eqb (script_pubkey o0) (veld_script p)) then false
        else if existsb (fun o => (size (script_pubkey o) =? 0) || (nth 0 (script_pubkey o) 0 =? 0x6a)
                                  || IsAmmPoolScript (script_pubkey o))
                  (removelast (tail (outputs tx))) then false
        else if bytes_eqb (am_action op) SWAP_V2B || bytes_eqb (am_action op) ADD
        then (size (outputs tx) =? 2) || (size (outputs tx) =? 3)
        else if bytes_eqb (am_action op) SWAP_B2V || bytes_eqb (am_action op) REMOVE
        then (size (outputs tx) =? 3) || (size (outputs tx) =? 4)
        else false
    | _, _ => false
    end.

Definition SpendsPool (p : AmmPool) (tx : Transaction) : bool :=
  match head (inputs tx), first_output tx with
  | Some i, Some o => bytes_eqb (prev_tx_hash i) (pool_txid p) && (prev_out_index i =? pool_vout p)
                      && (size (script_sig i) =? 0) && bytes_eqb (script_pubkey o) (veld_script p)
  | _, _ => false
  end.

(** [ChainPool] with the new reserves, supply, lock and anchor. *)
Definition chained (p : AmmPool) (tx : Transaction) (veld btc supply locked a_veld a_btc : Z) : AmmPool :=
  mkPool veld btc supply locked (fee_bps p) a_veld a_btc (exists_ p) (GetTxID tx) 0 true (veld_script p) (btcveld_addr p).

(** The canonical payout to the operation's user in output one. *)
Definition pays_user (tx : Transaction) (user : bytes) (amount : Z) : bool :=
  let user_script := AddressToScript user in
  negb (size user_script =? 0) &&
  match outputs tx !! 1%nat with
  | Some o => (value o =? amount) && bytes_eqb (script_pubkey o) user_script
  | None => false
  end.

Section Ops.
Context (crypto_sign_verify : bytes -> bytes -> bytes -> bool).

Definition AmmTxSignedBy (tx : Transaction) (address : bytes) : bool := TxVerifiedSignedBy crypto_sign_verify tx address.

(** What a committed operation leaves: the pool, the positions and the token ledger. *)
Abbreviation applied := (AmmPool * gmap bytes Z * OnChainTokenLedger.t)%type.

Definition ApplySwap (p : AmmPool) (lp : gmap bytes Z) (op : AmmOp) (tx : Transaction) (tokens : OnChainTokenLedger.t)
    (dry_run : bool) (height : Z) : option applied :=
  let v2b := bytes_eqb (am_action op) SWAP_V2B in
  if negb (SwapAllowed height) then None
  else if negb (utxo_valid p) || (am_amt op <=? 0) || (am_extra op <? 0)
          || (if v2b then am_extra op <=? 0 else negb (am_extra op =? 0)) || negb (SpendsPool p tx) then None
  else
    let rin := if v2b then reserve_veld p else reserve_btcveld p in
    let rout := if v2b then reserve_btcveld p else reserve_veld p in
    if (rin <=? 0) || (rout <=? 0) then None
    else
      let quote := QuoteSwapLocked p v2b (am_amt op) height in
      let out := amount_out quote in
      if reject quote || (out <? 0) then None
      else if negb (AmmSwapMinimumOutputSatisfied v2b (am_extra op) out) then None
      else
        let new_rveld := post_reserve_veld quote in
        let new_rbtc := post_reserve_btcveld quote in
        if (new_rveld <=? 0) || (new_rbtc <=? 0) then None
        else if (new_rveld <? DUST_THRESHOLD_UNITS) || (negb v2b && (out <? DUST_THRESHOLD_UNITS)) then None
        else if negb (PoolReserveAllowed height (reserve_btcveld p) new_rbtc) then None
        else if new_rveld * new_rbtc <? rin * rout then None
        else if negb (match first_output tx with Some o => value o =? new_rveld | None => false end) then None
        else
          let '(from, to, amount) := if v2b then (btcveld_addr p, am_user op, out)
                                     else (am_user op, btcveld_addr p, am_amt op) in
          if negb v2b && (negb (AmmTxSignedBy tx (am_user op)) || negb (pays_user tx (am_user op) out)) then None
          else if negb (CanAmmMove tokens BTCVELD_TOKEN_ID from to amount) then None
          else if dry_run then Some (p, lp, tokens)
          else match AmmMove tokens BTCVELD_TOKEN_ID from to amount with
               | None => None
               | Some tokens' =>
                   Some (chained p tx new_rveld new_rbtc (lp_supply p) (locked_lp p) (anchor_veld p) (anchor_btcveld p),
                         lp, tokens')
               end.

(** The seed branch of [ApplyAdd]: the units minted to the seeder and locked forever. *)
Definition add_seed (p : AmmPool) (op : AmmOp) (tx : Transaction) (tokens : OnChainTokenLedger.t) (height : Z) : option (Z * Z) :=
  if am_amt op <? DUST_THRESHOLD_UNITS then None
  else if negb (InitialSeedAuthorized (am_user op) height) then None
  else match QuoteInitialSeedAtHeight (am_amt op) (am_extra op) height with
  | None => None
  | Some quote =>
      let user_script := AddressToScript (am_user op) in
      match outputs tx !! 1%nat with
      | None => None
      | Some change =>
          if (size user_script =? 0) || negb (size (outputs tx) =? 3)
             || negb (bytes_eqb (script_pubkey change) user_script) then None
          else
            let token_balance := GetBalance tokens BTCVELD_TOKEN_ID (am_user op) in
            if token_balance <? am_extra op then None
            else match ProbeInitialSeedLivenessWithResources (am_amt op) (am_extra op) height (value change)
                         (token_balance - am_extra op) with
                 | None => None
                 | Some _ =>
                     if negb (match first_output tx with Some o => value o =? am_amt op | None => false end) then None
                     else Some (lp_minted_q quote, locked_lp_q quote)
                 end
      end
  end.

(** The other branch: the btcVELD deposited and the units minted. *)
Definition add_liquidity (p : AmmPool) (op : AmmOp) (tx : Transaction) : option (Z * Z) :=
  if (reserve_veld p <=? 0) || (reserve_btcveld p <=? 0) || (lp_supply p <=? 0) then None
  else if negb (SpendsPool p tx) then None
  else match CheckedMulDivPositiveI64 (am_amt op) (reserve_btcveld p) (reserve_veld p) with
  | None => None
  | Some use_btc =>
      if am_extra op <? use_btc then None
      else match CheckedMulDivPositiveI64 (lp_supply p) (am_amt op) (reserve_veld p),
                 CheckedMulDivPositiveI64 (lp_supply p) use_btc (reserve_btcveld p) with
      | Some from_veld, Some from_btc =>
          if INT64_MAX - reserve_veld p <? am_amt op then None
          else if negb (match first_output tx with Some o => value o =? reserve_veld p + am_amt op | None => false end) then None
          else Some (use_btc, Z.min from_veld from_btc)
      | _, _ => None
      end
  end.

Definition ApplyAdd (pool_id : bytes) (p : AmmPool) (lp : gmap bytes Z) (op : AmmOp) (tx : Transaction)
    (tokens : OnChainTokenLedger.t) (dry_run : bool) (height : Z) : option applied :=
  if (am_amt op <=? 0) || (am_extra op <=? 0) then None
  else if negb (AmmTxSignedBy tx (am_user op)) then None
  else if negb (match first_output tx with Some o => bytes_eqb (script_pubkey o) (veld_script p) | None => false end) then None
  else
    let seed := negb (utxo_valid p) || (lp_supply p =? 0) in
    match (if seed then match add_seed p op tx tokens height with
                        | Some (minted, locked) => Some (am_extra op, minted, locked) | None => None end
           else match add_liquidity p op tx with
                | Some (use_btc, minted) => Some (use_btc, minted, locked_lp p) | None => None end) with
    | None => None
    | Some (use_btc, minted, locked) =>
        let old_veld := if seed then 0 else reserve_veld p in
        let old_btc := if seed then 0 else reserve_btcveld p in
        let old_lp := if seed then 0 else lp_supply p in
        let lp_delta := minted + (if seed then locked else 0) in
        if INT64_MAX <? lp_delta then None
        else if (INT64_MAX - old_veld <? am_amt op) || (INT64_MAX - old_btc <? use_btc) || (INT64_MAX - old_lp <? lp_delta) then None
        else
          let key := lp_key pool_id (am_user op) in
          let owner_lp := default 0 (lp !! key) in
          if (owner_lp <? 0) || (INT64_MAX - owner_lp <? minted) then None
          else if (owner_lp =? 0) && (0 <? minted) && (minted <? LP_MIN_POSITION) then None
          else if (owner_lp =? 0) && (0 <? minted) && (AMM_MAX_LP_IDENTITIES <=? Z.of_nat (base.size lp)) then None
          else if negb (PoolReserveAllowed height old_btc (old_btc + use_btc)) then None
          else if negb (CanAmmMove tokens BTCVELD_TOKEN_ID (am_user op) (btcveld_addr p) use_btc) then None
          else if dry_run then Some (p, lp, tokens)
          else match AmmMove tokens BTCVELD_TOKEN_ID (am_user op) (btcveld_addr p) use_btc with
               | None => None
               | Some tokens' =>
                   Some (chained p tx (old_veld + am_amt op) (old_btc + use_btc) (old_lp + lp_delta) locked
                           (if seed then am_amt op else anchor_veld p) (if seed then use_btc else anchor_btcveld p),
                         if 0 <? minted then <[key := owner_lp + minted]> lp else lp, tokens')
               end
    end.

Definition ApplyRemove (pool_id : bytes) (p : AmmPool) (lp : gmap bytes Z) (op : AmmOp) (tx : Transaction)
    (tokens : OnChainTokenLedger.t) (dry_run : bool) : option applied :=
  if (am_amt op <=? 0) || negb (am_extra op =? 0) || (lp_supply p <=? 0) || (lp_supply p <? am_amt op)
     || (reserve_veld p <=? 0) || (reserve_btcveld p <=? 0) || negb (utxo_valid p) || negb (SpendsPool p tx) then None
  else if negb (AmmTxSignedBy tx (am_user op)) then None
  else
    let key := lp_key pool_id (am_user op) in
    let bal := default 0 (lp !! key) in
    if bal <? am_amt op then None
    else
      let residual := bal - am_amt op in
      if negb (residual =? 0) && (residual <? LP_MIN_POSITION) then None
      else
        let v := i64 (reserve_veld p * am_amt op / lp_supply p) in
        let b := i64 (reserve_btcveld p * am_amt op / lp_supply p) in
        if (v <=? 0) || (v <? DUST_THRESHOLD_UNITS) || (reserve_veld p - v <? DUST_THRESHOLD_UNITS) then None
        else if negb (match first_output tx with Some o => value o =? reserve_veld p - v | None => false end) then None
        else if negb (pays_user tx (am_user op) v) then None
        else if (0 <? b) && negb (CanAmmMove tokens BTCVELD_TOKEN_ID (btcveld_addr p) (am_user op) b) then None
        else if dry_run then Some (p, lp, tokens)
        else match (if 0 <? b then AmmMove tokens BTCVELD_TOKEN_ID (btcveld_addr p) (am_user op) b else Some tokens) with
             | None => None
             | Some tokens' =>
                 Some (chained p tx (reserve_veld p - v) (reserve_btcveld p - b) (lp_supply p - am_amt op) (locked_lp p)
                         (anchor_veld p) (anchor_btcveld p),
                       if residual =? 0 then delete key lp else <[key := residual]> lp, tokens')
             end.

Definition ApplyAmmOpLocked (pool_id : bytes) (p : AmmPool) (lp : gmap bytes Z) (op : AmmOp) (tx : Transaction)
    (tokens : OnChainTokenLedger.t) (dry_run : bool) (height : Z) : option applied :=
  if negb (ValidateAmmEnvelope p op tx) then None
  else if negb (IsCanonicalTokenCreditAddress (am_user op)) then None
  else if bytes_eqb (am_action op) SWAP_V2B || bytes_eqb (am_action op) SWAP_B2V
  then ApplySwap p lp op tx tokens dry_run height
  else if bytes_eqb (am_action op) ADD then ApplyAdd pool_id p lp op tx tokens dry_run height
  else if bytes_eqb (am_action op) REMOVE then ApplyRemove pool_id p lp op tx tokens dry_run
  else None.

(** ** Blocks *)

(** The one-operation policy: [None] is a refused block. *)
Fixpoint sole_op (txs : list Transaction) (found : option (Transaction * AmmOp)) : option (option (Transaction * AmmOp)) :=
  match txs with
  | [] => Some found
  | tx :: txs' =>
      match ParseAmmOpDetailed tx with
      | AMM_INVALID => None
      | AMM_NONE => sole_op txs' found
      | AMM_VALID op => match found with Some _ => None | None => sole_op txs' (Some (tx, op)) end
      end
  end.

Definition MaybeCreatePool (L : Ledger) (pool_id : bytes) (height : Z) (gate : BtcVeldPegGateState) : Ledger :=
  if negb (PoolCreationAllowed height gate) then L
  else match pools_ L !! pool_id with
       | Some p => if exists_ p then L else mkLedger (<[pool_id := NewPool pool_id]> (pools_ L)) (lp_ L)
       | None => mkLedger (<[pool_id := NewPool pool_id]> (pools_ L)) (lp_ L)
       end.

(** The new ledgers and the verdict. *)
Definition ProcessBlock (L : Ledger) (pool_id : bytes) (block : Block) (tokens : OnChainTokenLedger.t)
    (gate : BtcVeldPegGateState) : Ledger * OnChainTokenLedger.t * bool :=
  match sole_op (transactions block) None with
  | None => (L, tokens, false)
  | Some None => (MaybeCreatePool L pool_id (height block) gate, tokens, true)
  | Some (Some (tx, op)) =>
      if negb (AmmAllowed gate) then (L, tokens, false)
      else
        let L' := MaybeCreatePool L pool_id (height block) gate in
        match pools_ L' !! pool_id with
        | None => (L, tokens, true)
        | Some p =>
            if negb (exists_ p) then (L, tokens, true)
            else match ApplyAmmOpLocked pool_id p (lp_ L') op tx tokens false (height block) with
                 | None => (L, tokens, false)
                 | Some (p', lp', tokens') => (mkLedger (<[pool_id := p']> (pools_ L')) lp', tokens', true)
                 end
        end
  end.

(** The position of the pool outpoint among the inputs. *)
Fixpoint pool_input (p : AmmPool) (ins : list TxInput) (i : Z) : Z :=
  match ins with
  | [] => -1
  | x :: ins' => if bytes_eqb (prev_tx_hash x) (pool_txid p) && (prev_out_index x =? pool_vout p) then i
                 else pool_input p ins' (i + 1)
  end.

Definition spends_at (p : AmmPool) (tx : Transaction) : Z := if utxo_valid p then pool_input p (inputs tx) 0 else -1.

Definition creates_pool (p : AmmPool) (tx : Transaction) : bool :=
  match first_output tx with Some o => bytes_eqb (script_pubkey o) (veld_script p) | None => false end.

(** The loop of [ValidateBlock] over the transactions. *)
Fixpoint validate_txs (pool_id : bytes) (p : AmmPool) (lp : gmap bytes Z) (tokens : OnChainTokenLedger.t) (height : Z)
    (txs : list Transaction) (touches : Z) : bool :=
  match txs with
  | [] => true
  | tx :: txs' =>
      let pos := spends_at p tx in
      if 0 <? pos then false
      else
        let spends := pos =? 0 in
        let creates := creates_pool p tx in
        let parsed := ParseAmmOpDetailed tx in
        let has_op := match parsed with AMM_VALID _ => true | _ => false end in
        if negb spends && negb creates && negb has_op then validate_txs pool_id p lp tokens height txs' touches
        else
          let touches := if spends || creates then touches + 1 else touches in
          if (spends || creates) && negb (touches =? 1) then false
          else match parsed with
               | AMM_VALID op =>
                   if negb spends && negb creates then false
                   else match ApplyAmmOpLocked pool_id p lp op tx tokens true height with
                        | None => false
                        | Some _ => validate_txs pool_id p lp tokens height txs' touches
                        end
               | _ => false
               end
  end.

(** [ValidateBlock] in the frame where [tokens] is the state after the block's token
    markers, the POST_BLOCK_STATE frame; in the other frame that state is previewed first. *)
Definition ValidateBlock (L : Ledger) (pool_id : bytes) (block : Block) (tokens : OnChainTokenLedger.t)
    (gate : BtcVeldPegGateState) : bool :=
  match sole_op (transactions block) None with
  | None => false
  | Some found =>
      if negb (match found with None => true | Some _ => AmmAllowed gate end) then false
      else match pools_ L !! pool_id with
      | Some p =>
          if exists_ p then validate_txs pool_id p (lp_ L) tokens (height block) (transactions block) 0
          else if negb (PoolCreationAllowed (height block) gate) then true
          else validate_txs pool_id (NewPool pool_id) (lp_ L) tokens (height block) (transactions block) 0
      | None =>
          if negb (PoolCreationAllowed (height block) gate) then true
          else validate_txs pool_id (NewPool pool_id) (lp_ L) tokens (height block) (transactions block) 0
      end
  end.

End Ops.

(** ** The digest *)

Definition put_pool (k : bytes) (p : AmmPool) : bytes :=
  put_len_prefixed k ++ put_u8 (if exists_ p then 1 else 0) ++ put_u64_le (u64 (reserve_veld p))
  ++ put_u64_le (u64 (reserve_btcveld p)) ++ put_u64_le (u64 (lp_supply p)) ++ put_u64_le (u64 (locked_lp p))
  ++ put_u32_le (fee_bps p) ++ put_u64_le (u64 (anchor_veld p)) ++ put_u64_le (u64 (anchor_btcveld p))
  ++ pool_txid p ++ put_u32_le (pool_vout p) ++ put_u8 (if utxo_valid p then 1 else 0)
  ++ put_len_prefixed (veld_script p) ++ put_len_prefixed (btcveld_addr p).

Definition AMM_DIGEST_TAG : bytes := b:"VELD_D_AMM_v3|".

Definition Digest (L : Ledger) : Hash256 :=
  let pk := sort_hashes (map fst (map_to_list (pools_ L))) in
  let lk := sort_hashes (map fst (map_to_list (lp_ L))) in
  sha256_domain AMM_DIGEST_TAG
    (put_u32_le 4 ++ put_u32_le (u32 (size pk))
     ++ concat (map (fun k => match pools_ L !! k with Some p => put_pool k p | None => [] end) pk)
     ++ put_u32_le (u32 (size lk))
     ++ concat (map (fun k => put_len_prefixed k ++ put_u64_le (u64 (default 0 (lp_ L !! k)))) lk)).

End AmmLedger.
