(* ===== verification/AmmRules.v ===== *)
(** * Rules of the pool

    What a quote means on integers and what each pool operation does to the reserves, the
    positions and the token accounts. *)
From S2P Require Import Prelude Bytes Sha256 StateDigest Profile Transaction Block Address OpAuthorization.
From S2P Require Import Marker AmmMath MapSum Reserve TokenLedger TokenRules FinalityCodec Amm.
Import OnChainTokenLedger AmmLedger.

(** ** Quotes *)

(** Input and output reserve of a direction. *)
Definition r_in (p : AmmPool) (veld_in : bool) : Z := if veld_in then reserve_veld p else reserve_btcveld p.
Definition r_out (p : AmmPool) (veld_in : bool) : Z := if veld_in then reserve_btcveld p else reserve_veld p.

(** The output before and after the fee, both rounded down. *)
Definition gross_of (p : AmmPool) (veld_in : bool) (amt : Z) : Z :=
  r_out p veld_in * amt / (r_in p veld_in + amt).
Definition net_of (p : AmmPool) (veld_in : bool) (amt fee : Z) : Z :=
  gross_of p veld_in amt * (10000 - fee) / 10000.

(** The reserves after the trade. *)
Definition post_veld (p : AmmPool) (veld_in : bool) (amt fee : Z) : Z :=
  if veld_in then reserve_veld p + amt else reserve_veld p - net_of p veld_in amt fee.
Definition post_btc (p : AmmPool) (veld_in : bool) (amt fee : Z) : Z :=
  if veld_in then reserve_btcveld p - net_of p veld_in amt fee else reserve_btcveld p + amt.

(** The distance of a reserve pair from the opening ratio, as a numerator over
    [btc * anchor_veld]. *)
Definition off_anchor (p : AmmPool) (veld btc : Z) : Z := Z.abs (veld * anchor_btcveld p - btc * anchor_veld p).

(** The trade does not move the pool further from the opening ratio. *)
Definition heals (p : AmmPool) (veld_in : bool) (amt fee : Z) : bool :=
  off_anchor p (post_veld p veld_in amt fee) (post_btc p veld_in amt fee) * reserve_btcveld p
  <=? off_anchor p (reserve_veld p) (reserve_btcveld p) * post_btc p veld_in amt fee.

Definition trade_band (p : AmmPool) (veld_in : bool) (amt fee : Z) : Z :=
  band_of (off_anchor p (post_veld p veld_in amt fee) (post_btc p veld_in amt fee))
          (post_btc p veld_in amt fee * anchor_veld p).

(** A fee is consistent when the trade pays something at it and it is the fee of the state
    the trade then leaves: the base fee if the trade heals, the fee of its band if not. *)
Definition consistent (p : AmmPool) (veld_in : bool) (amt fee : Z) : Prop :=
  0 < net_of p veld_in amt fee /\
  fee = (if heals p veld_in amt fee then BTCVELD_AMM_FEE_MIN_BPS else band_fee (trade_band p veld_in amt fee)).

(** A pool in which a swap can be quoted. *)
Definition quotable (p : AmmPool) (veld_in : bool) (amt : Z) : Prop :=
  0 < reserve_veld p <= INT64_MAX /\ 0 < reserve_btcveld p <= INT64_MAX /\ 0 < anchor_veld p <= INT64_MAX
  /\ 0 < anchor_btcveld p <= INT64_MAX /\ 0 < amt /\ amt <= INT64_MAX - r_in p veld_in.

Lemma gross_bounds p veld_in amt :
  quotable p veld_in amt -> 0 <= gross_of p veld_in amt < r_out p veld_in
  /\ GrossSwapOut (r_in p veld_in) (r_out p veld_in) amt
     = if gross_of p veld_in amt =? 0 then -1 else gross_of p veld_in amt.
Proof.
  intros (Hv & Hb & _ & _ & Ha & Hm). apply GrossSwapOut_spec; unfold r_in, r_out in *; destruct veld_in; lia.
Qed.

(** [SwapOut] is the net output when it is positive. *)
Lemma SwapOut_net p veld_in amt fee :
  quotable p veld_in amt -> 0 <= fee < 10000 ->
  SwapOut (r_in p veld_in) (r_out p veld_in) amt fee
  = if 0 <? net_of p veld_in amt fee then net_of p veld_in amt fee else -1.
Proof.
  intros Hq Hf. destruct (gross_bounds p veld_in amt Hq) as [Hg Eg]. unfold SwapOut, net_of. rewrite Eg.
  unfold FEE_DENOM. destruct (Z.leb_spec 10000 fee); [lia|].
  set (g := gross_of p veld_in amt) in *. destruct (Z.eqb_spec g 0) as [E|E].
  { rewrite E. cbn. done. }
  destruct (Z.ltb_spec g 0); [lia|].
  assert (0 <= g * (10000 - fee) / 10000 <= g) as Hn.
  { split; [apply Z.div_pos; nia|]. apply Z.div_le_upper_bound; nia. }
  assert (r_out p veld_in <= INT64_MAX) by (destruct Hq as (? & ? & _), veld_in; unfold r_out; lia).
  rewrite i64_id by (unfold INT64_MIN, INT64_MAX in *; lia).
  destruct (Z.leb_spec (g * (10000 - fee) / 10000) 0), (Z.ltb_spec 0 (g * (10000 - fee) / 10000)); cbn [orb]; try lia; try done.
  destruct (Z.leb_spec (r_out p veld_in) (g * (10000 - fee) / 10000)); [lia|done].
Qed.

Lemma net_bounds p veld_in amt fee :
  quotable p veld_in amt -> 0 <= fee < 10000 -> 0 <= net_of p veld_in amt fee <= gross_of p veld_in amt.
Proof.
  intros Hq Hf. destruct (gross_bounds p veld_in amt Hq) as [Hg _]. unfold net_of. split; [apply Z.div_pos; nia|].
  apply Z.div_le_upper_bound; nia.
Qed.

(** The product of the reserves does not decrease, at any fee. *)
Lemma product_kept p veld_in amt fee :
  quotable p veld_in amt -> 0 <= fee < 10000 ->
  0 < post_veld p veld_in amt fee <= INT64_MAX /\ 0 < post_btc p veld_in amt fee <= INT64_MAX
  /\ reserve_veld p * reserve_btcveld p <= post_veld p veld_in amt fee * post_btc p veld_in amt fee.
Proof.
  intros Hq Hf. pose proof (net_bounds p veld_in amt fee Hq Hf) as Hn. destruct (gross_bounds p veld_in amt Hq) as [Hg _].
  destruct Hq as (Hv & Hb & _ & _ & Ha & Hm).
  assert (gross_of p veld_in amt * (r_in p veld_in + amt) <= r_out p veld_in * amt) as Hk.
  { unfold gross_of. rewrite Z.mul_comm. apply Z.mul_div_le. unfold r_in. destruct veld_in; lia. }
  unfold post_veld, post_btc, r_in, r_out in *. destruct veld_in; split_and!; (lia || nia).
Qed.

Lemma AnchorCrossDistance_abs p veld btc :
  AnchorCrossDistance veld btc (anchor_veld p) (anchor_btcveld p) = off_anchor p veld btc.
Proof. unfold AnchorCrossDistance, off_anchor. destruct (Z.leb_spec (btc * anchor_veld p) (veld * anchor_btcveld p)); lia. Qed.

Lemma off_anchor_fits p veld btc :
  0 < anchor_veld p <= INT64_MAX -> 0 < anchor_btcveld p <= INT64_MAX -> 0 < veld <= INT64_MAX -> 0 < btc <= INT64_MAX ->
  fits 128 (off_anchor p veld btc) /\ fits 128 (btc * anchor_veld p) /\ 0 < btc * anchor_veld p.
Proof. unfold off_anchor, fits, INT64_MAX. intros. split_and!; nia. Qed.

Lemma evaluate_fee_spec p veld_in amt fee :
  quotable p veld_in amt -> 0 <= fee < 10000 ->
  evaluate_fee p veld_in amt (off_anchor p (reserve_veld p) (reserve_btcveld p)) fee
  = if 0 <? net_of p veld_in amt fee then
      Some (mkEval (net_of p veld_in amt fee) (post_veld p veld_in amt fee) (post_btc p veld_in amt fee)
              (off_anchor p (post_veld p veld_in amt fee) (post_btc p veld_in amt fee))
              (post_btc p veld_in amt fee * anchor_veld p) (heals p veld_in amt fee))
    else None.
Proof.
  intros Hq Hf. destruct (product_kept p veld_in amt fee Hq Hf) as (Hpv & Hpb & _).
  unfold evaluate_fee. fold (r_in p veld_in). fold (r_out p veld_in). rewrite SwapOut_net by done.
  destruct (Z.ltb_spec 0 (net_of p veld_in amt fee)) as [Hpos|]; [|done].
  destruct (Z.ltb_spec (net_of p veld_in amt fee) 0); [lia|].
  fold (post_veld p veld_in amt fee). fold (post_btc p veld_in amt fee).
  destruct (Z.leb_spec (post_veld p veld_in amt fee) 0); [lia|]. destruct (Z.leb_spec (post_btc p veld_in amt fee) 0); [lia|].
  cbn [orb]. rewrite AnchorCrossDistance_abs. destruct Hq as (Hv & Hb & Hav & Hab & Ha & Hm).
  destruct (off_anchor_fits p (post_veld p veld_in amt fee) (post_btc p veld_in amt fee)) as (F1 & _); try done.
  destruct (off_anchor_fits p (reserve_veld p) (reserve_btcveld p)) as (F2 & _); try done.
  do 2 f_equal. unfold heals. apply compare_products; try done; unfold fits, INT64_MAX in *; lia.
Qed.

(** The candidate the loop keeps for a fee. *)
Definition pick (p : AmmPool) (veld_in : bool) (amt before fee : Z) : option (FeeEval * Z * Z) :=
  match evaluate_fee p veld_in amt before fee with
  | None => None
  | Some e => match candidate_ok e fee with Some b => Some (e, fee, b) | None => None end
  end.

Lemma fee_loop_picks p veld_in amt before :
  exists feasible, fee_loop p veld_in amt before
  = (Z.of_nat (length (omap (pick p veld_in amt before) BTCVELD_AMM_BAND_FEE_BPS)), feasible,
     last (omap (pick p veld_in amt before) BTCVELD_AMM_BAND_FEE_BPS)).
Proof.
  unfold fee_loop. match goal with |- context [foldl ?f _ _] => set (step := f) end.
  assert (forall l v f c, exists f', foldl step (v, f, c) l
    = (v + Z.of_nat (length (omap (pick p veld_in amt before) l)), f',
       match last (omap (pick p veld_in amt before) l) with Some x => Some x | None => c end)) as H.
  { intros l. induction l as [|x l IH]; intros v f c; [exists f; cbn; by rewrite Z.add_0_r|].
    cbn [foldl]. assert (exists f1, step (v, f, c) x = (match pick p veld_in amt before x with Some _ => v + 1 | None => v end, f1,
      match pick p veld_in amt before x with Some y => Some y | None => c end)) as [f1 E1].
    { unfold step, pick. destruct (evaluate_fee _ _ _ _ _) as [e|]; [destruct (candidate_ok e x)|]; eauto. }
    rewrite E1. destruct (IH (match pick p veld_in amt before x with Some _ => v + 1 | None => v end) f1
      (match pick p veld_in amt before x with Some y => Some y | None => c end)) as [f2 E2]. rewrite E2.
    exists f2. cbn [omap list_omap]. destruct (pick p veld_in amt before x) as [y|]; [|done].
    cbn [length]. rewrite Nat2Z.inj_succ, <- Z.add_1_l, Z.add_assoc, last_cons. by destruct (last _). }
  destruct (H BTCVELD_AMM_BAND_FEE_BPS 0 false None) as [f' E]. exists f'. rewrite E, Z.add_0_l. by destruct (last _).
Qed.

Lemma schedule_range fee : fee ∈ BTCVELD_AMM_BAND_FEE_BPS -> 30 <= fee <= 100.
Proof. unfold BTCVELD_AMM_BAND_FEE_BPS. rewrite !elem_of_cons, elem_of_nil. lia. Qed.

Lemma pick_spec p veld_in amt fee :
  quotable p veld_in amt -> fee ∈ BTCVELD_AMM_BAND_FEE_BPS ->
  match pick p veld_in amt (off_anchor p (reserve_veld p) (reserve_btcveld p)) fee with
  | Some (e, fee', _) => consistent p veld_in amt fee /\ fee' = fee /\ e_out e = net_of p veld_in amt fee
      /\ e_post_veld e = post_veld p veld_in amt fee /\ e_post_btc e = post_btc p veld_in amt fee
  | None => ~ consistent p veld_in amt fee
  end.
Proof.
  intros Hq Hin. pose proof (schedule_range fee Hin) as Hr. unfold pick. rewrite evaluate_fee_spec by (done || lia).
  unfold consistent. destruct (Z.ltb_spec 0 (net_of p veld_in amt fee)) as [Hpos|Hle]; [|lia].
  unfold candidate_ok. cbn [e_rebalances e_delta e_den].
  destruct (product_kept p veld_in amt fee Hq ltac:(lia)) as (Hpv & Hpb & _). destruct Hq as (Hv & Hb & Hav & Hab & Ha & Hm).
  destruct (off_anchor_fits p (post_veld p veld_in amt fee) (post_btc p veld_in amt fee)) as (F1 & F2 & F3); try done.
  destruct (heals p veld_in amt fee).
  - destruct (Z.eqb_spec fee BTCVELD_AMM_FEE_MIN_BPS); [done|]. naive_solver.
  - rewrite BandFeeBps_spec by done. fold (trade_band p veld_in amt fee).
    destruct (Z.eqb_spec (band_fee (trade_band p veld_in amt fee)) fee) as [E|E]; [|naive_solver]. by rewrite E.
Qed.

(** The fee an accepted quote charges. *)
Definition charged (p : AmmPool) (veld_in : bool) (amt height fee : Z) : Prop :=
  0 < net_of p veld_in amt fee
  /\ if FlatFeeActive height then fee = BTCVELD_AMM_FLAT_FEE_BPS
     else fee ∈ BTCVELD_AMM_BAND_FEE_BPS /\ consistent p veld_in amt fee
          /\ forall fee', fee' ∈ BTCVELD_AMM_BAND_FEE_BPS -> consistent p veld_in amt fee' -> fee' = fee.

Lemma quote_accepted p veld_in amt h :
  0 <= reserve_veld p <= INT64_MAX -> 0 <= reserve_btcveld p <= INT64_MAX ->
  0 <= anchor_veld p <= INT64_MAX -> 0 <= anchor_btcveld p <= INT64_MAX -> amt <= INT64_MAX ->
  let q := QuoteSwapLocked p veld_in amt h in
  reject q = false ->
  quotable p veld_in amt /\ charged p veld_in amt h (q_fee_bps q)
  /\ gross_out q = gross_of p veld_in amt /\ amount_out q = net_of p veld_in amt (q_fee_bps q)
  /\ fee_out q = gross_out q - amount_out q
  /\ post_reserve_veld q = post_veld p veld_in amt (q_fee_bps q)
  /\ post_reserve_btcveld q = post_btc p veld_in amt (q_fee_bps q).
Proof.
  intros Bv Bb Bav Bab Bamt q. unfold q, QuoteSwapLocked. destruct (FourBandActive h); cbn [negb]; [|done].
  destruct (_ || _ || _ || _) eqn:E0; [done|].
  destruct ((anchor_veld p <=? 0) || (anchor_btcveld p <=? 0)) eqn:E1; [done|]. bool_hyps.
  fold (r_in p veld_in). fold (r_out p veld_in).
  destruct (GrossSwapOut (r_in p veld_in) (r_out p veld_in) amt <? 0) eqn:Hgr; [intros Hj; discriminate Hj|].
  destruct (Z.ltb_spec (INT64_MAX - r_in p veld_in) amt) as [|Hmax]; [done|].
  assert (quotable p veld_in amt) as Hq by (unfold quotable; split_and!; lia).
  destruct (gross_bounds p veld_in amt Hq) as [Hg Eg]. rewrite Eg in *.
  destruct (Z.eqb_spec (gross_of p veld_in amt) 0) as [|Hgz]; [lia|].
  unfold charged. destruct (FlatFeeActive h).
  - rewrite SwapOut_net by (done || (unfold BTCVELD_AMM_FLAT_FEE_BPS; lia)).
    destruct (Z.ltb_spec 0 (net_of p veld_in amt BTCVELD_AMM_FLAT_FEE_BPS)) as [Hpos|]; [|done].
    destruct (Z.leb_spec (net_of p veld_in amt BTCVELD_AMM_FLAT_FEE_BPS) 0); [lia|]. intros _.
    cbn [q_fee_bps gross_out amount_out fee_out post_reserve_veld post_reserve_btcveld]. by split_and!.
  - rewrite AnchorCrossDistance_abs.
    destruct (fee_loop_picks p veld_in amt (off_anchor p (reserve_veld p) (reserve_btcveld p))) as [f ->].
    set (before := off_anchor p (reserve_veld p) (reserve_btcveld p)) in *.
    destruct (omap (pick p veld_in amt before) BTCVELD_AMM_BAND_FEE_BPS) as [|[[e fee] b] [|y l]] eqn:Eo; [by destruct f| |].
    2:{ destruct (last _) as [[[? ?] ?]|]; cbn [length]; destruct (Z.eqb_spec (Z.of_nat (S (S (length l)))) 1); try lia; by destruct f. }
    intros _. cbn [length last Z.of_nat Pos.of_succ_nat Z.eqb Pos.eqb q_fee_bps gross_out amount_out fee_out post_reserve_veld post_reserve_btcveld].
    assert (forall fee' x, fee' ∈ BTCVELD_AMM_BAND_FEE_BPS -> pick p veld_in amt before fee' = Some x -> x = (e, fee, b)) as Huniq.
    { intros fee' x Hin Hp. assert (x ∈ omap (pick p veld_in amt before) BTCVELD_AMM_BAND_FEE_BPS) as Hx.
      { apply list_elem_of_omap. eauto. } rewrite Eo in Hx. by apply list_elem_of_singleton in Hx. }
    assert ((e, fee, b) ∈ omap (pick p veld_in amt before) BTCVELD_AMM_BAND_FEE_BPS) as Hx by (rewrite Eo; set_solver).
    apply list_elem_of_omap in Hx as (fee0 & Hin & Hp).
    pose proof (pick_spec p veld_in amt fee0 Hq Hin) as Hs. fold before in Hs. rewrite Hp in Hs.
    destruct Hs as (Hc & -> & Ho & Hv & Hbt). split_and!; try done; [apply Hc|].
    intros fee' Hin' Hc'. pose proof (pick_spec p veld_in amt fee' Hq Hin') as Hs. fold before in Hs.
    destruct (pick p veld_in amt before fee') as [[[e' fe] b']|] eqn:Ep'; [|done].
    specialize (Huniq _ _ Hin' Ep'). destruct Hs as (_ & -> & _). by simplify_eq.
Qed.

(** An accepted quote is one of an open pool. *)
Lemma quote_open p veld_in amt h :
  reject (QuoteSwapLocked p veld_in amt h) = false -> FourBandActive h = true /\ exists_ p = true.
Proof.
  unfold QuoteSwapLocked. destruct (FourBandActive h); cbn [negb]; [|done]. destruct (exists_ p); cbn [negb orb]; done.
Qed.

Lemma charged_range p veld_in amt h fee : charged p veld_in amt h fee -> 0 <= fee < 10000.
Proof.
  intros [_ Hfee]. destruct (FlatFeeActive h); [rewrite Hfee; unfold BTCVELD_AMM_FLAT_FEE_BPS; lia|].
  destruct Hfee as [Hin _]. apply schedule_range in Hin. lia.
Qed.

(** The schedule's picks when exactly one fee is consistent. *)
Lemma omap_single {A B} (f : A -> option B) l x b :
  NoDup l -> x ∈ l -> f x = Some b -> (forall y, y ∈ l -> y <> x -> f y = None) -> omap f l = [b].
Proof.
  intros Hn. induction Hn as [|y l Hy Hn IH]; intros Hin Hf Ho; [by apply elem_of_nil in Hin|].
  cbn [omap list_omap]. apply elem_of_cons in Hin as [<-|Hin].
  - rewrite Hf. f_equal. clear IH. assert (forall z, z ∈ l -> f z = None) as Hl.
    { intros z Hz. apply Ho; [by right|]. intros ->. done. }
    clear - Hl. induction l as [|z l IH]; [done|]. cbn [omap list_omap]. rewrite (Hl z) by (by left).
    apply IH. intros w Hw. apply Hl. by right.
  - rewrite (Ho y); [|by left|intros ->; done]. apply IH; [done|done|]. intros z Hz. apply Ho. by right.
Qed.

Lemma quote_complete p veld_in amt h fee :
  quotable p veld_in amt -> exists_ p = true -> FourBandActive h = true -> charged p veld_in amt h fee ->
  reject (QuoteSwapLocked p veld_in amt h) = false /\ q_fee_bps (QuoteSwapLocked p veld_in amt h) = fee.
Proof.
  intros Hq He H4 [Hpos Hfee]. pose proof Hq as (Hv & Hb & Hav & Hab & Ha & Hm).
  unfold QuoteSwapLocked. rewrite He, H4. cbn [negb].
  destruct (Z.leb_spec (reserve_veld p) 0); [lia|]. destruct (Z.leb_spec (reserve_btcveld p) 0); [lia|].
  destruct (Z.leb_spec amt 0); [lia|]. destruct (Z.leb_spec (anchor_veld p) 0); [lia|].
  destruct (Z.leb_spec (anchor_btcveld p) 0); [lia|]. cbn [orb]. fold (r_in p veld_in). fold (r_out p veld_in).
  pose proof (charged_range p veld_in amt h fee (conj Hpos Hfee)) as Hf.
  destruct (gross_bounds p veld_in amt Hq) as [Hg Eg]. pose proof (net_bounds p veld_in amt fee Hq Hf).
  destruct (Z.eqb_spec (gross_of p veld_in amt) 0) as [|Hgz]; [lia|]. rewrite Eg.
  destruct (Z.ltb_spec (gross_of p veld_in amt) 0); [lia|]. destruct (Z.ltb_spec (INT64_MAX - r_in p veld_in) amt); [lia|].
  destruct (FlatFeeActive h).
  - rewrite <- Hfee, SwapOut_net by done. destruct (Z.ltb_spec 0 (net_of p veld_in amt fee)); [|lia].
    destruct (Z.leb_spec (net_of p veld_in amt fee) 0); [lia|]. by rewrite Hfee.
  - rewrite AnchorCrossDistance_abs. destruct Hfee as (Hin & Hc & Hu).
    destruct (fee_loop_picks p veld_in amt (off_anchor p (reserve_veld p) (reserve_btcveld p))) as [f ->].
    pose proof (pick_spec p veld_in amt fee Hq Hin) as Hs.
    destruct (pick p veld_in amt _ fee) as [[[e fee'] b]|] eqn:Ep; [|done]. destruct Hs as (_ & -> & _).
    rewrite (omap_single _ _ fee (e, fee, b)); [done| |done|done|].
    + apply (bool_decide_unpack _). vm_compute. exact I.
    + intros y Hy Hne. pose proof (pick_spec p veld_in amt y Hq Hy) as Hs.
      destruct (pick p veld_in amt _ y) as [[[? ?] ?]|]; [|done]. destruct Hs as (Hcy & _). by apply Hu in Hcy.
Qed.

(** ** Operations *)

(** The pool's token account is no address: no signature spends it and no token marker
    credits it. *)
Lemma pool_account_no_script pid : AddressToScript (pool_account pid) = [].
Proof.
  unfold AddressToScript, Base58CheckDecode_.
  assert (decode_digits (pool_account pid) [0] = None) as -> by (vm_compute; reflexivity).
  by destruct (_ || _).
Qed.

Lemma pool_account_not_credit pid : IsCanonicalTokenCreditAddress (pool_account pid) = false.
Proof. unfold IsCanonicalTokenCreditAddress. by rewrite pool_account_no_script. Qed.

Lemma pool_account_unsigned verify tx pid : TxVerifiedSignedBy verify tx (pool_account pid) = false.
Proof. unfold TxVerifiedSignedBy. rewrite pool_account_no_script. by destruct (_ <? _). Qed.

Lemma user_not_pool user pid : IsCanonicalTokenCreditAddress user = true -> user <> pool_account pid.
Proof. intros H ->. by rewrite pool_account_not_credit in H. Qed.

Lemma lp_key_inj pid a b : lp_key pid a = lp_key pid b -> a = b.
Proof. unfold lp_key. intros H. apply app_inv_head in H. by apply app_inv_head in H. Qed.

(** *** Parsed amounts fit 64 bits *)

Lemma amm_digits_range limit v s r : 0 <= v <= limit -> amm_digits limit v s = Some r -> 0 <= r <= limit.
Proof.
  revert v. induction s as [|c s IH]; intros v Hv; cbn [amm_digits]; [by intros [= <-]|].
  destruct (_ || _) eqn:Ec; [done|]. bool_hyps. destruct (Z.ltb_spec ((limit - (c - 48)) / 10) v) as [|Hle]; [done|].
  intros Hr. apply (IH (v * 10 + (c - 48))); [|done].
  pose proof (Z.mul_div_le (limit - (c - 48)) 10 ltac:(lia)). lia.
Qed.

Lemma ParseCanonicalAmmI64_range s v : ParseCanonicalAmmI64 s = Some v -> INT64_MIN <= v <= INT64_MAX.
Proof.
  unfold ParseCanonicalAmmI64. destruct s as [|c0 rest]; [done|].
  destruct (if c0 =? 45 then rest else c0 :: rest) as [|d more]; [done|].
  destruct (c0 =? 43); [done|]. destruct (_ && _); [done|]. destruct (_ && _); [done|].
  destruct (amm_digits _ _ _) as [r|] eqn:E; [|done]. intros [= <-]. revert E. destruct (c0 =? 45); intros E;
    apply amm_digits_range in E; unfold INT64_MIN, INT64_MAX in *; lia.
Qed.

Definition op_range (op : AmmOp) : Prop :=
  INT64_MIN <= am_amt op <= INT64_MAX /\ INT64_MIN <= am_extra op <= INT64_MAX.

Lemma parse_amm_payload_range s op : parse_amm_payload s = Some op -> op_range op.
Proof.
  unfold parse_amm_payload. destruct (split_fields _ _) as [|f0 [|f1 [|f2 [|f3 [|? ?]]]]]; try done.
  destruct (_ || _); [done|]. destruct (ParseCanonicalAmmI64 f2) as [a|] eqn:Ea; [|done].
  destruct (ParseCanonicalAmmI64 f3) as [e|] eqn:Ee; [|done]. intros [= <-].
  apply ParseCanonicalAmmI64_range in Ea, Ee. by split.
Qed.

Lemma ParseAmmOpDetailed_range tx op : ParseAmmOpDetailed tx = AMM_VALID op -> op_range op.
Proof.
  unfold ParseAmmOpDetailed. assert (forall outs found n, (forall op, found = Some op -> op_range op) ->
    scan_amm outs found n = AMM_VALID op -> op_range op) as H; [|by apply H].
  induction outs as [|o outs IH]; intros found n Hf; cbn [scan_amm].
  - destruct found; [|done]. destruct (negb _); [done|]. intros [= <-]. by apply Hf.
  - destruct (negb (starts_with _ _)); [by apply IH|]. destruct found; [done|]. destruct (negb _); [done|].
    destruct (negb _); [done|]. destruct (parse_amm_payload _) as [op1|] eqn:Ep; [|done]. apply IH. intros ? [= <-].
    by eapply parse_amm_payload_range.
Qed.

Lemma sole_op_range txs found tx op :
  (forall tx op, found = Some (tx, op) -> op_range op) -> sole_op txs found = Some (Some (tx, op)) -> op_range op.
Proof.
  revert found. induction txs as [|t txs IH]; intros found Hf; cbn [sole_op]; [intros [= ->]; eauto|].
  destruct (ParseAmmOpDetailed t) eqn:Ep; [by apply IH| |done]. destruct found; [done|]. apply IH.
  intros ? ? [= _ <-]. by eapply ParseAmmOpDetailed_range.
Qed.

Lemma sole_op_in txs found tx op :
  sole_op txs found = Some (Some (tx, op)) -> (tx ∈ txs /\ ParseAmmOpDetailed tx = AMM_VALID op) \/ found = Some (tx, op).
Proof.
  revert found. induction txs as [|t txs IH]; intros found; cbn [sole_op]; [intros [= ->]; auto|].
  destruct (ParseAmmOpDetailed t) eqn:Ep; [| |done].
  - intros [[H Hp]|H]%IH; [|auto]. left. split; [by right|done].
  - destruct found; [done|]. intros [[H Hp]|[= <- <-]]%IH; left; [split; [by right|done]|split; [by left|done]].
Qed.

(** *** Fuel *)

(** The search of the seed probe ends on the boundary it looks for: its 65 steps halve any
    interval of 64-bit amounts down to a point. *)
Lemma v2b_search_spec fuel V B l h :
  let works m := 0 <? SwapOut V B (i64 m) BTCVELD_AMM_FEE_MIN_BPS in
  l <= h -> h - l < 2 ^ Z.of_nat fuel ->
  let r := v2b_search (S fuel) V B l h in
  l <= r <= h /\ (r = h \/ works r = true) /\ (r = l \/ works (r - 1) = false).
Proof.
  intros works. revert l h. induction fuel as [|fuel IH]; intros l h Hle Hlt.
  - cbn [v2b_search]. destruct (Z.ltb_spec l h); [lia|]. split_and!; [lia|lia|left; lia|by left].
  - rewrite Nat2Z.inj_succ, Z.pow_succ_r in Hlt by lia. remember (S fuel) as f. cbn [v2b_search]. subst f.
    destruct (Z.ltb_spec l h) as [Hl|]; [|split_and!; [lia|lia|left; lia|by left]].
    set (m := l + (h - l) / 2). fold (works m).
    assert (l <= m < h /\ m - l < 2 ^ Z.of_nat fuel /\ h - (m + 1) < 2 ^ Z.of_nat fuel) as (Hm & Hd1 & Hd2).
    { unfold m. pose proof (Z.div_mod (h - l) 2 ltac:(lia)). pose proof (Z.mod_pos_bound (h - l) 2 ltac:(lia)). lia. }
    destruct (works m) eqn:Ew.
    + destruct (IH l m) as (H1 & H2 & H3); [lia|lia|]. split_and!; [lia|lia| |done]. destruct H2 as [-> |]; auto.
    + destruct (IH (m + 1) h) as (H1 & H2 & H3); [lia|lia|]. split_and!; [lia|lia|done|].
      destruct H3 as [-> |]; [|auto]. right. by replace (m + 1 - 1) with m by lia.
Qed.

(** The fields of a text, with the length of the text as fuel, contain no bar. *)
Lemma split_fields_complete n s f : (length s <= n)%nat -> f ∈ split_fields n s -> PIPE ∉ f.
Proof.
  revert s. induction n as [|n IH]; intros s Hn; cbn [split_fields].
  - destruct s; [|cbn in Hn; lia]. intros ->%list_elem_of_singleton. apply not_elem_of_nil.
  - destruct (split_at PIPE s) as [[a b]|] eqn:E.
    + apply split_at_spec in E as [-> Ha]. intros [-> |Hin]%elem_of_cons; [done|].
      apply (IH b); [rewrite length_app in Hn; cbn [length] in Hn; lia|done].
    + intros ->%list_elem_of_singleton. by apply split_at_none.
Qed.

(** *** The invariant *)

Definition positions_ok (lp : gmap bytes Z) : Prop := forall k v, lp !! k = Some v -> LP_MIN_POSITION <= v.

Lemma positions_total lp : positions_ok lp -> 0 <= map_total lp.
Proof. intros Hp. apply map_total_nonneg. intros k v E. specialize (Hp k v E). unfold LP_MIN_POSITION in Hp. lia. Qed.

(** The outpoint of the pool is the first output of a transaction that pays the pool's
    script the native reserve. *)
Definition backed_by_output (pid : bytes) (p : AmmPool) : Prop :=
  exists tx o, pool_txid p = GetTxID tx /\ pool_vout p = 0 /\ head (outputs tx) = Some o
  /\ value o = reserve_veld p /\ script_pubkey o = PoolVeldScript pid.

(** A pool that holds liquidity. *)
Record seeded (pid : bytes) (p : AmmPool) (lp : gmap bytes Z) (T : OnChainTokenLedger.t) : Prop := {
  sd_valid : utxo_valid p = true;
  sd_native : backed_by_output pid p;
  sd_tokens : GetBalance T BTCVELD_TOKEN_ID (pool_account pid) = reserve_btcveld p;
  sd_veld : DUST_THRESHOLD_UNITS <= reserve_veld p <= INT64_MAX;
  sd_btc : 0 < reserve_btcveld p <= INT64_MAX;
  sd_anchor : 0 < anchor_veld p <= INT64_MAX /\ 0 < anchor_btcveld p <= INT64_MAX;
  sd_locked : MIN_LIQUIDITY <= locked_lp p;
  sd_shares : lp_supply p = map_total lp + locked_lp p;
  sd_supply : lp_supply p <= INT64_MAX }.

(** A pool that was created and not seeded yet. *)
Definition fresh (pid : bytes) (p : AmmPool) (lp : gmap bytes Z) (T : OnChainTokenLedger.t) : Prop :=
  p = NewPool pid /\ lp = ∅ /\ GetBalance T BTCVELD_TOKEN_ID (pool_account pid) = 0.

Record pool_ok (pid : bytes) (p : AmmPool) (lp : gmap bytes Z) (T : OnChainTokenLedger.t) : Prop := {
  po_exists : exists_ p = true;
  po_script : veld_script p = PoolVeldScript pid;
  po_account : btcveld_addr p = pool_account pid;
  po_positions : positions_ok lp;
  po_count : Z.of_nat (base.size lp) <= AMM_MAX_LP_IDENTITIES;
  po_state : fresh pid p lp T \/ seeded pid p lp T }.

(** What an operation on a seeded pool may do to its holders: a unit of liquidity stands
    for at least as much of the product of the reserves as before, and the permanent lock,
    the opening ratio and the identity of the pool stay. *)
Record fair (p p' : AmmPool) : Prop := {
  fr_share : lp_supply p' * lp_supply p' * (reserve_veld p * reserve_btcveld p)
             <= lp_supply p * lp_supply p * (reserve_veld p' * reserve_btcveld p');
  fr_locked : locked_lp p' = locked_lp p;
  fr_anchor : anchor_veld p' = anchor_veld p /\ anchor_btcveld p' = anchor_btcveld p }.

(** Balances and positions that an operation lowers are those of a signer. *)
Definition authorized (verify : bytes -> bytes -> bytes -> bool) (pid : bytes) (tx : Transaction) (lp lp' : gmap bytes Z)
    (T T' : OnChainTokenLedger.t) : Prop :=
  (forall a, a <> pool_account pid -> GetBalance T' BTCVELD_TOKEN_ID a < GetBalance T BTCVELD_TOKEN_ID a ->
             TxVerifiedSignedBy verify tx a = true)
  /\ forall a, at_key lp' (lp_key pid a) < at_key lp (lp_key pid a) -> TxVerifiedSignedBy verify tx a = true.

(** A token move between a user and the pool, seen from the pool. *)
Lemma pool_move pid T from to amount T' :
  token_inv T -> from <> to -> from = pool_account pid \/ to = pool_account pid ->
  AmmMove T BTCVELD_TOKEN_ID from to amount = Some T' ->
  token_inv T' /\ 0 < amount
  /\ GetBalance T' BTCVELD_TOKEN_ID (pool_account pid) = GetBalance T BTCVELD_TOKEN_ID (pool_account pid)
       + (if decide (to = pool_account pid) then amount else - amount)
  /\ forall a, a <> pool_account pid -> GetBalance T' BTCVELD_TOKEN_ID a < GetBalance T BTCVELD_TOKEN_ID a -> a = from.
Proof.
  intros I Hne Hor Hm.
  destruct (AmmMove_spec T from to amount T' I Hne Hm) as (I' & Ha & _ & Hf & Ht & Ho & Hmax). split; [done|]. split; [done|].
  assert (forall a, a <> from -> GetBalance T' BTCVELD_TOKEN_ID a < GetBalance T BTCVELD_TOKEN_ID a -> False) as Hlow.
  { intros a H1 H2. destruct (decide (a = to)) as [->|H3]; [lia|]. rewrite Ho in H2 by done. lia. }
  destruct Hor as [-> | ->]; [rewrite decide_False by done|rewrite decide_True by done]; (split; [lia|]); intros a Hp Hlt.
  - by destruct (Hlow a).
  - destruct (decide (a = from)); [done|]. by destruct (Hlow a).
Qed.

(** The pool after a committed operation pays its script from the first output. *)
Lemma chained_backed pid p tx veld btc supply locked av ab :
  veld_script p = PoolVeldScript pid ->
  (match first_output tx with Some o => bytes_eqb (script_pubkey o) (veld_script p) | None => false end) = true ->
  (match first_output tx with Some o => value o =? veld | None => false end) = true ->
  backed_by_output pid (chained p tx veld btc supply locked av ab).
Proof.
  intros Hs. unfold first_output. destruct (head (outputs tx)) as [o|] eqn:Eo; [|done].
  intros H1%bytes_eqb_eq H2%Z.eqb_eq. exists tx, o. rewrite <- Hs. by split_and!.
Qed.

Lemma SpendsPool_script p tx : SpendsPool p tx = true ->
  (match first_output tx with Some o => bytes_eqb (script_pubkey o) (veld_script p) | None => false end) = true.
Proof.
  unfold SpendsPool. destruct (head (inputs tx)); [|done]. destruct (first_output tx); [|done]. intros H. by bool_hyps.
Qed.

Section OpRules.
Context (verify : bytes -> bytes -> bytes -> bool) (pid : bytes).

Lemma ApplySwap_spec p lp op tx T h p' lp' T' :
  pool_ok pid p lp T -> token_inv T -> op_range op -> IsCanonicalTokenCreditAddress (am_user op) = true ->
  ApplySwap verify p lp op tx T false h = Some (p', lp', T') ->
  seeded pid p lp T /\ pool_ok pid p' lp' T' /\ token_inv T' /\ fair p p' /\ authorized verify pid tx lp lp' T T'
  /\ lp_supply p' = lp_supply p /\ lp' = lp.
Proof.
  intros [Pe Ps Pa Pp Pc Pst] I [Hra Hre] Hc. unfold ApplySwap. set (v2b := bytes_eqb _ _).
  destruct (SwapAllowed h); [cbn [negb]|done]. destruct (_ || _ || _ || _ || _) eqn:E0; [done|].
  destruct Pst as [[-> _]|Hsd]; [done|]. pose proof Hsd as [Sv Sn St Sve Sb Sa Sl Ssh Ssu].
  apply orb_false_iff in E0 as [E0 Hsp%negb_false_iff].
  destruct ((if v2b then reserve_veld p else reserve_btcveld p) <=? 0); [done|]. destruct ((if v2b then reserve_btcveld p else reserve_veld p) <=? 0); [done|].
  cbn [orb]. set (q := QuoteSwapLocked p v2b (am_amt op) h). destruct (reject q || _) eqn:Er; [done|]. apply orb_false_iff in Er as [Er Ho].
  destruct (negb (AmmSwapMinimumOutputSatisfied _ _ _)) eqn:Emin; [done|].
  destruct (quote_accepted p v2b (am_amt op) h) as (Hq & Hch & _ & Eao & _ & Epv & Epb); try lia; try done; [unfold DUST_THRESHOLD_UNITS in Sve; lia|].
  fold q in Hch, Eao, Epv, Epb. destruct ((post_reserve_veld q <=? 0) || _); [done|].
  destruct ((post_reserve_veld q <? _) || _) eqn:Ed; [done|]. apply orb_false_iff in Ed as [Ed _].
  destruct (negb (PoolReserveAllowed _ _ _)); [done|].
  destruct (post_reserve_veld q * post_reserve_btcveld q <? _); [done|].
  destruct (negb (match first_output tx with Some o => _ | None => false end)) eqn:Efo; [done|]. apply negb_false_iff in Efo.
  pose proof (charged_range _ _ _ _ _ Hch) as Hfee.
  destruct (product_kept p v2b (am_amt op) (q_fee_bps q) Hq Hfee) as (Hpv & Hpb & Hk). rewrite <- Epv, <- Epb in *.
  set (fta := if v2b then _ else _). destruct fta as [[from to] amount] eqn:Ef.
  destruct (negb v2b && _) eqn:Eauth; [done|]. destruct (negb (CanAmmMove _ _ _ _ _)); [done|].
  destruct (AmmMove T BTCVELD_TOKEN_ID from to amount) as [T1|] eqn:Em; [|done]. intros [= <- <- <-].
  pose proof (user_not_pool _ pid Hc) as Hup.
  assert (from <> to /\ (from = pool_account pid \/ to = pool_account pid)
          /\ (if decide (to = pool_account pid) then amount else - amount) = post_reserve_btcveld q - reserve_btcveld p
          /\ (from <> pool_account pid -> TxVerifiedSignedBy verify tx from = true)) as (Hne & Hor & Hd & Hsg).
  { unfold fta in Ef. rewrite Pa in Ef. rewrite Epb. unfold post_btc. destruct v2b; injection Ef as <- <- <-.
    - rewrite decide_False by done. split_and!; try done; [by left|rewrite Eao; lia].
    - rewrite decide_True by done. split_and!; try done; [by right|lia|]. intros _. cbn [negb andb] in Eauth. bool_hyps. done. }
  destruct (pool_move pid T from to amount T1 I Hne Hor Em) as (I' & Ham & Hbal & Hlow).
  split_and!; try done.
  - split; try done. right. split; try done.
    + apply chained_backed; [done|by apply SpendsPool_script|done].
    + cbn [reserve_btcveld chained]. rewrite Hbal. lia.
    + cbn [reserve_veld chained]. apply Z.ltb_ge in Ed. lia.
  - split; cbn [lp_supply reserve_veld reserve_btcveld locked_lp anchor_veld anchor_btcveld chained]; [|done|done].
    assert (0 <= lp_supply p * lp_supply p) by nia. nia.
  - split; [|intros a Ha; lia]. intros a Hap Hlt. rewrite (Hlow a Hap Hlt). apply Hsg. by rewrite <- (Hlow a Hap Hlt).
Qed.

(** The seed locks at least the minimum and mints either nothing or a whole position. *)
Lemma seed_quote_spec V B anchor q :
  QuoteInitialSeedPolicy_ V B anchor = Some q ->
  AMM_SEED_LOCK_VELD_UNITS <= V <= MAX_SUPPLY_UNITS /\ AMM_SEED_LOCK_BTCVELD_SATS <= B <= BTCVELD_AMM_MAX_POOL_BTCVELD_SATS
  /\ MIN_LIQUIDITY <= locked_lp_q q /\ (lp_minted_q q = 0 \/ LP_MIN_POSITION <= lp_minted_q q)
  /\ lp_minted_q q + locked_lp_q q = Z.sqrt (V * B) /\ Z.sqrt (V * B) <= INT64_MAX.
Proof.
  unfold QuoteInitialSeedPolicy_. destruct (_ || _ || _ || _ || _) eqn:E; [done|]. bool_hyps.
  assert (0 <= V * B < 2 ^ 126) as Hn.
  { unfold AMM_SEED_LOCK_VELD_UNITS, AMM_SEED_LOCK_BTCVELD_SATS, BTCVELD_AMM_MAX_POOL_BTCVELD_SATS, MAX_SUPPLY_UNITS, MAX_SUPPLY, VELD_UNITS in *. nia. }
  rewrite IsqrtU128_spec by done. set (g := Z.sqrt (V * B)) in *. destruct (Z.leb_spec g MIN_LIQUIDITY); [done|].
  assert (g <= INT64_MAX) as Hg.
  { unfold g. apply Z.lt_succ_r. apply Z.sqrt_lt_square; unfold INT64_MAX; lia. }
  destruct (LockedSeedUnits_spec g V B) as (Hl & _); [lia|lia|lia|].
  destruct (negb (g - LockedSeedUnits g V B =? 0) && _) eqn:Em; [intros; discriminate|]. intros [= <-].
  cbn [locked_lp_q lp_minted_q]. split_and!; lia.
Qed.

Lemma mul_div_spec a b d r : CheckedMulDivPositiveI64 a b d = Some r ->
  0 < a /\ 0 < b /\ 0 < d /\ r = a * b / d /\ 0 < r <= INT64_MAX /\ r * d <= a * b.
Proof.
  unfold CheckedMulDivPositiveI64. destruct (_ || _ || _) eqn:E; [done|]. bool_hyps. destruct (_ || _) eqn:E1; [done|].
  bool_hyps. assert (0 <= a * b / d) by (apply Z.div_pos; nia). rewrite i64_id by (unfold INT64_MIN in *; lia).
  intros [= <-]. split_and!; try lia. rewrite Z.mul_comm. apply Z.mul_div_le. lia.
Qed.

(** Each leg kept per unit of liquidity keeps the product per unit squared. *)
Lemma share_kept L L' a a' b b' :
  0 < L' -> 0 < L -> 0 < a -> 0 < b -> L' * a <= L * a' -> L' * b <= L * b' -> L' * L' * (a * b) <= L * L * (a' * b').
Proof.
  intros. replace (L' * L' * (a * b)) with (L' * a * (L' * b)) by ring.
  replace (L * L * (a' * b')) with (L * a' * (L * b')) by ring. apply Z.mul_le_mono_nonneg; nia.
Qed.

(** Positions after a mint. *)
Lemma mint_positions lp k minted :
  positions_ok lp -> Z.of_nat (base.size lp) <= AMM_MAX_LP_IDENTITIES -> 0 <= minted ->
  (default 0 (lp !! k) = 0 -> 0 < minted -> LP_MIN_POSITION <= minted /\ Z.of_nat (base.size lp) < AMM_MAX_LP_IDENTITIES) ->
  let lp' := if 0 <? minted then <[k := default 0 (lp !! k) + minted]> lp else lp in
  positions_ok lp' /\ Z.of_nat (base.size lp') <= AMM_MAX_LP_IDENTITIES /\ map_total lp' = map_total lp + minted
  /\ forall k', at_key lp k' <= at_key lp' k'.
Proof.
  intros Hp Hc Hm Hn lp'. unfold lp'. destruct (Z.ltb_spec 0 minted); [|split_and!; try done; lia].
  change (default 0 (lp !! k)) with (at_key lp k) in *. split_and!.
  - intros k' v [[<- <-]|[_ E]]%lookup_insert_Some; [|eauto].
    unfold at_key in *. destruct (lp !! k) as [v|] eqn:E; cbn in *; [specialize (Hp _ _ E); lia|]. destruct Hn; lia.
  - rewrite map_size_insert. unfold at_key in *. destruct (lp !! k) as [v|] eqn:E; cbn in *; [done|]. destruct Hn; lia.
  - rewrite map_total_insert. lia.
  - intros k'. destruct (decide (k = k')) as [->|]; [rewrite at_key_insert; lia|by rewrite at_key_insert_ne].
Qed.

(** The two branches of an addition: the seed of a fresh pool, or a deposit in proportion. *)
Definition add_choice (p : AmmPool) (op : AmmOp) (tx : Transaction) (T : OnChainTokenLedger.t) (h : Z) (seed : bool)
  : option (Z * Z * Z) :=
  if seed then match add_seed p op tx T h with
               | Some (minted, locked) => Some (am_extra op, minted, locked) | None => None end
  else match add_liquidity p op tx with
       | Some (use_btc, minted) => Some (use_btc, minted, locked_lp p) | None => None end.

Lemma add_choice_spec p lp op tx T h use_btc minted locked :
  pool_ok pid p lp T -> 0 < am_amt op -> 0 < am_extra op ->
  let seed := negb (utxo_valid p) || (lp_supply p =? 0) in
  add_choice p op tx T h seed = Some (use_btc, minted, locked) ->
  0 < use_btc /\ 0 <= minted /\ MIN_LIQUIDITY <= locked
  /\ (match first_output tx with Some o => value o =? (if seed then 0 else reserve_veld p) + am_amt op | None => false end) = true
  /\ if seed then fresh pid p lp T /\ DUST_THRESHOLD_UNITS <= am_amt op
     else seeded pid p lp T /\ locked = locked_lp p
          /\ minted * reserve_veld p <= lp_supply p * am_amt op /\ minted * reserve_btcveld p <= lp_supply p * use_btc.
Proof.
  intros [_ _ _ Pp _ Pst] Ha He seed. unfold add_choice.
  assert (if seed then fresh pid p lp T else seeded pid p lp T) as Hst.
  { unfold seed. destruct Pst as [Hf|Hs]; [pose proof Hf as [-> _]; done|]. pose proof Hs as [Sv _ _ _ _ _ Sl Ssh _].
    pose proof (positions_total lp Pp).
    rewrite Sv. cbn [negb orb]. destruct (Z.eqb_spec (lp_supply p) 0); [unfold MIN_LIQUIDITY in Sl; lia|done]. }
  destruct seed.
  - unfold add_seed. destruct (Z.ltb_spec (am_amt op) DUST_THRESHOLD_UNITS); [done|]. destruct (negb _); [done|].
    unfold QuoteInitialSeedAtHeight. destruct (QuoteInitialSeedPolicy_ _ _ _) as [q|] eqn:Eq; [|done].
    apply seed_quote_spec in Eq as (_ & _ & Hl & Hm & _).
    destruct (ProbeInitialSeedLiveness _ _ _); [|done]. destruct (outputs tx !! 1%nat) as [ch|]; [|done].
    destruct (_ || _ || _); [done|]. destruct (_ <? _); [done|]. destruct (ProbeInitialSeedLivenessWithResources _ _ _ _ _); [|done].
    destruct (match first_output tx with Some o => _ | None => false end) eqn:Eo; [cbn [negb]|done]. intros [= <- <- <-].
    change (0 + am_amt op) with (am_amt op). unfold LP_MIN_POSITION in Hm. split_and!; try done; lia.
  - unfold add_liquidity. destruct (_ || _ || _); [done|]. destruct (negb _); [done|].
    destruct (CheckedMulDivPositiveI64 _ _ _) as [ub|] eqn:E1; [|done]. destruct (_ <? _); [done|].
    destruct (CheckedMulDivPositiveI64 (lp_supply p) (am_amt op) _) as [fv|] eqn:E2; [|done].
    destruct (CheckedMulDivPositiveI64 (lp_supply p) ub _) as [fb|] eqn:E3; [|done]. destruct (_ <? _); [done|].
    destruct (match first_output tx with Some o => _ | None => false end) eqn:Eo; [cbn [negb]|done]. intros [= <- <- <-].
    apply mul_div_spec in E1 as (_ & ? & ? & _ & ? & _), E2 as (_ & _ & _ & _ & ? & ?), E3 as (_ & _ & _ & _ & ? & ?).
    pose proof (sd_locked _ _ _ _ Hst). split_and!; try done; (lia || nia).
Qed.

Lemma ApplyAdd_spec p lp op tx T h p' lp' T' :
  pool_ok pid p lp T -> token_inv T -> op_range op -> IsCanonicalTokenCreditAddress (am_user op) = true ->
  ApplyAdd verify pid p lp op tx T false h = Some (p', lp', T') ->
  pool_ok pid p' lp' T' /\ seeded pid p' lp' T' /\ token_inv T' /\ (seeded pid p lp T -> fair p p')
  /\ authorized verify pid tx lp lp' T T'.
Proof.
  intros P I [Hra Hre] Hc. pose proof P as [Pe Ps Pa Pp Pc _]. unfold ApplyAdd.
  destruct ((am_amt op <=? 0) || _) eqn:E0; [done|]. bool_hyps.
  destruct (AmmTxSignedBy verify tx (am_user op)) eqn:Esig; [cbn [negb]|done].
  destruct (match first_output tx with Some o => _ | None => false end) eqn:Escr; [cbn [negb]|done].
  set (seed := negb (utxo_valid p) || (lp_supply p =? 0)). fold (add_choice p op tx T h seed).
  destruct (add_choice p op tx T h seed) as [[[use_btc minted] locked]|] eqn:Ech; [|done].
  apply (add_choice_spec p lp) in Ech as (Hub & Hmi & Hlo & Hval & Hcase); [|done|lia|lia]. fold seed in Hval, Hcase.
  destruct (INT64_MAX <? minted + _); [done|]. destruct ((INT64_MAX - _ <? am_amt op) || _ || _) eqn:Eov; [done|]. bool_hyps.
  set (key := lp_key pid (am_user op)). destruct ((default 0 (lp !! key) <? 0) || _); [done|].
  destruct (_ && _ && (minted <? _)) eqn:Emin; [done|]. destruct (_ && _ && (AMM_MAX_LP_IDENTITIES <=? _)) eqn:Emax; [done|].
  destruct (negb (PoolReserveAllowed _ _ _)); [done|]. destruct (negb (CanAmmMove _ _ _ _ _)); [done|].
  destruct (AmmMove _ _ _ _ _) as [T1|] eqn:Em; [|done]. intros [= <- <- <-].
  rewrite Pa in Em. pose proof (user_not_pool _ pid Hc) as Hup.
  destruct (pool_move pid T (am_user op) (pool_account pid) use_btc T1 I Hup (or_intror eq_refl) Em) as (I' & _ & Hbal & Hlow).
  rewrite decide_True in Hbal by done.
  destruct (mint_positions lp key minted Pp Pc Hmi) as (Lp & Lc & Lt & Lm).
  { intros Hz Hm. rewrite Hz in Emin, Emax. destruct (Z.ltb_spec 0 minted); [|lia]. cbn [Z.eqb andb] in Emin, Emax. lia. }
  assert (authorized verify pid tx lp (if 0 <? minted then <[key:=default 0 (lp !! key) + minted]> lp else lp) T T1) as Hau.
  { split; [|intros a Ha; specialize (Lm (lp_key pid a)); lia]. intros a Hap Hlt. by rewrite (Hlow a Hap Hlt). }
  set (p' := chained _ _ _ _ _ _ _ _). set (lp' := if 0 <? minted then _ else _) in *.
  assert (seeded pid p' lp' T1 /\ (seeded pid p lp T -> fair p p')) as [Hsd Hfair].
  { unfold p'. destruct seed.
    - destruct Hcase as [(-> & -> & Hb0) Hd]. split; [|intros [Sv]; done]. split; try done.
      + by apply chained_backed.
      + cbn [reserve_btcveld chained]. lia.
      + cbn [reserve_veld chained]. lia.
      + cbn [reserve_btcveld chained]. lia.
      + cbn [anchor_veld anchor_btcveld chained]. lia.
      + cbn [lp_supply locked_lp chained]. rewrite Lt, map_total_empty. lia.
      + cbn [lp_supply chained]. lia.
    - destruct Hcase as ([Sv Sn St Sve Sb Sa Sl Ssh Ssu] & -> & Hd1 & Hd2). split.
      + split; try done.
        * by apply chained_backed.
        * cbn [reserve_btcveld chained]. lia.
        * cbn [reserve_veld chained]. lia.
        * cbn [reserve_btcveld chained]. lia.
        * cbn [lp_supply locked_lp chained]. rewrite Lt. lia.
        * cbn [lp_supply chained]. lia.
      + intros _. split; cbn [lp_supply reserve_veld reserve_btcveld locked_lp anchor_veld anchor_btcveld chained]; [|done|done].
        pose proof (positions_total lp Pp). rewrite Z.add_0_r. apply share_kept; unfold DUST_THRESHOLD_UNITS, MIN_LIQUIDITY in *; nia. }
  split_and!; try done. split; try done. by right.
Qed.

(** Positions after a withdrawal. *)
Lemma burn_positions lp k amt :
  positions_ok lp -> Z.of_nat (base.size lp) <= AMM_MAX_LP_IDENTITIES -> 0 < amt <= at_key lp k ->
  (at_key lp k - amt <> 0 -> LP_MIN_POSITION <= at_key lp k - amt) ->
  let lp' := if at_key lp k - amt =? 0 then delete k lp else <[k := at_key lp k - amt]> lp in
  positions_ok lp' /\ Z.of_nat (base.size lp') <= AMM_MAX_LP_IDENTITIES /\ map_total lp' = map_total lp - amt
  /\ forall k', k' <> k -> at_key lp' k' = at_key lp k'.
Proof.
  intros Hp Hc Ha Hr lp'. unfold lp'. assert (is_Some (lp !! k)) as [v Ev].
  { unfold at_key in Ha. destruct (lp !! k); [eauto|cbn in Ha; lia]. }
  destruct (Z.eqb_spec (at_key lp k - amt) 0) as [E|E].
  - split_and!; [intros k' v' [_ H']%lookup_delete_Some; eauto| |rewrite map_total_delete; lia|].
    + rewrite map_size_delete, Ev. lia.
    + intros k' Hk. by rewrite at_key_delete_ne.
  - split_and!; [| |rewrite map_total_insert; lia|intros k' Hk; by rewrite at_key_insert_ne].
    + intros k' v' [[<- <-]|[_ H']]%lookup_insert_Some; [by apply Hr|eauto].
    + by rewrite map_size_insert, Ev.
Qed.

(** The share of a reserve a position withdraws. *)
Lemma withdrawn_share R amt L :
  0 < R <= INT64_MAX -> 0 < amt < L ->
  i64 (R * amt / L) = R * amt / L /\ 0 <= R * amt / L < R /\ (L - amt) * R <= L * (R - R * amt / L).
Proof.
  intros HR Ha. assert (0 <= R * amt / L < R) as Hq by (split; [apply Z.div_pos; nia|apply Z.div_lt_upper_bound; nia]).
  split; [apply i64_id; unfold INT64_MIN; lia|]. split; [done|]. pose proof (Z.mul_div_le (R * amt) L ltac:(lia)). nia.
Qed.

Lemma ApplyRemove_spec p lp op tx T p' lp' T' :
  pool_ok pid p lp T -> token_inv T -> IsCanonicalTokenCreditAddress (am_user op) = true ->
  ApplyRemove verify pid p lp op tx T false = Some (p', lp', T') ->
  seeded pid p lp T /\ pool_ok pid p' lp' T' /\ seeded pid p' lp' T' /\ token_inv T' /\ fair p p'
  /\ authorized verify pid tx lp lp' T T'.
Proof.
  intros [Pe Ps Pa Pp Pc Pst] I Hc. unfold ApplyRemove.
  destruct ((am_amt op <=? 0) || _ || _ || _ || _ || _ || _ || _) eqn:E0; [done|]. bool_hyps.
  destruct Pst as [[-> _]|Hsd]; [done|]. pose proof Hsd as [Sv Sn St Sve Sb Sa Sl Ssh Ssu].
  destruct (AmmTxSignedBy verify tx (am_user op)) eqn:Esig; [cbn [negb]|done].
  set (key := lp_key pid (am_user op)). change (default 0 (lp !! key)) with (at_key lp key).
  destruct (Z.ltb_spec (at_key lp key) (am_amt op)) as [|Hbal]; [done|].
  destruct (negb (at_key lp key - am_amt op =? 0) && _) eqn:Eres; [done|].
  destruct (at_key_le_total lp key) as [_ Hle].
  { intros k v E. specialize (Pp k v E). unfold LP_MIN_POSITION in Pp. lia. }
  unfold MIN_LIQUIDITY in Sl.
  destruct (withdrawn_share (reserve_veld p) (am_amt op) (lp_supply p)) as (-> & Hv & Kv); [unfold DUST_THRESHOLD_UNITS in *; lia|lia|].
  destruct (withdrawn_share (reserve_btcveld p) (am_amt op) (lp_supply p)) as (-> & Hb & Kb); [lia|lia|].
  set (v := reserve_veld p * am_amt op / lp_supply p) in *. set (b := reserve_btcveld p * am_amt op / lp_supply p) in *.
  destruct ((v <=? 0) || _ || _) eqn:Ed; [done|]. bool_hyps.
  destruct (match first_output tx with Some o => _ | None => false end) eqn:Eo; [cbn [negb]|done].
  destruct (negb (pays_user _ _ _)); [done|]. destruct ((0 <? b) && _); [done|].
  set (moved := if 0 <? b then _ else _). destruct moved as [T1|] eqn:Em; [|done]. intros [= <- <- <-].
  destruct (burn_positions lp key (am_amt op) Pp Pc) as (Lp & Lc & Lt & Lo); [lia| |].
  { intros Hn. destruct (Z.eqb_spec (at_key lp key - am_amt op) 0); [done|]. cbn [negb andb] in Eres. lia. }
  pose proof (user_not_pool _ pid Hc) as Hup.
  assert (token_inv T1 /\ GetBalance T1 BTCVELD_TOKEN_ID (pool_account pid) = reserve_btcveld p - b
    /\ forall a, a <> pool_account pid -> ~ GetBalance T1 BTCVELD_TOKEN_ID a < GetBalance T BTCVELD_TOKEN_ID a) as (I' & Hpb & Hlow).
  { unfold moved in Em. destruct (Z.ltb_spec 0 b) as [Hp0|Hp0].
    - rewrite Pa in Em.
      destruct (pool_move pid T (pool_account pid) (am_user op) b T1 I (not_eq_sym Hup) (or_introl eq_refl) Em) as (I' & _ & Hbl & Hl).
      rewrite decide_False in Hbl by done. split_and!; [done|lia|]. intros a Hap Hlt. by apply Hap, Hl.
    - injection Em as <-. split_and!; [done|lia|intros; lia]. }
  set (p' := chained _ _ _ _ _ _ _ _). set (lp' := if at_key lp key - am_amt op =? 0 then _ else _) in *.
  assert (seeded pid p' lp' T1) as Hsd'.
  { split; try done.
    - apply chained_backed; [done|by apply SpendsPool_script|done].
    - cbn [reserve_veld p' chained]. lia.
    - cbn [reserve_btcveld p' chained]. lia.
    - cbn [lp_supply locked_lp p' chained]. rewrite Lt. lia.
    - cbn [lp_supply p' chained]. lia. }
  split_and!; try done.
  - split; try done. by right.
  - split; cbn [lp_supply reserve_veld reserve_btcveld locked_lp anchor_veld anchor_btcveld p' chained]; [|done|done].
    apply share_kept; unfold DUST_THRESHOLD_UNITS in *; lia.
  - split; [intros a Hap Hlt; by destruct (Hlow a)|]. intros a Hlt.
    destruct (decide (lp_key pid a = key)) as [E|E]; [|rewrite Lo in Hlt by done; lia]. apply lp_key_inj in E as ->. done.
Qed.

(** ** One operation *)

Lemma ApplyAmmOpLocked_spec p lp op tx T h p' lp' T' :
  pool_ok pid p lp T -> token_inv T -> op_range op ->
  ApplyAmmOpLocked verify pid p lp op tx T false h = Some (p', lp', T') ->
  pool_ok pid p' lp' T' /\ seeded pid p' lp' T' /\ token_inv T' /\ (seeded pid p lp T -> fair p p')
  /\ authorized verify pid tx lp lp' T T'.
Proof.
  intros P I Hr. unfold ApplyAmmOpLocked. destruct (negb _); [done|].
  destruct (IsCanonicalTokenCreditAddress (am_user op)) eqn:Hc; [cbn [negb]|done].
  destruct (bytes_eqb _ SWAP_V2B || _).
  { intros H. apply ApplySwap_spec in H as (Hs & P' & I' & F & A & _ & ->); try done. split_and!; try done.
    pose proof P' as [_ _ _ _ _ [[-> _]|?]]; [|done]. destruct F as [_ Fl _]. pose proof (sd_locked _ _ _ _ Hs) as Hl.
    rewrite <- Fl in Hl. cbn in Hl. unfold MIN_LIQUIDITY in Hl. lia. }
  destruct (bytes_eqb _ ADD); [intros H; by apply ApplyAdd_spec in H|].
  destruct (bytes_eqb _ REMOVE); [|done]. intros H. apply ApplyRemove_spec in H as (Hs & ?); try done. naive_solver.
Qed.
End OpRules.
