(* ===== verification/AmmSafety.v ===== *)
(** * Safety of the peg and the pool

    Runs of the token ledger and the pool, from the empty state: the reserve covers what
    circulates, the pool owns exactly what its record says, liquidity is never diluted, and
    what a key owns moves only with its signature.  The guard a block passes before it is
    connected and the transition that connects it agree. *)
From S2P Require Import Prelude MintNullifier Bytes Sha256 StateDigest Profile Transaction Block Address OpAuthorization.
From S2P Require Import Marker AmmMath MapSum Reserve TokenLedger TokenRules FinalityCodec Amm AmmRules.
Import OnChainTokenLedger AmmLedger.

(** ** Runs *)

Section Runs.
Context (verify : bytes -> bytes -> bytes -> bool) (pid : bytes).

(** The pool ledger and the token ledger. *)
Definition World : Type := Ledger * OnChainTokenLedger.t.

(** One committed change, with the transactions that carry it. A reserve proof credits the
    recipient the verifier has checked to be a canonical address, or nobody. *)
Inductive step : list Transaction -> World -> World -> Prop :=
  | step_pool L T block gate L' T' verdict :
      ProcessBlock verify L pid block T gate = (L', T', verdict) -> step (transactions block) (L, T) (L', T')
  | step_marker L T op tx h gate T' :
      ApplyTokenOp verify T op tx h gate = Some T' -> step [tx] (L, T) (L, T')
  | step_compensate L T who amount T' :
      0 <= amount -> CompensateMint T who amount = Some T' -> step [] (L, T) (L, T')
  | step_reserve L T v T' :
      0 <= mint_amount (claim v) -> (mint_amount (claim v) = 0 \/ IsCanonicalTokenCreditAddress (recipient v) = true) ->
      apply_verified T v = Some T' -> step [] (L, T) (L, T')
  | step_freeze L T txid blk T' :
      FreezeBtcVeldReserve T txid blk = Some T' -> step [] (L, T) (L, T')
  | step_register L T h : step [] (L, T) (L, MaybeRegisterBtcVeld T h)
  | step_processed L T h block_hash r :
      SetProcessed (reserve_state_ T) h block_hash = Some r ->
      step [] (L, T) (L, with_money T (balances_ T) (supply_ T) r).

Definition any_step (w w' : World) : Prop := exists txs, step txs w w'.

Definition ledger_ok (L : Ledger) (T : OnChainTokenLedger.t) : Prop :=
  match pools_ L !! pid with
  | Some p => pool_ok pid p (lp_ L) T
  | None => lp_ L = ∅ /\ GetBalance T BTCVELD_TOKEN_ID (pool_account pid) = 0
  end.

Definition world_ok (w : World) : Prop := token_inv w.2 /\ ledger_ok w.1 w.2.

(** A change of tokens that keeps the pool's account keeps the pool. *)
Lemma ledger_ok_tokens L T T' :
  GetBalance T' BTCVELD_TOKEN_ID (pool_account pid) = GetBalance T BTCVELD_TOKEN_ID (pool_account pid) ->
  ledger_ok L T -> ledger_ok L T'.
Proof.
  unfold ledger_ok. intros E. destruct (pools_ L !! pid) as [p|]; [|by rewrite E].
  intros [Pe Ps Pa Pp Pc [(? & ? & Hb)|[Sv Sn St Sve Sb Sa Sl Ssh Ssu]]]; split; try done.
  - left. unfold fresh. by rewrite E.
  - right. split; try done. by rewrite E.
Qed.

Lemma MaybeCreatePool_spec L h gate T :
  ledger_ok L T -> ledger_ok (MaybeCreatePool L pid h gate) T
  /\ lp_ (MaybeCreatePool L pid h gate) = lp_ L
  /\ forall p, pools_ L !! pid = Some p -> pools_ (MaybeCreatePool L pid h gate) !! pid = Some p.
Proof.
  unfold MaybeCreatePool, ledger_ok. intros H. destruct (negb _); [done|].
  destruct (pools_ L !! pid) as [p|] eqn:E; [by rewrite (po_exists _ _ _ _ H), E|].
  cbn [pools_ lp_]. rewrite lookup_insert_eq. destruct H as [-> Hb]. split_and!; [|done|done].
  split; try done. by left.
Qed.

(** What a block does to a sound world. *)
Lemma ProcessBlock_spec L T block gate L' T' verdict :
  world_ok (L, T) -> ProcessBlock verify L pid block T gate = (L', T', verdict) ->
  world_ok (L', T')
  /\ (forall p, pools_ L !! pid = Some p -> seeded pid p (lp_ L) T ->
        exists p', pools_ L' !! pid = Some p' /\ seeded pid p' (lp_ L') T' /\ (p' = p \/ fair p p'))
  /\ exists tx, (tx ∈ transactions block \/ (lp_ L' = lp_ L /\ T' = T)) /\ authorized verify pid tx (lp_ L) (lp_ L') T T'.
Proof.
  intros [I H] Hp. cbn [fst snd] in I, H.
  assert (world_ok (L, T) /\ (forall p, pools_ L !! pid = Some p -> seeded pid p (lp_ L) T ->
     exists p', pools_ L !! pid = Some p' /\ seeded pid p' (lp_ L) T /\ (p' = p \/ fair p p'))
     /\ exists tx, (tx ∈ transactions block \/ (lp_ L = lp_ L /\ T = T)) /\ authorized verify pid tx (lp_ L) (lp_ L) T T) as Hsame.
  { split; [done|]. split; [intros p Ep Hs; exists p; auto|]. exists (mkTx 0 [] [] 0). split; [by right|].
    split; intros; lia. }
  revert Hp. unfold ProcessBlock. destruct (sole_op _ None) as [[[tx op]|]|] eqn:Eo; [| |intros [= <- <- _]; exact Hsame].
  - destruct (negb (AmmAllowed gate)); [intros [= <- <- _]; exact Hsame|].
    destruct (MaybeCreatePool_spec L (height block) gate T H) as (H1 & Elp & Hsome).
    set (L1 := MaybeCreatePool L pid (height block) gate) in *. unfold ledger_ok in H1.
    destruct (pools_ L1 !! pid) as [p1|] eqn:E1; [|intros [= <- <- _]; exact Hsame].
    rewrite (po_exists _ _ _ _ H1). cbn [negb].
    destruct (ApplyAmmOpLocked _ _ _ _ _ _ _ _ _) as [[[p' lp'] T1]|] eqn:Ea; intros [= <- <- _]; [|exact Hsame].
    apply ApplyAmmOpLocked_spec in Ea as (P' & S' & I' & F & A); [|done|done|by apply (sole_op_range _ None) in Eo].
    rewrite Elp in *. split; [split; [done|]; unfold ledger_ok; cbn [fst snd pools_ lp_]; by rewrite lookup_insert_eq|].
    split.
    + intros p Ep Hs. apply Hsome in Ep. cbn [pools_ lp_]. rewrite lookup_insert_eq. exists p'.
      assert (p1 = p) as -> by congruence. auto.
    + exists tx. split; [|done]. left. by apply sole_op_in in Eo as [[? _]|].
  - intros [= <- <- _]. destruct (MaybeCreatePool_spec L (height block) gate T H) as (H1 & Elp & Hsome).
    rewrite Elp. split; [done|]. split; [|apply Hsame]. intros p Ep Hs. exists p. auto.
Qed.

(** A balance that only a signature lowers and only an address receives. *)
Lemma pool_account_untouched T T' tx :
  (forall a, GetBalance T' BTCVELD_TOKEN_ID a < GetBalance T BTCVELD_TOKEN_ID a -> TxVerifiedSignedBy verify tx a = true) ->
  (forall a, GetBalance T BTCVELD_TOKEN_ID a < GetBalance T' BTCVELD_TOKEN_ID a -> IsCanonicalTokenCreditAddress a = true) ->
  GetBalance T' BTCVELD_TOKEN_ID (pool_account pid) = GetBalance T BTCVELD_TOKEN_ID (pool_account pid).
Proof.
  intros H1 H2. destruct (Z.lt_trichotomy (GetBalance T' BTCVELD_TOKEN_ID (pool_account pid)) (GetBalance T BTCVELD_TOKEN_ID (pool_account pid)))
    as [H|[H|H]]; [|done|].
  - apply H1 in H. by rewrite pool_account_unsigned in H.
  - apply H2 in H. by rewrite pool_account_not_credit in H.
Qed.

(** What the changes outside the pool do: they touch tokens only, lower the balance of a
    signer only, and leave the pool's account. *)
Lemma token_step_spec txs L T L' T' :
  token_inv T -> step txs (L, T) (L', T') ->
  (exists block gate verdict, txs = transactions block /\ ProcessBlock verify L pid block T gate = (L', T', verdict))
  \/ (L' = L /\ token_inv T'
      /\ GetBalance T' BTCVELD_TOKEN_ID (pool_account pid) = GetBalance T BTCVELD_TOKEN_ID (pool_account pid)
      /\ forall a, GetBalance T' BTCVELD_TOKEN_ID a < GetBalance T BTCVELD_TOKEN_ID a ->
                   exists tx, tx ∈ txs /\ TxVerifiedSignedBy verify tx a = true).
Proof.
  assert (Hcredit : forall who amount, IsCanonicalTokenCreditAddress who = true ->
    (if decide (pool_account pid = who) then amount else 0) = 0).
  { intros who amount Hc. rewrite decide_False; [done|]. intros E. by apply (user_not_pool _ pid Hc). }
  intros I Hs. inversion Hs as [? ? block gate ? ? verdict Hp|? ? op tx h gate ? Hop|? ? who amount ? Ha Hcm
    |? ? v ? Ha Hc Hv|? ? txid blk ? Hf|? ? h|? ? h bh r Hp]; subst; [left; eauto| | | | | |]; right; (split; [done|]).
  - apply ApplyTokenOp_spec in Hop as (I' & Hlow & Hhigh); [|done]. split_and!; [done|by eapply pool_account_untouched|].
    intros a Hlt. exists tx. split; [by apply list_elem_of_singleton|by apply Hlow].
  - apply CompensateMint_spec in Hcm as (I' & Hc & Hbal); [|done|done].
    split_and!; [done|rewrite Hbal, Hcredit by done; lia|]. intros a Hlt. rewrite Hbal in Hlt. destruct (decide _); lia.
  - apply apply_verified_spec in Hv as (I' & Hbal); [|done|done]. split_and!; [done| |].
    + rewrite Hbal. destruct Hc as [-> |Hc]; [destruct (decide _); lia|]. rewrite Hcredit by done. lia.
    + intros a Hlt. rewrite Hbal in Hlt. destruct (decide _); lia.
  - apply Freeze_spec in Hf as (I' & Hbal); [|done]. split_and!; [done|apply Hbal|]. intros a Hlt. rewrite Hbal in Hlt. lia.
  - destruct (MaybeRegister_spec T h I) as (I' & Hbal). split_and!; [done|apply Hbal|]. intros a Hlt. rewrite Hbal in Hlt. lia.
  - split_and!; [by eapply SetProcessed_inv|done|]. intros a Hlt. unfold GetBalance in Hlt. cbn in Hlt. lia.
Qed.

Lemma fair_refl p : fair p p.
Proof. by split. Qed.

Lemma step_spec txs w w' :
  world_ok w -> step txs w w' ->
  world_ok w'
  /\ (forall p, pools_ w.1 !! pid = Some p -> seeded pid p (lp_ w.1) w.2 ->
        exists p', pools_ w'.1 !! pid = Some p' /\ seeded pid p' (lp_ w'.1) w'.2 /\ fair p p')
  /\ (forall a, a <> pool_account pid -> GetBalance w'.2 BTCVELD_TOKEN_ID a < GetBalance w.2 BTCVELD_TOKEN_ID a ->
        exists tx, tx ∈ txs /\ TxVerifiedSignedBy verify tx a = true)
  /\ (forall a, GetLp w'.1 pid a < GetLp w.1 pid a -> exists tx, tx ∈ txs /\ TxVerifiedSignedBy verify tx a = true).
Proof.
  destruct w as [L T], w' as [L' T']. cbn [fst snd]. intros [I H] Hs. cbn [fst snd] in I, H.
  apply token_step_spec in Hs as [(block & gate & verdict & -> & Hp)|(-> & I' & Eb & Hlow)]; [| |done].
  - apply ProcessBlock_spec in Hp as (W & Hseed & tx & Hor & Hb & Hl); [|done]. split; [done|]. split_and!.
    + intros p Ep Hsd. destruct (Hseed p Ep Hsd) as (p' & ? & ? & Hd). exists p'. split_and!; [done|done|].
      destruct Hd as [-> |?]; [apply fair_refl|done].
    + intros a Ha Hlt. destruct Hor as [Hin|[_ ->]]; [|lia]. exists tx. split; [done|]. by apply Hb.
    + intros a Hlt. destruct Hor as [Hin|[E _]]; [|unfold GetLp in Hlt; rewrite E in Hlt; lia]. exists tx. split; [done|]. by apply Hl.
  - split; [split; [done|]; by eapply ledger_ok_tokens|]. split_and!.
    + intros p Ep Hsd. exists p. split_and!; [done| |apply fair_refl]. destruct Hsd as [Sv Sn St Sve Sb Sa Sl Ssh Ssu]. split; try done. by rewrite Eb.
    + intros a _. apply Hlow.
    + intros a Hlt. lia.
Qed.

Lemma seeded_supply_pos p lp T : positions_ok lp -> seeded pid p lp T -> 0 < lp_supply p.
Proof. intros Hp [_ _ _ _ _ _ Sl Ssh _]. apply positions_total in Hp. unfold MIN_LIQUIDITY in Sl. lia. Qed.

Lemma fair_trans p q r : 0 < lp_supply q -> fair p q -> fair q r -> fair p r.
Proof.
  intros Hq [S1 L1 [A1 B1]] [S2 L2 [A2 B2]]. split; [|congruence|split; congruence].
  set (K := reserve_veld p * reserve_btcveld p) in *. set (K' := reserve_veld q * reserve_btcveld q) in *.
  set (K'' := reserve_veld r * reserve_btcveld r) in *.
  apply (Z.mul_le_mono_pos_r _ _ (lp_supply q * lp_supply q)); [nia|].
  transitivity (lp_supply r * lp_supply r * (lp_supply p * lp_supply p * K')); [nia|].
  transitivity (lp_supply p * lp_supply p * (lp_supply q * lp_supply q * K'')); [nia|lia].
Qed.

Lemma run_ok w w' : world_ok w -> rtc any_step w w' -> world_ok w'.
Proof. intros H. induction 1 as [|w w1 w2 [txs Hs] _ IH]; [done|]. apply IH. by apply (step_spec _ _ _ H) in Hs as [? _]. Qed.

Lemma run_fair w w' p :
  world_ok w -> pools_ w.1 !! pid = Some p -> seeded pid p (lp_ w.1) w.2 -> rtc any_step w w' ->
  exists p', pools_ w'.1 !! pid = Some p' /\ seeded pid p' (lp_ w'.1) w'.2 /\ fair p p'.
Proof.
  intros W Ep Hs Hr. revert p W Ep Hs. induction Hr as [w|w w1 w2 [txs H1] _ IH]; intros p W Ep Hs; [exists p; eauto using fair_refl|].
  destruct (step_spec _ _ _ W H1) as (W1 & Hseed & _). destruct (Hseed p Ep Hs) as (p1 & E1 & S1 & F1).
  destruct (IH p1 W1 E1 S1) as (p2 & E2 & S2 & F2). exists p2. split_and!; [done|done|].
  eapply fair_trans; [|done|done]. eapply seeded_supply_pos; [|done]. destruct W1 as [_ W1]. unfold ledger_ok in W1. rewrite E1 in W1. apply W1.
Qed.

Lemma empty_ok : world_ok (EmptyLedger, Empty).
Proof. split; [apply EmptyTokens_inv|]. done. Qed.

End Runs.

(** ** The guard and the transition *)

(** Case analysis on a chain of refusals. *)
Ltac pass_refusals :=
  repeat match goal with
  | H : (if ?c then None else _) = Some _ |- _ => destruct c eqn:?; [discriminate H|]
  | H : match ?x with Some _ => _ | None => None end = Some _ |- _ => destruct x eqn:?; [|discriminate H]
  | H : (let '(_, _) := ?x in _) = Some _ |- _ => destruct x eqn:?
  end.

(** The move the guard has allowed. *)
Ltac allowed_move :=
  match goal with
  | E : negb (CanAmmMove _ _ _ _ _) = false |- _ =>
      apply negb_false_iff in E; destruct (CanAmmMove_AmmMove _ _ _ _ _ E) as [? ->]
  end.

Section Guard.
Context (verify : bytes -> bytes -> bytes -> bool) (pid : bytes).

(** A dry run that succeeds commits. *)
Lemma ApplySwap_commits p lp op tx T h r :
  ApplySwap verify p lp op tx T true h = Some r -> exists r', ApplySwap verify p lp op tx T false h = Some r'.
Proof. unfold ApplySwap. intros H. pass_refusals. allowed_move. eauto. Qed.

Lemma ApplyAdd_commits p lp op tx T h r :
  ApplyAdd verify pid p lp op tx T true h = Some r -> exists r', ApplyAdd verify pid p lp op tx T false h = Some r'.
Proof. unfold ApplyAdd. intros H. pass_refusals. allowed_move. eauto. Qed.

Lemma ApplyRemove_commits p lp op tx T r :
  ApplyRemove verify pid p lp op tx T true = Some r -> exists r', ApplyRemove verify pid p lp op tx T false = Some r'.
Proof.
  unfold ApplyRemove. intros H. pass_refusals. destruct (0 <? _) eqn:Eb; [|eauto].
  match goal with E : _ && _ = false |- _ => cbn [andb] in E end. allowed_move. eauto.
Qed.

Lemma dry_run_commits p lp op tx T h r :
  ApplyAmmOpLocked verify pid p lp op tx T true h = Some r -> exists r', ApplyAmmOpLocked verify pid p lp op tx T false h = Some r'.
Proof.
  unfold ApplyAmmOpLocked. destruct (negb _); [done|]. destruct (negb _); [done|]. destruct (_ || _); [apply ApplySwap_commits|].
  destruct (bytes_eqb _ _); [apply ApplyAdd_commits|]. destruct (bytes_eqb _ _); [apply ApplyRemove_commits|done].
Qed.

(** The outpoint a committed operation leaves. *)
Lemma applied_outpoint p lp op tx T h p' lp' T' :
  ApplyAmmOpLocked verify pid p lp op tx T false h = Some (p', lp', T') ->
  pool_txid p' = GetTxID tx /\ pool_vout p' = 0 /\ utxo_valid p' = true.
Proof.
  unfold ApplyAmmOpLocked. destruct (negb _); [done|]. destruct (negb _); [done|]. destruct (_ || _).
  { unfold ApplySwap. intros H. pass_refusals. by injection H as <- _ _. }
  destruct (bytes_eqb _ _).
  { unfold ApplyAdd. intros H. pass_refusals. by injection H as <- _ _. }
  destruct (bytes_eqb _ _); [|done]. unfold ApplyRemove. intros H. pass_refusals. by injection H as <- _ _.
Qed.

(** Whether a transaction spends the pool's output. *)
Definition spends_pool_output (p : AmmPool) (tx : Transaction) : Prop :=
  utxo_valid p = true /\ exists i, i ∈ inputs tx /\ prev_tx_hash i = pool_txid p /\ prev_out_index i = pool_vout p.

Lemma spends_at_nonneg p tx : spends_pool_output p tx -> 0 <= spends_at p tx.
Proof.
  intros (Hv & x & Hin & E1 & E2). unfold spends_at. rewrite Hv.
  assert (forall ins i, 0 <= i -> x ∈ ins -> 0 <= pool_input p ins i) as H; [|by apply H].
  intros ins. induction ins as [|y ins IH]; intros i Hi; [intros H; by apply elem_of_nil in H|].
  cbn [pool_input]. intros Hx. destruct (_ && _) eqn:E; [done|]. apply elem_of_cons in Hx as [<-|Hx]; [|apply IH; (lia || done)].
  rewrite E1, E2, bytes_eqb_refl, Z.eqb_refl in E. done.
Qed.

(** A block the guard passes carries a valid operation in every transaction that touches
    the pool, and that operation commits. *)
Lemma validate_txs_spec p lp T h txs touches tx :
  validate_txs verify pid p lp T h txs touches = true -> tx ∈ txs ->
  (0 <= spends_at p tx \/ exists op, ParseAmmOpDetailed tx = AMM_VALID op) ->
  exists op r, ParseAmmOpDetailed tx = AMM_VALID op /\ ApplyAmmOpLocked verify pid p lp op tx T false h = Some r.
Proof.
  revert touches. induction txs as [|t txs IH]; intros touches Hv Hin Ht; [by apply elem_of_nil in Hin|].
  cbn [validate_txs] in Hv. destruct (0 <? spends_at p t) eqn:Epos; [done|].
  destruct (negb _ && negb _ && negb _) eqn:Equiet.
  - apply elem_of_cons in Hin as [<-|Hin]; [|by eapply IH]. exfalso. bool_hyps. destruct Ht as [Hs|[op Ho]]; [lia|].
    rewrite Ho in *. done.
  - destruct (_ && negb (_ =? 1)); [done|]. destruct (ParseAmmOpDetailed t) as [|op|] eqn:Ep; [done| |done].
    destruct (negb _ && negb _) in Hv; [done|].
    destruct (ApplyAmmOpLocked _ _ _ _ _ _ _ _ _) as [r|] eqn:Ea in Hv; [|done].
    apply elem_of_cons in Hin as [<-|Hin]; [|by eapply IH]. apply dry_run_commits in Ea as [r' Er]. eauto.
Qed.

(** The one operation of a block. *)
Lemma sole_op_unique txs found res tx op :
  sole_op txs found = Some res -> tx ∈ txs -> ParseAmmOpDetailed tx = AMM_VALID op -> res = Some (tx, op).
Proof.
  assert (forall txs x res, sole_op txs (Some x) = Some res -> res = Some x) as Hkeep.
  { intros l. induction l as [|t l IH]; intros x r; cbn [sole_op]; [by intros [= <-]|].
    destruct (ParseAmmOpDetailed t); [apply IH|done|done]. }
  revert found. induction txs as [|t txs IH]; intros found Hs Hin Hp; [by apply elem_of_nil in Hin|].
  cbn [sole_op] in Hs. apply elem_of_cons in Hin as [<-|Hin].
  - rewrite Hp in Hs. destruct found; [done|]. by apply Hkeep in Hs.
  - destruct (ParseAmmOpDetailed t); [by eapply IH| |done]. destruct found; [done|]. by eapply IH.
Qed.

(** The pool the guard checks a block against, if it checks any. *)
Definition guarded_pool (L : Ledger) (h : Z) (gate : BtcVeldPegGateState) : option AmmPool :=
  match pools_ L !! pid with
  | Some p => if exists_ p then Some p else if PoolCreationAllowed h gate then Some (NewPool pid) else None
  | None => if PoolCreationAllowed h gate then Some (NewPool pid) else None
  end.

Lemma MaybeCreatePool_guarded L h gate :
  lp_ (MaybeCreatePool L pid h gate) = lp_ L
  /\ match guarded_pool L h gate with
     | Some p => pools_ (MaybeCreatePool L pid h gate) !! pid = Some p /\ exists_ p = true
     | None => match pools_ (MaybeCreatePool L pid h gate) !! pid with Some p => exists_ p = false | None => True end
     end.
Proof.
  unfold MaybeCreatePool, guarded_pool. destruct (pools_ L !! pid) as [p|] eqn:E.
  - destruct (exists_ p) eqn:Ee; [destruct (PoolCreationAllowed h gate); cbn [negb]; by rewrite E|].
    destruct (PoolCreationAllowed h gate); cbn [negb pools_ lp_]; [by rewrite lookup_insert_eq|by rewrite E].
  - destruct (PoolCreationAllowed h gate); cbn [negb pools_ lp_]; [by rewrite lookup_insert_eq|by rewrite E].
Qed.

Lemma ValidateBlock_inv L block T gate :
  ValidateBlock verify L pid block T gate = true ->
  exists found, sole_op (transactions block) None = Some found
  /\ (found <> None -> AmmAllowed gate = true)
  /\ forall p, guarded_pool L (height block) gate = Some p ->
       validate_txs verify pid p (lp_ L) T (height block) (transactions block) 0 = true.
Proof.
  unfold ValidateBlock, guarded_pool. destruct (sole_op _ None) as [found|]; [|done].
  destruct (negb _) eqn:Eg; [done|]. intros H. exists found. split; [done|].
  split; [intros Hf; destruct found; [by apply negb_false_iff in Eg|done]|]. intros p.
  destruct (pools_ L !! pid) as [p0|]; [destruct (exists_ p0)|]; try (destruct (PoolCreationAllowed _ _); cbn [negb] in H); intros [= <-]; done.
Qed.
End Guard.

(** ** A sample world *)

Definition sample_pid : bytes := BTCVELD_TOKEN_ID.
Definition sample_user : bytes := auth_address.
Definition sample_payee : bytes := b:"VVzm6RG8W1t3U9KQYoD34z49jHcYb1sXdv".

Definition sample_seed_tx : Transaction :=
  mkTx 1 [mkInput ZeroHash 3 [0x51] 0xFFFFFFFF] [mkOutput 100000000000 (PoolVeldScript sample_pid)] 0.
Definition sample_pool : AmmPool :=
  mkPool 100000000000 1000000 6000 1000 100 100000000000 1000000 true (GetTxID sample_seed_tx) 0 true
    (PoolVeldScript sample_pid) (pool_account sample_pid).
Definition sample_ledger : Ledger := mkLedger {[sample_pid := sample_pool]} {[lp_key sample_pid sample_user := 5000]}.
Definition sample_reserve : State :=
  mkState ACTIVE (replicate 32 7) 0 1005000 (replicate 32 9) 1 EmptyTransitionCommitment 0 0 0 ZeroHash.
Definition sample_tokens : OnChainTokenLedger.t :=
  mk {[BTCVELD_TOKEN_ID := btcveld_info]}
     {[account_key BTCVELD_TOKEN_ID (pool_account sample_pid) := 1000000; account_key BTCVELD_TOKEN_ID sample_user := 5000]}
     {[BTCVELD_TOKEN_ID := 1005000]} 0 0 sample_reserve.

(** A native swap into the pool, in a block of its own. *)
Definition sample_op : AmmOp := mkAmmOp SWAP_V2B sample_user 1000000000 1.
Definition sample_swap_tx : Transaction :=
  mkTx 1 [mkInput (GetTxID sample_seed_tx) 0 [] 0xFFFFFFFF; mkInput (replicate 32 5) 0 [0x51] 0xFFFFFFFF]
    [mkOutput 101000000000 (PoolVeldScript sample_pid); mkOutput 0 (BuildOpReturnScript (EncodeAmmOp sample_op))] 0.
Definition sample_block : Block := mkBlock (mkHeader 1 ZeroHash ZeroHash 0 0 0) [sample_swap_tx] 9500.
Definition sample_gate : BtcVeldPegGateState := mkGate true true true.

Lemma sample_tokens_inv : token_inv sample_tokens.
Proof.
  split.
  - intros id [x H]. cbn [sample_tokens tokens_] in H. apply lookup_singleton_Some in H as [<- _]. done.
  - intros k v H. cbn [sample_tokens balances_] in H.
    apply lookup_insert_Some in H as [[_ <-]|[_ [_ <-]%lookup_singleton_Some]]; unfold MIN_ACCOUNT_SATS; lia.
  - vm_compute. reflexivity.
  - vm_compute. reflexivity.
  - split; apply Z.leb_le; vm_compute; reflexivity.
Qed.

Lemma sample_positions : positions_ok (lp_ sample_ledger).
Proof. intros k v H. cbn [sample_ledger lp_] in H. apply lookup_singleton_Some in H as [_ <-]. unfold LP_MIN_POSITION. lia. Qed.

Lemma sample_seeded : seeded sample_pid sample_pool (lp_ sample_ledger) sample_tokens.
Proof.
  split; try done. exists sample_seed_tx, (mkOutput 100000000000 (PoolVeldScript sample_pid)). by split_and!.
Qed.

Lemma sample_lookup : pools_ sample_ledger !! sample_pid = Some sample_pool.
Proof. apply lookup_singleton_eq. Qed.

Lemma sample_world_ok : world_ok sample_pid (sample_ledger, sample_tokens).
Proof.
  split; [apply sample_tokens_inv|]. unfold ledger_ok. cbn [fst snd]. rewrite sample_lookup.
  split; [reflexivity|reflexivity|reflexivity|apply sample_positions|apply Z.leb_le; vm_compute; reflexivity|].
  right. apply sample_seeded.
Qed.

Definition swap_grows (w : Ledger * OnChainTokenLedger.t * bool) : bool :=
  w.2 && match pools_ (w.1.1) !! sample_pid with Some p => 100000000000 <? reserve_veld p | None => false end.

Lemma sample_swapped :
  exists L T p, step sample_verify sample_pid [sample_swap_tx] (sample_ledger, sample_tokens) (L, T)
  /\ pools_ L !! sample_pid = Some p /\ 100000000000 < reserve_veld p.
Proof.
  assert (swap_grows (ProcessBlock sample_verify sample_ledger sample_pid sample_block sample_tokens sample_gate) = true) as H
    by (vm_compute; reflexivity).
  destruct (ProcessBlock _ _ _ _ _ _) as [[L T] v] eqn:E. unfold swap_grows in H. cbn [fst snd] in H.
  apply andb_true_iff in H as [-> H]. destruct (pools_ L !! sample_pid) as [p|] eqn:Hp; [|discriminate]. apply Z.ltb_lt in H.
  exists L, T, p. split; [by apply (step_pool _ _ _ _ sample_block sample_gate) in E|]. split; [exact Hp|exact H].
Qed.

Lemma sample_step : exists w', step sample_verify sample_pid [sample_swap_tx] (sample_ledger, sample_tokens) w'.
Proof. destruct sample_swapped as (L & T & _ & H & _). by exists (L, T). Qed.

(** A transaction that only carries the signature of the sample key. *)
Definition sample_spend_tx : Transaction := mkTx 1 [auth_input ZeroHash 0] [] 0.

(** ** Claims *)

(** C2: btcVELD is covered in every state a run reaches. The Bitcoin the reserve holds is
    the sum of all balances, plus the principal of open redemptions, plus surplus; every
    account is above the dust floor; the redemptions of a window stay within its ceiling. *)
Theorem peg_solvent verify pid L T :
  rtc (any_step verify pid) (EmptyLedger, Empty) (L, T) ->
  Canonical (reserve_state_ T) = true
  /\ reserve_value_sats (reserve_state_ T)
     = map_total (balances_ T) + open_redemption_principal (reserve_state_ T) + surplus_sats (reserve_state_ T)
  /\ GetSupply T BTCVELD_TOKEN_ID = map_total (balances_ T)
  /\ (forall k v, balances_ T !! k = Some v -> MIN_ACCOUNT_SATS <= v)
  /\ 0 <= redeemed_in_window_ T <= LaunchWindowCeilingSats.
Proof.
  intros Hr. apply run_ok in Hr as [[_ IB IS IR IW] _]; [|exact (empty_ok pid)]. cbn [snd] in *.
  apply AccountingHolds_iff in IR as (Hc & Hv & _). rewrite IS in Hv.
  split_and!; [done|lia|done|exact IB|apply IW|apply IW].
Qed.

(** The reserve is opened with 150,000 sats for a mint of 100,000, of which the holder then
    redeems 40,000. *)
Definition peg_opening : Result :=
  mkResult (mkClaim OPEN NetworkBinding (transition_commitment InitialState) ZeroHash NO_VOUT 0 0 (replicate 32 1) 0 150000
              (replicate 32 1) (replicate 32 3) 0 [] ZeroHash 100000 [] [] EmptyProof true)
    sample_user [] 150000 ZeroHash 0 [] false.
Definition peg_redeem : TokenOpData :=
  mkTokenOp REDEEM BTCVELD_TOKEN_ID sample_user [] 40000 (b:"0014" ++ replicate 40 49).

Definition peg_figures (T : OnChainTokenLedger.t) : Z * Z * Z * Z :=
  (reserve_value_sats (reserve_state_ T), GetBalance T BTCVELD_TOKEN_ID sample_user, open_redemption_principal (reserve_state_ T),
   surplus_sats (reserve_state_ T)).

Lemma peg_run :
  exists T, rtc (any_step sample_verify sample_pid) (EmptyLedger, Empty) (EmptyLedger, T) /\ peg_figures T = (150000, 60000, 40000, 50000).
Proof.
  assert (match apply_verified (MaybeRegisterBtcVeld Empty 1) peg_opening with
          | Some T1 => option_map peg_figures (ApplyTokenOp sample_verify T1 peg_redeem sample_spend_tx 9500 sample_gate)
          | None => None end = Some (150000, 60000, 40000, 50000)) as H.
  { unfold ApplyTokenOp, TxSignerAuthorized. change (op_from peg_redeem) with auth_address.
    rewrite (sample_signs sample_spend_tx ZeroHash 0); [vm_compute; reflexivity|apply is_hash_zero|by vm_compute|reflexivity]. }
  destruct (apply_verified _ _) as [T1|] eqn:E1; [|discriminate H].
  destruct (ApplyTokenOp _ _ _ _ _ _) as [T2|] eqn:E2; [|discriminate H]. apply (inj Some) in H. exists T2. split; [|exact H].
  apply (rtc_l _ _ (EmptyLedger, MaybeRegisterBtcVeld Empty 1)); [exists []; apply step_register|].
  apply (rtc_l _ _ (EmptyLedger, T1)).
  - exists []. eapply step_reserve; [| |exact E1]; [cbn; lia|right; vm_compute; reflexivity].
  - apply rtc_once. exists [sample_spend_tx]. by eapply step_marker.
Qed.

Lemma peg_solvent_witness :
  exists L T, rtc (any_step sample_verify sample_pid) (EmptyLedger, Empty) (L, T)
  /\ peg_figures T = (150000, 60000, 40000, 50000) /\ 150000 = map_total (balances_ T) + 40000 + 50000.
Proof.
  destruct peg_run as (T & Hr & Hf). exists EmptyLedger, T. split; [exact Hr|]. split; [exact Hf|].
  destruct (peg_solvent sample_verify sample_pid EmptyLedger T Hr) as (_ & Hv & _).
  unfold peg_figures in Hf. injection Hf as Ev _ Eo Es. rewrite Ev, Eo, Es in Hv. exact Hv.
Defined.

(** C6: the pool owns what its record says, in every state a run reaches. The two empty
    ledgers are a sound state, and every run from a sound state ends in one where, once the
    pool is seeded, its outpoint is the first output of a transaction that pays the pool's
    script exactly the native reserve; its token account holds exactly the btcVELD reserve;
    the units of liquidity are the positions plus the permanent lock, each position is at
    least the minimum and there are at most the allowed number of them. *)
Theorem pool_backed verify pid :
  world_ok pid (EmptyLedger, Empty)
  /\ forall w L T p, world_ok pid w -> rtc (any_step verify pid) w (L, T) -> pools_ L !! pid = Some p ->
  world_ok pid (L, T)
  /\ veld_script p = PoolVeldScript pid /\ btcveld_addr p = pool_account pid
  /\ (forall k v, lp_ L !! k = Some v -> LP_MIN_POSITION <= v) /\ Z.of_nat (base.size (lp_ L)) <= AMM_MAX_LP_IDENTITIES
  /\ ((p = NewPool pid /\ lp_ L = ∅ /\ GetBalance T BTCVELD_TOKEN_ID (pool_account pid) = 0)
      \/ (backed_by_output pid p /\ GetBalance T BTCVELD_TOKEN_ID (pool_account pid) = reserve_btcveld p
          /\ DUST_THRESHOLD_UNITS <= reserve_veld p <= INT64_MAX /\ 0 < reserve_btcveld p <= INT64_MAX
          /\ MIN_LIQUIDITY <= locked_lp p /\ lp_supply p = map_total (lp_ L) + locked_lp p /\ lp_supply p <= INT64_MAX)).
Proof.
  split; [apply empty_ok|]. intros w L T p W Hr Hp. apply run_ok in Hr; [|exact W]. split; [exact Hr|].
  destruct Hr as [_ H]. unfold ledger_ok in H. cbn [fst snd] in H. rewrite Hp in H.
  destruct H as [Pe Ps Pa Pp Pc [Hf|[Sv Sn St Sve Sb Sa Sl Ssh Ssu]]]; split_and!; try done; [by left|].
  right. split_and!; (done || lia).
Qed.

(** The pool after the swap of the sample: a second transaction holds the native reserve. *)
Lemma pool_backed_witness :
  exists L T p, step sample_verify sample_pid [sample_swap_tx] (sample_ledger, sample_tokens) (L, T)
  /\ pools_ L !! sample_pid = Some p /\ 100000000000 < reserve_veld p
  /\ backed_by_output sample_pid p /\ GetBalance T BTCVELD_TOKEN_ID (pool_account sample_pid) = reserve_btcveld p
  /\ lp_supply p = map_total (lp_ L) + locked_lp p.
Proof.
  destruct sample_swapped as (L & T & p & Hs & Hp & Hv). exists L, T, p. split; [exact Hs|]. split; [exact Hp|]. split; [exact Hv|].
  destruct (proj2 (pool_backed sample_verify sample_pid) _ L T p sample_world_ok (rtc_once _ _ (ex_intro _ _ Hs)) Hp)
    as (_ & _ & _ & _ & _ & [(-> & _)|(H1 & H2 & _ & _ & _ & H3 & _)]); [discriminate Hv|by split_and!].
Defined.

(** C9: liquidity is never diluted and never leaves behind an empty pool. From a sound
    state with a seeded pool, every run leaves the pool seeded, with the same permanent
    lock and opening ratio, and with at least as much product of the reserves per squared
    unit of liquidity: no order of swaps, deposits, withdrawals, token transfers and
    redemptions takes value from the holders of liquidity. *)
Theorem liquidity_never_diluted verify pid w w' p :
  world_ok pid w -> pools_ w.1 !! pid = Some p -> seeded pid p (lp_ w.1) w.2 -> rtc (any_step verify pid) w w' ->
  exists p', pools_ w'.1 !! pid = Some p' /\ seeded pid p' (lp_ w'.1) w'.2
  /\ lp_supply p' * lp_supply p' * (reserve_veld p * reserve_btcveld p)
     <= lp_supply p * lp_supply p * (reserve_veld p' * reserve_btcveld p')
  /\ locked_lp p' = locked_lp p /\ anchor_veld p' = anchor_veld p /\ anchor_btcveld p' = anchor_btcveld p.
Proof.
  intros W Hp Hs Hr. destruct (run_fair _ _ _ _ _ W Hp Hs Hr) as (p' & E & S & [F L [A B]]). exists p'. by split_and!.
Qed.

Lemma liquidity_never_diluted_witness :
  exists w' p', step sample_verify sample_pid [sample_swap_tx] (sample_ledger, sample_tokens) w'
  /\ pools_ w'.1 !! sample_pid = Some p'
  /\ lp_supply p' * lp_supply p' * (100000000000 * 1000000) <= 6000 * 6000 * (reserve_veld p' * reserve_btcveld p').
Proof.
  destruct sample_step as [w' Hs]. exists w'.
  destruct (liquidity_never_diluted sample_verify sample_pid (sample_ledger, sample_tokens) w' sample_pool
    sample_world_ok sample_lookup sample_seeded (rtc_once _ _ (ex_intro _ _ Hs))) as (p' & Hp & _ & Hk & _).
  exists p'. split; [exact Hs|]. split; [exact Hp|exact Hk].
Defined.

(** C25: what a key owns moves only with its signature. In a sound state, a committed change
    that lowers the btcVELD balance of an account other than the pool's, or a position of
    liquidity, carries a transaction signed by the key of that address. *)
Theorem spends_authorized verify pid txs w w' :
  world_ok pid w -> step verify pid txs w w' ->
  (forall a, a <> pool_account pid -> GetBalance w'.2 BTCVELD_TOKEN_ID a < GetBalance w.2 BTCVELD_TOKEN_ID a ->
     exists tx, tx ∈ txs /\ TxVerifiedSignedBy verify tx a = true)
  /\ (forall a, GetLp w'.1 pid a < GetLp w.1 pid a -> exists tx, tx ∈ txs /\ TxVerifiedSignedBy verify tx a = true).
Proof. intros W Hs. by destruct (step_spec _ _ _ _ _ W Hs) as (_ & _ & Hb & Hl). Qed.

(** A transfer signed by the sample key. *)
Definition sample_transfer : TokenOpData := mkTokenOp TRANSFER BTCVELD_TOKEN_ID sample_user sample_payee 2000 [].
Lemma sample_transfer_applies :
  exists T', ApplyTokenOp sample_verify sample_tokens sample_transfer sample_spend_tx 9500 sample_gate = Some T'
  /\ GetBalance T' BTCVELD_TOKEN_ID sample_user < GetBalance sample_tokens BTCVELD_TOKEN_ID sample_user.
Proof.
  assert (match ApplyTokenOp sample_verify sample_tokens sample_transfer sample_spend_tx 9500 sample_gate with
          | Some T' => GetBalance T' BTCVELD_TOKEN_ID sample_user <? GetBalance sample_tokens BTCVELD_TOKEN_ID sample_user
          | None => false end = true) as H.
  { unfold ApplyTokenOp, TxSignerAuthorized. change (op_from sample_transfer) with auth_address.
    rewrite (sample_signs sample_spend_tx ZeroHash 0).
    - vm_compute. reflexivity.
    - apply (bool_decide_unpack _). vm_compute. exact I.
    - split; vm_compute; congruence.
    - reflexivity. }
  destruct (ApplyTokenOp _ _ _ _ _ _) as [T'|]; [|discriminate H]. exists T'. split; [reflexivity|by apply Z.ltb_lt].
Qed.

Lemma spends_authorized_witness :
  exists T', step sample_verify sample_pid [sample_spend_tx] (sample_ledger, sample_tokens) (sample_ledger, T')
  /\ GetBalance T' BTCVELD_TOKEN_ID sample_user < GetBalance sample_tokens BTCVELD_TOKEN_ID sample_user
  /\ exists tx, tx ∈ [sample_spend_tx] /\ TxVerifiedSignedBy sample_verify tx sample_user = true.
Proof.
  destruct sample_transfer_applies as (T' & Hop & Hlt).
  pose proof (step_marker sample_verify sample_pid sample_ledger _ _ _ _ _ _ Hop) as Hs.
  exists T'. split; [exact Hs|]. split; [exact Hlt|].
  apply (proj1 (spends_authorized sample_verify sample_pid _ _ _ sample_world_ok Hs)); [|exact Hlt].
  apply (bool_decide_unpack _). vm_compute. exact I.
Defined.

(** The guard that admits a block and the transition that connects it agree, and the
    pool's output is under covenant. A validated block applies; a transaction in it that
    spends the pool's output is the block's only pool operation, and the pool's outpoint
    moves to the first output of that transaction. *)
Lemma validated_block_covenant verify pid L block T gate :
  ValidateBlock verify L pid block T gate = true ->
  exists L' T', ProcessBlock verify L pid block T gate = (L', T', true)
  /\ forall p tx, pools_ L !! pid = Some p -> exists_ p = true -> tx ∈ transactions block -> spends_pool_output p tx ->
       exists op p', sole_op (transactions block) None = Some (Some (tx, op))
       /\ pools_ L' !! pid = Some p' /\ pool_txid p' = GetTxID tx /\ pool_vout p' = 0 /\ utxo_valid p' = true.
Proof.
  intros (found & Hf & Hg & Hv)%ValidateBlock_inv. unfold ProcessBlock. rewrite Hf.
  destruct (MaybeCreatePool_guarded pid L (height block) gate) as [Elp Hpool].
  assert (forall p tx, pools_ L !! pid = Some p -> exists_ p = true -> tx ∈ transactions block -> spends_pool_output p tx ->
    exists op r, found = Some (tx, op) /\ guarded_pool pid L (height block) gate = Some p
    /\ ApplyAmmOpLocked verify pid p (lp_ L) op tx T false (height block) = Some r) as Hspend.
  { intros p tx Hp He Hin Hs. assert (guarded_pool pid L (height block) gate = Some p) as Hgp by (unfold guarded_pool; by rewrite Hp, He).
    destruct (validate_txs_spec verify pid p (lp_ L) T (height block) (transactions block) 0 tx (Hv p Hgp) Hin) as (op & r & Ho & Ha).
    { left. by apply spends_at_nonneg. }
    exists op, r. split_and!; [by eapply sole_op_unique|done|done]. }
  destruct found as [[tx op]|].
  2:{ eexists _, _. split; [reflexivity|]. intros p tx Hp He Hin Hs. by destruct (Hspend p tx Hp He Hin Hs) as (? & ? & ? & _). }
  rewrite Hg by done. cbn [negb]. rewrite Elp. destruct (guarded_pool pid L (height block) gate) as [p|] eqn:Egp.
  - destruct Hpool as [-> ->]. cbn [negb]. destruct (sole_op_in _ _ _ _ Hf) as [[Hin Hop]|]; [|done].
    destruct (validate_txs_spec verify pid p (lp_ L) T (height block) (transactions block) 0 tx (Hv p eq_refl) Hin) as (op' & [[p' lp'] T'] & Ho & Ha).
    { right. eauto. }
    assert (op' = op) as -> by congruence. rewrite Ha. eexists _, _. split; [reflexivity|].
    intros p1 tx1 Hp He Hin1 Hs. destruct (Hspend p1 tx1 Hp He Hin1 Hs) as (op1 & r & [= -> ->] & _ & _).
    exists op1, p'. split; [done|]. cbn [pools_]. rewrite lookup_insert_eq. split; [done|]. by eapply applied_outpoint.
  - exists L, T. split.
    + destruct (pools_ (MaybeCreatePool L pid (height block) gate) !! pid) as [p|]; [by rewrite Hpool|done].
    + intros p1 tx1 Hp He Hin1 Hs. by destruct (Hspend p1 tx1 Hp He Hin1 Hs) as (? & ? & _ & ? & _).
Qed.

Lemma validated_block_covenant_witness :
  exists L' T', ProcessBlock sample_verify sample_ledger sample_pid sample_block sample_tokens sample_gate = (L', T', true)
  /\ exists p', pools_ L' !! sample_pid = Some p' /\ pool_txid p' = GetTxID sample_swap_tx.
Proof.
  destruct (validated_block_covenant sample_verify sample_pid sample_ledger sample_block sample_tokens sample_gate) as (L' & T' & Hp & Hs).
  { vm_compute. reflexivity. }
  exists L', T'. split; [exact Hp|].
  destruct (Hs sample_pool sample_swap_tx sample_lookup) as (op & p' & _ & Hp' & Ht & _);
    [reflexivity|apply list_elem_of_here| |exists p'; split; [exact Hp'|exact Ht]].
  split; [reflexivity|]. exists (mkInput (GetTxID sample_seed_tx) 0 [] 0xFFFFFFFF). split; [apply list_elem_of_here|].
  split; reflexivity.
Defined.

(** C29: the fee of a swap is the one the trade itself justifies. For 64-bit reserves and
    anchors, a quote is accepted at a fee exactly when the fee model is active and the pool
    can trade, and the fee is the flat one where that applies, and otherwise the only fee
    of the schedule that equals the fee of the state the trade leaves when charged it. The
    accepted quote pays the floor of the constant-product output less that fee, and the
    product of the reserves does not fall. *)
Theorem swap_quote_exact p veld_in amt h fee :
  0 <= reserve_veld p <= INT64_MAX -> 0 <= reserve_btcveld p <= INT64_MAX ->
  0 <= anchor_veld p <= INT64_MAX -> 0 <= anchor_btcveld p <= INT64_MAX -> amt <= INT64_MAX ->
  let q := QuoteSwapLocked p veld_in amt h in
  (reject q = false /\ q_fee_bps q = fee
   <-> FourBandActive h = true /\ exists_ p = true /\ quotable p veld_in amt /\ charged p veld_in amt h fee)
  /\ (reject q = false ->
      amount_out q = net_of p veld_in amt (q_fee_bps q) /\ fee_out q = gross_of p veld_in amt - amount_out q
      /\ post_reserve_veld q = post_veld p veld_in amt (q_fee_bps q)
      /\ post_reserve_btcveld q = post_btc p veld_in amt (q_fee_bps q)
      /\ reserve_veld p * reserve_btcveld p <= post_reserve_veld q * post_reserve_btcveld q).
Proof.
  intros Bv Bb Bav Bab Bamt q. split.
  - split.
    + intros [Hr <-]. destruct (quote_accepted p veld_in amt h Bv Bb Bav Bab Bamt Hr) as (Hq & Hc & _).
      destruct (quote_open p veld_in amt h Hr). done.
    + intros (H4 & He & Hq & Hc). by apply quote_complete.
  - intros Hr. destruct (quote_accepted p veld_in amt h Bv Bb Bav Bab Bamt Hr) as (Hq & Hc & Eg & Eo & Ef & Ev & Eb).
    fold q in Hc, Eg, Eo, Ef, Ev, Eb. rewrite Eg in Ef. split_and!; try done. rewrite Ev, Eb. apply product_kept; [done|]. by eapply charged_range.
Qed.

Lemma swap_quote_exact_witness :
  let q := QuoteSwapLocked sample_pool true 1000000000 5000 in
  reject q = false /\ q_fee_bps q = 30 /\ amount_out q = net_of sample_pool true 1000000000 (q_fee_bps q).
Proof.
  assert (H : reject (QuoteSwapLocked sample_pool true 1000000000 5000) = false) by (vm_compute; reflexivity).
  split; [exact H|]. split; [vm_compute; reflexivity|].
  exact (proj1 (proj2 (swap_quote_exact sample_pool true 1000000000 5000 30 ltac:(split; apply Z.leb_le; vm_compute; reflexivity)
    ltac:(split; apply Z.leb_le; vm_compute; reflexivity) ltac:(split; apply Z.leb_le; vm_compute; reflexivity)
    ltac:(split; apply Z.leb_le; vm_compute; reflexivity) ltac:(apply Z.leb_le; vm_compute; reflexivity)) H)).
Defined.
