(* ===== verification/TokenBlock.v ===== *)
(** * Blocks of the token ledger ([core/onchain_tokens.h])

    Token markers and their text form, the reserve transition that a proof carries, the
    permissionless path for payouts, and the transition of a block, in the public-mainnet
    profile.  [money] is the account; the other fields are the nullifier accumulator, the
    rolling commitments and the feeds that later modules of the block read.  The reservation
    records, which stay empty in this profile, the work window, which only the retired
    issuer path reads, and the bounded history for user interfaces are not part of the
    record. *)
From S2P Require Import Prelude Limbs Bytes Sha256 StateDigest MintNullifier Profile Transaction Block Address OpAuthorization.
From S2P Require Import Marker FinalityCodec AmmMath BtcHeaderChain BtcTx SignerBond Reserve ReserveProof TokenLedger.
Import OnChainTokenLedger.

Definition TOKEN_OP_RETURN_PREFIX : bytes := b:"VELD_TOKEN|".
Definition PUBLIC_CARRIER_PREFIX : bytes := b:"VELD_RSV1|".
Definition ISSUER_MEMO_PREFIX : bytes := b:"RTP1:".
Definition RESERVED_ISSUER_MEMO_PREFIX : bytes := b:"MNP2;".
Definition MSPV_PREFIX : bytes := b:"VELD_MSPV|".
Definition RSV_FAMILY : bytes := b:"VELD_RSV".
Definition MAX_TOKEN_OP_PAYLOAD_BYTES : Z := 65535.
Definition MAX_TOKEN_ACCOUNT_BYTES : Z := 128.
Definition MAX_TOKEN_GENERAL_MEMO_BYTES : Z := 512.
Definition MAX_TOKEN_MEMO_BYTES : Z := 64000.
Definition MAX_TOKEN_FUND_MEMO_BYTES : Z := 40000.
Definition BTCVELD_SPV_K_BTC : Z := 144.
Definition BTCVELD_SPV_CUSTODY_SPK_HEX : bytes :=
  b:"5120e1375941632c9404dd62c8c5d75449feccf1271b4b8f083dcd054784203a782e".

(** A production custody output is a taproot output; anything else fails closed. *)
Definition BtcVeldCustodySpk : bytes :=
  let configured := BtcVeldHex_ BTCVELD_SPV_CUSTODY_SPK_HEX in
  if negb (size configured =? 34) || negb (nth 0 configured 0 =? 0x51) || negb (nth 1 configured 0 =? 0x20) then []
  else configured.

Definition CompletionAllowed (g : BtcVeldPegGateState) : bool := unlocked g.

(** ** Text form of token operations *)

Definition action_text (a : TokenAction) : bytes :=
  match a with
  | MINT => b:"MINT" | TRANSFER => b:"TRANSFER" | REDEEM => b:"REDEEM" | RESERVE => b:"RESERVE"
  | EXPOSE => b:"EXPOSE" | CANCEL => b:"CANCEL" | FUND => b:"FUND"
  end.

Definition action_of (t : bytes) : option TokenAction :=
  if bytes_eqb t b:"MINT" then Some MINT else if bytes_eqb t b:"TRANSFER" then Some TRANSFER
  else if bytes_eqb t b:"REDEEM" then Some REDEEM else if bytes_eqb t b:"RESERVE" then Some RESERVE
  else if bytes_eqb t b:"EXPOSE" then Some EXPOSE else if bytes_eqb t b:"CANCEL" then Some CANCEL
  else if bytes_eqb t b:"FUND" then Some FUND else None.

Definition EncodeTokenOp (d : TokenOpData) : bytes :=
  TOKEN_OP_RETURN_PREFIX ++ action_text (action d) ++ [PIPE] ++ token_id d ++ [PIPE] ++ op_from d ++ [PIPE] ++ op_to d
  ++ [PIPE] ++ to_string (op_amount d) ++ [PIPE] ++ op_memo d.

(** [std::getline] with a bar: the fields, without an empty one after a final bar. *)
Fixpoint bar_fields (s acc : bytes) : list bytes :=
  match s with
  | [] => match acc with [] => [] | _ => [acc] end
  | c :: s' => if c =? PIPE then acc :: bar_fields s' [] else bar_fields s' (acc ++ [c])
  end.

(** The memo: the remaining fields with their bars. *)
Fixpoint join_bars (parts : list bytes) : bytes :=
  match parts with
  | [] => []
  | [p] => p
  | p :: parts' => p ++ [PIPE] ++ join_bars parts'
  end.

(** Decimal digits without a leading zero, up to the largest signed 64-bit value. *)
Definition parse_amount (t : bytes) : option Z :=
  if size t =? 0 then None
  else if (size t >? 1) && (nth 0 t 0 =? 48) then None
  else if negb (forallb (fun c => (48 <=? c) && (c <=? 57)) t) then None
  else if INT64_MAX <? dec_val t then None
  else if dec_val t <=? 0 then None
  else Some (dec_val t).

Definition memo_limit (a : TokenAction) (token : bytes) : Z :=
  if bool_decide (a = FUND) && bytes_eqb token BTCVELD_TOKEN_ID then MAX_TOKEN_FUND_MEMO_BYTES
  else if bool_decide (a = MINT) && bytes_eqb token BTCVELD_TOKEN_ID then MAX_TOKEN_MEMO_BYTES
  else MAX_TOKEN_GENERAL_MEMO_BYTES.

Definition DecodeTokenOp (data : bytes) : option TokenOpData :=
  if MAX_TOKEN_OP_PAYLOAD_BYTES <? size data then None
  else if negb (starts_with TOKEN_OP_RETURN_PREFIX data) then None
  else match bar_fields (drop (length TOKEN_OP_RETURN_PREFIX) data) [] with
       | a :: tok :: from :: to :: amount :: memo =>
           match action_of a with
           | None => None
           | Some act =>
               if (size tok =? 0) || (MAX_TOKEN_ID_BYTES <? size tok) || (MAX_TOKEN_ACCOUNT_BYTES <? size from)
                  || (MAX_TOKEN_ACCOUNT_BYTES <? size to) then None
               else match parse_amount amount with
                    | None => None
                    | Some v =>
                        let d := mkTokenOp act tok from to v (join_bars memo) in
                        if (memo_limit act tok <? size (op_memo d)) || negb (bytes_eqb (EncodeTokenOp d) data) then None
                        else Some d
                    end
           end
       | _ => None
       end.

(** ** Marker families *)

Definition IsReservePublicFamilyLocked_ (data : bytes) : bool := starts_with RSV_FAMILY data.

Definition IsReserveIssuerCarrierLocked_ (op : TokenOpData) : bool :=
  bytes_eqb (token_id op) BTCVELD_TOKEN_ID && bool_decide (action op = MINT) && starts_with ISSUER_MEMO_PREFIX (op_memo op).

Definition RawClaimsBtcVeldTokenFamilyLocked_ (data : bytes) : bool :=
  if negb (starts_with TOKEN_OP_RETURN_PREFIX data) then false
  else match split_at PIPE (drop (length TOKEN_OP_RETURN_PREFIX) data) with
       | None => false
       | Some (_, rest) => match split_at PIPE rest with
                           | None => false
                           | Some (token, _) => bytes_eqb token BTCVELD_TOKEN_ID
                           end
       end.

Definition marker_data (tx : Transaction) : list bytes := map (fun o => ParseOpReturn (script_pubkey o)) (outputs tx).

Definition is_carrier (data : bytes) : bool :=
  if IsReservePublicFamilyLocked_ data then true
  else if negb (starts_with TOKEN_OP_RETURN_PREFIX data) then false
  else match DecodeTokenOp data with Some op => IsReserveIssuerCarrierLocked_ op | None => false end.

Definition CountReserveTransitionCarriersLocked_ (tx : Transaction) : Z :=
  foldl (fun n data => if is_carrier data then n + 1 else n) 0 (marker_data tx).

(** Whether one output makes a transaction reserve-sensitive. *)
Definition sensitive_data (data : bytes) : bool :=
  if IsReservePublicFamilyLocked_ data || starts_with MSPV_PREFIX data then true
  else if negb (starts_with TOKEN_OP_RETURN_PREFIX data) then false
  else match DecodeTokenOp data with
       | Some op => if negb (bytes_eqb (token_id op) BTCVELD_TOKEN_ID) then RawClaimsBtcVeldTokenFamilyLocked_ data
                    else negb (bool_decide (action op = TRANSFER))
       | None => RawClaimsBtcVeldTokenFamilyLocked_ data
       end.
Definition HasReserveSensitiveMarkerLocked_ (tx : Transaction) : bool := existsb sensitive_data (marker_data tx).

Definition c1_data (data : bytes) : bool :=
  if negb (starts_with TOKEN_OP_RETURN_PREFIX data) then false
  else match DecodeTokenOp data with
       | Some op =>
           if negb (bytes_eqb (token_id op) BTCVELD_TOKEN_ID) then RawClaimsBtcVeldTokenFamilyLocked_ data
           else match action op with
                | RESERVE | EXPOSE | CANCEL | FUND => true
                | MINT => starts_with RESERVED_ISSUER_MEMO_PREFIX (op_memo op)
                | _ => false
                end
       | None => RawClaimsBtcVeldTokenFamilyLocked_ data
       end.
Definition HasC1ReservationMarkerLocked_ (tx : Transaction) : bool := existsb c1_data (marker_data tx).

Definition IsC1CompletionMintLocked_ (op : TokenOpData) : bool :=
  bool_decide (action op = MINT) && starts_with RESERVED_ISSUER_MEMO_PREFIX (op_memo op).

Definition forbidden_data (gate : BtcVeldPegGateState) (data : bytes) : bool :=
  if starts_with MSPV_PREFIX data then true
  else if negb (starts_with TOKEN_OP_RETURN_PREFIX data) then false
  else match DecodeTokenOp data with
       | None => false
       | Some op =>
           if negb (bytes_eqb (token_id op) BTCVELD_TOKEN_ID) then false
           else match action op with
                | RESERVE | EXPOSE | CANCEL | FUND => true
                | MINT =>
                    if negb (IsReserveIssuerCarrierLocked_ op) then true
                    else let completion := IsC1CompletionMintLocked_ op in
                         (negb completion && negb (MintAllowed gate)) || (completion && negb (CompletionAllowed gate))
                | REDEEM => negb (RedeemAllowed gate)
                | TRANSFER => false
                end
       end.
Definition HasForbiddenBtcVeldMarkerLocked_ (tx : Transaction) (gate : BtcVeldPegGateState) : bool :=
  existsb (forbidden_data gate) (marker_data tx).

(** ** Redemption requests *)

Definition context_of (r : RedeemRequest) : PayoutContext :=
  mkPayout true (rq_request_id r) (rq_request_commitment r) (rq_amount_sats r) (dest_spk r).

(** ** Rolling commitments *)

(** [IsValidBtcOutpointId]: sixty-four lower-case hexadecimal digits, a colon, and a 32-bit
    index without leading zeros. *)
Definition IsValidBtcOutpointId (s : bytes) : bool :=
  if size s <? 66 then false
  else if negb (nth 64 s 0 =? 58) then false
  else if negb (forallb (fun c => ((48 <=? c) && (c <=? 57)) || ((97 <=? c) && (c <=? 102))) (take 64 s)) then false
  else
    let digits := drop 65 s in
    if (size digits =? 0) || (size digits >? 10) then false
    else if negb (forallb (fun c => (48 <=? c) && (c <=? 57)) digits) then false
    else if (size digits >? 1) && (nth 0 digits 0 =? 48) then false
    else dec_val digits <=? UINT32_MAX.

Definition BTCVELD_REDEEM_COMMITMENT_DOMAIN : bytes := b:"VELD_BTCVELD_REDEEM_COMMITMENT_v1|".
Definition BTCVELD_MINT_EFFECT_COMMITMENT_DOMAIN : bytes := b:"VELD/BTCVELD/MINT_ACCEPTED_EFFECT/v2".
Definition EmptyBtcVeldRedeemCommitment : Hash256 := sha256_domain BTCVELD_REDEEM_COMMITMENT_DOMAIN [].
Definition EmptyBtcVeldMintEffectCommitment : Hash256 := sha256_domain BTCVELD_MINT_EFFECT_COMMITMENT_DOMAIN [].

(** A record of a redemption; [timestamp] is the local clock and is not kept. *)
Record TokenTransferRecord := mkTransfer {
  tr_txid : bytes; tr_vout : Z; tr_token_id : bytes; tr_from : bytes; tr_to : bytes; tr_amount : Z;
  tr_block_height : Z; tr_memo : bytes; tr_is_mint : bool; tr_is_burn : bool; tr_is_redeem : bool }.

Definition flag_byte (b : bool) : Z := if b then 1 else 0.

(** [None] is [std::invalid_argument]. *)
Definition ExtendBtcVeldRedeemCommitment (previous : Hash256) (r : TokenTransferRecord) (block_hash : Hash256)
  : option Hash256 :=
  if negb (tr_is_redeem r) || tr_is_mint r || tr_is_burn r || negb (size (tr_to r) =? 0)
     || negb (bytes_eqb (tr_token_id r) BTCVELD_TOKEN_ID) || (size (tr_txid r) =? 0) || (tr_amount r <=? 0) then None
  else Some (sha256_domain BTCVELD_REDEEM_COMMITMENT_DOMAIN
    (put_bytes previous ++ put_bytes block_hash ++ put_len_prefixed (tr_txid r) ++ put_u32_le (tr_vout r)
     ++ put_len_prefixed (tr_token_id r) ++ put_len_prefixed (tr_from r) ++ put_len_prefixed (tr_to r)
     ++ put_u64_le (u64 (tr_amount r)) ++ put_u64_le (tr_block_height r) ++ put_len_prefixed (tr_memo r)
     ++ put_u8 (flag_byte (tr_is_mint r)) ++ put_u8 (flag_byte (tr_is_burn r)) ++ put_u8 (flag_byte (tr_is_redeem r)))).

(** The transition a mint leaves for the index: its effect is always MINT here. *)
Record BtcVeldMintTransition := mkMint {
  mt_tx_index : Z; mt_marker_vout : Z; mt_txid : bytes; mt_outpoint : bytes; mt_proof : bytes;
  mt_old_root : Hash256; mt_new_root : Hash256 }.

Definition ExtendBtcVeldMintEffectCommitment (previous : Hash256) (height : Z) (t : BtcVeldMintTransition)
  : option Hash256 :=
  if (mt_tx_index t =? UINT32_MAX) || negb (size (mt_txid t) =? 64) || negb (IsValidBtcOutpointId (mt_outpoint t))
     || bytes_eqb (mt_old_root t) (mt_new_root t) then None
  else Some (sha256_domain BTCVELD_MINT_EFFECT_COMMITMENT_DOMAIN
    (put_bytes previous ++ put_u64_le height ++ put_u32_le (mt_tx_index t) ++ put_u32_le (mt_marker_vout t)
     ++ put_len_prefixed (mt_txid t) ++ put_len_prefixed (mt_outpoint t) ++ put_len_prefixed b:"MINT"
     ++ put_len_prefixed [] ++ put_bytes (mt_old_root t) ++ put_bytes (mt_new_root t))).

(** ** State *)

Record BtcVeldReservePayoutTransition := mkPaid {
  pt_request_id : Hash256; pt_payout_txid : Hash256; pt_principal_sats : Z; pt_destination_spk : bytes }.

Record TokenState := mkTokens {
  money : OnChainTokenLedger.t;
  mint_nullifier_root_ : Hash256;
  mint_nullifier_count_ : Z;
  mint_effect_root_ : Hash256;
  mint_effect_count_ : Z;
  redeem_commitment_root_ : Hash256;
  redeem_commitment_count_ : Z;
  processed_ : Z * Hash256;
  last_block_redeems_ : list TokenTransferRecord;
  last_block_mint_transitions_ : list BtcVeldMintTransition;
  last_block_reserve_payouts_ : list BtcVeldReservePayoutTransition;
  last_block_reserve_edges_ : Z }.

(** [Reset] *)
Definition NoTokens : TokenState :=
  mkTokens Empty EmptyRoot 0 EmptyBtcVeldMintEffectCommitment 0 EmptyBtcVeldRedeemCommitment 0 (0, ZeroHash) [] [] [] 0.

(** Assignments. *)
Definition with_ledger (S : TokenState) (L : OnChainTokenLedger.t) : TokenState :=
  mkTokens L (mint_nullifier_root_ S) (mint_nullifier_count_ S) (mint_effect_root_ S) (mint_effect_count_ S)
    (redeem_commitment_root_ S) (redeem_commitment_count_ S) (processed_ S) (last_block_redeems_ S)
    (last_block_mint_transitions_ S) (last_block_reserve_payouts_ S) (last_block_reserve_edges_ S).
Definition with_reserve_state (S : TokenState) (r : State) : TokenState :=
  with_ledger S (with_money (money S) (balances_ (money S)) (supply_ (money S)) r).
Definition with_nullifier (S : TokenState) (root : Hash256) (count : Z) (effect : Hash256) (effects : Z)
    (t : BtcVeldMintTransition) : TokenState :=
  mkTokens (money S) root count effect effects (redeem_commitment_root_ S) (redeem_commitment_count_ S) (processed_ S)
    (last_block_redeems_ S) (last_block_mint_transitions_ S ++ [t]) (last_block_reserve_payouts_ S)
    (last_block_reserve_edges_ S).
Definition with_redeem (S : TokenState) (r : TokenTransferRecord) : TokenState :=
  mkTokens (money S) (mint_nullifier_root_ S) (mint_nullifier_count_ S) (mint_effect_root_ S) (mint_effect_count_ S)
    (redeem_commitment_root_ S) (redeem_commitment_count_ S) (processed_ S) (last_block_redeems_ S ++ [r])
    (last_block_mint_transitions_ S) (last_block_reserve_payouts_ S) (last_block_reserve_edges_ S).
Definition with_reserve_payout (S : TokenState) (p : BtcVeldReservePayoutTransition) : TokenState :=
  mkTokens (money S) (mint_nullifier_root_ S) (mint_nullifier_count_ S) (mint_effect_root_ S) (mint_effect_count_ S)
    (redeem_commitment_root_ S) (redeem_commitment_count_ S) (processed_ S) (last_block_redeems_ S)
    (last_block_mint_transitions_ S) (last_block_reserve_payouts_ S ++ [p]) (last_block_reserve_edges_ S).
Definition with_edges (S : TokenState) (n : Z) : TokenState :=
  mkTokens (money S) (mint_nullifier_root_ S) (mint_nullifier_count_ S) (mint_effect_root_ S) (mint_effect_count_ S)
    (redeem_commitment_root_ S) (redeem_commitment_count_ S) (processed_ S) (last_block_redeems_ S)
    (last_block_mint_transitions_ S) (last_block_reserve_payouts_ S) n.
Definition with_commitment (S : TokenState) (root : Hash256) (count : Z) (processed : Z * Hash256) : TokenState :=
  mkTokens (money S) (mint_nullifier_root_ S) (mint_nullifier_count_ S) (mint_effect_root_ S) (mint_effect_count_ S)
    root count processed (last_block_redeems_ S) (last_block_mint_transitions_ S) (last_block_reserve_payouts_ S)
    (last_block_reserve_edges_ S).
(** The feeds are emptied at the start of a block. *)
Definition cleared (S : TokenState) : TokenState :=
  mkTokens (money S) (mint_nullifier_root_ S) (mint_nullifier_count_ S) (mint_effect_root_ S) (mint_effect_count_ S)
    (redeem_commitment_root_ S) (redeem_commitment_count_ S) (processed_ S) [] [] [] 0.

Definition supply_of (S : TokenState) : Z := default 0 (supply_ (money S) !! BTCVELD_TOKEN_ID).

(** How a call ends.  [Threw] is an exception: the node restores its snapshot, and the state
    returned with it stands for nothing. *)
Inductive Verdict := Yes | No | Threw.

#[global] Instance Verdict_eq_dec : EqDecision Verdict.
Proof. solve_decision. Defined.

(** ** Operations *)

Section Operations.
Context (crypto_sign_verify : bytes -> bytes -> bytes -> bool).
Context (cfg : BtcHeaderChain.Config) (btc_headers : option BtcHeaderChain.t) (redeem_covenant : option (list RedeemRequest)).

(** The payout a claim refers to; [None] when a payout has no open request. *)
Definition payout_context (c : Claim) : option PayoutContext :=
  if bool_decide (operation c = PAYOUT) then
    match redeem_covenant with
    | None => None
    | Some requests => match FindOpenByCommitmentCopy requests (exact_commitment c) with
                       | Some r => Some (context_of r)
                       | None => None
                       end
    end
  else Some NoPayout.

(** An issuer carrier is a relay that the issuer signed. *)
Definition wrapper_allowed (S : TokenState) (wrapper : option TokenOpData) (tx : Transaction) : bool :=
  match wrapper with
  | None => true
  | Some w =>
      bool_decide (action w = MINT) && bytes_eqb (token_id w) BTCVELD_TOKEN_ID && negb (size (op_from w) =? 0)
      && negb (size (op_to w) =? 0) && (0 <? op_amount w)
      && match tokens_ (money S) !! BTCVELD_TOKEN_ID with
         | Some token => bytes_eqb (ti_issuer token) (op_from w)
         | None => false
         end
      && TxSignerAuthorized crypto_sign_verify tx (op_from w)
  end.

(** It must repeat what the proof shows. *)
Definition wrapper_matches (wrapper : option TokenOpData) (v : Result) : bool :=
  match wrapper with
  | None => true
  | Some w => consumes_deposit (operation (claim v)) && (mint_amount (claim v) =? u64 (op_amount w))
              && bytes_eqb (recipient v) (op_to w)
  end.

(** The nullifier of a deposit that the transition consumes. *)
Definition consume_deposit (S : TokenState) (v : Result) (txid : bytes) (height tx_index marker_vout : Z)
  : TokenState * Verdict :=
  if negb (has_nullifier_proof (claim v)) || negb (IsValidBtcOutpointId (pending_outpoint v))
     || (mint_nullifier_count_ S =? UINT64_MAX)
     || (negb (tx_index =? UINT32_MAX) && (mint_effect_count_ S =? UINT64_MAX)) then (S, No)
  else match Insert (mint_nullifier_root_ S) (pending_outpoint v) (nullifier_proof (claim v)) with
       | None => (S, No)
       | Some new_root =>
           let proof := MintNullifier.EncodeProof (nullifier_proof (claim v)) in
           if size proof =? 0 then (S, No)
           else
             let t := mkMint tx_index marker_vout txid (pending_outpoint v) proof (mint_nullifier_root_ S) new_root in
             if tx_index =? UINT32_MAX then
               (with_nullifier S new_root (mint_nullifier_count_ S + 1) (mint_effect_root_ S) (mint_effect_count_ S) t, Yes)
             else match ExtendBtcVeldMintEffectCommitment (mint_effect_root_ S) height t with
                  | None => (S, Threw)
                  | Some effect =>
                      (with_nullifier S new_root (mint_nullifier_count_ S + 1) effect (mint_effect_count_ S + 1) t, Yes)
                  end
       end.

(** What follows the verifier: every check that refuses comes before the first assignment. *)
Definition apply_transition (S : TokenState) (v : Result) (txid : bytes) (height tx_index marker_vout : Z)
  : TokenState * Verdict :=
  match apply_verified (money S) v with
  | None => (S, No)
  | Some L =>
      let '(S1, verdict) := if consumes_deposit (operation (claim v)) then consume_deposit S v txid height tx_index marker_vout
                            else (S, Yes) in
      match verdict with
      | Yes =>
          let S2 := with_ledger S1 L in
          (if bool_decide (operation (claim v) = PAYOUT) then
             with_reserve_payout S2 (mkPaid (payout_request_id v) (bitcoin_txid (claim v)) (payout_principal_sats v)
                                       (payout_destination_spk v))
           else S2, Yes)
      | other => (S1, other)
      end
  end.

Definition MaybeApplyReserveTransitionLocked_ (S : TokenState) (proof : bytes) (wrapper : option TokenOpData)
    (tx : Transaction) (height : Z) (gate : BtcVeldPegGateState) (tx_index marker_vout : Z) : TokenState * Verdict :=
  match btc_headers with
  | None => (S, No)
  | Some headers =>
      if (size proof =? 0) || negb (bool_decide (is_Some (tokens_ (money S) !! BTCVELD_TOKEN_ID))) then (S, No)
      else if negb (wrapper_allowed S wrapper tx) then (S, No)
      else match DecodeProof proof with
           | None => (S, No)
           | Some decoded =>
               let creates_exposure := consumes_deposit (operation decoded) in
               if (creates_exposure && negb (MintAllowed gate)) || (negb creates_exposure && negb (CompletionAllowed gate))
               then (S, No)
               else match payout_context decoded with
                    | None => (S, No)
                    | Some payout =>
                        if supply_of S <? 0 then (S, No)
                        else match Verify BtcVeldCustodySpk IsCanonicalTokenCreditAddress cfg headers
                                     (reserve_state_ (money S)) (supply_of S) proof BTCVELD_SPV_K_BTC payout with
                             | None => (S, No)
                             | Some v => if negb (wrapper_matches wrapper v) then (S, No)
                                         else apply_transition S v (HashToHex (GetTxID tx)) height tx_index marker_vout
                             end
                    end
           end
  end.

(** [ApplyTokenOp] with its record of a redemption. *)
Definition apply_token_op (S : TokenState) (op : TokenOpData) (tx : Transaction) (height : Z) (gate : BtcVeldPegGateState)
    (vout : Z) : option TokenState :=
  match ApplyTokenOp crypto_sign_verify (money S) op tx height gate with
  | None => None
  | Some L =>
      let S1 := with_ledger S L in
      Some (if bool_decide (action op = REDEEM) then
              with_redeem S1 (mkTransfer (HashToHex (GetTxID tx)) vout (token_id op) (op_from op) (op_to op) (op_amount op)
                                height (op_memo op) false false true)
            else S1)
  end.

Definition is_marker (data : bytes) : bool :=
  starts_with MSPV_PREFIX data || IsReservePublicFamilyLocked_ data || starts_with TOKEN_OP_RETURN_PREFIX data.

(** The proof a carrier holds, in canonical hexadecimal. *)
Definition carried_proof (prefix text : bytes) : option bytes :=
  let proof := BtcVeldHex_ (drop (length prefix) text) in
  if (size proof =? 0) || negb (bytes_eqb text (prefix ++ BytesToHex proof)) then None else Some proof.

(** One output that carries a marker. *)
Definition apply_marker (S : TokenState) (data : bytes) (tx : Transaction) (height : Z) (gate : BtcVeldPegGateState)
    (tx_index vout : Z) : TokenState * Verdict :=
  if IsReservePublicFamilyLocked_ data then
    if negb (starts_with PUBLIC_CARRIER_PREFIX data) then (S, No)
    else match carried_proof PUBLIC_CARRIER_PREFIX data with
         | None => (S, No)
         | Some proof => MaybeApplyReserveTransitionLocked_ S proof None tx height gate tx_index vout
         end
  else if starts_with MSPV_PREFIX data then (S, No)
  else match DecodeTokenOp data with
       | None => (S, No)
       | Some op =>
           if IsReserveIssuerCarrierLocked_ op then
             match carried_proof ISSUER_MEMO_PREFIX (op_memo op) with
             | None => (S, No)
             | Some proof => MaybeApplyReserveTransitionLocked_ S proof (Some op) tx height gate tx_index vout
             end
           else match apply_token_op S op tx height gate vout with
                | None => (S, No)
                | Some S' => (S', Yes)
                end
       end.

(** The second loop of [ApplyTransactionMarkersLocked_]. *)
Fixpoint marker_loop (S : TokenState) (applied : bool) (vout : Z) (datas : list bytes) (tx : Transaction) (height : Z)
    (gate : BtcVeldPegGateState) (tx_index : Z) : TokenState * Verdict :=
  match datas with
  | [] => (S, if applied then Yes else No)
  | data :: datas' =>
      if negb (is_marker data) then marker_loop S applied (vout + 1) datas' tx height gate tx_index
      else if applied then (S, No)
      else match apply_marker S data tx height gate tx_index vout with
           | (S', Yes) => marker_loop S' true (vout + 1) datas' tx height gate tx_index
           | other => other
           end
  end.

Definition marker_count (tx : Transaction) : Z :=
  foldl (fun n data => if is_marker data then n + 1 else n) 0 (marker_data tx).

Definition ApplyTransactionMarkersLocked_ (S : TokenState) (tx : Transaction) (height : Z) (gate : BtcVeldPegGateState)
    (tx_index : Z) : TokenState * Verdict :=
  if 1 <? marker_count tx then (S, No)
  else match marker_loop S false 0 (marker_data tx) tx height gate tx_index with
       | (S', No) => (S', if marker_count tx =? 0 then Yes else No)
       | other => other
       end.

(** ** Blocks *)

(** The transactions in order; a strict one that is not applied refuses the block. *)
Fixpoint apply_transactions (S : TokenState) (tx_index : Z) (txs : list Transaction) (height : Z)
    (gate : BtcVeldPegGateState) : TokenState * Verdict :=
  match txs with
  | [] => (S, Yes)
  | tx :: txs' =>
      let strict := HasC1ReservationMarkerLocked_ tx || HasReserveSensitiveMarkerLocked_ tx in
      match ApplyTransactionMarkersLocked_ S tx height gate (u32 tx_index) with
      | (S', Threw) => (S', Threw)
      | (S', v) => if strict && bool_decide (v = No) then (S', No)
                   else apply_transactions S' (tx_index + 1) txs' height gate
      end
  end.

(** [std::sort] by transaction id and output. *)
Definition redeem_lt (a b : TokenTransferRecord) : bool :=
  if negb (bytes_eqb (tr_txid a) (tr_txid b)) then lex_lt (tr_txid a) (tr_txid b) else tr_vout a <? tr_vout b.
Fixpoint insert_redeem (r : TokenTransferRecord) (l : list TokenTransferRecord) : list TokenTransferRecord :=
  match l with [] => [r] | x :: l' => if redeem_lt r x then r :: l else x :: insert_redeem r l' end.
Definition sort_redeems (l : list TokenTransferRecord) : list TokenTransferRecord := foldr insert_redeem [] l.

(** The commitment over the block's redemptions; [None] is an exception. *)
Fixpoint commit_redeems (l : list TokenTransferRecord) (root : Hash256) (count : Z) (block_hash : Hash256)
  : option (Hash256 * Z) :=
  match l with
  | [] => Some (root, count)
  | r :: l' =>
      if negb (bytes_eqb (tr_token_id r) BTCVELD_TOKEN_ID) then commit_redeems l' root count block_hash
      else if count =? UINT64_MAX then None
      else match ExtendBtcVeldRedeemCommitment root r block_hash with
           | None => None
           | Some root' => commit_redeems l' root' (count + 1) block_hash
           end
  end.

(** Whether the reserve's Bitcoin block is no longer final; [None] without a header chain. *)
Definition bitcoin_reorg_freeze (r : State) : option bool :=
  if bool_decide (status r = ACTIVE) then
    match btc_headers with
    | None => None
    | Some headers => Some (negb (BtcHeaderChain.IsFinalForExternalValue cfg headers (reserve_bitcoin_block r) BTCVELD_SPV_K_BTC))
    end
  else Some false.

(** After the transactions: the commitments, the processed block and the account. *)
Definition finish_block (S : TokenState) (height : Z) (block_hash : Hash256) (count_before : Z) : TokenState * Verdict :=
  match commit_redeems (sort_redeems (last_block_redeems_ S)) (redeem_commitment_root_ S) (redeem_commitment_count_ S)
          block_hash with
  | None => (S, Threw)
  | Some (root, count) =>
      let S1 := with_commitment S root count (height, block_hash) in
      if supply_of S1 <? 0 then (S1, No)
      else match SetProcessed (reserve_state_ (money S1)) height block_hash with
           | None => (S1, No)
           | Some r =>
               let S2 := with_reserve_state S1 r in
               if negb (AccountingHolds r (supply_of S1)) then (S2, No)
               else if transition_count r =? count_before then (S2, Yes)
               else if (count_before =? UINT64_MAX) || negb (transition_count r =? count_before + 1) then (S2, No)
               else (with_edges S2 1, Yes)
           end
  end.

Definition ProcessBlock (S : TokenState) (block : Block) (gate : BtcVeldPegGateState) : TokenState * Verdict :=
  let block_hash := BlockHeaderOps.GetHash (header block) in
  let h := height block in
  let txs := transactions block in
  let r := reserve_state_ (money S) in
  if (supply_of S <? 0) || negb (AccountingHolds r (supply_of S)) || (h <? processed_veld_height r)
     || ((h =? processed_veld_height r) && negb (HashIsZero (processed_veld_block_hash r))
         && negb (bytes_eqb (processed_veld_block_hash r) block_hash)) then (S, No)
  else
    let carriers := foldl (fun n tx => n + CountReserveTransitionCarriersLocked_ tx) 0 txs in
    if 1 <? carriers then (S, No)
    else match bitcoin_reorg_freeze r with
         | None => (S, No)
         | Some freeze =>
             if freeze && negb (carriers =? 0) then (S, No)
             else if existsb (fun tx => HasForbiddenBtcVeldMarkerLocked_ tx gate) txs then (S, No)
             else
               let strict := existsb HasReserveSensitiveMarkerLocked_ txs || freeze
                             || existsb HasC1ReservationMarkerLocked_ txs in
               let rollback (now : TokenState) := if strict then S else now in
               match (if freeze then ApplyFreeze r (reserve_txid r) (reserve_bitcoin_block r) else Some r) with
               | None => (rollback S, No)
               | Some r1 =>
                   let S1 := cleared (with_reserve_state S r1) in
                   let S2 := with_ledger S1 (MaybeRegisterBtcVeld (money S1) h) in
                   match apply_transactions S2 0 txs h gate with
                   | (S3, Yes) => match finish_block S3 h block_hash (transition_count r) with
                                  | (S4, No) => (rollback S4, No)
                                  | other => other
                                  end
                   | (S3, No) => (rollback S3, No)
                   | other => other
                   end
               end
         end.

(** ** Payouts without a carrier *)

Definition ClassifyBtcVeldReserveSpend (S : TokenState) (bitcoin_tx : bytes) (direct_parents : list bytes)
  : SpendClassification :=
  if supply_of S <? 0 then NoClass
  else ClassifyBitcoinReserveSpend BtcVeldCustodySpk IsCanonicalTokenCreditAddress (reserve_state_ (money S)) (supply_of S)
         bitcoin_tx direct_parents
         (fun commitment => match redeem_covenant with
                            | None => None
                            | Some requests => option_map context_of (FindOpenByCommitmentCopy requests commitment)
                            end).

(** The claim that a classified payout stands for. *)
Definition payout_claim_of (r : State) (k : SpendClassification) (block : Hash256) (dirs : Z) (branch : list Hash256)
    (tx : bytes) (parents : list bytes) : Claim :=
  mkClaim PAYOUT NetworkBinding (transition_commitment r) (reserve_txid r) (reserve_vout r) (reserve_value_sats r)
    (transition_count r) (sc_new_reserve_txid k) (sc_new_reserve_vout k) (sc_new_reserve_value k) (sc_bitcoin_txid k)
    block dirs branch (sc_exact_commitment k) 0 tx parents EmptyProof false.

Definition ApplyFsp2AuthorizedReservePayout (S : TokenState) (bitcoin_block : Hash256) (merkle_directions : Z)
    (merkle_branch : list Hash256) (bitcoin_tx : bytes) (direct_parents : list bytes) : option TokenState :=
  match btc_headers, redeem_covenant with
  | Some headers, Some requests =>
      let r := reserve_state_ (money S) in
      let depth := size merkle_branch in
      if bool_decide (status r <> ACTIVE) || (32 <? depth)
         || ((depth <? 32) && negb (Z.shiftr merkle_directions depth =? 0)) || negb (last_block_reserve_edges_ S =? 0) then None
      else
        let supply := supply_of S in
        if supply <? 0 then None
        else
          let k := ClassifyBitcoinReserveSpend BtcVeldCustodySpk IsCanonicalTokenCreditAddress r supply bitcoin_tx
                     direct_parents (fun c => option_map context_of (FindOpenByCommitmentCopy requests c)) in
          if bool_decide (disposition k <> AUTHORIZED_TRANSITION) || bool_decide (sc_operation k <> PAYOUT)
             || negb (present (sc_payout k)) then None
          else
            let proof := EncodeProof (payout_claim_of r k bitcoin_block merkle_directions merkle_branch bitcoin_tx direct_parents) in
            if size proof =? 0 then None
            else match Verify BtcVeldCustodySpk IsCanonicalTokenCreditAddress cfg headers r supply proof BTCVELD_SPV_K_BTC
                         (sc_payout k) with
                 | None => None
                 | Some v =>
                     if negb (bytes_eqb (bitcoin_txid (claim v)) (sc_bitcoin_txid k)) then None
                     else match ApplyAuthorized r v supply supply with
                          | None => None
                          | Some next =>
                              Some (with_edges (with_reserve_payout (with_reserve_state S next)
                                      (mkPaid (payout_request_id v) (bitcoin_txid (claim v)) (payout_principal_sats v)
                                         (payout_destination_spk v))) 1)
                          end
                 end
  | _, _ => None
  end.

End Operations.

(** [FreezeBtcVeldReserve] uses the block's one edge. *)
Definition freeze_edge (S : TokenState) (unauthorized_spend_txid bitcoin_block : Hash256) : option TokenState :=
  if negb (last_block_reserve_edges_ S =? 0) then None
  else match FreezeBtcVeldReserve (money S) unauthorized_spend_txid bitcoin_block with
       | None => None
       | Some L => Some (with_edges (with_ledger S L) 1)
       end.
