(* ===== verification/RedeemFeed.v ===== *)
(** * Feeding the redemption covenant ([node/node.h], [consensus/btcveld_redeem_spv.h])

    [FeedRedeemCovenant_] gives the covenant what a block did: payouts that the token ledger
    verified close their requests, burns open new ones, proofs of Bitcoin spends settle or
    freeze, and requests past their deadline default and are compensated.  It runs after the
    token ledger has processed the block.  [None] is a refusal or an exception; the node
    restores its snapshot of every module in both cases. *)
From S2P Require Import Prelude Limbs Bytes Sha256 StateDigest MintNullifier RedeemArchive Profile Transaction Block Address.
From S2P Require Import EndorsementWire Marker AmmMath BtcHeaderChain BtcTx SignerBond Reserve ReserveProof TokenLedger TokenBlock.
Import OnChainTokenLedger.

Definition BTCVELD_REDEEM_SLA : Z := 1000.
Definition BTCVELD_SIGNER_MIN_BOND_SATS : Z := 100000000.
Definition BTCVELD_NONPAY_PENALTY_BPS : Z := 2000.
Definition MAX_MSPV_PARENT_COUNT : Z := 128.

(** ** Proofs of a custody spend *)

Record FraudProof := mkFraud {
  spend_txid : Hash256; custody_value : Z; total_input_value : Z; spend_outputs : list BtcTxOut; spend_block : Hash256;
  spend_merkle_directions : Z; spend_merkle_branch : list Hash256; spend_tx : bytes; fp_direct_parents : list bytes }.

(** The parents in input order: the value of the inputs, the part in custody, and the bytes. *)
Fixpoint read_spent_parents (custody_spk : bytes) (inputs : list BtcPrevout) (parent_total total custody : Z)
  : reader (Z * Z * list bytes) :=
  match inputs with
  | [] => rret (total, custody, [])
  | p :: inputs' =>
      read parent_len <- read_le 4;
      guard negb (parent_refused parent_total parent_len);
      read parent_tx <- read_bytes (Z.to_nat parent_len);
      match ParseTx parent_tx with
      | None => rfail
      | Some parent =>
          guard bytes_eqb (wt_txid parent) (po_txid p);
          match btc_outputs parent !! Z.to_nat (po_vout p) with
          | None => rfail
          | Some input =>
              guard (total <=? UINT64_MAX - bo_value input);
              guard (negb (bytes_eqb (spk input) custody_spk) || (custody <=? UINT64_MAX - bo_value input));
              read rest <- read_spent_parents custody_spk inputs' (parent_total + parent_len) (total + bo_value input)
                             (if bytes_eqb (spk input) custody_spk then custody + bo_value input else custody);
              rret (let '(t, c, l) := rest in (t, c, parent_tx :: l))
          end
      end
  end.

Section Feed.
Context (cfg : BtcHeaderChain.Config) (btc : BtcHeaderChain.t) (write_ : list (bytes * bytes) -> bool).

(** The FSP2 branch, which the public profile requires. *)
Definition VerifyFraudulentSpend (p custody_spk : bytes) (k_btc : Z) : option FraudProof :=
  if size custody_spk =? 0 then None
  else if (size p <? 57) || negb (bytes_eqb (take 4 p) b:"FSP2") then None
  else
    match (read blk <- read_hash; read db <- read_branch; read spend_len <- read_le 4;
           guard negb ((spend_len <=? 64) || (MAX_MSPV_STRIPPED_TX_BYTES <? spend_len));
           read tx <- read_bytes (Z.to_nat spend_len); read n <- read_le 2;
           rret (blk, db, tx, n)) (drop 4 p) with
    | None => None
    | Some ((blk, (dirs, branch), tx, n), rest) =>
        match ParseWitnessAwareBtcTx tx MAX_MSPV_PARENT_COUNT 100000 with
        | None => None
        | Some spend =>
            if negb (BtcHeaderChain.VerifyMerkle btc blk (wt_txid spend) branch dirs)
               || negb (BtcHeaderChain.IsFinalForExternalValue cfg btc blk k_btc) then None
            else if negb (n =? Z.of_nat (length (prevouts spend))) || (n =? 0) || (MAX_MSPV_PARENT_COUNT <? n) then None
            else match read_spent_parents custody_spk (prevouts spend) 0 0 0 rest with
                 | Some ((total, custody, parents), []) =>
                     if custody =? 0 then None
                     else Some (mkFraud (wt_txid spend) custody total (btc_outputs spend) blk dirs branch tx parents)
                 | _ => None
                 end
        end
    end.

(** ** The steps of the feed *)

Definition all_data (b : Block) : list bytes := concat (map marker_data (transactions b)).

Fixpoint sbond_fields (s acc : bytes) : list bytes :=
  match s with
  | [] => [acc]
  | c :: s' => if c =? PIPE then acc :: sbond_fields s' [] else sbond_fields s' (acc ++ [c])
  end.
Definition apply_sbond (c : Covenant) (height : Z) (d : bytes) : option Covenant :=
  if negb (starts_with b:"VELD_SBOND|" d) then Some c
  else if SecurityStateMigrationActive height then None
  else match sbond_fields (drop 11 d) [] with
       | [op; addr; amt] =>
           if bytes_eqb op b:"register" && negb (size addr =? 0) then
             match ParseCanonicalUint64Text amt with
             | None => Some c
             | Some a =>
                 if a <? BTCVELD_SIGNER_MIN_BOND_SATS then Some c
                 else let '(c1, ok1) := Register c addr a in
                      if negb ok1 then None
                      else let '(c2, ok2) := Activate c1 addr in if negb ok2 then None else Some c2
             end
           else Some c
       | _ => Some c
       end.

Definition apply_payout (c : Covenant) (p : BtcVeldReservePayoutTransition) : option Covenant :=
  match MarkAuthorizedReservePayout c (pt_request_id p) (pt_payout_txid p) (pt_principal_sats p) (pt_destination_spk p) with
  | Some (c', true) => Some c'
  | _ => None
  end.

Definition request_of (r : TokenTransferRecord) : RedeemRequest :=
  let idb := BtcVeldHex_ (tr_txid r) in
  let req := mkRequest (if size idb =? 32 then idb else ZeroHash) (u64 (tr_amount r)) (BtcVeldHex_ (tr_memo r))
               (tr_block_height r) (u64 (tr_block_height r + BTCVELD_REDEEM_SLA)) LOCKED_IN ZeroHash (tr_from r) ZeroHash
               (BtcHeaderChain.BestHeight btc) in
  with_commitment_of req.

(** A loop whose body may refuse. *)
Fixpoint each {A B} (f : A -> B -> option A) (a : A) (l : list B) : option A :=
  match l with [] => Some a | x :: l' => match f a x with Some a' => each f a' l' | None => None end end.

Definition view (c : Covenant) : list RedeemRequest := map snd (map_to_list (requests_ c)).

(** A proven custody spend: an authorized payout is applied and closes its request, other
    authorized transitions wait for their carrier, and any other spend freezes the reserve. *)
Definition apply_fraud (cs : Covenant * TokenState) (d : bytes) : option (Covenant * TokenState) :=
  let '(c, T) := cs in
  if negb (starts_with b:"VELD_FRAUD|" d) then Some (c, T)
  else
    let proof := BtcVeldHex_ (drop 11 d) in
    if size proof =? 0 then None
    else match VerifyFraudulentSpend proof BtcVeldCustodySpk BTCVELD_SPV_K_BTC with
         | None => None
         | Some f =>
             match IsConsumedPayout c (spend_txid f), IsConsumedFraudSpend c (spend_txid f) with
             | Some false, Some false =>
                 let k := ClassifyBtcVeldReserveSpend (Some (view c)) T (spend_tx f) (fp_direct_parents f) in
                 match disposition k with
                 | AUTHORIZED_TRANSITION =>
                     if bool_decide (sc_operation k = PAYOUT) then
                       match ApplyFsp2AuthorizedReservePayout cfg (Some btc) (Some (view c)) T (spend_block f)
                               (spend_merkle_directions f) (spend_merkle_branch f) (spend_tx f) (fp_direct_parents f) with
                       | None => None
                       | Some T' => match last (last_block_reserve_payouts_ T') with
                                    | None => None
                                    | Some applied => match apply_payout c applied with Some c' => Some (c', T') | None => None end
                                    end
                       end
                     else Some (c, T)
                 | UNAUTHORIZED_SPEND =>
                     match ConsumeFraudSpend c (spend_txid f) with
                     | Some (c', true) =>
                         match freeze_edge T (spend_txid f) (spend_block f) with
                         | None => None
                         | Some T' => Some (ApplySlash c' (mkVerdict true FRAUDULENT_SPEND
                                              (Z.min (custody_value f) (TotalActiveBond c)) 0 []), T')
                         end
                     | _ => None
                     end
                 | _ => None
                 end
             | _, _ => None
             end
         end.

(** A request past its deadline: its holder is made whole before it is closed. *)
Definition apply_default (height : Z) (cs : Covenant * TokenState) (id : Hash256) : option (Covenant * TokenState) :=
  let '(c, T) := cs in
  let v := EvalNonPayment c id height BTCVELD_NONPAY_PENALTY_BPS in
  if negb (slash v) then Some (c, T)
  else
    let c1 := ApplySlash c v in
    match (if negb (compensate_sats v =? 0) && negb (size (compensate_to v) =? 0)
           then option_map (with_ledger T) (CompensateMint (money T) (compensate_to v) (compensate_sats v))
           else Some T) with
    | None => None
    | Some T' => match SetStatus c1 id DEFAULTED with Some c2 => Some (c2, T') | None => None end
    end.

Definition FeedRedeemCovenant_ (c : Covenant) (S : TokenState) (b : Block) : option (Covenant * TokenState) :=
  match each (fun c d => apply_sbond c (height b) d) c (all_data b) with
  | None => None
  | Some c1 =>
      match each apply_payout c1 (last_block_reserve_payouts_ S) with
      | None => None
      | Some c2 =>
          match each (fun c r => AddRequest c (request_of r) true) c2 (last_block_redeems_ S) with
          | None => None
          | Some c3 =>
              if existsb (starts_with b:"VELD_PAYOUT|") (all_data b) then None
              else match each apply_fraud (c3, S) (all_data b) with
                   | None => None
                   | Some (c4, S4) =>
                       match each (apply_default (height b)) (c4, S4) (DueForDefault c4 (height b)) with
                       | None => None
                       | Some (c5, S5) => match FinishBlock write_ c5 with Some c6 => Some (c6, S5) | None => None end
                       end
                   end
          end
      end
  end.

(** The part of [ApplyBlockModules_] that concerns the peg, after the headers of the block. *)
Definition apply_peg_modules (verify : bytes -> bytes -> bytes -> bool) (c : Covenant) (S : TokenState) (b : Block)
    (gate : BtcVeldPegGateState) : option (Covenant * TokenState) :=
  match BeginBlock write_ c (height b) with
  | None => None
  | Some c1 =>
      match TokenBlock.ProcessBlock verify cfg (Some btc) (Some (view c1)) S b gate with
      | (S1, Yes) => FeedRedeemCovenant_ c1 S1 b
      | _ => None
      end
  end.
End Feed.
