(* ===== verification/TokenBlockRules.v ===== *)
(** * Rules of token blocks

    What an applied marker does, that a refusal leaves the state, and how a block is made of
    the operations of the account. *)
From S2P Require Import Prelude Limbs Bytes Sha256 StateDigest MintNullifier NullifierRules Profile Transaction Block Address.
From S2P Require Import OpAuthorization Marker AmmMath MapSum BtcHeaderChain BtcTx SignerBond Reserve ReserveProof ReserveProofRules.
From S2P Require Import ReserveWire ReserveSafety TokenLedger TokenRules TokenBlock.
Import OnChainTokenLedger.

#[local] Opaque sha256 sha256_domain NetworkBinding TREE_DEPTH.

Lemma hex_pairs_bytes hex out : hex_pairs hex = Some out -> is_bytes out.
Proof.
  revert out. induction hex as [| |a b hex IH] using list_pair_ind; intros out; cbn [hex_pairs]; [intros [= <-]; constructor|done|].
  destruct (_ || _); [done|]. destruct (hex_pairs hex) as [o|]; [|done]. intros [= <-]. constructor; [|by apply IH].
  apply wrap_fits. lia.
Qed.

Lemma BtcVeldHex_bytes h : is_bytes (BtcVeldHex_ h).
Proof.
  unfold BtcVeldHex_, HexToBytes. destruct (negb _); [constructor|]. destruct (hex_pairs _) as [o|] eqn:E; [|constructor].
  by apply hex_pairs_bytes in E.
Qed.

Lemma hex_digit_nonzero i : 0 <= i < 16 -> nth (Z.to_nat i) HEX 0 <> 0.
Proof.
  intros Hi. assert (Forall (fun c => c <> 0) HEX) as H by (apply (bool_decide_unpack _); vm_compute; exact I).
  rewrite List.Forall_forall in H. apply H, nth_In. change (length HEX) with 16%nat. lia.
Qed.

Lemma c_str_hex l : c_str (BytesToHex l) = BytesToHex l.
Proof.
  induction l as [|x l IH]; [reflexivity|]. cbn [BytesToHex c_str].
  change 0xF with (Z.ones 4). rewrite !Z.land_ones by lia.
  rewrite !(proj2 (Z.eqb_neq _ 0)) by (apply hex_digit_nonzero, Z.mod_pos_bound; lia). by rewrite IH.
Qed.

Lemma BtcVeldHex_hash h : is_bytes h -> BtcVeldHex_ (HashToHex h) = h.
Proof. intros H. unfold BtcVeldHex_, HashToHex. rewrite c_str_hex. by apply HexToBytes_BytesToHex. Qed.

Lemma carried_proof_bytes prefix text proof : carried_proof prefix text = Some proof -> is_bytes proof.
Proof. unfold carried_proof. destruct (_ || _); [done|]. intros [= <-]. apply BtcVeldHex_bytes. Qed.

(** ** What an applied marker does *)

Definition same_nullifier (S S' : TokenState) : Prop :=
  mint_nullifier_root_ S' = mint_nullifier_root_ S /\ mint_nullifier_count_ S' = mint_nullifier_count_ S
  /\ last_block_mint_transitions_ S' = last_block_mint_transitions_ S.

(** A deposit is consumed: its outpoint enters the nullifier set and the feed. *)
Definition consumed (S S' : TokenState) (v : Result) : Prop :=
  Insert (mint_nullifier_root_ S) (pending_outpoint v) (nullifier_proof (claim v)) = Some (mint_nullifier_root_ S')
  /\ mint_nullifier_count_ S' = mint_nullifier_count_ S + 1
  /\ exists t, last_block_mint_transitions_ S' = last_block_mint_transitions_ S ++ [t]
     /\ mt_outpoint t = pending_outpoint v /\ mt_proof t = MintNullifier.EncodeProof (nullifier_proof (claim v))
     /\ size (mt_proof t) <> 0.

(** What the marker leaves for the redemption covenant. *)
Definition redeem_record (op : TokenOpData) (tx : Transaction) (h vout : Z) : TokenTransferRecord :=
  mkTransfer (HashToHex (GetTxID tx)) vout (token_id op) (op_from op) (op_to op) (op_amount op) h (op_memo op) false false true.
Definition feed_token (op : TokenOpData) (tx : Transaction) (h : Z) (S S' : TokenState) : Prop :=
  last_block_reserve_payouts_ S' = last_block_reserve_payouts_ S
  /\ exists vout, last_block_redeems_ S'
     = last_block_redeems_ S ++ (if bool_decide (action op = REDEEM) then [redeem_record op tx h vout] else []).
Definition feed_reserve (v : Result) (S S' : TokenState) : Prop :=
  last_block_redeems_ S' = last_block_redeems_ S
  /\ last_block_reserve_payouts_ S' = last_block_reserve_payouts_ S ++
       (if bool_decide (operation (claim v) = PAYOUT) then
          [mkPaid (payout_request_id v) (bitcoin_txid (claim v)) (payout_principal_sats v) (payout_destination_spk v)]
        else []).

Section Rules.
Context (verify : bytes -> bytes -> bytes -> bool).
Context (cfg : BtcHeaderChain.Config) (btc_headers : option BtcHeaderChain.t) (covenant : option (list RedeemRequest)).

(** The verified transition of a proof. *)
Definition transition_of (S : TokenState) (proof : bytes) (payout : PayoutContext) (v : Result) : Prop :=
  exists headers, btc_headers = Some headers /\ is_bytes proof
  /\ Verify BtcVeldCustodySpk IsCanonicalTokenCreditAddress cfg headers (reserve_state_ (money S)) (supply_of S) proof
       BTCVELD_SPV_K_BTC payout = Some v.

Inductive effect (data : bytes) (tx : Transaction) (h : Z) (gate : BtcVeldPegGateState) (S S' : TokenState) : Prop :=
  | effect_token op :
      DecodeTokenOp data = Some op -> IsReserveIssuerCarrierLocked_ op = false ->
      ApplyTokenOp verify (money S) op tx h gate = Some (money S') -> same_nullifier S S' ->
      last_block_reserve_edges_ S' = last_block_reserve_edges_ S ->
      feed_token op tx h S S' -> effect data tx h gate S S'
  | effect_reserve proof payout v :
      is_carrier data = true -> transition_of S proof payout v -> apply_verified (money S) v = Some (money S') ->
      (if consumes_deposit (operation (claim v)) then consumed S S' v else same_nullifier S S') ->
      last_block_reserve_edges_ S' = last_block_reserve_edges_ S /\ feed_reserve v S S' -> effect data tx h gate S S'.

Lemma consume_deposit_spec S v txid h i vout S' w :
  consume_deposit S v txid h i vout = (S', w) ->
  (w = No -> S' = S)
  /\ (w = Yes -> consumed S S' v /\ money S' = money S /\ last_block_reserve_edges_ S' = last_block_reserve_edges_ S
      /\ last_block_redeems_ S' = last_block_redeems_ S /\ last_block_reserve_payouts_ S' = last_block_reserve_payouts_ S).
Proof.
  unfold consume_deposit. destruct (_ || _ || _ || _); [by intros [= <- <-]|]. destruct (Insert _ _ _) as [root|] eqn:Ei; [|by intros [= <- <-]].
  destruct (Z.eqb_spec (size (MintNullifier.EncodeProof (nullifier_proof (claim v)))) 0); [by intros [= <- <-]|].
  assert (forall e n t, mt_outpoint t = pending_outpoint v -> mt_proof t = MintNullifier.EncodeProof (nullifier_proof (claim v)) ->
    consumed S (with_nullifier S root (mint_nullifier_count_ S + 1) e n t) v) as Hgo.
  { intros e n' t Ht1 Ht2. split; [exact Ei|]. split; [reflexivity|]. exists t. rewrite Ht2. split_and!; try reflexivity; assumption. }
  destruct (i =? UINT32_MAX).
  - intros [= <- <-]. split; [discriminate|]. intros _. split_and!; [apply Hgo; reflexivity|reflexivity..].
  - destruct (ExtendBtcVeldMintEffectCommitment _ _ _); intros [= <- <-]; (split; [discriminate|]); [|discriminate].
    intros _. split_and!; [apply Hgo; reflexivity|reflexivity..].
Qed.

Lemma apply_transition_spec S v txid h i vout S' w :
  apply_transition S v txid h i vout = (S', w) ->
  (w = No -> S' = S)
  /\ (w = Yes -> apply_verified (money S) v = Some (money S')
      /\ (if consumes_deposit (operation (claim v)) then consumed S S' v else same_nullifier S S')
      /\ last_block_reserve_edges_ S' = last_block_reserve_edges_ S /\ feed_reserve v S S').
Proof.
  unfold apply_transition. destruct (apply_verified (money S) v) as [L|]; [|by intros [= <- <-]].
  destruct (consumes_deposit (operation (claim v))) eqn:Ec.
  - destruct (consume_deposit S v txid h i vout) as [S1 w1] eqn:E1. apply consume_deposit_spec in E1 as [Hno Hyes].
    destruct w1; [|intros [= <- <-]; split; [exact Hno|discriminate]|intros [= <- <-]; split; discriminate].
    destruct (Hyes eq_refl) as (Hc & Hm & He & Hr & Hp). intros [= <- <-]. split; [discriminate|]. intros _. unfold feed_reserve.
    destruct (bool_decide _); cbn; rewrite ?Hr, ?Hp, ?app_nil_r; split_and!; try exact Hc; try exact He; reflexivity.
  - intros [= <- <-]. split; [discriminate|]. intros _. unfold feed_reserve.
    destruct (bool_decide _); cbn; rewrite ?app_nil_r; split_and!; try reflexivity; (split_and!; reflexivity).
Qed.

Lemma MaybeApply_spec S proof wrapper tx h gate i vout S' w :
  is_bytes proof -> MaybeApplyReserveTransitionLocked_ verify cfg btc_headers covenant S proof wrapper tx h gate i vout = (S', w) ->
  (w = No -> S' = S)
  /\ (w = Yes -> exists payout v, transition_of S proof payout v /\ apply_verified (money S) v = Some (money S')
      /\ (if consumes_deposit (operation (claim v)) then consumed S S' v else same_nullifier S S')
      /\ last_block_reserve_edges_ S' = last_block_reserve_edges_ S /\ feed_reserve v S S').
Proof.
  intros Hb. unfold MaybeApplyReserveTransitionLocked_.
  assert (forall x : TokenState * Verdict, x = (S, No) -> x = (S', w) ->
    (w = No -> S' = S) /\ (w = Yes -> exists payout v, transition_of S proof payout v /\ apply_verified (money S) v = Some (money S')
      /\ (if consumes_deposit (operation (claim v)) then consumed S S' v else same_nullifier S S')
      /\ last_block_reserve_edges_ S' = last_block_reserve_edges_ S /\ feed_reserve v S S')) as Hno.
  { intros x -> [= <- <-]. split; [reflexivity|discriminate]. }
  destruct btc_headers as [headers|] eqn:Eh; [|by apply Hno]. destruct (_ || _); [by apply Hno|]. destruct (negb _); [by apply Hno|].
  destruct (DecodeProof proof) as [c|]; [|by apply Hno]. destruct (_ || _); [by apply Hno|].
  destruct (payout_context covenant c) as [payout|]; [|by apply Hno]. destruct (_ <? _); [by apply Hno|].
  destruct (Verify _ _ _ _ _ _ _ _ _) as [v|] eqn:Ev; [|by apply Hno]. destruct (negb _); [by apply Hno|].
  intros [Hn Hy]%apply_transition_spec. split; [exact Hn|]. intros Hw. destruct (Hy Hw) as (H1 & H2 & H3 & H4). exists payout, v.
  split; [exists headers; split_and!; (reflexivity || assumption)|]. split_and!; try assumption; apply H4.
Qed.

Lemma apply_marker_spec S data tx h gate i vout S' w :
  apply_marker verify cfg btc_headers covenant S data tx h gate i vout = (S', w) ->
  (w = No -> S' = S) /\ (w = Yes -> effect data tx h gate S S').
Proof.
  unfold apply_marker. destruct (IsReservePublicFamilyLocked_ data) eqn:Ef.
  { destruct (negb _); [intros [= <- <-]; split; [reflexivity|discriminate]|].
    destruct (carried_proof _ _) as [proof|] eqn:Ep; [|intros [= <- <-]; split; [reflexivity|discriminate]].
    intros H. apply MaybeApply_spec in H as [Hn Hy]; [|by eapply carried_proof_bytes]. split; [exact Hn|].
    intros Hw. destruct (Hy Hw) as (payout & v & H1 & H2 & H3 & H4). eapply effect_reserve; try eassumption.
    unfold is_carrier. by rewrite Ef. }
  destruct (starts_with MSPV_PREFIX data); [intros [= <- <-]; split; [reflexivity|discriminate]|].
  destruct (DecodeTokenOp data) as [op|] eqn:Ed; [|intros [= <- <-]; split; [reflexivity|discriminate]].
  destruct (IsReserveIssuerCarrierLocked_ op) eqn:Ec.
  - destruct (carried_proof _ _) as [proof|] eqn:Ep; [|intros [= <- <-]; split; [reflexivity|discriminate]].
    intros H. apply MaybeApply_spec in H as [Hn Hy]; [|by eapply carried_proof_bytes]. split; [exact Hn|].
    intros Hw. destruct (Hy Hw) as (payout & v & H1 & H2 & H3 & H4). eapply effect_reserve; try eassumption.
    unfold is_carrier. rewrite Ef, Ed. unfold DecodeTokenOp in Ed. destruct (_ <? _) in Ed; [done|]. by destruct (starts_with _ data).
  - unfold apply_token_op. destruct (ApplyTokenOp _ _ _ _ _ _) as [L|] eqn:Ea; [|intros [= <- <-]; split; [reflexivity|discriminate]].
    intros [= <- <-]. split; [discriminate|]. intros _.
    apply (effect_token _ _ _ _ _ _ op); [exact Ed|exact Ec|destruct (bool_decide _); exact Ea|..].
    + by destruct (bool_decide _).
    + by destruct (bool_decide _).
    + split; [by destruct (bool_decide _)|]. exists vout. destruct (bool_decide _); cbn; by rewrite ?app_nil_r.
Qed.

(** ** Transactions *)

Definition markers (datas : list bytes) : list bytes := List.filter is_marker datas.

Lemma marker_count_length tx : marker_count tx = Z.of_nat (length (markers (marker_data tx))).
Proof.
  unfold marker_count. generalize (marker_data tx) as l. intros l.
  assert (forall n, foldl (fun n data => if is_marker data then n + 1 else n) n l = n + Z.of_nat (length (markers l))) as H.
  { induction l as [|d l IH]; intros n; cbn [foldl markers List.filter length]; [lia|].
    rewrite IH. destruct (is_marker d); cbn [length]; fold (markers l); lia. }
  rewrite H. lia.
Qed.

Lemma marker_loop_done S applied vout datas tx h gate i :
  markers datas = [] -> marker_loop verify cfg btc_headers covenant S applied vout datas tx h gate i = (S, if applied then Yes else No).
Proof.
  revert vout. induction datas as [|d datas IH]; intros vout; cbn [marker_loop markers List.filter]; [done|].
  destruct (is_marker d); [done|]. intros H. cbn [negb]. by apply IH.
Qed.

Lemma marker_loop_one S vout datas d tx h gate i :
  markers datas = [d] ->
  exists vout', marker_loop verify cfg btc_headers covenant S false vout datas tx h gate i
                = apply_marker verify cfg btc_headers covenant S d tx h gate i vout'.
Proof.
  revert vout. induction datas as [|x datas IH]; intros vout; cbn [marker_loop markers List.filter]; [done|].
  destruct (is_marker x); cbn [negb]; [|intros H; by apply IH]. intros [= -> H]. exists vout.
  destruct (apply_marker _ _ _ _ S d tx h gate i vout) as [S' []]; [|done|done]. by rewrite marker_loop_done.
Qed.

Lemma markers_in d datas : d ∈ markers datas -> d ∈ datas.
Proof. rewrite !list_elem_of_In. unfold markers. intros [H _]%filter_In. exact H. Qed.

(** A transaction applies its one marker, or none, or nothing. *)
Lemma ApplyTransaction_spec S tx h gate i S' w :
  ApplyTransactionMarkersLocked_ verify cfg btc_headers covenant S tx h gate i = (S', w) ->
  (w = No -> S' = S)
  /\ (w = Yes -> S' = S \/ exists data, data ∈ marker_data tx /\ effect data tx h gate S S').
Proof.
  unfold ApplyTransactionMarkersLocked_. rewrite marker_count_length.
  destruct (markers (marker_data tx)) as [|d [|d' l]] eqn:E; cbn [length].
  - rewrite marker_loop_done by exact E. change (1 <? Z.of_nat 0) with false. change (Z.of_nat 0 =? 0) with true.
    cbv iota. intros [= <- <-]. split; [reflexivity|by left].
  - change (1 <? Z.of_nat 1) with false. change (Z.of_nat 1 =? 0) with false. cbv iota.
    destruct (marker_loop_one S 0 _ _ tx h gate i E) as (vout & ->).
    assert (d ∈ marker_data tx) as Hd by (apply markers_in; rewrite E; by left).
    destruct (apply_marker _ _ _ _ S d tx h gate i vout) as [S1 w1] eqn:Em. apply apply_marker_spec in Em as [Hn Hy].
    destruct w1; intros [= <- <-]; (split; [exact Hn|]); intros Hw; try discriminate Hw. right. exists d. split; [exact Hd|by apply Hy].
  - rewrite (proj2 (Z.ltb_lt 1 _)) by lia. intros [= <- <-]. split; [reflexivity|discriminate].
Qed.

(** The effects of a list of transactions, in their order. *)
Inductive effects (h : Z) (gate : BtcVeldPegGateState) : list Transaction -> TokenState -> TokenState -> Prop :=
  | effects_nil S : effects h gate [] S S
  | effects_skip tx txs S S' : effects h gate txs S S' -> effects h gate (tx :: txs) S S'
  | effects_one tx txs data S S1 S' :
      data ∈ marker_data tx -> effect data tx h gate S S1 -> effects h gate txs S1 S' -> effects h gate (tx :: txs) S S'.

Lemma apply_transactions_spec S i txs h gate S' w :
  apply_transactions verify cfg btc_headers covenant S i txs h gate = (S', w) ->
  (w = Yes -> effects h gate txs S S')
  /\ (w = No -> existsb HasC1ReservationMarkerLocked_ txs || existsb HasReserveSensitiveMarkerLocked_ txs = true).
Proof.
  revert S i. induction txs as [|tx txs IH]; intros S i; cbn [apply_transactions existsb].
  { intros [= <- <-]. split; [constructor|discriminate]. }
  destruct (ApplyTransactionMarkersLocked_ _ _ _ _ _ _ _ _ _) as [S1 w1] eqn:E1. apply ApplyTransaction_spec in E1 as [Hn Hy].
  destruct (HasC1ReservationMarkerLocked_ tx || HasReserveSensitiveMarkerLocked_ tx) eqn:Es.
  - destruct w1; cbn [bool_decide andb].
    + rewrite bool_decide_eq_false_2 by discriminate. intros [IY IN]%IH. split.
      * intros Hw. destruct (Hy eq_refl) as [-> |(d & Hd & He)]; [constructor; by apply IY|]. eapply effects_one; [exact Hd|exact He|by apply IY].
      * intros _. destruct (HasC1ReservationMarkerLocked_ tx); cbn [orb] in *; [reflexivity|]. rewrite Es. by rewrite orb_true_r.
    + rewrite bool_decide_eq_true_2 by reflexivity. intros [= <- <-]. split; [discriminate|]. intros _.
      destruct (HasC1ReservationMarkerLocked_ tx); cbn [orb] in *; [reflexivity|]. rewrite Es. by rewrite orb_true_r.
    + intros [= <- <-]. split; discriminate.
  - apply orb_false_iff in Es as [-> ->]. cbn [orb andb]. destruct w1; [| |intros [= <- <-]; split; discriminate].
    + intros [IY IN]%IH. split; [|exact IN]. intros Hw.
      destruct (Hy eq_refl) as [-> |(d & Hd & He)]; [constructor; by apply IY|]. eapply effects_one; [exact Hd|exact He|by apply IY].
    + intros [IY IN]%IH. rewrite (Hn eq_refl) in IY. split; [|exact IN]. intros Hw. constructor. by apply IY.
Qed.
End Rules.

(** ** Blocks *)

(** The state the transactions of a block start from. *)
Definition started (S : TokenState) (r : State) (h : Z) : TokenState :=
  let S1 := cleared (with_reserve_state S r) in with_ledger S1 (MaybeRegisterBtcVeld (money S1) h).
