(* ===== verification/TokenPayout.v ===== *)
(** * Payouts that nobody can withhold

    The permissionless path rebuilds the claim of a payout from the Bitcoin transaction and
    runs the verifier on it.  When the classifier authorizes a payout that Bitcoin shows,
    the claim has its wire form, the verifier accepts it and the account advances. *)
From S2P Require Import Prelude Limbs Bytes Sha256 StateDigest MintNullifier Profile Transaction Address.
From S2P Require Import BtcHeaderChain BtcTx SignerBond Reserve ReserveProof ReserveProofRules ReserveWire ReserveSafety.
From S2P Require Import TokenLedger TokenRules TokenBlock TokenBlockRules.
Import OnChainTokenLedger.

#[local] Opaque sha256 sha256_domain NetworkBinding TREE_DEPTH.

(** ** Open requests *)

Lemma find_open_spec reqs c found r :
  find_open reqs c found = Some r -> found = Some r \/ (r ∈ reqs /\ is_open r = true /\ rq_request_commitment r = c).
Proof.
  revert found. induction reqs as [|x reqs IH]; intros found; cbn [find_open]; [by left|].
  destruct (is_open x) eqn:Eo; cbn [negb orb].
  2:{ intros [H|(H & H')]%IH; [by left|right; split; [by right|exact H']]. }
  destruct (bytes_eqb (rq_request_commitment x) c) eqn:Ec; cbn [negb].
  - apply bytes_eqb_eq in Ec. destruct found; [done|]. intros [[= <-]|(H & H')]%IH; right; [split_and!; [by left|done|done]|].
    split; [by right|exact H'].
  - intros [H|(H & H')]%IH; [by left|right; split; [by right|exact H']].
Qed.

Lemma FindOpen_spec reqs c r :
  FindOpenByCommitmentCopy reqs c = Some r -> r ∈ reqs /\ is_open r = true /\ rq_request_commitment r = c.
Proof. unfold FindOpenByCommitmentCopy. destruct (HashIsZero c); [done|]. intros [H|H]%find_open_spec; [done|exact H]. Qed.

(** ** The classifier reads one payout *)

Lemma classify_lookup custody valid s supply tx parents l1 l2 :
  (forall parsed, ParseReserveTx tx = Some parsed ->
     l1 (au_exact_commitment (auth (scan custody (btc_outputs parsed))))
     = l2 (au_exact_commitment (auth (scan custody (btc_outputs parsed))))) ->
  ClassifyBitcoinReserveSpend custody valid s supply tx parents l1 = ClassifyBitcoinReserveSpend custody valid s supply tx parents l2.
Proof.
  intros H. unfold ClassifyBitcoinReserveSpend. destruct (_ || _ || _); [reflexivity|]. destruct (ParseReserveTx tx) as [parsed|]; [|reflexivity].
  specialize (H parsed eq_refl). destruct (ReadInputFacts tx parents) as [f|]; [|reflexivity]. cbv zeta. unfold classify_payout. rewrite H. reflexivity.
Qed.

(** ** Widths *)

Lemma marker_exact_hash o m : is_bytes (spk o) -> ParseAuthMarker o = Some m -> is_hash (au_exact_commitment m).
Proof.
  intros Hb. unfold ParseAuthMarker. cbv zeta. set (b := ExtractOpReturn (spk o)).
  assert (is_bytes b) as Hbb.
  { unfold b, ExtractOpReturn. repeat match goal with |- is_bytes (if ?c then _ else _) => destruct c end;
      try apply is_bytes_take, is_bytes_drop, Hb; constructor. }
  assert (size b = STANDARD_AUTH_PAYLOAD_BYTES -> is_hash (slice 37 32 b)) as Hsl.
  { intros Hs. unfold size, STANDARD_AUTH_PAYLOAD_BYTES in Hs. split; [|by apply is_bytes_take, is_bytes_drop].
    unfold slice. rewrite length_take, length_drop. lia. }
  intros H. head_guard H. destruct (operation_of _) as [op|]; [|done].
  destruct op; try discriminate H; do 2 try head_guard H; injection H as <-; cbn [au_exact_commitment]; try apply is_hash_zero;
    apply Hsl; bool_hyps; lia.
Qed.

Lemma NetworkBinding_hash : is_hash NetworkBinding.
Proof. Transparent NetworkBinding. unfold NetworkBinding. Opaque NetworkBinding. apply sha256_domain_hash. Qed.

Lemma size_nonempty (b : bytes) : b <> [] -> negb (size b =? 0) = true.
Proof. destruct b; [done|]. intros _. apply negb_true_iff, Z.eqb_neq. unfold size. cbn [length]. lia. Qed.

(** ** A classified payout *)

Section Payout.
Context (custody : bytes) (valid : bytes -> bool) (cfg : BtcHeaderChain.Config) (hd : BtcHeaderChain.t).
Context (s : State) (supply depth : Z) (lookup : Hash256 -> option PayoutContext).
Context (blk : Hash256) (dirs : Z) (branch : list Hash256) (tx : bytes) (parents : list bytes).
Context (Hlookup : forall c p, lookup c = Some p -> present p = true /\ request_commitment p = c).

#[local] Abbreviation k := (ClassifyBitcoinReserveSpend custody valid s supply tx parents lookup).
#[local] Abbreviation c := (payout_claim_of s k blk dirs branch tx parents).

Context (Hk : disposition k = AUTHORIZED_TRANSITION) (Hop : sc_operation k = PAYOUT).

(** The transaction behind it. *)
Lemma payout_facts :
  exists parsed f total cur oth i p, let sc := scan custody (btc_outputs parsed) in
  authorized custody valid s supply tx parents lookup k parsed f total cur oth (Some i)
  /\ status s = ACTIVE /\ sc_exact_commitment k = au_exact_commitment (auth sc) /\ lookup (au_exact_commitment (auth sc)) = Some p
  /\ sc_payout k = p /\ au_mint_amount (auth sc) = 0 /\ 0 <> principal_sats p /\ principal_sats p <= open_redemption_principal s
  /\ principal_sats p <= reserve_value_sats s /\ paid_to (destination_spk p) (btc_outputs parsed) = (1, principal_sats p)
  /\ ((reserve_value_sats s = principal_sats p /\ sc_new_reserve_txid k = ZeroHash /\ sc_new_reserve_vout k = NO_VOUT
       /\ sc_new_reserve_value k = 0)
      \/ (reserve_value_sats s <> principal_sats p /\ custody_count sc = 1
          /\ sc_new_reserve_txid k = wt_txid parsed /\ sc_new_reserve_vout k = custody_vout sc
          /\ sc_new_reserve_value k = reserve_value_sats s - principal_sats p /\ sc_new_reserve_value k = custody_value sc)).
Proof.
  destruct (classify_authorized _ _ _ _ _ _ _ Hk) as (parsed & f & total & cur & oth & idx & A).
  pose proof (az_operation _ _ _ _ _ _ _ _ _ _ _ _ _ _ A) as Eo. pose proof (az_txid _ _ _ _ _ _ _ _ _ _ _ _ _ _ A) as Et.
  destruct (az_shape _ _ _ _ _ _ _ _ _ _ _ _ _ _ A) as [(_ & Ho & _)|(Hst & Hcur & Hx & i & Hi & Hsh)]; [congruence|].
  rewrite <- Eo, Hop in Hsh. destruct Hsh as (p & Hl & Hp & P1 & P2 & _ & _ & _ & P6 & P7 & P8 & P9 & _ & _ & Hor).
  exists parsed, f, total, cur, oth, i, p. rewrite Hi in A. split; [exact A|]. split_and!; try done.
  destruct Hor as [(S1 & _ & S3 & S4 & S5)|(S1 & S2 & S3 & S4 & S5 & S6)]; [left|right]; split_and!; try done; congruence.
Qed.

(** The verifier's classification of the claim is the same. *)
Lemma payout_classified : classified custody valid s supply (sc_payout k) c = k.
Proof.
  destruct payout_facts as (parsed & f & total & cur & oth & i & p & A & _ & _ & Hl & Ep & _).
  unfold classified. cbn [bitcoin_tx direct_parents payout_claim_of]. symmetry. apply classify_lookup. intros parsed' Hp'.
  assert (parsed' = parsed) as -> by (pose proof (az_tx _ _ _ _ _ _ _ _ _ _ _ _ _ _ A); congruence).
  rewrite Hl. destruct (Hlookup _ _ Hl) as [H1 H2]. unfold lookup_of. rewrite Ep, H1, H2, bytes_eqb_refl. reflexivity.
Qed.

Context (Hcan : Canonical s = true) (Hcust : custody <> []).
Context (Hmerkle : BtcHeaderChain.VerifyMerkle hd blk (sc_bitcoin_txid k) branch dirs = true).
Context (Hfinal : BtcHeaderChain.IsFinalForExternalValue cfg hd blk depth = true).

Lemma payout_admissible : admissible custody valid cfg hd s supply depth (sc_payout k) c = true.
Proof.
  destruct payout_facts as (parsed & f & total & cur & oth & i & p & A & Hst & _ & _ & _ & Hm & _).
  pose proof (az_tx _ _ _ _ _ _ _ _ _ _ _ _ _ _ A) as Hp. pose proof (az_txid _ _ _ _ _ _ _ _ _ _ _ _ _ _ A) as Et.
  pose proof (az_mint _ _ _ _ _ _ _ _ _ _ _ _ _ _ A) as Em.
  unfold admissible. rewrite payout_classified, Hcan.
  rewrite (size_nonempty _ Hcust).
  assert (MatchesPrior s c = true) as ->.
  { unfold MatchesPrior. cbn. by rewrite !bytes_eqb_refl, !Z.eqb_refl. }
  assert (operation_allowed s (operation c) = true) as -> by (unfold operation_allowed; cbn [operation payout_claim_of]; by rewrite Hst).
  assert (settled_on_bitcoin cfg hd depth c = true) as ->.
  { unfold settled_on_bitcoin. cbn [bitcoin_tx bitcoin_txid bitcoin_block merkle_branch merkle_directions payout_claim_of].
    rewrite Hp, <- Et, bytes_eqb_refl, Hmerkle, Hfinal. reflexivity. }
  assert (claim_matches c k = true) as ->; [|reflexivity].
  unfold claim_matches.
  cbn [operation bitcoin_txid new_reserve_txid new_reserve_vout new_reserve_value exact_commitment mint_amount payout_claim_of].
  rewrite Hk, Hop, !bytes_eqb_refl, !Z.eqb_refl, Em, Hm. reflexivity.
Qed.

Context (Hs : state_sized s) (Hblk : is_hash blk) (Hdirs : fits 32 dirs) (Hbranch : Forall is_hash branch).
Context (Htx : is_bytes tx) (Hparents : Forall is_bytes parents).

Lemma payout_sized : claim_sized c.
Proof.
  destruct payout_facts as (parsed & f & total & cur & oth & i & p & A & _ & Hx & _ & _ & _ & _ & _ & _ & _ & Hor).
  pose proof (az_tx _ _ _ _ _ _ _ _ _ _ _ _ _ _ A) as Hp. pose proof (az_txid _ _ _ _ _ _ _ _ _ _ _ _ _ _ A) as Et.
  destruct (parse_sized _ _ _ _ Htx Hp) as [_ Hout]. pose proof (parse_txid_hash _ _ _ _ Hp) as Hth.
  assert (is_hash (sc_exact_commitment k)) as Hex.
  { rewrite Hx. destruct (scan_marker custody (btc_outputs parsed)) as (o & Ho & Hm); [exact (az_auth _ _ _ _ _ _ _ _ _ _ _ _ _ _ A)|].
    eapply marker_exact_hash; [|exact Hm]. rewrite Forall_forall in Hout. by apply Hout. }
  assert (is_hash (sc_new_reserve_txid k) /\ fits 32 (sc_new_reserve_vout k) /\ fits 64 (sc_new_reserve_value k)) as (N1 & N2 & N3).
  { destruct Hor as [(_ & -> & -> & ->)|(_ & Hc & -> & -> & _ & ->)].
    - split_and!; [apply is_hash_zero|done|done].
    - destruct (scan_one custody _ Hc) as (j & o & Hj & _ & -> & -> & _). split_and!; [exact Hth|apply wrap_fits; lia|].
      rewrite Forall_lookup in Hout. by apply (Hout j). }
  rewrite <- Et in Hth. destruct Hs as [? ? ? ? ? ? ? ? ? ?].
  split; cbn [network_binding prior_commitment prior_reserve_txid prior_reserve_vout prior_reserve_value prior_transition_count
    new_reserve_txid new_reserve_vout new_reserve_value bitcoin_txid bitcoin_block merkle_directions merkle_branch exact_commitment
    mint_amount bitcoin_tx direct_parents nullifier_proof has_nullifier_proof payout_claim_of]; try assumption.
  - apply NetworkBinding_hash.
  - done.
  - reflexivity.
Qed.

(** The verifier accepts the claim. *)
Lemma payout_verified :
  EncodeProof c <> [] ->
  exists v, Verify custody valid cfg hd s supply (EncodeProof c) depth (sc_payout k) = Some v
  /\ claim v = c /\ payout_request_id v = request_id (sc_payout k) /\ payout_principal_sats v = principal_sats (sc_payout k)
  /\ payout_destination_spk v = destination_spk (sc_payout k) /\ terminal v = (sc_new_reserve_vout k =? NO_VOUT).
Proof.
  intros He. pose proof (proof_decode_encode _ payout_sized He) as Hd.
  assert (0 <= reserve_value_sats s) as HV by (pose proof (sz_value _ Hs) as Hv; unfold fits in Hv; lia).
  pose proof (Verify_exact custody valid cfg hd s supply depth (sc_payout k) (EncodeProof c) HV) as H.
  destruct (Verify _ _ _ _ _ _ _ _ _) as [v|]; [|specialize (H _ Hd); rewrite payout_admissible in H; discriminate H].
  destruct H as (Hd' & _ & Hag). assert (claim v = c) as Ec by congruence. rewrite Ec in Hag.
  destruct Hag as (_ & _ & _ & Ht & Hpay). destruct (Hpay eq_refl) as (P1 & P2 & P3). exists v. split_and!; try assumption; reflexivity.
Qed.

Context (Hcount : transition_count s <> UINT64_MAX) (Haccount : AccountingHolds s supply = true) (Hsup : 0 <= supply).
Context (Hz1 : HashIsZero (sc_bitcoin_txid k) = false) (Hz2 : HashIsZero blk = false).
Context (Hz3 : HashIsZero (TransitionCommitment c) = false).

(** And the account advances. *)
Lemma payout_advances v :
  claim v = c -> payout_principal_sats v = principal_sats (sc_payout k) -> terminal v = (sc_new_reserve_vout k =? NO_VOUT) ->
  exists next, ApplyAuthorized s v supply supply = Some next
  /\ reserve_value_sats next = reserve_value_sats s - principal_sats (sc_payout k)
  /\ open_redemption_principal next = open_redemption_principal s - principal_sats (sc_payout k).
Proof.
  intros Ec Ep Et.
  destruct payout_facts as (parsed & f & total & cur & oth & i & p & A & Hst & _ & _ & Hpay & _ & Hp0 & Hp1 & Hp2 & Hp3 & Hor).
  pose proof (az_tx _ _ _ _ _ _ _ _ _ _ _ _ _ _ A) as Hp. pose proof (az_txid _ _ _ _ _ _ _ _ _ _ _ _ _ _ A) as Etx.
  destruct (parse_sized _ _ _ _ Htx Hp) as [_ Hout]. pose proof (paid_nonneg (destination_spk p) _ Hout) as Hp4.
  rewrite (paid_to_one _ _ _ Hout Hp3) in Hp4.
  pose proof (proj1 (AccountingHolds_iff _ _) Haccount) as (_ & Hv & Hl & Hm). destruct Hs as [_ _ Sv _ _ _ Ss Sp _ _]. unfold fits in Sv, Ss, Sp.
  unfold ApplyAuthorized, authorized_next. rewrite Ec, Ep, Et, Hpay in *. cbn [operation new_reserve_value new_reserve_txid new_reserve_vout bitcoin_block payout_claim_of].
  assert (MatchesPrior s c = true) as HM by (unfold MatchesPrior; cbn; by rewrite !bytes_eqb_refl, !Z.eqb_refl).
  rewrite HM, Haccount, (proj2 (Z.eqb_neq _ _) Hcount), Hst. cbn [negb orb].
  change (bool_decide (PAYOUT = FREEZE)) with false. change (bool_decide (ACTIVE <> ACTIVE)) with false. cbv iota zeta.
  rewrite Z.eqb_refl, !Z.gtb_ltb. cbn [negb orb].
  destruct Hor as [(S1 & S3 & S4 & S5)|(S1 & S2 & S3 & S4 & S5 & S6)].
  - rewrite S3, S4, S5, Z.eqb_refl. rewrite (proj2 (Z.ltb_ge _ _)) by lia. rewrite (proj2 (Z.ltb_ge _ _)) by lia.
    rewrite (proj2 (Z.eqb_eq _ _)) by lia. cbn [negb orb].
    rewrite !(proj2 (Z.eqb_eq _ _)) by lia. cbn [negb orb].
    match goal with |- context [AccountingHolds ?n supply] => assert (AccountingHolds n supply = true) as -> end.
    { apply AccountingHolds_iff. unfold Canonical. cbn [transition_commitment status reserve_txid reserve_vout reserve_value_sats reserve_bitcoin_block surplus_sats open_redemption_principal advance with_reserve].
      rewrite Hz3. cbn [bool_decide]. rewrite (proj2 (Z.eqb_eq (surplus_sats s) 0)) by lia.
      rewrite (proj2 (Z.eqb_eq (open_redemption_principal s - (reserve_value_sats s - 0)) 0)) by lia. unfold UINT64_MAX. split_and!; [reflexivity|lia|lia|lia]. }
    eexists. split; [reflexivity|]. cbn [transition_commitment status reserve_txid reserve_vout reserve_value_sats reserve_bitcoin_block surplus_sats open_redemption_principal advance with_reserve]. split; lia.
  - destruct (successor_index custody tx parsed Hp S2) as (j & o & _ & _ & Hj & Hn & _ & _).
    assert (sc_new_reserve_vout k <> NO_VOUT) as Hno by (rewrite S4, Hj; exact Hn).
    rewrite (proj2 (Z.eqb_neq _ _) Hno). rewrite S5. rewrite (proj2 (Z.ltb_ge _ _)) by lia. rewrite (proj2 (Z.ltb_ge _ _)) by lia.
    rewrite (proj2 (Z.eqb_eq _ _)) by lia. cbn [negb orb].
    match goal with |- context [AccountingHolds ?n supply] => assert (AccountingHolds n supply = true) as -> end.
    { apply AccountingHolds_iff. unfold Canonical, HasOutpoint. cbn [transition_commitment status reserve_txid reserve_vout reserve_value_sats reserve_bitcoin_block surplus_sats open_redemption_principal advance with_reserve].
      rewrite Hz3. rewrite S3, <- Etx, Hz1, Hz2, (proj2 (Z.eqb_neq _ _) Hno).
      rewrite (proj2 (Z.eqb_neq (reserve_value_sats s - principal_sats p) 0)) by lia. split_and!; [reflexivity|lia|lia|lia]. }
    eexists. split; [reflexivity|]. cbn [transition_commitment status reserve_txid reserve_vout reserve_value_sats reserve_bitcoin_block surplus_sats open_redemption_principal advance with_reserve]. split; lia.
Qed.
End Payout.
