(* ===== verification/TokenMint.v ===== *)
(** * Blocks that mint

    The other direction of the rules of token blocks: a reserve proof in its public carrier,
    whose transition the account accepts and whose deposit the nullifier set does not hold,
    makes a block that the ledger accepts, with one mint in its feed.  Two such blocks, an
    opening and a deposit, follow one another from the empty ledger. *)
From S2P Require Import Prelude Limbs Bytes Sha256 StateDigest MintNullifier NullifierRules NullifierSafety Profile Transaction Block Address.
From S2P Require Import OpAuthorization Marker FinalityCodec AmmMath AmmSafety BtcHeaderChain BtcTx SignerBond Reserve ReserveProof ReserveWire.
From S2P Require Import StakingRules ReserveSafety TokenLedger TokenRules TokenBlock TokenBlockRules.
Import OnChainTokenLedger.

#[local] Opaque sha256 sha256_domain NetworkBinding TREE_DEPTH.

(** ** The wire form of a mint *)

Definition carrier_data (payload : bytes) : bytes := PUBLIC_CARRIER_PREFIX ++ BytesToHex payload.
Definition carrier_tx (payload : bytes) : Transaction :=
  mkTx 1 [] [mkOutput 0 (op_return_script (carrier_data payload))] 0.

Lemma ParseOpReturn_long data :
  255 < size data <= 65535 -> FinalityCodec.ParseOpReturn (op_return_script data) = data.
Proof.
  intros Hs. unfold op_return_script. cbv zeta. rewrite (proj2 (Z.leb_gt _ 75)), (proj2 (Z.leb_gt _ 0xFF)) by lia. cbn [app].
  set (n := size data) in *. unfold FinalityCodec.ParseOpReturn. change (0x6A =? 0x6A) with true. cbn [negb].
  change (0x4D <=? 75) with false. change (0x4D =? 0x4C) with false. change (0x4D =? 0x4D) with true. cbn [andb].
  assert ((size (0x6A :: 0x4D :: n mod 256 :: n / 256 :: data) >? 3) = true) as ->.
  { rewrite Z.gtb_ltb. apply Z.ltb_lt. change (3 < Z.of_nat (S (S (S (S (length data)))))). unfold n, size in Hs. lia. }
  assert (Z.lor (n mod 256) (Z.shiftl (n / 256) 8) = n) as ->.
  { rewrite Z.shiftl_mul_pow2 by lia. change (2 ^ 8) with 256.
    assert (Z.land (n mod 256) (n / 256 * 256) = 0) as H0.
    { apply Z.bits_inj'. intros i Hi. rewrite Z.bits_0, Z.land_spec. change 256 with (2 ^ 8). destruct (Z.lt_ge_cases i 8).
      - rewrite Z.mul_pow2_bits_low by lia. apply andb_false_r.
      - rewrite Z.mod_pow2_bits_high by lia. reflexivity. }
    pose proof (Z.add_lor_land (n mod 256) (n / 256 * 256)) as Ha. rewrite H0 in Ha. pose proof (Z.div_mod n 256). lia. }
  rewrite Z.ltb_irrefl. unfold n, size. rewrite Nat2Z.id. apply take_ge. lia.
Qed.

Lemma carrier_marker payload :
  let data := carrier_data payload in
  is_marker data = true /\ IsReservePublicFamilyLocked_ data = true /\ sensitive_data data = true /\ c1_data data = false
  /\ is_carrier data = true /\ starts_with PUBLIC_CARRIER_PREFIX data = true /\ (forall gate, forbidden_data gate data = false).
Proof. cbv zeta. unfold carrier_data. generalize (BytesToHex payload). intros x. split_and!; [vm_compute; reflexivity..|]. intros g. vm_compute. reflexivity. Qed.

Lemma carried_carrier payload :
  is_bytes payload -> payload <> [] -> carried_proof PUBLIC_CARRIER_PREFIX (carrier_data payload) = Some payload.
Proof.
  intros Hb Hn. unfold carried_proof, carrier_data. rewrite drop_app_length.
  assert (BtcVeldHex_ (BytesToHex payload) = payload) as -> by exact (BtcVeldHex_hash payload Hb). rewrite bytes_eqb_refl. destruct payload; done.
Qed.

(** ** The proof bytes *)

Definition payload_of (c : Claim) : bytes := encode_claim c (MintNullifier.EncodeProof (nullifier_proof c)).

Lemma nullifier_size p : wf_proof p -> IsCanonicalProof p = true -> 32 <= size (MintNullifier.EncodeProof p) <= 8224.
Proof.
  intros (Hl & Hb & Hs) Hc. unfold MintNullifier.EncodeProof. rewrite Hc. cbn [negb]. apply canonical_take in Hc as [Hn _].
  unfold size. rewrite length_app, Hl, concat_hash_length, Hn by done. pose proof (popcount_bound _ Hb) as Hp. rewrite Hl in Hp.
  unfold BITMAP_BYTES, HASH_BYTES in *. lia.
Qed.

Lemma nullifier_bytes p : wf_proof p -> is_bytes (MintNullifier.EncodeProof p).
Proof.
  intros (_ & Hb & Hs). unfold MintNullifier.EncodeProof. destruct (negb _); [constructor|]. apply Forall_app. split; [exact Hb|].
  apply Forall_concat. eapply Forall_impl; [exact Hs|]. by intros x [_ ?].
Qed.

Section Payload.
Context (c : Claim) (Hs : claim_sized c) (Hb : claim_bounds c) (Hn : has_nullifier_proof c = true).

Lemma claim_nullifier : wf_proof (nullifier_proof c) /\ IsCanonicalProof (nullifier_proof c) = true.
Proof. pose proof (cz_nullifier _ Hs) as H. rewrite Hn in H. exact H. Qed.

Lemma payload_size : size (payload_of c) = size (encode_claim c []) + size (MintNullifier.EncodeProof (nullifier_proof c)).
Proof.
  unfold payload_of, encode_claim, put_sized. rewrite !size_app, !size_put_le. change (size (@nil Z)) with 0. lia.
Qed.

Lemma payload_bytes : is_bytes (payload_of c).
Proof.
  unfold payload_of, encode_claim, put_sized. pose proof (nullifier_bytes _ (proj1 claim_nullifier)) as H. destruct Hs.
  repeat match goal with H : is_hash _ |- _ => destruct H as [_ H] end.
  assert (is_bytes (concat (merkle_branch c))) by (apply Forall_concat; eapply Forall_impl; [eassumption|]; by intros x [_ ?]).
  assert (is_bytes (concat (map (fun b => put_le 4 (size b) ++ b) (direct_parents c)))) as Hp.
  { apply Forall_concat, Forall_map. eapply Forall_impl; [eassumption|]. intros x Hx. apply Forall_app. split; [apply put_le_bytes|exact Hx]. }
  unfold is_bytes in *. rewrite ?Forall_app. split_and!; first [assumption|apply put_le_bytes|exact Hp|apply (bool_decide_unpack _); vm_compute; exact I].
Qed.

Lemma payload_decodes :
  300 <= size (payload_of c) <= MAX_RESERVE_PROOF_BYTES -> DecodeProof (payload_of c) = Some c.
Proof.
  intros Hsz. unfold DecodeProof. rewrite (proj2 (Z.ltb_ge _ _)), (proj2 (Z.ltb_ge (size _) 300)) by lia. cbn [orb].
  assert (take 4 (payload_of c) = PROOF_MAGIC) as -> by (unfold payload_of, encode_claim; by rewrite take_app_length').
  rewrite bytes_eqb_refl. cbn [negb]. unfold payload_of. rewrite read_claim_app; [reflexivity|exact Hs|exact Hb|].
  unfold encode_nullifier. rewrite Hn. destruct claim_nullifier as [Hw Hc]. pose proof (nullifier_size _ Hw Hc).
  change (Z.of_nat MIN_PROOF_BYTES) with 32. change (Z.of_nat MAX_PROOF_BYTES) with 8224.
  rewrite (proj2 (Z.ltb_ge _ 32)), (proj2 (Z.ltb_ge 8224 _)) by lia. cbn [orb]. by rewrite null_decode_encode.
Qed.
End Payload.

(** ** A transaction that mints *)

(** A reserve proof in its carrier, whose transition the account accepts and whose deposit
    is not in the nullifier set. *)
Section Mint.
Context (verify : bytes -> bytes -> bytes -> bool) (cfg : BtcHeaderChain.Config) (hd : BtcHeaderChain.t).
Context (covenant : option (list RedeemRequest)) (gate : BtcVeldPegGateState) (S : TokenState) (h : Z).
Context (c : Claim) (v : Result) (L : OnChainTokenLedger.t) (root : Hash256).
Context (Hs : claim_sized c) (Hb : claim_bounds c) (Hn : has_nullifier_proof c = true).
Context (Hlen : 300 <= size (encode_claim c []) <= 20000) (Hop : consumes_deposit (operation c) = true).
Context (Htok : bool_decide (is_Some (tokens_ (money S) !! BTCVELD_TOKEN_ID)) = true) (Hgate : MintAllowed gate = true).
Context (Hsup : (supply_of S <? 0) = false) (Hcl : claim v = c).
Context (Hv : Verify BtcVeldCustodySpk IsCanonicalTokenCreditAddress cfg hd (reserve_state_ (money S)) (supply_of S)
                (payload_of c) BTCVELD_SPV_K_BTC NoPayout = Some v).
Context (Ha : apply_verified (money S) v = Some L) (Ho : IsValidBtcOutpointId (pending_outpoint v) = true).
Context (Hc1 : mint_nullifier_count_ S < UINT64_MAX) (Hc2 : mint_effect_count_ S < UINT64_MAX).
Context (Hi : Insert (mint_nullifier_root_ S) (pending_outpoint v) (nullifier_proof c) = Some root).
Context (Hr : bytes_eqb (mint_nullifier_root_ S) root = false).

Lemma payload_bounds : 332 <= size (payload_of c) <= 28224.
Proof.
  rewrite payload_size. destruct (claim_nullifier c Hs Hn) as [Hw Hc]. pose proof (nullifier_size _ Hw Hc). lia.
Qed.

Lemma carrier_bounds : 255 < size (carrier_data (payload_of c)) <= 65535.
Proof.
  pose proof payload_bounds. unfold carrier_data, size in *. rewrite length_app, length_BytesToHex.
  change (length PUBLIC_CARRIER_PREFIX) with 10%nat. lia.
Qed.

Lemma carrier_marker_data : marker_data (carrier_tx (payload_of c)) = [carrier_data (payload_of c)].
Proof. unfold marker_data, carrier_tx. cbn [outputs map script_pubkey]. by rewrite ParseOpReturn_long by apply carrier_bounds. Qed.

Definition minted (txid : bytes) (vout : Z) : BtcVeldMintTransition :=
  mkMint 0 vout txid (pending_outpoint v) (MintNullifier.EncodeProof (nullifier_proof c)) (mint_nullifier_root_ S) root.

Lemma mint_consumes txid vout :
  size txid = 64 ->
  exists effect, consume_deposit S v txid h 0 vout
    = (with_nullifier S root (mint_nullifier_count_ S + 1) effect (mint_effect_count_ S + 1) (minted txid vout), Yes).
Proof.
  intros Ht. unfold consume_deposit. rewrite Hcl, Hn, Ho, Hi. rewrite (proj2 (Z.eqb_neq (mint_nullifier_count_ S) _)) by lia.
  rewrite (proj2 (Z.eqb_neq (mint_effect_count_ S) _)) by lia. change (0 =? UINT32_MAX) with false. cbn [negb orb andb].
  destruct (claim_nullifier c Hs Hn) as [Hw Hc]. pose proof (nullifier_size _ Hw Hc).
  cbv zeta. rewrite (proj2 (Z.eqb_neq (size (MintNullifier.EncodeProof _)) 0)) by lia.
  unfold ExtendBtcVeldMintEffectCommitment. cbn [mt_tx_index mt_txid mt_outpoint mt_old_root mt_new_root].
  change (0 =? UINT32_MAX) with false. rewrite Ht, Ho, Hr. change (64 =? 64) with true. cbn [negb orb]. by eexists.
Qed.

Lemma mint_applied :
  exists effect txid, apply_transactions verify cfg (Some hd) covenant S 0 [carrier_tx (payload_of c)] h gate
    = (with_ledger (with_nullifier S root (mint_nullifier_count_ S + 1) effect (mint_effect_count_ S + 1) (minted txid 0)) L, Yes).
Proof.
  destruct (carrier_marker (payload_of c)) as (M1 & M2 & M3 & M4 & M5 & M6 & M7).
  set (txid := HashToHex (GetTxID (carrier_tx (payload_of c)))).
  assert (size txid = 64) as Hid.
  { unfold txid, HashToHex, size. rewrite length_BytesToHex. destruct (GetTxID_hash (carrier_tx (payload_of c))) as [-> _]. reflexivity. }
  destruct (mint_consumes txid 0 Hid) as (effect & Hm). exists effect, txid.
  cbn [apply_transactions]. change (u32 0) with 0. unfold ApplyTransactionMarkersLocked_, marker_count. rewrite carrier_marker_data.
  cbn [foldl]. rewrite M1. change (1 <? 0 + 1) with false. cbv match. cbn [marker_loop]. rewrite M1. cbn [negb].
  unfold apply_marker. rewrite M2, M6. cbn [negb].
  rewrite carried_carrier by (try apply payload_bytes; try assumption; intros E; pose proof payload_bounds as Hp; rewrite E in Hp; by destruct Hp).
  unfold MaybeApplyReserveTransitionLocked_. rewrite Htok.
  rewrite (proj2 (Z.eqb_neq (size (payload_of c)) 0)) by (pose proof payload_bounds; lia). cbn [negb orb wrapper_allowed].
  rewrite payload_decodes by (try assumption; pose proof payload_bounds; assert (28224 < MAX_RESERVE_PROOF_BYTES) by (vm_compute; reflexivity); lia).
  rewrite Hop, Hgate. cbn [negb andb orb]. unfold payout_context.
  rewrite bool_decide_eq_false_2 by (intros E; rewrite E in Hop; discriminate Hop).
  rewrite Hsup, Hv. cbn [wrapper_matches negb]. fold txid. unfold apply_transition. rewrite Ha, Hcl, Hop, Hm.
  rewrite (bool_decide_eq_false_2 (operation c = PAYOUT)) by (intros E; rewrite E in Hop; discriminate Hop).
  rewrite (bool_decide_eq_false_2 (Yes = No)) by discriminate. by rewrite andb_false_r.
Qed.
End Mint.

(** ** A block that mints *)

Section MintBlock.
Context (verify : bytes -> bytes -> bytes -> bool) (cfg : BtcHeaderChain.Config) (hd : BtcHeaderChain.t).
Context (covenant : option (list RedeemRequest)) (gate : BtcVeldPegGateState) (S : TokenState) (hdr : BlockHeader) (h : Z).
Context (c : Claim) (v : Result) (L : OnChainTokenLedger.t) (root : Hash256) (r : State).
#[local] Abbreviation r0 := (reserve_state_ (money S)).
#[local] Abbreviation S1 := (started S r0 h).
#[local] Abbreviation hash := (BlockHeaderOps.GetHash hdr).

(** The block itself is acceptable, and so is its one transition. *)
Context (Hguard : (supply_of S <? 0) || negb (AccountingHolds r0 (supply_of S)) || (h <? processed_veld_height r0)
     || ((h =? processed_veld_height r0) && negb (HashIsZero (processed_veld_block_hash r0))
         && negb (bytes_eqb (processed_veld_block_hash r0) hash)) = false).
Context (Hfreeze : bitcoin_reorg_freeze cfg (Some hd) r0 = Some false).
Context (Hs : claim_sized c) (Hb : claim_bounds c) (Hn : has_nullifier_proof c = true).
Context (Hlen : 300 <= size (encode_claim c []) <= 20000) (Hop : consumes_deposit (operation c) = true).
Context (Htok : bool_decide (is_Some (tokens_ (money S1) !! BTCVELD_TOKEN_ID)) = true) (Hgate : MintAllowed gate = true).
Context (Hsup : (supply_of S1 <? 0) = false) (Hcl : claim v = c).
Context (Hv : Verify BtcVeldCustodySpk IsCanonicalTokenCreditAddress cfg hd (reserve_state_ (money S1)) (supply_of S1)
                (payload_of c) BTCVELD_SPV_K_BTC NoPayout = Some v).
Context (Ha : apply_verified (money S1) v = Some L) (Ho : IsValidBtcOutpointId (pending_outpoint v) = true).
Context (Hc1 : mint_nullifier_count_ S < UINT64_MAX) (Hc2 : mint_effect_count_ S < UINT64_MAX).
Context (Hi : Insert (mint_nullifier_root_ S) (pending_outpoint v) (nullifier_proof c) = Some root).
Context (Hr : bytes_eqb (mint_nullifier_root_ S) root = false).
Context (Hsp : SetProcessed (reserve_state_ L) h hash = Some r).
Context (HsL : 0 <= default 0 (supply_ L !! BTCVELD_TOKEN_ID)) (Hacc : AccountingHolds r (default 0 (supply_ L !! BTCVELD_TOKEN_ID)) = true).
Context (Hcount : transition_count r = transition_count r0 + 1) (Hmax : transition_count r0 < UINT64_MAX).

Lemma mint_block_accepted :
  exists effect txid,
    TokenBlock.ProcessBlock verify cfg (Some hd) covenant S (mkBlock hdr [carrier_tx (payload_of c)] h) gate
    = (mkTokens (with_money L (balances_ L) (supply_ L) r) root (mint_nullifier_count_ S + 1) effect (mint_effect_count_ S + 1)
         (redeem_commitment_root_ S) (redeem_commitment_count_ S) (h, hash) [] [minted S1 c v root txid 0] [] 1, Yes).
Proof.
  destruct (mint_applied verify cfg hd covenant gate S1 h c v L root Hs Hb Hn Hlen Hop Htok Hgate Hsup Hcl Hv Ha Ho Hc1 Hc2 Hi Hr)
    as (effect & txid & Happ).
  exists effect, txid. destruct (carrier_marker (payload_of c)) as (M1 & M2 & M3 & M4 & M5 & M6 & M7).
  pose proof (carrier_marker_data c Hs Hn Hlen) as Hd. unfold TokenBlock.ProcessBlock. cbv zeta.
  cbn [header height transactions]. rewrite Hguard. cbn [foldl existsb].
  unfold CountReserveTransitionCarriersLocked_, HasForbiddenBtcVeldMarkerLocked_, HasReserveSensitiveMarkerLocked_, HasC1ReservationMarkerLocked_.
  rewrite Hd. cbn [foldl existsb]. rewrite M3, M4, M5, M7, Hfreeze. change (1 <? 0 + (0 + 1)) with false. cbn [andb orb]. cbv match.
  fold (started S r0 h). rewrite Happ. unfold finish_block. cbn [last_block_redeems_ with_ledger with_nullifier started cleared sort_redeems foldr commit_redeems].
  unfold supply_of, with_reserve_state, with_commitment, with_ledger, with_edges.
  cbn [money supply_ reserve_state_ with_money with_nullifier with_ledger].
  rewrite (proj2 (Z.ltb_ge _ 0)) by exact HsL. rewrite Hsp, Hacc, Hcount. cbn [negb].
  rewrite (proj2 (Z.eqb_neq (transition_count r0 + 1) _)) by lia. rewrite (proj2 (Z.eqb_neq (transition_count r0) UINT64_MAX)) by lia.
  rewrite Z.eqb_refl. reflexivity.
Qed.
End MintBlock.

(** ** Two deposits *)

(** An opening of the reserve with 150,000 sats that mints 100,000, and a deposit of 60,000
    that raises it to 200,000 and mints 50,000; both to the sample address. *)
Definition open_outs : list bytes := Eval vm_compute in
  [sample_out 150000 BtcVeldCustodySpk; sample_out 0 (OpenAuthScript sample_prior auth_address 100000)].
Definition open_tx : bytes := Eval vm_compute in sample_tx [sample_in sample_parent_txid] open_outs.
Definition open_txid : Hash256 := Eval vm_compute in Hash256d open_tx.
Definition open_claim (p : Proof) : Claim :=
  mkClaim OPEN sample_binding sample_prior ZeroHash NO_VOUT 0 0 open_txid 0 150000 open_txid ReserveSafety.sample_block
    0 [] opening_commitment 100000 open_tx [sample_parent] p true.
Definition opened_commitment : Hash256 := Eval vm_compute in TransitionCommitment (open_claim EmptyProof).

Definition deposit_parent : bytes := Eval vm_compute in
  sample_tx [sample_in (replicate 32 10)]
    [sample_out 60000 BtcVeldCustodySpk; sample_out 0 ([0x6a; 42] ++ RECIPIENT_TAG ++ auth_address)].
Definition deposit_parent_txid : Hash256 := Eval vm_compute in Hash256d deposit_parent.
Definition pending_commitment : Hash256 := Eval vm_compute in PendingDepositCommitment deposit_parent_txid 0 60000 auth_address.
Definition deposit_tx : bytes := Eval vm_compute in
  sample_tx [sample_in open_txid; sample_in deposit_parent_txid]
    [sample_out 200000 BtcVeldCustodySpk; sample_out 0 (AuthScript DEPOSIT opened_commitment pending_commitment 50000)].
Definition deposit_txid : Hash256 := Eval vm_compute in Hash256d deposit_tx.
Definition deposit_block : Hash256 := replicate 32 4.
Definition deposit_claim (p : Proof) : Claim :=
  mkClaim DEPOSIT sample_binding opened_commitment open_txid 0 150000 1 deposit_txid 0 200000 deposit_txid deposit_block
    0 [] pending_commitment 50000 deposit_tx [open_tx; deposit_parent] p true.
Definition open_outpoint : bytes := Eval vm_compute in BtcDepositOutpointId open_txid 0.
Definition deposit_outpoint : bytes := Eval vm_compute in BtcDepositOutpointId deposit_parent_txid 0.

Definition mint_chain : BtcHeaderChain.t :=
  BtcHeaderChain.mk
    (<[ReserveSafety.sample_block := mkBtcHeader [] ReserveSafety.sample_block ZeroHash open_txid 0 0 0 []]>
      (<[deposit_block := mkBtcHeader [] deposit_block ReserveSafety.sample_block deposit_txid 0 0 1 []]>
        {[replicate 32 2 := mkBtcHeader [] (replicate 32 2) ZeroHash ZeroHash 0 0 145 []]}))
    (replicate 32 2) deposit_block [ReserveSafety.sample_block; deposit_block].

Definition mint_header : BlockHeader := mkHeader 1 ZeroHash ZeroHash 0 0 0.
Definition mint_hash : Hash256 := Eval vm_compute in BlockHeaderOps.GetHash mint_header.


Definition opened_reserve (h : Z) (hash : Hash256) : State :=
  mkState ACTIVE open_txid 0 150000 ReserveSafety.sample_block 1 opened_commitment 50000 0 h hash.
Definition account_of (amount : Z) (r : State) : OnChainTokenLedger.t :=
  OnChainTokenLedger.mk {[BTCVELD_TOKEN_ID := btcveld_info]} {[account_key BTCVELD_TOKEN_ID auth_address := amount]}
    {[BTCVELD_TOKEN_ID := amount]} 0 0 r.
Definition raised_commitment : Hash256 := Eval vm_compute in TransitionCommitment (deposit_claim EmptyProof).
Definition raised_reserve (h : Z) (hash : Hash256) : State :=
  mkState ACTIVE deposit_txid 0 200000 deposit_block 2 raised_commitment 50000 0 h hash.

(** The ledgers before and after, over any accumulators. *)
Definition first_tokens (root effect redeem : Hash256) : TokenState :=
  mkTokens Empty root 0 effect 0 redeem 0 (0, ZeroHash) [] [] [] 0.
Definition opened_tokens (root effect redeem : Hash256) (l : list BtcVeldMintTransition) : TokenState :=
  mkTokens (account_of 100000 (opened_reserve 7 mint_hash)) root 1 effect 1 redeem 0 (7, mint_hash) [] l [] 1.
Definition raised_tokens (root effect redeem : Hash256) (l : list BtcVeldMintTransition) : TokenState :=
  mkTokens (account_of 150000 (raised_reserve 8 mint_hash)) root 2 effect 2 redeem 0 (8, mint_hash) [] l [] 1.

Definition open_result (p : Proof) : Result := deposit_result (open_claim p) auth_address open_outpoint 150000.
Definition raise_result (p : Proof) : Result := deposit_result (deposit_claim p) auth_address deposit_outpoint 60000.

Ltac sized := first [apply (bool_decide_unpack _); vm_compute; exact I|
  split; [reflexivity|]; apply (bool_decide_unpack _); vm_compute; exact I|
  repeat constructor; apply (bool_decide_unpack _); vm_compute; exact I].

Section Samples.
Context (p : Proof) (Hw : wf_proof p) (Hc : IsCanonicalProof p = true).

Lemma open_sized : claim_sized (open_claim p).
Proof. split; first [exact (conj Hw Hc)|sized]. Qed.

Lemma deposit_sized : claim_sized (deposit_claim p).
Proof. split; first [exact (conj Hw Hc)|sized]. Qed.

Lemma open_bounds : claim_bounds (open_claim p).
Proof. unfold claim_bounds. split_and!; first [vm_compute; reflexivity|vm_compute; discriminate|intros _; reflexivity]. Qed.

Lemma deposit_bounds : claim_bounds (deposit_claim p).
Proof. unfold claim_bounds. split_and!; first [vm_compute; reflexivity|vm_compute; discriminate|intros _; reflexivity]. Qed.

Lemma open_length : 300 <= size (encode_claim (open_claim p) []) <= 20000.
Proof. vm_compute. split; discriminate. Qed.

Lemma deposit_length : 300 <= size (encode_claim (deposit_claim p) []) <= 20000.
Proof. vm_compute. split; discriminate. Qed.
End Samples.

Lemma wire_bounds c :
  claim_sized c -> has_nullifier_proof c = true -> 300 <= size (encode_claim c []) <= 20000 ->
  300 <= size (payload_of c) <= MAX_RESERVE_PROOF_BYTES.
Proof.
  intros Hs Hn Hl. pose proof (payload_bounds c Hs Hn Hl). assert (28224 < MAX_RESERVE_PROOF_BYTES) by (vm_compute; reflexivity). lia.
Qed.

Section Accepted.
Context (p : Proof) (Hw : wf_proof p) (Hc : IsCanonicalProof p = true).
Context (root root' effect redeem : Hash256) (Hr : bytes_eqb root root' = false).
Context (verify : bytes -> bytes -> bytes -> bool).

Lemma open_verified :
  Verify BtcVeldCustodySpk IsCanonicalTokenCreditAddress sample_cfg mint_chain InitialState 0 (payload_of (open_claim p))
    BTCVELD_SPV_K_BTC NoPayout = Some (open_result p).
Proof.
  unfold Verify. rewrite payload_decodes; [vm_compute; reflexivity|by apply open_sized|apply open_bounds|reflexivity|].
  apply wire_bounds; [by apply open_sized|reflexivity|apply open_length].
Qed.

Lemma raise_verified :
  Verify BtcVeldCustodySpk IsCanonicalTokenCreditAddress sample_cfg mint_chain (opened_reserve 7 mint_hash) 100000
    (payload_of (deposit_claim p)) BTCVELD_SPV_K_BTC NoPayout = Some (raise_result p).
Proof.
  unfold Verify. rewrite payload_decodes; [vm_compute; reflexivity|by apply deposit_sized|apply deposit_bounds|reflexivity|].
  apply wire_bounds; [by apply deposit_sized|reflexivity|apply deposit_length].
Qed.

Lemma open_block_accepted :
  Insert root open_outpoint p = Some root' ->
  exists effect' t,
    TokenBlock.ProcessBlock verify sample_cfg (Some mint_chain) None (first_tokens root effect redeem)
      (mkBlock mint_header [carrier_tx (payload_of (open_claim p))] 7) sample_gate = (opened_tokens root' effect' redeem [t], Yes)
    /\ mt_outpoint t = open_outpoint /\ mt_proof t = MintNullifier.EncodeProof p.
Proof.
  intros Hi.
  destruct (mint_block_accepted verify sample_cfg mint_chain None sample_gate (first_tokens root effect redeem) mint_header 7
    (open_claim p) (open_result p) (account_of 100000 (opened_reserve 0 ZeroHash)) root' (opened_reserve 7 mint_hash))
    as (effect' & txid & E);
    [vm_compute; reflexivity|vm_compute; reflexivity|by apply open_sized|apply open_bounds|reflexivity|apply open_length|reflexivity|
     vm_compute; reflexivity|reflexivity|reflexivity|reflexivity|exact open_verified|vm_compute; reflexivity|vm_compute; reflexivity|
     reflexivity|reflexivity|exact Hi|exact Hr|vm_compute; reflexivity|vm_compute; discriminate|vm_compute; reflexivity|reflexivity|
     reflexivity|].
  exists effect'. eexists. split; [exact E|]. split; reflexivity.
Qed.

Lemma raise_block_accepted l :
  Insert root deposit_outpoint p = Some root' ->
  exists effect' t,
    TokenBlock.ProcessBlock verify sample_cfg (Some mint_chain) None (opened_tokens root effect redeem l)
      (mkBlock mint_header [carrier_tx (payload_of (deposit_claim p))] 8) sample_gate = (raised_tokens root' effect' redeem [t], Yes)
    /\ mt_outpoint t = deposit_outpoint /\ mt_proof t = MintNullifier.EncodeProof p.
Proof.
  intros Hi.
  destruct (mint_block_accepted verify sample_cfg mint_chain None sample_gate (opened_tokens root effect redeem l) mint_header 8
    (deposit_claim p) (raise_result p) (account_of 150000 (raised_reserve 7 mint_hash)) root' (raised_reserve 8 mint_hash))
    as (effect' & txid & E);
    [vm_compute; reflexivity|vm_compute; reflexivity|by apply deposit_sized|apply deposit_bounds|reflexivity|apply deposit_length|reflexivity|
     vm_compute; reflexivity|reflexivity|reflexivity|reflexivity|exact raise_verified|vm_compute; reflexivity|vm_compute; reflexivity|
     reflexivity|reflexivity|exact Hi|exact Hr|vm_compute; reflexivity|vm_compute; discriminate|vm_compute; reflexivity|reflexivity|
     reflexivity|].
  exists effect'. eexists. split; [exact E|]. split; reflexivity.
Qed.
End Accepted.

Lemma proof_of_canonical ks key : IsCanonicalProof (proof_of ks key) = true.
Proof. destruct (proof_of_expand ks key) as [_ H]. unfold ExpandSiblings in H. by destruct (IsCanonicalProof _). Qed.

(** ** Their roots *)

(** The empty subtrees from [n] levels down to the leaf, each hashed once. *)
Fixpoint empties (n : nat) : list Hash256 :=
  match n with
  | O => [EmptyLeaf]
  | S n' => let es := empties n' in let e := nth 0 es [] in MintNullifier.Node e e :: es
  end.

(** The roots of the empty set, of one key and of two. *)
Definition first_roots (k1 k2 : Hash256) : Hash256 * Hash256 * Hash256 :=
  let es := empties TREE_DEPTH in
  let path := path_from k1 0 (OccupiedLeaf k1) (tl es) in
  let d := divergence TREE_DEPTH k2 k1 0 in
  (nth 0 es [], nth 0 path [], nth 0 (path_from k2 0 (OccupiedLeaf k2) (<[d := nth (S d) path []]> (tl es))) []).

Lemma empties_head n : nth 0 (empties n) [] = empty_subtree n.
Proof. induction n as [|n IH]; [reflexivity|]. cbn [empties nth empty_subtree]. by rewrite IH. Qed.

Lemma empties_siblings n key : tl (empties n) = siblings_of n key [].
Proof.
  induction n as [|n IH]; [reflexivity|]. cbn [empties tl siblings_of]. unfold side. rewrite !filter_nil, set_root_nil, <- IH.
  rewrite <- empties_head. by destruct n.
Qed.

Lemma first_roots_eq k1 k2 :
  (divergence TREE_DEPTH k2 k1 0 < TREE_DEPTH)%nat ->
  first_roots k1 k2 = (set_root TREE_DEPTH [], set_root TREE_DEPTH [k1], set_root TREE_DEPTH [k2; k1]).
Proof.
  intros Hd. unfold first_roots. cbv zeta. rewrite empties_head, (empties_siblings TREE_DEPTH k1), inserted_root, set_root_nil. f_equal.
  rewrite <- (inserted_root k2 [k1]). do 2 f_equal.
  pose proof (siblings_after TREE_DEPTH k2 k1 [] (Nat.le_refl _)) as H. cbv zeta in H. rewrite Nat.sub_diag in H.
  rewrite (H Hd), Nat.sub_0_r, <- (empties_siblings TREE_DEPTH k2), (empties_siblings TREE_DEPTH k1). reflexivity.
Qed.

Definition open_key : Hash256 := Eval vm_compute in KeyForOutpoint open_outpoint.
Definition deposit_key : Hash256 := Eval vm_compute in KeyForOutpoint deposit_outpoint.

Lemma sample_roots :
  (let '(r0, r1, r2) := first_roots open_key deposit_key in
   negb (bytes_eqb r0 r1) && negb (bytes_eqb r1 r2) && (divergence TREE_DEPTH deposit_key open_key 0 <? TREE_DEPTH)%nat) = true.
Proof. vm_compute. reflexivity. Qed.

Lemma sample_keys : KeyForOutpoint open_outpoint = open_key /\ KeyForOutpoint deposit_outpoint = deposit_key.
Proof. split; vm_compute; reflexivity. Qed.

Lemma EmptyRoot_eq : EmptyRoot = set_root TREE_DEPTH [].
Proof. unfold EmptyRoot, EmptyHashes. by rewrite Nat.sub_0_r, set_root_nil. Qed.

Lemma sample_roots_differ :
  bytes_eqb EmptyRoot (set_root TREE_DEPTH [open_key]) = false
  /\ bytes_eqb (set_root TREE_DEPTH [open_key]) (set_root TREE_DEPTH [deposit_key; open_key]) = false /\ open_key <> deposit_key.
Proof.
  pose proof sample_roots as H. destruct (Nat.ltb_spec (divergence TREE_DEPTH deposit_key open_key 0) TREE_DEPTH) as [Hd|].
  2:{ destruct (first_roots _ _) as [[r0 r1] r2]. by rewrite andb_false_r in H. }
  rewrite first_roots_eq in H by exact Hd. cbv match in H. apply andb_true_iff in H as [H _]. apply andb_true_iff in H as [H0 H1].
  apply negb_true_iff in H0. apply negb_true_iff in H1. split; [|split; [exact H1|vm_compute; discriminate]].
  rewrite EmptyRoot_eq. exact H0.
Qed.

(** The blocks follow one another from the empty ledger. *)
Lemma two_deposits verify :
  exists block1 block2 t1 t2 S1 S2,
    TokenBlock.ProcessBlock verify sample_cfg (Some mint_chain) None NoTokens block1 sample_gate = (S1, Yes)
    /\ TokenBlock.ProcessBlock verify sample_cfg (Some mint_chain) None S1 block2 sample_gate = (S2, Yes)
    /\ last_block_mint_transitions_ S1 = [t1] /\ last_block_mint_transitions_ S2 = [t2]
    /\ honest_run [] [(mt_outpoint t1, default EmptyProof (MintNullifier.DecodeProof (mt_proof t1)));
                      (mt_outpoint t2, default EmptyProof (MintNullifier.DecodeProof (mt_proof t2)))]
    /\ GetBalance (money S2) BTCVELD_TOKEN_ID auth_address = 150000.
Proof.
  destruct sample_roots_differ as (R1 & R2 & Hk). destruct sample_keys as [K1 K2].
  destruct (insert_complete [] open_outpoint) as (W1 & H1 & I1); [constructor|apply not_elem_of_nil|].
  destruct (insert_complete [KeyForOutpoint open_outpoint] deposit_outpoint) as (W2 & H2 & I2);
    [constructor; [apply KeyForOutpoint_hash|constructor]|rewrite K1, K2, list_elem_of_singleton; congruence|].
  set (p1 := proof_of [] _) in *. set (p2 := proof_of [_] _) in *.
  assert (C1 : IsCanonicalProof p1 = true) by apply proof_of_canonical. assert (C2 : IsCanonicalProof p2 = true) by apply proof_of_canonical.
  rewrite <- EmptyRoot_eq, K1 in I1. rewrite K1, K2 in I2.
  destruct (open_block_accepted p1 W1 C1 EmptyRoot _ EmptyBtcVeldMintEffectCommitment EmptyBtcVeldRedeemCommitment R1 verify I1)
    as (e1 & t1 & B1 & O1 & P1).
  destruct (raise_block_accepted p2 W2 C2 _ _ e1 EmptyBtcVeldRedeemCommitment R2 verify [t1] I2) as (e2 & t2 & B2 & O2 & P2).
  do 2 eexists. exists t1, t2. do 2 eexists. split; [exact B1|]. split; [exact B2|]. split; [reflexivity|]. split; [reflexivity|].
  rewrite O1, O2, P1, P2, !null_decode_encode by assumption. split; [|unfold raised_tokens; cbn [money]; vm_compute; reflexivity].
  cbn [honest_run default]. split; [exact W1|]. split; [exact H1|]. split; [exact W2|]. split; [exact H2|exact I].
Qed.
