(* ===== verification/TokenBlockSafety.v ===== *)
(** * Safety of token blocks

    Blocks and the calls that follow them keep the account solvent, move the reserve by at
    most one edge, mint a deposit once, and change nothing when they are refused; a payout
    that Bitcoin shows cannot be withheld. *)
From S2P Require Import Prelude Limbs Bytes Sha256 StateDigest MintNullifier NullifierRules NullifierSafety Profile.
From S2P Require Import Transaction Block Address OpAuthorization Marker AmmMath MapSum BtcHeaderChain BtcTx SignerBond Reserve.
From S2P Require Import ReserveProof ReserveProofRules ReserveWire ReserveSafety TokenLedger TokenRules TokenBlock TokenBlockRules.
From S2P Require Import TokenPayout TokenMint Amm AmmSafety.
Import OnChainTokenLedger.

#[local] Opaque sha256 sha256_domain NetworkBinding TREE_DEPTH.

(** ** The parts of a block *)

Section Blocks.
Context (verify : bytes -> bytes -> bytes -> bool).
Context (cfg : BtcHeaderChain.Config) (headers : option BtcHeaderChain.t) (covenant : option (list RedeemRequest)).

#[local] Abbreviation process := (TokenBlock.ProcessBlock verify cfg headers covenant).
#[local] Abbreviation effects := (effects verify cfg headers).
#[local] Abbreviation effect := (effect verify cfg headers).

Definition block_strict (txs : list Transaction) (freeze : bool) : bool :=
  existsb HasReserveSensitiveMarkerLocked_ txs || freeze || existsb HasC1ReservationMarkerLocked_ txs.

(** A block that passes the guards, up to its transactions. *)
Record opened (S : TokenState) (block : Block) (freeze : bool) (r1 : State) : Prop := {
  op_supply : 0 <= supply_of S;
  op_account : AccountingHolds (reserve_state_ (money S)) (supply_of S) = true;
  op_height : processed_veld_height (reserve_state_ (money S)) <= height block;
  op_same : height block = processed_veld_height (reserve_state_ (money S)) ->
            HashIsZero (processed_veld_block_hash (reserve_state_ (money S))) = true
            \/ processed_veld_block_hash (reserve_state_ (money S)) = BlockHeaderOps.GetHash (header block);
  op_freeze : bitcoin_reorg_freeze cfg headers (reserve_state_ (money S)) = Some freeze;
  op_reserve : (if freeze then ApplyFreeze (reserve_state_ (money S)) (reserve_txid (reserve_state_ (money S)))
                                 (reserve_bitcoin_block (reserve_state_ (money S)))
                else Some (reserve_state_ (money S))) = Some r1 }.

Lemma process_inv S block gate S' w :
  process S block gate = (S', w) -> w <> Threw ->
  (S' = S /\ w = No)
  \/ exists freeze r1 S3 w3, opened S block freeze r1
     /\ apply_transactions verify cfg headers covenant (started S r1 (height block)) 0 (transactions block) (height block) gate
        = (S3, w3)
     /\ ((w3 = No /\ w = No /\ S' = if block_strict (transactions block) freeze then S else S3)
         \/ (w3 = Yes /\ exists S4,
               finish_block S3 (height block) (BlockHeaderOps.GetHash (header block))
                 (transition_count (reserve_state_ (money S))) = (S4, w)
               /\ S' = match w with No => if block_strict (transactions block) freeze then S else S4 | _ => S4 end)).
Proof.
  unfold TokenBlock.ProcessBlock. cbv zeta. fold (block_strict (transactions block)).
  destruct ((supply_of S <? 0) || _ || _ || _) eqn:Eg; [intros [= <- <-]; by left|].
  destruct (1 <? _); [intros [= <- <-]; by left|].
  destruct (bitcoin_reorg_freeze _ _ _) as [freeze|] eqn:Ef; [|intros [= <- <-]; by left].
  destruct (freeze && _); [intros [= <- <-]; by left|]. destruct (existsb (fun tx => _) _); [intros [= <- <-]; by left|].
  match goal with |- context [match ?x with Some r1 => _ | None => _ end = _] => destruct x as [r1|] eqn:Er end.
  2:{ intros [= <- <-] _. left. split; [|reflexivity]. match goal with |- (if ?b then _ else _) = _ => destruct b; reflexivity end. }
  fold (started S r1 (height block)).
  assert (opened S block freeze r1) as Ho.
  { bool_hyps. split; try assumption; try lia. intros Eh.
    match goal with H : (height block =? _) && _ && _ = false |- _ => rewrite (proj2 (Z.eqb_eq _ _) Eh) in H; cbn [andb] in H;
      apply andb_false_iff in H as [H|H]; apply negb_false_iff in H end; [by left|right; by apply bytes_eqb_eq]. }
  destruct (apply_transactions _ _ _ _ _ _ _ _ _) as [S3 w3] eqn:Ea. intros H Hw. right. exists freeze, r1, S3, w3.
  split; [exact Ho|]. split; [exact Ea|]. destruct w3.
  - right. split; [reflexivity|]. destruct (finish_block _ _ _ _) as [S4 w4] eqn:E4. exists S4.
    destruct w4; injection H as <- <-; (split; reflexivity).
  - left. injection H as <- <-. split_and!; reflexivity.
  - injection H as <- <-. by destruct Hw.
Qed.

Lemma finish_spec S h bh c S' :
  finish_block S h bh c = (S', Yes) ->
  exists r, SetProcessed (reserve_state_ (money S)) h bh = Some r /\ AccountingHolds r (supply_of S) = true /\ 0 <= supply_of S
  /\ money S' = with_money (money S) (balances_ (money S)) (supply_ (money S)) r /\ same_nullifier S S'
  /\ ((transition_count r = c /\ last_block_reserve_edges_ S' = last_block_reserve_edges_ S)
      \/ (transition_count r = c + 1 /\ last_block_reserve_edges_ S' = 1)).
Proof.
  unfold finish_block. destruct (commit_redeems _ _ _ _) as [[root count]|]; [|done]. cbv zeta.
  change (supply_of (with_commitment S root count (h, bh))) with (supply_of S).
  change (money (with_commitment S root count (h, bh))) with (money S).
  destruct (Z.ltb_spec (supply_of S) 0); [done|]. destruct (SetProcessed _ _ _) as [r|]; [|done].
  destruct (AccountingHolds r (supply_of S)) eqn:Ea; cbn [negb]; [|done]. destruct (Z.eqb_spec (transition_count r) c) as [Ec|Ec].
  - intros [= <-]. exists r. split_and!; try reflexivity; try assumption; [split_and!; reflexivity|]. left. split; [exact Ec|reflexivity].
  - destruct (_ || _) eqn:Eo; [done|]. bool_hyps.
    match goal with H : (_ =? _) = true |- _ => apply Z.eqb_eq in H end.
    intros [= <-]. exists r. split_and!; try reflexivity; try assumption; [split_and!; reflexivity|]. right. split; [assumption|reflexivity].
Qed.

(** ** Refusals *)

(** A marker that is not reserve-sensitive is a transfer. *)
Lemma plain_effect data tx h gate S S' :
  effect data tx h gate S S' -> sensitive_data data = false ->
  reserve_state_ (money S') = reserve_state_ (money S) /\ supply_of S' = supply_of S
  /\ last_block_redeems_ S' = last_block_redeems_ S.
Proof.
  intros [op Ed Ei Ea _ _ Hr|proof payout v Hc _ _ _ _] Hs.
  - unfold sensitive_data in Hs. destruct (_ || _) in Hs; [done|]. assert (starts_with TOKEN_OP_RETURN_PREFIX data = true) as Ht.
    { unfold DecodeTokenOp in Ed. destruct (_ <? _) in Ed; [done|]. by destruct (starts_with _ data). }
    rewrite Ht, Ed in Hs. cbn [negb] in Hs. unfold ApplyTokenOp in Ea.
    destruct (bytes_eqb (token_id op) BTCVELD_TOKEN_ID) eqn:Eb; cbn [negb orb] in Hs, Ea; [|done].
    destruct (negb _) in Ea; [done|]. destruct (_ <=? _) in Ea; [done|]. destruct (action op) eqn:Eact; try done.
    destruct (negb _) in Ea; [done|]. destruct (_ || _) in Ea; [done|]. destruct (negb _) in Ea; [done|]. destruct (_ <? _) in Ea; [done|].
    unfold apply_transfer in Ea. destruct Hr as (_ & vout & Hr). rewrite Eact in Hr. cbn in Hr. rewrite app_nil_r in Hr. rewrite Hr. unfold supply_of.
    destruct (bytes_eqb _ _) in Ea; [injection Ea as <-; split_and!; reflexivity|].
    destruct (_ || _ || _) in Ea; [done|]. destruct (negb _) in Ea; [done|]. destruct (negb _) in Ea; [done|].
    injection Ea as <-. split_and!; reflexivity.
  - exfalso. unfold is_carrier in Hc. unfold sensitive_data in Hs. destruct (IsReservePublicFamilyLocked_ data); cbn [orb] in Hs; [done|].
    destruct (starts_with MSPV_PREFIX data); [done|]. destruct (starts_with TOKEN_OP_RETURN_PREFIX data); cbn [negb] in *; [|done].
    destruct (DecodeTokenOp data) as [op|]; [|done]. unfold IsReserveIssuerCarrierLocked_ in Hc.
    destruct (bytes_eqb (token_id op) BTCVELD_TOKEN_ID); cbn [negb andb] in *; [|done]. destruct (action op); done.
Qed.

Lemma plain_effects h gate txs S S' :
  effects h gate txs S S' -> existsb HasReserveSensitiveMarkerLocked_ txs = false ->
  reserve_state_ (money S') = reserve_state_ (money S) /\ supply_of S' = supply_of S
  /\ last_block_redeems_ S' = last_block_redeems_ S.
Proof.
  induction 1 as [S|tx txs S S' _ IH|tx txs data S S1 S' Hd He _ IH]; cbn [existsb]; intros Hs.
  - split_and!; reflexivity.
  - apply orb_false_iff in Hs as [_ Hs]. by apply IH.
  - apply orb_false_iff in Hs as [Ht Hs]. destruct (IH Hs) as (-> & -> & ->).
    apply (plain_effect _ _ _ _ _ _ He). unfold HasReserveSensitiveMarkerLocked_ in Ht.
    destruct (sensitive_data data) eqn:E; [|reflexivity]. exfalso.
    assert (existsb sensitive_data (marker_data tx) = true) as Hx by (apply existsb_exists; exists data; by rewrite <- list_elem_of_In).
    congruence.
Qed.

Lemma started_parts S r h :
  reserve_state_ (money (started S r h)) = r /\ supply_of (started S r h) = supply_of S
  /\ last_block_redeems_ (started S r h) = [] /\ last_block_mint_transitions_ (started S r h) = []
  /\ last_block_reserve_edges_ (started S r h) = 0
  /\ mint_nullifier_root_ (started S r h) = mint_nullifier_root_ S /\ mint_nullifier_count_ (started S r h) = mint_nullifier_count_ S.
Proof.
  unfold started, supply_of, MaybeRegisterBtcVeld. cbn [money with_ledger cleared with_reserve_state].
  destruct (_ =? _); [split_and!; reflexivity|]. destruct (_ <? _); [split_and!; reflexivity|].
  destruct (bool_decide _); split_and!; reflexivity.
Qed.

(** A block without a sensitive marker is not refused after its transactions. *)
Lemma plain_finish S block gate freeze r1 S3 S4 :
  HashIsZero (BlockHeaderOps.GetHash (header block)) = false -> block_strict (transactions block) freeze = false ->
  opened S block freeze r1 -> effects (height block) gate (transactions block) (started S r1 (height block)) S3 ->
  finish_block S3 (height block) (BlockHeaderOps.GetHash (header block)) (transition_count (reserve_state_ (money S))) <> (S4, No).
Proof.
  intros Hz Es Ho Hy Hf. unfold block_strict in Es. apply orb_false_iff in Es as [Es _]. apply orb_false_iff in Es as [Es Efr].
  apply plain_effects in Hy as (Er & Esup & Ered); [|exact Es].
  destruct (started_parts S r1 (height block)) as (P1 & P2 & P3 & _). rewrite P1 in Er. rewrite P2 in Esup. rewrite P3 in Ered.
  destruct Ho as [O1 O2 O3 O4 _ O6]. rewrite Efr in O6. injection O6 as <-. set (r := reserve_state_ (money S)) in *.
  unfold finish_block in Hf. rewrite Ered in Hf. cbn [sort_redeems foldr commit_redeems] in Hf. cbv zeta in Hf.
  change (supply_of (with_commitment S3 _ _ _)) with (supply_of S3) in Hf.
  change (money (with_commitment S3 _ _ _)) with (money S3) in Hf. rewrite Esup, Er in Hf.
  rewrite (proj2 (Z.ltb_ge _ _) O1) in Hf. unfold SetProcessed in Hf.
  pose proof (proj1 (AccountingHolds_iff _ _) O2) as (Hcan & _). rewrite Hcan, Hz, (proj2 (Z.ltb_ge _ _) O3) in Hf. cbn [negb orb] in Hf.
  destruct (_ && _ && _) eqn:Eb in Hf.
  { bool_hyps. match goal with H : (_ =? _) = true |- _ => apply Z.eqb_eq in H; destruct (O4 H) as [E|E] end; [congruence|].
    rewrite E, bytes_eqb_refl in *. done. }
  match type of Hf with context [AccountingHolds ?r' _] => change (AccountingHolds r' (supply_of S)) with (AccountingHolds r (supply_of S)) in Hf end.
  rewrite O2 in Hf. cbn [negb transition_count] in Hf. rewrite Z.eqb_refl in Hf. discriminate Hf.
Qed.

(** ** Blocks are made of the operations of the account *)

Definition block_step (pid : bytes) (txs : list Transaction) (w w' : World) : Prop :=
  exists l, l ⊆ txs /\ step verify pid l w w'.

Lemma block_step_mono pid txs txs' w w' : txs ⊆ txs' -> rtc (block_step pid txs) w w' -> rtc (block_step pid txs') w w'.
Proof. intros Hs. apply rtc_subrel. intros x y (l & Hl & H). exists l. split; [|exact H]. set_solver. Qed.

Lemma effect_step pid L data tx h gate S S' :
  effect data tx h gate S S' -> block_step pid [tx] (L, money S) (L, money S').
Proof.
  intros [op _ _ Ha _ _ _|proof payout v _ (hd & _ & Hb & Hv) Ha _ _].
  - exists [tx]. split; [set_solver|]. by apply (step_marker _ _ _ _ op tx h gate).
  - exists []. split; [set_solver|]. destruct (accepted_credit _ _ _ _ _ _ _ _ _ _ Hb Hv) as [H0 H1].
    by apply (step_reserve _ _ _ _ v).
Qed.

Lemma effects_steps pid L h gate txs S S' :
  effects h gate txs S S' -> rtc (block_step pid txs) (L, money S) (L, money S').
Proof.
  induction 1 as [S|tx txs S S' _ IH|tx txs data S S1 S' _ He _ IH]; [constructor|..].
  - eapply block_step_mono; [|exact IH]. set_solver.
  - etrans; [|eapply block_step_mono; [|exact IH]; set_solver].
    eapply block_step_mono; [|apply rtc_once; eapply effect_step; exact He]. set_solver.
Qed.

Lemma verify_not_frozen custody valid hd s supply payload depth payout v :
  Verify custody valid cfg hd s supply payload depth payout = Some v -> status s <> FROZEN.
Proof.
  unfold Verify. destruct (DecodeProof payload) as [c|]; [|done]. intros H. do 2 head_guard H. intros E. unfold operation_allowed in *.
  rewrite E in *. match goal with Hx : negb (negb _) = false |- _ => rewrite orb_true_r in Hx; discriminate Hx end.
Qed.

(** A frozen reserve stays as it is through the transactions. *)
Lemma frozen_effect data tx h gate S S' :
  effect data tx h gate S S' -> status (reserve_state_ (money S)) = FROZEN -> reserve_state_ (money S') = reserve_state_ (money S).
Proof.
  intros [op _ _ Ha _ _ _|proof payout v _ (hd & _ & Hb & Hv) _ _ _] Hf.
  - unfold ApplyTokenOp in Ha. head_guard Ha. head_guard Ha. destruct (action op); try discriminate Ha.
    + do 4 head_guard Ha. unfold apply_transfer in Ha. destruct (bytes_eqb _ _) in Ha; [by injection Ha as <-|].
      do 3 head_guard Ha. by injection Ha as <-.
    + do 6 head_guard Ha. unfold apply_redeem, OpenRedemption in Ha. rewrite Hf in Ha.
      destruct (balances_ _ !! _); [|done]. destruct (supply_ _ !! _); [|done]. do 2 head_guard Ha.
  - by destruct (verify_not_frozen _ _ _ _ _ _ _ _ _ Hv).
Qed.

Lemma frozen_effects h gate txs S S' :
  effects h gate txs S S' -> status (reserve_state_ (money S)) = FROZEN -> reserve_state_ (money S') = reserve_state_ (money S).
Proof.
  induction 1 as [S|tx txs S S' _ IH|tx txs data S S1 S' _ He _ IH]; intros Hf; [done|by apply IH|].
  pose proof (frozen_effect _ _ _ _ _ _ He Hf) as E. rewrite IH by (by rewrite E). exact E.
Qed.

Lemma ApplyFreeze_parts s txid blk s' :
  ApplyFreeze s txid blk = Some s' ->
  status s' = FROZEN /\ reserve_value_sats s' = reserve_value_sats s /\ surplus_sats s' = surplus_sats s
  /\ open_redemption_principal s' = open_redemption_principal s /\ transition_count s' = transition_count s + 1.
Proof. unfold ApplyFreeze. destruct (_ || _ || _ || _ || _); [done|]. intros [= <-]. split_and!; reflexivity. Qed.

Lemma accepted_block S block gate S' :
  process S block gate = (S', Yes) ->
  exists freeze r1 S3, opened S block freeze r1 /\ effects (height block) gate (transactions block) (started S r1 (height block)) S3
  /\ finish_block S3 (height block) (BlockHeaderOps.GetHash (header block)) (transition_count (reserve_state_ (money S))) = (S', Yes).
Proof.
  intros Hp. destruct (process_inv _ _ _ _ _ Hp ltac:(discriminate)) as [[_ H]|(freeze & r1 & S3 & w3 & Ho & Ha & H)]; [discriminate H|].
  destruct H as [(_ & H & _)|(-> & S4 & Hf & ->)]; [discriminate H|].
  apply apply_transactions_spec in Ha as [Hy _]. exists freeze, r1, S3. split_and!; [exact Ho|by apply Hy|exact Hf].
Qed.

(** The freeze a block starts with is a freeze of the account. *)
Lemma opened_reserve S block gate freeze r1 S3 r :
  opened S block freeze r1 -> effects (height block) gate (transactions block) (started S r1 (height block)) S3 ->
  SetProcessed (reserve_state_ (money S3)) (height block) (BlockHeaderOps.GetHash (header block)) = Some r ->
  let T1 := with_money (money S) (balances_ (money S)) (supply_ (money S)) r1 in
  T1 = money S \/ exists txid blk, FreezeBtcVeldReserve (money S) txid blk = Some T1.
Proof.
  intros [O1 O2 O3 O4 O5 O6] He Hsp T1. destruct freeze.
  - right. exists (reserve_txid (reserve_state_ (money S))), (reserve_bitcoin_block (reserve_state_ (money S))).
    unfold FreezeBtcVeldReserve. fold (supply_of S). rewrite (proj2 (Z.ltb_ge _ _) O1), O6.
    destruct (ApplyFreeze_parts _ _ _ _ O6) as (Es & Ev & Eu & Eo & _).
    destruct (started_parts S r1 (height block)) as (P1 & _).
    apply frozen_effects in He; [|by rewrite P1]. rewrite He, P1 in Hsp. apply SetProcessed_spec in Hsp as (Hcan & _).
    apply AccountingHolds_iff in O2 as (_ & Hv & Hl & Hm). rewrite (proj2 (AccountingHolds_iff r1 (supply_of S))); [reflexivity|].
    rewrite Ev, Eu, Eo. split_and!; assumption.
  - left. injection O6 as <-. unfold T1. by destruct (money S).
Qed.

Lemma block_steps pid L S block gate S' :
  process S block gate = (S', Yes) -> rtc (block_step pid (transactions block)) (L, money S) (L, money S').
Proof.
  intros (freeze & r1 & S3 & Ho & He & Hf)%accepted_block. apply finish_spec in Hf as (r & Hsp & _ & _ & -> & _ & _).
  assert (forall w w', step verify pid [] w w' -> block_step pid (transactions block) w w') as Hstep.
  { intros w w' Hw. exists []. split; [set_solver|exact Hw]. }
  etrans.
  { destruct (opened_reserve _ _ _ _ _ _ _ Ho He Hsp) as [E|(txid & blk & E)]; [rewrite <- E; constructor|].
    apply rtc_once, Hstep. by apply (step_freeze _ _ _ _ txid blk). }
  eapply rtc_l; [apply Hstep; apply (step_register _ _ _ _ (height block))|].
  etrans; [exact (effects_steps pid L _ _ _ _ _ He)|]. apply rtc_once, Hstep. by eapply step_processed.
Qed.

(** ** The account *)

Lemma effects_inv h gate txs S S' : effects h gate txs S S' -> token_inv (money S) -> token_inv (money S').
Proof.
  induction 1 as [S|tx txs S S' _ IH|tx txs data S S1 S' _ He _ IH]; intros I; [exact I|by apply IH|]. apply IH.
  destruct He as [op _ _ Ha _ _ _|proof payout v _ (hd & _ & Hb & Hv) Ha _ _].
  - by apply ApplyTokenOp_spec in Ha as [I' _].
  - destruct (accepted_credit _ _ _ _ _ _ _ _ _ _ Hb Hv) as [H0 _]. by apply apply_verified_spec in Ha as [I' _].
Qed.

Lemma block_inv S block gate S' : process S block gate = (S', Yes) -> token_inv (money S) -> token_inv (money S').
Proof.
  intros (freeze & r1 & S3 & Ho & He & Hf)%accepted_block I. apply finish_spec in Hf as (r & Hsp & _ & _ & -> & _ & _).
  eapply SetProcessed_inv; [|exact Hsp]. eapply effects_inv; [exact He|]. apply MaybeRegister_spec.
  change (token_inv (with_money (money S) (balances_ (money S)) (supply_ (money S)) r1)).
  destruct (opened_reserve _ _ _ _ _ _ _ Ho He Hsp) as [E|(txid & blk & E)]; [by rewrite E|by apply Freeze_spec in E as [I' _]].
Qed.

(** ** One edge of the reserve per block *)

Lemma effects_edges h gate txs S S' : effects h gate txs S S' -> last_block_reserve_edges_ S' = last_block_reserve_edges_ S.
Proof.
  induction 1 as [S|tx txs S S' _ IH|tx txs data S S1 S' _ He _ IH]; [reflexivity|exact IH|].
  rewrite IH. by destruct He as [op _ _ _ _ H _|proof payout v _ _ _ _ [H _]].
Qed.

Definition edges (S : TokenState) : Z := transition_count (reserve_state_ (money S)).

Lemma block_edges S block gate S' :
  process S block gate = (S', Yes) ->
  edges S' = edges S + last_block_reserve_edges_ S' /\ (last_block_reserve_edges_ S' = 0 \/ last_block_reserve_edges_ S' = 1).
Proof.
  intros (freeze & r1 & S3 & Ho & He & Hf)%accepted_block. apply effects_edges in He.
  destruct (started_parts S r1 (height block)) as (_ & _ & _ & _ & P5 & _). rewrite P5 in He.
  apply finish_spec in Hf as (r & _ & _ & _ & Em & _ & H). unfold edges. rewrite Em. cbn [reserve_state_ with_money].
  rewrite He in H. destruct H as [[Hc Hl]|[Hc Hl]]; rewrite Hc, Hl; (split; [lia|auto]).
Qed.

(** The calls of the other modules between the transactions of a block and the next block. *)
Inductive after_block (S : TokenState) : TokenState -> Prop :=
  | after_payout blk dirs branch tx parents S' :
      ApplyFsp2AuthorizedReservePayout cfg headers covenant S blk dirs branch tx parents = Some S' -> after_block S S'
  | after_freeze txid blk S' : freeze_edge S txid blk = Some S' -> after_block S S'
  | after_compensate who amount L :
      0 <= amount -> CompensateMint (money S) who amount = Some L -> after_block S (with_ledger S L)
  | after_move from to amount L :
      AmmMove (money S) BTCVELD_TOKEN_ID from to amount = Some L -> after_block S (with_ledger S L).

Lemma ApplyAuthorized_count s v before after s' :
  ApplyAuthorized s v before after = Some s' -> transition_count s' = transition_count s + 1.
Proof.
  unfold ApplyAuthorized. destruct (_ || _ || _ || _); [done|]. destruct (authorized_next s v before after) as [n|] eqn:E; [|done].
  destruct (negb _); [done|]. intros [= <-]. cbn [transition_count advance]. f_equal. unfold authorized_next in E. cbv zeta in E.
  destruct (operation (claim v)); repeat match type of E with (if ?b then _ else _) = _ => destruct b; [try discriminate E|] end;
    try discriminate E; injection E as <-; reflexivity.
Qed.

(** What a payout of this path rests on. *)
Lemma fsp2_inv S blk dirs branch tx parents S' :
  ApplyFsp2AuthorizedReservePayout cfg headers covenant S blk dirs branch tx parents = Some S' ->
  exists v next, ApplyAuthorized (reserve_state_ (money S)) v (supply_of S) (supply_of S) = Some next
  /\ last_block_reserve_edges_ S = 0 /\ 0 <= supply_of S
  /\ S' = with_edges (with_reserve_payout (with_reserve_state S next)
            (mkPaid (payout_request_id v) (bitcoin_txid (claim v)) (payout_principal_sats v) (payout_destination_spk v))) 1.
Proof.
  unfold ApplyFsp2AuthorizedReservePayout. destruct headers as [hd|]; [|done]. destruct covenant as [reqs|]; [|done]. cbv zeta.
  intros H. head_guard H. head_guard H. head_guard H. head_guard H. head_guard H. head_guard H. head_guard H. injection H as <-.
  bool_hyps. match goal with H : (last_block_reserve_edges_ S =? 0) = true |- _ => apply Z.eqb_eq in H end.
  match goal with Hv : ApplyAuthorized _ ?v _ _ = Some ?n |- _ => exists v, n; split_and!; [exact Hv|assumption|lia|reflexivity] end.
Qed.

Lemma after_edges S S' :
  after_block S S' -> 0 <= last_block_reserve_edges_ S ->
  edges S' - last_block_reserve_edges_ S' = edges S - last_block_reserve_edges_ S
  /\ (last_block_reserve_edges_ S' = last_block_reserve_edges_ S \/ last_block_reserve_edges_ S' = 1).
Proof.
  intros [blk dirs branch tx parents S1 H|txid blk S1 H|who amount L _ H|from to amount L H] H0.
  - apply fsp2_inv in H as (v & next & Ha & He & _ & ->). apply ApplyAuthorized_count in Ha. unfold edges.
    cbn [money reserve_state_ last_block_reserve_edges_ with_edges with_reserve_payout with_reserve_state with_ledger with_money].
    split; [lia|by right].
  - unfold freeze_edge in H. head_guard H. head_guard H. injection H as <-. bool_hyps.
    match goal with H : (last_block_reserve_edges_ S =? 0) = true |- _ => apply Z.eqb_eq in H as He end.
    match goal with H : FreezeBtcVeldReserve _ _ _ = Some _ |- _ => unfold FreezeBtcVeldReserve in H; do 2 head_guard H end.
    match goal with H : ApplyFreeze _ _ _ = Some _ |- _ => apply ApplyFreeze_parts in H as (_ & _ & _ & _ & Hc) end.
    match goal with H : (if _ then None else _) = Some _ |- _ => head_guard H; injection H as <- end.
    unfold edges. cbn [money reserve_state_ last_block_reserve_edges_ with_edges with_ledger with_money]. split; [lia|by right].
  - unfold CompensateMint in H. do 8 head_guard H. unfold ResolveDefaultOrCompensation in *.
    match goal with H : (if _ then None else _) = Some _ |- _ => do 2 head_guard H; injection H as <- end.
    injection H as <-. split; [reflexivity|by left].
  - unfold AmmMove in H. head_guard H. destruct (bytes_eqb _ _) in H; injection H as <-; (split; [reflexivity|by left]).
Qed.

Lemma after_run_edges S S' :
  rtc after_block S S' -> (last_block_reserve_edges_ S = 0 \/ last_block_reserve_edges_ S = 1) ->
  edges S' - last_block_reserve_edges_ S' = edges S - last_block_reserve_edges_ S
  /\ (last_block_reserve_edges_ S' = 0 \/ last_block_reserve_edges_ S' = 1).
Proof.
  induction 1 as [S|S S1 S' H _ IH]; intros H0; [auto|]. destruct (after_edges _ _ H ltac:(lia)) as [E1 E2].
  destruct IH as [E3 E4]; [lia|]. split; [lia|exact E4].
Qed.

(** ** Deposits *)

(** A transition of the feed as an insertion: its outpoint and its proof. *)
Definition mint_step (t : BtcVeldMintTransition) : bytes * Proof :=
  (mt_outpoint t, default EmptyProof (MintNullifier.DecodeProof (mt_proof t))).

(** The insertions that lead from one state to another. *)
Definition inserted (S S' : TokenState) (l : list BtcVeldMintTransition) : Prop :=
  inserts (mint_nullifier_root_ S) (map mint_step l) = Some (mint_nullifier_root_ S')
  /\ mint_nullifier_count_ S' = mint_nullifier_count_ S + Z.of_nat (length l).

Lemma inserts_app root a b : inserts root (a ++ b) = match inserts root a with Some r => inserts r b | None => None end.
Proof. revert root. induction a as [|[o p] a IH]; intros root; [done|]. cbn [app inserts]. destruct (Insert root o p); [apply IH|done]. Qed.

Lemma inserted_nil S S' : same_nullifier S S' -> inserted S S' [].
Proof. intros (E1 & E2 & _). unfold inserted. rewrite E1, E2. split; [reflexivity|]. cbn [length]. lia. Qed.

Lemma inserted_app S S1 S' a b : inserted S S1 a -> inserted S1 S' b -> inserted S S' (a ++ b).
Proof.
  intros [A1 A2] [B1 B2]. unfold inserted. rewrite map_app, inserts_app, A1, B1, length_app. split; [reflexivity|lia].
Qed.

Lemma effect_inserted data tx h gate S S' :
  effect data tx h gate S S' ->
  exists l, last_block_mint_transitions_ S' = last_block_mint_transitions_ S ++ l /\ inserted S S' l.
Proof.
  intros [op _ _ _ Hn _ _|proof payout v _ (hd & _ & Hb & Hv) _ Hn _].
  - exists []. rewrite app_nil_r. split; [apply Hn|by apply inserted_nil].
  - destruct (consumes_deposit (operation (claim v))) eqn:Hc.
    2:{ exists []. rewrite app_nil_r. split; [apply Hn|by apply inserted_nil]. }
    destruct Hn as (Hi & Hcount & t & Hl & Ho & Hp & Hz). exists [t]. split; [exact Hl|].
    assert (mint_step t = (pending_outpoint v, nullifier_proof (claim v))) as Hm.
    { unfold mint_step. rewrite Ho, Hp. f_equal.
      destruct (accepted_sized _ _ _ _ _ _ _ _ _ _ Hb Hv) as (Hs & _ & _). pose proof (cz_nullifier _ Hs) as Hnl.
      destruct (accepted_facts _ _ _ _ _ _ _ _ _ _ Hb Hv) as (_ & Ha & _). unfold admissible in Ha. bool_hyps.
      match goal with H : Bool.eqb (has_nullifier_proof (claim v)) _ = true |- _ => apply eqb_prop in H; rewrite H, Hc in Hnl end.
      destruct Hnl as [Hw Hcan]. by rewrite (null_decode_encode _ Hw Hcan). }
    split; [|cbn [length]; lia]. cbn [map inserts]. rewrite Hm, Hi. reflexivity.
Qed.

Lemma effects_inserted h gate txs S S' :
  effects h gate txs S S' ->
  exists l, last_block_mint_transitions_ S' = last_block_mint_transitions_ S ++ l /\ inserted S S' l.
Proof.
  induction 1 as [S|tx txs S S' _ IH|tx txs data S S1 S' _ He _ IH]; [|exact IH|].
  - exists []. rewrite app_nil_r. split; [reflexivity|]. by apply inserted_nil.
  - destruct (effect_inserted _ _ _ _ _ _ He) as (a & Ha & Ia). destruct IH as (b & Hb & Ib). exists (a ++ b).
    rewrite Hb, Ha, app_assoc. split; [reflexivity|by eapply inserted_app].
Qed.

Lemma block_inserted S block gate S' : process S block gate = (S', Yes) -> inserted S S' (last_block_mint_transitions_ S').
Proof.
  intros (freeze & r1 & S3 & _ & He & Hf)%accepted_block. apply effects_inserted in He as (l & Hl & Hi).
  apply finish_spec in Hf as (r & _ & _ & _ & _ & (N1 & N2 & N3) & _).
  destruct (started_parts S r1 (height block)) as (_ & _ & _ & P4 & _ & P6 & P7). rewrite P4 in Hl. cbn [app] in Hl.
  unfold inserted in *. rewrite N1, N2, N3, Hl. by rewrite <- P6, <- P7.
Qed.

Lemma after_inserted S S' : after_block S S' -> inserted S S' [].
Proof.
  intros [blk dirs branch tx parents S1 H|txid blk S1 H|who amount L _ H|from to amount L H]; apply inserted_nil.
  - apply fsp2_inv in H as (v & next & _ & _ & _ & ->). by split_and!.
  - unfold freeze_edge in H. do 2 head_guard H. injection H as <-. by split_and!.
  - by split_and!.
  - by split_and!.
Qed.
End Blocks.

(** ** Runs *)

(** The chain of accepted blocks, each with the header chain and the requests of its time,
    and the mints they leave. *)
Inductive token_run (verify : bytes -> bytes -> bytes -> bool) (cfg : BtcHeaderChain.Config)
  : TokenState -> list BtcVeldMintTransition -> TokenState -> Prop :=
  | run_start S : token_run verify cfg S [] S
  | run_block headers covenant S block gate S1 l S' :
      TokenBlock.ProcessBlock verify cfg headers covenant S block gate = (S1, Yes) -> token_run verify cfg S1 l S' ->
      token_run verify cfg S (last_block_mint_transitions_ S1 ++ l) S'
  | run_after headers covenant S S1 l S' :
      after_block cfg headers covenant S S1 -> token_run verify cfg S1 l S' -> token_run verify cfg S l S'.

Lemma run_inserted verify cfg S l S' : token_run verify cfg S l S' -> inserted S S' l.
Proof.
  induction 1 as [S|headers covenant S block gate S1 l S' Hp _ IH|headers covenant S S1 l S' Ha _ IH].
  - by apply inserted_nil.
  - eapply inserted_app; [exact (block_inserted _ _ _ _ _ _ _ _ Hp)|exact IH].
  - apply (inserted_app S S1 S' [] l); [exact (after_inserted _ _ _ _ _ Ha)|exact IH].
Qed.

(** ** The account of a run *)

Lemma after_inv cfg headers covenant S S' : after_block cfg headers covenant S S' -> token_inv (money S) -> token_inv (money S').
Proof.
  intros [blk dirs branch tx parents S1 H|txid blk S1 H|who amount L H0 H|from to amount L H] I.
  - apply fsp2_inv in H as (v & next & Ha & _ & _ & ->). apply ApplyAuthorized_spec in Ha. destruct I as [IT IB IS IR IW]. by split.
  - unfold freeze_edge in H. do 2 head_guard H. injection H as <-.
    match goal with H : FreezeBtcVeldReserve _ _ _ = Some _ |- _ => apply Freeze_spec in H as [I' _]; [exact I'|exact I] end.
  - by apply CompensateMint_spec in H as [I' _].
  - destruct (decide (from = to)) as [->|Hne]; [|by apply AmmMove_spec in H as [I' _]].
    unfold AmmMove in H. head_guard H. rewrite bytes_eqb_refl in H. injection H as <-. exact I.
Qed.

Lemma token_run_inv verify cfg S l S' : token_run verify cfg S l S' -> token_inv (money S) -> token_inv (money S').
Proof.
  induction 1 as [S|headers covenant S block gate S1 l S' Hp _ IH|headers covenant S S1 l S' Ha _ IH]; intros I; [exact I|..]; apply IH.
  - by eapply block_inv.
  - by eapply after_inv.
Qed.

(** ** Sample states *)

(** A reserve of 300,000 sats held by the production custody script, with a request of
    120,000 open and its payout on Bitcoin. *)
Definition relay_parent : bytes := Eval vm_compute in sample_tx [sample_in (replicate 32 8)] [sample_out 300000 BtcVeldCustodySpk].
Definition relay_parent_txid : Hash256 := Eval vm_compute in Hash256d relay_parent.
Definition relay_state : State :=
  mkState ACTIVE relay_parent_txid 0 300000 ReserveSafety.sample_block 1 (replicate 32 5) 0 120000 0 ZeroHash.
Definition relay_request : RedeemRequest :=
  mkRequest (replicate 32 6) 120000 [0x51] 10 500 BROADCAST ZeroHash auth_address (replicate 32 4) 0.
Definition relay_money : OnChainTokenLedger.t :=
  OnChainTokenLedger.mk {[BTCVELD_TOKEN_ID := btcveld_info]} {[account_key BTCVELD_TOKEN_ID auth_address := 180000]}
    {[BTCVELD_TOKEN_ID := 180000]} 0 0 relay_state.
Definition relay_tokens : TokenState := mkTokens relay_money ZeroHash 1 ZeroHash 1 ZeroHash 0 (0, ZeroHash) [] [] [] 0.
Definition relay_tx : bytes := Eval vm_compute in
  sample_tx [sample_in relay_parent_txid; sample_in sample_parent_txid]
    [sample_out 180000 BtcVeldCustodySpk; sample_out 120000 [0x51];
     sample_out 0 (AuthScript PAYOUT (replicate 32 5) (replicate 32 4) 0)].
Definition relay_txid : Hash256 := Eval vm_compute in Hash256d relay_tx.

(** A header chain whose tip is 144 blocks above the block of the payout. *)
Definition deep_chain : BtcHeaderChain.t :=
  BtcHeaderChain.mk
    (<[ReserveSafety.sample_block := mkBtcHeader [] ReserveSafety.sample_block ZeroHash relay_txid 0 0 0 []]>
      {[replicate 32 2 := mkBtcHeader [] (replicate 32 2) ZeroHash ZeroHash 0 0 144 []]})
    (replicate 32 2) ReserveSafety.sample_block [ReserveSafety.sample_block].
(** A chain that has lost the block of the reserve. *)
Definition lost_chain : BtcHeaderChain.t := BtcHeaderChain.mk ∅ ZeroHash ZeroHash [].

Definition reject_all : bytes -> bytes -> bytes -> bool := fun _ _ _ => false.
Definition empty_block : Block := mkBlock (mkHeader 1 ZeroHash ZeroHash 0 0 0) [] 7.
(** A transaction with a carrier that holds no proof. *)
Definition broken_carrier : Transaction :=
  mkTx 1 [] [mkOutput 0 (0x6a :: 12 :: b:"VELD_RSV1|zz")] 0.
Definition broken_block : Block := mkBlock (mkHeader 1 ZeroHash ZeroHash 0 0 0) [broken_carrier] 7.


(** The verdict and the edges of a block, and the value left by a payout. *)
Definition block_summary (x : TokenState * Verdict) : Verdict * Z := (x.2, last_block_reserve_edges_ x.1).

Lemma freeze_block_accepted :
  block_summary (TokenBlock.ProcessBlock reject_all sample_cfg (Some lost_chain) None relay_tokens empty_block sample_gate) = (Yes, 1).
Proof. vm_compute. reflexivity. Qed.

Lemma broken_block_refused :
  block_summary (TokenBlock.ProcessBlock reject_all sample_cfg (Some deep_chain) None relay_tokens broken_block sample_gate) = (No, 0).
Proof. vm_compute. reflexivity. Qed.

Lemma block_summary_inv x v n : block_summary x = (v, n) -> exists S', x = (S', v) /\ last_block_reserve_edges_ S' = n.
Proof. destruct x as [S' w]. intros [= <- <-]. exists S'. split; reflexivity. Qed.

(** A ledger with one holder. *)
Lemma one_holder_inv a v r :
  MIN_ACCOUNT_SATS <= v -> AccountingHolds r v = true ->
  token_inv (OnChainTokenLedger.mk {[BTCVELD_TOKEN_ID := btcveld_info]} {[account_key BTCVELD_TOKEN_ID a := v]}
               {[BTCVELD_TOKEN_ID := v]} 0 0 r).
Proof.
  intros Hv Hr. assert (default 0 (({[BTCVELD_TOKEN_ID := v]} : gmap bytes Z) !! BTCVELD_TOKEN_ID) = v) as Hs by (by rewrite lookup_singleton_eq).
  split; cbn [tokens_ balances_ supply_ reserve_state_ redeemed_in_window_].
  - intros id [x Hx]. apply lookup_singleton_Some in Hx as [<- _]. reflexivity.
  - intros k x Hx. apply lookup_singleton_Some in Hx as [_ <-]. exact Hv.
  - unfold GetSupply. cbn [supply_]. rewrite Hs, <- insert_empty, map_total_insert_new, map_total_empty by apply lookup_empty. lia.
  - unfold GetSupply. cbn [supply_]. by rewrite Hs.
  - apply EmptyTokens_inv.
Qed.

Lemma relay_tokens_inv : token_inv (money relay_tokens).
Proof. apply one_holder_inv; [discriminate|vm_compute; reflexivity]. Qed.

(** ** Claims *)

(** C3: a block of the token ledger is made of the operations of the account. An accepted
    block, with any header chain, requests, gate and signature verifier, takes the account
    through a sequence of the operations that the account's theorems are about: freezing,
    registration, token markers of its own transactions, verified reserve transitions and
    marking the block as processed; and it keeps the account's invariant. *)
Theorem block_refines_operations verify cfg headers covenant pid L S block gate S' :
  TokenBlock.ProcessBlock verify cfg headers covenant S block gate = (S', Yes) ->
  rtc (block_step verify pid (transactions block)) (L, money S) (L, money S')
  /\ (token_inv (money S) -> token_inv (money S')).
Proof. intros Hp. split; [by eapply block_steps|by eapply block_inv]. Qed.

Lemma block_refines_operations_witness :
  exists S', TokenBlock.ProcessBlock reject_all sample_cfg (Some lost_chain) None relay_tokens empty_block sample_gate = (S', Yes)
  /\ token_inv (money S').
Proof.
  destruct (block_summary_inv _ _ _ freeze_block_accepted) as (S' & Hp & _). exists S'. split; [exact Hp|].
  exact (proj2 (block_refines_operations _ _ _ _ [] AmmLedger.EmptyLedger _ _ _ _ Hp) relay_tokens_inv).
Defined.

(** C40: a refused block changes nothing. The ledger keeps a copy to roll back to only when
    the block holds a reserve-sensitive marker; a block without one is never refused after
    the first change. The hash of the block must not be all zeros. *)
Theorem refused_token_block_unchanged verify cfg headers covenant S block gate S' :
  HashIsZero (BlockHeaderOps.GetHash (header block)) = false ->
  TokenBlock.ProcessBlock verify cfg headers covenant S block gate = (S', No) -> S' = S.
Proof.
  intros Hz Hp. destruct (process_inv _ _ _ _ _ _ _ _ _ Hp ltac:(discriminate)) as [[-> _]|(freeze & r1 & S3 & w3 & Ho & Ha & H)]; [reflexivity|].
  destruct (block_strict (transactions block) freeze) eqn:Es.
  { destruct H as [(_ & _ & ->)|(_ & S4 & _ & ->)]; reflexivity. }
  exfalso. apply apply_transactions_spec in Ha as [Hy Hn]. destruct H as [(-> & _ & _)|(-> & S4 & Hf & _)].
  - specialize (Hn eq_refl). unfold block_strict in Es. apply orb_false_iff in Es as [Es Ec1]. apply orb_false_iff in Es as [Es _].
    by rewrite Ec1, Es in Hn.
  - revert Hf. by eapply plain_finish; [|exact Es|exact Ho|exact (Hy eq_refl)].
Qed.

Lemma refused_token_block_unchanged_witness :
  exists S', TokenBlock.ProcessBlock reject_all sample_cfg (Some deep_chain) None relay_tokens broken_block sample_gate = (S', No)
  /\ S' = relay_tokens.
Proof.
  destruct (block_summary_inv _ _ _ broken_block_refused) as (S' & Hp & _). exists S'. split; [exact Hp|].
  apply (refused_token_block_unchanged _ _ _ _ _ _ _ _) in Hp; [exact Hp|]. vm_compute. reflexivity.
Defined.

(** C10: a Bitcoin deposit is minted once in the life of the ledger. Over every chain of
    accepted blocks from the empty ledger, with the calls of the other modules between
    them, the deposits behind the mints are pairwise different outpoints, the accumulator
    is the root of their set and its counter their number, and the account is sound, unless
    SHA-256 collides between a nullifier proof and the tree. *)
Theorem deposit_minted_once verify cfg l S :
  token_run verify cfg NoTokens l S -> honest_run [] (map mint_step l) ->
  NoDup (map mt_outpoint l) /\ mint_nullifier_root_ S = set_root TREE_DEPTH (rev (map (fun t => KeyForOutpoint (mt_outpoint t)) l))
  /\ mint_nullifier_count_ S = Z.of_nat (length l) /\ token_inv (money S).
Proof.
  intros Hr Hh. pose proof (token_run_inv _ _ _ _ _ Hr EmptyTokens_inv) as I. apply run_inserted in Hr as [Hi Hc].
  cbn [mint_nullifier_root_ mint_nullifier_count_ NoTokens] in Hi, Hc.
  unfold EmptyRoot, EmptyHashes in Hi. rewrite Nat.sub_0_r, <- set_root_nil in Hi.
  destruct (inserts_spec [] _ _ Hi Hh) as (Hnd & _ & ->). rewrite app_nil_r. unfold step_keys in *. rewrite map_map in *.
  split_and!; [|reflexivity|lia|exact I].
  apply (NoDup_fmap_1 KeyForOutpoint). rewrite <- list_fmap_compose. exact Hnd.
Qed.

(** A run of two blocks that open the reserve and add a deposit to it, with the tree's own
    proofs of absence: both are minted, from different outpoints. *)
Lemma deposit_minted_once_witness :
  exists l S, token_run reject_all sample_cfg NoTokens l S /\ length l = 2%nat /\ honest_run [] (map mint_step l)
  /\ NoDup (map mt_outpoint l) /\ mint_nullifier_count_ S = 2 /\ GetBalance (money S) BTCVELD_TOKEN_ID auth_address = 150000.
Proof.
  destruct (two_deposits reject_all) as (b1 & b2 & t1 & t2 & S1 & S2 & B1 & B2 & L1 & L2 & Hh & Hb).
  assert (token_run reject_all sample_cfg NoTokens [t1; t2] S2) as Hr.
  { pose proof (run_block _ _ _ _ _ _ _ _ _ _ B1 (run_block _ _ _ _ _ _ _ _ _ _ B2 (run_start _ _ S2))) as Hr.
    rewrite L1, L2 in Hr. exact Hr. }
  exists [t1; t2], S2. split; [exact Hr|]. split; [reflexivity|]. split; [exact Hh|].
  destruct (deposit_minted_once reject_all sample_cfg [t1; t2] S2 Hr Hh) as (Hn & _ & Hc & _).
  split; [exact Hn|]. split; [exact Hc|exact Hb].
Defined.

(** C24: the reserve moves by at most one edge per block. Over an accepted block and every
    sequence of payouts, freezes, compensations and pool moves after it, the number of
    transitions grows by the flag of the block, which is zero or one. *)
Theorem one_reserve_edge verify cfg headers covenant S block gate S1 S2 :
  TokenBlock.ProcessBlock verify cfg headers covenant S block gate = (S1, Yes) ->
  rtc (after_block cfg headers covenant) S1 S2 ->
  transition_count (reserve_state_ (money S2)) = transition_count (reserve_state_ (money S)) + last_block_reserve_edges_ S2
  /\ (last_block_reserve_edges_ S2 = 0 \/ last_block_reserve_edges_ S2 = 1).
Proof.
  intros Hp Hr. destruct (block_edges _ _ _ _ _ _ _ _ Hp) as [E1 E2]. destruct (after_run_edges _ _ _ _ _ Hr E2) as [E3 E4].
  unfold edges in *. split; [lia|exact E4].
Qed.

Lemma one_reserve_edge_witness :
  exists S', TokenBlock.ProcessBlock reject_all sample_cfg (Some lost_chain) None relay_tokens empty_block sample_gate = (S', Yes)
  /\ transition_count (reserve_state_ (money S')) = 2.
Proof.
  destruct (block_summary_inv _ _ _ freeze_block_accepted) as (S' & Hp & He). exists S'. split; [exact Hp|].
  destruct (one_reserve_edge _ _ _ _ _ _ _ _ _ Hp (rtc_refl _ S')) as [Hc _]. rewrite He in Hc. exact Hc.
Defined.

(** C26: a payout that Bitcoin shows cannot be withheld. When the classifier authorizes a
    transaction as a payout, the transaction is in a final Bitcoin block, and the block has
    not used its one reserve edge yet, anyone can apply it without the signer's proof: the
    reserve and the open principal fall by the amount of an open request, the request is
    reported with the transaction, and no balance changes. The account has its invariant,
    the state its widths and a counter that can advance; the claim must fit its wire form,
    and the hashes of the transaction, the block and the transition must not be all zeros. *)
Theorem payout_cannot_be_withheld cfg hd reqs S blk dirs branch tx parents :
  let r := reserve_state_ (money S) in
  let k := ClassifyBtcVeldReserveSpend (Some reqs) S tx parents in
  let c := payout_claim_of r k blk dirs branch tx parents in
  token_inv (money S) -> state_sized r -> transition_count r < UINT64_MAX -> last_block_reserve_edges_ S = 0 ->
  disposition k = AUTHORIZED_TRANSITION -> sc_operation k = PAYOUT ->
  is_hash blk -> fits 32 dirs -> Forall is_hash branch -> is_bytes tx -> Forall is_bytes parents -> EncodeProof c <> [] ->
  BtcHeaderChain.VerifyMerkle hd blk (sc_bitcoin_txid k) branch dirs = true ->
  BtcHeaderChain.IsFinalForExternalValue cfg hd blk BTCVELD_SPV_K_BTC = true ->
  HashIsZero (sc_bitcoin_txid k) = false -> HashIsZero blk = false -> HashIsZero (TransitionCommitment c) = false ->
  exists S' req,
    ApplyFsp2AuthorizedReservePayout cfg (Some hd) (Some reqs) S blk dirs branch tx parents = Some S'
    /\ req ∈ reqs /\ is_open req = true
    /\ last_block_reserve_payouts_ S'
       = last_block_reserve_payouts_ S ++ [mkPaid (rq_request_id req) (sc_bitcoin_txid k) (rq_amount_sats req) (dest_spk req)]
    /\ reserve_value_sats (reserve_state_ (money S')) = reserve_value_sats r - rq_amount_sats req
    /\ open_redemption_principal (reserve_state_ (money S')) = open_redemption_principal r - rq_amount_sats req
    /\ balances_ (money S') = balances_ (money S).
Proof.
  cbv zeta. intros I. pose proof (ti_reserve _ I) as Hacc. pose proof (balances_total_nonneg _ (ti_balances _ I)) as Hsup.
  rewrite <- (ti_supply _ I) in Hsup. change (GetSupply (money S) BTCVELD_TOKEN_ID) with (supply_of S) in *.
  unfold ClassifyBtcVeldReserveSpend. rewrite (proj2 (Z.ltb_ge _ _) Hsup).
  set (lookup := fun x => option_map context_of (FindOpenByCommitmentCopy reqs x)).
  set (r := reserve_state_ (money S)) in *. set (k := ClassifyBitcoinReserveSpend _ _ _ _ _ _ _).
  intros Hs Hcount Hedge Hk Hop Hblk Hdirs Hbr Htx Hpar Henc Hm Hf Hz1 Hz2 Hz3.
  assert (forall x p, lookup x = Some p -> present p = true /\ request_commitment p = x) as Hlook.
  { unfold lookup. intros x p. destruct (FindOpenByCommitmentCopy reqs x) as [q|] eqn:E; [|discriminate]. intros [= <-].
    apply FindOpen_spec in E as (_ & _ & E). split; [reflexivity|exact E]. }
  pose proof (proj1 (proj1 (AccountingHolds_iff _ _) Hacc)) as Hcan.
  assert (BtcVeldCustodySpk <> []) as Hcust by (vm_compute; discriminate).
  destruct (payout_facts _ _ _ _ _ _ _ Hk Hop) as (parsed & f & total & cur & oth & i & p & A & Hst & _ & Hl & Ep & _).
  destruct (payout_verified BtcVeldCustodySpk IsCanonicalTokenCreditAddress cfg hd r (supply_of S) BTCVELD_SPV_K_BTC lookup
    blk dirs branch tx parents Hlook Hk Hop Hcan Hcust Hm Hf Hs Hblk Hdirs Hbr Htx Hpar Henc) as (v & Hv & Ec & V1 & V2 & V3 & V4).
  destruct (payout_advances BtcVeldCustodySpk IsCanonicalTokenCreditAddress r (supply_of S) lookup blk dirs branch tx parents
    Hk Hop Hs Htx ltac:(lia) Hacc Hsup Hz1 Hz2 Hz3 v Ec V2 V4) as (next & Hn & N1 & N2).
  destruct (Hlook _ _ Hl) as [Hpres _]. unfold lookup in Hl.
  destruct (FindOpenByCommitmentCopy reqs _) as [req|] eqn:Efind; [|discriminate Hl]. injection Hl as <-.
  apply FindOpen_spec in Efind as (Hin & Hopen & _). rewrite Ep in *.
  exists (with_edges (with_reserve_payout (with_reserve_state S next)
            (mkPaid (payout_request_id v) (bitcoin_txid (claim v)) (payout_principal_sats v) (payout_destination_spk v))) 1), req.
  split; [|split_and!; [exact Hin|exact Hopen| |exact N1|exact N2|reflexivity]].
  - unfold ApplyFsp2AuthorizedReservePayout. cbv zeta. fold r lookup k.
    assert (EncodeProof (payout_claim_of r k blk dirs branch tx parents) <> [] ->
      (32 <? size branch) || (size branch <? 32) && negb (Z.shiftr dirs (size branch) =? 0) = false) as Hwire.
    { unfold EncodeProof. cbv zeta. cbn [merkle_branch merkle_directions payout_claim_of].
      match goal with |- context [if ?b then [] else _] => destruct b eqn:Eb; [intros H'; destruct (H' eq_refl)|] end. intros _. bool_hyps.
      match goal with H1 : (32 <? _) = false |- _ => rewrite H1; assumption end. }
    fold k in Ep. specialize (Hwire Henc). apply orb_false_iff in Hwire as [W1 W2].
    rewrite Hst, W1, W2, Hedge, (proj2 (Z.ltb_ge _ _) Hsup), Hk, Hop, Ep, Hpres. cbn [negb orb].
    assert ((size (EncodeProof (payout_claim_of r k blk dirs branch tx parents)) =? 0) = false) as ->
      by (apply negb_true_iff, size_nonempty, Henc).
    change (bool_decide (ACTIVE <> ACTIVE)) with false. change (bool_decide (AUTHORIZED_TRANSITION <> AUTHORIZED_TRANSITION)) with false.
    change (bool_decide (PAYOUT <> PAYOUT)) with false. change (0 =? 0) with true. cbn [negb orb]. cbv iota. fold k in Hv. rewrite Hv, Ec, Hn.
    cbn [bitcoin_txid payout_claim_of]. rewrite bytes_eqb_refl. reflexivity.
  - cbn [last_block_reserve_payouts_ with_edges with_reserve_payout with_reserve_state with_ledger]. rewrite V1, V2, V3, Ec. reflexivity.
Qed.

#[local] Abbreviation relay_class := (ClassifyBtcVeldReserveSpend (Some [relay_request]) relay_tokens relay_tx [relay_parent; sample_parent]).
#[local] Abbreviation relay_claim :=
  (payout_claim_of (reserve_state_ (money relay_tokens)) relay_class ReserveSafety.sample_block 0 [] relay_tx [relay_parent; sample_parent]).

(** The facts of the sample payout that are computed. *)
Lemma relay_facts :
  bool_decide (disposition relay_class = AUTHORIZED_TRANSITION) && bool_decide (sc_operation relay_class = PAYOUT)
  && negb (HashIsZero (sc_bitcoin_txid relay_class)) && negb (HashIsZero (TransitionCommitment relay_claim))
  && negb (bytes_eqb (EncodeProof relay_claim) [])
  && BtcHeaderChain.VerifyMerkle deep_chain ReserveSafety.sample_block (sc_bitcoin_txid relay_class) [] 0
  && BtcHeaderChain.IsFinalForExternalValue sample_cfg deep_chain ReserveSafety.sample_block BTCVELD_SPV_K_BTC = true.
Proof. vm_compute. reflexivity. Qed.

Lemma relay_sized :
  state_sized (reserve_state_ (money relay_tokens)) /\ is_hash ReserveSafety.sample_block /\ is_bytes relay_tx
  /\ Forall is_bytes [relay_parent; sample_parent].
Proof.
  split; [split|split_and!]; first [apply (bool_decide_unpack _); vm_compute; exact Logic.I|
    split; [reflexivity|]; apply (bool_decide_unpack _); vm_compute; exact Logic.I|
    repeat constructor; apply (bool_decide_unpack _); vm_compute; exact Logic.I].
Qed.

Lemma payout_cannot_be_withheld_witness :
  exists S', ApplyFsp2AuthorizedReservePayout sample_cfg (Some deep_chain) (Some [relay_request]) relay_tokens
               ReserveSafety.sample_block 0 [] relay_tx [relay_parent; sample_parent] = Some S'
  /\ reserve_value_sats (reserve_state_ (money S')) = 180000.
Proof.
  pose proof relay_facts as F. destruct relay_sized as (Z1 & Z2 & Z3 & Z4).
  apply andb_true_iff in F as [F F7]. apply andb_true_iff in F as [F F6]. apply andb_true_iff in F as [F F5].
  apply andb_true_iff in F as [F F4]. apply andb_true_iff in F as [F F3]. apply andb_true_iff in F as [F1 F2].
  apply bool_decide_eq_true_1 in F1. apply bool_decide_eq_true_1 in F2. apply negb_true_iff in F3. apply negb_true_iff in F4.
  apply negb_true_iff in F5. apply bytes_eqb_false in F5.
  destruct (payout_cannot_be_withheld sample_cfg deep_chain [relay_request] relay_tokens ReserveSafety.sample_block 0 []
    relay_tx [relay_parent; sample_parent] relay_tokens_inv Z1 eq_refl eq_refl F1 F2 Z2 (conj (Z.le_refl 0) eq_refl)
    (Forall_nil_2 _) Z3 Z4 F5 F6 F7 F3 eq_refl F4) as (S' & req & Ha & Hin & _ & _ & Hv & _).
  exists S'. split; [exact Ha|]. rewrite Hv. apply list_elem_of_singleton in Hin as ->. reflexivity.
Defined.
