(* ===== verification/RedeemRules.v ===== *)
(** * Rules of redemptions

    What blocks do to the open principal of the reserve account and what the feed does to
    the open requests of the covenant. *)
From S2P Require Import Prelude Limbs Bytes Sha256 StateDigest MintNullifier RedeemArchive Profile Transaction Block Address.
From S2P Require Import EndorsementWire OpAuthorization Marker AmmMath MapSum BtcHeaderChain StakingRules BtcTx SignerBond Reserve ReserveProof.
From S2P Require Import ReserveProofRules TokenLedger TokenRules TokenBlock RedeemFeed TokenBlockRules TokenBlockSafety.
Import OnChainTokenLedger.

#[local] Opaque sha256 sha256_domain NetworkBinding TREE_DEPTH.

(** ** The open principal *)

Definition principal (S : TokenState) : Z := open_redemption_principal (reserve_state_ (money S)).
Definition burned (l : list TokenTransferRecord) : Z := foldr (fun r n => tr_amount r + n) 0 l.
Definition paid_out (l : list BtcVeldReservePayoutTransition) : Z := foldr (fun p n => pt_principal_sats p + n) 0 l.

Lemma burned_app a b : burned (a ++ b) = burned a + burned b.
Proof. unfold burned. induction a as [|x a IH]; cbn [app foldr]; lia. Qed.
Lemma paid_out_app a b : paid_out (a ++ b) = paid_out a + paid_out b.
Proof. unfold paid_out. induction a as [|x a IH]; cbn [app foldr]; lia. Qed.

Lemma ApplyAuthorized_principal s v before after s' :
  ApplyAuthorized s v before after = Some s' ->
  open_redemption_principal s' = open_redemption_principal s
    - (if bool_decide (operation (claim v) = PAYOUT) then payout_principal_sats v else 0).
Proof.
  unfold ApplyAuthorized. destruct (_ || _ || _ || _); [done|]. destruct (authorized_next s v before after) as [n|] eqn:E; [|done].
  destruct (negb _); [done|]. intros [= <-]. cbn [open_redemption_principal advance]. unfold authorized_next in E. cbv zeta in E.
  destruct (operation (claim v));
    repeat match type of E with (if ?b then _ else _) = _ => destruct b eqn:?; [try discriminate E|] end;
    try discriminate E; injection E as <-; cbn [open_redemption_principal with_reserve];
    bool_hyps; repeat case_bool_decide; try done; rewrite ?Z.eqb_eq in *; lia.
Qed.

Lemma apply_verified_principal L v L' :
  apply_verified L v = Some L' ->
  open_redemption_principal (reserve_state_ L') = open_redemption_principal (reserve_state_ L)
    - (if bool_decide (operation (claim v) = PAYOUT) then payout_principal_sats v else 0).
Proof.
  unfold apply_verified. destruct (_ <? _); [done|]. destruct (_ || _); [done|]. cbv zeta. destruct (negb _ && _); [done|].
  destruct (ApplyAuthorized _ _ _ _) as [r|] eqn:E; [|done]. apply ApplyAuthorized_principal in E.
  destruct (_ =? _); intros [= <-]; exact E.
Qed.

Lemma OpenRedemption_principal s amount after s' :
  OpenRedemption s amount after = Some s' -> open_redemption_principal s' = open_redemption_principal s + amount.
Proof. unfold OpenRedemption. destruct (_ || _ || _); [done|]. cbv zeta. destruct (negb _); [done|]. by intros [= <-]. Qed.

Lemma ApplyTokenOp_principal verify L op tx h gate L' :
  ApplyTokenOp verify L op tx h gate = Some L' ->
  0 < op_amount op /\ open_redemption_principal (reserve_state_ L') = open_redemption_principal (reserve_state_ L)
    + (if bool_decide (action op = REDEEM) then op_amount op else 0).
Proof.
  unfold ApplyTokenOp. destruct (_ || _); [done|]. destruct (Z.leb_spec (op_amount op) 0) as [|Hp]; [done|].
  destruct (action op) eqn:Ea; try done.
  - rewrite bool_decide_eq_false_2 by done. destruct (negb _); [done|]. destruct (_ || _); [done|]. destruct (negb _); [done|]. destruct (_ <? _); [done|]. unfold apply_transfer.
    destruct (bytes_eqb _ _); [intros [= <-]; split; [exact Hp|cbn; lia]|]. destruct (_ || _ || _); [done|].
    destruct (negb _); [done|]. destruct (negb _); [done|]. intros [= <-]. split; [exact Hp|cbn; lia].
  - rewrite bool_decide_eq_true_2 by done. destruct (negb _); [done|]. destruct (_ || _ || _); [done|]. destruct (negb _); [done|]. cbv zeta.
    destruct (_ && _ && _); [done|]. destruct (_ && _); [done|]. destruct (_ <? _); [done|]. unfold apply_redeem. cbv zeta.
    destruct (balances_ L !! _); [|done]. destruct (supply_ L !! _); [|done]. destruct (_ || _); [done|]. destruct (negb _); [done|].
    destruct (OpenRedemption _ _ _) as [r|] eqn:E; [|done]. apply OpenRedemption_principal in E.
    destruct (BtcVeldRedeemGuardActive h); intros [= <-]; split; [exact Hp|exact E|exact Hp|exact E].
Qed.

(** What a block owes: the principal without its own burns and payouts. *)
Definition settled (S : TokenState) : Z :=
  principal S - burned (last_block_redeems_ S) + paid_out (last_block_reserve_payouts_ S).

Section Blocks.
Context (verify : bytes -> bytes -> bytes -> bool).
Context (cfg : BtcHeaderChain.Config) (headers : option BtcHeaderChain.t) (covenant : option (list RedeemRequest)).

Lemma effect_settled data tx h gate S S' : effect verify cfg headers data tx h gate S S' -> settled S' = settled S.
Proof.
  unfold settled, principal.
  intros [op _ _ Ha _ _ (Hp & vout & Hr)|proof payout v _ _ Ha _ [_ [Hr Hp]]]; rewrite Hr, Hp, ?burned_app, ?paid_out_app.
  - apply ApplyTokenOp_principal in Ha as [_ ->]. destruct (bool_decide _); cbn [burned foldr redeem_record tr_amount]; lia.
  - apply apply_verified_principal in Ha as ->. destruct (bool_decide _); cbn [paid_out foldr pt_principal_sats]; lia.
Qed.

Lemma effects_settled h gate txs S S' : effects verify cfg headers h gate txs S S' -> settled S' = settled S.
Proof.
  induction 1 as [S|tx txs S S' _ IH|tx txs data S S1 S' _ He _ IH]; [reflexivity|exact IH|]. rewrite IH. by eapply effect_settled.
Qed.

(** The redemptions of a block, each of its own transaction. *)
Definition redeem_of (h : Z) (r : TokenTransferRecord) : Prop := tr_block_height r = h /\ 0 < tr_amount r <= INT64_MAX.

Lemma DecodeTokenOp_amount data op : DecodeTokenOp data = Some op -> 0 < op_amount op <= INT64_MAX.
Proof.
  unfold DecodeTokenOp. destruct (_ <? _); [done|]. destruct (negb _); [done|].
  destruct (bar_fields _ _) as [|a [|tok [|from [|to [|amount memo]]]]]; try done. destruct (action_of a); [|done].
  destruct (_ || _); [done|]. destruct (parse_amount amount) as [v|] eqn:E; [|done]. cbv zeta. destruct (_ || _); [done|].
  intros [= <-]. cbn [op_amount]. unfold parse_amount in E. do 3 head_guard E.
  destruct (Z.ltb_spec INT64_MAX (dec_val amount)); [done|]. destruct (Z.leb_spec (dec_val amount) 0); [done|]. injection E as <-. lia.
Qed.
Definition txid_texts (txs : list Transaction) : list bytes := map (fun tx => HashToHex (GetTxID tx)) txs.

Lemma effects_redeems h gate txs S S' :
  effects verify cfg headers h gate txs S S' ->
  exists rs, last_block_redeems_ S' = last_block_redeems_ S ++ rs /\ Forall (redeem_of h) rs
  /\ map tr_txid rs `sublist_of` txid_texts txs.
Proof.
  induction 1 as [S|tx txs S S' _ IH|tx txs data S S1 S' _ He _ IH].
  - exists []. rewrite app_nil_r. split_and!; [reflexivity|constructor|constructor].
  - destruct IH as (rs & E & Hf & Hs). exists rs. split_and!; try assumption. by apply sublist_cons.
  - destruct IH as (rs & E & Hf & Hs).
    destruct He as [op Hd _ _ _ _ (_ & vout & Hr)|proof payout v _ _ _ _ [_ [Hr _]]]; rewrite Hr in E.
    2:{ exists rs. split_and!; try assumption. by apply sublist_cons. }
    destruct (bool_decide _); [|rewrite app_nil_r in E; exists rs; split_and!; try assumption; by apply sublist_cons].
    exists (redeem_record op tx h vout :: rs). rewrite E, <- app_assoc. split_and!; [reflexivity| |].
    + constructor; [|exact Hf]. split; [reflexivity|]. by apply DecodeTokenOp_amount in Hd.
    + cbn [map]. by apply sublist_skip.
Qed.

Lemma finish_feeds S h bh n S' :
  finish_block S h bh n = (S', Yes) ->
  principal S' = principal S /\ last_block_redeems_ S' = last_block_redeems_ S
  /\ last_block_reserve_payouts_ S' = last_block_reserve_payouts_ S.
Proof.
  unfold finish_block. destruct (commit_redeems _ _ _ _) as [[root count]|]; [|done]. cbv zeta. destruct (_ <? _); [done|].
  destruct (SetProcessed _ _ _) as [r|] eqn:E; [|done]. apply SetProcessed_spec in E as (_ & _ & _ & ->).
  destruct (negb _); [done|]. destruct (_ =? _); [intros [= <-]; split_and!; reflexivity|].
  destruct (_ || _); [done|]. intros [= <-]. split_and!; reflexivity.
Qed.

Lemma ApplyFreeze_principal s txid blk s' :
  ApplyFreeze s txid blk = Some s' -> open_redemption_principal s' = open_redemption_principal s.
Proof. unfold ApplyFreeze. destruct (_ || _); [done|]. by intros [= <-]. Qed.

Lemma FreezeBtcVeldReserve_principal L txid blk L' :
  FreezeBtcVeldReserve L txid blk = Some L' ->
  open_redemption_principal (reserve_state_ L') = open_redemption_principal (reserve_state_ L).
Proof.
  unfold FreezeBtcVeldReserve. cbv zeta. destruct (_ <? _); [done|]. destruct (ApplyFreeze _ _ _) as [r|] eqn:E; [|done].
  apply ApplyFreeze_principal in E. destruct (negb _); [done|]. by intros [= <-].
Qed.

Lemma block_principal S b gate S' :
  TokenBlock.ProcessBlock verify cfg headers covenant S b gate = (S', Yes) ->
  principal S' = principal S + burned (last_block_redeems_ S') - paid_out (last_block_reserve_payouts_ S')
  /\ Forall (redeem_of (height b)) (last_block_redeems_ S')
  /\ map tr_txid (last_block_redeems_ S') `sublist_of` txid_texts (transactions b).
Proof.
  intros (freeze & r1 & S3 & Ho & He & Hf)%accepted_block.
  destruct (finish_spec _ _ _ _ _ Hf) as (r & Hsp & _). apply finish_feeds in Hf as (Ep & -> & ->).
  pose proof (opened_reserve _ _ _ _ _ _ _ _ _ _ Ho He Hsp) as Hopen. cbv zeta in Hopen.
  destruct (started_parts S r1 (height b)) as (P1 & _ & P3 & _).
  pose proof (effects_settled _ _ _ _ _ He) as Hs. apply effects_redeems in He as (rs & Er & Hall & Hsub). rewrite P3 in Er. cbn [app] in Er. subst rs.
  split; [|split; assumption]. rewrite Ep. unfold settled in Hs. rewrite P3 in Hs.
  change (last_block_reserve_payouts_ (started S r1 (height b))) with (@nil BtcVeldReservePayoutTransition) in Hs.
  assert (principal (started S r1 (height b)) = principal S) as E0.
  { unfold principal. rewrite P1. destruct Hopen as [E|(txid & blk & E)].
    - apply (f_equal (fun L => open_redemption_principal (reserve_state_ L))) in E. exact E.
    - by apply FreezeBtcVeldReserve_principal in E. }
  change (burned []) with 0 in Hs. change (paid_out []) with 0 in Hs. lia.
Qed.
End Blocks.

(** ** Open requests *)

Definition open_amount (r : RedeemRequest) : Z := if Closed_ r then 0 else rq_amount_sats r.
Definition outstanding (c : Covenant) : Z := map_total (open_amount <$> requests_ c).

(** In this profile every open request is backed by the reserve, not by signers. *)
Record open_ok (c : Covenant) (h : Z) (id : Hash256) (r : RedeemRequest) : Prop := {
  oo_backed : id ∈ reserve_backed_requests_ c;
  oo_amount : 0 < rq_amount_sats r;
  oo_recipient : size (veld_recipient r) <> 0;
  oo_status : rq_status r <> REQUESTED;
  oo_height : request_height r <= h }.
Definition cov_inv (h : Z) (c : Covenant) : Prop :=
  forall id r, requests_ c !! id = Some r -> Closed_ r = false -> open_ok c h id r.

(** An operation that does not touch the requests. *)
Definition same_requests (c c' : Covenant) : Prop :=
  requests_ c' = requests_ c /\ reserve_backed_requests_ c' = reserve_backed_requests_ c.

Lemma same_requests_inv h c c' : same_requests c c' -> cov_inv h c -> cov_inv h c' /\ outstanding c' = outstanding c.
Proof.
  intros [E1 E2] H. split; [|unfold outstanding; by rewrite E1]. intros id r. rewrite E1. intros Hr Hc.
  destruct (H id r Hr Hc). split; try assumption. by rewrite E2.
Qed.

Lemma cov_inv_mono h h' c : h <= h' -> cov_inv h c -> cov_inv h' c.
Proof. intros Hh H id r Hr Hc. destruct (H id r Hr Hc). split; try assumption. lia. Qed.

Lemma outstanding_put c c' id r :
  requests_ c' = <[id := r]> (requests_ c) ->
  outstanding c' = outstanding c - default 0 (open_amount <$> requests_ c !! id) + open_amount r.
Proof. intros E. unfold outstanding. rewrite E, fmap_insert, map_total_insert. unfold at_key. by rewrite lookup_fmap. Qed.

(** ** Closing a request *)

Lemma closed_status r st txid : st = FULFILLED \/ st = DEFAULTED -> Closed_ (with_status r st txid) = true.
Proof. intros [-> | ->]; reflexivity. Qed.

Lemma close_request h c id r st txid :
  cov_inv h c -> requests_ c !! id = Some r -> Closed_ r = false -> st = FULFILLED \/ st = DEFAULTED ->
  exists c1, ReleaseRequestLock_ c id (rq_amount_sats r) = Some c1
  /\ let c' := put_request c1 id (with_status r st txid) in
     cov_inv h c' /\ outstanding c' = outstanding c - rq_amount_sats r.
Proof.
  intros Hinv Hr Hc Hst. pose proof (Hinv id r Hr Hc) as Hok. unfold ReleaseRequestLock_.
  rewrite bool_decide_eq_true_2 by apply Hok. eexists. split; [reflexivity|]. cbv zeta. split.
  - intros id' r'. cbn [requests_ put_request with_requests]. intros [[<- <-]|[Hne Hr']]%lookup_insert_Some Hc'.
    + by rewrite closed_status in Hc'.
    + destruct (Hinv id' r' Hr' Hc'). split; try assumption. cbn [reserve_backed_requests_ put_request with_requests]. set_solver.
  - rewrite (outstanding_put c _ id (with_status r st txid)) by reflexivity.
    rewrite Hr. unfold open_amount at 2. rewrite closed_status by exact Hst. cbn [fmap option_fmap option_map default].
    unfold open_amount. rewrite Hc. cbn. lia.
Qed.

Lemma MarkFulfilled_spec h c id txid paid paid_spk c' :
  cov_inv h c -> MarkFulfilled c id txid paid paid_spk = Some (c', true) -> cov_inv h c' /\ outstanding c' = outstanding c - paid.
Proof.
  intros Hinv. unfold MarkFulfilled. destruct (requests_ c !! id) as [r|] eqn:Hr; [|done]. destruct (Closed_ r) eqn:Hc; [done|].
  destruct (Z.eqb_spec paid (rq_amount_sats r)) as [->|]; cbn [negb orb]; [|done]. destruct (negb _); [done|].
  destruct (close_request h c id r FULFILLED txid Hinv Hr Hc (or_introl eq_refl)) as (c1 & -> & Hd). intros [= <-]. exact Hd.
Qed.

Lemma apply_payout_spec h c p c' :
  cov_inv h c -> apply_payout c p = Some c' -> cov_inv h c' /\ outstanding c' = outstanding c - pt_principal_sats p.
Proof.
  intros Hinv. unfold apply_payout, MarkAuthorizedReservePayout. destruct (unused _ _) as [[]|]; [|done..].
  destruct (MarkFulfilled _ _ _ _ _) as [[c1 []]|] eqn:E; [|done..]. apply (MarkFulfilled_spec h) in E as [H1 H2]; [|exact Hinv].
  destruct (negb _); [|done]. intros [= <-].
  destruct (same_requests_inv h c1 (with_consumed c1 (consumed_payouts_ c1 ∪ {[pt_payout_txid p]}) (consumed_fraud_spends_ c1))) as [H3 H4];
    [split; reflexivity|exact H1|]. split; [exact H3|]. rewrite H4. exact H2.
Qed.

Lemma each_payouts h c l c' :
  cov_inv h c -> each apply_payout c l = Some c' -> cov_inv h c' /\ outstanding c' = outstanding c - paid_out l.
Proof.
  revert c. induction l as [|p l IH]; intros c Hinv; cbn [each paid_out foldr]; [intros [= <-]; split; [exact Hinv|lia]|].
  destruct (apply_payout c p) as [c1|] eqn:E; [|done]. apply (apply_payout_spec h) in E as [H1 H2]; [|exact Hinv].
  intros H. apply IH in H as [H3 H4]; [|exact H1]. split; [exact H3|]. fold (paid_out l) in *. lia.
Qed.

(** ** The claim behind a relayed payout *)

Lemma verify_facts_claim s c k parsed payout r :
  verify_facts BtcVeldCustodySpk IsCanonicalTokenCreditAddress s c k parsed payout = Some r -> claim r = c.
Proof.
  unfold verify_facts. destruct (ReadInputFacts _ _) as [f|]; [|done]. destruct (SumOutputs _) as [total|]; [|done].
  destruct (_ <? _); [done|]. cbv zeta. destruct (bool_decide _); [done|]. destruct (negb _); [done|].
  destruct (scan_inputs _ _ _ _ _ _ _ _) as [[[cur other] index]|]; [|done]. destruct (negb _); [done|].
  destruct (bool_decide _).
  { unfold verify_open. destruct (_ || _); [done|]. by intros [= <-]. }
  destruct index as [i|]; [|done]. destruct (negb _); [done|]. destruct (operation c); try (by intros [= <-]).
  - unfold verify_deposit. intros H. repeat case_match; simplify_eq; reflexivity.
  - unfold verify_rollover. intros H. repeat case_match; simplify_eq; reflexivity.
  - unfold verify_payout. destruct (_ || _); [done|]. destruct (paid_to _ _) as [n paid]. cbv zeta. destruct (_ || _); [done|]. by intros [= <-].
  - unfold verify_close. intros H. repeat case_match; simplify_eq; reflexivity.
Qed.

Lemma Verify_decodes cfg hd s supply payload depth payout r :
  Verify BtcVeldCustodySpk IsCanonicalTokenCreditAddress cfg hd s supply payload depth payout = Some r ->
  DecodeProof payload = Some (claim r).
Proof.
  unfold Verify. destruct (DecodeProof payload) as [c|]; [|done]. destruct (_ || _); [done|]. destruct (negb _); [done|].
  destruct (ParseReserveTx _); [|done]. destruct (_ || _); [done|]. cbv zeta. destruct (negb _); [done|].
  intros H. by apply verify_facts_claim in H as ->.
Qed.

Lemma read_claim_operation o d c rest : read_claim (put_le 1 (operation_byte o) ++ d) = Some (c, rest) -> operation c = o.
Proof.
  intros H. unfold read_claim in H. unfold rbind at 1 in H. rewrite read_le_app in H by (destruct o; split; vm_compute; congruence).
  unfold rbind at 1 in H. unfold of_option at 1 in H. replace (operation_of (operation_byte o)) with (Some o) in H by by destruct o.
  repeat match type of H with
  | rbind ?r ?k ?d = Some _ => unfold rbind at 1 in H; destruct (r d) as [[? ?]|]; [cbv beta in H|discriminate H]
  | (if ?b then _ else rfail) _ = Some _ => destruct b; [|discriminate H]
  end.
  by injection H as <- _.
Qed.

Lemma EncodeProof_operation c c' : EncodeProof c <> [] -> DecodeProof (EncodeProof c) = Some c' -> operation c' = operation c.
Proof.
  unfold EncodeProof. cbv zeta. destruct (_ || _); [done|]. destruct (negb (parents_pass _ _)); [done|].
  destruct (encode_nullifier c) as [n|]; [|done]. destruct (_ <? _); [done|].
  destruct (DecodeProof (encode_claim c n)) as [c0|] eqn:E; [|done]. rewrite E. intros _ [= <-].
  unfold DecodeProof in E. destruct (_ || _) in E; [done|]. unfold encode_claim in E.
  match type of E with context [drop 4 (PROOF_MAGIC ++ ?x)] => change (drop 4 (PROOF_MAGIC ++ x)) with x in E end.
  match type of E with context [read_claim ?d] => destruct (read_claim d) as [[c1 []]|] eqn:Er end; [|done..].
  injection E as <-. by apply read_claim_operation in Er.
Qed.

Lemma fsp2_principal cfg headers covenant S blk dirs branch tx parents S' :
  ApplyFsp2AuthorizedReservePayout cfg headers covenant S blk dirs branch tx parents = Some S' ->
  exists p, last (last_block_reserve_payouts_ S') = Some p /\ principal S' = principal S - pt_principal_sats p.
Proof.
  unfold ApplyFsp2AuthorizedReservePayout. destruct headers as [hd|]; [|done]. destruct covenant as [reqs|]; [|done]. cbv zeta.
  intros H. head_guard H. head_guard H. head_guard H. head_guard H. head_guard H. head_guard H. head_guard H. injection H as <-.
  match goal with E : ApplyAuthorized _ _ _ _ = Some _ |- _ => rename E into Ea end.
  match goal with E : Verify _ _ _ _ _ _ _ _ _ = Some _ |- _ => rename E into Ev end.
  match goal with E : (size (EncodeProof _) =? 0) = false |- _ => apply Z.eqb_neq in E; rename E into Hz end.
  apply Verify_decodes in Ev. apply EncodeProof_operation in Ev; [|intros E; by rewrite E in Hz]. cbn [operation payout_claim_of] in Ev.
  apply ApplyAuthorized_principal in Ea. rewrite Ev, bool_decide_eq_true_2 in Ea by reflexivity.
  eexists. split; [cbn [last_block_reserve_payouts_ with_edges with_reserve_payout with_reserve_state with_ledger]; apply last_snoc|].
  exact Ea.
Qed.

Lemma CompensateMint_principal L who amount L' :
  CompensateMint L who amount = Some L' ->
  open_redemption_principal (reserve_state_ L') = open_redemption_principal (reserve_state_ L) - amount.
Proof.
  unfold CompensateMint. cbv zeta. intros H. head_guard H. head_guard H. head_guard H. head_guard H. head_guard H. head_guard H. head_guard H.
  destruct (ResolveDefaultOrCompensation _ _ _) as [r|] eqn:E; [|done]. injection H as <-.
  unfold ResolveDefaultOrCompensation in E. head_guard E. cbv zeta in E. head_guard E. by injection E as <-.
Qed.

(** ** The other steps of the feed *)

Lemma ApplySlash_requests c v : same_requests c (ApplySlash c v).
Proof.
  unfold ApplySlash. destruct (_ || _); [done|]. cbv zeta. destruct (_ =? _); [done|].
  destruct (slash_shares _ _ _ _ _) as [m taken]. destruct (active_keys c) as [|k l]; [done|]. by destruct (_ <? _).
Qed.

Lemma apply_sbond_requests c h d c' : apply_sbond c h d = Some c' -> same_requests c c'.
Proof.
  unfold apply_sbond. destruct (negb _); [by intros [= <-]|]. destruct (SecurityStateMigrationActive h); [done|].
  destruct (sbond_fields _ _) as [|op [|addr [|amt [|? ?]]]]; try (by intros [= <-]). destruct (_ && _); [|by intros [= <-]].
  destruct (ParseCanonicalUint64Text amt) as [a|]; [|by intros [= <-]]. destruct (_ <? _); [by intros [= <-]|].
  unfold Register. destruct (_ || _); [done|]. cbv zeta. destruct (_ <? _); [done|]. cbn [negb]. unfold Activate.
  cbn [state_migration_active_ signers_ with_signers]. destruct (state_migration_active_ c); [done|]. rewrite lookup_insert_eq.
  destruct (_ =? 0); [done|]. by intros [= <-].
Qed.

Lemma each_sbond c h l c' : each (fun c d => apply_sbond c h d) c l = Some c' -> same_requests c c'.
Proof.
  revert c. induction l as [|d l IH]; intros c; cbn [each]; [by intros [= <-]|].
  destruct (apply_sbond c h d) as [c1|] eqn:E; [|done]. apply apply_sbond_requests in E as [E1 E2].
  intros [H1 H2]%IH. split; congruence.
Qed.

Lemma AddRequest_new h c r c' :
  cov_inv h c -> request_height r = h ->
  (forall e, requests_ c !! rq_request_id r = Some e -> Closed_ e = false -> request_height e < h) -> 0 <= rq_amount_sats r ->
  AddRequest c r true = Some c' ->
  cov_inv h c' /\ outstanding c' = outstanding c + rq_amount_sats r
  /\ requests_ c' = <[rq_request_id r := with_commitment_of r]> (requests_ c).
Proof.
  intros Hinv Hh Hold Ha. unfold AddRequest. destruct (request_admissible r) eqn:Hadm; cbn [negb]; [|done].
  unfold request_admissible in Hadm. bool_hyps. destruct (negb _ && negb _); [done|]. cbv zeta.
  destruct (requests_ c !! rq_request_id r) as [e|] eqn:Ee.
  { destruct (SameRequest_ e (with_commitment_of r) && _) eqn:Es; [|done]. exfalso. apply andb_true_iff in Es as [Es _].
    apply bool_decide_eq_true in Es. specialize (Hold e eq_refl). subst e. cbn [request_height with_commitment_of] in Hold.
    assert (Closed_ (with_commitment_of r) = false) as Hc.
    { unfold Closed_. cbn [rq_status with_commitment_of].
      match goal with H : rq_status r = LOCKED_IN |- _ => rewrite H end. reflexivity. }
    specialize (Hold Hc). lia. }
  destruct (archived _ _) as [[]|]; [done| |done]. case_bool_decide; [done|]. intros [= <-]. split_and!; [|..|reflexivity].
  - intros id' r'. cbn [requests_ with_requests]. intros [[<- <-]|[Hne Hr']]%lookup_insert_Some Hc'.
    + split; cbn [reserve_backed_requests_ with_requests rq_amount_sats veld_recipient rq_status request_height with_commitment_of];
        rewrite ?Z.eqb_neq in *; [set_solver|lia|assumption|congruence|lia].
    + destruct (Hinv id' r' Hr' Hc'). split; try assumption. cbn [reserve_backed_requests_ with_requests]. set_solver.
  - match goal with |- outstanding ?x = _ => rewrite (outstanding_put c x (rq_request_id r) (with_commitment_of r)) by reflexivity end.
    rewrite Ee. unfold open_amount, Closed_. cbn [rq_status with_commitment_of rq_amount_sats].
    match goal with H : rq_status r = LOCKED_IN |- _ => rewrite H end.
    cbn [fmap option_fmap option_map default]. rewrite !bool_decide_eq_false_2 by discriminate. cbn [orb]. lia.
Qed.

Definition request_id_of (r : TokenTransferRecord) : Hash256 :=
  let idb := BtcVeldHex_ (tr_txid r) in if size idb =? 32 then idb else ZeroHash.

(** The requests of a block have different identifiers when its transactions do. *)
Lemma request_ids_nodup txs rs :
  NoDup (map GetTxID txs) -> map tr_txid rs `sublist_of` txid_texts txs -> NoDup (map request_id_of rs).
Proof.
  intros Hnd Hsub.
  assert (map HashToHex (map request_id_of rs) = map tr_txid rs) as E.
  { rewrite map_map. apply map_ext_in. intros r Hr. assert (tr_txid r ∈ txid_texts txs) as Hin.
    { eapply elem_of_sublist; [|exact Hsub]. apply list_elem_of_In, in_map, Hr. }
    apply list_elem_of_In in Hin. unfold txid_texts in Hin. apply in_map_iff in Hin as (tx & Htx & _).
    unfold request_id_of. rewrite <- Htx. destruct (GetTxID_hash tx) as [Hl Hb]. rewrite BtcVeldHex_hash by exact Hb.
    unfold size. rewrite Hl. reflexivity. }
  apply (NoDup_fmap_1 HashToHex). change (HashToHex <$> ?l) with (map HashToHex l). rewrite E.
  eapply sublist_NoDup; [|exact Hsub]. unfold txid_texts. rewrite <- (map_map GetTxID HashToHex).
  apply (NoDup_fmap_2_strong HashToHex); [|exact Hnd]. intros x y Hx Hy.
  apply list_elem_of_In, in_map_iff in Hx as (tx & <- & _). apply list_elem_of_In, in_map_iff in Hy as (ty & <- & _).
  apply BytesToHex_inj; apply GetTxID_hash.
Qed.

Section FeedRules.
Context (cfg : BtcHeaderChain.Config) (btc : BtcHeaderChain.t) (write_ : list (bytes * bytes) -> bool).

Lemma each_requests h c rs c' :
  cov_inv h c -> Forall (redeem_of h) rs -> NoDup (map request_id_of rs) ->
  (forall r e, In r rs -> requests_ c !! request_id_of r = Some e -> Closed_ e = false -> request_height e < h) ->
  each (fun c r => AddRequest c (request_of btc r) true) c rs = Some c' ->
  cov_inv h c' /\ outstanding c' = outstanding c + burned rs.
Proof.
  revert c. induction rs as [|r rs IH]; intros c Hinv Hall Hnd Hold; cbn [each burned foldr]; [intros [= <-]; split; [exact Hinv|lia]|].
  apply Forall_cons in Hall as [[Hh [Ha Hm]] Hall]. cbn [map] in Hnd. apply NoDup_cons in Hnd as [Hni Hnd].
  assert (rq_amount_sats (request_of btc r) = tr_amount r) as Eam.
  { cbn [rq_amount_sats request_of with_commitment_of]. apply wrap_id. unfold INT64_MAX in Hm. split; [lia|]. change (2 ^ 64) with 18446744073709551616. lia. }
  destruct (AddRequest c (request_of btc r) true) as [c1|] eqn:E; [|done].
  apply (AddRequest_new h) in E as (H1 & H2 & H3); [|exact Hinv|exact Hh| |lia].
  2:{ intros e. apply (Hold r e). by left. }
  intros H. apply IH in H as [H4 H5]; try assumption.
  - split; [exact H4|]. fold (burned rs). lia.
  - intros r' e Hr' He. rewrite H3 in He. apply lookup_insert_Some in He as [[Eid _]|[_ He]].
    + exfalso. apply Hni. rewrite list_elem_of_In. change (rq_request_id (request_of btc r)) with (request_id_of r) in Eid. rewrite Eid.
      by apply in_map.
    + apply (Hold r' e); [by right|exact He].
Qed.

(** [true] steps keep the difference of principal and open requests. *)
Definition gap (cs : Covenant * TokenState) : Z := principal (cs.2) - outstanding (cs.1).

Definition kept (h : Z) (cs cs' : Covenant * TokenState) : Prop :=
  cov_inv h (cs'.1) /\ gap cs' = gap cs /\ (token_inv (money (cs.2)) -> token_inv (money (cs'.2))).

Lemma apply_default_spec h b cs id cs' : cov_inv h (cs.1) -> apply_default b cs id = Some cs' -> kept h cs cs'.
Proof.
  destruct cs as [c T]. cbn [fst]. intros Hinv. unfold apply_default. cbv zeta. unfold EvalNonPayment.
  destruct (requests_ c !! id) as [r|] eqn:Er; [|intros [= <-]; split_and!; [exact Hinv|reflexivity|done]].
  destruct (due b r) eqn:Ed; cbn [negb slash]; [|intros [= <-]; split_and!; [exact Hinv|reflexivity|done]].
  cbn [slash negb]. cbn [compensate_sats compensate_to].
  unfold due in Ed. apply andb_true_iff in Ed as [Ed _]. apply andb_true_iff in Ed as [Est Ecl]. apply negb_true_iff in Ecl.
  destruct (Hinv id r Er Ecl) as [B1 B2 B3 B4 B5]. rewrite (proj2 (Z.eqb_neq (rq_amount_sats r) 0)) by lia.
  rewrite (proj2 (Z.eqb_neq (size (veld_recipient r)) 0)) by exact B3. cbn [negb andb].
  destruct (CompensateMint _ _ _) as [L|] eqn:Em; cbn [option_map]; [|done].
  pose proof (after_inv cfg (Some btc) None _ _ (after_compensate _ _ _ _ _ _ _ (Z.lt_le_incl _ _ B2) Em)) as Ht. apply CompensateMint_principal in Em.
  match goal with |- context [SetStatus (ApplySlash c ?v)] => set (c1 := ApplySlash c v); pose proof (ApplySlash_requests c v) as Hs; fold c1 in Hs end.
  destruct (same_requests_inv h _ _ Hs Hinv) as [Hi1 Ho1]. unfold SetStatus. destruct Hs as [Hs _]. rewrite Hs, Er.
  assert (rq_status r <> DEFAULTED) as Hnd by (intros E; unfold Closed_ in Ecl; rewrite E in Ecl; by cbn in Ecl).
  rewrite bool_decide_eq_false_2 by exact Hnd. rewrite Ecl. rewrite bool_decide_eq_false_2 by discriminate.
  rewrite bool_decide_eq_true_2 by reflexivity. rewrite <- Hs in Er.
  destruct (close_request h c1 id r DEFAULTED (fulfilled_txid r) Hi1 Er Ecl (or_intror eq_refl)) as (c2 & -> & Hc2 & Ho2).
  intros [= <-]. split_and!; [exact Hc2| |exact Ht]. unfold gap, principal. cbn [fst snd money with_ledger]. lia.
Qed.

Lemma apply_fraud_spec h cs d cs' : cov_inv h (cs.1) -> apply_fraud cfg btc cs d = Some cs' -> kept h cs cs'.
Proof.
  destruct cs as [c T]. cbn [fst]. intros Hinv. unfold apply_fraud. destruct (negb _); [intros [= <-]; split_and!; [exact Hinv|reflexivity|done]|].
  cbv zeta. destruct (_ =? _); [done|]. destruct (VerifyFraudulentSpend _ _ _ _ _) as [f|]; [|done].
  destruct (IsConsumedPayout _ _) as [[]|]; [done| |done]. destruct (IsConsumedFraudSpend _ _) as [[]|]; [done| |done].
  destruct (disposition _); [done| |].
  - destruct (bool_decide _); [|intros [= <-]; split_and!; [exact Hinv|reflexivity|done]].
    destruct (ApplyFsp2AuthorizedReservePayout _ _ _ _ _ _ _ _ _) as [T'|] eqn:E; [|done].
    pose proof (after_inv _ _ _ _ _ (after_payout _ _ _ _ _ _ _ _ _ _ E)) as Ht. apply fsp2_principal in E as (p & -> & Hp).
    destruct (apply_payout c p) as [c'|] eqn:E; [|done]. apply (apply_payout_spec h) in E as [H1 H2]; [|exact Hinv].
    intros [= <-]. split_and!; [exact H1| |exact Ht]. unfold gap. cbn [fst snd]. lia.
  - unfold ConsumeFraudSpend. destruct (unused _ _) as [[]|]; [|done..]. destruct (negb _); [|done].
    destruct (freeze_edge _ _ _) as [T'|] eqn:E; [|done].
    pose proof (after_inv cfg (Some btc) None _ _ (after_freeze _ _ _ _ _ _ _ E)) as Ht. intros [= <-]. unfold kept. cbn [fst snd].
    match goal with |- context [ApplySlash ?x ?v] => destruct (same_requests_inv h c (ApplySlash x v)) as [H1 H2] end.
    { match goal with |- context [ApplySlash ?x ?v] => destruct (ApplySlash_requests x v) as [E1 E2] end. split; [exact E1|exact E2]. }
    { exact Hinv. }
    split_and!; [exact H1| |exact Ht]. unfold gap. cbn [fst snd]. rewrite H2. f_equal. unfold freeze_edge in E. destruct (negb _); [done|].
    destruct (FreezeBtcVeldReserve _ _ _) as [L|] eqn:Ef; [|done]. injection E as <-.
    apply FreezeBtcVeldReserve_principal in Ef. exact Ef.
Qed.

Lemma each_kept {B} h (f : Covenant * TokenState -> B -> option (Covenant * TokenState)) cs l cs' :
  (forall cs x cs', cov_inv h (cs.1) -> f cs x = Some cs' -> kept h cs cs') ->
  cov_inv h (cs.1) -> each f cs l = Some cs' -> kept h cs cs'.
Proof.
  intros Hf. revert cs. induction l as [|x l IH]; intros cs Hi; cbn [each]; [intros [= <-]; by split_and!|].
  destruct (f cs x) as [cs1|] eqn:E; [|done]. apply Hf in E as (H1 & H2 & H3); [|exact Hi]. intros H. apply IH in H as (H4 & H5 & H6); [|exact H1].
  split_and!; [exact H4|congruence|auto].
Qed.

(** ** Archiving *)

Lemma outstanding_filter (m : gmap bytes RedeemRequest) :
  map_total (open_amount <$> filter (fun kr => Closed_ (kr.2) = false) m) = map_total (open_amount <$> m).
Proof.
  induction m as [|k r m Hk IH] using map_ind; [by rewrite map_filter_empty|]. rewrite fmap_insert, map_total_insert_new by by rewrite lookup_fmap, Hk.
  destruct (Closed_ r) eqn:Ec.
  - rewrite map_filter_insert_False by (cbn [snd]; by rewrite Ec). rewrite delete_id by exact Hk. unfold open_amount at 2. rewrite Ec. lia.
  - rewrite map_filter_insert_True by exact Ec. rewrite fmap_insert, map_total_insert_new; [lia|].
    rewrite lookup_fmap. apply fmap_None, map_lookup_filter_None. by left.
Qed.

Lemma drop_closed_inv h c : cov_inv h c -> cov_inv h (drop_closed c) /\ outstanding (drop_closed c) = outstanding c.
Proof.
  intros Hinv. split; [|apply outstanding_filter]. intros id r [Hr _]%map_lookup_filter_Some Hc.
  destruct (Hinv id r Hr Hc). split; try assumption. cbn [drop_closed reserve_backed_requests_ with_requests].
  apply elem_of_filter. split; [|assumption]. unfold closed_at. by rewrite Hr.
Qed.

Lemma archive_rows_requests c rows c' : archive_rows write_ c rows = Some c' -> same_requests c c'.
Proof.
  unfold archive_rows. destruct rows as [|row rows]; [destruct (archive_ c); by intros [= <-]|].
  destruct (archive_ c); [|done]. destruct (archive_all _ _ _); [|done]. by intros [= <-].
Qed.

Lemma FinishBlock_spec h c c' : cov_inv h c -> FinishBlock write_ c = Some c' -> cov_inv h c' /\ outstanding c' = outstanding c.
Proof.
  intros Hinv. unfold FinishBlock. destruct (negb _); [intros [= <-]; by split|].
  destruct (archive_rows _ _ _) as [c1|] eqn:E; [|done]. apply archive_rows_requests in E.
  destruct (same_requests_inv h _ _ E Hinv) as [H1 H2]. destruct (drop_closed_inv h c1 H1) as [H3 H4]. intros [= <-].
  destruct (same_requests_inv h (drop_closed c1) (drop_unlocked (with_consumed (drop_closed c1) ∅ ∅))) as [H5 H6]; [by split|exact H3|].
  split; [exact H5|congruence].
Qed.

Lemma BeginBlock_spec h c height c' : cov_inv h c -> BeginBlock write_ c height = Some c' -> cov_inv h c' /\ outstanding c' = outstanding c.
Proof.
  intros Hinv. unfold BeginBlock. destruct (negb _); [destruct (state_migration_active_ c); [done|intros [= <-]; by split]|].
  destruct (archive_ c) eqn:Ea; [|done]. destruct (state_migration_active_ c); [intros [= <-]; by split|]. cbv zeta.
  destruct (archive_rows _ _ _) as [c1|] eqn:E; [|done]. apply archive_rows_requests in E. intros [= <-].
  match goal with |- cov_inv h (drop_closed ?x) /\ _ => destruct (same_requests_inv h c x) as [H1 H2] end; [by destruct E|exact Hinv|].
  rewrite <- H2. by apply drop_closed_inv.
Qed.

(** ** The feed *)

Lemma Feed_spec h c S b c' S' :
  cov_inv h c -> h < height b -> Forall (redeem_of (height b)) (last_block_redeems_ S) -> NoDup (map request_id_of (last_block_redeems_ S)) ->
  FeedRedeemCovenant_ cfg btc write_ c S b = Some (c', S') ->
  cov_inv (height b) c'
  /\ gap (c', S') = principal S - (outstanding c + burned (last_block_redeems_ S) - paid_out (last_block_reserve_payouts_ S))
  /\ (token_inv (money S) -> token_inv (money S')).
Proof.
  intros Hinv Hh Hall Hnd. unfold FeedRedeemCovenant_.
  destruct (each _ c (all_data b)) as [c1|] eqn:E1; [|done]. apply each_sbond in E1. destruct (same_requests_inv h _ _ E1 Hinv) as [I1 O1].
  destruct (each apply_payout c1 _) as [c2|] eqn:E2; [|done]. apply (each_payouts h) in E2 as [I2 O2]; [|exact I1].
  destruct (each _ c2 (last_block_redeems_ S)) as [c3|] eqn:E3; [|done].
  apply (each_requests (height b)) in E3 as [I3 O3]; [|by eapply cov_inv_mono; [|exact I2]; lia|exact Hall|exact Hnd|].
  2:{ intros r e _ He Hc. destruct (I2 _ _ He Hc). lia. }
  destruct (existsb _ _); [done|]. destruct (each (apply_fraud cfg btc) (c3, S) _) as [[c4 S4]|] eqn:E4; [|done].
  apply (each_kept (height b) _ (c3, S)) in E4 as (I4 & G4 & T4); [|apply apply_fraud_spec|exact I3].
  destruct (each (apply_default _) (c4, S4) _) as [[c5 S5]|] eqn:E5; [|done].
  apply (each_kept (height b) _ (c4, S4)) in E5 as (I5 & G5 & T5); [|intros ? ? ?; apply apply_default_spec|exact I4].
  destruct (FinishBlock write_ c5) as [c6|] eqn:E6; [|done]. apply (FinishBlock_spec (height b)) in E6 as [I6 O6]; [|exact I5].
  intros [= <- <-]. split_and!; [exact I6| |intros H; by apply T5, T4]. unfold gap in *. cbn [fst snd] in *. lia.
Qed.

(** A block keeps the principal equal to what its open requests ask for. *)
Lemma peg_modules_spec verify h c S b gate c' S' :
  cov_inv h c -> h < height b -> NoDup (map GetTxID (transactions b)) ->
  apply_peg_modules cfg btc write_ verify c S b gate = Some (c', S') ->
  cov_inv (height b) c' /\ gap (c', S') = gap (c, S) /\ (token_inv (money S) -> token_inv (money S')).
Proof.
  intros Hinv Hh Hnd. unfold apply_peg_modules. destruct (BeginBlock _ _ _) as [c1|] eqn:Eb; [|done].
  apply (BeginBlock_spec h) in Eb as [I1 O1]; [|exact Hinv]. destruct (TokenBlock.ProcessBlock _ _ _ _ _ _ _) as [S1 w] eqn:Ep.
  destruct w; [|done..]. intros Hf. destruct (block_principal _ _ _ _ _ _ _ _ Ep) as (P1 & P2 & P3).
  apply (Feed_spec h) in Hf as (I2 & G2 & T2); [|exact I1|exact Hh|exact P2|by eapply request_ids_nodup].
  split_and!; [exact I2| |intros I; apply T2; by eapply block_inv]. rewrite G2. unfold gap. cbn [fst snd]. lia.
Qed.
End FeedRules.
