(* ===== verification/RedeemSafety.v ===== *)
(** * Safety of redemptions

    The reserve owes what the open requests ask for, after every block; a redemption past its
    deadline is restored to its holder or refuses the block; and the archive of closed
    requests answers like a map. *)
From S2P Require Import Prelude Limbs Bytes Sha256 StateDigest MintNullifier RedeemArchive RedeemArchiveRules Profile.
From S2P Require Import Transaction Block Address OpAuthorization Marker AmmMath MapSum BtcHeaderChain BtcTx SignerBond Reserve.
From S2P Require Import ReserveProof ReserveProofRules ReserveWire ReserveSafety TokenLedger TokenRules TokenBlock RedeemFeed.
From S2P Require Import TokenBlockRules TokenBlockSafety RedeemRules AmmSafety.
Import OnChainTokenLedger.

#[local] Opaque sha256 sha256_domain NetworkBinding TREE_DEPTH.

(** ** The peg *)

(** The covenant and the token ledger after a block of height [h]. *)
Definition peg_ok (h : Z) (c : Covenant) (S : TokenState) : Prop :=
  cov_inv h c /\ principal S = outstanding c /\ token_inv (money S).

(** Blocks in the order of their heights, with any headers, database and gate, and the moves
    of the pool between them. *)
Inductive peg_run (verify : bytes -> bytes -> bytes -> bool) (cfg : BtcHeaderChain.Config)
  : Z -> Covenant -> TokenState -> Z -> Covenant -> TokenState -> Prop :=
  | peg_done h c S : peg_run verify cfg h c S h c S
  | peg_block btc write_ gate b h c S c1 S1 h' c' S' :
      h < height b -> NoDup (map GetTxID (transactions b)) ->
      apply_peg_modules cfg btc write_ verify c S b gate = Some (c1, S1) ->
      peg_run verify cfg (height b) c1 S1 h' c' S' -> peg_run verify cfg h c S h' c' S'
  | peg_move from to amount L h c S h' c' S' :
      AmmMove (money S) BTCVELD_TOKEN_ID from to amount = Some L ->
      peg_run verify cfg h c (with_ledger S L) h' c' S' -> peg_run verify cfg h c S h' c' S'.

Lemma peg_start h archive : peg_ok h (NoCovenant archive) NoTokens.
Proof.
  split_and!; [|by vm_compute|apply EmptyTokens_inv]. intros id r H. cbn [requests_ NoCovenant] in H. by rewrite lookup_empty in H.
Qed.

Lemma AmmMove_principal L token from to amount L' :
  AmmMove L token from to amount = Some L' ->
  open_redemption_principal (reserve_state_ L') = open_redemption_principal (reserve_state_ L).
Proof. unfold AmmMove. destruct (negb _); [done|]. cbv zeta. destruct (bytes_eqb _ _); by intros [= <-]. Qed.

Lemma peg_run_ok verify cfg h c S h' c' S' : peg_run verify cfg h c S h' c' S' -> peg_ok h c S -> peg_ok h' c' S'.
Proof.
  induction 1 as [h c S|btc write_ gate b h c S c1 S1 h' c' S' Hh Hnd Hb _ IH|from to amount L h c S h' c' S' Hm _ IH];
    [done| |]; intros (Hi & Hp & Ht); apply IH.
  - destruct (peg_modules_spec cfg btc write_ verify h c S b gate c1 S1 Hi Hh Hnd Hb) as (I1 & G1 & T1).
    unfold gap in G1. cbn [fst snd] in G1. split_and!; [exact I1|lia|by apply T1].
  - split_and!; [exact Hi| |].
    + unfold principal. cbn [money with_ledger]. apply AmmMove_principal in Hm as ->. exact Hp.
    + exact (after_inv cfg None None _ _ (after_move _ _ _ _ _ _ _ _ Hm) Ht).
Qed.

Lemma peg_ok_value h c S :
  peg_ok h c S ->
  reserve_value_sats (reserve_state_ (money S))
  = map_total (balances_ (money S)) + outstanding c + surplus_sats (reserve_state_ (money S)).
Proof.
  intros (_ & Hp & I). pose proof (ti_reserve _ I) as Hr. rewrite (ti_supply _ I) in Hr.
  apply AccountingHolds_iff in Hr as (_ & -> & _). unfold principal in Hp. lia.
Qed.

(** ** Defaults *)

Lemma due_open b r : due b r = true -> Closed_ r = false /\ rq_status r <> DEFAULTED.
Proof.
  unfold due. intros [[_ H]%andb_true_iff _]%andb_true_iff. apply negb_true_iff in H. split; [exact H|].
  intros E. unfold Closed_ in H. rewrite E in H. by cbn in H.
Qed.

Lemma cov_amount_le h c id r :
  cov_inv h c -> requests_ c !! id = Some r -> Closed_ r = false -> 0 < rq_amount_sats r <= outstanding c.
Proof.
  intros Hinv Hr Hc. split; [apply (Hinv id r Hr Hc)|].
  destruct (at_key_le_total (open_amount <$> requests_ c) id) as [_ H].
  { intros k v Hk. apply lookup_fmap_Some in Hk as (x & <- & Hx). unfold open_amount. destruct (Closed_ x) eqn:E; [lia|].
    destruct (Hinv k x Hx E). lia. }
  unfold at_key in H. rewrite lookup_fmap, Hr in H. cbn in H. unfold open_amount in H. by rewrite Hc in H.
Qed.

(** The credit of a compensation, apart from its checks. *)
Definition compensated (L : t) (who : bytes) (amount : Z) : t :=
  let key := account_key BTCVELD_TOKEN_ID who in
  with_money L (<[key := at_key (balances_ L) key + amount]> (balances_ L))
    (<[BTCVELD_TOKEN_ID := GetSupply L BTCVELD_TOKEN_ID + amount]> (supply_ L))
    (with_open_principal (reserve_state_ L) (open_redemption_principal (reserve_state_ L) - amount)).

Lemma CompensateMint_exact L who amount :
  token_inv L -> is_Some (tokens_ L !! BTCVELD_TOKEN_ID) -> IsCanonicalTokenCreditAddress who = true ->
  0 < amount <= open_redemption_principal (reserve_state_ L) -> 0 <= surplus_sats (reserve_state_ L) ->
  reserve_value_sats (reserve_state_ L) <= INT64_MAX ->
  CompensateMint L who amount
  = if GetBalance L BTCVELD_TOKEN_ID who + amount <? MIN_ACCOUNT_SATS then None else Some (compensated L who amount).
Proof.
  intros I Htok Hwho Ha Hs Hv. unfold CompensateMint.
  change (default 0 (supply_ L !! BTCVELD_TOKEN_ID)) with (GetSupply L BTCVELD_TOKEN_ID).
  change (default 0 (balances_ L !! account_key BTCVELD_TOKEN_ID who)) with (at_key (balances_ L) (account_key BTCVELD_TOKEN_ID who)).
  change (GetBalance L BTCVELD_TOKEN_ID who) with (at_key (balances_ L) (account_key BTCVELD_TOKEN_ID who)).
  set (key := account_key BTCVELD_TOKEN_ID who). destruct I as [_ IB IS IR _].
  assert (0 <= at_key (balances_ L) key <= GetSupply L BTCVELD_TOKEN_ID) as Hk.
  { rewrite IS. apply at_key_le_total. intros k v E. specialize (IB k v E). unfold MIN_ACCOUNT_SATS in IB. lia. }
  pose proof (proj1 (AccountingHolds_iff _ _) IR) as (Hcan & Hval & Hl & Hm).
  rewrite Hwho, bool_decide_eq_true_2 by exact Htok. cbn [negb orb].
  rewrite (proj2 (Z.eqb_neq amount 0)) by lia. rewrite (proj2 (Z.ltb_ge INT64_MAX amount)) by lia. cbv zeta.
  rewrite (proj2 (Z.ltb_ge (GetSupply L BTCVELD_TOKEN_ID) 0)) by lia. rewrite (proj2 (Z.ltb_ge (INT64_MAX - amount) _)) by lia.
  rewrite (proj2 (Z.ltb_ge (at_key (balances_ L) key) 0)), (proj2 (Z.ltb_ge (INT64_MAX - amount) (at_key (balances_ L) key))) by lia. cbn [orb].
  unfold BalanceAdmissible. rewrite (proj2 (Z.eqb_neq _ 0)) by lia. cbn [orb]. rewrite Z.leb_antisym, negb_involutive.
  destruct (_ <? _); [reflexivity|]. unfold ResolveDefaultOrCompensation. rewrite (proj2 (Z.eqb_neq amount 0)) by lia.
  rewrite (proj2 (Z.ltb_ge _ amount)) by lia. cbn [orb]. cbv zeta.
  rewrite (proj2 (AccountingHolds_iff _ (GetSupply L BTCVELD_TOKEN_ID + amount))); [reflexivity|].
  unfold with_open_principal, with_reserve. cbn [open_redemption_principal reserve_value_sats surplus_sats]. split_and!; try lia.
  unfold Canonical in *. cbn [status transition_commitment reserve_txid reserve_vout reserve_value_sats reserve_bitcoin_block surplus_sats
    open_redemption_principal] in *.
  destruct (HashIsZero _) in *; [done|]. destruct (bool_decide (status _ = EMPTY)); [|exact Hcan]. exfalso.
  apply andb_true_iff in Hcan as [_ H0]. apply Z.eqb_eq in H0. lia.
Qed.

(** What the default of a due request comes to. *)
Lemma apply_default_due b c S id r :
  requests_ c !! id = Some r -> due b r = true -> 0 < rq_amount_sats r -> size (veld_recipient r) <> 0 ->
  apply_default b (c, S) id
  = match CompensateMint (money S) (veld_recipient r) (rq_amount_sats r) with
    | None => None
    | Some L => match SetStatus (ApplySlash c (EvalNonPayment c id b BTCVELD_NONPAY_PENALTY_BPS)) id DEFAULTED with
                | Some c2 => Some (c2, with_ledger S L)
                | None => None
                end
    end.
Proof.
  intros Hr Hd Ha Hw. unfold apply_default. cbv zeta.
  assert (slash (EvalNonPayment c id b BTCVELD_NONPAY_PENALTY_BPS) = true
    /\ compensate_sats (EvalNonPayment c id b BTCVELD_NONPAY_PENALTY_BPS) = rq_amount_sats r
    /\ compensate_to (EvalNonPayment c id b BTCVELD_NONPAY_PENALTY_BPS) = veld_recipient r) as (-> & -> & ->).
  { unfold EvalNonPayment. rewrite Hr, Hd. cbn [negb]. split_and!; reflexivity. }
  rewrite (proj2 (Z.eqb_neq (rq_amount_sats r) 0)) by lia. rewrite (proj2 (Z.eqb_neq (size (veld_recipient r)) 0)) by exact Hw.
  cbn [negb andb]. by destruct (CompensateMint _ _ _).
Qed.

(** The bonds and the insurance fund are the same; the fields no default writes are the same. *)
Definition same_collateral (c c' : Covenant) : Prop :=
  signers_ c = signers_ c' /\ insurance_fund_sats_ c = insurance_fund_sats_ c'.
Definition same_records (c c' : Covenant) : Prop :=
  (consumed_payouts_ c, consumed_fraud_spends_ c, archive_ c, archive_root_ c, state_migration_active_ c)
  = (consumed_payouts_ c', consumed_fraud_spends_ c', archive_ c', archive_root_ c', state_migration_active_ c').

Lemma ApplySlash_idle c v : TotalActiveBond c = 0 -> ApplySlash c v = c.
Proof. intros H. unfold ApplySlash. rewrite H. by destruct (_ || _). Qed.

Lemma ApplySlash_records c v : same_records c (ApplySlash c v).
Proof.
  unfold ApplySlash. destruct (_ || _); [done|]. cbv zeta. destruct (_ =? _); [done|].
  destruct (slash_shares _ _ _ _ _) as [m taken]. destruct (active_keys c) as [|k l]; [done|]. by destruct (_ <? _).
Qed.

Lemma SetStatus_default c id r :
  requests_ c !! id = Some r -> Closed_ r = false -> id ∈ reserve_backed_requests_ c ->
  exists c', SetStatus c id DEFAULTED = Some c'
  /\ requests_ c' = <[id := with_status r DEFAULTED (fulfilled_txid r)]> (requests_ c)
  /\ reserve_backed_requests_ c' = reserve_backed_requests_ c ∖ {[id]}
  /\ same_collateral c' c /\ same_records c c'.
Proof.
  intros Hr Hc Hb. unfold SetStatus. rewrite Hr, Hc.
  rewrite bool_decide_eq_false_2 by (intros E; unfold Closed_ in Hc; rewrite E in Hc; by cbn in Hc).
  rewrite bool_decide_eq_false_2 by discriminate. rewrite bool_decide_eq_true_2 by reflexivity.
  unfold ReleaseRequestLock_. rewrite bool_decide_eq_true_2 by exact Hb. eexists. split; [reflexivity|]. by split_and!.
Qed.

(** ** A default that cannot be compensated *)

Lemma elem_insert_sorted x k l : x ∈ insert_sorted k l <-> x = k \/ x ∈ l.
Proof.
  induction l as [|y l IH]; cbn [insert_sorted]; [set_solver|]. destruct (lex_lt k y); set_solver.
Qed.

Lemma elem_map_keys {A} (m : gmap bytes A) k x : m !! k = Some x -> k ∈ map_keys m.
Proof.
  intros H. apply elem_of_map_to_list in H. unfold map_keys, sorted. induction (map_to_list m) as [|[k' x'] l IH]; [set_solver|].
  cbn [map foldr fst]. apply elem_insert_sorted. apply elem_of_cons in H as [[= -> ->]|H]; [by left|right; by apply IH].
Qed.

Lemma due_listed c b id r : requests_ c !! id = Some r -> due b r = true -> id ∈ DueForDefault c b.
Proof.
  intros Hr Hd. unfold DueForDefault. apply list_elem_of_In, filter_In. split; [|by rewrite Hr].
  apply list_elem_of_In. by eapply elem_map_keys.
Qed.

(** The request is open, and no other due request has its holder. *)
Definition alone (b : Z) (id : Hash256) (r : RedeemRequest) (c : Covenant) : Prop :=
  requests_ c !! id = Some r
  /\ forall id' r', id' <> id -> requests_ c !! id' = Some r' -> due b r' = true -> veld_recipient r' <> veld_recipient r.

Section Alone.
Context (b : Z) (id : Hash256) (r : RedeemRequest).

Lemma alone_same c c' : requests_ c' = requests_ c -> alone b id r c -> alone b id r c'.
Proof. intros E [H1 H2]. split; [by rewrite E|]. intros id' r'. rewrite E. apply H2. Qed.

Lemma alone_put c c' x q :
  requests_ c' = <[x := q]> (requests_ c) -> x <> id -> due b q = false -> alone b id r c -> alone b id r c'.
Proof.
  intros E Hx Hq [H1 H2]. split; [by rewrite E, lookup_insert_ne|]. intros id' r' Hn. rewrite E.
  intros [[_ <-]|[_ H]]%lookup_insert_Some Hd; [congruence|by apply (H2 id')].
Qed.

Lemma ReleaseRequestLock_requests c x amount c' : ReleaseRequestLock_ c x amount = Some c' -> requests_ c' = requests_ c.
Proof. unfold ReleaseRequestLock_, ReleaseLock. destruct (bool_decide _); [by intros [= <-]|]. destruct (_ <? _); [done|]. by intros [= <-]. Qed.

Lemma closed_not_due q : Closed_ q = true -> due b q = false.
Proof. intros H. unfold due. rewrite H. by rewrite andb_false_r. Qed.

Lemma alone_payout c p c' : pt_request_id p <> id -> apply_payout c p = Some c' -> alone b id r c -> alone b id r c'.
Proof.
  intros Hp H Ha. unfold apply_payout, MarkAuthorizedReservePayout in H. destruct (unused _ _) as [[]|]; [|done..].
  unfold MarkFulfilled in H. destruct (requests_ c !! pt_request_id p) as [q|]; [|done]. destruct (Closed_ q); [done|].
  destruct (_ || _) in H; [done|]. destruct (ReleaseRequestLock_ _ _ _) as [c1|] eqn:E; [|done]. apply ReleaseRequestLock_requests in E.
  destruct (negb _) in H; [|done]. injection H as <-. eapply (alone_put c _ (pt_request_id p)); [|exact Hp| |exact Ha].
  - cbn [requests_ with_consumed put_request with_requests]. by rewrite E.
  - by apply closed_not_due.
Qed.

Lemma alone_payouts c l c' :
  Forall (fun p => pt_request_id p <> id) l -> each apply_payout c l = Some c' -> alone b id r c -> alone b id r c'.
Proof.
  revert c. induction l as [|p l IH]; intros c Hl; cbn [each]; [by intros [= <-]|]. apply Forall_cons in Hl as [Hp Hl].
  destruct (apply_payout c p) as [c1|] eqn:E; [|done]. intros H Ha. eapply IH; [exact Hl|exact H|by eapply alone_payout].
Qed.

Lemma alone_request c q c' : due b (with_commitment_of q) = false -> AddRequest c q true = Some c' -> alone b id r c -> alone b id r c'.
Proof.
  intros Hq H Ha. unfold AddRequest in H. do 2 head_guard H. cbv zeta in H. destruct (requests_ c !! rq_request_id q) as [e|] eqn:E.
  { destruct (_ && _) in H; [|done]. by injection H as <-. }
  destruct (archived _ _) as [[]|]; [done| |done]. destruct (bool_decide _) in H; [done|]. injection H as <-.
  eapply (alone_put c _ (rq_request_id q)); [reflexivity| |exact Hq|exact Ha]. intros Eid. destruct Ha as [Ha _]. congruence.
Qed.

Lemma alone_requests btc c rs c' :
  0 <= b < 2 ^ 63 -> Forall (redeem_of b) rs ->
  each (fun c x => AddRequest c (request_of btc x) true) c rs = Some c' -> alone b id r c -> alone b id r c'.
Proof.
  intros Hb. revert c. induction rs as [|x rs IH]; intros c Hl; cbn [each]; [by intros [= <-]|]. apply Forall_cons in Hl as [[Hx _] Hl].
  destruct (AddRequest c (request_of btc x) true) as [c1|] eqn:E; [|done]. intros H Ha. eapply IH; [exact Hl|exact H|].
  eapply alone_request; [|exact E|exact Ha]. unfold due. cbn [deadline_height with_commitment_of request_of].
  rewrite Hx, wrap_id by (unfold fits, BTCVELD_REDEEM_SLA; change (2 ^ 64) with 18446744073709551616; change (2 ^ 63) with 9223372036854775808 in Hb; lia). rewrite (proj2 (Z.ltb_ge _ b)) by (unfold BTCVELD_REDEEM_SLA; lia).
  by rewrite andb_false_r.
Qed.

Lemma CompensateMint_other L who amount L' a :
  CompensateMint L who amount = Some L' -> who <> a -> GetBalance L' BTCVELD_TOKEN_ID a = GetBalance L BTCVELD_TOKEN_ID a.
Proof.
  unfold CompensateMint. cbv zeta. intros H Hne. do 7 head_guard H. destruct (ResolveDefaultOrCompensation _ _ _) as [rs|]; [|done].
  injection H as <-. unfold GetBalance. cbn [balances_ with_money]. rewrite lookup_insert_ne; [reflexivity|].
  intros E. by apply account_key_inj in E.
Qed.

Lemma CompensateMint_sub_floor L who amount :
  0 < amount -> GetBalance L BTCVELD_TOKEN_ID who + amount < MIN_ACCOUNT_SATS -> CompensateMint L who amount = None.
Proof.
  intros Ha Hb. unfold GetBalance in Hb. unfold CompensateMint. cbv zeta. destruct (_ || _); [done|]. destruct (negb _); [done|].
  destruct (_ <? _); [done|]. destruct (_ <? _); [done|]. destruct (_ <? _); [done|].
  destruct (Z.ltb_spec (default 0 (balances_ L !! account_key BTCVELD_TOKEN_ID who)) 0); [done|]. cbn [orb]. destruct (_ <? _); [done|].
  unfold BalanceAdmissible. rewrite (proj2 (Z.eqb_neq _ 0)), (proj2 (Z.leb_gt _ _)) by lia. done.
Qed.

Lemma alone_default c S x c' S' :
  x <> id -> apply_default b (c, S) x = Some (c', S') -> alone b id r c ->
  alone b id r c' /\ GetBalance (money S') BTCVELD_TOKEN_ID (veld_recipient r) = GetBalance (money S) BTCVELD_TOKEN_ID (veld_recipient r).
Proof.
  intros Hx H Ha. unfold apply_default in H. cbv zeta in H. unfold EvalNonPayment in H.
  destruct (requests_ c !! x) as [q|] eqn:Eq; [|by injection H as <- <-]. destruct (due b q) eqn:Ed; cbn [negb slash] in H; [|by injection H as <- <-].
  cbn [compensate_sats compensate_to] in H. pose proof (proj2 Ha x q Hx Eq Ed) as Hne. split.
  - match type of H with context [SetStatus (ApplySlash c ?v)] => pose proof (proj1 (ApplySlash_requests c v)) as Es; set (c1 := ApplySlash c v) in * end.
    destruct (if negb _ && negb _ then _ else _) as [T'|] in H; [|done].
    unfold SetStatus in H. rewrite Es, Eq in H. destruct (bool_decide _) in H.
    { injection H as <- <-. by eapply alone_same. }
    destruct (due_open _ _ Ed) as [Ecl _]. rewrite Ecl in H. rewrite bool_decide_eq_false_2 in H by discriminate. rewrite bool_decide_eq_true_2 in H by reflexivity.
    destruct (ReleaseRequestLock_ _ _ _) as [c2|] eqn:E2; [|done]. apply ReleaseRequestLock_requests in E2. injection H as <- <-.
    eapply (alone_put c _ x); [|exact Hx| |exact Ha]; [cbn [requests_ put_request with_requests]; by rewrite E2, Es|by apply closed_not_due].
  - destruct (negb _ && negb _) in H.
    + destruct (CompensateMint _ _ _) as [L|] eqn:Em; cbn [option_map] in H; [|done]. destruct (SetStatus _ _ _); [|done].
      injection H as _ <-. cbn [money with_ledger]. by eapply CompensateMint_other.
    + destruct (SetStatus _ _ _); [|done]. by injection H as _ <-.
Qed.

Lemma defaults_stuck c S l :
  alone b id r c -> due b r = true -> 0 < rq_amount_sats r -> size (veld_recipient r) <> 0 ->
  GetBalance (money S) BTCVELD_TOKEN_ID (veld_recipient r) + rq_amount_sats r < MIN_ACCOUNT_SATS -> id ∈ l ->
  each (apply_default b) (c, S) l = None.
Proof.
  intros Ha Hd Hp Hw. revert c S Ha. induction l as [|x l IH]; intros c S Ha Hb Hin; [set_solver|]. cbn [each].
  destruct (decide (x = id)) as [->|Hx].
  { rewrite (apply_default_due b c S id r) by (try assumption; apply Ha). by rewrite CompensateMint_sub_floor. }
  destruct (apply_default b (c, S) x) as [[c1 S1]|] eqn:E; [|reflexivity].
  apply alone_default in E as [A1 E1]; [|exact Hx|exact Ha]. apply IH; [exact A1|lia|set_solver].
Qed.
End Alone.

Lemma no_fraud cfg btc cs l : existsb (starts_with b:"VELD_FRAUD|") l = false -> each (apply_fraud cfg btc) cs l = Some cs.
Proof.
  destruct cs as [c S]. induction l as [|d l IH]; cbn [existsb each]; [done|]. intros [Hd Hl]%orb_false_iff.
  unfold apply_fraud at 1. rewrite Hd. cbn [negb]. by apply IH.
Qed.

(** ** The archive *)

Definition rows_map (rows : list (Hash256 * bytes)) : gmap bytes bytes := foldl (fun m kv => <[kv.1 := kv.2]> m) ∅ rows.

Section Archive.
Context (U : bytes -> Prop) (write_ : RedeemArchive.Records -> bool).
Context (U_inj : forall a b, U a -> U b -> RedeemArchive.HashRecord a = RedeemArchive.HashRecord b -> a = b).
Context (U_empty : U [2]) (U_write : forall recs, write_ recs = true -> Forall (fun r => U r.2) recs).

Lemma archive_all_holds rows st root m st' root' :
  store_ok U st -> holds st root m -> Forall (fun kv => is_hash (kv.1)) rows ->
  archive_all write_ (st, root) rows = Some (st', root') ->
  st ⊆ st' /\ store_ok U st' /\ holds st' root' (foldl (fun m kv => <[kv.1 := kv.2]> m) m rows).
Proof.
  revert st root m. induction rows as [|[k v] rows IH]; intros st root m Hst Hh Hk; cbn [archive_all foldl].
  { intros [= <- <-]. split_and!; [done|exact Hst|exact Hh]. }
  apply Forall_cons in Hk as [Hk1 Hk]. cbn [fst snd] in *. unfold archive_insert. cbn [fst snd].
  pose proof (Insert_spec U write_ U_inj U_empty U_write st root m k v Hst Hh Hk1) as Hi.
  destruct (m !! k) as [v0|] eqn:Em.
  - rewrite Hi. destruct (bytes_eqb v0 v) eqn:Ev; [|done]. apply bytes_eqb_eq in Ev as ->. rewrite (insert_id m k v Em). by apply IH.
  - destruct (_ =? UINT64_MAX); [by rewrite Hi|]. destruct Hi as (recs & st1 & root1 & -> & Hw). destruct (write_ recs); [|done].
    destruct (Hw eq_refl) as (H1 & H2 & H3). intros H. apply (IH _ _ _ H1 H3 Hk) in H as (H4 & H5 & H6). split_and!; [by etrans|exact H5|exact H6].
Qed.
End Archive.

Lemma holds_empty st : holds st RedeemArchive.NoRoot ∅.
Proof. split; [cbn [RedeemArchive.root_count RedeemArchive.NoRoot]; by rewrite map_size_empty|left; split; reflexivity]. Qed.

(** ** Sample states *)

(** The covenant of the sample request, whose deadline is block 500, and blocks after it. *)
Definition covenant_of (r : RedeemRequest) : Covenant :=
  mkCovenant ∅ {[rq_request_id r := r]} ∅ ∅ {[rq_request_id r]} 0 None RedeemArchive.NoRoot false.
Definition late_block : Block := mkBlock (mkHeader 1 ZeroHash ZeroHash 0 0 0) [] 600.
Definition any_write : list (bytes * bytes) -> bool := fun _ => true.

Definition peg_summary (x : option (Covenant * TokenState)) : option (Z * Z * Z) :=
  match x with
  | Some (c, T) => Some (principal T, outstanding c, GetBalance (money T) BTCVELD_TOKEN_ID auth_address)
  | None => None
  end.

Lemma late_block_accepted :
  peg_summary (apply_peg_modules sample_cfg deep_chain any_write reject_all (covenant_of relay_request) relay_tokens late_block sample_gate)
  = Some (0, 0, 300000).
Proof. vm_compute. reflexivity. Qed.

Lemma peg_summary_inv x p o g : peg_summary x = Some (p, o, g) ->
  exists c S, x = Some (c, S) /\ principal S = p /\ outstanding c = o /\ GetBalance (money S) BTCVELD_TOKEN_ID auth_address = g.
Proof. destruct x as [[c S]|]; [|done]. intros [= <- <- <-]. by exists c, S. Qed.

Lemma covenant_of_inv h r :
  0 < rq_amount_sats r -> size (veld_recipient r) <> 0 -> rq_status r <> REQUESTED -> request_height r <= h -> cov_inv h (covenant_of r).
Proof.
  intros H1 H2 H3 H4 id q Hq _. cbn [requests_ covenant_of] in Hq. apply lookup_singleton_Some in Hq as [<- <-].
  split; try assumption. cbn [reserve_backed_requests_ covenant_of]. set_solver.
Qed.

Lemma relay_peg_ok : peg_ok 20 (covenant_of relay_request) relay_tokens.
Proof.
  split_and!; [apply covenant_of_inv; vm_compute; congruence|vm_compute; reflexivity|exact relay_tokens_inv].
Qed.

(** A request below the account floor, whose holder has no tokens left. *)
Definition dust_request : RedeemRequest :=
  mkRequest (replicate 32 6) 500 [0x51] 10 500 LOCKED_IN ZeroHash auth_address (replicate 32 4) 0.

(** The account beside it: all tokens are with another holder. *)
Definition dust_tokens : TokenState :=
  mkTokens (OnChainTokenLedger.mk {[BTCVELD_TOKEN_ID := btcveld_info]} {[account_key BTCVELD_TOKEN_ID sample_payee := 299500]}
              {[BTCVELD_TOKEN_ID := 299500]} 0 0
              (mkState ACTIVE relay_parent_txid 0 300000 ReserveSafety.sample_block 1 (replicate 32 5) 0 500 0 ZeroHash))
    ZeroHash 1 ZeroHash 1 ZeroHash 0 (0, ZeroHash) [] [] [] 0.

Lemma dust_peg_ok : peg_ok 20 (covenant_of dust_request) dust_tokens.
Proof.
  split_and!; [apply covenant_of_inv; vm_compute; congruence|vm_compute; reflexivity|].
  apply one_holder_inv; [discriminate|vm_compute; reflexivity].
Qed.

(** ** Claims *)

(** C5: the reserve owes what the open requests ask for. From the empty ledgers, and from
    any state with the invariant, every sequence of accepted blocks of increasing heights
    and pool moves, with any headers, database, gate and signature verifier, keeps the open
    principal of the reserve equal to the sum of the amounts of the open requests, so that
    the reserve holds the balances, the open requests and the surplus, and every open
    request is backed by the reserve with a positive amount and a holder. The blocks must
    not repeat a transaction. *)
Theorem liabilities_match verify cfg :
  (forall h archive, peg_ok h (NoCovenant archive) NoTokens)
  /\ forall h c S h' c' S', peg_run verify cfg h c S h' c' S' -> peg_ok h c S ->
     peg_ok h' c' S'
     /\ reserve_value_sats (reserve_state_ (money S'))
        = map_total (balances_ (money S')) + outstanding c' + surplus_sats (reserve_state_ (money S')).
Proof.
  split; [exact peg_start|]. intros h c S h' c' S' Hr Ho. pose proof (peg_run_ok _ _ _ _ _ _ _ _ Hr Ho) as H.
  split; [exact H|by eapply peg_ok_value].
Qed.

Lemma liabilities_match_witness :
  exists c S, apply_peg_modules sample_cfg deep_chain any_write reject_all (covenant_of relay_request) relay_tokens late_block sample_gate
              = Some (c, S)
  /\ peg_ok 600 c S /\ principal S = 0 /\ GetBalance (money S) BTCVELD_TOKEN_ID auth_address = 300000.
Proof.
  destruct (peg_summary_inv _ _ _ _ late_block_accepted) as (c & S & Hp & H1 & _ & H3). exists c, S. split; [exact Hp|].
  destruct (proj2 (liabilities_match reject_all sample_cfg) 20 (covenant_of relay_request) relay_tokens 600 c S) as [H _];
    [|exact relay_peg_ok|split_and!; assumption].
  eapply peg_block; [| |exact Hp|apply peg_done]; [reflexivity|constructor].
Defined.

(** C36: a redemption past its deadline is restored to its holder. In a state with the
    invariant, with the token registered, a nonnegative surplus and a reserve below 2^63,
    the default of a due request of a canonical address credits the holder with the amount
    of the request, lowers the open principal by it and marks the request as defaulted, no
    longer backed by the reserve. No other balance or request changes; the bonds of signers
    and the insurance fund become what [ApplySlash] makes of them, which is what they were
    when no bond is active; the rest of both ledgers is as it was. Under these conditions
    the default is refused exactly when the holder would have less than the account floor. *)
Theorem default_compensates h b c S id r :
  let who := veld_recipient r in
  peg_ok h c S -> requests_ c !! id = Some r -> due b r = true ->
  is_Some (tokens_ (money S) !! BTCVELD_TOKEN_ID) -> IsCanonicalTokenCreditAddress who = true ->
  0 <= surplus_sats (reserve_state_ (money S)) -> reserve_value_sats (reserve_state_ (money S)) <= INT64_MAX ->
  if GetBalance (money S) BTCVELD_TOKEN_ID who + rq_amount_sats r <? MIN_ACCOUNT_SATS
  then apply_default b (c, S) id = None
  else exists c' S', apply_default b (c, S) id = Some (c', S') /\ peg_ok h c' S'
       /\ principal S' = principal S - rq_amount_sats r
       /\ requests_ c' = <[id := with_status r DEFAULTED (fulfilled_txid r)]> (requests_ c)
       /\ reserve_backed_requests_ c' = reserve_backed_requests_ c ∖ {[id]}
       /\ same_collateral c' (ApplySlash c (EvalNonPayment c id b BTCVELD_NONPAY_PENALTY_BPS))
       /\ (TotalActiveBond c = 0 -> same_collateral c' c) /\ same_records c c'
       /\ S' = with_ledger S (compensated (money S) who (rq_amount_sats r))
       /\ forall a, GetBalance (money S') BTCVELD_TOKEN_ID a
                  = GetBalance (money S) BTCVELD_TOKEN_ID a + (if decide (a = who) then rq_amount_sats r else 0).
Proof.
  cbv zeta. intros (Hi & Hp & Ht) Hr Hd Htok Hw Hs Hv. destruct (due_open _ _ Hd) as [Hc _].
  pose proof (cov_amount_le h c id r Hi Hr Hc) as Ha. pose proof (Hi id r Hr Hc) as Hok.
  rewrite (apply_default_due b c S id r) by (try assumption; apply Hok).
  pose proof (CompensateMint_exact (money S) (veld_recipient r) (rq_amount_sats r) Ht Htok Hw) as Hm.
  unfold principal in Hp. rewrite Hp in Hm. specialize (Hm Ha Hs Hv). destruct (_ <? _) eqn:Ef; rewrite Hm; [reflexivity|].
  pose proof (CompensateMint_spec _ _ _ _ Ht (Z.lt_le_incl _ _ (proj1 Ha)) Hm) as (It & _ & Hbal).
  pose proof (ApplySlash_requests c (EvalNonPayment c id b BTCVELD_NONPAY_PENALTY_BPS)) as [Es Eb].
  set (c1 := ApplySlash c _) in *. destruct (SetStatus_default c1 id r) as (c2 & E2 & R2 & F1 & F2 & F3); [by rewrite Es|exact Hc|rewrite Eb; apply Hok|].
  pose proof (apply_default_due b c S id r Hr Hd (proj1 Ha) (oo_recipient _ _ _ _ Hok)) as Hdef. rewrite Hm in Hdef. fold c1 in Hdef.
  rewrite E2 in Hdef. apply (apply_default_spec sample_cfg deep_chain h) in Hdef as (I2 & G2 & _); [|exact Hi]. cbn [fst] in I2.
  rewrite E2. exists c2, (with_ledger S (compensated (money S) (veld_recipient r) (rq_amount_sats r))).
  assert (principal (with_ledger S (compensated (money S) (veld_recipient r) (rq_amount_sats r))) = principal S - rq_amount_sats r) as Epr
    by reflexivity.
  split_and!; [reflexivity| |exact Epr|by rewrite R2, Es|by rewrite F1, Eb|exact F2| | |reflexivity|exact Hbal].
  2:{ intros Hz. unfold c1 in F2. by rewrite ApplySlash_idle in F2 by exact Hz. }
  2:{ etrans; [apply ApplySlash_records|exact F3]. }
  split_and!; [exact I2| |exact It]. unfold gap in G2. cbn [fst snd] in G2. unfold principal in *. lia.
Qed.

Lemma default_compensates_witness :
  exists c' S', apply_default 600 (covenant_of relay_request, relay_tokens) (replicate 32 6) = Some (c', S')
  /\ principal S' = 0 /\ GetBalance (money S') BTCVELD_TOKEN_ID auth_address = 300000
  /\ reserve_backed_requests_ c' = ∅ /\ signers_ c' = ∅.
Proof.
  destruct (default_compensates 20 600 (covenant_of relay_request) relay_tokens (replicate 32 6) relay_request relay_peg_ok)
    as (c' & S' & H1 & _ & H2 & _ & H4 & _ & H5 & _ & _ & H3);
    [reflexivity|reflexivity|by eexists|vm_compute; reflexivity|discriminate|discriminate|].
  exists c', S'. split_and!; [exact H1|exact H2| |rewrite H4; reflexivity|destruct H5 as [-> _]; reflexivity].
  rewrite H3. rewrite decide_True by reflexivity. reflexivity.
Defined.

(** C37: a redemption below the account floor stops the chain at its deadline. The ledger
    accepts a redemption of any positive amount, but the compensation of its default may not
    leave its holder below the floor. When a due request is of a holder whose balance and
    amount stay below the floor after the transactions of the block, no verified payout of
    the block concerns it, the block carries no proof of a custody spend (no VELD_FRAUD
    marker) and no other due request has the same holder, the feed refuses the block,
    whatever else the block holds; and the request stays due for every later block. *)
Theorem sub_floor_default_refuses_block cfg btc write_ h c S b id r :
  cov_inv h c -> requests_ c !! id = Some r -> due (height b) r = true -> 0 <= height b < 2 ^ 63 ->
  GetBalance (money S) BTCVELD_TOKEN_ID (veld_recipient r) + rq_amount_sats r < MIN_ACCOUNT_SATS ->
  Forall (redeem_of (height b)) (last_block_redeems_ S) ->
  Forall (fun p => pt_request_id p <> id) (last_block_reserve_payouts_ S) ->
  existsb (starts_with b:"VELD_FRAUD|") (all_data b) = false ->
  (forall id' r', id' <> id -> requests_ c !! id' = Some r' -> due (height b) r' = true -> veld_recipient r' <> veld_recipient r) ->
  FeedRedeemCovenant_ cfg btc write_ c S b = None /\ forall later, height b <= later -> due later r = true.
Proof.
  intros Hi Hr Hd Hb Hf Hred Hpay Hfr Hoth. split.
  2:{ intros later Hl. unfold due in *. apply andb_true_iff in Hd as [-> Hd]. apply Z.ltb_lt in Hd. apply Z.ltb_lt. lia. }
  assert (alone (height b) id r c) as Ha by (split; assumption). destruct (due_open _ _ Hd) as [Hc _]. destruct (Hi id r Hr Hc).
  unfold FeedRedeemCovenant_. destruct (each _ c (all_data b)) as [c1|] eqn:E1; [|reflexivity].
  apply each_sbond in E1 as [E1 _]. apply (alone_same _ _ _ _ _ E1) in Ha.
  destruct (each apply_payout c1 _) as [c2|] eqn:E2; [|reflexivity]. apply (alone_payouts _ _ _ _ _ _ Hpay E2) in Ha.
  destruct (each _ c2 (last_block_redeems_ S)) as [c3|] eqn:E3; [|reflexivity]. apply (alone_requests _ _ _ _ _ _ _ Hb Hred E3) in Ha.
  match goal with |- (if ?x then _ else _) = _ => destruct x; [reflexivity|] end. rewrite no_fraud by exact Hfr.
  rewrite (defaults_stuck (height b) id r c3 S); try assumption; [reflexivity|]. by eapply due_listed; [apply Ha|].
Qed.

Lemma sub_floor_default_refuses_block_witness :
  peg_ok 20 (covenant_of dust_request) dust_tokens
  /\ FeedRedeemCovenant_ sample_cfg deep_chain any_write (covenant_of dust_request) dust_tokens late_block = None
  /\ due 100000 dust_request = true.
Proof.
  split; [exact dust_peg_ok|].
  destruct (sub_floor_default_refuses_block sample_cfg deep_chain any_write 20 (covenant_of dust_request) dust_tokens late_block
              (replicate 32 6) dust_request) as [H1 H2];
    [apply covenant_of_inv; vm_compute; congruence|reflexivity|reflexivity|split; [discriminate|reflexivity]|vm_compute; reflexivity|constructor|constructor
    |reflexivity| |split; [exact H1|apply H2; discriminate]].
  intros id' r' Hn Hq. cbn [requests_ covenant_of] in Hq. apply lookup_singleton_Some in Hq as [E _]. by destruct Hn.
Defined.

(** C38: the redemption archive answers like a map. For a database that stores only records
    on which the hash has no collisions, archiving rows in an empty archive gives a root that
    counts the different keys and under which a lookup returns what was archived for the key
    and nothing for any other, within 257 records; archiving a different value for a key is
    refused; and every older root keeps its answers. *)
Theorem archive_refines_map (U : bytes -> Prop) (write_ : RedeemArchive.Records -> bool) rows st st' root' :
  (forall a b, U a -> U b -> RedeemArchive.HashRecord a = RedeemArchive.HashRecord b -> a = b) ->
  U [2] -> (forall recs, write_ recs = true -> Forall (fun r => U r.2) recs) ->
  store_ok U st -> Forall (fun kv => is_hash (kv.1)) rows ->
  archive_all write_ (st, RedeemArchive.NoRoot) rows = Some (st', root') ->
  RedeemArchive.root_count root' = Z.of_nat (base.size (rows_map rows))
  /\ (forall key, RedeemArchive.Get st' root' key = Some (rows_map rows !! key))
  /\ (forall key v value, is_hash key -> rows_map rows !! key = Some v -> v <> value -> RedeemArchive.Insert write_ st' root' key value = None)
  /\ (forall root m key, holds st root m -> RedeemArchive.Get st' root key = Some (m !! key)).
Proof.
  intros U_inj U_empty U_write Hst Hk Ha.
  destruct (archive_all_holds U write_ U_inj U_empty U_write rows st _ ∅ st' root' Hst (holds_empty st) Hk Ha) as (H1 & H2 & H3).
  fold (rows_map rows) in H3. split_and!.
  - apply H3.
  - intros key. by apply (Get_spec U).
  - intros key v value Hkey Hm Hne. pose proof (Insert_spec U write_ U_inj U_empty U_write st' root' _ key value H2 H3 Hkey) as Hi.
    rewrite Hm in Hi. rewrite Hi. destruct (bytes_eqb v value) eqn:E; [|reflexivity]. by apply bytes_eqb_eq in E.
  - intros root m key Hh. apply (Get_spec U); try assumption. by eapply holds_mono.
Qed.

Definition archive_key : bytes := replicate 32 1.
Definition archive_leaf : bytes := RedeemArchive.Leaf archive_key [7].
Definition leaf_only (recs : RedeemArchive.Records) : bool :=
  bool_decide (recs = [(HashToHex (RedeemArchive.HashRecord archive_leaf), archive_leaf)]).

Lemma sample_hashes_differ : bytes_eqb (RedeemArchive.HashRecord [2]) (RedeemArchive.HashRecord archive_leaf) = false.
Proof. vm_compute. reflexivity. Qed.

Lemma sample_records_distinct a b :
  a = [2] \/ a = archive_leaf -> b = [2] \/ b = archive_leaf -> RedeemArchive.HashRecord a = RedeemArchive.HashRecord b -> a = b.
Proof.
  pose proof sample_hashes_differ as Hd. apply bytes_eqb_false in Hd. intros [->| ->] [->| ->] E; congruence.
Qed.

Lemma sample_archived :
  archive_all leaf_only (∅, RedeemArchive.NoRoot) [(archive_key, [7])]
  = Some (RedeemArchive.put_all ∅ [(HashToHex (RedeemArchive.HashRecord archive_leaf), archive_leaf)],
          RedeemArchive.mkRoot (RedeemArchive.HashRecord archive_leaf) 1).
Proof.
  cbn [archive_all]. unfold archive_insert, RedeemArchive.Insert, RedeemArchive.CheckRoot. cbn [fst snd].
  cbn [RedeemArchive.root_count RedeemArchive.root_hash RedeemArchive.NoRoot]. rewrite bytes_eqb_refl. cbn [Z.eqb Bool.eqb negb].
  unfold RedeemArchive.publish, RedeemArchive.Stage. cbn [fst snd app]. unfold leaf_only. rewrite bool_decide_eq_true_2 by reflexivity. reflexivity.
Qed.

Lemma archive_refines_map_witness :
  exists st root, archive_all leaf_only (∅, RedeemArchive.NoRoot) [(archive_key, [7])] = Some (st, root)
  /\ RedeemArchive.Get st root archive_key = Some (Some [7]) /\ RedeemArchive.Get st root (replicate 32 2) = Some None.
Proof.
  assert (forall recs, leaf_only recs = true -> Forall (fun r => r.2 = [2] \/ r.2 = archive_leaf) recs) as Hw.
  { intros recs Hr. apply bool_decide_eq_true in Hr as ->. constructor; [by right|constructor]. }
  assert (store_ok (fun x => x = [2] \/ x = archive_leaf) ∅) as Hs by (intros k x Hx; by rewrite lookup_empty in Hx).
  assert (Forall (fun kv : Hash256 * bytes => is_hash (kv.1)) [(archive_key, [7])]) as Hk.
  { constructor; [|constructor]. split; [reflexivity|]. apply (bool_decide_unpack _). vm_compute. exact Logic.I. }
  destruct (archive_refines_map (fun x => x = [2] \/ x = archive_leaf) leaf_only [(archive_key, [7])] ∅ _ _ sample_records_distinct
    (or_introl eq_refl) Hw Hs Hk sample_archived) as (_ & H & _).
  eexists _, _. split; [exact sample_archived|]. split; rewrite H; unfold rows_map; cbn [foldl fst snd].
  - by rewrite lookup_insert_eq.
  - rewrite lookup_insert_ne by (vm_compute; discriminate). by rewrite lookup_empty.
Defined.
