(* ===== verification/FinalityNode.v ===== *)
(** * The node's finality pipeline and fork choice ([node/node.h], [core/blockchain.h])

    How one block drives the retained finality state and the registry, how a candidate
    branch is replayed on an overlay, and the two gates that decide whether a
    reorganisation may proceed.  The other block-driven modules (token ledger, AMM,
    staking, anchors, Bitcoin headers and the registry's own operations) are given as
    functions, so the theorems hold whatever those modules do; they may refuse a block
    and may read the finality state, and the only write they make to it is the
    anchor-promotion flag. *)
From S2P Require Import Prelude Bytes Sha256 Profile Transaction Block StateDigest.
From S2P Require Import FinalityQc FinalitySnapshot FinalityVotes FinalityState Validators FinalityCodec.

Definition MAX_REORG_DEPTH : Z := 100.

Section Node.
Context {M : Type}.
Context (Verify : bytes -> bytes -> bytes -> bool) (GenesisHashBytes : Hash256).

(** The module calls before the certificate is read: they see the block, the finality
    state and a resolver for the hashes of the branch being applied. *)
Context (ProcessModules : (Z -> option Hash256) -> FinalityState -> Block ->
           M * ValidatorRegistry -> option (M * ValidatorRegistry)).
(** [PromoteFinalizedAnchors_] on the module state: refused, or whether it promoted. *)
Context (PromoteFinalizedAnchors : (Z -> option Hash256) -> FinalityState -> M -> option (M * bool)).

Record Engine := mkEngine { fin_state_ : FinalityState; registry_ : ValidatorRegistry; modules_ : M }.

(** [FeedFinalityCerts_] and, on the overlay, [FeedFinalityCertsAlt_]: they differ only
    in how the hash of a height is resolved. *)
Definition FeedFinalityCerts_ (resolve : Z -> option Hash256) (st : FinalityState)
    (reg : ValidatorRegistry) (block : Block) : option (FinalityState * ValidatorRegistry) :=
  match ParseFinalityBlock ParseOpReturn block with
  | NONE => Some (st, reg)
  | INVALID => None
  | VALID decoded =>
      if negb (qc_phase (d_qc decoded) =? PRECOMMIT)
         || negb (InVoteWindow (height (qc_target (d_qc decoded))) (Block.height block)) then None
      else match map_find (qc_epoch_id (d_qc decoded)) (snapshots st) with
      | None => None
      | Some snapshot =>
          match VerifyDecodedQc Verify decoded snapshot NETWORK_ID GenesisHashBytes with
          | None => None
          | Some d =>
              match resolve (height (qc_target (d_qc d))) with
              | None => None
              | Some canonical_target =>
                  if bool_decide (canonical_target <> hash (qc_target (d_qc d))) then None
                  else
                    let carrier := mkRef (Block.height block) (BlockHeaderOps.GetHash (header block)) in
                    match OnCertificate st (d_qc d) carrier canonical_target with
                    | (st', true) =>
                        match RecordFinalityQc reg (d_qc d) snapshot (Block.height block) with
                        | Some reg' => Some (st', reg')
                        | None => None
                        end
                    | (_, false) => None
                    end
              end
          end
      end
  end.

Definition MaybeSnapshotEpochFor_ (h : Z) (reg : ValidatorRegistry) (st : FinalityState)
  : option (ValidatorRegistry * FinalityState) :=
  let next_epoch := u64 (EpochOf h + 1) in
  if (h =? UINT64_MAX) || negb (h + 1 =? EpochStart next_epoch) then Some (reg, st)
  else
    let snapshot := BuildEpochSnapshot (GetAllValidatorRecords reg) next_epoch h in
    match RecordFinalitySnapshot reg snapshot with
    | (reg', true) => match OnEpochBoundary st snapshot with
                      | (st', true) => Some (reg', st') | (_, false) => None end
    | (_, false) => None
    end.

(** One block through every module, in the source's order; [None] is a rejected block,
    after which the caller restores the state it had. *)
Definition ApplyBlockModules_ (resolve : Z -> option Hash256) (e : Engine) (block : Block)
  : option Engine :=
  let st := OnBlockHeight (fin_state_ e) (Block.height block) in
  match ProcessModules resolve st block (modules_ e, registry_ e) with
  | None => None
  | Some (m, reg) =>
      match FeedFinalityCerts_ resolve st reg block with
      | None => None
      | Some (st, reg) =>
          match PromoteFinalizedAnchors resolve st m with
          | None => None
          | Some (m, promoted) =>
              let st := if (promoted : bool) then PromoteAnchor st else st in
              match MaybeSnapshotEpochFor_ (Block.height block) reg st with
              | None => None
              | Some (reg, st) => Some (mkEngine st reg m)
              end
          end
      end
  end.

(** ** The canonical chain *)

(** A canonical block with the state after it. *)
Record Frame := mkFrame { fr_block : Block; fr_engine : Engine }.
Abbreviation Chain := (list Frame).

Definition frame_hash (f : Frame) : Hash256 := BlockHeaderOps.GetHash (header (fr_block f)).

(** [chain_.GetBlockUnlocked(height).GetHash()] *)
Definition GetBlockHash (c : Chain) (h : Z) : option Hash256 :=
  if h <? 0 then None else frame_hash <$> c !! Z.to_nat h.

Context (genesis_engine : Engine).

Definition tip_engine (c : Chain) : Engine :=
  match last c with Some f => fr_engine f | None => genesis_engine end.

(** Connecting the next block of the canonical chain. *)
Definition ConnectBlock (c : Chain) (block : Block) : option Chain :=
  if negb (Block.height block =? size c) then None
  else match ApplyBlockModules_ (GetBlockHash c) (tip_engine c) block with
       | Some e => Some (c ++ [mkFrame block e])
       | None => None
       end.

(** ** The overlay of a candidate branch *)

Record Overlay := mkOverlay { alt_engine : Engine; alt_chain_hashes_ : gmap Z Hash256 }.

Definition ResolveAltHash_ (c : Chain) (alt_common_ancestor_height_ : Z) (hashes : gmap Z Hash256)
    (h : Z) : option Hash256 :=
  match hashes !! h with
  | Some x => Some x
  | None => if h >? alt_common_ancestor_height_ then None else GetBlockHash c h
  end.

Definition AltProcessOne (c : Chain) (anc : Z) (o : Overlay) (block : Block) : option Overlay :=
  let hashes := <[Block.height block := BlockHeaderOps.GetHash (header block)]> (alt_chain_hashes_ o) in
  match ApplyBlockModules_ (ResolveAltHash_ c anc hashes) (alt_engine o) block with
  | Some e => Some (mkOverlay e hashes)
  | None => None
  end.

(** Replaying the suffix, collecting the frames it would publish. *)
Fixpoint replay_suffix (c : Chain) (anc : Z) (o : Overlay) (expected_height : Z) (alt : list Block)
  : option (list Frame * Overlay) :=
  match alt with
  | [] => Some ([], o)
  | b :: alt' =>
      if negb (Block.height b =? expected_height) then None
      else match AltProcessOne c anc o b with
      | None => None
      | Some o' =>
          match replay_suffix c anc o' (expected_height + 1) alt' with
          | Some (fs, o'') => Some (mkFrame b (alt_engine o') :: fs, o'')
          | None => None
          end
      end
  end.

(** [finality_reorg_gate_] *)
Definition finality_reorg_gate_ (c : Chain) (common_ancestor_height : Z) : bool :=
  RequiredReorgAncestor (fin_state_ (tip_engine c)) <=? common_ancestor_height.

(** [finality_reorg_retention_gate_] *)
Definition finality_reorg_retention_gate_ (c : Chain) (anc : Z) (o : Overlay) : bool :=
  CandidateRetainsFinality (fin_state_ (tip_engine c)) (fin_state_ (alt_engine o))
    (fun h expected => match ResolveAltHash_ c anc (alt_chain_hashes_ o) h with
                       | Some actual => bool_decide (actual = expected) | None => false end).

(** The reorganisation to the side branch [alt] above ancestor height [anc]; [None] when
    the canonical chain is left as it was.  The overlay starts from the state after the
    ancestor.  The source refuses a side branch for further reasons (retry back-off, the
    anchor gate, missing undo data, a block the validator rejects); each of them only
    removes reorganisations, so what holds for every result here holds for the code. *)
Definition ReorgTo (c : Chain) (anc : Z) (alt : list Block) : option Chain :=
  let tip := size c - 1 in
  if (size c =? 0) || (anc <? 0) then None
  else if (tip <? anc) || (MAX_REORG_DEPTH <=? tip - anc) then None
  else if negb (finality_reorg_gate_ c anc) then None
  else
    let prefix := take (Z.to_nat (anc + 1)) c in
    match replay_suffix c anc (mkOverlay (tip_engine prefix) ∅) (anc + 1) alt with
    | None => None
    | Some (suffix, o) =>
        if negb (finality_reorg_retention_gate_ c anc o) then None else Some (prefix ++ suffix)
    end.

(** What can happen to the canonical chain. *)
Inductive chain_step : Chain -> Chain -> Prop :=
| step_connect c block c' : ConnectBlock c block = Some c' -> chain_step c c'
| step_reorg c anc alt c' : ReorgTo c anc alt = Some c' -> chain_step c c'.

Inductive chain_reachable : Chain -> Prop :=
| chain_start : chain_reachable []
| chain_next c c' : chain_reachable c -> chain_step c c' -> chain_reachable c'.

(** ** Lemmas: one block *)

Definition state_of (c : Chain) : FinalityState := fin_state_ (tip_engine c).
Definition latest (c : Chain) : FinalizedRecord := record (state_of c).

(** How a block at height [h] with hash [x] may change the record [r], when [resolve]
    gives the hashes below it. *)
Definition advances (resolve : Z -> option Hash256) (h : Z) (x : Hash256) (r r' : FinalizedRecord) : Prop :=
  r' = r
  \/ RecordIsNull r' = false /\ r_carrier r' = mkRef h x
     /\ resolve (height (r_target r')) = Some (hash (r_target r'))
     /\ height (r_target r') < h
     /\ (RecordIsNull r = false -> height (r_target r) < height (r_target r')).

Lemma FeedFinalityCerts_advances resolve st reg b st' reg' :
  FeedFinalityCerts_ resolve st reg b = Some (st', reg') ->
  advances resolve (Block.height b) (BlockHeaderOps.GetHash (header b)) (record st) (record st').
Proof using.
  unfold FeedFinalityCerts_. intros H.
  destruct (ParseFinalityBlock ParseOpReturn b) as [| |d]; [injection H as <- <-; by left|done|].
  destruct (_ || _); [done|].
  destruct (map_find (qc_epoch_id (d_qc d)) (snapshots st)) as [s|]; [|done].
  destruct (VerifyDecodedQc _ _ _ _ _) as [d'|]; [|done].
  destruct (resolve (height (qc_target (d_qc d')))) as [x|] eqn:Er; [|done].
  case_bool_decide as Hx; [done|]. subst x.
  set (carrier := mkRef _ _) in H.
  destruct (OnCertificate_cases st (d_qc d') carrier (hash (qc_target (d_qc d'))))
    as [(st1 & E & _ & Hs & _ & Hb & Hn & Ht & Hc & _)|E]; rewrite E in H; [|done].
  destruct (RecordFinalityQc _ _ _ _); [|done]. injection H as <- _. right.
  apply backed_facts in Hb as (_ & _ & Hlt). rewrite Ht in *. rewrite Hc in Hlt. cbn [carrier height] in Hlt.
  split; [done|]. split; [done|]. split; [done|]. split; [lia|].
  intros Hnn. by apply source_links_inv in Hs as (_ & Hs & _).
Qed.

Lemma ApplyBlockModules_advances resolve e b e' :
  ApplyBlockModules_ resolve e b = Some e' ->
  advances resolve (Block.height b) (BlockHeaderOps.GetHash (header b))
    (record (fin_state_ e)) (record (fin_state_ e')).
Proof using.
  unfold ApplyBlockModules_. intros H.
  rewrite <- (record_OnBlockHeight (fin_state_ e) (Block.height b)). set (st := OnBlockHeight _ _) in *.
  destruct (ProcessModules resolve st b _) as [[m reg]|]; [|done].
  destruct (FeedFinalityCerts_ resolve st reg b) as [[st1 reg1]|] eqn:Ef; [|done].
  apply FeedFinalityCerts_advances in Ef.
  destruct (PromoteFinalizedAnchors resolve st1 m) as [[m1 p]|]; [|done].
  set (st2 := if p then PromoteAnchor st1 else st1) in H.
  assert (E2 : record st2 = record st1) by (unfold st2; by destruct p). rewrite <- E2 in Ef.
  unfold MaybeSnapshotEpochFor_ in H. destruct (_ || _); [by injection H as <-|].
  destruct (RecordFinalitySnapshot reg1 _) as [reg2 [|]]; [|done].
  set (snap := BuildEpochSnapshot _ _ _) in H. pose proof (record_OnEpochBoundary st2 snap) as E3.
  destruct (OnEpochBoundary st2 snap) as [st3 [|]]; [|done]. injection H as <-.
  cbn [fst fin_state_] in *. by rewrite E3.
Qed.

(** ** Lemmas: chains *)

Lemma GetBlockHash_snoc c f h :
  GetBlockHash (c ++ [f]) h = if h =? size c then Some (frame_hash f) else GetBlockHash c h.
Proof using.
  unfold GetBlockHash, size. destruct (Z.eqb_spec h (Z.of_nat (length c))) as [->|Hne].
  - destruct (Z.ltb_spec (Z.of_nat (length c)) 0); [lia|]. by rewrite Nat2Z.id, list_lookup_middle.
  - destruct (Z.ltb_spec h 0); [done|]. destruct (decide (Z.to_nat h < length c)%nat).
    + by rewrite lookup_app_l.
    + rewrite !lookup_ge_None_2; [done|lia|rewrite length_app; cbn [length]; lia].
Qed.

Lemma GetBlockHash_lt c h x : GetBlockHash c h = Some x -> 0 <= h < size c.
Proof using.
  unfold GetBlockHash, size. destruct (Z.ltb_spec h 0); [done|]. intros H1.
  destruct (c !! Z.to_nat h) eqn:E; [|done]. apply lookup_lt_Some in E. lia.
Qed.

Lemma tip_engine_snoc c f : tip_engine (c ++ [f]) = fr_engine f.
Proof using. unfold tip_engine. by rewrite last_snoc. Qed.

(** Chains in which every block advanced the record below it. *)
Inductive built : Chain -> Prop :=
| built_nil : built []
| built_snoc c f :
    built c -> Block.height (fr_block f) = size c ->
    advances (GetBlockHash c) (size c) (frame_hash f) (latest c) (record (fin_state_ (fr_engine f))) ->
    built (c ++ [f]).

Lemma built_prefix c n : built c -> built (take n c).
Proof using.
  induction 1 as [|c f Hc IH Hh Ha]; [by rewrite take_nil; constructor|].
  destruct (decide (n <= length c)%nat) as [Hle|Hgt]; [by rewrite take_app_le|].
  rewrite take_ge; [by constructor|]. rewrite length_app. cbn [length]. lia.
Qed.

Lemma advances_ext r1 r2 h x r r' :
  (forall k, k < h -> r1 k = r2 k) -> advances r1 h x r r' -> advances r2 h x r r'.
Proof using.
  intros E [H|(H1 & H2 & H3 & H4 & H5)]; [by left|right]. rewrite <- E by done. auto.
Qed.

Lemma ConnectBlock_built c b c' : built c -> ConnectBlock c b = Some c' -> exists f, c' = c ++ [f] /\ built c'.
Proof using.
  unfold ConnectBlock. intros Hc H. destruct (Z.eqb_spec (Block.height b) (size c)) as [Hh|]; [|done].
  cbn [negb] in H. destruct (ApplyBlockModules_ _ _ _) as [e|] eqn:E; [|done]. injection H as <-.
  eexists. split; [reflexivity|]. constructor; [done|done|].
  apply ApplyBlockModules_advances in E. by rewrite Hh in E.
Qed.

(** The finalized height never decreases along a chain. *)
Definition below (r r' : FinalizedRecord) : Prop :=
  RecordIsNull r = false -> RecordIsNull r' = false /\ height (r_target r) <= height (r_target r').

Lemma below_refl r : below r r.
Proof using. unfold below. intros. split; [done|lia]. Qed.

Lemma below_trans a b c : below a b -> below b c -> below a c.
Proof using. unfold below. intros H1 H2 H. destruct (H1 H) as [Hb ?]. destruct (H2 Hb). split; [done|lia]. Qed.

Lemma advances_below resolve h x r r' : advances resolve h x r r' -> below r r'.
Proof using.
  intros [->|(Hn & _ & _ & _ & Hlt)]; [apply below_refl|]. intros H. specialize (Hlt H). split; [done|lia].
Qed.

Lemma latest_snoc c f : latest (c ++ [f]) = record (fin_state_ (fr_engine f)).
Proof using. unfold latest, state_of. by rewrite tip_engine_snoc. Qed.

Lemma built_prefix_below c n : built c -> (0 < n)%nat \/ RecordIsNull (latest []) = true -> below (latest (take n c)) (latest c).
Proof using.
  intros Hb Hn. induction Hb as [|c f Hc IH Hh Ha]; [rewrite take_nil; apply below_refl|].
  destruct (decide (n <= length c)%nat) as [Hle|Hgt].
  - rewrite take_app_le by done. apply (below_trans _ (latest c)); [done|].
    rewrite latest_snoc. by eapply advances_below.
  - rewrite take_ge; [apply below_refl|]. rewrite length_app. cbn [length]. lia.
Qed.

Context (Hgenesis : RecordIsNull (record (fin_state_ genesis_engine)) = true).

(** The record names blocks of the chain it was computed on, and has not changed since
    its carrier. *)
Lemma built_record c :
  built c -> RecordIsNull (latest c) = false ->
  GetBlockHash c (height (r_target (latest c))) = Some (hash (r_target (latest c)))
  /\ height (r_target (latest c)) < height (r_carrier (latest c)) < size c
  /\ forall n, height (r_carrier (latest c)) < Z.of_nat n -> latest (take n c) = latest c.
Proof using Hgenesis.
  induction 1 as [|c f Hc IH Hh Ha]; intros Hn.
  { unfold latest, state_of, tip_engine in Hn. cbn in Hn. congruence. }
  rewrite latest_snoc in *. unfold size in *. rewrite length_app in *. cbn [length].
  destruct Ha as [E|(_ & Hcar & Hres & Hlt & _)].
  - rewrite E in *. destruct (IH Hn) as (H1 & H2 & H3). split; [|split].
    + rewrite GetBlockHash_snoc. destruct (Z.eqb_spec (height (r_target (latest c))) (size c)) as [C|]; [|done].
      unfold size in C. lia.
    + lia.
    + intros n Hlen. destruct (decide (n <= length c)%nat); [rewrite take_app_le by done; by apply H3|].
      rewrite take_ge; [by rewrite latest_snoc|]. rewrite length_app. cbn [length]. lia.
  - rewrite Hcar. cbn [height]. split; [|split].
    + rewrite GetBlockHash_snoc. destruct (Z.eqb_spec (height (r_target (record (fin_state_ (fr_engine f))))) (size c)) as [C|]; [|done].
      unfold size in C. lia.
    + lia.
    + intros n Hlen. rewrite take_ge; [by rewrite latest_snoc|]. rewrite length_app. cbn [length]. lia.
Qed.

(** ** Lemmas: the overlay *)

(** The overlay resolves exactly the hashes of the branch it has applied. *)
Lemma ResolveAltHash_insert c anc hashes cur b e :
  (forall h, ResolveAltHash_ c anc hashes h = GetBlockHash cur h) -> Block.height b = size cur ->
  forall h, ResolveAltHash_ c anc (<[Block.height b := BlockHeaderOps.GetHash (header b)]> hashes) h
            = GetBlockHash (cur ++ [mkFrame b e]) h.
Proof using.
  intros Hr Hb h. rewrite GetBlockHash_snoc, Hb. unfold ResolveAltHash_.
  destruct (Z.eqb_spec h (size cur)) as [->|Hne]; [by rewrite lookup_insert_eq|].
  rewrite lookup_insert_ne by done. apply Hr.
Qed.

Lemma ResolveAltHash_start c anc :
  0 <= anc < size c ->
  forall h, ResolveAltHash_ c anc ∅ h = GetBlockHash (take (Z.to_nat (anc + 1)) c) h.
Proof using.
  intros Ha h. unfold ResolveAltHash_, GetBlockHash. rewrite lookup_empty.
  destruct (Z.gtb_spec h anc) as [H|H]; destruct (Z.ltb_spec h 0); try done; try lia.
  - rewrite lookup_ge_None_2; [done|]. rewrite length_take. lia.
  - by rewrite lookup_take_lt by lia.
Qed.

Lemma replay_suffix_spec c anc alt o cur fs o' :
  built cur -> (forall h, ResolveAltHash_ c anc (alt_chain_hashes_ o) h = GetBlockHash cur h) ->
  tip_engine cur = alt_engine o ->
  replay_suffix c anc o (size cur) alt = Some (fs, o') ->
  built (cur ++ fs) /\ tip_engine (cur ++ fs) = alt_engine o'
  /\ forall h, ResolveAltHash_ c anc (alt_chain_hashes_ o') h = GetBlockHash (cur ++ fs) h.
Proof using.
  revert o cur fs. induction alt as [|b alt IH]; intros o cur fs Hb Hr Ht H; cbn [replay_suffix] in H.
  { injection H as <- <-. rewrite app_nil_r. auto. }
  destruct (Z.eqb_spec (Block.height b) (size cur)) as [Hh|]; [|done]. cbn [negb] in H.
  unfold AltProcessOne in H. set (hashes := <[_ := _]> _) in H.
  destruct (ApplyBlockModules_ _ _ _) as [e|] eqn:E; [|done].
  cbn [alt_engine] in H.
  pose proof (ResolveAltHash_insert c anc (alt_chain_hashes_ o) cur b e Hr Hh) as Hr'. fold hashes in Hr'.
  destruct (replay_suffix c anc (mkOverlay e hashes) (size cur + 1) alt) as [[fs' o'']|] eqn:Es; [|done].
  injection H as <- <-.
  assert (Hb' : built (cur ++ [mkFrame b e])).
  { constructor; [done|done|]. apply ApplyBlockModules_advances in E. rewrite Hh, <- Ht in E.
    apply (advances_ext (ResolveAltHash_ c anc hashes)); [|exact E].
    intros k Hk. rewrite Hr', GetBlockHash_snoc. destruct (Z.eqb_spec k (size cur)); [lia|done]. }
  replace (size cur + 1) with (size (cur ++ [mkFrame b e])) in Es
    by (unfold size; rewrite length_app; cbn [length]; lia).
  destruct (IH (mkOverlay e hashes) (cur ++ [mkFrame b e]) fs' Hb' Hr' (tip_engine_snoc _ _) Es) as (H1 & H2 & H3).
  by rewrite <- app_assoc in H1, H2, H3.
Qed.

Lemma ReorgTo_inv c anc alt c' :
  built c -> ReorgTo c anc alt = Some c' ->
  0 <= anc < size c /\ RequiredReorgAncestor (state_of c) <= anc
  /\ (exists suffix, c' = take (Z.to_nat (anc + 1)) c ++ suffix) /\ built c'
  /\ CandidateRetainsFinality (state_of c) (state_of c')
       (fun h x => match GetBlockHash c' h with Some y => bool_decide (y = x) | None => false end) = true.
Proof using.
  intros Hb. unfold ReorgTo. destruct (Z.eqb_spec (size c) 0); [done|].
  destruct (Z.ltb_spec anc 0); [done|]. cbn [orb].
  destruct (Z.ltb_spec (size c - 1) anc); [done|]. destruct (_ <=? _); [done|]. cbn [orb].
  unfold finality_reorg_gate_. destruct (Z.leb_spec (RequiredReorgAncestor (fin_state_ (tip_engine c))) anc);
    [|done]. cbn [negb].
  set (prefix := take _ c).
  assert (Hsz : anc + 1 = size prefix).
  { unfold prefix, size in *. rewrite length_take. lia. }
  destruct (replay_suffix _ _ _ _ _) as [[suffix o]|] eqn:Es; [|done]. rewrite Hsz in Es.
  assert (Ha : 0 <= anc < size c) by lia.
  pose proof (ResolveAltHash_start c anc Ha) as Hr. fold prefix in Hr.
  destruct (replay_suffix_spec c anc alt (mkOverlay (tip_engine prefix) ∅) prefix suffix o
    (built_prefix c _ Hb) Hr eq_refl Es)
    as (B1 & B2 & B3).
  unfold finality_reorg_retention_gate_. destruct (CandidateRetainsFinality _ _ _) eqn:Ec; [|done].
  cbn [negb]. intros [= <-]. split; [done|]. split; [done|]. split; [by exists suffix|]. split; [done|].
  rewrite <- Ec. unfold state_of. rewrite B2. unfold CandidateRetainsFinality.
  by rewrite !B3.
Qed.

(** ** One step *)

Lemma take_below {A} n m (l l' : list A) :
  (n <= m)%nat -> take m l' = take m l -> take n l' = take n l.
Proof using.
  intros Hnm E. rewrite <- (Nat.min_l n m Hnm), <- !take_take. by rewrite E.
Qed.

Definition settled (c c' : Chain) : Prop :=
  RecordIsNull (latest c) = false ->
  take (Z.to_nat (height (r_target (latest c)) + 1)) c' = take (Z.to_nat (height (r_target (latest c)) + 1)) c
  /\ RecordIsNull (latest c') = false
  /\ height (r_target (latest c)) <= height (r_target (latest c')).

Lemma connect_settled c b c' : built c -> ConnectBlock c b = Some c' -> built c' /\ settled c c'.
Proof using Hgenesis.
  intros Hb H. destruct (ConnectBlock_built c b c' Hb H) as (f & -> & Hb'). split; [done|].
  intros Hn. destruct (built_record c Hb Hn) as (_ & Hlt & _).
  pose proof (built_prefix_below (c ++ [f]) (length c) Hb') as Hbel.
  rewrite take_app_length in Hbel. specialize (Hbel (or_intror Hgenesis) Hn).
  split; [|done]. rewrite take_app_le; [done|]. unfold size in Hlt. lia.
Qed.

Lemma reorg_settled c anc alt c' : built c -> ReorgTo c anc alt = Some c' -> built c' /\ settled c c'.
Proof using Hgenesis.
  intros Hb H. destruct (ReorgTo_inv c anc alt c' Hb H) as (Ha & Hreq & [suffix ->] & Hb' & Hret).
  split; [done|]. intros Hn. destruct (built_record c Hb Hn) as (_ & Hlt & Hcar).
  set (r := latest c) in *.
  assert (Hanc : height (r_target r) <= anc).
  { unfold RequiredReorgAncestor in Hreq. fold (latest c) in Hreq. fold r in Hreq. rewrite Hn in Hreq.
    destruct (ConsensusSecurityUpgradeActive _); lia. }
  assert (Hlen : length (take (Z.to_nat (anc + 1)) c) = Z.to_nat (anc + 1)).
  { rewrite length_take. unfold size in *. lia. }
  split.
  { destruct (decide (0 <= height (r_target r) + 1)) as [|]; [|by rewrite !(Z2Nat.nonpos (_ + 1)) by lia].
    rewrite take_app_le by (rewrite Hlen; lia). rewrite take_take. f_equal. lia. }
  unfold CandidateRetainsFinality in Hret. unfold latest in r. fold r in Hret.
  fold (latest (take (Z.to_nat (anc + 1)) c ++ suffix)) in Hret. rewrite Hn in Hret.
  destruct (ConsensusSecurityUpgradeActive (height (r_carrier r))) eqn:Eu.
  - destruct (negb _); [done|]. cbn [negb] in Hret. bool_hyps. split; [done|]. lia.
  - assert (Hp : latest (take (Z.to_nat (anc + 1)) c) = r).
    { apply Hcar. unfold RequiredReorgAncestor in Hreq. fold r in Hreq. rewrite Hn, Eu in Hreq. lia. }
    pose proof (built_prefix_below _ (Z.to_nat (anc + 1)) Hb') as Hbel.
    rewrite take_app_le, take_ge, Hp in Hbel by (rewrite Hlen; lia).
    exact (Hbel (or_intror Hgenesis) Hn).
Qed.

Lemma step_settled c c' : built c -> chain_step c c' -> built c' /\ settled c c'.
Proof using Hgenesis.
  intros Hb Hs. destruct Hs as [c b c2 H|c anc alt c2 H]; [exact (connect_settled c b c2 Hb H)|].
  exact (reorg_settled c anc alt c2 Hb H).
Qed.

Lemma reachable_built c : chain_reachable c -> built c.
Proof using Hgenesis. induction 1 as [|c c' _ IH Hs]; [constructor|]. by apply (step_settled c c'). Qed.

Lemma settled_trans a b c : settled a b -> settled b c -> settled a c.
Proof using.
  intros H1 H2 Ha. destruct (H1 Ha) as (E1 & Hb & L1). destruct (H2 Hb) as (E2 & Hc & L2).
  split; [|split; [done|lia]]. rewrite <- E1. eapply take_below; [|exact E2]. lia.
Qed.

Lemma steps_settled c c' : built c -> rtc chain_step c c' -> built c' /\ settled c c'.
Proof using Hgenesis.
  intros Hb Hs. induction Hs as [c|a b c Hab _ IH]; [split; [done|]; intros Hn; split; [done|split; [done|lia]]|].
  destruct (step_settled a b Hb Hab) as [Hb' H1]. destruct (IH Hb') as [Hc H2]. split; [done|].
  by apply (settled_trans a b c).
Qed.

Lemma GetBlockHash_take c c' h :
  take (Z.to_nat (h + 1)) c' = take (Z.to_nat (h + 1)) c -> GetBlockHash c' h = GetBlockHash c h.
Proof using.
  intros E. unfold GetBlockHash. destruct (Z.ltb_spec h 0); [done|].
  rewrite <- (lookup_take_lt c' (Z.to_nat (h + 1))), E, lookup_take_lt by lia. done.
Qed.

(** C1: finality is irreversible.  Let a chain reached from genesis by connecting blocks
    and by reorganisations have finalized a checkpoint.  Then the checkpoint is a block
    of that chain, and in every chain reached later, by whatever blocks and side
    branches, the whole history up to it is unchanged, with the module states that
    belong to it, the checkpoint is still at its height, and the finalized height has
    not decreased. *)
Theorem finality_irreversible c c' :
  chain_reachable c -> rtc chain_step c c' -> RecordIsNull (latest c) = false ->
  let target := r_target (latest c) in
  GetBlockHash c (height target) = Some (hash target)
  /\ take (Z.to_nat (height target + 1)) c' = take (Z.to_nat (height target + 1)) c
  /\ GetBlockHash c' (height target) = Some (hash target)
  /\ RecordIsNull (latest c') = false
  /\ FinalizedHeight (state_of c) <= FinalizedHeight (state_of c').
Proof using Hgenesis.
  intros Hc Hs Hn target. apply reachable_built in Hc. destruct (steps_settled c c' Hc Hs) as [_ H].
  destruct (built_record c Hc Hn) as (Hh & _). destruct (H Hn) as (E & Hn' & Hle).
  split; [done|]. split; [done|]. split; [by rewrite (GetBlockHash_take c c')|]. split; [done|].
  unfold FinalizedHeight. fold (latest c) (latest c'). by rewrite Hn, Hn'.
Qed.

End Node.

(** ** A run to the first finalized checkpoint *)

(** Modules that accept every block. *)
Definition idle_modules (_ : Z -> option Hash256) (_ : FinalityState) (_ : Block)
    (x : unit * ValidatorRegistry) : option (unit * ValidatorRegistry) := Some x.
Definition idle_promotion (_ : Z -> option Hash256) (_ : FinalityState) (m : unit) : option (unit * bool) :=
  Some (m, false).

Definition quiet_header : BlockHeader := mkHeader 1 ZeroHash ZeroHash 0 0 0.
Definition quiet (h : Z) : Block := mkBlock quiet_header [] h.
Definition quiet_hash : Hash256 := BlockHeaderOps.GetHash quiet_header.

Lemma no_boundary h (reg : ValidatorRegistry) st :
  0 <= h < 479 -> MaybeSnapshotEpochFor_ h reg st = Some (reg, st).
Proof.
  intros Hh. unfold MaybeSnapshotEpochFor_. unfold EpochOf. change EPOCH_BLOCKS with 480.
  rewrite Z.div_small by lia. change (EpochStart (u64 (0 + 1))) with 480.
  destruct (Z.eqb_spec (h + 1) 480); [lia|]. by rewrite orb_true_r.
Qed.

Lemma early_height st h : h < 2880 -> OnBlockHeight st h = st.
Proof.
  intros H. unfold OnBlockHeight, ConsensusSecurityUpgradeActive, CONSENSUS_SECURITY_UPGRADE_HEIGHT.
  destruct (Z.leb_spec 2880 h); [lia|]. done.
Qed.

Lemma record_qc_loop_total bitmap i es h vs :
  Forall (fun e => PubkeyCommit (pubkey_hex e) = pubkey_commit e) es ->
  Forall (fun e => is_Some (vs !! pubkey_hex e)) es ->
  is_Some (record_qc_loop bitmap i es h vs).
Proof.
  revert i vs. induction es as [|e es IH]; intros i vs Hc Hv; [by eexists|].
  apply Forall_cons in Hc as [Hc Hcs]. apply Forall_cons in Hv as [[v Hv] Hvs]. cbn [record_qc_loop].
  destruct (bit_set bitmap i); cbn [negb]; [|by apply IH]. rewrite Hv.
  rewrite bool_decide_false by (intros C; by destruct C). apply IH; [done|].
  eapply Forall_impl; [exact Hvs|]. intros e' [v' He']. cbv beta.
  destruct (decide (pubkey_hex e = pubkey_hex e')) as [->|].
  - rewrite lookup_insert_eq. by eexists.
  - rewrite lookup_insert_ne by done. by eexists.
Qed.

Section Run.
Context (s : EpochSnapshot) (vs : gmap bytes ValidatorRecord).
Context (Hwf : SnapshotWellFormed s = true) (Hq : Qualified s = true) (Hep : epoch_id s = 0).
Context (Hn : length (entries s) = 7%nat).
Context (Hkeys : Forall (fun e => exists pk, HexToPublicKey (pubkey_hex e) = Some pk) (entries s)).
Context (Hreg : Forall (fun e => is_Some (vs !! pubkey_hex e)) (entries s)).

Definition run_genesis : Engine :=
  mkEngine (mkState 2 true false [(0, s)] NullRecord NullRecord false)
    (set_validators EmptyRegistry vs) tt.

Abbreviation connect := (ConnectBlock accept_all ZeroHash idle_modules idle_promotion run_genesis).
Abbreviation reach := (chain_reachable accept_all ZeroHash idle_modules idle_promotion run_genesis).

Lemma connect_quiet c :
  size c < 479 -> connect c (quiet (size c)) = Some (c ++ [mkFrame (quiet (size c)) (tip_engine run_genesis c)]).
Proof using.
  clear Hn Hep. intros Hc. unfold ConnectBlock. cbn [Block.height quiet]. rewrite Z.eqb_refl. cbn [negb].
  unfold ApplyBlockModules_. cbn [Block.height quiet]. rewrite early_height by lia.
  unfold idle_modules, FeedFinalityCerts_. cbv beta iota zeta.
  change (ParseFinalityBlock ParseOpReturn (quiet (size c))) with NONE. cbv beta iota zeta.
  unfold idle_promotion. cbv beta iota zeta. rewrite no_boundary by (pose proof (size_nonneg c); lia).
  by destruct (tip_engine run_genesis c) as [st reg []].
Qed.

Definition quiet_chain (n : nat) : list Frame :=
  map (fun i => mkFrame (quiet (Z.of_nat i)) run_genesis) (seq 0 n).

Lemma quiet_chain_reach n :
  (n <= 479)%nat ->
  reach (quiet_chain n) /\ tip_engine run_genesis (quiet_chain n) = run_genesis
  /\ size (quiet_chain n) = Z.of_nat n.
Proof using.
  clear Hn Hep. unfold size, quiet_chain at 3. rewrite length_map, length_seq.
  induction n as [|n IH]; intros Hle; [split; [constructor|done]|].
  destruct IH as (H1 & H2 & _); [lia|]. split; [|split; [|done]].
  - apply (chain_next _ _ _ _ _ (quiet_chain n)); [done|].
    apply (step_connect _ _ _ _ _ _ (quiet (size (quiet_chain n)))).
    rewrite connect_quiet by (unfold size, quiet_chain; rewrite length_map, length_seq; lia).
    rewrite H2. unfold quiet_chain at 3. rewrite seq_S, map_app. cbn [map].
    do 4 f_equal. unfold size, quiet_chain. by rewrite length_map, length_seq.
  - unfold quiet_chain. rewrite seq_S, map_app. apply tip_engine_snoc.
Qed.

(** The certificate of all seven members for the block at height 20. *)
Definition run_qc : QuorumCert :=
  mkQc 0 ZeroHash PRECOMMIT (CheckpointRound 20) NullRef (mkRef 20 quiet_hash) [127] 0.
Definition run_sigs : list bytes := replicate 7 (replicate (Z.to_nat SIG_MAX_BYTES) 7).
Definition run_wire : bytes := EncodeQc run_qc run_sigs.
Definition run_carrier : Block :=
  mkBlock quiet_header [mkTx 1 [] (map carrier_output (EncodeFinalityCarrierPayloads run_wire)) 0] 21.

Lemma run_wire_decodes : is_bytes run_wire /\ DecodeQc run_wire = Some (mkDecoded run_qc run_sigs).
Proof using.
  assert (Hb : is_bytes run_wire) by (apply (bool_decide_unpack _); vm_compute; exact I).
  split; [exact Hb|]. vm_compute. reflexivity.
Qed.

Lemma run_parsed : ParseFinalityBlock ParseOpReturn run_carrier = VALID (mkDecoded run_qc run_sigs).
Proof using.
  destruct run_wire_decodes as [Hb Hd]. destruct (scan_carrier run_wire _ Hb Hd) as (c & Hs & Hc).
  unfold ParseFinalityBlock. rewrite scan_txs_flat. unfold run_carrier. cbn [transactions map outputs concat].
  rewrite app_nil_r, Hs. exact Hc.
Qed.

Lemma run_completed_ok : QcWellFormed (completed run_qc s) s = true.
Proof using Hwf Hn Hep.
  apply (full_qc_ok s _ Hwf Hn); cbn [completed run_qc qc_epoch_id qc_set_root qc_phase qc_round
    qc_source qc_target qc_bitmap qc_weight];
    [by rewrite Hep|reflexivity|right; reflexivity|reflexivity|reflexivity|reflexivity|reflexivity
    |reflexivity|apply (full_weight s Hwf Hn)].
Qed.

Lemma run_verified :
  VerifyDecodedQc accept_all (mkDecoded run_qc run_sigs) s NETWORK_ID ZeroHash
  = Some (mkDecoded (completed run_qc s) run_sigs).
Proof using Hwf Hn Hep Hkeys.
  apply VerifyDecodedQc_iff; [right; reflexivity|]. cbn [d_qc d_sigs].
  split; [reflexivity|]. split; [apply run_completed_ok|].
  assert (E : forall es, length es = 7%nat -> selected [127] 0 es = es).
  { intros es He. do 8 (destruct es as [|? es]; [try discriminate He; reflexivity|]). discriminate He. }
  cbn [run_qc qc_bitmap]. rewrite E by done.
  apply Forall2_same_length_lookup_2; [by rewrite Hn|].
  intros i e sig He Hs. unfold run_sigs in Hs. apply lookup_replicate in Hs as [-> _].
  split; [vm_compute; reflexivity|]. rewrite Forall_lookup in Hkeys.
  destruct (Hkeys i e He) as [pk Hpk]. exists pk. split; [done|reflexivity].
Qed.

Lemma run_finalizes :
  exists e, connect (quiet_chain 21) run_carrier = Some (quiet_chain 21 ++ [mkFrame run_carrier e])
    /\ RecordIsNull (record (fin_state_ e)) = false
    /\ r_target (record (fin_state_ e)) = mkRef 20 quiet_hash.
Proof using Hwf Hq Hn Hep Hkeys Hreg.
  destruct (quiet_chain_reach 21) as (_ & Ht & Hz); [lia|].
  unfold ConnectBlock. rewrite Hz, Ht. change (negb (Block.height run_carrier =? Z.of_nat 21)) with false.
  unfold ApplyBlockModules_. change (Block.height run_carrier) with 21. rewrite early_height by lia.
  cbn [idle_modules modules_ registry_ fin_state_ run_genesis]. unfold FeedFinalityCerts_.
  rewrite run_parsed. cbn [d_qc]. change (qc_epoch_id run_qc) with 0.
  change (negb (qc_phase run_qc =? PRECOMMIT)
    || negb (InVoteWindow (height (qc_target run_qc)) (Block.height run_carrier))) with false.
  cbn [map_find snapshots Z.eqb]. rewrite run_verified. cbn [d_qc completed qc_target run_qc height].
  assert (Hh : GetBlockHash (quiet_chain 21) 20 = Some quiet_hash) by reflexivity.
  rewrite Hh. cbn [hash]. rewrite bool_decide_false by (intros C; by destruct C).
  set (st := mkState _ _ _ _ _ _ _). fold run_qc. fold (completed run_qc s).
  set (carrier := mkRef _ _).
  pose proof (OnCertificate_first st (completed run_qc s) carrier s eq_refl eq_refl eq_refl
    run_completed_ok Hq eq_refl eq_refl eq_refl) as E.
  change (hash (qc_target (completed run_qc s))) with quiet_hash in E. rewrite E.
  unfold RecordFinalityQc. rewrite run_completed_ok.
  change (negb true || negb (qc_phase (completed run_qc s) =? PRECOMMIT)) with false.
  destruct (record_qc_loop_total (qc_bitmap (completed run_qc s)) 0 (entries s) (Block.height run_carrier)
    (validators_ (set_validators EmptyRegistry vs))) as [vs' Hvs'].
  { apply SnapshotWellFormed_iff in Hwf as (Hm & _). eapply Forall_impl; [exact Hm|].
    intros e He. apply member_ok_iff in He as (_ & _ & _ & He). exact He. }
  { exact Hreg. }
  rewrite Hvs'. cbn [idle_promotion]. rewrite no_boundary by lia.
  eexists. split; [reflexivity|]. cbn [fin_state_ record]. split; reflexivity.
Qed.

(** The checkpoint survives the next block. *)
Lemma run_settled (P : list Frame -> Prop) :
  (forall c c', reach c -> rtc (chain_step accept_all ZeroHash idle_modules idle_promotion run_genesis) c c' ->
     RecordIsNull (latest run_genesis c) = false -> r_target (latest run_genesis c) = mkRef 20 quiet_hash ->
     size c' = 23 -> P c') -> exists c', size c' = 23 /\ P c'.
Proof using Hwf Hq Hn Hep Hkeys Hreg.
  intros H. destruct run_finalizes as (e & Hc & Hnn & Ht).
  destruct (quiet_chain_reach 21) as (Hr & _ & Hz); [lia|].
  set (c := quiet_chain 21 ++ [mkFrame run_carrier e]) in *.
  assert (Hzc : size c = 22) by (unfold c; rewrite size_app, Hz; reflexivity).
  assert (Hz' : size (c ++ [mkFrame (quiet (size c)) (tip_engine run_genesis c)]) = 23)
    by (rewrite size_app, Hzc; reflexivity).
  exists (c ++ [mkFrame (quiet (size c)) (tip_engine run_genesis c)]). split; [exact Hz'|]. apply (H c).
  - apply (chain_next _ _ _ _ _ (quiet_chain 21)); [done|]. by apply (step_connect _ _ _ _ _ _ run_carrier).
  - apply rtc_once. apply (step_connect _ _ _ _ _ _ (quiet (size c))). apply connect_quiet. lia.
  - unfold c. by rewrite latest_snoc.
  - unfold c. by rewrite latest_snoc.
  - exact Hz'.
Qed.

End Run.

(** The seven sample validators, frozen for the first epoch. *)
Definition run_set : EpochSnapshot := BuildEpochSnapshot sample_registry 0 959.
Definition run_validators : gmap bytes ValidatorRecord :=
  list_to_map (map (fun r => (v_pubkey_hex r, r)) sample_registry).

Lemma sample_keys_hex :
  Forall (fun r => exists pk, HexToPublicKey (v_pubkey_hex r) = Some pk) sample_registry.
Proof.
  unfold sample_registry. apply Forall_map. repeat (apply Forall_cons_2; [eexists; vm_compute; reflexivity|]).
  apply Forall_nil_2.
Qed.

Lemma run_set_members :
  SnapshotQualifies run_set = true /\ length (entries run_set) = 7%nat
  /\ Forall (fun e => exists r, r ∈ sample_registry /\ pubkey_hex e = v_pubkey_hex r) (entries run_set).
Proof.
  destruct (BuildEpochSnapshot_entries sample_registry 0 959 sample_registry_ok) as [_ Hp].
  rewrite sample_all_qualified in Hp by reflexivity. fold run_set in Hp. split; [|split].
  - apply BuildEpochSnapshot_qualifies; [apply sample_registry_ok|].
    rewrite sample_all_qualified by reflexivity. split; discriminate.
  - rewrite <- Hp, length_map. reflexivity.
  - rewrite <- Hp. apply Forall_map, Forall_forall. intros r Hr. by exists r.
Qed.

Lemma run_conditions :
  Forall (fun e => exists pk, HexToPublicKey (pubkey_hex e) = Some pk) (entries run_set)
  /\ Forall (fun e => is_Some (run_validators !! pubkey_hex e)) (entries run_set).
Proof.
  destruct run_set_members as (_ & _ & Hm). pose proof sample_keys_hex as Hk. rewrite Forall_forall in Hk.
  split; eapply Forall_impl; try exact Hm; intros e (r & Hr & E); cbv beta; rewrite E.
  - by apply Hk.
  - destruct (run_validators !! v_pubkey_hex r) eqn:El; [by eexists|exfalso].
    apply not_elem_of_list_to_map_2 in El. apply El. apply list_elem_of_fmap.
    exists (v_pubkey_hex r, r). split; [done|]. apply list_elem_of_fmap. by exists r.
Qed.

Lemma finality_irreversible_witness :
  exists c', size c' = 23 /\ GetBlockHash c' 20 = Some quiet_hash
    /\ 20 <= FinalizedHeight (state_of (run_genesis run_set run_validators) c').
Proof.
  destruct run_set_members as (Hq & Hn & _). destruct run_conditions as [Hk Hr].
  unfold SnapshotQualifies in Hq. apply andb_true_iff in Hq as [Hwf Hq].
  apply (run_settled run_set run_validators Hwf Hq eq_refl Hn Hk Hr
    (fun c' => GetBlockHash c' 20 = Some quiet_hash
       /\ 20 <= FinalizedHeight (state_of (run_genesis run_set run_validators) c'))).
  intros c c' Hc Hs Hnn Ht _.
  destruct (finality_irreversible accept_all ZeroHash idle_modules idle_promotion
    (run_genesis run_set run_validators) eq_refl c c' Hc Hs Hnn) as (_ & _ & H3 & _ & H5).
  unfold FinalizedHeight at 1 in H5. fold (latest (run_genesis run_set run_validators) c) in H5.
  rewrite Hnn, Ht in H5. rewrite Ht in H3. split; [exact H3|exact H5].
Defined.
